(* ===== verification/_CoqProject ===== *)
-Q . S2P
Prelude.v
Runs.v
GoStrings.v
Names.v
Vocabulary.v
Glob.v
Claims.v
NetUrl.v
Utf8.v
Policy.v
SlackPolicy.v
Validate.v
Evaluate.v
Scope.v
PolicySet.v
Sha256.v
Base64.v
Port.v
Memory.v
Items.v
Codecs.v
CrashLogic.v
Links.v
LinksSafety.v
Lease.v
Rails.v
Asking.v
GitHub.v
LinkCheck.v
GitHubDecide.v
Journal.v
GitHubPass.v
SlackData.v
SlackLayout.v
SlackDerive.v
SlackDecide.v
SlackApply.v
SlackInputs.v
SlackReport.v
SlackPass.v
Catalogue.v
IssuerState.v
Sessions.v
SessionsSpec.v
SessionsSafety.v
KeyRing.v
KeyRingSafety.v
SSO.v
Issuer.v
ClientDoc.v
Storage.v
StorageSafety.v
GitHubTokens.v
Snapshot.v
Hub.v
HubSafety.v
HubClients.v
Access.v
Cookies.v
SignIn.v
SignInSafety.v
