(* ===== verification/Prelude.v ===== *)
(** * access-roster: a verification development

    access-roster turns who somebody provably is into what they may do.  A policy
    repository declares groups, the conditions that put a proof in them, and what
    consumes them; the console evaluates it; the issuer puts the result in tokens;
    and reconcilers (rosters) make GitHub and Slack look like it.  This development
    models the parts that decide: the policy language and its evaluation, the guards
    every removal passes, the GitHub and the Slack reconcile, the store and leases the
    reconcilers run on, and what the issuer keeps — sessions, browser sign-ins, signing
    keys, requests, codes, tokens — and grants.

    ** The parts, and where they are modelled

    - [Prelude] (this file): the error monad of Go's [(T, error)], loops over sorted
      keys, and the generic lemmas; [GoStrings], [NetUrl], [Utf8], [Sha256], [Base64]:
      what the source uses of Go's standard library.
    - policy/policy.go, policy/evaluate.go (names and subjects): [Names].
    - policy/vocabulary.go: [Vocabulary].  Matching and claims fragments,
      policy/policy.go [globs], policy/merge.go: [Glob], [Claims].
    - The schema, its matchers and its validation — policy/policy.go, resource.go,
      clientdoc.go, slack.go, groups_delimiter.go, scope.go: [Policy] (the tables and
      the name checks), [SlackPolicy] (people and channels), [Validate]
      ([Policy.Validate], with a constructor per message).
    - policy/evaluate.go: [Evaluate] — the groups a proof holds, by membership and by
      inheritance along the role ladders, the reasons, the claims, the lifetime.
    - policy/scope.go: [Scope] — which of the groups held an audience's token says.
    - policy/set.go, policy/slack_team.go: [PolicySet] — files merged into one policy,
      and its views.
    - internal/rails: [Rails] — asking the directory, [Removal], the removal breaker,
      the ledger, gates and pacing; [Lease] — leases.
    - internal/port, internal/port/memory: [Port] — the State interface as a class of
      operations and a class of laws; [Memory] — the in-memory store, an instance.
    - internal/portstore/portstore.go: [Items] (edits, items, listings and key segments as
      programs of port calls, alone or among other writers), [CrashLogic] (a Hoare logic of
      such programs that may stop after any call) and [Codecs] (documents and a sealer to
      evaluate with).  internal/githubroster/link/link.go, internal/portstore/githublinks.go:
      [Links] (a link, and the store of links) and [LinksSafety].
    - internal/githubroster/controller/links.go: [LinkCheck] (the check of a link, against
      any answers).
    - internal/githubroster/reconcile: [GitHub] ([Derive]) and [GitHubDecide]
      ([Draft.Decide], [Guard]).
    - [Runs]: code that talks to the outside as a program of calls, and what it does against
      any answers.  internal/rails/journal.go: [Journal], the reports.
      internal/githubroster/controller/controller.go, guards.go: [GitHubPass], a pass over an
      organisation from its reads to its changes and its report, and the sweep over targets.
    - internal/githubapp/catalogue: [Catalogue], the declared GitHub Apps and their grants.
      internal/issuer/githubtoken.go, githubtoken_http.go: [GitHubTokens], the exchange of a
      proof for an installation token within one grant.
    - internal/slackroster/reconcile: [SlackData] (the records of the console, the
      workspaces read, and their validation), [SlackLayout] (who each channel wants, on
      its own and as the side of a shared one), [SlackDerive] (reconcile.go and
      derive.go: lookups, [Derive] and its errors, [Confirm]) and [SlackDecide]
      (decide.go: the verdicts, the breakers, the report and the discovery lists).
    - internal/slackroster/apply: [SlackApply] (reading a workspace whole, and carrying a
      decision out, as programs of calls).  internal/slackroster/controller: [SlackInputs]
      (records.go, directory.go, [readInputs]), [SlackReport] (the report, what is recorded
      once, and probe.go) and [SlackPass] (a workspace's pass, ticks and the sweep).  What both
      controllers ask the console is [Asking] (internal/rails/directory.go).
    - internal/issuer/state.go: [IssuerState] — the issuer's store as a class of
      operations and a class of laws, and the in-memory store, an instance.
    - internal/issuer/session.go: [Sessions] (the operations), [SessionsSpec] (the book
      they implement, and the simulation) and [SessionsSafety] (what follows).
    - internal/issuer/keyring.go, keyrings.go: [KeyRing] and [KeyRingSafety].
    - internal/issuer/sso.go: [SSO].
    - internal/issuer/issuer.go, resolve.go, exchange.go, claims.go, scoping_enforce.go,
      groups_delimiter.go and the lifetime in mint.go: [Issuer].
    - internal/issuer/clientdoc.go: [ClientDoc].
    - internal/issuer/storage.go, signing_audience.go, recovery.go, grants.go: [Storage]
      (what the OpenID library calls, as steps of a process over the shared store) and
      [StorageSafety].
    - internal/issuer/signin.go: [SignIn] (each handler as a decision on one answer) and
      [SignInSafety].
    - internal/hub, internal/hublocal: [Snapshot] (what is kept of a directory), [Hub] (the
      workspaces, the routing, the freshness policy and every operation), [HubSafety], and
      [HubClients] (the issuer's directory, and the lease on a refresh).
    - internal/access: [Access] (access.go, the console's identities) and [Cookies]
      (state.go and session.go, what the issuer and the console sign).

    A definition's comment names the file under src/ and the function or lines it
    translates.  Go's names are kept; a method is [Type_Method] where its bare name is
    taken, and a record's fields carry a short prefix.

    ** How the parts meet

    A layer that [Validate] accepts has no dangling reference ([Validate_references])
    and no name outside the vocabulary; [PolicySet] merges such layers without losing
    or overwriting a row; [Evaluate] resolves a proof against the result;
    [ScopeGroups] cuts the groups down to an audience; [Holders] and [Vouch] are the
    same answers as the reconcilers ask for them.  [Derive] reads the binding a
    [GitHub] table row gives and the holders of its groups; [Draft_Decide] settles each
    removal with [Removal] on the directory's answers, and [Guard] holds what must not
    go out.  Slack's [Draft_Decide] does the same for channels: it holds nobody to be
    gone that [Removal] does not.  A pass runs under a lease ([Lease]), proved against
    the class [StateSpec], which [Memory] instantiates.  The links [Derive] is given are read
    by [storedLinks] from the store that [Links] keeps, as [checkLinks] last left them.

    The hub ([Hub]) answers about an address from the snapshot of the one workspace that
    serves its domain, or by asking that directory, and says whether the answer may be
    acted on; the console ([Access]) and, through [HubClients], the issuer ask it.
    The issuer asks about an address ([Resolve]), evaluates the policy with the
    answer ([evaluate], over [Evaluate]) and grants what an audience admits
    ([Exchange]).  What it hands out is kept by [Sessions], whose limit comes from the
    policy ([issuer_sessions]); [SSO] and [KeyRing] keep the sign-ins and the keys in
    the same store.  [Storage] puts them together: a request waits in the store until a
    sign-in passes both gates ([entitled], over [Resolve], [Evaluate] and [ClientDoc]),
    a code turns it into tokens and a session, a refresh meets the gates again, and a
    revocation or a code used twice ends the session.  The pages ([SignIn]) begin and end the sign-ins those gates
    are asked for, and find them again by the state they signed ([Cookies]).  All are proved
    against the class [IStateSpec], which [IssuerState] instantiates, and [KeyRing] against a store that
    may fail at any call as well.

    ** What the theorems show

    - Evaluation: the groups held are exactly the least set closed under membership
      and inheritance; each has a reason and no reason is made up; without an
      authoritative answer the directory's groups count for nothing; a proof of
      nothing holds nothing; more evidence never takes a group away; the walk ends;
      what bounds a lifetime and a session.  Every group resolved is one the vocabulary
      allows, and a groups claim adds only what a claims row of a group held spells out.
    - Validation: what a policy that loads guarantees of references, targets,
      matchers, delimiters, people and Slack channels; wildcard expansion and cycle
      detection are exact; merging loses nothing and does not depend on file order.
    - Scoping: the groups claim is a partition of the groups held, decided by the
      audience's gate; what no gate and no override names is reported unread.
    - Removals: nobody leaves a GitHub team or organisation on less than an
      authoritative answer about every address (or GitHub's word that the link is
      gone), owners and ignored accounts are never removed or demoted, every change of
      a membership has a live holder of a bound group behind it, invitations go to
      accounts that proved a wanted address, once each and never past the free seats,
      and a removal of more than half the members happens only as confirmed.
    - Stores and leases: a watch never loses a change in silence; a listing page by page
      gives every live record once; at most one runner's lease on a target is good
      however steps interleave; releasing takes nothing from anybody; how late a
      runner cut off from the store is stopped.
    - Links: an edit of a key is one atomic step among any other writers, which gives up only
      after the key changed under each of its attempts; a claim stopped
      anywhere is finished by the next listing, and no address is then proven twice; of two
      updates from one revision one goes in, so a single-use token is spent once, and only
      right behind its marker; a link is lost on GitHub's own word about that link alone, and an
      outage leaves it linked.
    - A pass over an organisation: nobody is removed unless, in that very pass, the console
      vouched for it under this policy, or the link check had lost the link; a pass that
      cannot read everything changes nothing and keeps its report; what it changed is what it
      recorded; a restarted reconciler starts from what was published.
    - Installation tokens: a token served stays within one grant of the App, held by the
      proof's own groups, and within what the App was given; the grant chosen is the first
      that fits; a request reads back as it was spelled.
    - Slack channels: nobody is removed from a channel on less than an authoritative
      answer, nobody who is ignored, adopted or wanted under another address; a breaker
      that trips blocks its channel and nothing else; an invitation has a binding and a
      live holder behind it; a derivation that misses one lookup answers with an error
      and decides nothing; enough fuel reaches every account.
    - A pass over a workspace: whoever is put out of a channel was read in it in that pass, by
      an enabled workspace, and the directory settled every address of theirs; a workspace that
      could be read is read whole; a pass that cannot read, or may not act, changes and records
      nothing and keeps what was last known; each action is asked of Slack at most once, in its
      own channel, and told what became of it; a report names exactly what stands now, and what
      the last process recorded is not recorded again.
    - Sessions: every answer of the index, over any history, is the answer of a book that
      has no index sets to go stale (queries that name an identity with a space around it set
      apart: they miss its sessions); a refresh rotates; a spent token answers for its
      grace window with the same successor, and no longer; no session outlives the
      absolute limit; revoking is final and ends what the listing shows.
    - Sign-ins: one answers for exactly its lifetime; ending it, or all of a person's,
      leaves none; a listing misses none.
    - Keys: the key that signs stays published for the overlap, unless another activates at
      the very moment it does; what a replica signs with
      it publishes, whatever the store fails at; whoever records a key first decides when
      it activates; replicas with the same records agree.
    - Grants: nobody is resolved on less than the directory's word with authority, now or
      within the hold window; an exchange is granted to who holds a group the audience requires and is
      recorded; the groups claim of a token; how long a minted token lives.
    - Clients that describe themselves: one is answered only as a document fetched at its
      own admitted address said, within the hour; what the origin says is obeyed.
    - Requests, codes and tokens: a request is done only by somebody its client and its
      resource admit, and a recovery never without its record; a refresh meets the same
      gates and the limit as the policy states them now; no access token outlives a cap on
      it, but the one for clients that describe themselves, which is not asked; a token
      revoked is dead whatever it stood for; a code used twice ends the session it opened,
      if it opened one; an access token proves a person only through a live session; and where
      a client's document cannot be fetched, the gates are not met at all.
    - Pages: a request completes silently only from a live, fresh sign-in of a person the
      directory still knows; a callback completes the request its own browser began, for
      the address the provider says, and a recovery leaves nothing when it cannot be
      recorded; a sign-out ends the sessions it lists and completes nothing after.
    - The directory: what an answer that may be acted on rests on, from the directory to the
      issuer's resolution; whose a domain is; narrowing takes effect at once and loses nobody
      kept, and is what a smaller read would have stored; a live read patched in changes one
      person; groups within groups are resolved in a bounded number of turns, whole or said to be
      cut; whatever is asked in whatever order, and whatever fails on the way, records and
      indexes stay in order; and the lease on a refresh holds others off for three quarters of
      an interval and nobody for longer.
    - The console: an identity, a recovery's apart, is what the policy gives on the
      directory's word, now or within the hold window; a person it vouches is suspended is
      refused, but a grant held from before is not forgotten; the holders shown are those
      the policy gives; a signed state or session is taken only as it was issued, by the
      key and for the time it was issued, and neither is taken for the other.
    - Round trips of grant names, subjects, page tokens and Base64.

    ** Bounds and fuel

    Loops that are not structural take fuel, and a lemma says the fuel given is always
    enough: [walk_fuel] (the inheritance walk: every grant reachable in a step enters
    the queue once), [expand_fuel] (groups within groups: no more are queued than the bound
    asked for), the visit of the role graph (one more than the roles there are),
    the chunks and stars of a glob (the length of what is left to read), the pages of
    a listing (one more than the records there are).  Each of these is a total
    function; none of the theorems is about runs that happen to end.

    Durations and times are nanoseconds in [Z]; the shift in the reconcilers' retry
    wait is wrapped to 64 bits as Go's is.  The memory store's revision counter is a
    [uint64] that wraps: its promises are proved for as many writes as the counter
    still has room for ([ok n]), and the theorems on leases carry that number.

    ** Readings of Go

    - A Go string is its bytes.  [ToLower], [TrimSpace] and [EqualFold] are read on
      ASCII; a byte above 127 is left as it is.
    - A nil and an empty map or list are one value.  The one place the source tells
      them apart — a client documents block that spells an empty list, seen by
      [reflect.IsZero] when layers merge — is therefore read as absent.
    - A loop over [slices.Sorted(maps.Keys(m))] is a fold over the sorted keys.  A loop
      over a map whose order Go leaves open is a set, a map operation that does not
      depend on the order, or read in key order where an order must be chosen (the
      events of a sweep, the versions of a replace, which link a lost address names).
    - The issuer's clock is its store's, and does not move within a step; where the source
      lets another request or time come in between, the step is split ([refresh_begin],
      [refresh_end]).  An id a step draws at random is its argument.  A JSON document in
      a store is the value it encodes ([Document]); a failing store is a result.
    - A pointer is an [option]; an error is a constructor of a sum, with the data its
      message prints.  Log lines, metrics and contexts are left out.

    ** What is not modelled, and why

    YAML and JSON decoding, HTTP, the GitHub and Slack APIs, Kubernetes, Valkey, NATS,
    DynamoDB and the other adapters are third-party or external: the model starts at
    parsed values and at the answers such a service gives, which are arguments.  The
    sealer is AES-GCM from the standard library.  Generated code, the web console, the
    charts and the commands hold no decisions.

    Of the issuer's and the console's HTTP handlers the decisions are kept; the words and
    HTML of their pages, the OpenID library around them and the cryptography of tokens are
    left out, but for HMAC-SHA256; of the keys, their ids and schedule are kept.

    Of the Slack controller the records are read from a store, not from mounted files; one tick
    runs at a time; how the reason of a refused record reads is a parameter.

    ** What is left

    What could be modelled the same way: the other stores over [Items]
    (internal/portstore: workspaces, apps, session keys), the issuer's provider and
    sessions service, and the console's handlers over [Hub], [Access] and the policy set,
    which are mostly translation to messages. *)

From Stdlib Require Export Ascii.
From stdpp Require Export base gmap sets list strings sorting option numbers.
From stdpp Require Export fin_maps fin_sets.

#[global] Set Default Goal Selector "!".

Declare Scope roster_scope.
Delimit Scope roster_scope with roster.
#[global] Open Scope roster_scope.

Create HintDb roster.

(** ** Results: Go's [(T, error)], with the error as a value of a sum *)

Inductive result (E A : Type) : Type :=
| Ok (a : A)
| Err (e : E).
Arguments Ok {E A} a.
Arguments Err {E A} e.

#[global] Instance result_eq_dec {E A} `{EqDecision E, EqDecision A} : EqDecision (result E A).
Proof. solve_decision. Defined.

#[global] Instance result_ret {E} : MRet (result E) := λ A, @Ok E A.
#[global] Instance result_bind {E} : MBind (result E) := λ A B f m,
  match m with Ok a => f a | Err e => Err e end.
#[global] Instance result_fmap {E} : FMap (result E) := λ A B f m,
  match m with Ok a => Ok (f a) | Err e => Err e end.

Definition is_ok {E A} (r : result E A) : bool :=
  match r with Ok _ => true | Err _ => false end.

(** [if !ok { return err }]: the early return of a failed check. *)
Definition check {E} (ok : bool) (e : E) : result E unit :=
  if ok then Ok tt else Err e.

(** [fmt.Errorf("...: %w", err)]: an error wrapped by its caller. *)
Definition wrap {E E' A} (f : E → E') (r : result E A) : result E' A :=
  match r with Ok a => Ok a | Err e => Err (f e) end.

(** [for _, x := range xs { if err := f(x); err != nil { return err } }]. *)
Fixpoint for_each {E A} (f : A → result E unit) (xs : list A) : result E unit :=
  match xs with
  | [] => Ok tt
  | x :: rest => match f x with Ok _ => for_each f rest | Err e => Err e end
  end.

(** The same loop over a local the body updates. *)
Fixpoint fold_m {E S A} (f : S → A → result E S) (s : S) (xs : list A) : result E S :=
  match xs with
  | [] => Ok s
  | x :: rest => match f s x with Ok s' => fold_m f s' rest | Err e => Err e end
  end.

Section results.
Context {E : Type}.

Lemma bind_ok {A B} (m : result E A) (k : A → result E B) b :
  m ≫= k = Ok b ↔ ∃ a, m = Ok a ∧ k a = Ok b.
Proof. destruct m; naive_solver. Qed.

Lemma check_ok (b : bool) (e : E) u : check b e = Ok u ↔ b = true.
Proof. destruct b, u; naive_solver. Qed.

Lemma check_err (b : bool) (e e' : E) : check b e = Err e' ↔ b = false ∧ e = e'.
Proof. destruct b; naive_solver. Qed.

Lemma wrap_ok {E' A} (f : E → E') (r : result E A) a : wrap f r = Ok a ↔ r = Ok a.
Proof. destruct r; naive_solver. Qed.

Lemma for_each_ok {A} (f : A → result E unit) xs u :
  for_each f xs = Ok u ↔ Forall (λ x, f x = Ok tt) xs.
Proof.
  destruct u. induction xs as [|x xs IH]; simpl; [naive_solver|].
  rewrite Forall_cons. destruct (f x) as [[]|]; naive_solver.
Qed.

Lemma for_each_err {A} (f : A → result E unit) xs e :
  for_each f xs = Err e ↔
    ∃ l x r, xs = l ++ x :: r ∧ Forall (λ y, f y = Ok tt) l ∧ f x = Err e.
Proof.
  induction xs as [|y xs IH]; simpl.
  - split; [done|]. by intros ([]&?&?&?&_).
  - destruct (f y) as [[]|e'] eqn:Hy.
    + rewrite IH. split.
      * intros (l&x&r&->&Hl&Hx). exists (y :: l), x, r. by rewrite Forall_cons.
      * intros ([|z l]&x&r&?&Hl&Hx); simplify_eq/=; [congruence|].
        exists l, x, r. apply Forall_cons in Hl as [_ Hl]. done.
    + split.
      * intros [= <-]. by exists [], y, xs.
      * intros ([|z l]&x&r&?&Hl&Hx); simplify_eq/=; [congruence|].
        apply Forall_cons in Hl as [? _]. congruence.
Qed.

Lemma for_each_is_ok {A} (f : A → result E unit) xs :
  is_ok (for_each f xs) = true ↔ Forall (λ x, f x = Ok tt) xs.
Proof.
  rewrite <- (for_each_ok f xs tt). destruct (for_each f xs) as [[]|]; naive_solver.
Qed.

Lemma fold_m_app {S A} (f : S → A → result E S) s xs ys :
  fold_m f s (xs ++ ys) = (fold_m f s xs ≫= λ s', fold_m f s' ys).
Proof.
  revert s. induction xs as [|x xs IH]; intros s; simpl; [done|].
  destruct (f s x); naive_solver.
Qed.

(** A loop in a loop is one loop over the pairs. *)
Lemma fold_m_nested {S A B} (f : S → B → result E S) (g : A → list B) s xs :
  fold_m (λ s x, fold_m f s (g x)) s xs = fold_m f s (mjoin (g <$> xs)).
Proof.
  revert s. induction xs as [|x xs IH]; intros s; [done|].
  change (mjoin (g <$> x :: xs)) with (g x ++ mjoin (g <$> xs)). rewrite fold_m_app. simpl.
  destruct (fold_m f s (g x)); [apply IH | done].
Qed.

Lemma fold_m_fmap {S A B} (f : S → B → result E S) (g : A → B) s xs :
  fold_m f s (g <$> xs) = fold_m (λ s x, f s (g x)) s xs.
Proof. revert s. induction xs as [|x xs IH]; intros s; simpl; [done|]. destruct (f s (g x)); auto. Qed.

Lemma fold_m_ext {S A} (f g : S → A → result E S) s xs :
  (∀ s x, f s x = g s x) → fold_m f s xs = fold_m g s xs.
Proof.
  intros H. revert s. induction xs as [|x xs IH]; intros s; simpl; [done|]. rewrite H. destruct (g s x); auto.
Qed.

(** An invariant of the body is one of the loop. *)
Lemma fold_m_inv {S A} (P : S → Prop) (f : S → A → result E S) s xs s' :
  (∀ s x s', P s → f s x = Ok s' → P s') → P s → fold_m f s xs = Ok s' → P s'.
Proof.
  intros Hf. revert s. induction xs as [|x xs IH]; intros s Hs; simpl; [naive_solver|].
  destruct (f s x) eqn:?; naive_solver.
Qed.
End results.

#[export] Hint Rewrite @bind_ok @check_ok @wrap_ok @for_each_ok : roster.

Lemma foldl_ext {A B} (f g : A → B → A) l a : (∀ a b, f a b = g a b) → foldl f a l = foldl g a l.
Proof. intros H. revert a. induction l as [|b l IH]; intros a; simpl; [done|]. by rewrite H. Qed.

(** Reads one step of a monadic sequence that succeeded. *)
Ltac read_ok H :=
  first [apply check_ok in H | apply wrap_ok in H | apply for_each_ok in H | idtac].

(** Splits a hypothesis about a monadic sequence into its steps. *)
Ltac step_ok H :=
  lazymatch type of H with
  | (_ ≫= _) = Ok _ => let a := fresh "a" in let H1 := fresh H in
      apply bind_ok in H as (a & H1 & H); simpl in H; read_ok H1; step_ok H
  | _ => read_ok H
  end.

(** Reads the boolean tests among the hypotheses as propositions. *)
Ltac read_bools :=
  repeat match goal with
  | H : negb _ = true |- _ => apply negb_true_iff in H
  | H : negb _ = false |- _ => apply negb_false_iff in H
  | H : _ && _ = true |- _ => apply andb_true_iff in H as [? ?]
  | H : _ || _ = false |- _ => apply orb_false_iff in H as [? ?]
  | H : bool_decide _ = true |- _ => apply bool_decide_eq_true in H
  | H : bool_decide _ = false |- _ => apply bool_decide_eq_false in H
  end.

(** ** Sorted keys: [slices.Sorted(maps.Keys(m))], [slices.Sort], [slices.Compact] *)

Definition sort_strings (l : list string) : list string := merge_sort String.le l.

Definition keys {V} (m : gmap string V) : list string := (map_to_list m).*1.

Definition sorted_keys {V} (m : gmap string V) : list string := sort_strings (keys m).

(** [slices.Compact]: runs of equal elements become one. *)
Fixpoint compact {A} `{EqDecision A} (l : list A) : list A :=
  match l with
  | x :: (y :: _) as rest => if decide (x = y) then compact rest else x :: compact rest
  | _ => l
  end.

Section sorting.
Implicit Types l : list string.

Lemma elem_of_sort_strings x l : x ∈ sort_strings l ↔ x ∈ l.
Proof. unfold sort_strings. by rewrite merge_sort_Permutation. Qed.

Lemma sort_strings_Permutation l : sort_strings l ≡ₚ l.
Proof. apply merge_sort_Permutation. Qed.

Lemma sort_strings_sorted l : StronglySorted String.le (sort_strings l).
Proof. apply (StronglySorted_merge_sort String.le). Qed.

(** The order is total, so sorting depends on the elements alone. *)
Lemma sort_strings_proper l1 l2 : l1 ≡ₚ l2 → sort_strings l1 = sort_strings l2.
Proof.
  intros H. apply (StronglySorted_unique String.le).
  - apply sort_strings_sorted.
  - apply sort_strings_sorted.
  - by rewrite !sort_strings_Permutation.
Qed.

Lemma NoDup_sort_strings l : NoDup l → NoDup (sort_strings l).
Proof. by rewrite sort_strings_Permutation. Qed.

Lemma elem_of_keys {V} (m : gmap string V) k : k ∈ keys m ↔ is_Some (m !! k).
Proof.
  unfold keys. rewrite list_elem_of_fmap. split.
  - intros ([k' v]&->&H). apply elem_of_map_to_list in H. by eexists.
  - intros [v Hv]. exists (k, v). by rewrite elem_of_map_to_list.
Qed.

Lemma elem_of_values {V} (m : gmap string V) x : x ∈ (map_to_list m).*2 ↔ ∃ k, m !! k = Some x.
Proof.
  rewrite list_elem_of_fmap. split.
  - intros ([k v]&->&H). apply elem_of_map_to_list in H. eauto.
  - intros [k Hk]. exists (k, x). by rewrite elem_of_map_to_list.
Qed.

Lemma NoDup_keys {V} (m : gmap string V) : NoDup (keys m).
Proof. apply NoDup_fst_map_to_list. Qed.

Lemma elem_of_sorted_keys {V} (m : gmap string V) k : k ∈ sorted_keys m ↔ is_Some (m !! k).
Proof. unfold sorted_keys. by rewrite elem_of_sort_strings, elem_of_keys. Qed.

Lemma NoDup_sorted_keys {V} (m : gmap string V) : NoDup (sorted_keys m).
Proof. apply NoDup_sort_strings, NoDup_keys. Qed.

Lemma sorted_keys_sorted {V} (m : gmap string V) : StronglySorted String.le (sorted_keys m).
Proof. apply sort_strings_sorted. Qed.

Lemma elem_of_compact {A} `{EqDecision A} (x : A) (l : list A) : x ∈ compact l ↔ x ∈ l.
Proof.
  induction l as [|y [|z l] IH]; [done..|].
  simpl in *. case_decide; subst; set_solver.
Qed.

Lemma size_list_to_set_length (l : list string) : size (list_to_set l : gset string) ≤ length l.
Proof.
  induction l as [|x l IH]; simpl; [done|].
  rewrite size_union_alt, size_singleton.
  assert (size (list_to_set l ∖ {[x]} : gset string) ≤ size (list_to_set l : gset string)); [|lia].
  apply subseteq_size. set_solver.
Qed.

Lemma elem_of_filter_bool {A} (f : A → bool) (x : A) (l : list A) :
  x ∈ List.filter f l ↔ x ∈ l ∧ f x = true.
Proof. by rewrite !list_elem_of_In, filter_In. Qed.

Lemma compact_cons_inv {A} `{EqDecision A} (x : A) (l : list A) :
  ∃ ys : list A, compact (x :: l) = x :: ys.
Proof.
  revert x. induction l as [|y l IH]; intros x; [by exists []|].
  simpl. case_decide; subst; [apply IH | by eexists].
Qed.

(** Sorted then compacted: no repeats, and still sorted. *)
Lemma compact_sorted l :
  StronglySorted String.le l → StronglySorted String.le (compact l) ∧ NoDup (compact l).
Proof.
  induction l as [|x [|y l] IH]; intros Hs.
  { split; constructor. }
  { split; [done|]. apply NoDup_singleton. }
  apply StronglySorted_inv in Hs as [Hs Hx].
  destruct (IH Hs) as [IH1 IH2]. rewrite Forall_forall in Hx.
  change (compact (x :: y :: l)) with
    (if decide (x = y) then compact (y :: l) else x :: compact (y :: l)).
  case_decide as Hxy; [done|].
  split; constructor; auto.
  - apply Forall_forall. intros z Hz. apply Hx. by rewrite elem_of_compact in Hz.
  - rewrite elem_of_compact, elem_of_cons. intros [?|Hin]; [done|].
    apply StronglySorted_inv in Hs as [_ Hy]. rewrite Forall_forall in Hy.
    destruct Hxy. apply (anti_symm String.le); [apply Hx; set_solver | by apply Hy].
Qed.
End sorting.

#[export] Hint Resolve NoDup_keys NoDup_sorted_keys sorted_keys_sorted sort_strings_sorted : roster.

(** In a list without repeated keys an element is known by its key. *)
Lemma NoDup_fmap_unique {A B} (f : A → B) (l : list A) x y :
  NoDup (f <$> l) → x ∈ l → y ∈ l → f x = f y → x = y.
Proof.
  induction l as [|z l IH]; intros Hnd Hx Hy Heq; [by destruct (not_elem_of_nil x)|].
  apply NoDup_cons in Hnd as [Hz Hnd].
  apply elem_of_cons in Hx as [->|Hx]; apply elem_of_cons in Hy as [->|Hy]; auto.
  - destruct Hz. rewrite Heq. by apply list_elem_of_fmap_2.
  - destruct Hz. rewrite <- Heq. by apply list_elem_of_fmap_2.
Qed.

(** Membership in a flattened list of options, and in a concatenation. *)
Lemma elem_of_mjoin_snd {A B} (rows : list (A * list B)) x :
  x ∈ mjoin rows.*2 ↔ ∃ r, r ∈ rows ∧ x ∈ r.2.
Proof.
  rewrite list_elem_of_join. split.
  - intros (l&Hx&(r&->&Hr)%list_elem_of_fmap). eauto.
  - intros (r&Hr&Hx). exists r.2. split; [done|]. by apply list_elem_of_fmap_2.
Qed.

(** ** A loop that remembers what it has seen *)

(** Every round refuses what was seen and adds what it accepts: the list has no
    repeats, nothing of it was seen before, and every element was accepted. *)
Lemma fold_m_seen {E} (P : string → Prop) (f : gset string → string → result E (gset string)) l seen seen' :
  (∀ s x s', f s x = Ok s' → x ∉ s ∧ s' = {[x]} ∪ s ∧ P x) →
  fold_m f seen l = Ok seen' → NoDup l ∧ Forall P l ∧ (∀ x, x ∈ l → x ∉ seen).
Proof.
  intros Hf. revert seen. induction l as [|x l IH]; intros seen; simpl.
  { intros _. split; [constructor|]. split; [constructor|]. by intros ? ?%elem_of_nil. }
  destruct (f seen x) as [s|] eqn:Hx; [|done]. apply Hf in Hx as (Hn&->&Hp).
  intros (Hnd&Hall&Hout)%IH. split; [|split].
  - constructor; [|done]. intros Hin. apply (Hout x Hin). set_solver.
  - by constructor.
  - intros y [->|Hy]%elem_of_cons; [done|]. specialize (Hout y Hy). set_solver.
Qed.

(** ** A loop that stops at the first error: [for _, x := range xs { y, err := f(x); ... append }] *)

Fixpoint map_m {E A B} (f : A → result E B) (xs : list A) : result E (list B) :=
  match xs with
  | [] => Ok []
  | x :: rest =>
      match f x with
      | Err e => Err e
      | Ok y => match map_m f rest with Ok ys => Ok (y :: ys) | Err e => Err e end
      end
  end.

Lemma map_m_ok {E A B} (f : A → result E B) xs ys : map_m f xs = Ok ys ↔ Forall2 (λ x y, f x = Ok y) xs ys.
Proof.
  revert ys. induction xs as [|x xs IH]; intros ys; simpl.
  - split; [by intros [= <-]|]. by intros ->%Forall2_nil_inv_l.
  - destruct (f x) as [y|] eqn:Hx.
    + destruct (map_m f xs) as [zs|] eqn:Hm.
      * split; [intros [= <-]; constructor; [done|]; by apply IH|].
        intros (y'&ys'&Hy&H&->)%Forall2_cons_inv_l. apply IH in H. congruence.
      * split; [done|]. intros (y'&ys'&Hy&H&->)%Forall2_cons_inv_l. by apply IH in H.
    + split; [done|]. intros (y'&ys'&Hy&H&->)%Forall2_cons_inv_l. congruence.
Qed.

Lemma map_m_err {E A B} (f : A → result E B) xs e : map_m f xs = Err e → ∃ x, x ∈ xs ∧ f x = Err e.
Proof.
  induction xs as [|x xs IH]; simpl; [done|]. destruct (f x) as [y|] eqn:Hx.
  - destruct (map_m f xs); [done|]. intros (z&Hz&?)%IH. exists z. split; [by right|done].
  - intros [= <-]. exists x. split; [by left|done].
Qed.

Lemma map_m_total {E A B} (f : A → result E B) xs : Forall (λ x, ∃ y, f x = Ok y) xs → ∃ ys, map_m f xs = Ok ys.
Proof.
  induction 1 as [|x xs [y Hy] _ [ys Hys]]; [by exists []|]. exists (y :: ys). simpl. by rewrite Hy, Hys.
Qed.

Lemma map_m_ext {E A B} (f g : A → result E B) xs : (∀ x, x ∈ xs → f x = g x) → map_m f xs = map_m g xs.
Proof.
  induction xs as [|x xs IH]; intros H; [done|]. simpl. rewrite (H x) by (by left).
  rewrite IH; [done|]. intros; apply H; by right.
Qed.

Lemma elem_of_map_m {E A B} (f : A → result E B) xs ys y : map_m f xs = Ok ys → y ∈ ys → ∃ x, x ∈ xs ∧ f x = Ok y.
Proof.
  rewrite map_m_ok. intros H (i&Hi)%list_elem_of_lookup_1.
  destruct (Forall2_lookup_r _ _ _ _ _ H Hi) as (x&Hx&?). exists x. split; [by eapply list_elem_of_lookup_2|done].
Qed.

(** ** [sort.SliceStable] by a string *)

Section stable.
Context {A : Type} (key : A → string).

Fixpoint insert_stable (x : A) (l : list A) : list A :=
  match l with
  | [] => [x]
  | y :: rest => if decide (String.le (key x) (key y)) then x :: l else y :: insert_stable x rest
  end.
Definition sort_stable (l : list A) : list A := foldr insert_stable [] l.

Lemma insert_stable_Permutation x l : insert_stable x l ≡ₚ x :: l.
Proof.
  induction l as [|y l IH]; simpl; [done|]. case_decide; [done|]. rewrite IH. constructor.
Qed.

Lemma sort_stable_Permutation l : sort_stable l ≡ₚ l.
Proof. induction l as [|x l IH]; simpl; [done|]. by rewrite insert_stable_Permutation, IH. Qed.

Lemma elem_of_sort_stable x l : x ∈ sort_stable l ↔ x ∈ l.
Proof. by rewrite sort_stable_Permutation. Qed.
End stable.

Lemma omap_agree {A B} (f g : A → option B) (l : list A) : (∀ x, x ∈ l → f x = g x) → omap f l = omap g l.
Proof.
  induction l as [|x l IH]; intros H; [done|]. csimpl. rewrite (H x) by (by left).
  by rewrite IH by (intros; apply H; by right).
Qed.

Lemma fmap_agree {A B} (f g : A → B) (l : list A) : (∀ x, x ∈ l → f x = g x) → f <$> l = g <$> l.
Proof. intros H. apply list_fmap_ext. intros i x Hi. by apply H, (list_elem_of_lookup_2 _ i). Qed.

(** Filters of lists by a boolean test. *)
Lemma filter_filter {A} (f g : A → bool) (l : list A) :
  List.filter f (List.filter g l) = List.filter (λ x, f x && g x) l.
Proof.
  induction l as [|x l IH]; [done|]. simpl. destruct (g x) eqn:Hg; simpl; destruct (f x); simpl; by rewrite IH.
Qed.

Lemma filter_agree {A} (f g : A → bool) (l : list A) : (∀ x, f x = g x) → List.filter f l = List.filter g l.
Proof. intros H. apply filter_ext. done. Qed.

Lemma filter_all {A} (f : A → bool) (l : list A) : (∀ x, x ∈ l → f x = true) → List.filter f l = l.
Proof.
  induction l as [|x l IH]; intros H; [done|]. simpl. rewrite H by (by left). f_equal. apply IH. intros. apply H. by right.
Qed.

Lemma filter_none {A} (f : A → bool) (l : list A) : (∀ x, x ∈ l → f x = false) → List.filter f l = [].
Proof.
  induction l as [|x l IH]; intros H; [done|]. simpl. rewrite H by (by left). apply IH. intros. apply H. by right.
Qed.

Lemma filter_nil_none {A} (f : A → bool) l : List.filter f l = [] → ∀ x, x ∈ l → f x = false.
Proof.
  intros Hnil x Hx. destruct (f x) eqn:Hf; [|done]. assert (x ∈ List.filter f l) as Hin by (by apply elem_of_filter_bool).
  rewrite Hnil in Hin. by apply elem_of_nil in Hin.
Qed.

Lemma filter_agree_in {A} (f g : A → bool) (l : list A) : (∀ x, x ∈ l → f x = g x) → List.filter f l = List.filter g l.
Proof.
  induction l as [|x l IH]; intros H; [done|]. simpl. rewrite (H x) by (by left). rewrite IH; [done|].
  intros. apply H. by right.
Qed.

Lemma StronglySorted_filter {A} (R : relation A) (f : A → bool) l : StronglySorted R l → StronglySorted R (List.filter f l).
Proof.
  induction 1 as [|x l Hl IH Hx]; [constructor|]. simpl. destruct (f x); [|done]. constructor; [done|].
  apply Forall_forall. intros y [Hy _]%elem_of_filter_bool. by apply (proj1 (Forall_forall _ _) Hx).
Qed.

(** A [time.Duration] after an operation that may overflow it. *)
Definition wrap64 (x : Z) : Z := ((x + 9223372036854775808) mod 18446744073709551616 - 9223372036854775808)%Z.
