(* ===== verification/Runs.v ===== *)
(** * Runs: programs of calls, and what they do

    Code that talks to the outside - a store, GitHub, the console - is a program of calls:
    finished, or a call with what follows each of its answers ([prog], a free monad over the
    signature of calls).  What the outside answers is left open: [traced] relates a program
    to the calls it can make with their answers, and [played] runs it against given ones. *)

From S2P Require Import Prelude.

(** A program over calls of any signature. *)
Inductive prog (E : Type → Type) (A : Type) : Type :=
| Ret (a : A)
| Do {B : Type} (c : E B) (k : B → prog E A).
Arguments Ret {E A} a.
Arguments Do {E A B} c k.

Fixpoint prog_bind {E A B} (p : prog E A) (k : A → prog E B) : prog E B :=
  match p with Ret a => k a | Do c k' => Do c (λ b, prog_bind (k' b) k) end.

(** One call alone. *)
Definition call_ {E B} (c : E B) : prog E B := Do c Ret.

(** A step that may fail, and a call that fails with its own error. *)
Definition then_ {E A B X} (p : prog E (result X A)) (k : A → prog E (result X B)) : prog E (result X B) :=
  prog_bind p (λ r, match r with Ok a => k a | Err e => Ret (Err e) end).
Definition ask_by {E F X A} (f : F → X) (c : E (result F A)) : prog E (result X A) :=
  Do c (λ r, Ret (match r with Ok a => Ok a | Err e => Err (f e) end)).

Section runs.
(** How a call and its answer read in a trace. *)
Context {E : Type → Type} {Ev : Type} (see : ∀ B, E B → B → Ev).

(** The program can make these calls, get these answers, and end with this. *)
Fixpoint traced {A} (p : prog E A) (t : list Ev) (a : A) : Prop :=
  match p with
  | Ret x => t = [] ∧ a = x
  | Do c k => ∃ answer t', t = see _ c answer :: t' ∧ traced (k answer) t' a
  end.

Lemma traced_bind {A B} (p : prog E A) (k : A → prog E B) t b : traced (prog_bind p k) t b →
  ∃ t1 t2 a, t = t1 ++ t2 ∧ traced p t1 a ∧ traced (k a) t2 b.
Proof.
  revert t. induction p as [x|C c k' IH]; intros t Ht; [by exists [], t, x|]. destruct Ht as (y&t'&->&Ht).
  destruct (IH y t' Ht) as (t1&t2&a&->&Hp&Hk). exists (see _ c y :: t1), t2, a. split_and!; [done| |done]. by exists y, t1.
Qed.

Lemma traced_then {A B X} (p : prog E (result X A)) (k : A → prog E (result X B)) t r : traced (then_ p k) t r →
  (∃ e, traced p t (Err e) ∧ r = Err e) ∨ ∃ t1 t2 a, t = t1 ++ t2 ∧ traced p t1 (Ok a) ∧ traced (k a) t2 r.
Proof.
  intros (t1&t2&[a|e]&->&Hp&Hk)%traced_bind; [right; by exists t1, t2, a|left].
  destruct Hk as [-> ->]. exists e. by rewrite app_nil_r.
Qed.

Lemma traced_ask {F X A} (f : F → X) (c : E (result F A)) t r : traced (ask_by f c) t r →
  ∃ x, t = [see _ c x] ∧ r = match x with Ok a => Ok a | Err e => Err (f e) end.
Proof. intros (x&t'&->&->&->). by exists x. Qed.

(** A run against given answers. *)
Fixpoint played {A} (answer : ∀ B, E B → B) (p : prog E A) : list Ev * A :=
  match p with
  | Ret x => ([], x)
  | Do c k => let '(t, a) := played answer (k (answer _ c)) in (see _ c (answer _ c) :: t, a)
  end.

Lemma traced_played {A} answer (p : prog E A) t a : played answer p = (t, a) → traced p t a.
Proof.
  revert t a. induction p as [x|B c k IH]; intros t a; cbn [played]; [by intros [= <- <-]|].
  destruct (played answer (k (answer B c))) as [t' a'] eqn:Hp. intros [= <- <-]. exists (answer B c), t'. eauto.
Qed.

(** What holds of every call of a program, and so of its parts. *)
Lemma traced_bind_all {A B} (P : Ev → Prop) (p : prog E A) (k : A → prog E B) t b :
  (∀ t a, traced p t a → Forall P t) → (∀ a t b, traced (k a) t b → Forall P t) → traced (prog_bind p k) t b → Forall P t.
Proof. intros Hp Hk (t1&t2&a&->&H1&H2)%traced_bind. apply Forall_app. split; [by eapply Hp|by eapply Hk]. Qed.
(** A part that may fail shows only these events, and only those others if it ends well. *)
Section whole.
Context (Shown Fine : Ev → Prop) (fine_shown : ∀ e, Fine e → Shown e).

Definition whole {A X} (p : prog E (result X A)) : Prop := ∀ t r, traced p t r →
  Forall Shown t ∧ (∀ a, r = Ok a → Forall Fine t).

Lemma whole_ret {A X} (r : result X A) : whole (Ret r).
Proof. by intros t r' [-> _]. Qed.

Lemma whole_then {A B X} (p : prog E (result X A)) (k : A → prog E (result X B)) : whole p → (∀ a, whole (k a)) → whole (then_ p k).
Proof.
  intros Hp Hk t r [(e&Ht&->)|(t1&t2&a&->&Ht&Hr)]%traced_then; [split; [by apply (Hp t _ Ht)|done]|].
  destruct (Hp _ _ Ht) as [Q1 H1], (Hk a _ _ Hr) as [Q2 H2]. split; [by apply Forall_app|].
  intros b Hb. apply Forall_app. split; [by eapply H1|by eapply H2].
Qed.

Lemma whole_ask {F X A} (f : F → X) (c : E (result F A)) :
  (∀ x, Shown (see _ c x)) → (∀ a, Fine (see _ c (Ok a))) → whole (ask_by f c).
Proof.
  intros Hq Hu t r (x&->&->)%traced_ask. split; [by constructor|]. intros a Ha. constructor; [|done]. by destruct x.
Qed.

Lemma whole_do {A B X} (c : E B) (k : B → prog E (result X A)) : (∀ b, Fine (see _ c b)) → (∀ b, whole (k b)) → whole (Do c k).
Proof.
  intros Hc Hk t r (b&t'&->&Ht). destruct (Hk b _ _ Ht) as [H1 H2].
  split; [constructor; [by apply fine_shown|done]|]. intros a Ha. constructor; [done|by eapply H2].
Qed.
End whole.
End runs.

(** A program of one signature inside another. *)
Fixpoint lift {E F A} (into : ∀ B, E B → F B) (p : prog E A) : prog F A :=
  match p with Ret a => Ret a | Do c k => Do (into _ c) (λ b, lift into (k b)) end.
