(* ===== verification/GoStrings.v ===== *)
(** * GoStrings: the parts of Go's [strings], [path] and [regexp] the program uses

    A Go string is a sequence of bytes, modelled by [string] (a list of 8-bit
    [ascii]).  [strings.ToLower], [strings.TrimSpace] and [strings.EqualFold]
    are modelled on ASCII: a byte of 128 or more is left as it is, which is
    what Go does with every byte that is not part of a cased or white-space
    rune. *)

From S2P Require Import Prelude.

Implicit Types (s t : string) (c : ascii).

Definition code c : nat := nat_of_ascii c.
Definition in_range (lo hi : ascii) c : bool := (code lo <=? code c) && (code c <=? code hi).
Definition is_lower c : bool := in_range "a" "z" c.
Definition is_upper c : bool := in_range "A" "Z" c.
Definition is_digit c : bool := in_range "0" "9" c.
Definition is_letter c : bool := is_lower c || is_upper c.
(** The ASCII white space [unicode.IsSpace] names: tab to carriage return, and space. *)
Definition is_space c : bool := ((9 <=? code c) && (code c <=? 13)) || (code c =? 32).

Definition byte_eqb (c d : ascii) : bool := bool_decide (c = d).

Fixpoint str_all (p : ascii → bool) s : bool :=
  match s with EmptyString => true | String c r => p c && str_all p r end.
Fixpoint str_any (p : ascii → bool) s : bool :=
  match s with EmptyString => false | String c r => p c || str_any p r end.
Fixpoint str_map (f : ascii → ascii) s : string :=
  match s with EmptyString => EmptyString | String c r => String (f c) (str_map f r) end.

Definition empty s : bool := match s with EmptyString => true | _ => false end.

(** [strings.ToLower] *)
Definition lower_byte c : ascii := if is_upper c then ascii_of_nat (code c + 32) else c.
Definition ToLower s : string := str_map lower_byte s.
(** [strings.EqualFold] *)
Definition EqualFold s t : bool := bool_decide (ToLower s = ToLower t).

(** [strings.TrimSpace] *)
Fixpoint trim_left s : string :=
  match s with
  | EmptyString => EmptyString
  | String c r => if is_space c then trim_left r else s
  end.
Fixpoint trim_right s : string :=
  match s with
  | EmptyString => EmptyString
  | String c r =>
      match trim_right r with
      | EmptyString => if is_space c then EmptyString else String c EmptyString
      | r' => String c r'
      end
  end.
Definition TrimSpace s : string := trim_right (trim_left s).

(** [strings.Contains(s, string(c))] and [strings.ContainsAny]. *)
Definition contains_byte c s : bool := str_any (byte_eqb c) s.
Definition ContainsAny s (chars : string) : bool := str_any (λ c, contains_byte c chars) s.

(** [strings.HasPrefix] and [strings.CutPrefix]. *)
Fixpoint CutPrefix s (pre : string) {struct pre} : option string :=
  match pre, s with
  | EmptyString, _ => Some s
  | String p pre', String c s' => if byte_eqb p c then CutPrefix s' pre' else None
  | String _ _, EmptyString => None
  end.
Definition HasPrefix s pre : bool := match CutPrefix s pre with Some _ => true | None => false end.
Definition TrimPrefix s pre : string := default s (CutPrefix s pre).
(** [strings.Contains] *)
Fixpoint Contains s sub : bool :=
  HasPrefix s sub || match s with EmptyString => false | String _ r => Contains r sub end.

(** [strings.Split(s, string(c))]: always at least one part. *)
Fixpoint split_on c s : list string :=
  match s with
  | EmptyString => [EmptyString]
  | String a r =>
      if byte_eqb a c then EmptyString :: split_on c r
      else match split_on c r with
           | p :: ps => String a p :: ps
           | [] => [String a EmptyString]
           end
  end.

(** [strings.Cut(s, string(c))] *)
Fixpoint cut_on c s : option (string * string) :=
  match s with
  | EmptyString => None
  | String a r =>
      if byte_eqb a c then Some (EmptyString, r)
      else match cut_on c r with
           | Some (before, after) => Some (String a before, after)
           | None => None
           end
  end.

(** The cut at the LAST occurrence: [strings.LastIndexByte]. *)
Fixpoint cut_last c s : option (string * string) :=
  match s with
  | EmptyString => None
  | String a r =>
      match cut_last c r with
      | Some (before, after) => Some (String a before, after)
      | None => if byte_eqb a c then Some (EmptyString, r) else None
      end
  end.

(** [strings.Join] *)
Fixpoint Join (parts : list string) (sep : string) : string :=
  match parts with
  | [] => EmptyString
  | [p] => p
  | p :: ps => p +:+ sep +:+ Join ps sep
  end.

(** [strings.ReplaceAll(s, string(c), by)] *)
Fixpoint replace_byte c (by_ : string) s : string :=
  match s with
  | EmptyString => EmptyString
  | String a r => if byte_eqb a c then by_ +:+ replace_byte c by_ r else String a (replace_byte c by_ r)
  end.

Definition str_in s (l : list string) : bool := bool_decide (s ∈ l).

(** ** Lemmas *)

Section strings.

Lemma byte_eqb_true c d : byte_eqb c d = true ↔ c = d.
Proof. apply bool_decide_eq_true. Qed.
Lemma byte_eqb_refl c : byte_eqb c c = true.
Proof. by apply byte_eqb_true. Qed.
Lemma byte_eqb_false c d : byte_eqb c d = false ↔ c ≠ d.
Proof. apply bool_decide_eq_false. Qed.

Lemma empty_true s : empty s = true ↔ s = "".
Proof. by destruct s. Qed.
Lemma empty_false s : empty s = false ↔ s ≠ "".
Proof. by destruct s. Qed.

Lemma str_in_true s l : str_in s l = true ↔ s ∈ l.
Proof. apply bool_decide_eq_true. Qed.
Lemma str_in_false s l : str_in s l = false ↔ s ∉ l.
Proof. apply bool_decide_eq_false. Qed.

Lemma app_nil_l s : "" +:+ s = s.
Proof. done. Qed.
Lemma app_cons c s t : String c s +:+ t = String c (s +:+ t).
Proof. done. Qed.
Lemma app_empty_r s : s +:+ "" = s.
Proof. induction s as [|c s IH]; [done|]. by rewrite app_cons, IH. Qed.
Lemma str_app_assoc s t u : s +:+ t +:+ u = (s +:+ t) +:+ u.
Proof. induction s as [|c s IH]; [done|]. by rewrite !app_cons, IH. Qed.
Lemma str_cons_app c s : String c s = String c "" +:+ s.
Proof. done. Qed.

Lemma contains_byte_cons c a s :
  contains_byte c (String a s) = byte_eqb c a || contains_byte c s.
Proof. done. Qed.
Lemma contains_byte_app c s t :
  contains_byte c (s +:+ t) = contains_byte c s || contains_byte c t.
Proof.
  induction s as [|a s IH]; [done|].
  by rewrite app_cons, !contains_byte_cons, IH, orb_assoc.
Qed.

Lemma split_on_nil c s : split_on c s ≠ [].
Proof. destruct s; simpl; [done|]. by repeat case_match. Qed.

(** Splitting loses nothing: the parts joined again are the string. *)
Lemma join_split_on c s : Join (split_on c s) (String c "") = s.
Proof.
  induction s as [|a s IH]; simpl; [done|].
  pose proof (split_on_nil c s) as Hnil.
  destruct (byte_eqb a c) eqn:Hc.
  - apply byte_eqb_true in Hc as ->. destruct (split_on c s) as [|p ps]; [done|].
    simpl in *. by rewrite IH.
  - destruct (split_on c s) as [|p [|q ps]]; [done|..]; simpl in *; by rewrite <- IH.
Qed.

Lemma split_on_parts c s : Forall (λ p, contains_byte c p = false) (split_on c s).
Proof.
  induction s as [|a s IH]; simpl; [by repeat constructor|].
  destruct (byte_eqb a c) eqn:Hc.
  - by constructor.
  - apply byte_eqb_false in Hc. pose proof (split_on_nil c s).
    destruct (split_on c s) as [|p ps]; [done|].
    apply Forall_cons in IH as [Hp Hps]. constructor; [|done].
    rewrite contains_byte_cons, Hp. by rewrite (proj2 (byte_eqb_false c a)).
Qed.

Lemma split_on_free c s : contains_byte c s = false → split_on c s = [s].
Proof.
  induction s as [|a s IH]; [done|]. rewrite contains_byte_cons.
  intros [Hac Hs]%orb_false_iff. simpl. apply byte_eqb_false in Hac.
  rewrite (proj2 (byte_eqb_false a c)) by done. by rewrite IH.
Qed.

(** Splitting a concatenation at a separator splits both sides. *)
Lemma split_on_both c s t : split_on c (s +:+ String c t) = split_on c s ++ split_on c t.
Proof.
  induction s as [|a s IH].
  - simpl. by rewrite byte_eqb_refl.
  - rewrite app_cons. simpl. destruct (byte_eqb a c); [by rewrite IH|]. rewrite IH.
    pose proof (split_on_nil c s). by destruct (split_on c s).
Qed.

Lemma split_on_single c s x : split_on c s = [x] → x = s.
Proof. intros H. pose proof (join_split_on c s) as Hj. by rewrite H in Hj. Qed.

Lemma split_on_app c s t :
  contains_byte c s = false → split_on c (s +:+ String c t) = s :: split_on c t.
Proof.
  induction s as [|a s IH].
  - intros _. simpl. by rewrite byte_eqb_refl.
  - rewrite contains_byte_cons. intros [Hac Hs]%orb_false_iff. apply byte_eqb_false in Hac.
    simpl. rewrite (proj2 (byte_eqb_false a c)) by done. by rewrite IH.
Qed.

Lemma cut_on_app c a b :
  contains_byte c a = false → cut_on c (a +:+ String c b) = Some (a, b).
Proof.
  induction a as [|d a IH].
  - intros _. simpl. by rewrite byte_eqb_refl.
  - rewrite contains_byte_cons, app_cons. intros [Hd Ha]%orb_false_iff.
    apply byte_eqb_false in Hd. simpl.
    rewrite (proj2 (byte_eqb_false d c)) by done. by rewrite IH.
Qed.

Lemma cut_on_spec c s a b :
  cut_on c s = Some (a, b) ↔ s = a +:+ String c b ∧ contains_byte c a = false.
Proof.
  split; [|by intros [-> ?]; apply cut_on_app].
  revert a b. induction s as [|d s IH]; intros a b; simpl; [done|].
  destruct (byte_eqb d c) eqn:Hd.
  - apply byte_eqb_true in Hd as ->. by intros [= <- <-].
  - apply byte_eqb_false in Hd. destruct (cut_on c s) as [[a' b']|]; [|done].
    intros [= <- <-]. destruct (IH a' b' eq_refl) as [-> Ha].
    rewrite app_cons, contains_byte_cons, Ha. by rewrite (proj2 (byte_eqb_false c d)).
Qed.

Lemma cut_on_none c s : cut_on c s = None ↔ contains_byte c s = false.
Proof.
  induction s as [|d s IH]; [done|]. simpl. rewrite contains_byte_cons.
  destruct (byte_eqb d c) eqn:Hd.
  - apply byte_eqb_true in Hd as ->. by rewrite byte_eqb_refl.
  - apply byte_eqb_false in Hd. rewrite (proj2 (byte_eqb_false c d)) by done.
    simpl. rewrite <- IH. destruct (cut_on c s) as [[]|]; naive_solver.
Qed.

Lemma CutPrefix_spec s p r : CutPrefix s p = Some r ↔ s = p +:+ r.
Proof.
  revert s. induction p as [|a p IH]; intros s; simpl; [rewrite app_nil_l; naive_solver|].
  destruct s as [|c s]; [done|]. destruct (byte_eqb a c) eqn:Hac.
  - apply byte_eqb_true in Hac as ->. rewrite IH. split; [by intros ->|by intros [= ->]].
  - apply byte_eqb_false in Hac. split; [done|by intros [= -> _]].
Qed.

Lemma HasPrefix_spec s p : HasPrefix s p = true ↔ ∃ r, s = p +:+ r.
Proof.
  unfold HasPrefix. setoid_rewrite <- CutPrefix_spec.
  destruct (CutPrefix s p); naive_solver.
Qed.

Lemma is_upper_spec c : is_upper c = true ↔ 65 ≤ code c ≤ 90.
Proof.
  unfold is_upper, in_range. rewrite andb_true_iff, !Nat.leb_le. done.
Qed.

Lemma lower_byte_idem c : lower_byte (lower_byte c) = lower_byte c.
Proof.
  unfold lower_byte. destruct (is_upper c) eqn:H; [|by rewrite H].
  apply is_upper_spec in H.
  destruct (is_upper _) eqn:H'; [|done].
  apply is_upper_spec in H'. unfold code in *. rewrite nat_ascii_embedding in H'; lia.
Qed.

Lemma ToLower_idem s : ToLower (ToLower s) = ToLower s.
Proof. unfold ToLower. induction s; simpl; [done|]. by rewrite IHs, lower_byte_idem. Qed.

Lemma ToLower_empty s : empty (ToLower s) = empty s.
Proof. by destruct s. Qed.

Lemma is_space_lower c : is_space (lower_byte c) = is_space c.
Proof.
  unfold lower_byte. destruct (is_upper c) eqn:H; [|done]. apply is_upper_spec in H. unfold is_space, code in *.
  rewrite nat_ascii_embedding by lia. repeat match goal with |- context [?a <=? ?b] => destruct (Nat.leb_spec a b) | |- context [?a =? ?b] => destruct (Nat.eqb_spec a b) end; (done || lia).
Qed.
Lemma TrimSpace_ToLower s : TrimSpace (ToLower s) = ToLower (TrimSpace s).
Proof.
  unfold TrimSpace. assert (∀ s, trim_right (ToLower s) = ToLower (trim_right s)) as Hr.
  { clear s. intros s. induction s as [|c s IH]; [done|]. change (ToLower (String c s)) with (String (lower_byte c) (ToLower s)). simpl. rewrite IH.
    destruct (trim_right s); simpl; [|done]. rewrite is_space_lower. by destruct (is_space c). }
  rewrite <- Hr. f_equal. induction s as [|c s IH]; [done|]. change (ToLower (String c s)) with (String (lower_byte c) (ToLower s)). simpl.
  rewrite is_space_lower, IH. by destruct (is_space c).
Qed.
Lemma trim_right_idem s : trim_right (trim_right s) = trim_right s.
Proof.
  induction s as [|c s IH]; [done|]. simpl. destruct (trim_right s) as [|c' r] eqn:Hr; [by destruct (is_space c) eqn:Hc; simpl; rewrite ?Hc|].
  cbn [trim_right]. cbn [trim_right] in IH. rewrite IH. done.
Qed.
Lemma TrimSpace_idem s : TrimSpace (TrimSpace s) = TrimSpace s.
Proof.
  unfold TrimSpace. assert (trim_left (trim_right (trim_left s)) = trim_right (trim_left s)) as ->; [|apply trim_right_idem].
  induction s as [|c s IH]; [done|]. simpl. destruct (is_space c) eqn:Hc; [done|]. simpl. destruct (trim_right s); rewrite ?Hc; simpl; by rewrite Hc.
Qed.
(** Lower-casing what is trimmed, twice, is doing it once. *)
Lemma normalise_idem s : ToLower (TrimSpace (ToLower (TrimSpace s))) = ToLower (TrimSpace s).
Proof. by rewrite TrimSpace_ToLower, TrimSpace_idem, ToLower_idem. Qed.

Lemma EqualFold_refl s : EqualFold s s = true.
Proof. by apply bool_decide_eq_true. Qed.

Lemma replace_byte_app c b s t : replace_byte c b (s +:+ t) = replace_byte c b s +:+ replace_byte c b t.
Proof.
  induction s as [|a s IH]; simpl; [done|].
  destruct (byte_eqb a c); rewrite IH; [by rewrite str_app_assoc | done].
Qed.

Lemma replace_byte_free c b s : contains_byte c s = false → replace_byte c b s = s.
Proof.
  induction s as [|a s IH]; [done|]. rewrite contains_byte_cons.
  intros [Hac Hs]%orb_false_iff. apply byte_eqb_false in Hac. simpl.
  rewrite (proj2 (byte_eqb_false a c)) by done. by rewrite IH.
Qed.
End strings.

#[export] Hint Rewrite empty_true empty_false str_in_true str_in_false byte_eqb_true byte_eqb_false : roster.
