(* ===== verification/Names.v ===== *)
(** * Names: grant names and token subjects

    [policy/policy.go] (the naming helpers), [policy/evaluate.go] (subjects) and
    [policy/scope.go] (families).  Every grant is [<scope>:<thing>:<role>]; a
    two-segment name ([rung:<name>], [emp:<slug>]) is not a grant.  The theorems
    are the round trips of the readers and the writers of these spellings, and
    that distinct workloads never share a subject. *)

From S2P Require Import Prelude GoStrings.

Implicit Types (s name : string).

Definition sep : ascii := ":".

(** [policy/policy.go:43-80 Separator] *)
Definition Separator : string := ":".
(** [policy/policy.go:43-80 ThingSelf] *)
Definition ThingSelf : string := "access-roster".
(** [policy/policy.go:43-80 ScopeAll] *)
Definition ScopeAll : string := "all".
(** [policy/policy.go:43-80 RoleOperator] *)
Definition RoleOperator : string := "operator".
(** [policy/policy.go:43-80 RoleViewer] *)
Definition RoleViewer : string := "viewer".
(** [policy/policy.go:43-80 FamilyRung] *)
Definition FamilyRung : string := "rung".
(** [policy/policy.go:43-80 FamilyEmp] *)
Definition FamilyEmp : string := "emp".

(** [policy/policy.go:SplitGroup] *)
Definition SplitGroup name : option (string * string * string) :=
  match split_on sep name with
  | [a; b; c] => if empty a || empty b || empty c then None else Some (a, b, c)
  | _ => None
  end.

(** The concatenation every writer of a grant name spells out. *)
Definition grant (scope thing role : string) : string :=
  scope +:+ Separator +:+ thing +:+ Separator +:+ role.

(** [policy/policy.go:ScopedGroup] *)
Definition ScopedGroup (workspace role : string) : string :=
  workspace +:+ Separator +:+ ThingSelf +:+ Separator +:+ role.

(** [policy/policy.go:84-92 GroupOperators] *)
Definition GroupOperators : string := ScopedGroup ScopeAll RoleOperator.
(** [policy/policy.go:84-92 GroupViewers] *)
Definition GroupViewers : string := ScopedGroup ScopeAll RoleViewer.

(** [policy/policy.go:ValidWorkspaceID] *)
Definition ValidWorkspaceID s : bool :=
  negb (empty s) && negb (bool_decide (s = ScopeAll)) &&
  negb (str_any (λ c, byte_eqb c sep || byte_eqb c " " || (code c =? 9) || (code c =? 13) || (code c =? 10)) s) &&
  bool_decide (s = TrimSpace s).

(** [policy/policy.go:SplitScopedGroup]; the empty workspace is the whole
    installation. *)
Definition SplitScopedGroup name : option (string * string) :=
  match SplitGroup name with
  | None => None
  | Some (scope, thing, role) =>
      if negb (bool_decide (thing = ThingSelf)) then None
      else if negb (bool_decide (role = RoleOperator)) && negb (bool_decide (role = RoleViewer)) then None
      else if bool_decide (scope = ScopeAll) then Some ("", role)
      else Some (scope, role)
  end.

(** [policy/scope.go:splitFamily] *)
Definition splitFamily name : option string :=
  match cut_on sep name with
  | Some (before, after) =>
      if empty before || empty after || contains_byte sep after then None else Some before
  | None => None
  end.

(** [policy/policy.go:conventional] *)
Definition conventional name : bool :=
  if HasPrefix name "rung:" || HasPrefix name "emp:" then
    match cut_on sep name with
    | Some (_, rest) => negb (empty rest) && negb (contains_byte sep rest)
    | None => false
    end
  else
    match split_on sep name with
    | [a; b; c] => negb (empty a) && negb (empty b) && negb (empty c)
    | _ => false
    end.

(** [policy/groups_delimiter.go:RewriteGroupsDelimiter] *)
Definition RewriteGroupsDelimiter name (delimiter : string) : string :=
  if empty delimiter then name else replace_byte sep delimiter name.

(** [policy/evaluate.go:type AWSRole] *)
Record AWSRole := mkAWSRole {
  ar_Account : string; ar_Name : string; ar_Path : string; ar_OrgID : string; ar_Function : string }.

(** [policy/evaluate.go:AWSRole.Subject] *)
Definition AWSRole_Subject (r : AWSRole) : string :=
  let path := if empty (ar_Path r) then "/" else ar_Path r in
  "aws:" +:+ ar_Account r +:+ ":role" +:+ path +:+ ar_Name r.

(** [policy/evaluate.go:type ServiceAccountRef] *)
Record ServiceAccountRef := mkServiceAccountRef {
  sa_Cluster : string; sa_Namespace : string; sa_Name : string }.

#[global] Instance ServiceAccountRef_eq_dec : EqDecision ServiceAccountRef.
Proof. solve_decision. Defined.

(** [policy/evaluate.go:ServiceAccountRef.Subject] *)
Definition ServiceAccountRef_Subject (r : ServiceAccountRef) : string :=
  if empty (sa_Cluster r) then "k8s:" +:+ sa_Namespace r +:+ ":" +:+ sa_Name r
  else sa_Cluster r +:+ ":k8s:" +:+ sa_Namespace r +:+ ":" +:+ sa_Name r.

(** [policy/evaluate.go:ParseServiceAccountSubject] *)
Definition ParseServiceAccountSubject (subject : string) : option ServiceAccountRef :=
  match CutPrefix subject "system:serviceaccount:" with
  | Some rest =>
      match cut_on sep rest with
      | Some (namespace, nm) =>
          if empty namespace || empty nm then None else Some (mkServiceAccountRef "" namespace nm)
      | None => None
      end
  | None =>
      match split_on sep subject with
      | [p0; p1; p2] =>
          if bool_decide (p0 = "k8s") && negb (empty p1) && negb (empty p2)
          then Some (mkServiceAccountRef "" p1 p2) else None
      | [p0; p1; p2; p3] =>
          if bool_decide (p1 = "k8s") && negb (empty p0) && negb (empty p2) && negb (empty p3)
          then Some (mkServiceAccountRef p0 p2 p3) else None
      | _ => None
      end
  end.

(** ** Well-formed names *)

(** A segment: something, and no separator in it. *)
Definition segment s : Prop := s ≠ "" ∧ contains_byte sep s = false.

#[global] Instance segment_dec s : Decision (segment s).
Proof. unfold segment. apply _. Defined.

Definition sa_wf (r : ServiceAccountRef) : Prop :=
  contains_byte sep (sa_Cluster r) = false ∧ segment (sa_Namespace r) ∧ segment (sa_Name r).

(** Splitting a name that is spelled segment by segment. *)
Lemma split_segment s t :
  contains_byte sep s = false → split_on sep (s +:+ Separator +:+ t) = s :: split_on sep t.
Proof. intros. apply split_on_app. done. Qed.

Lemma SplitGroup_spec name scope thing role :
  SplitGroup name = Some (scope, thing, role) ↔
  name = grant scope thing role ∧ segment scope ∧ segment thing ∧ segment role.
Proof.
  unfold SplitGroup, grant, segment. split.
  - pose proof (split_on_parts sep name) as Hp. pose proof (join_split_on sep name) as Hj.
    destruct (split_on sep name) as [|a [|b [|c [|]]]] eqn:?; try done.
    destruct (empty a) eqn:Ha, (empty b) eqn:Hb, (empty c) eqn:Hc; try done.
    intros [= <- <- <-]. rewrite !Forall_cons in Hp. rewrite empty_false in Ha, Hb, Hc.
    split; [by rewrite <- Hj|]. naive_solver.
  - intros (->&[Hs Hs']&[Ht Ht']&[Hr Hr']).
    rewrite !split_segment, split_on_free by done.
    apply empty_false in Hs, Ht, Hr. by rewrite Hs, Ht, Hr.
Qed.

Lemma SplitGroup_grant scope thing role :
  segment scope → segment thing → segment role →
  SplitGroup (grant scope thing role) = Some (scope, thing, role).
Proof. intros. by apply SplitGroup_spec. Qed.

(** Whatever a grant was written from, it reads back as nothing else. *)
Lemma SplitGroup_grant_inv s t r s' t' r' :
  SplitGroup (grant s t r) = Some (s', t', r') → s' = s ∧ t' = t ∧ r' = r.
Proof.
  intros H. unfold SplitGroup, grant in H.
  change (s +:+ Separator +:+ t +:+ Separator +:+ r) with (s +:+ String sep (t +:+ String sep r)) in H.
  rewrite !split_on_both in H.
  assert (length (split_on sep s ++ split_on sep t ++ split_on sep r) = 3) as Hl.
  { destruct (_ ++ _) as [|? [|? [|? []]]]; done. }
  pose proof (split_on_nil sep s). pose proof (split_on_nil sep t). pose proof (split_on_nil sep r).
  rewrite !length_app in Hl.
  destruct (split_on sep s) as [|a [|]] eqn:Hs, (split_on sep t) as [|b [|]] eqn:Ht,
    (split_on sep r) as [|c [|]] eqn:Hr; try done; simpl in Hl; try lia.
  apply split_on_single in Hs, Ht, Hr. subst. simpl in H.
  by destruct (empty s || empty t || empty r); simplify_eq.
Qed.

Lemma grant_inj s t r s' t' r' :
  segment s → segment t → segment r → segment s' → segment t' → segment r' →
  grant s t r = grant s' t' r' → s = s' ∧ t = t' ∧ r = r'.
Proof.
  intros ?????? Heq.
  assert (SplitGroup (grant s t r) = SplitGroup (grant s' t' r')) as H' by by rewrite Heq.
  rewrite !SplitGroup_grant in H' by done. naive_solver.
Qed.

Lemma ScopedGroup_grant w r : ScopedGroup w r = grant w ThingSelf r.
Proof. done. Qed.

Lemma str_any_false p s : str_any p s = false → ∀ c, p c = true → contains_byte c s = false.
Proof.
  intros H c Hc. induction s as [|a s IH]; [done|].
  simpl in H. apply orb_false_iff in H as [Ha Hs]. rewrite contains_byte_cons, IH by done.
  rewrite orb_false_r. apply byte_eqb_false. intros ->. congruence.
Qed.

Lemma ValidWorkspaceID_segment s : ValidWorkspaceID s = true → segment s ∧ s ≠ ScopeAll.
Proof.
  unfold ValidWorkspaceID. rewrite !andb_true_iff, !negb_true_iff, bool_decide_eq_false.
  intros [[[He Ha] Hc] _]. split; [|done]. split; [by apply empty_false|].
  eapply str_any_false; done.
Qed.

(** ** The properties *)

(** a grant name splits into exactly the three non-empty, colon-free
    segments it was written from, and every other name (two segments, four, an
    empty one) is not a grant. *)
Theorem SplitGroup_roundtrip name :
  match SplitGroup name with
  | Some (scope, thing, role) =>
      name = grant scope thing role ∧ segment scope ∧ segment thing ∧ segment role
  | None => ∀ scope thing role,
      segment scope → segment thing → segment role → name ≠ grant scope thing role
  end.
Proof.
  destruct (SplitGroup name) as [[[scope thing] role]|] eqn:H.
  - by apply SplitGroup_spec.
  - intros scope thing role Hs Ht Hr ->. by rewrite SplitGroup_grant in H.
Qed.

(** the hub reads back exactly the role and the workspace a scoped group
    name was made from, for every workspace id it accepts, and reads
    [all:access-roster:<role>] as the whole installation. *)
Theorem SplitScopedGroup_roundtrip w role (Hw : ValidWorkspaceID w = true)
  (Hr : role = RoleOperator ∨ role = RoleViewer) :
  SplitScopedGroup (ScopedGroup w role) = Some (w, role) ∧
  SplitScopedGroup (ScopedGroup ScopeAll role) = Some ("", role).
Proof.
  apply ValidWorkspaceID_segment in Hw as [Hw Hall].
  assert (segment role) as Hrole by by destruct Hr as [-> | ->]; split.
  assert (negb (bool_decide (role = RoleOperator)) && negb (bool_decide (role = RoleViewer)) = false) as Hb.
  { destruct Hr as [-> | ->]; done. }
  unfold SplitScopedGroup. rewrite !ScopedGroup_grant, !SplitGroup_grant by (first [done | by split]).
  rewrite Hb. rewrite (bool_decide_eq_true_2 (ThingSelf = ThingSelf)) by done.
  rewrite (bool_decide_eq_false_2 (w = ScopeAll)) by done. done.
Qed.

Lemma SplitScopedGroup_roundtrip_witness :
  SplitScopedGroup "C0example:access-roster:operator" = Some ("C0example", RoleOperator) ∧
  SplitScopedGroup "all:access-roster:operator" = Some ("", RoleOperator).
Proof. exact (SplitScopedGroup_roundtrip "C0example" RoleOperator eq_refl (or_introl eq_refl)). Defined.

Lemma split_subject r :
  sa_wf r →
  split_on sep (ServiceAccountRef_Subject r) =
    (if empty (sa_Cluster r) then [] else [sa_Cluster r]) ++ ["k8s"; sa_Namespace r; sa_Name r].
Proof.
  intros (Hc&[_ Hn]&[_ Hm]). unfold ServiceAccountRef_Subject.
  destruct (empty (sa_Cluster r)).
  - change ("k8s:" +:+ sa_Namespace r +:+ ":" +:+ sa_Name r)
      with ("k8s" +:+ Separator +:+ (sa_Namespace r +:+ Separator +:+ sa_Name r)).
    by rewrite !split_segment, split_on_free by done.
  - change (sa_Cluster r +:+ ":k8s:" +:+ sa_Namespace r +:+ ":" +:+ sa_Name r)
      with (sa_Cluster r +:+ Separator +:+ ("k8s" +:+ Separator +:+ (sa_Namespace r +:+ Separator +:+ sa_Name r))).
    by rewrite !split_segment, split_on_free by done.
Qed.

Lemma subject_not_system r : sa_wf r → CutPrefix (ServiceAccountRef_Subject r) "system:serviceaccount:" = None.
Proof.
  intros Hwf. destruct (CutPrefix _ _) as [rest|] eqn:H; [|done].
  apply CutPrefix_spec in H. pose proof (split_subject r Hwf) as Hs. rewrite H in Hs.
  change ("system:serviceaccount:" +:+ rest)
    with ("system" +:+ Separator +:+ ("serviceaccount" +:+ Separator +:+ rest)) in Hs.
  rewrite !split_segment in Hs by done. by destruct (empty (sa_Cluster r)).
Qed.

(** a ServiceAccount's subject parses back to that ServiceAccount, so two
    different workloads (another cluster, namespace or name) never share one. *)
Theorem ServiceAccount_subject_roundtrip r (Hr : sa_wf r) :
  ParseServiceAccountSubject (ServiceAccountRef_Subject r) = Some r ∧
  ∀ r', sa_wf r' → ServiceAccountRef_Subject r' = ServiceAccountRef_Subject r → r' = r.
Proof.
  assert (∀ q, sa_wf q → ParseServiceAccountSubject (ServiceAccountRef_Subject q) = Some q) as Hparse.
  { intros q Hq. unfold ParseServiceAccountSubject. rewrite subject_not_system, split_subject by done.
    destruct q as [c n m], Hq as (_&[Hn _]&[Hm _]). simpl in *.
    apply empty_false in Hn, Hm. destruct c; simpl; by rewrite Hn, Hm. }
  split; [by apply Hparse|]. intros r' Hr' Heq.
  apply Hparse in Hr, Hr'. rewrite Heq in Hr'. congruence.
Qed.

Lemma ServiceAccount_subject_roundtrip_witness :
  ParseServiceAccountSubject "prod:k8s:ci:deployer" = Some (mkServiceAccountRef "prod" "ci" "deployer") ∧
  ∀ r', sa_wf r' → ServiceAccountRef_Subject r' = "prod:k8s:ci:deployer" →
    r' = mkServiceAccountRef "prod" "ci" "deployer".
Proof.
  apply (ServiceAccount_subject_roundtrip (mkServiceAccountRef "prod" "ci" "deployer")).
  by repeat split.
Defined.
