(* ===== verification/Vocabulary.v ===== *)
(** * Vocabulary: what a grant name is allowed to mean

    [policy/vocabulary.go]: the declared scopes, things and roles, the check of a
    concrete grant ([fits]), the expansion of a mapping wildcard ([expand]), the
    validation of the table with its cycle check ([validate],
    [cycleInRoles]).

    The depth-first search runs with fuel; [cycleInRoles_total] shows the fuel
    it is given is enough, and [cycleInRoles_correct] that it reports a role
    exactly when the implies graph has a cycle. *)

From S2P Require Import Prelude GoStrings Names.

Implicit Types (scope thing role name : string).

(** [policy/vocabulary.go:type ScopeSpec] *)
Record ScopeSpec := mkScopeSpec { Sensitive : bool }.

(** [policy/vocabulary.go:type RoleSpec] A nil list of scopes is [None]: the
    loader tells it from an empty one. *)
Record RoleSpec := mkRoleSpec { Implies : list string; rs_Scopes : option (list string) }.

(** [policy/vocabulary.go:type ThingSpec] *)
Record ThingSpec := mkThingSpec { ts_Scopes : list string; Roles : gmap string RoleSpec }.

(** [policy/vocabulary.go:type Vocabulary] *)
Record Vocabulary := mkVocabulary { Scopes : gmap string ScopeSpec; Things : gmap string ThingSpec }.

(** The scopes of a role as a list: [r.Scopes], nil being empty. *)
Definition role_scopes (r : RoleSpec) : list string := default [] (rs_Scopes r).

(** [policy/vocabulary.go:RoleSpec.allowsScope] *)
Definition allowsScope (r : RoleSpec) scope : bool :=
  match role_scopes r with [] => true | l => str_in scope l end.

(** [policy/vocabulary.go:RoleSpec.effectiveScopes] *)
Definition effectiveScopes (r : RoleSpec) (t : ThingSpec) : list string :=
  match role_scopes r with [] => ts_Scopes t | l => l end.

(** [v.Scopes[s].Sensitive]: the zero value of an undeclared scope is not sensitive. *)
Definition sensitive (v : Vocabulary) scope : bool :=
  match Scopes v !! scope with Some spec => Sensitive spec | None => false end.

(** Why a name does not belong, or a table is refused; one constructor per
    message of the loader. *)
Inductive vocab_error : Type :=
| ScopeUndeclared (scope : string)
| ThingUndeclared (thing : string)
| ThingLacksScope (thing scope : string)
| RoleUndeclared (thing role : string)
| RoleNotOnScope (thing role : string)
| ThingNoScopes (thing : string)
| ThingScopeUndeclared (thing scope : string)
| ThingNoRoles (thing : string)
| RoleEmptyScopes (thing role : string)
| RoleScopeUndeclared (thing role scope : string)
| RoleScopeNotThings (thing role scope : string)
| ImpliesUndeclared (thing role implied : string)
| ImpliesNarrower (thing role implied scope : string)
| ImpliesCycle (thing role : string).

#[global] Instance vocab_error_eq_dec : EqDecision vocab_error.
Proof. solve_decision. Defined.

(** [policy/vocabulary.go:Vocabulary.fits] *)
Definition fits (v : Vocabulary) scope thing role : result vocab_error unit :=
  match Scopes v !! scope with
  | None => Err (ScopeUndeclared scope)
  | Some _ =>
  match Things v !! thing with
  | None => Err (ThingUndeclared thing)
  | Some spec =>
  if negb (str_in scope (ts_Scopes spec)) then Err (ThingLacksScope thing scope) else
  match Roles spec !! role with
  | None => Err (RoleUndeclared thing role)
  | Some rspec =>
  if negb (allowsScope rspec scope) then Err (RoleNotOnScope thing role) else Ok tt
  end end end.

(** [policy/vocabulary.go:Vocabulary.checkWildcard] *)
Definition checkWildcard (v : Vocabulary) scope thing role : result vocab_error unit :=
  (if bool_decide (scope = "*") then Ok tt else
   match Scopes v !! scope with None => Err (ScopeUndeclared scope) | Some _ => Ok tt end) ;;
  if bool_decide (thing = "*") then Ok tt else
  match Things v !! thing with
  | None => Err (ThingUndeclared thing)
  | Some spec =>
      if negb (bool_decide (scope = "*")) && negb (str_in scope (ts_Scopes spec))
      then Err (ThingLacksScope thing scope) else
      match Roles spec !! role with
      | None => Err (RoleUndeclared thing role)
      | Some _ => Ok tt
      end
  end.

(** The things a wildcard sweeps, and the scopes it sweeps on one of them. *)
Definition swept_things (v : Vocabulary) thing : list string :=
  if bool_decide (thing = "*") then sorted_keys (Things v) else [thing].

Definition swept_scopes (spec : ThingSpec) scope : list string :=
  if bool_decide (scope = "*") then ts_Scopes spec
  else if str_in scope (ts_Scopes spec) then [scope] else [].

(** The grants of one swept thing that pass [keep]. *)
Definition expand_thing (v : Vocabulary) (keep : RoleSpec → string → bool) scope role (t : string) : list string :=
  match Things v !! t with
  | None => []
  | Some spec =>
      match Roles spec !! role with
      | None => []
      | Some rspec => (λ s, grant s t role) <$> List.filter (keep rspec) (swept_scopes spec scope)
      end
  end.

(** [policy/vocabulary.go:Vocabulary.expand] *)
Definition expand (v : Vocabulary) scope thing role : list string :=
  compact (sort_strings (mjoin
    (expand_thing v (λ rspec s, negb (sensitive v s) && allowsScope rspec s) scope role <$> swept_things v thing))).

(** [policy/vocabulary.go:Vocabulary.expandIgnoringSensitivity] *)
Definition expandIgnoringSensitivity (v : Vocabulary) scope thing role : list string :=
  compact (sort_strings (mjoin (expand_thing v allowsScope scope role <$> swept_things v thing))).

(** Why an expansion is empty: the four answers of [emptyWhy]. *)
Inductive empty_why : Type :=
| NoThingHasRole | NoThingDeclaresScope | RoleOnNoScope | AllSensitive (scopes : list string).

(** [policy/vocabulary.go:Vocabulary.emptyWhy] *)
Definition emptyWhy (v : Vocabulary) scope thing role : empty_why :=
  let found := omap (λ t, match Things v !! t with
    | Some spec => (λ rspec, (spec, rspec)) <$> (Roles spec !! role) | None => None end) (swept_things v thing) in
  let candidates := mjoin ((λ '(spec, rspec), (λ s, (rspec, s)) <$> swept_scopes spec scope) <$> found) in
  let allowed := List.filter (λ '(rspec, s), allowsScope rspec s) candidates in
  match found, candidates, allowed with
  | [], _, _ => NoThingHasRole
  | _, [], _ => NoThingDeclaresScope
  | _, _, [] => RoleOnNoScope
  | _, _, _ => AllSensitive (compact (sort_strings (List.filter (sensitive v) allowed.*2)))
  end.

(** ** The cycle check *)

Inductive colour := Gray | Black.
#[global] Instance colour_eq_dec : EqDecision colour.
Proof. solve_decision. Defined.

(** The roles one role implies; an undeclared role implies none. *)
Definition implies_of (roles : gmap string RoleSpec) role : list string :=
  match roles !! role with Some r => Implies r | None => [] end.

Notation colours := (gmap string colour) (only parsing).

(** The loop of [visit] over the implied roles, then the role turns black.
    [None] is only "out of fuel"; the second component is [found]. *)
Fixpoint visit_loop (visit : colours → string → option (colours * option string))
    (color : colours) role (nexts : list string) : option (colours * option string) :=
  match nexts with
  | [] => Some (<[role := Black]> color, None)
  | next :: rest =>
      match color !! next with
      | Some Gray => Some (color, Some next)
      | Some Black => visit_loop visit color role rest
      | None =>
          match visit color next with
          | None => None
          | Some (color', Some found) => Some (color', Some found)
          | Some (color', None) => visit_loop visit color' role rest
          end
      end
  end.

(** [policy/vocabulary.go:230-246 cycleInRoles visit] *)
Fixpoint visit (fuel : nat) (roles : gmap string RoleSpec) (color : colours) role
    : option (colours * option string) :=
  match fuel with
  | 0 => None
  | S fuel => visit_loop (visit fuel roles) (<[role := Gray]> color) role (implies_of roles role)
  end.

(** The outer loop over the sorted roles. *)
Fixpoint cycle_loop (fuel : nat) (roles : gmap string RoleSpec) (color : colours) (names : list string)
    : option string :=
  match names with
  | [] => Some ""
  | role :: rest =>
      match color !! role with
      | Some _ => cycle_loop fuel roles color rest
      | None =>
          match visit fuel roles color role with
          | None => None
          | Some (_, Some found) => Some found
          | Some (color', None) => cycle_loop fuel roles color' rest
          end
      end
  end.

(** Every name the search can reach. *)
Definition role_names (roles : gmap string RoleSpec) : list string :=
  keys roles ++ mjoin ((λ r, implies_of roles r) <$> keys roles).

(** [policy/vocabulary.go:cycleInRoles] *)
Definition cycleInRoles (roles : gmap string RoleSpec) : option string :=
  cycle_loop (S (length (role_names roles))) roles ∅ (sorted_keys roles).

(** ** Validation *)

(** [policy/vocabulary.go:169-210 Vocabulary.validate] One role of a thing: its
    own scopes, then its implies edges. *)
Definition validate_role (v : Vocabulary) name (spec : ThingSpec) role (rspec : RoleSpec) : result vocab_error unit :=
  check (negb (bool_decide (rs_Scopes rspec = Some []))) (RoleEmptyScopes name role) ;;
  for_each (λ scope,
    check (bool_decide (is_Some (Scopes v !! scope))) (RoleScopeUndeclared name role scope) ;;
    check (str_in scope (ts_Scopes spec)) (RoleScopeNotThings name role scope)) (role_scopes rspec) ;;
  for_each (λ implied,
    match Roles spec !! implied with
    | None => Err (ImpliesUndeclared name role implied)
    | Some impliedSpec =>
        for_each (λ scope, check (allowsScope impliedSpec scope) (ImpliesNarrower name role implied scope))
          (effectiveScopes rspec spec)
    end) (Implies rspec).

(** [policy/vocabulary.go:157-214 Vocabulary.validate] One thing of the table. *)
Definition validate_thing (v : Vocabulary) name (spec : ThingSpec) : result vocab_error unit :=
  check (negb (bool_decide (ts_Scopes spec = []))) (ThingNoScopes name) ;;
  for_each (λ scope, check (bool_decide (is_Some (Scopes v !! scope))) (ThingScopeUndeclared name scope)) (ts_Scopes spec) ;;
  check (negb (bool_decide (keys (Roles spec) = []))) (ThingNoRoles name) ;;
  for_each (λ role, match Roles spec !! role with
    | Some rspec => validate_role v name spec role rspec | None => Ok tt end) (sorted_keys (Roles spec)) ;;
  match cycleInRoles (Roles spec) with
  | Some cycle => check (empty cycle) (ImpliesCycle name cycle)
  | None => Err (ImpliesCycle name "")
  end.

(** [policy/vocabulary.go:Vocabulary.validate] *)
Definition validate_vocabulary (ov : option Vocabulary) : result vocab_error unit :=
  match ov with
  | None => Ok tt
  | Some v =>
      for_each (λ name, match Things v !! name with
        | Some spec => validate_thing v name spec | None => Ok tt end) (sorted_keys (Things v))
  end.

(** ** The search finds exactly the cycles *)

Section cycles.
Context (roles : gmap string RoleSpec).

(** [b] is directly implied by [a]. *)
Definition edge (a b : string) : Prop := b ∈ implies_of roles a.

Notation acyclic_at := (Acc (λ y x, edge x y)).

Definition blacks_acyclic (c : colours) : Prop := ∀ x, c !! x = Some Black → acyclic_at x.

(** What a finished visit of [role] from colours [c] guarantees. *)
Definition visit_post (c : colours) role (out : colours * option string) : Prop :=
  match out with
  | (_, Some found) => tc edge found found
  | (c', None) =>
      (∀ x, c' !! x = Some Gray ↔ c !! x = Some Gray ∧ x ≠ role) ∧
      (∀ x, c !! x = Some Black → c' !! x = Some Black) ∧
      c' !! role = Some Black ∧ blacks_acyclic c' ∧ dom c ⊆ dom c'
  end.

Definition visit_pre (c : colours) role : Prop :=
  c !! role = None ∧ blacks_acyclic c ∧ ∀ g, c !! g = Some Gray → tc edge g role.

Lemma acyclic_no_cycle x : acyclic_at x → ¬ tc edge x x.
Proof.
  induction 1 as [x _ IH]. intros Hx. inversion Hx as [? ? He|? y ? He Hy]; subst.
  - by apply (IH x He).
  - apply (IH y He). eapply tc_r; eauto.
Qed.

Lemma visit_loop_spec (vis : colours → string → option (colours * option string)) role :
  (∀ c r out, visit_pre c r → vis c r = Some out → visit_post c r out) →
  ∀ nexts c out,
    c !! role = Some Gray → blacks_acyclic c →
    (∀ g, c !! g = Some Gray → rtc edge g role) →
    (∀ y, y ∈ nexts → edge role y) →
    (∀ y, edge role y → y ∈ nexts ∨ c !! y = Some Black) →
    visit_loop vis c role nexts = Some out → visit_post c role out.
Proof.
  intros Hvis nexts. induction nexts as [|n rest IH]; intros c out Hrole Hacc Hgray Hsub Hdone; simpl.
  - intros [= <-]. simpl. split_and!.
    + intros x. destruct (decide (x = role)) as [->|?]; simplify_map_eq; naive_solver.
    + intros x Hx. destruct (decide (x = role)) as [->|?]; by simplify_map_eq.
    + by simplify_map_eq.
    + intros x Hx. destruct (decide (x = role)) as [->|?]; simplify_map_eq; [|eauto].
      constructor. intros y Hy. destruct (Hdone y Hy); [set_solver | eauto].
    + rewrite dom_insert_L. set_solver.
  - destruct (c !! n) as [[]|] eqn:Hn.
    + intros [= <-]. simpl. eapply tc_rtc_l; [by apply Hgray|].
      apply tc_once. set_solver.
    + apply IH; try done; [set_solver|]. intros y Hy.
      destruct (Hdone y Hy) as [[->|?]%elem_of_cons|?]; auto.
    + destruct (vis c n) as [[c' [found|]]|] eqn:Hv; [| |done].
      { intros [= <-]. apply (Hvis c n (c', Some found)); [|done].
        split_and!; try done. intros g Hg. eapply tc_rtc_l; [by apply Hgray|].
        apply tc_once. set_solver. }
      assert (visit_post c n (c', None)) as (Hg&Hb&Hnb&Hacc'&Hdom).
      { apply Hvis; [|done]. split_and!; try done. intros g Hg. eapply tc_rtc_l; [by apply Hgray|].
        apply tc_once. set_solver. }
      intros Hrest. assert (n ≠ role) by congruence.
      apply IH in Hrest; try done.
      * destruct out as [c'' [found|]]; simpl in *; [done|].
        destruct Hrest as (Hg'&Hb'&?&?&?). split_and!; try done; [|eauto|set_solver].
        intros x. rewrite Hg', Hg. split; [naive_solver|]. intros [Hx ?].
        split_and!; try done. intros ->. congruence.
      * apply Hg. done.
      * intros g [? _]%Hg. auto.
      * set_solver.
      * intros y Hy. destruct (Hdone y Hy) as [[->|?]%elem_of_cons|?]; auto.
Qed.

Lemma visit_spec fuel c role out :
  visit_pre c role → visit fuel roles c role = Some out → visit_post c role out.
Proof.
  revert c role out. induction fuel as [|fuel IH]; [done|].
  intros c role out (Hnone&Hacc&Hgray) Hv. simpl in Hv.
  assert (visit_post (<[role:=Gray]> c) role out) as Hpost.
  { eapply (visit_loop_spec (visit fuel roles)); [exact IH| | | | | |exact Hv].
    - by simplify_map_eq.
    - intros x Hx. destruct (decide (x = role)); simplify_map_eq; eauto.
    - intros g Hg. destruct (decide (g = role)) as [->|?]; [done|].
      simplify_map_eq. apply tc_rtc. auto.
    - done.
    - by left. }
  destruct out as [c' [found|]]; [done|]. destruct Hpost as (Hg&Hb&?&?&Hdom).
  split_and!; try done.
  - intros x. rewrite Hg. destruct (decide (x = role)) as [->|?]; simplify_map_eq; naive_solver.
  - intros x Hx. apply Hb. destruct (decide (x = role)); simplify_map_eq; done.
  - rewrite dom_insert_L in Hdom. set_solver.
Qed.

Lemma visit_loop_dom vis role :
  (∀ c r c', vis c r = Some (c', None) → dom c ⊆ dom c') →
  ∀ nexts c c', visit_loop vis c role nexts = Some (c', None) → dom c ⊆ dom c'.
Proof.
  intros Hvis nexts. induction nexts as [|n rest IH]; intros c c'; simpl.
  - intros [= <-]. rewrite dom_insert_L. set_solver.
  - destruct (c !! n) as [[]|]; [done|apply IH|].
    destruct (vis c n) as [[d [found|]]|] eqn:Hv; [done| |done].
    intros ?%IH. apply Hvis in Hv. set_solver.
Qed.

Lemma visit_dom fuel c role c' : visit fuel roles c role = Some (c', None) → dom c ⊆ dom c'.
Proof.
  revert c role c'. induction fuel as [|fuel IH]; [done|]. intros c role c'; simpl.
  intros H%(visit_loop_dom _ _ IH). rewrite dom_insert_L in H. set_solver.
Qed.

(** Every name the search can meet. *)
Definition universe : gset string := list_to_set (role_names roles).

Lemma edge_declared x y : edge x y → x ∈ keys roles.
Proof.
  unfold edge, implies_of. rewrite elem_of_keys. destruct (roles !! x); [by eexists|set_solver].
Qed.

Lemma universe_closed x y : edge x y → y ∈ universe.
Proof.
  intros He. unfold universe, role_names. rewrite elem_of_list_to_set, elem_of_app. right.
  apply list_elem_of_join. exists (implies_of roles x). split; [done|].
  apply list_elem_of_fmap. exists x. split; [done|]. by eapply edge_declared.
Qed.

Lemma visit_total fuel c role :
  c !! role = None → role ∈ universe → size (universe ∖ dom c) < fuel →
  is_Some (visit fuel roles c role).
Proof.
  revert c role. induction fuel as [|fuel IH]; intros c role Hnone Hin Hsize; [lia|]. simpl.
  assert (∀ nexts d, (∀ y, y ∈ nexts → edge role y) → size (universe ∖ dom d) < fuel →
    is_Some (visit_loop (visit fuel roles) d role nexts)) as Hloop.
  { induction nexts as [|n rest IHn]; intros d Hsub Hd; simpl; [by eexists|].
    destruct (d !! n) as [[]|] eqn:Hn; [by eexists| |].
    - apply IHn; [set_solver|done].
    - assert (n ∈ universe) as Hu by (apply (universe_closed role); set_solver).
      destruct (IH d n Hn Hu Hd) as [[d' [found|]] Hv]; rewrite Hv; [by eexists|].
      apply IHn; [set_solver|]. apply visit_dom in Hv.
      eapply Nat.le_lt_trans; [|exact Hd]. apply subseteq_size. set_solver. }
  apply Hloop; [done|]. rewrite dom_insert_L.
  apply Nat.lt_le_trans with (size (universe ∖ dom c)); [|lia].
  apply subset_size. apply not_elem_of_dom in Hnone. set_solver.
Qed.

Lemma cycle_loop_total fuel c names :
  (∀ x, x ∈ names → x ∈ universe) → size universe < fuel → is_Some (cycle_loop fuel roles c names).
Proof.
  intros Hin Hsize. revert c. induction names as [|role rest IH]; intros c; simpl; [by eexists|].
  destruct (c !! role) eqn:Hrole; [apply IH; set_solver|].
  assert (size (universe ∖ dom c) < fuel) as Hd.
  { apply Nat.le_lt_trans with (size universe); [|done]. apply subseteq_size. set_solver. }
  assert (role ∈ universe) as Hu by (apply Hin; set_solver).
  destruct (visit_total fuel c role Hrole Hu Hd) as [[c' [found|]] Hv]; rewrite Hv; [by eexists|].
  apply IH. set_solver.
Qed.

Lemma cycle_loop_spec fuel c names r :
  blacks_acyclic c → (∀ x, c !! x ≠ Some Gray) →
  cycle_loop fuel roles c names = Some r →
  tc edge r r ∨ r = "" ∧ ∀ x, x ∈ names → acyclic_at x.
Proof.
  revert c. induction names as [|role rest IH]; intros c Hacc Hgray; simpl.
  { intros [= <-]. right. set_solver. }
  destruct (c !! role) as [[]|] eqn:Hrole; [by apply Hgray in Hrole| |].
  - intros [?|[-> Hr]]%IH; [by left| |done..]. right. split; [done|].
    intros x [->|?]%elem_of_cons; auto.
  - destruct (visit fuel roles c role) as [[c' [found|]]|] eqn:Hv; [| |done].
    + intros [= <-]. left. apply visit_spec in Hv; [done|].
      split_and!; try done. intros g Hg. by apply Hgray in Hg.
    + apply visit_spec in Hv as (Hg&_&Hb&Hacc'&_); last first.
      { split_and!; try done. intros g Hg. by apply Hgray in Hg. }
      intros [?|[-> Hr]]%IH; [by left| |done|].
      * right. split; [done|]. intros x [->|?]%elem_of_cons; auto.
      * intros x [Hx _]%Hg. by apply Hgray in Hx.
Qed.

Lemma cycleInRoles_total : is_Some (cycleInRoles roles).
Proof.
  apply cycle_loop_total.
  - intros x Hx%elem_of_sorted_keys%elem_of_keys. unfold universe, role_names. set_solver.
  - unfold universe. 
    pose proof (size_list_to_set_length (role_names roles)). unfold role_names in *. lia.
Qed.

Lemma no_cycle_undeclared x : roles !! x = None → ¬ tc edge x x.
Proof.
  intros Hx Hc. assert (∃ y, edge x y) as [y Hy] by (inversion Hc; eauto).
  apply edge_declared, elem_of_keys in Hy as [? ?]. congruence.
Qed.
End cycles.

(** the check of the implies graph terminates and reports a role exactly
    when the graph has a cycle, and the role it reports is on one.  (A role
    whose name is the empty string is left out: the code uses it as
    "no cycle".) *)
Theorem cycleInRoles_correct (roles : gmap string RoleSpec) (Hne : roles !! "" = None) :
  ∃ r, cycleInRoles roles = Some r ∧
    (r = "" ↔ ∀ x, ¬ tc (edge roles) x x) ∧ (r ≠ "" → tc (edge roles) r r).
Proof.
  destruct (cycleInRoles_total roles) as [r Hr]. exists r. split; [done|].
  apply cycle_loop_spec in Hr as Hc; [|intros x Hx; set_solver|set_solver].
  pose proof (no_cycle_undeclared roles "" Hne) as Hnone.
  destruct Hc as [Hc|[-> Hacc]].
  - split; [|done]. split; [by intros ->|]. intros H. by apply H in Hc.
  - split; [|done]. split; [|done]. intros _ x.
    destruct (decide (is_Some (roles !! x))) as [Hx|Hx%eq_None_not_Some].
    + apply acyclic_no_cycle, Hacc. by apply elem_of_sorted_keys.
    + by apply no_cycle_undeclared.
Qed.

(** The role ladder of the reference document: admin, operator, viewer. *)
Definition ladder : gmap string RoleSpec :=
  {[ "admin" := mkRoleSpec ["operator"] None; "operator" := mkRoleSpec ["viewer"] None;
     "viewer" := mkRoleSpec [] None ]}.

Lemma cycleInRoles_correct_witness :
  ∃ r, cycleInRoles ladder = Some r ∧
    (r = "" ↔ ∀ x, ¬ tc (edge ladder) x x) ∧ (r ≠ "" → tc (edge ladder) r r).
Proof. apply (cycleInRoles_correct ladder). reflexivity. Defined.

(** ** Concrete grants and wildcards *)

(** What [fits] means: the grant's scope and thing are declared, the thing has
    the scope and the role, and the role covers the scope. *)
Inductive allowed (v : Vocabulary) scope thing role : Prop :=
| Allowed (spec : ThingSpec) (rspec : RoleSpec) :
    is_Some (Scopes v !! scope) → Things v !! thing = Some spec → scope ∈ ts_Scopes spec →
    Roles spec !! role = Some rspec → allowsScope rspec scope = true →
    allowed v scope thing role.

Lemma fits_allowed v scope thing role : fits v scope thing role = Ok tt ↔ allowed v scope thing role.
Proof.
  unfold fits. split.
  - intros H. destruct (Scopes v !! scope) eqn:?; [|done].
    destruct (Things v !! thing) as [spec|] eqn:?; [|done].
    destruct (str_in scope (ts_Scopes spec)) eqn:?; [|done]. simpl in H.
    destruct (Roles spec !! role) as [rspec|] eqn:?; [|done].
    destruct (allowsScope rspec scope) eqn:?; [|done].
    econstructor; eauto; by apply str_in_true.
  - intros [spec rspec [? ->] -> Hin -> Hallow].
    apply str_in_true in Hin. by rewrite Hin, Hallow.
Qed.

Lemma allowsScope_true r scope :
  allowsScope r scope = true ↔ role_scopes r = [] ∨ scope ∈ role_scopes r.
Proof.
  unfold allowsScope. destruct (role_scopes r); [naive_solver|].
  rewrite str_in_true. naive_solver.
Qed.

Lemma effectiveScopes_elem r t scope :
  scope ∈ ts_Scopes t → allowsScope r scope = true → scope ∈ effectiveScopes r t.
Proof.
  intros Ht. rewrite allowsScope_true. unfold effectiveScopes.
  destruct (role_scopes r); set_solver.
Qed.

(** What a table that loads guarantees. *)
Record vocab_wf (v : Vocabulary) : Prop := {
  wf_scopes : ∀ thing spec scope,
    Things v !! thing = Some spec → scope ∈ ts_Scopes spec → is_Some (Scopes v !! scope);
  wf_implies : ∀ thing spec role rspec implied,
    Things v !! thing = Some spec → Roles spec !! role = Some rspec → implied ∈ Implies rspec →
    ∃ ispec, Roles spec !! implied = Some ispec ∧
      ∀ scope, scope ∈ effectiveScopes rspec spec → allowsScope ispec scope = true }.

Lemma validate_role_wf v name spec role rspec :
  validate_role v name spec role rspec = Ok tt →
  ∀ implied, implied ∈ Implies rspec →
    ∃ ispec, Roles spec !! implied = Some ispec ∧
      ∀ scope, scope ∈ effectiveScopes rspec spec → allowsScope ispec scope = true.
Proof.
  unfold validate_role. intros H. step_ok H. rewrite Forall_forall in H.
  intros implied Himp. specialize (H implied Himp).
  destruct (Roles spec !! implied) as [ispec|]; [|done].
  exists ispec. split; [done|]. intros scope Hs. apply for_each_ok in H.
  rewrite Forall_forall in H. eapply check_ok. by apply H.
Qed.

Lemma validate_vocabulary_wf v : validate_vocabulary (Some v) = Ok tt → vocab_wf v.
Proof.
  simpl. intros H%for_each_ok. rewrite Forall_forall in H.
  assert (∀ thing spec, Things v !! thing = Some spec → validate_thing v thing spec = Ok tt) as Hthing.
  { intros thing spec Ht. specialize (H thing). rewrite Ht in H. apply H.
    apply elem_of_sorted_keys. by eexists. }
  split.
  - intros thing spec scope Ht%Hthing Hs. unfold validate_thing in Ht. step_ok Ht.
    rewrite Forall_forall in Ht1. specialize (Ht1 scope Hs).
    apply check_ok in Ht1. by apply bool_decide_eq_true in Ht1.
  - intros thing spec role rspec implied Ht%Hthing Hr Himp. unfold validate_thing in Ht. step_ok Ht.
    rewrite Forall_forall in Ht3. specialize (Ht3 role). rewrite Hr in Ht3.
    eapply validate_role_wf; [|done]. apply Ht3. apply elem_of_sorted_keys. by eexists.
Qed.

Lemma implied_allowed v scope thing role spec rspec implied :
  vocab_wf v → allowed v scope thing role →
  Things v !! thing = Some spec → Roles spec !! role = Some rspec → implied ∈ Implies rspec →
  allowed v scope thing implied.
Proof.
  intros Hwf [spec' rspec' Hs Ht Hin Hr Hallow] Ht' Hr' Himp.
  rewrite Ht in Ht'. injection Ht' as ->. rewrite Hr in Hr'. injection Hr' as ->.
  destruct (wf_implies v Hwf thing spec role rspec implied) as (ispec&Hi&Hcover); try done.
  econstructor; eauto. apply Hcover. by apply effectiveScopes_elem.
Qed.

Lemma elem_of_swept_things v thing t :
  is_Some (Things v !! t) → t ∈ swept_things v thing ↔ thing = "*" ∨ thing = t.
Proof.
  intros Ht. unfold swept_things. case_bool_decide.
  - rewrite elem_of_sorted_keys. naive_solver.
  - rewrite list_elem_of_singleton. naive_solver.
Qed.

Lemma elem_of_swept_scopes spec scope s :
  s ∈ swept_scopes spec scope ↔ s ∈ ts_Scopes spec ∧ (scope = "*" ∨ scope = s).
Proof.
  unfold swept_scopes. case_bool_decide; [naive_solver|].
  destruct (str_in scope (ts_Scopes spec)) eqn:Hin.
  - apply str_in_true in Hin. set_solver.
  - apply str_in_false in Hin. set_solver.
Qed.

(** One lemma for both expansions, over the test [keep] of a role and a scope. *)
Lemma elem_of_expand_with v keep scope thing role g :
  g ∈ compact (sort_strings (mjoin (expand_thing v keep scope role <$> swept_things v thing))) ↔
  ∃ s t spec rspec, g = grant s t role ∧ Things v !! t = Some spec ∧ Roles spec !! role = Some rspec ∧
    s ∈ ts_Scopes spec ∧ keep rspec s = true ∧ (scope = "*" ∨ scope = s) ∧ (thing = "*" ∨ thing = t).
Proof.
  rewrite elem_of_compact, elem_of_sort_strings, list_elem_of_join. split.
  - intros (l&Hg&Hl). apply list_elem_of_fmap in Hl as (t&->&Ht).
    unfold expand_thing in Hg. destruct (Things v !! t) as [spec|] eqn:Hspec; [|set_solver].
    destruct (Roles spec !! role) as [rspec|] eqn:Hr; [|set_solver].
    apply list_elem_of_fmap in Hg as (s&->&Hs).
    apply elem_of_filter_bool in Hs as [Hs Hk]. apply elem_of_swept_scopes in Hs as [Hs Hsc].
    exists s, t, spec, rspec. split_and!; try done. eapply elem_of_swept_things; [|done]. by eexists.
  - intros (s&t&spec&rspec&->&Ht&Hr&Hs&Hk&Hsc&Hth).
    exists (expand_thing v keep scope role t). split.
    + unfold expand_thing. rewrite Ht, Hr. apply list_elem_of_fmap. exists s. split; [done|].
      apply elem_of_filter_bool. by rewrite elem_of_swept_scopes.
    + apply list_elem_of_fmap. exists t. split; [done|]. apply elem_of_swept_things; [by eexists|done].
Qed.

Lemma elem_of_expand v scope thing role g :
  vocab_wf v →
  g ∈ expand v scope thing role ↔
  ∃ s t, g = grant s t role ∧ allowed v s t role ∧ sensitive v s = false ∧
    (scope = "*" ∨ scope = s) ∧ (thing = "*" ∨ thing = t).
Proof.
  intros Hwf. unfold expand. rewrite elem_of_expand_with. split.
  - intros (s&t&spec&rspec&->&Ht&Hr&Hs&Hk&?&?). apply andb_true_iff in Hk as [Hsens Hallow].
    apply negb_true_iff in Hsens. exists s, t. split_and!; try done.
    econstructor; eauto. by eapply wf_scopes.
  - intros (s&t&->&[spec rspec ? ? ? ? Hallow]&Hsens&?&?). exists s, t, spec, rspec.
    split_and!; try done. by rewrite Hsens, Hallow.
Qed.

Lemma expand_allowed v scope thing role g s t r :
  validate_vocabulary (Some v) = Ok tt → g ∈ expand v scope thing role →
  SplitGroup g = Some (s, t, r) → allowed v s t r.
Proof.
  intros Hv Hg Hs. apply validate_vocabulary_wf in Hv.
  apply elem_of_expand in Hg as (s'&t'&->&Ha&_); [|done].
  by apply SplitGroup_grant_inv in Hs as (->&->&->).
Qed.

(** a mapping wildcard of a table that loads stands for exactly the grants
    that fit the table, match its concrete segment, and are on no sensitive
    scope; each once, in order. *)
Theorem expand_correct v scope thing role (Hv : validate_vocabulary (Some v) = Ok tt) :
  (∀ g, g ∈ expand v scope thing role ↔
    ∃ s t, g = grant s t role ∧ fits v s t role = Ok tt ∧ sensitive v s = false ∧
      (scope = "*" ∨ scope = s) ∧ (thing = "*" ∨ thing = t)) ∧
  StronglySorted String.le (expand v scope thing role) ∧ NoDup (expand v scope thing role).
Proof.
  apply validate_vocabulary_wf in Hv. split; [|by apply compact_sorted, sort_strings_sorted].
  intros g. rewrite elem_of_expand by done. by setoid_rewrite fits_allowed.
Qed.

(** A table with a sensitive scope, used by the witnesses. *)
Definition sample_vocabulary : Vocabulary := mkVocabulary
  {[ "devel" := mkScopeSpec false; "stage" := mkScopeSpec false; "prod" := mkScopeSpec true ]}
  {[ "k8s" := mkThingSpec ["devel"; "stage"; "prod"] ladder;
     "grafana" := mkThingSpec ["devel"; "prod"] {[ "viewer" := mkRoleSpec [] (Some ["devel"]) ]} ]}.

Lemma expand_correct_witness :
  validate_vocabulary (Some sample_vocabulary) = Ok tt ∧
  expand sample_vocabulary "*" "*" "viewer" =
    ["devel:grafana:viewer"; "devel:k8s:viewer"; "stage:k8s:viewer"] ∧
  StronglySorted String.le (expand sample_vocabulary "*" "*" "viewer").
Proof.
  split; [vm_compute; reflexivity|]. split; [vm_compute; reflexivity|].
  apply (expand_correct sample_vocabulary "*" "*" "viewer"). vm_compute; reflexivity.
Defined.

(** in a table that loads, a role implies only roles that are valid
    wherever it is: whatever grant fits, every grant it implies fits too. *)
Theorem implies_stays_allowed v scope thing role implied spec rspec
  (Hv : validate_vocabulary (Some v) = Ok tt) (Hfit : fits v scope thing role = Ok tt)
  (Ht : Things v !! thing = Some spec) (Hr : Roles spec !! role = Some rspec)
  (Hi : implied ∈ Implies rspec) :
  fits v scope thing implied = Ok tt.
Proof.
  apply fits_allowed. apply fits_allowed in Hfit.
  eapply implied_allowed; eauto using validate_vocabulary_wf.
Qed.

Lemma implies_stays_allowed_witness :
  fits sample_vocabulary "prod" "k8s" "operator" = Ok tt.
Proof.
  apply (implies_stays_allowed sample_vocabulary "prod" "k8s" "admin" "operator"
    (mkThingSpec ["devel"; "stage"; "prod"] ladder) (mkRoleSpec ["operator"] None)).
  - vm_compute; reflexivity.
  - vm_compute; reflexivity.
  - vm_compute; reflexivity.
  - vm_compute; reflexivity.
  - by left.
Defined.
