(* ===== verification/Glob.v ===== *)
(** * Glob: Go's [path.Match], as [policy]'s matchers use it

    The chunk-by-chunk matcher of the Go standard library: a pattern is split at
    its stars, each chunk is matched at the current position or, after a star,
    at every later one that skips no [/].  [None] is [path.ErrBadPattern].
    Runes are bytes here (the ASCII reading of GoStrings).

    The loops take fuel; the [_fuel] lemmas show the length of what is left to
    read is enough, so the fuel given by [Match] never runs out. *)

From S2P Require Import Prelude GoStrings.

Implicit Types (c : ascii) (chunk s : string).

(** [path.getEsc]: one possibly escaped byte of a character class. *)
Definition getEsc chunk : option (ascii * string) :=
  let finish r n := if empty n then None else Some (r, n) in
  match chunk with
  | EmptyString => None
  | String c rest =>
      if byte_eqb c "-" || byte_eqb c "]" then None
      else if byte_eqb c "\" then
        match rest with EmptyString => None | String d n => finish d n end
      else finish c rest
  end.

(** The ranges of a class, up to its closing bracket: whether [r] is in one. *)
Fixpoint class_ranges (fuel : nat) chunk (r : ascii) (matched : bool) (some_range : bool)
    : option (bool * string) :=
  match fuel with
  | 0 => None
  | S fuel =>
      let range :=
        match getEsc chunk with
        | None => None
        | Some (lo, chunk1) =>
            let next hi chunk2 :=
              class_ranges fuel chunk2 r (matched || in_range lo hi r) true in
            match chunk1 with
            | String d chunk2 =>
                if byte_eqb d "-" then
                  match getEsc chunk2 with Some (hi, chunk3) => next hi chunk3 | None => None end
                else next lo chunk1
            | EmptyString => None
            end
        end in
      match chunk with
      | String c rest => if byte_eqb c "]" && some_range then Some (matched, rest) else range
      | EmptyString => range
      end
  end.

(** [path.matchChunk]: [Some (Some rest)] is a match that leaves [rest],
    [Some None] no match of a well-formed chunk. *)
Fixpoint matchChunk (fuel : nat) chunk s (failed : bool) : option (option string) :=
  match chunk with
  | EmptyString => Some (if failed then None else Some s)
  | String c rest =>
      match fuel with
      | 0 => None
      | S fuel =>
          let failed := failed || empty s in
          let head := match s with String d _ => d | EmptyString => zero end in
          let tail := match s with String _ t => t | EmptyString => EmptyString end in
          if byte_eqb c "[" then
            let '(negated, rest) := match rest with
              | String d rest' => if byte_eqb d "^" then (true, rest') else (false, rest)
              | EmptyString => (false, rest) end in
            match class_ranges fuel rest (if failed then zero else head) false false with
            | None => None
            | Some (matched, rest) => matchChunk fuel rest tail (failed || eqb matched negated)
            end
          else if byte_eqb c "?" then matchChunk fuel rest tail (failed || byte_eqb head "/")
          else if byte_eqb c "\" then
            match rest with
            | EmptyString => None
            | String d rest' => matchChunk fuel rest' tail (failed || negb (byte_eqb d head))
            end
          else matchChunk fuel rest tail (failed || negb (byte_eqb c head))
      end
  end.

Definition match_chunk chunk s : option (option string) := matchChunk (String.length chunk) chunk s false.

(** [path.scanChunk] *)
Fixpoint strip_stars s : bool * string :=
  match s with
  | String c rest => if byte_eqb c "*" then (true, snd (strip_stars rest)) else (false, s)
  | EmptyString => (false, s)
  end.

Fixpoint scan_chunk (inrange : bool) s : string * string :=
  match s with
  | EmptyString => (EmptyString, EmptyString)
  | String c rest =>
      let take inrange r := let '(chunk, after) := scan_chunk inrange r in (String c chunk, after) in
      if byte_eqb c "\" then
        match rest with
        | String d rest' => let '(chunk, after) := scan_chunk inrange rest' in (String c (String d chunk), after)
        | EmptyString => (s, EmptyString)
        end
      else if byte_eqb c "[" then take true rest
      else if byte_eqb c "]" then take false rest
      else if byte_eqb c "*" && negb inrange then (EmptyString, s)
      else take inrange rest
  end.

(** After a star: the first later position, with no [/] skipped, where the
    chunk matches (and, for the last chunk, matches to the end). *)
Fixpoint skip_match chunk (last : bool) s : option (option string) :=
  match s with
  | EmptyString => Some None
  | String c rest =>
      if byte_eqb c "/" then Some None
      else match match_chunk chunk rest with
           | None => None
           | Some (Some t) => if last && negb (empty t) then skip_match chunk last rest else Some (Some t)
           | Some None => skip_match chunk last rest
           end
  end.

(** The rest of a pattern that already failed is only checked for syntax. *)
Fixpoint well_formed (fuel : nat) (pattern : string) : bool :=
  match pattern, fuel with
  | EmptyString, _ => true
  | _, 0 => false
  | _, S fuel =>
      let '(chunk, rest) := scan_chunk false (snd (strip_stars pattern)) in
      match match_chunk chunk EmptyString with None => false | Some _ => well_formed fuel rest end
  end.

Fixpoint match_fuel (fuel : nat) (pattern name : string) : option bool :=
  match pattern, fuel with
  | EmptyString, _ => Some (empty name)
  | _, 0 => None
  | _, S fuel =>
      let '(star, p) := strip_stars pattern in
      let '(chunk, rest) := scan_chunk false p in
      let failed := if well_formed fuel rest then Some false else None in
      if star && empty chunk then Some (negb (contains_byte "/" name))
      else
        let skip := if star then
            match skip_match chunk (empty rest) name with
            | None => None
            | Some (Some t) => match_fuel fuel rest t
            | Some None => failed
            end
          else failed in
        match match_chunk chunk name with
        | Some (Some t) => if empty t || negb (empty rest) then match_fuel fuel rest t else skip
        | None => None
        | Some None => skip
        end
  end.

(** [path.Match(pattern, name)] *)
Definition Match (pattern name : string) : option bool :=
  match_fuel (String.length pattern) pattern name.

#[global] Arguments Match : simpl never.

(** [policy/policy.go:globs] *)
Definition globs (pattern value : string) : bool :=
  if empty pattern then true
  else if bool_decide (pattern = value) then true
  else match Match pattern value with Some ok => ok | None => false end.

(** ** The fuel is enough *)

Lemma length_getEsc chunk r n : getEsc chunk = Some (r, n) → String.length n < String.length chunk.
Proof.
  unfold getEsc. destruct chunk as [|c rest]; [done|].
  destruct (byte_eqb c "-" || byte_eqb c "]"); [done|].
  destruct (byte_eqb c "\"); [destruct rest as [|d rest]; [done|]|];
    destruct (empty _); intros; simplify_eq/=; lia.
Qed.

Lemma length_class_ranges f chunk r m b m' rest :
  class_ranges f chunk r m b = Some (m', rest) → String.length rest < String.length chunk.
Proof.
  revert chunk m b. induction f as [|f IH]; intros chunk m b; simpl; [done|].
  assert (∀ hi chunk2, String.length chunk2 < String.length chunk →
    class_ranges f chunk2 r hi true = Some (m', rest) → String.length rest < String.length chunk) as Hnext.
  { intros hi chunk2 Hlt ?%IH. lia. }
  assert (match getEsc chunk with
    | Some (lo, "") => None
    | Some (lo, String d chunk2 as chunk1) =>
        if byte_eqb d "-" then
          match getEsc chunk2 with
          | Some (hi, chunk3) => class_ranges f chunk3 r (m || in_range lo hi r) true
          | None => None end
        else class_ranges f chunk1 r (m || in_range lo lo r) true
    | None => None end = Some (m', rest) → String.length rest < String.length chunk) as Hrange.
  { destruct (getEsc chunk) as [[lo chunk1]|] eqn:H1; [|done]. apply length_getEsc in H1.
    destruct chunk1 as [|d chunk2]; [done|]. destruct (byte_eqb d "-"); [|by apply Hnext].
    destruct (getEsc chunk2) as [[hi chunk3]|] eqn:H2; [|done]. apply length_getEsc in H2.
    apply Hnext. simpl in *. lia. }
  destruct chunk as [|c chunk]; [done|]. destruct (byte_eqb c "]" && b); [|exact Hrange].
  intros [= _ ->]. simpl. lia.
Qed.

Lemma class_ranges_fuel f f' chunk r m b :
  String.length chunk ≤ f → String.length chunk ≤ f' →
  class_ranges f chunk r m b = class_ranges f' chunk r m b.
Proof.
  revert f' chunk m b. induction f as [|f IH]; intros f' chunk m b Hf Hf'.
  { destruct chunk; simpl in *; [|lia]. by destruct f'. }
  destruct f' as [|f'].
  { destruct chunk; simpl in *; [done|lia]. }
  simpl. destruct chunk as [|c rest]; [done|]. destruct (byte_eqb c "]" && b); [done|].
  destruct (getEsc (String c rest)) as [[lo chunk1]|] eqn:H1; [|done]. apply length_getEsc in H1.
  destruct chunk1 as [|d chunk2]; [done|]. destruct (byte_eqb d "-").
  - destruct (getEsc chunk2) as [[hi chunk3]|] eqn:H2; [|done]. apply length_getEsc in H2.
    apply IH; simpl in *; lia.
  - apply IH; simpl in *; lia.
Qed.

(** More fuel than the length of the chunk changes nothing. *)
Lemma matchChunk_fuel f f' chunk s failed :
  String.length chunk ≤ f → String.length chunk ≤ f' →
  matchChunk f chunk s failed = matchChunk f' chunk s failed.
Proof.
  revert f' chunk s failed. induction f as [|f IH]; intros f' chunk s failed Hf Hf'.
  { destruct chunk; simpl in *; [by destruct f'|lia]. }
  destruct chunk as [|c rest]; [by destruct f'|]. destruct f' as [|f']; [simpl in *; lia|].
  simpl in *. destruct (byte_eqb c "[").
  - set (d := match rest with String d rest' => _ | _ => _ end).
    assert (String.length (snd d) ≤ String.length rest) as Hd.
    { unfold d. destruct rest as [|e rest']; [done|]. destruct (byte_eqb e "^"); simpl; lia. }
    destruct d as [negated rest']. simpl in Hd.
    rewrite (class_ranges_fuel f f') by lia.
    destruct (class_ranges f' _ _ _ _) as [[matched rest'']|] eqn:Hc; [|done].
    apply length_class_ranges in Hc. apply IH; lia.
  - destruct (byte_eqb c "?"); [apply IH; lia|].
    destruct (byte_eqb c "\"); [|apply IH; lia].
    destruct rest; simpl in *; [done|apply IH; lia].
Qed.

Lemma length_strip_stars s : String.length (snd (strip_stars s)) ≤ String.length s.
Proof. induction s as [|c s IH]; simpl; [lia|]. destruct (byte_eqb c "*"); simpl; lia. Qed.

Lemma strip_stars_first s :
  match snd (strip_stars s) with String c _ => byte_eqb c "*" = false | EmptyString => True end.
Proof. induction s as [|c s IH]; simpl; [done|]. by destruct (byte_eqb c "*") eqn:?. Qed.

Lemma scan_chunk_split b s : s = fst (scan_chunk b s) +:+ snd (scan_chunk b s).
Proof.
  revert b. induction s as [s IH] using (induction_ltof1 _ String.length); intros b. unfold ltof in IH.
  destruct s as [|c rest]; [done|]. simpl.
  assert (∀ b', String c rest = fst (let '(chunk, after) := scan_chunk b' rest in (String c chunk, after)) +:+
    snd (let '(chunk, after) := scan_chunk b' rest in (String c chunk, after))) as Htake.
  { intros b'. pose proof (IH rest ltac:(simpl; lia) b') as H. destruct (scan_chunk b' rest).
    simpl in *. by rewrite app_cons, <- H. }
  destruct (byte_eqb c "\").
  - destruct rest as [|d rest']; [done|]. pose proof (IH rest' ltac:(simpl; lia) b) as H.
    destruct (scan_chunk b rest'). simpl in *. by rewrite !app_cons, <- H.
  - destruct (byte_eqb c "["); [apply Htake|]. destruct (byte_eqb c "]"); [apply Htake|].
    destruct (byte_eqb c "*" && negb b); [done|apply Htake].
Qed.

(** A round of the pattern loop reads at least one byte. *)
Lemma length_round pattern p chunk rest star :
  pattern ≠ "" → strip_stars pattern = (star, p) → scan_chunk false p = (chunk, rest) →
  String.length rest < String.length pattern.
Proof.
  intros Hne Hstar Hscan. pose proof (scan_chunk_split false p) as Hp.
  pose proof (strip_stars_first pattern) as Hfirst. rewrite Hstar in Hfirst. simpl in Hfirst.
  pose proof (length_strip_stars pattern) as Hlen. rewrite Hstar in Hlen. simpl in Hlen.
  rewrite Hscan in Hp. simpl in Hp.
  destruct p as [|c p].
  - simpl in Hscan. injection Hscan as <- <-. destruct pattern; simpl; [done|lia].
  - destruct chunk as [|d chunk].
    + simpl in Hscan. rewrite Hfirst in Hscan. simpl in Hscan.
      repeat case_match; simplify_eq.
    + rewrite app_cons in Hp. injection Hp as -> ->. simpl in Hlen.
      assert (∀ x y, String.length (x +:+ y) = String.length x + String.length y) as Happ.
      { intros x y. induction x as [|e x IH]; [done|]. rewrite app_cons. simpl. by rewrite IH. }
      rewrite Happ in Hlen. lia.
Qed.

Lemma well_formed_fuel f f' pattern :
  String.length pattern ≤ f → String.length pattern ≤ f' → well_formed f pattern = well_formed f' pattern.
Proof.
  revert f' pattern. induction f as [|f IH]; intros f' pattern Hf Hf'.
  { destruct pattern; simpl in *; [by destruct f'|lia]. }
  destruct pattern as [|c q] eqn:Hq; [by destruct f'|]. rewrite <- Hq in *.
  destruct f' as [|f']; [subst; simpl in *; lia|].
  assert (∀ n, well_formed (S n) pattern =
    let '(chunk, rest) := scan_chunk false (snd (strip_stars pattern)) in
    match match_chunk chunk EmptyString with None => false | Some _ => well_formed n rest end) as Heq by by subst.
  rewrite !Heq. destruct (strip_stars pattern) as [star p] eqn:Hstar. simpl.
  destruct (scan_chunk false p) as [chunk rest] eqn:Hscan.
  assert (String.length rest < String.length pattern) by (eapply length_round; eauto; by subst).
  destruct (match_chunk chunk ""); [apply IH; lia|done].
Qed.

Lemma match_fuel_enough f f' pattern name :
  String.length pattern ≤ f → String.length pattern ≤ f' → match_fuel f pattern name = match_fuel f' pattern name.
Proof.
  revert f' pattern name. induction f as [|f IH]; intros f' pattern name Hf Hf'.
  { destruct pattern; simpl in *; [by destruct f'|lia]. }
  destruct pattern as [|c q]; [by destruct f'|].
  destruct f' as [|f']; [simpl in *; lia|].
  remember (String c q) as pattern eqn:Hq.
  assert (pattern ≠ "") as Hne by by subst.
  destruct (strip_stars pattern) as [star p] eqn:Hstar.
  destruct (scan_chunk false p) as [chunk rest] eqn:Hscan.
  assert (String.length rest < String.length pattern) by (eapply length_round; eauto).
  rewrite Hq. cbn [match_fuel]. rewrite <- Hq, Hstar, Hscan.
  rewrite (well_formed_fuel f f') by lia.
  destruct (star && empty chunk); [done|].
  assert (∀ t, match_fuel f rest t = match_fuel f' rest t) as Ht by (intros; apply IH; lia).
  destruct (match_chunk chunk name) as [[t|]|], star; rewrite ?Ht; try done;
    destruct (skip_match chunk (empty rest) name) as [[t'|]|]; rewrite ?Ht; done.
Qed.

(** ** What the patterns of a policy mean *)

(** A byte with no meaning of its own in a pattern. *)
Definition plain c : bool :=
  negb (byte_eqb c "*" || byte_eqb c "?" || byte_eqb c "[" || byte_eqb c "\").
Definition literal s : bool := str_all plain s.

Lemma plain_inv c :
  plain c = true →
  byte_eqb c "*" = false ∧ byte_eqb c "?" = false ∧ byte_eqb c "[" = false ∧ byte_eqb c "\" = false.
Proof.
  unfold plain. destruct (byte_eqb c "*"), (byte_eqb c "?"), (byte_eqb c "["), (byte_eqb c "\"); naive_solver.
Qed.

Lemma matchChunk_failed p s f :
  literal p = true → String.length p ≤ f → matchChunk f p s true = Some None.
Proof.
  revert s f. induction p as [|c p IH]; intros s f; [by destruct f|].
  intros [Hc Hp]%andb_true_iff Hf. apply plain_inv in Hc as (_&Hq&Hb&Hs).
  destruct f as [|f]; simpl in *; [lia|]. rewrite Hq, Hb, Hs. apply IH; [done|lia].
Qed.

Lemma matchChunk_literal p s f :
  literal p = true → String.length p ≤ f → matchChunk f p s false = Some (CutPrefix s p).
Proof.
  revert s f. induction p as [|c p IH]; intros s f; [by destruct f|].
  intros [Hc Hp]%andb_true_iff Hf. apply plain_inv in Hc as (_&Hq&Hb&Hs).
  destruct f as [|f]; simpl in *; [lia|]. rewrite Hq, Hb, Hs.
  destruct s as [|d s]; simpl; [apply matchChunk_failed; [done|lia]|].
  destruct (byte_eqb c d); simpl; [apply IH; [done|lia] | apply matchChunk_failed; [done|lia]].
Qed.

Lemma match_chunk_literal p s : literal p = true → match_chunk p s = Some (CutPrefix s p).
Proof. intros Hp. by apply matchChunk_literal. Qed.

Lemma strip_stars_literal p q : literal p = true → p ≠ "" → strip_stars (p +:+ q) = (false, p +:+ q).
Proof.
  destruct p as [|c p]; [done|]. intros [Hc _]%andb_true_iff _. apply plain_inv in Hc as [Hc _].
  rewrite app_cons. simpl. by rewrite Hc.
Qed.

Lemma scan_literal p q :
  literal p = true → scan_chunk false q = ("", q) → scan_chunk false (p +:+ q) = (p, q).
Proof.
  intros Hp Hq. induction p as [|c p IH]; [done|].
  apply andb_true_iff in Hp as [Hc Hp]. apply plain_inv in Hc as (Hs&_&Hb&He).
  rewrite app_cons. simpl. rewrite He, Hb, Hs, (IH Hp). by destruct (byte_eqb c "]").
Qed.

Lemma Match_literal p v : literal p = true → Match p v = Some (bool_decide (v = p)).
Proof.
  intros Hp. destruct (decide (p = "")) as [->|Hne]; [by destruct v|].
  unfold Match. destruct (String.length p) as [|n] eqn:Hlen; [by destruct p|].
  pose proof (strip_stars_literal p "" Hp Hne) as Hstar. rewrite app_empty_r in Hstar.
  pose proof (scan_literal p "" Hp eq_refl) as Hscan. rewrite app_empty_r in Hscan.
  destruct p as [|c q] eqn:Hq; [done|]. cbn [match_fuel]. rewrite <- Hq in *.
  rewrite Hstar, Hscan. rewrite match_chunk_literal by done.
  assert (well_formed n "" = true) as -> by by destruct n.
  destruct (CutPrefix v p) as [t|] eqn:Hcut; simpl.
  - apply CutPrefix_spec in Hcut as ->. destruct t as [|d t].
    + rewrite app_empty_r, bool_decide_eq_true_2 by done. by destruct n.
    + rewrite bool_decide_eq_false_2; [done|]. intros Heq.
      assert (CutPrefix p p = Some (String d t)) as H1 by (by apply CutPrefix_spec).
      assert (CutPrefix p p = Some "") as H2 by (apply CutPrefix_spec; by rewrite app_empty_r). congruence.
  - rewrite bool_decide_eq_false_2; [done|]. intros ->.
    assert (CutPrefix p p = Some "") as H2 by (apply CutPrefix_spec; by rewrite app_empty_r). congruence.
Qed.

Lemma Match_star v n : match_fuel (S n) "*" v = Some (negb (contains_byte "/" v)).
Proof. done. Qed.

Lemma Match_prefix_star p v :
  literal p = true →
  Match (p +:+ "*") v = Some (match CutPrefix v p with Some r => negb (contains_byte "/" r) | None => false end).
Proof.
  intros Hp. destruct (decide (p = "")) as [->|Hne]; [done|]. unfold Match.
  assert (∃ n, String.length (p +:+ "*") = S (S n)) as [n ->].
  { destruct p as [|c p]; [done|]. rewrite app_cons. simpl.
    destruct p as [|d p]; [by exists 0|]. rewrite app_cons. simpl. by eexists. }
  pose proof (strip_stars_literal p "*" Hp Hne) as Hstar.
  pose proof (scan_literal p "*" Hp eq_refl) as Hscan.
  destruct (p +:+ "*") as [|c q] eqn:Hq; [by destruct p|]. cbn [match_fuel]. rewrite <- Hq in *.
  rewrite Hstar, Hscan. rewrite match_chunk_literal by done.
  assert (well_formed (S n) "*" = true) as -> by by destruct n.
  destruct (CutPrefix v p) as [t|]; [|done]. simpl. by rewrite orb_true_r.
Qed.

(** a pattern with no special byte admits that value alone, and one that
    ends in a star admits exactly what follows the prefix without crossing a
    [/] (or the pattern spelled out); the empty pattern admits anything. *)
Theorem globs_meaning p v (Hp : literal p = true) :
  globs p v = bool_decide (p = "" ∨ v = p) ∧
  (globs (p +:+ "*") v = true ↔
    v = p +:+ "*" ∨ ∃ r, v = p +:+ r ∧ contains_byte "/" r = false).
Proof.
  unfold globs. split.
  - destruct (decide (p = "")) as [->|Hne]; [by rewrite (bool_decide_eq_true_2 (_ ∨ _)) by auto|].
    rewrite (proj2 (empty_false p)), Match_literal by done.
    repeat case_bool_decide; naive_solver.
  - assert (empty (p +:+ "*") = false) as -> by by destruct p.
    rewrite Match_prefix_star by done. case_bool_decide as Heq; [naive_solver|].
    setoid_rewrite <- CutPrefix_spec. destruct (CutPrefix v p) as [r|].
    + rewrite negb_true_iff. naive_solver.
    + split; [done|]. intros [?|(?&?&_)]; congruence.
Qed.

Lemma globs_meaning_witness :
  globs "acme/" "acme/" = true ∧
  (globs "acme/*" "acme/repo" = true ↔
    "acme/repo" = "acme/*" ∨ ∃ r, "acme/repo" = "acme/" +:+ r ∧ contains_byte "/" r = false).
Proof. split; [reflexivity|]. apply (globs_meaning "acme/" "acme/repo"). reflexivity. Defined.

Example Match_class : Match "v[0-9].*" "v1.2" = Some true. Proof. reflexivity. Qed.
Example Match_no_cross : Match "/service/*/" "/service/a/b/" = Some false. Proof. reflexivity. Qed.
Example Match_bad : Match "a[" "a" = None. Proof. reflexivity. Qed.
