(* ===== verification/Claims.v ===== *)
(** * Claims: the fragments groups add to a token, and their merge

    [policy/merge.go].  A fragment is a YAML mapping with dynamic values
    ([map[string]any]).  An object is the list of its entries sorted by key, the
    order in which the code walks a Go map ([slices.Sorted(maps.Keys(m))]); the
    named map type [Fragment] and [map[string]any] are one constructor, as
    [asMap] makes them.  [sprint] is [fmt.Sprint], by which the code compares
    and orders values of different types. *)

From stdpp Require Import pretty.
From S2P Require Import Prelude GoStrings.

Implicit Types (dotted loc key : string).

(** A decoded YAML value.  [VOther] is a scalar of another Go type (a float, a
    time), kept as its [%v] rendering. *)
Inductive value : Type :=
| VNull
| VBool (b : bool)
| VInt (z : Z)
| VStr (s : string)
| VOther (rendering : string)
| VList (l : list value)
| VMap (m : list (string * value)).

Notation object := (list (string * value)) (only parsing).

(** [fmt.Sprint] of a value. *)
Fixpoint sprint (v : value) : string :=
  match v with
  | VNull => "<nil>"
  | VBool true => "true"
  | VBool false => "false"
  | VInt z => pretty z
  | VStr s => s
  | VOther s => s
  | VList l => "[" +:+ Join (map sprint l) " " +:+ "]"
  | VMap m => "map[" +:+ Join (map (λ '(k, x), k +:+ ":" +:+ sprint x) m) " " +:+ "]"
  end.

(** A Go map's [m[key]] and [m[key] = v]. *)
Fixpoint assoc {V} key (m : list (string * V)) : option V :=
  match m with
  | [] => None
  | (k, v) :: rest => if bool_decide (k = key) then Some v else assoc key rest
  end.

Fixpoint assoc_set {V} key (v : V) (m : list (string * V)) : list (string * V) :=
  match m with
  | [] => [(key, v)]
  | (k, w) :: rest =>
      if bool_decide (k = key) then (key, v) :: rest
      else if String.leb key k then (key, v) :: m
      else (k, w) :: assoc_set key v rest
  end.

(** The dotted path of a key. *)
Definition path_of dotted key : string := if empty dotted then key else dotted +:+ "." +:+ key.

Inductive merge_error : Type :=
| MapInOne (loc : string)
| ListInOne (loc : string)
| SetTo (loc : string) (existing incoming : string).

#[global] Instance merge_error_eq_dec : EqDecision merge_error.
Proof. solve_decision. Defined.

(** [policy/merge.go:union] The values keyed by their rendering, the later one
    kept, in the order of the renderings. *)
Definition union_seen (l : list value) : list (string * value) :=
  foldl (λ seen v, assoc_set (sprint v) v seen) [] l.
Definition union (l r : list value) : list value := (union_seen (l ++ r)).*2.

(** [policy/merge.go:mergeValue] The inner loop is [mergeFragment] on the clone
    of the left map; see [mergeValue_maps]. *)
Fixpoint mergeValue (existing incoming : value) loc {struct incoming} : result merge_error value :=
  match existing, incoming with
  | VMap lft, VMap rgt =>
      (fix go (dst src : object) {struct src} : result merge_error value :=
        match src with
        | [] => Ok (VMap dst)
        | (key, v) :: rest =>
            match assoc key dst with
            | None => go (assoc_set key v dst) rest
            | Some old =>
                match mergeValue old v (path_of loc key) with
                | Ok merged => go (assoc_set key merged dst) rest
                | Err e => Err e
                end
            end
        end) lft rgt
  | VMap _, _ => Err (MapInOne loc)
  | VList lft, VList rgt => Ok (VList (union lft rgt))
  | VList _, _ => Err (ListInOne loc)
  | _, _ =>
      if bool_decide (sprint existing = sprint incoming) then Ok existing
      else Err (SetTo loc (sprint existing) (sprint incoming))
  end.

(** [policy/merge.go:mergeFragment] merges into [dst] in place: the first
    component is [dst] as the call leaves it, also when it fails half way. *)
Fixpoint mergeFragment (dst src : object) dotted : object * option merge_error :=
  match src with
  | [] => (dst, None)
  | (key, incoming) :: rest =>
      match assoc key dst with
      | None => mergeFragment (assoc_set key incoming dst) rest dotted
      | Some existing =>
          match mergeValue existing incoming (path_of dotted key) with
          | Err e => (dst, Some e)
          | Ok merged => mergeFragment (assoc_set key merged dst) rest dotted
          end
      end
  end.

(** [policy/merge.go:walkScalars] The scalars visited, in order, with their
    dotted paths. *)
Fixpoint scalars (v : value) dotted : list (string * value) :=
  match v with
  | VMap m => mjoin (map (λ '(key, x), scalars x (path_of dotted key)) m)
  | VList _ => []
  | _ => [(dotted, v)]
  end.

Inductive fragment_error : Type :=
| BothSet (owner name loc : string) (previous got : string).

#[global] Instance fragment_error_eq_dec : EqDecision fragment_error.
Proof. solve_decision. Defined.

(** One visit of [checkFragments]: [owner] and [value], kept as one map. *)
Definition visit_scalar name (seen : gmap string (string * value)) (leaf : string * value)
    : result fragment_error (gmap string (string * value)) :=
  let '(loc, got) := leaf in
  match seen !! loc with
  | None => Ok (<[loc := (name, got)]> seen)
  | Some (owner, previous) =>
      if bool_decide (sprint previous = sprint got) then Ok seen
      else Err (BothSet owner name loc (sprint previous) (sprint got))
  end.

(** [policy/policy.go:Policy.checkFragments] *)
Definition checkFragments (claims : gmap string object) : result fragment_error unit :=
  fold_m (λ seen name, fold_m (visit_scalar name) seen (scalars (VMap (default [] (claims !! name))) ""))
    ∅ (sorted_keys claims) ;; Ok tt.

(** ** Lemmas *)

Definition key_lt (a b : string * value) : Prop := String.le a.1 b.1 ∧ a.1 ≠ b.1.

(** An object lists each key once, in order. *)
Definition object_sorted (m : object) : Prop := StronglySorted key_lt m.

Section assoc.
Context {V : Type}.
Implicit Types (m : list (string * V)).

Lemma assoc_set_eq key v m : assoc key (assoc_set key v m) = Some v.
Proof.
  induction m as [|[k w] m IH]; simpl.
  - by rewrite bool_decide_eq_true_2.
  - case_bool_decide; simpl; [by rewrite bool_decide_eq_true_2|].
    destruct (String.leb key k); simpl; [by rewrite bool_decide_eq_true_2|].
    by rewrite bool_decide_eq_false_2.
Qed.

Lemma assoc_set_ne key key' v m : key ≠ key' → assoc key' (assoc_set key v m) = assoc key' m.
Proof.
  intros Hne. induction m as [|[k w] m IH]; simpl.
  - by rewrite bool_decide_eq_false_2.
  - case_bool_decide; simpl; [subst; by rewrite bool_decide_eq_false_2|].
    destruct (String.leb key k); simpl; [by rewrite bool_decide_eq_false_2|].
    case_bool_decide; [done|apply IH].
Qed.

Lemma elem_of_keys_set key v m k : k ∈ (assoc_set key v m).*1 ↔ k = key ∨ k ∈ m.*1.
Proof.
  induction m as [|[k' w] m IH]; simpl; [set_solver|].
  case_bool_decide; simpl; [set_solver|]. destruct (String.leb key k'); set_solver.
Qed.

Lemma assoc_set_Forall (P : string * V → Prop) key v m :
  Forall P m → P (key, v) → Forall P (assoc_set key v m).
Proof.
  intros Hm Hv. induction Hm as [|[k w] m Hw Hm IH]; simpl; [by constructor|].
  case_bool_decide; [by constructor|]. destruct (String.leb key k); by repeat constructor.
Qed.

(** Setting a key keeps the keys sorted and distinct. *)
Lemma assoc_set_keys_sorted key v m :
  StronglySorted (λ a b, String.le a b ∧ a ≠ b) m.*1 →
  StronglySorted (λ a b, String.le a b ∧ a ≠ b) (assoc_set key v m).*1.
Proof.
  induction m as [|[k w] m IH]; simpl; [repeat constructor|].
  intros [Hs Hk]%StronglySorted_inv. case_bool_decide as Heq; subst; [by constructor|].
  destruct (String.leb key k) eqn:Hle.
  - assert (String.le key k) as Hlek by by apply Is_true_eq_left.
    constructor; [by constructor|]. simpl. constructor; [done|].
    eapply Forall_impl; [exact Hk|]. intros x [Hx Hne]. split; [by etrans|].
    intros ->. apply Heq. by apply (anti_symm String.le).
  - simpl. constructor; [by apply IH|]. apply Forall_forall. intros x Hx%elem_of_keys_set.
    rewrite Forall_forall in Hk. destruct Hx as [->|Hx]; [|by apply Hk]. split; [|done].
    destruct (total String.le k key) as [?|Hc]; [done|].
    apply Is_true_eq_true in Hc. congruence.
Qed.
End assoc.

(** The inner loop of [mergeValue] is [mergeFragment]. *)
Lemma mergeValue_maps lft rgt loc :
  mergeValue (VMap lft) (VMap rgt) loc =
  match mergeFragment lft rgt loc with (out, None) => Ok (VMap out) | (_, Some e) => Err e end.
Proof.
  simpl. revert lft. induction rgt as [|[key v] rest IH]; intros lft; simpl; [done|].
  destruct (assoc key lft) as [old|]; [|apply IH].
  destruct (mergeValue old v _); [apply IH | done].
Qed.

Lemma union_seen_sorted l : StronglySorted (λ a b, String.le a b ∧ a ≠ b) (union_seen l).*1.
Proof.
  unfold union_seen. assert (StronglySorted (λ a b, String.le a b ∧ a ≠ b) ([] : list (string * value)).*1) as H
    by constructor.
  revert H. generalize ([] : list (string * value)) as acc.
  induction l as [|v l IH]; intros acc Hacc; simpl; [done|].
  apply IH. by apply assoc_set_keys_sorted.
Qed.

Lemma union_seen_keys l k : k ∈ (union_seen l).*1 ↔ ∃ v, v ∈ l ∧ k = sprint v.
Proof.
  unfold union_seen. assert (∀ acc : list (string * value),
    k ∈ (foldl (λ seen v, assoc_set (sprint v) v seen) acc l).*1 ↔ k ∈ acc.*1 ∨ ∃ v, v ∈ l ∧ k = sprint v) as H.
  { induction l as [|v l IH]; intros acc; simpl; [set_solver|].
    rewrite IH, elem_of_keys_set. set_solver. }
  rewrite H. set_solver.
Qed.

Lemma union_seen_rendered l : Forall (λ '(k, v), k = sprint v ∧ v ∈ l) (union_seen l).
Proof.
  unfold union_seen. assert (∀ (acc : list (string * value)) (seen : list value),
    Forall (λ '(k, v), k = sprint v ∧ v ∈ seen) acc →
    Forall (λ '(k, v), k = sprint v ∧ v ∈ seen ++ l) (foldl (λ seen v, assoc_set (sprint v) v seen) acc l)) as H.
  { induction l as [|v l IH]; intros acc seen Hacc; simpl.
    - by rewrite app_nil_r.
    - replace (seen ++ v :: l) with ((seen ++ [v]) ++ l) by by rewrite <- (assoc_L (++)).
      apply IH, assoc_set_Forall; [|set_solver].
      eapply Forall_impl; [exact Hacc|]. intros [k w]. set_solver. }
  by apply (H [] []).
Qed.

Lemma sprint_union l r : sprint <$> union l r = (union_seen (l ++ r)).*1.
Proof.
  unfold union. rewrite <- list_fmap_compose. apply list_fmap_ext.
  intros i [k v] Hi. pose proof (union_seen_rendered (l ++ r)) as H. rewrite Forall_forall in H.
  simpl. symmetry. apply (H (k, v)). by eapply list_elem_of_lookup_2.
Qed.

Lemma strict_sorted_unique (l1 l2 : list string) :
  StronglySorted (λ a b, String.le a b ∧ a ≠ b) l1 → StronglySorted (λ a b, String.le a b ∧ a ≠ b) l2 →
  (∀ x, x ∈ l1 ↔ x ∈ l2) → l1 = l2.
Proof.
  assert (∀ l : list string, StronglySorted (λ a b, String.le a b ∧ a ≠ b) l → StronglySorted String.le l ∧ NoDup l) as Hs.
  { induction l as [|x l IH]; [split; constructor|]. intros [H1 H2]%StronglySorted_inv.
    destruct (IH H1). split; constructor; try done.
    - eapply Forall_impl; [exact H2|]. naive_solver.
    - intros Hx. rewrite Forall_forall in H2. by apply H2 in Hx as [_ ?]. }
  intros [H1 N1]%Hs [H2 N2]%Hs Heq. apply (StronglySorted_unique String.le); [done..|].
  by apply NoDup_Permutation.
Qed.

(** the union of two lists holds each rendering once, in order, whichever
    list comes first, and holds nothing that is in neither. *)
Theorem union_order_independent l r :
  sprint <$> union l r = sprint <$> union r l ∧
  StronglySorted (λ a b, String.le a b ∧ a ≠ b) (sprint <$> union l r) ∧
  (∀ s, s ∈ sprint <$> union l r ↔ ∃ v, (v ∈ l ∨ v ∈ r) ∧ s = sprint v) ∧
  (∀ v, v ∈ union l r → v ∈ l ∨ v ∈ r).
Proof.
  assert (∀ a b s, s ∈ (union_seen (a ++ b)).*1 ↔ ∃ v, (v ∈ a ∨ v ∈ b) ∧ s = sprint v) as Hin.
  { intros a b s. rewrite union_seen_keys. by setoid_rewrite elem_of_app. }
  rewrite !sprint_union. split_and!.
  - apply strict_sorted_unique; [apply union_seen_sorted..|]. intros s. rewrite !Hin. naive_solver.
  - apply union_seen_sorted.
  - apply Hin.
  - intros v Hv. unfold union in Hv. apply list_elem_of_fmap in Hv as ([k w]&->&Hw).
    pose proof (union_seen_rendered (l ++ r)) as H. rewrite Forall_forall in H.
    apply H in Hw as [_ Hw]. by apply elem_of_app.
Qed.

Lemma mergeFragment_absent dst src dotted key :
  key ∉ src.*1 → assoc key (mergeFragment dst src dotted).1 = assoc key dst.
Proof.
  revert dst. induction src as [|[k v] src IH]; intros dst Hk; simpl in *; [done|].
  apply not_elem_of_cons in Hk as [Hne Hk].
  destruct (assoc k dst) as [old|].
  - destruct (mergeValue old v _); simpl; [|done]. rewrite IH by done. by apply assoc_set_ne.
  - rewrite IH by done. by apply assoc_set_ne.
Qed.

(** A list under a key of what a merge leaves, failing half way or not, holds
    only what a list under that key held on one side or the other. *)
Lemma mergeFragment_lists dst src dotted key l v :
  assoc key (mergeFragment dst src dotted).1 = Some (VList l) → v ∈ l →
  (∃ k, assoc key dst = Some (VList k) ∧ v ∈ k) ∨ (∃ k, (key, VList k) ∈ src ∧ v ∈ k).
Proof.
  revert dst. induction src as [|[name incoming] src IH]; intros dst; simpl; [by eauto|].
  assert (∀ w, assoc key (mergeFragment (assoc_set name w dst) src dotted).1 = Some (VList l) → v ∈ l →
    (∀ k, name = key → w = VList k → v ∈ k →
      (∃ k, assoc key dst = Some (VList k) ∧ v ∈ k) ∨ (∃ k, (key, VList k) ∈ (name, incoming) :: src ∧ v ∈ k)) →
    (∃ k, assoc key dst = Some (VList k) ∧ v ∈ k) ∨
    (∃ k, (key, VList k) ∈ (name, incoming) :: src ∧ v ∈ k)) as Hgo.
  { intros w Hm Hv Hnew. destruct (IH _ Hm Hv) as [(k&Hk&Hin)|(k&Hk&Hin)].
    - destruct (decide (name = key)) as [->|Hne].
      + rewrite assoc_set_eq in Hk. injection Hk as ->. by eapply Hnew.
      + rewrite assoc_set_ne in Hk by done. by eauto.
    - right. exists k. rewrite elem_of_cons. by auto. }
  destruct (assoc name dst) as [old|] eqn:Hold.
  - destruct (mergeValue old incoming (path_of dotted name)) as [merged|] eqn:Hmerged; [|simpl; by eauto].
    intros Hm Hv. apply (Hgo _ Hm Hv). intros k -> -> Hin.
    destruct old, incoming; simpl in Hmerged; try done; try (case_bool_decide; simplify_eq).
    all: try (injection Hmerged as <-).
    all: try (apply union_order_independent in Hin as [Hin|Hin]; [left; by eauto|right; eexists; rewrite elem_of_cons; by eauto]).
    exfalso. match type of Hmerged with ?f ?a ?b = _ => clear - Hmerged; revert Hmerged; generalize a; induction b as [|[]]; intros; simpl in *; repeat case_match; naive_solver end.
  - intros Hm Hv. apply (Hgo _ Hm Hv). intros k -> -> Hin. right. exists k. rewrite elem_of_cons. by auto.
Qed.

(** What a successful merge leaves under one key. *)
Definition merged_at (dst src : object) dotted key : option (result merge_error value) :=
  match assoc key dst, assoc key src with
  | Some old, Some new => Some (mergeValue old new (path_of dotted key))
  | Some old, None => Some (Ok old)
  | None, Some new => Some (Ok new)
  | None, None => None
  end.

Lemma assoc_elem {V} key (m : list (string * V)) v : assoc key m = Some v → key ∈ m.*1.
Proof.
  induction m as [|[k w] m IH]; simpl; [done|]. case_bool_decide; [set_solver|].
  intros ?%IH. set_solver.
Qed.

Lemma mergeFragment_lookup dst src dotted out :
  NoDup src.*1 → mergeFragment dst src dotted = (out, None) →
  ∀ key, merged_at dst src dotted key = Ok <$> assoc key out.
Proof.
  revert dst. induction src as [|[k v] src IH]; intros dst Hnd; simpl.
  { intros [= <-] key. unfold merged_at. simpl. by destruct (assoc key dst). }
  apply NoDup_cons in Hnd as [Hk Hnd].
  assert (assoc k src = None) as Hsrc.
  { destruct (assoc k src) eqn:H; [|done]. by apply assoc_elem in H. }
  intros Hm key. destruct (decide (k = key)) as [->|Hne].
  - unfold merged_at. simpl. rewrite bool_decide_eq_true_2 by done.
    destruct (assoc key dst) as [old|] eqn:Hold.
    + destruct (mergeValue old v _) as [merged|] eqn:Hmv; [|done].
      pose proof (mergeFragment_absent (assoc_set key merged dst) src dotted key Hk) as Ha.
      rewrite Hm, assoc_set_eq in Ha. simpl in Ha. by rewrite Ha.
    + pose proof (mergeFragment_absent (assoc_set key v dst) src dotted key Hk) as Ha.
      rewrite Hm, assoc_set_eq in Ha. simpl in Ha. by rewrite Ha.
  - unfold merged_at. simpl. rewrite bool_decide_eq_false_2 by done.
    destruct (assoc k dst) as [old|].
    + destruct (mergeValue old v _) as [merged|]; [|done].
      rewrite <- (IH _ Hnd Hm key). unfold merged_at. by rewrite assoc_set_ne by done.
    + rewrite <- (IH _ Hnd Hm key). unfold merged_at. by rewrite assoc_set_ne by done.
Qed.

(** a merge that succeeds keeps every key of both fragments and no other:
    a key of one alone keeps its value, a key of both holds the two values'
    own merge, which succeeded. *)
Theorem mergeFragment_correct dst src dotted out
  (Hnd : NoDup src.*1) (Hm : mergeFragment dst src dotted = (out, None)) :
  ∀ key, assoc key out =
    match assoc key dst, assoc key src with
    | Some old, Some new =>
        match mergeValue old new (path_of dotted key) with Ok v => Some v | Err _ => None end
    | Some old, None => Some old
    | None, new => new
    end ∧
    (∀ old new, assoc key dst = Some old → assoc key src = Some new →
      is_ok (mergeValue old new (path_of dotted key)) = true).
Proof.
  intros key. pose proof (mergeFragment_lookup dst src dotted out Hnd Hm key) as H.
  unfold merged_at in H.
  destruct (assoc key dst) as [old|], (assoc key src) as [new|], (assoc key out) as [v|];
    simpl in H; simplify_eq; split; try done.
  - by rewrite H.
  - intros ?? [= <-] [= <-]. by rewrite H.
Qed.

Lemma mergeFragment_correct_witness :
  assoc "roles" (mergeFragment [("roles", VList [VStr "b"])] [("roles", VList [VStr "a"]); ("x", VInt 1)] "").1
    = Some (VList [VStr "a"; VStr "b"]).
Proof.
  exact (proj1 (mergeFragment_correct [("roles", VList [VStr "b"])] [("roles", VList [VStr "a"]); ("x", VInt 1)] ""
    [("roles", VList [VStr "a"; VStr "b"]); ("x", VInt 1)]
    ltac:(apply (bool_decide_unpack (NoDup ["roles"; "x"])); vm_compute; exact I) eq_refl "roles")).
Defined.

(** ** The load-time check *)

(** The scalars one group's fragment sets, with their paths. *)
Definition leaves (claims : gmap string object) name : list (string * value) :=
  scalars (VMap (default [] (claims !! name))) "".

Definition all_leaves (claims : gmap string object) : list (string * (string * value)) :=
  mjoin ((λ name, pair name <$> leaves claims name) <$> sorted_keys claims).

Definition visit_leaf (seen : gmap string (string * value)) (nl : string * (string * value)) :=
  visit_scalar nl.1 seen nl.2.

Lemma checkFragments_unfold claims :
  checkFragments claims = (fold_m visit_leaf ∅ (all_leaves claims) ;; Ok tt).
Proof.
  unfold checkFragments, all_leaves. rewrite <- fold_m_nested. f_equal. apply fold_m_ext.
  intros s name. by rewrite fold_m_fmap.
Qed.

Lemma elem_of_all_leaves claims name leaf : (name, leaf) ∈ all_leaves claims ↔ leaf ∈ leaves claims name.
Proof.
  unfold all_leaves. rewrite list_elem_of_join. split.
  - intros (l&Hl&(n&->&Hn)%list_elem_of_fmap). apply list_elem_of_fmap in Hl as (x&?&?). by simplify_eq.
  - intros Hl. exists (pair name <$> leaves claims name). split; [by apply list_elem_of_fmap_2|].
    apply (list_elem_of_fmap_2 (λ name, pair name <$> leaves claims name)), elem_of_sorted_keys. unfold leaves in Hl.
    destruct (claims !! name); [by eexists|]. by apply elem_of_nil in Hl.
Qed.

Lemma visits_agree l seen seen' : fold_m visit_leaf seen l = Ok seen' →
  (∀ loc x, seen !! loc = Some x → seen' !! loc = Some x) ∧
  (∀ n loc v, (n, (loc, v)) ∈ l → ∃ o w, seen' !! loc = Some (o, w) ∧ sprint w = sprint v).
Proof.
  revert seen. induction l as [|[n [loc v]] l IH]; intros seen; simpl.
  { intros [= <-]. split; [done|]. by intros ??? ?%elem_of_nil. }
  unfold visit_leaf at 1. simpl. intros H.
  destruct (seen !! loc) as [[o w]|] eqn:Hs.
  - case_bool_decide as Heq; [|done]. destruct (IH _ H) as [H1 H2]. split; [done|].
    intros n' loc' v' [?|?]%elem_of_cons; simplify_eq; eauto 6.
  - destruct (IH _ H) as [H1 H2]. split.
    + intros k x Hk. apply H1. rewrite lookup_insert_ne; [done|congruence].
    + intros n' loc' v' [?|?]%elem_of_cons; simplify_eq; [|eauto].
      exists n, v. split; [|done]. apply H1. by rewrite lookup_insert_eq.
Qed.

Lemma visits_succeed l seen :
  (∀ n loc v o w, (n, (loc, v)) ∈ l → seen !! loc = Some (o, w) → sprint w = sprint v) →
  (∀ n1 n2 loc v1 v2, (n1, (loc, v1)) ∈ l → (n2, (loc, v2)) ∈ l → sprint v1 = sprint v2) →
  ∃ seen', fold_m visit_leaf seen l = Ok seen'.
Proof.
  revert seen. induction l as [|[n [loc v]] l IH]; intros seen Hs Hl; simpl; [eauto|].
  unfold visit_leaf at 1. simpl. destruct (seen !! loc) as [[o w]|] eqn:Hloc.
  - rewrite bool_decide_eq_true_2 by (eapply Hs; [by left|done]). apply IH.
    + intros. eapply Hs; [|done]. by right.
    + intros. eapply Hl; by right.
  - apply IH.
    + intros n' loc' v' o w Hin. destruct (decide (loc = loc')) as [<-|Hne].
      * rewrite lookup_insert_eq. intros [= <- <-]. eapply (Hl n n'); [by left|by right].
      * rewrite lookup_insert_ne by done. apply Hs with n'. by right.
    + intros. eapply Hl; by right.
Qed.

(** the claims table loads exactly when no two of its fragments, and no
    one of them twice, sets a scalar path to two values that print differently. *)
Theorem checkFragments_correct claims :
  checkFragments claims = Ok tt ↔
  ∀ n1 n2 loc v1 v2, (loc, v1) ∈ leaves claims n1 → (loc, v2) ∈ leaves claims n2 → sprint v1 = sprint v2.
Proof.
  rewrite checkFragments_unfold. setoid_rewrite <- elem_of_all_leaves. split.
  - intros H n1 n2 loc v1 v2 H1 H2. step_ok H. destruct (visits_agree _ _ _ H0) as [_ Hv].
    apply Hv in H1 as (?&?&?&<-), H2 as (?&?&?&<-). congruence.
  - intros H. destruct (visits_succeed (all_leaves claims) ∅) as [seen' ->]; [|done..].
    intros ????? _ Hn. by rewrite lookup_empty in Hn.
Qed.
