(* ===== verification/NetUrl.v ===== *)
(** * NetUrl: Go's [net/url] parser, as far as the policy reads its answer

    The policy asks of [url.Parse] whether a string parses, its scheme, its
    host, whether it carries user information, and whether it carries a
    fragment.  The parser follows the Go standard library: the fragment is cut
    first, then the scheme, the query, the authority and the path; percent
    escapes are checked per part.  An IP literal's address inside its brackets
    is not checked further. *)

From S2P Require Import Prelude GoStrings.

Implicit Types (c : ascii) (s : string).

Record URL := mkURL { Scheme : string; HasUser : bool; Host : string; Fragment : string }.

Definition is_hex c : bool := is_digit c || in_range "a" "f" c || in_range "A" "F" c.

Definition unhex c : nat :=
  if is_digit c then code c - 48
  else if in_range "a" "f" c then code c - 87
  else code c - 55.

Inductive encoding := EncodePath | EncodeHost | EncodeZone | EncodeUser | EncodeFragment.

(** [url.shouldEscape] for the two host modes: the bytes a host may hold as they are. *)
Definition host_byte c : bool :=
  is_letter c || is_digit c || contains_byte c "-_.~!$&'()*+,;=:[]<>" || (code c =? 34).

(** [url.unescape]: [None] is its error. *)
Fixpoint unescape (mode : encoding) s : option string :=
  match s with
  | EmptyString => Some EmptyString
  | String c rest =>
      if byte_eqb c "%" then
        match rest with
        | String a (String b rest') =>
            if is_hex a && is_hex b &&
               negb (match mode with
                     | EncodeHost => (unhex a <? 8) && negb (byte_eqb a "2" && byte_eqb b "5")
                     | EncodeZone =>
                         negb (byte_eqb a "2" && byte_eqb b "5") &&
                         negb (unhex a * 16 + unhex b =? 32) &&
                         negb (host_byte (ascii_of_nat (unhex a * 16 + unhex b)))
                     | _ => false end)
            then String (ascii_of_nat (unhex a * 16 + unhex b)) <$> unescape mode rest'
            else None
        | _ => None
        end
      else
        match mode with
        | EncodeHost | EncodeZone =>
            if (code c <? 128) && negb (host_byte c) then None else String c <$> unescape mode rest
        | _ => String c <$> unescape mode rest
        end
  end.

(** [url.getScheme]: the scheme and what follows its colon. *)
Fixpoint scheme_from (first : bool) s : option (option (string * string)) :=
  match s with
  | EmptyString => Some None
  | String c rest =>
      let continue :=
        match scheme_from false rest with
        | Some (Some (scheme, path)) => Some (Some (String c scheme, path))
        | other => other
        end in
      if is_letter c then continue
      else if is_digit c || contains_byte c "+-." then if first then Some None else continue
      else if byte_eqb c ":" then if first then None else Some (Some (EmptyString, rest))
      else Some None
  end.

Definition getScheme s : option (string * string) :=
  match scheme_from true s with
  | None => None
  | Some None => Some (EmptyString, s)
  | Some (Some r) => Some r
  end.

Definition validOptionalPort s : bool :=
  match s with
  | EmptyString => true
  | String c rest => byte_eqb c ":" && str_all is_digit rest
  end.

Definition validUserinfo s : bool :=
  str_all (λ c, is_letter c || is_digit c || contains_byte c "-._:~!$&'()*+,;=%@") s.

(** The cut before a substring: [strings.Index]. *)
Fixpoint before_sub s (sub : string) : option (string * string) :=
  if HasPrefix s sub then Some (EmptyString, s) else
  match s with
  | EmptyString => None
  | String c rest => match before_sub rest sub with Some (a, b) => Some (String c a, b) | None => None end
  end.

(** [url.parseHost] *)
Definition parseHost s : option string :=
  if HasPrefix s "[" then
    match cut_last "]" s with
    | None => None
    | Some (inside, colonPort) =>
        if negb (validOptionalPort colonPort) then None else
        match before_sub inside "%25" with
        | None => unescape EncodeHost s
        | Some (host, zone) =>
            match unescape EncodeHost host, unescape EncodeZone zone, unescape EncodeHost ("]" +:+ colonPort) with
            | Some h1, Some h2, Some h3 => Some (h1 +:+ h2 +:+ h3)
            | _, _, _ => None
            end
        end
    end
  else
    match cut_last ":" s with
    | Some (_, port) => if validOptionalPort (":" +:+ port) then unescape EncodeHost s else None
    | None => unescape EncodeHost s
    end.

(** [url.parseAuthority] *)
Definition parseAuthority s : option (bool * string) :=
  match cut_last "@" s with
  | None => host ← parseHost s; Some (false, host)
  | Some (userinfo, h) =>
      host ← parseHost h;
      if validUserinfo userinfo then
        match unescape EncodeUser userinfo with Some _ => Some (true, host) | None => None end
      else None
  end.

(** [url.parse(rawURL, false)] *)
Definition parse s : option URL :=
  if str_any (λ c, (code c <? 32) || (code c =? 127)) s then None
  else if bool_decide (s = "*") then Some (mkURL "" false "" "")
  else
    '(sch, rest) ← getScheme s;
    let scheme := ToLower sch in
    let rest := match cut_on "?" rest with Some (before, _) => before | None => rest end in
    if negb (HasPrefix rest "/") && negb (empty scheme) then Some (mkURL scheme false "" "")
    else if negb (HasPrefix rest "/") &&
      contains_byte ":" (match cut_on "/" rest with Some (segment, _) => segment | None => rest end) then None
    else if (negb (empty scheme) || negb (HasPrefix rest "///")) && HasPrefix rest "//" then
      let authority := TrimPrefix rest "//" in
      let '(authority, path) := match cut_on "/" authority with
        | Some (a, p) => (a, "/" +:+ p) | None => (authority, "") end in
      '(user, host) ← parseAuthority authority;
      _ ← unescape EncodePath path;
      Some (mkURL scheme user host "")
    else
      _ ← unescape EncodePath rest;
      Some (mkURL scheme false "" "").

(** [url.Parse] *)
Definition url_Parse s : option URL :=
  match cut_on "#" s with
  | None => parse s
  | Some (u, frag) =>
      url ← parse u;
      if empty frag then Some url
      else
        fragment ← unescape EncodeFragment frag;
        Some (mkURL (Scheme url) (HasUser url) (Host url) fragment)
  end.

(** [URL.IsAbs] *)
Definition IsAbs (u : URL) : bool := negb (empty (Scheme u)).

Example url_https : url_Parse "https://Claude.ai:443/x?y#" = Some (mkURL "https" false "Claude.ai:443" "").
Proof. vm_compute. reflexivity. Qed.
Example url_user : HasUser <$> url_Parse "https://a@b.c/" = Some true.
Proof. vm_compute. reflexivity. Qed.
Example url_bad_port : url_Parse "https://a:b" = None.
Proof. vm_compute. reflexivity. Qed.
Example url_opaque : url_Parse "urn:example:x" = Some (mkURL "urn" false "" "").
Proof. vm_compute. reflexivity. Qed.

(** A URL that parses from a string with no fragment mark has no fragment. *)
Lemma parse_no_fragment s u : parse s = Some u → Fragment u = "".
Proof.
  unfold parse. intros H.
  repeat first
    [ progress simplify_eq/=
    | case_match
    | match goal with Hb : (_ ≫= _) = Some _ |- _ => apply bind_Some in Hb as (?&?&Hb) end ]; done.
Qed.

Lemma url_Parse_no_fragment s u : contains_byte "#" s = false → url_Parse s = Some u → Fragment u = "".
Proof. intros Hs. unfold url_Parse. rewrite (proj2 (cut_on_none "#" s) Hs). apply parse_no_fragment. Qed.
