(* ===== verification/Utf8.v ===== *)
(** * Utf8: reading a byte string as runes

    The part of Go's [unicode/utf8] and [unicode] the source uses on display
    text: a [range] over a string, [utf8.ValidString],
    [utf8.RuneCountInString], and the classes Cc, Cf, Zl, Zp and White_Space.
    A rune is its code point in [Z]; a byte that starts no valid encoding reads
    as [None], one byte at a time, where Go yields U+FFFD. *)

From S2P Require Import Prelude GoStrings.
Open Scope Z_scope.

Definition byte (c : ascii) : Z := Z.of_nat (nat_of_ascii c).

Definition between (lo hi x : Z) : bool := (lo <=? x) && (x <=? hi).

(** The continuation byte's six bits. *)
Definition low6 (c : ascii) : Z := Z.land (byte c) 63.

Definition is_cont (c : ascii) : bool := between 128 191 (byte c).

(** The second byte a three- and a four-byte sequence may have, which is what
    refuses overlong forms, surrogates and code points past U+10FFFF. *)
Definition second3 (lead b : Z) : bool :=
  if lead =? 224 then between 160 191 b else if lead =? 237 then between 128 159 b else between 128 191 b.
Definition second4 (lead b : Z) : bool :=
  if lead =? 240 then between 144 191 b else if lead =? 244 then between 128 143 b else between 128 191 b.

Fixpoint runes (s : string) : list (option Z) :=
  match s with
  | EmptyString => []
  | String a t =>
      if byte a <? 128 then Some (byte a) :: runes t
      else match t with
      | String b t2 =>
          if between 194 223 (byte a) && is_cont b
          then Some (Z.shiftl (Z.land (byte a) 31) 6 + low6 b) :: runes t2
          else match t2 with
          | String c t3 =>
              if between 224 239 (byte a) && second3 (byte a) (byte b) && is_cont c
              then Some (Z.shiftl (Z.land (byte a) 15) 12 + Z.shiftl (low6 b) 6 + low6 c) :: runes t3
              else match t3 with
              | String d t4 =>
                  if between 240 244 (byte a) && second4 (byte a) (byte b) && is_cont c && is_cont d
                  then Some (Z.shiftl (Z.land (byte a) 7) 18 + Z.shiftl (low6 b) 12
                             + Z.shiftl (low6 c) 6 + low6 d) :: runes t4
                  else None :: runes t
              | EmptyString => None :: runes t
              end
          | EmptyString => None :: runes t
          end
      | EmptyString => None :: runes t
      end
  end.

(** [utf8.ValidString] *)
Definition ValidString (s : string) : bool := forallb (λ r, bool_decide (is_Some r)) (runes s).

(** [utf8.RuneCountInString] *)
Definition RuneCount (s : string) : nat := length (runes s).

Definition in_ranges (ranges : list (Z * Z)) (r : Z) : bool :=
  existsb (λ '(lo, hi), between lo hi r) ranges.

(** [unicode.In(r, unicode.Cc, unicode.Cf, unicode.Zl, unicode.Zp)], from the
    tables of Unicode 15. *)
Definition control_or_format : Z → bool := in_ranges
  [(0, 31); (127, 159); (173, 173); (1536, 1541); (1564, 1564); (1757, 1757); (1807, 1807); (2192, 2193);
   (2274, 2274); (6158, 6158); (8203, 8207); (8232, 8233); (8234, 8238); (8288, 8292); (8294, 8303);
   (65279, 65279); (65529, 65531); (69821, 69821); (69837, 69837); (78896, 78911); (113824, 113827);
   (119155, 119162); (917505, 917505); (917536, 917631)].

(** [unicode.IsSpace] *)
Definition IsSpace : Z → bool := in_ranges
  [(9, 13); (32, 32); (133, 133); (160, 160); (5760, 5760); (8192, 8202); (8232, 8233); (8239, 8239);
   (8287, 8287); (12288, 12288)].

(** [strings.TrimSpace(s) == ""] *)
Definition blank (s : string) : bool :=
  forallb (λ r, match r with Some x => IsSpace x | None => false end) (runes s).

(** [U+00E9], [U+2014], [U+1F600]; then an overlong slash, a surrogate and a
    truncated sequence. *)
Example runes_samples :
  runes (String "195"%char (String "169"%char "")) = [Some 233] ∧
  runes (String "226"%char (String "128"%char (String "148"%char "x"))) = [Some 8212; Some 120] ∧
  runes (String "240"%char (String "159"%char (String "152"%char (String "128"%char "")))) = [Some 128512] ∧
  runes (String "192"%char (String "175"%char "")) = [None; None] ∧
  runes (String "237"%char (String "160"%char (String "128"%char ""))) = [None; None; None] ∧
  runes (String "226"%char (String "130"%char "")) = [None; None].
Proof. repeat split. Qed.

Close Scope Z_scope.
