(* ===== verification/Policy.v ===== *)
(** * Policy: the schema's data, and the matchers

    [policy/policy.go], [policy/resource.go], [policy/clientdoc.go],
    [policy/slack.go]: the tables of one policy as records, the inputs and the
    results of evaluating it ([policy/evaluate.go]), the conditions on a verified
    proof, and the name checks that need the declared vocabulary
    ([checkGrantName], [checkGroupKey]).

    A [time.Duration] is its nanoseconds in [Z].  A pointer is an [option].  A
    Go map is a [gmap]; its nil and its empty value are one. *)

From S2P Require Import Prelude GoStrings Names Vocabulary Glob Claims NetUrl.

Implicit Types (scope thing role name address : string).

(** [internal/emailaddr/emailaddr.go:Domain] *)
Definition Domain address : option string :=
  match cut_last "@" (TrimSpace address) with
  | Some (local, domain) => if empty local || empty domain then None else Some (ToLower domain)
  | None => None
  end.

(** ** Proofs: what an input carries *)

(** [policy/evaluate.go:type GitHubClaims] *)
Record GitHubClaims := mkGitHubClaims {
  gc_Repository : string; gc_Owner : string; gc_Ref : string; gc_Workflow : string;
  gc_Environment : string; gc_Visibility : string; gc_WorkflowRef : string;
  gc_JobWorkflowRef : string; gc_SHA : string; gc_EventName : string; gc_RefType : string }.

(** [policy/evaluate.go:type Input] *)
Record Input := mkInput {
  in_Email : string; in_DirectoryGroups : list string; in_Authoritative : bool;
  in_GitHub : option GitHubClaims; in_ServiceAccount : option ServiceAccountRef; in_AWS : option AWSRole }.

(** ** Matchers *)

(** [policy/policy.go:type GitHubMatcher] *)
Record GitHubMatcher := mkGitHubMatcher {
  gm_Repository : string; gm_Owner : string; gm_Ref : string; gm_Workflow : string;
  gm_Environment : string; gm_Visibility : string; gm_WorkflowRef : string;
  gm_JobWorkflowRef : string; gm_SHA : string; gm_EventName : string; gm_RefType : string }.

#[global] Instance GitHubMatcher_eq_dec : EqDecision GitHubMatcher.
Proof. solve_decision. Defined.

(** [policy/policy.go:type ServiceAccountMatcher] *)
Record ServiceAccountMatcher := mkServiceAccountMatcher {
  sm_Cluster : string; sm_Namespace : string; sm_Name : string }.

(** [policy/policy.go:type AWSMatcher] *)
Record AWSMatcher := mkAWSMatcher {
  am_Account : string; am_Role : string; am_Path : string; am_Function : string; am_OrgID : string }.

(** [policy/policy.go:type Matcher] *)
Record Matcher := mkMatcher {
  m_GitHub : option GitHubMatcher; m_ServiceAccount : option ServiceAccountMatcher;
  m_AWS : option AWSMatcher; m_Email : string; m_EmailDomain : string }.

(** [policy/policy.go:Matcher.kinds] *)
Definition kinds (m : Matcher) : nat :=
  length (List.filter (λ set : bool, set)
    [bool_decide (is_Some (m_GitHub m)); bool_decide (is_Some (m_ServiceAccount m));
     bool_decide (is_Some (m_AWS m)); negb (empty (m_Email m)); negb (empty (m_EmailDomain m))]).

(** [policy/policy.go:AWSMatcher.Rule] *)
Definition AWSMatcher_Rule (a : AWSMatcher) : string :=
  let rule := am_Account a +:+ ":role" in
  let rule :=
    if negb (empty (am_Path a)) && negb (empty (am_Role a)) then rule +:+ am_Path a +:+ am_Role a
    else if negb (empty (am_Path a)) then rule +:+ am_Path a +:+ "*"
    else if negb (empty (am_Role a)) then rule +:+ "/" +:+ am_Role a
    else rule in
  let rule := if empty (am_Function a) then rule else rule +:+ " function " +:+ am_Function a in
  if empty (am_OrgID a) then rule else rule +:+ " org " +:+ am_OrgID a.

(** The labelled fields of a CI matcher that are set, in label order. *)
Definition GitHubMatcher_parts (g : GitHubMatcher) : list string :=
  sort_strings (omap (λ '(label, value), if empty value then None else Some (label +:+ " " +:+ value))
    [("repository", gm_Repository g); ("owner", gm_Owner g); ("ref", gm_Ref g);
     ("workflow", gm_Workflow g); ("environment", gm_Environment g); ("visibility", gm_Visibility g);
     ("workflow_ref", gm_WorkflowRef g); ("job_workflow_ref", gm_JobWorkflowRef g); ("sha", gm_SHA g);
     ("event_name", gm_EventName g); ("ref_type", gm_RefType g)]).

(** [policy/policy.go:Matcher.Describe] *)
Definition Describe (m : Matcher) : string :=
  match m_GitHub m, m_ServiceAccount m, m_AWS m with
  | Some g, _, _ => "CI job with " +:+ Join (GitHubMatcher_parts g) ", "
  | None, Some s, _ =>
      "ServiceAccount " +:+ sm_Namespace s +:+ "/" +:+ sm_Name s +:+
      (if empty (sm_Cluster s) then "" else " on " +:+ sm_Cluster s)
  | None, None, Some a => "AWS role " +:+ AWSMatcher_Rule a
  | None, None, None =>
      if negb (empty (m_Email m)) then "signed in as " +:+ m_Email m
      else if negb (empty (m_EmailDomain m)) then "signed in at " +:+ m_EmailDomain m
      else "nothing"
  end.

(** [policy/policy.go:Matcher.Kind] *)
Definition Kind (m : Matcher) : string :=
  match m_GitHub m, m_ServiceAccount m, m_AWS m with
  | Some _, _, _ => "ci"
  | None, Some _, _ | None, None, Some _ => "workload"
  | None, None, None =>
      if negb (empty (m_Email m)) || negb (empty (m_EmailDomain m)) then "sign-in" else ""
  end.

(** [policy/policy.go:Matcher.Rule] *)
Definition Matcher_Rule (m : Matcher) : string :=
  match m_GitHub m, m_ServiceAccount m, m_AWS m with
  | Some _, _, _ => TrimPrefix (Describe m) "CI job with "
  | None, Some s, _ => sm_Namespace s +:+ "/" +:+ sm_Name s
  | None, None, Some a => AWSMatcher_Rule a
  | None, None, None =>
      if negb (empty (m_Email m)) then m_Email m
      else if negb (empty (m_EmailDomain m)) then "anyone at " +:+ m_EmailDomain m
      else ""
  end.

(** [policy/policy.go:Matcher.matches] *)
Definition matches (m : Matcher) (inp : Input) : bool :=
  match m_GitHub m, m_ServiceAccount m, m_AWS m with
  | Some g, _, _ =>
      match in_GitHub inp with
      | None => false
      | Some c =>
          globs (gm_Repository g) (gc_Repository c) &&
          globs (gm_Owner g) (gc_Owner c) &&
          globs (gm_Ref g) (gc_Ref c) &&
          globs (gm_Workflow g) (gc_Workflow c) &&
          globs (gm_Environment g) (gc_Environment c) &&
          globs (gm_WorkflowRef g) (gc_WorkflowRef c) &&
          globs (gm_JobWorkflowRef g) (gc_JobWorkflowRef c) &&
          globs (gm_SHA g) (gc_SHA c) &&
          globs (gm_EventName g) (gc_EventName c) &&
          globs (gm_RefType g) (gc_RefType c) &&
          (empty (gm_Visibility g) || bool_decide (gm_Visibility g = gc_Visibility c))
      end
  | None, Some s, _ =>
      match in_ServiceAccount inp with
      | None => false
      | Some r =>
          (empty (sm_Cluster s) || bool_decide (sm_Cluster s = sa_Cluster r)) &&
          bool_decide (sm_Namespace s = sa_Namespace r) &&
          bool_decide (sm_Name s = sa_Name r)
      end
  | None, None, Some a =>
      match in_AWS inp with
      | None => false
      | Some r =>
          bool_decide (am_Account a = ar_Account r) &&
          globs (am_Role a) (ar_Name r) &&
          globs (am_Path a) (ar_Path r) &&
          globs (am_Function a) (ar_Function r) &&
          globs (am_OrgID a) (ar_OrgID r)
      end
  | None, None, None =>
      if negb (empty (m_Email m)) then negb (empty (in_Email inp)) && EqualFold (m_Email m) (in_Email inp)
      else if negb (empty (m_EmailDomain m)) then
        match Domain (in_Email inp) with
        | Some domain => bool_decide (domain = ToLower (m_EmailDomain m))
        | None => false
        end
      else false
  end.

(** ** The tables *)

(** [policy/policy.go:type Group] *)
Record Group := mkGroup { g_Members : list string; g_Matchers : list Matcher }.

(** [policy/scope.go:type GroupsOverride] *)
Record GroupsOverride := mkGroupsOverride { go_All : bool; go_Things : list string }.

(** The zero value: nothing beyond requires-pair matching. *)
Definition no_override : GroupsOverride := mkGroupsOverride false [].

(** [policy/scope.go:GroupsOverride.empty] *)
Definition override_empty (g : GroupsOverride) : bool :=
  negb (go_All g) && bool_decide (go_Things g = []).

(** [policy/policy.go:type Client] *)
Record Client := mkClient {
  c_Kind : string; c_DisplayName : string; c_Description : string; c_Secret : string;
  c_Redirects : list string; c_SignedOut : list string; c_Requires : list string; c_TTLCap : Z;
  c_SignInExchange : bool; c_BackChannelLogout : string; c_SigningAlg : string;
  c_Groups : GroupsOverride; c_GroupsDelimiter : string }.

(** [policy/resource.go:type Resource] *)
Record Resource := mkResource {
  r_DisplayName : string; r_Description : string; r_Requires : list string; r_TTLCap : Z;
  r_AbsoluteCap : Z; r_ReadOnly : bool; r_SigningAlg : string; r_Groups : GroupsOverride;
  r_GroupsDelimiter : string }.

(** [policy/clientdoc.go:type ClientDocuments] *)
Record ClientDocuments := mkClientDocuments {
  d_Origins : list string; d_Requires : list string; d_TTLCap : Z; d_Groups : GroupsOverride }.

(** [policy/policy.go:type GitHubTeam] *)
Record GitHubTeam := mkGitHubTeam { t_Members : list string; t_Maintainers : list string }.

(** [policy/policy.go:type GitHubOrg] *)
Record GitHubOrg := mkGitHubOrg { o_Members : list string; o_Teams : gmap string GitHubTeam; o_Ignore : list string }.

(** [policy/slack.go:type SlackChannel] *)
Record SlackChannel := mkSlackChannel {
  ch_Private : bool; ch_Mode : string; ch_Ignore : list string; ch_From : list string; ch_Adopt : string }.

(** [policy/slack.go:type SlackWorkspace] *)
Record SlackWorkspace := mkSlackWorkspace { w_Channels : gmap string SlackChannel }.

#[global] Instance ServiceAccountMatcher_eq_dec : EqDecision ServiceAccountMatcher.
Proof. solve_decision. Defined.
#[global] Instance AWSMatcher_eq_dec : EqDecision AWSMatcher.
Proof. solve_decision. Defined.
#[global] Instance Matcher_eq_dec : EqDecision Matcher.
Proof. solve_decision. Defined.
#[global] Instance Group_eq_dec : EqDecision Group.
Proof. solve_decision. Defined.
#[global] Instance GroupsOverride_eq_dec : EqDecision GroupsOverride.
Proof. solve_decision. Defined.
#[global] Instance Client_eq_dec : EqDecision Client.
Proof. solve_decision. Defined.
#[global] Instance Resource_eq_dec : EqDecision Resource.
Proof. solve_decision. Defined.
#[global] Instance ClientDocuments_eq_dec : EqDecision ClientDocuments.
Proof. solve_decision. Defined.
#[global] Instance GitHubTeam_eq_dec : EqDecision GitHubTeam.
Proof. solve_decision. Defined.
#[global] Instance GitHubOrg_eq_dec : EqDecision GitHubOrg.
Proof. solve_decision. Defined.
#[global] Instance SlackChannel_eq_dec : EqDecision SlackChannel.
Proof. solve_decision. Defined.

(** [policy/policy.go:type Policy] *)
Record Policy := mkPolicy {
  Version : Z;
  p_Vocabulary : option Vocabulary;
  Groups : gmap string Group;
  p_Claims : gmap string (list (string * value));
  Lifetimes : gmap string Z;
  Resources : gmap string Resource;
  p_ClientDocuments : ClientDocuments;
  Clients : gmap string Client;
  GitHub : gmap string GitHubOrg;
  People : gmap string (list string);
  Slack : gmap string SlackWorkspace }.

(** The zero documents block, and the policy with nothing declared. *)
Definition no_documents : ClientDocuments := mkClientDocuments [] [] 0 no_override.
Definition empty_policy : Policy := mkPolicy 1 None ∅ ∅ ∅ ∅ no_documents ∅ ∅ ∅ ∅.

(** [policy/policy.go:183-184 LifetimeDefault] *)
Definition LifetimeDefault : string := "default".

(** A declared group by name; the zero value of an undeclared one. *)
Definition group_of (p : Policy) name : Group := default (mkGroup [] []) (Groups p !! name).

(** [policy/policy.go:GitHubOrg.IgnoredAddresses] *)
Definition IgnoredAddresses (o : GitHubOrg) : gset string :=
  list_to_set (List.filter (contains_byte "@") ((λ e, ToLower (TrimSpace e)) <$> o_Ignore o)).

(** [policy/policy.go:GitHubOrg.IgnoredLogins] *)
Definition IgnoredLogins (o : GitHubOrg) : gset string :=
  list_to_set (List.filter (λ e, negb (empty e) && negb (contains_byte "@" e))
    ((λ e, ToLower (TrimSpace e)) <$> o_Ignore o)).

(** [policy/policy.go:GitHubTeam.Groups] *)
Definition GitHubTeam_Groups (t : GitHubTeam) : list string :=
  compact (sort_strings (t_Members t ++ t_Maintainers t)).

(** [policy/slack.go:SlackChannel.Strict] *)
Definition SlackChannel_Strict (c : SlackChannel) : bool := bool_decide (ch_Mode c = "strict").

(** ** Names under a vocabulary *)

(** Where in the file a group is named. *)
Inductive place : Type :=
| InClaims | InLifetimes | DocumentsRequires
| GitHubMembers (org : string) | GitHubTeamOf (org team : string)
| ClientRequires (id : string) | ResourceRequires (id : string)
| SlackFrom (workspace channel : string).

#[global] Instance place_eq_dec : EqDecision place.
Proof. solve_decision. Defined.

(** Why a grant name or a groups key is refused. *)
Inductive name_error : Type :=
| WildcardElsewhere (loc : place) (name : string)
| GrantUnfit (loc : place) (name : string) (why : vocab_error)
| RoleWildcard (name : string)
| KeyUnfit (name : string) (why : vocab_error)
| WildcardNoVocabulary (name : string)
| SensitiveScope (name scope example : string)
| ExpandsToNothing (name : string) (why : empty_why).

#[global] Instance empty_why_eq_dec : EqDecision empty_why.
Proof. solve_decision. Defined.
#[global] Instance name_error_eq_dec : EqDecision name_error.
Proof. solve_decision. Defined.

Definition is_star s : bool := bool_decide (s = "*").

(** [policy/vocabulary.go:Policy.checkGrantName] *)
Definition checkGrantName (p : Policy) (loc : place) name : result name_error unit :=
  match SplitGroup name with
  | None => Ok tt
  | Some (scope, thing, role) =>
      if is_star scope || is_star thing || is_star role then Err (WildcardElsewhere loc name)
      else match p_Vocabulary p with
           | None => Ok tt
           | Some v => wrap (GrantUnfit loc name) (fits v scope thing role)
           end
  end.

(** [policy/vocabulary.go:Policy.checkGroupKey] *)
Definition checkGroupKey (p : Policy) name : result name_error (list string) :=
  match SplitGroup name with
  | None => Ok [name]
  | Some (scope, thing, role) =>
      if is_star role then Err (RoleWildcard name)
      else if negb (is_star scope || is_star thing) then
        match p_Vocabulary p with
        | None => Ok [name]
        | Some v => wrap (KeyUnfit name) (fits v scope thing role) ;; Ok [name]
        end
      else match p_Vocabulary p with
           | None => Err (WildcardNoVocabulary name)
           | Some v =>
               wrap (KeyUnfit name) (checkWildcard v scope thing role) ;;
               match expand v scope thing role with
               | [] =>
                   match expandIgnoringSensitivity v scope thing role with
                   | example :: _ =>
                       if negb (is_star scope) && sensitive v scope then Err (SensitiveScope name scope example)
                       else Err (ExpandsToNothing name (emptyWhy v scope thing role))
                   | [] => Err (ExpandsToNothing name (emptyWhy v scope thing role))
                   end
               | targets => Ok targets
               end
           end
  end.

(** [policy/vocabulary.go:Policy.groupKeyTargets] *)
Definition groupKeyTargets (p : Policy) name : list string :=
  match checkGroupKey p name with Ok targets => targets | Err _ => [] end.

(** ** Lemmas *)

(** The empty cluster, and no other, matches a ServiceAccount on any cluster. *)
Lemma matches_service_account m s inp :
  m_GitHub m = None → m_ServiceAccount m = Some s →
  matches m inp = true ↔ ∃ r, in_ServiceAccount inp = Some r ∧
    (sm_Cluster s = "" ∨ sm_Cluster s = sa_Cluster r) ∧
    sm_Namespace s = sa_Namespace r ∧ sm_Name s = sa_Name r.
Proof.
  intros Hg Hs. unfold matches. rewrite Hg, Hs.
  destruct (in_ServiceAccount inp) as [r|]; [|naive_solver].
  rewrite !andb_true_iff, orb_true_iff, !bool_decide_eq_true, empty_true. naive_solver.
Qed.

(** A grant that fits a table that loads is a real grant of that table. *)
Definition fits_vocabulary (p : Policy) g : Prop :=
  match p_Vocabulary p, SplitGroup g with
  | Some v, Some (scope, thing, role) => allowed v scope thing role
  | _, _ => True
  end.

Lemma groupKeyTargets_nongrant p name : SplitGroup name = None → groupKeyTargets p name = [name].
Proof. intros H. unfold groupKeyTargets, checkGroupKey. by rewrite H. Qed.
