(* ===== verification/SlackPolicy.v ===== *)
(** * SlackPolicy: people, and the channel bindings

    [policy/slack.go]: one person's several addresses ([people]), and the Slack
    workspaces' channels with the groups that feed them.  The theorems: once the
    [people] table loads an address names one person whatever order the table is
    read in, and a [slack] block that loads binds every channel to declared
    groups, is strict only where it is private, and adopts an existing channel
    at most once per workspace. *)

From S2P Require Import Prelude GoStrings Names Vocabulary Policy.

Implicit Types (address person key name : string).

(** ** The shapes, as predicates on bytes *)

Definition is_slug_byte c : bool := is_lower c || is_digit c.
Definition is_id_byte c : bool := is_upper c || is_digit c.

Fixpoint last_byte (s : string) : option ascii :=
  match s with
  | EmptyString => None
  | String c EmptyString => Some c
  | String _ t => last_byte t
  end.

(** [policy/slack.go:104-107 slackUserID] *)
Definition slackUserID (s : string) : bool :=
  match s with
  | String c t => (byte_eqb c "U" || byte_eqb c "W") && (6 <=? String.length t) && str_all is_id_byte t
  | EmptyString => false
  end.

(** [policy/slack.go:108-118 slackSlug] *)
Definition slackSlug (s : string) : bool :=
  match s, last_byte s with
  | String c _, Some d =>
      is_slug_byte c && is_slug_byte d && (String.length s <=? 40) &&
      str_all (λ x, is_slug_byte x || byte_eqb x "-") s
  | _, _ => false
  end.

(** [policy/slack.go:108-118 personSlug] *)
Definition personSlug (s : string) : bool :=
  match s with
  | String c t =>
      is_slug_byte c && (String.length t <=? 62) &&
      str_all (λ x, is_slug_byte x || byte_eqb x "." || byte_eqb x "_" || byte_eqb x "-") t
  | EmptyString => false
  end.

(** [policy/slack.go:108-118 slackChannelID] *)
Definition slackChannelID (s : string) : bool :=
  match s with
  | String c t => (byte_eqb c "C" || byte_eqb c "G") && (8 <=? String.length t) && str_all is_id_byte t
  | EmptyString => false
  end.

(** [policy/slack.go:108-118 slackChannelName] *)
Definition slackChannelName (s : string) : bool :=
  negb (empty s) && (String.length s <=? 80) &&
  str_all (λ x, is_slug_byte x || byte_eqb x "_" || byte_eqb x "-") s.

(** [policy/slack.go:ValidSlackChannelID] *)
Definition ValidSlackChannelID (id : string) : bool := slackChannelID id.

(** [" \t\r\n"] *)
Definition is_blank_byte c : bool := (code c =? 32) || (code c =? 9) || (code c =? 13) || (code c =? 10).

(** [policy/slack.go:normaliseAddress] *)
Definition normaliseAddress address : option string :=
  let address := ToLower (TrimSpace address) in
  match Domain address with
  | None => None
  | Some _ => if str_any is_blank_byte address then None else Some address
  end.

(** ** Errors *)

Inductive slack_error : Type :=
| PersonName (person : string)
| PersonNoAddress (person : string)
| NotAnAddress (person address : string)
| ListedTwice (person address : string)
| ListedForBoth (address prev person : string)
| UndeclaredGroup (at_ : place) (group : string)
| BadGrantName (why : name_error)
| WorkspaceKey (key : string)
| ChannelName (key name : string)
| ChannelUnfed (key name : string)
| IgnoreNotStrict (key name : string)
| StrictNotPrivate (key name : string)
| UnknownMode (key name mode : string)
| IgnoreShape (key name entry : string)
| IgnoreTwice (key name entry : string)
| AdoptShape (key name id : string)
| AdoptedTwice (key id prev name : string).

#[global] Instance slack_error_eq_dec : EqDecision slack_error.
Proof. solve_decision. Defined.

(** ** People *)

(** [policy/slack.go:Policy.PeopleByAddress] The table is read in [order], the
    order Go happens to range over it. *)
Definition PeopleByAddress (p : Policy) (order : list string) : gmap string string :=
  foldl (λ out person,
    foldl (λ out address,
      match normaliseAddress address with
      | Some norm => <[norm := person]> out
      | None => out
      end) out (default [] (People p !! person))) ∅ order.

(** The body of the inner loop: one address of one person. *)
Definition claim_address person (owner : gmap string string) address
    : result slack_error (gmap string string) :=
  match normaliseAddress address with
  | None => Err (NotAnAddress person address)
  | Some norm =>
      match owner !! norm with
      | Some prev =>
          if bool_decide (prev = person) then Err (ListedTwice person norm)
          else Err (ListedForBoth norm prev person)
      | None => Ok (<[norm := person]> owner)
      end
  end.

Definition claim_person (p : Policy) (owner : gmap string string) person
    : result slack_error (gmap string string) :=
  check (personSlug person) (PersonName person) ;;
  check (negb (bool_decide (default [] (People p !! person) = []))) (PersonNoAddress person) ;;
  fold_m (claim_address person) owner (default [] (People p !! person)).

(** [policy/slack.go:Policy.validatePeople] *)
Definition validatePeople (p : Policy) : result slack_error unit :=
  fold_m (claim_person p) ∅ (sorted_keys (People p)) ;; Ok tt.

(** ** Channels *)

(** A group named somewhere: declared, and a good grant name. *)
Definition check_bound_group (p : Policy) (at_ : place) group : result slack_error unit :=
  check (bool_decide (is_Some (Groups p !! group))) (UndeclaredGroup at_ group) ;;
  wrap BadGrantName (checkGrantName p at_ group).

(** [policy/slack.go:Policy.checkBoundGroups] *)
Definition checkBoundGroups (p : Policy) (at_ : place) (groups : list string) : result slack_error unit :=
  for_each (check_bound_group p at_) groups.

(** One entry of an ignore list; [seen] is what came before. *)
Definition ignore_entry key name (seen : gset string) (entry : string) : result slack_error (gset string) :=
  let k := TrimSpace entry in
  let add k := if bool_decide (k ∈ seen) then Err (IgnoreTwice key name k) else Ok ({[k]} ∪ seen) in
  match normaliseAddress k with
  | Some address => add address
  | None => if slackUserID k then add k else Err (IgnoreShape key name entry)
  end.

(** [policy/slack.go:validateSlackMode] *)
Definition validateSlackMode key name (channel : SlackChannel) : result slack_error unit :=
  (if empty (ch_Mode channel) || bool_decide (ch_Mode channel = "extend") then
     check (bool_decide (ch_Ignore channel = [])) (IgnoreNotStrict key name)
   else if bool_decide (ch_Mode channel = "strict") then
     check (ch_Private channel) (StrictNotPrivate key name)
   else Err (UnknownMode key name (ch_Mode channel))) ;;
  fold_m (ignore_entry key name) ∅ (ch_Ignore channel) ;; Ok tt.

(** One channel; [adopted] maps the ids adopted so far to their channels. *)
Definition validate_channel (p : Policy) key (channels : gmap string SlackChannel)
    (adopted : gmap string string) name : result slack_error (gmap string string) :=
  check (slackChannelName name) (ChannelName key name) ;;
  match channels !! name with
  | None => Ok adopted
  | Some channel =>
      check (negb (bool_decide (ch_From channel = []))) (ChannelUnfed key name) ;;
      checkBoundGroups p (SlackFrom key name) (ch_From channel) ;;
      validateSlackMode key name channel ;;
      if empty (ch_Adopt channel) then Ok adopted
      else
        check (ValidSlackChannelID (ch_Adopt channel)) (AdoptShape key name (ch_Adopt channel)) ;;
        match adopted !! ch_Adopt channel with
        | Some prev => Err (AdoptedTwice key (ch_Adopt channel) prev name)
        | None => Ok (<[ch_Adopt channel := name]> adopted)
        end
  end.

(** [policy/slack.go:Policy.validateSlackWorkspace] *)
Definition validateSlackWorkspace (p : Policy) key : result slack_error unit :=
  check (slackSlug key) (WorkspaceKey key) ;;
  let channels := match Slack p !! key with Some ws => w_Channels ws | None => ∅ end in
  fold_m (validate_channel p key channels) ∅ (sorted_keys channels) ;; Ok tt.

(** [policy/slack.go:Policy.validateSlack] *)
Definition validateSlack (p : Policy) : result slack_error unit :=
  for_each (validateSlackWorkspace p) (sorted_keys (Slack p)).

(** ** Lemmas: the people table *)

Section people.
Context (p : Policy).

(** A row lists [norm], in some spelling; [person]'s row does. *)
Definition lists (addresses : list string) (norm : string) : Prop :=
  Some norm ∈ normaliseAddress <$> addresses.
Definition listed person (norm : string) : Prop := lists (default [] (People p !! person)) norm.

#[local] Instance lists_dec l norm : Decision (lists l norm).
Proof. unfold lists. apply _. Defined.
#[local] Instance listed_dec q norm : Decision (listed q norm).
Proof. unfold listed. apply _. Defined.

Lemma lists_cons a l norm : lists (a :: l) norm ↔ normaliseAddress a = Some norm ∨ lists l norm.
Proof. unfold lists. rewrite fmap_cons, elem_of_cons. naive_solver. Qed.

Lemma lists_nil norm : ¬ lists [] norm.
Proof. by intros ?%elem_of_nil. Qed.

Lemma claim_address_ok person owner a owner' :
  claim_address person owner a = Ok owner' →
  ∃ m, normaliseAddress a = Some m ∧ owner !! m = None ∧ owner' = <[m := person]> owner.
Proof.
  unfold claim_address. destruct (normaliseAddress a) as [m|]; [|done].
  destruct (owner !! m) eqn:?; [by case_bool_decide|]. intros [= <-]. eauto.
Qed.

Lemma claim_addresses_spec person l owner owner' :
  fold_m (claim_address person) owner l = Ok owner' →
  ∀ norm q, owner' !! norm = Some q ↔ owner !! norm = Some q ∨ (q = person ∧ lists l norm).
Proof.
  revert owner. induction l as [|a l IH]; intros owner; simpl.
  { intros [= <-] norm q. pose proof (lists_nil norm). naive_solver. }
  destruct (claim_address person owner a) as [o1|] eqn:Ha; [|done].
  intros H norm q. rewrite (IH _ H), lists_cons.
  apply claim_address_ok in Ha as (m&Hm&Ho&->). rewrite Hm.
  destruct (decide (m = norm)) as [->|Hne].
  - rewrite lookup_insert_eq, Ho. naive_solver.
  - rewrite lookup_insert_ne by done. naive_solver.
Qed.

Lemma claim_people_spec l owner owner' :
  fold_m (claim_person p) owner l = Ok owner' →
  ∀ norm q, owner' !! norm = Some q ↔ owner !! norm = Some q ∨ (q ∈ l ∧ listed q norm).
Proof.
  revert owner. induction l as [|person l IH]; intros owner; simpl.
  { intros [= <-] norm q. rewrite elem_of_nil. naive_solver. }
  destruct (claim_person p owner person) as [o1|] eqn:Ha; [|done].
  intros H norm q. rewrite (IH _ H), elem_of_cons.
  unfold claim_person in Ha. step_ok Ha. rewrite (claim_addresses_spec _ _ _ _ Ha).
  unfold listed. naive_solver.
Qed.

Lemma listed_unique : validatePeople p = Ok tt →
  ∀ q1 q2 norm, listed q1 norm → listed q2 norm → q1 = q2.
Proof.
  intros H q1 q2 norm H1 H2. unfold validatePeople in H. step_ok H.
  pose proof (claim_people_spec _ _ _ H0 norm) as Hs.
  assert (∀ q, listed q norm → a !! norm = Some q) as Hq; [|apply Hq in H1, H2; congruence].
  intros q Hq. apply Hs. right. split; [|done]. apply elem_of_sorted_keys.
  unfold listed in Hq. destruct (People p !! q); [by eexists|]. by apply lists_nil in Hq.
Qed.

Definition add_addresses person (out : gmap string string) (l : list string) : gmap string string :=
  foldl (λ out address, match normaliseAddress address with
    | Some m => <[m := person]> out | None => out end) out l.

Lemma add_addresses_out person l (out : gmap string string) norm :
  ¬ lists l norm → add_addresses person out l !! norm = out !! norm.
Proof.
  revert out. induction l as [|a l IH]; intros out; simpl; [done|].
  rewrite lists_cons. intros Ha. rewrite IH by naive_solver.
  destruct (normaliseAddress a) as [m|]; [|done]. apply lookup_insert_ne. naive_solver.
Qed.

Lemma add_addresses_in person l (out : gmap string string) norm :
  lists l norm → add_addresses person out l !! norm = Some person.
Proof.
  revert out. induction l as [|a l IH]; intros out; simpl; [by intros ?%lists_nil|].
  rewrite lists_cons. intros Ha. destruct (decide (lists l norm)) as [Hl|Hl]; [by apply IH|].
  rewrite add_addresses_out by done. destruct Ha as [Ha|]; [|done].
  rewrite Ha. by rewrite lookup_insert_eq.
Qed.

Lemma PeopleByAddress_spec order norm (out : gmap string string) q :
  foldl (λ out person, add_addresses person out (default [] (People p !! person))) out order !! norm = Some q →
  out !! norm = Some q ∨ (q ∈ order ∧ listed q norm).
Proof.
  revert out. induction order as [|x order IH]; intros out; simpl; [by left|].
  intros H. apply IH in H as [H|[? ?]]; [|by rewrite elem_of_cons; auto].
  destruct (decide (listed x norm)) as [Hl|Hl].
  - rewrite add_addresses_in in H by done. simplify_eq. rewrite elem_of_cons. by auto.
  - rewrite add_addresses_out in H by done. by left.
Qed.

Lemma PeopleByAddress_found order norm (out : gmap string string) :
  is_Some (out !! norm) ∨ (∃ q, q ∈ order ∧ listed q norm) →
  is_Some (foldl (λ out person, add_addresses person out (default [] (People p !! person))) out order !! norm).
Proof.
  revert out. induction order as [|x order IH]; intros out; simpl.
  { intros [?|(q&Hq&_)]; [done|]. by apply elem_of_nil in Hq. }
  intros H. apply IH. destruct (decide (listed x norm)) as [Hl|Hl].
  - left. by rewrite add_addresses_in.
  - rewrite add_addresses_out by done. destruct H as [?|(q&[->|?]%elem_of_cons&?)]; [by left|done|eauto].
Qed.
End people.

(** ** Lemmas: channels *)

Lemma check_bound_group_ok p at_ g :
  check_bound_group p at_ g = Ok tt ↔ is_Some (Groups p !! g) ∧ checkGrantName p at_ g = Ok tt.
Proof.
  unfold check_bound_group. case_bool_decide as Hg; simpl.
  - rewrite wrap_ok. naive_solver.
  - split; [done|]. naive_solver.
Qed.

Lemma checkGrantName_fits p at_ g : checkGrantName p at_ g = Ok tt → fits_vocabulary p g.
Proof.
  unfold checkGrantName, fits_vocabulary. destruct (SplitGroup g) as [[[s t] r]|]; [|by destruct (p_Vocabulary p)].
  destruct (is_star s || is_star t || is_star r); [done|].
  destruct (p_Vocabulary p) as [v|]; [|done]. rewrite wrap_ok. by rewrite fits_allowed.
Qed.

(** A group a consumer may name: declared, and real under the vocabulary. *)
Definition bound_group (p : Policy) (g : string) : Prop := is_Some (Groups p !! g) ∧ fits_vocabulary p g.

Lemma bound_groups_ok p at_ groups :
  Forall (λ g, check_bound_group p at_ g = Ok tt) groups → Forall (bound_group p) groups.
Proof.
  intros Hf. eapply Forall_impl; [exact Hf|]. intros g [? H]%check_bound_group_ok.
  split; [done|]. by eapply checkGrantName_fits.
Qed.

Lemma checkBoundGroups_ok p at_ groups u : checkBoundGroups p at_ groups = Ok u → Forall (bound_group p) groups.
Proof. unfold checkBoundGroups. rewrite for_each_ok. apply bound_groups_ok. Qed.

#[export] Hint Resolve checkBoundGroups_ok : roster.

Record channel_ok (p : Policy) (name : string) (c : SlackChannel) : Prop := {
  cok_name : slackChannelName name = true;
  cok_from : ch_From c ≠ [] ∧ Forall (bound_group p) (ch_From c);
  cok_strict : SlackChannel_Strict c = true → ch_Private c = true;
  cok_ignore : ch_Ignore c ≠ [] → SlackChannel_Strict c = true;
  cok_adopt : ch_Adopt c ≠ "" → ValidSlackChannelID (ch_Adopt c) = true }.

Lemma validateSlackMode_ok key name c u : validateSlackMode key name c = Ok u →
  (SlackChannel_Strict c = true → ch_Private c = true) ∧ (ch_Ignore c ≠ [] → SlackChannel_Strict c = true).
Proof.
  unfold validateSlackMode, SlackChannel_Strict. intros H. step_ok H. clear H. rewrite bool_decide_eq_true.
  destruct (empty (ch_Mode c)) eqn:He; simpl in H0.
  { apply empty_true in He. rewrite He. apply check_ok, bool_decide_eq_true in H0. by rewrite H0. }
  case_bool_decide as Hm; simpl in H0.
  { rewrite Hm. apply check_ok, bool_decide_eq_true in H0. by rewrite H0. }
  case_bool_decide as Hs; [|done]. by apply check_ok in H0.
Qed.

Lemma validate_channel_ok p key channels adopted name adopted' c :
  validate_channel p key channels adopted name = Ok adopted' → channels !! name = Some c →
  channel_ok p name c ∧
  (ch_Adopt c = "" ∧ adopted' = adopted ∨
   ch_Adopt c ≠ "" ∧ adopted !! ch_Adopt c = None ∧ adopted' = <[ch_Adopt c := name]> adopted).
Proof.
  intros H Hc. unfold validate_channel in H. rewrite Hc in H. step_ok H.
  apply bound_groups_ok in H2. apply validateSlackMode_ok in H3 as [Hp Hi].
  apply negb_true_iff, bool_decide_eq_false in H1.
  destruct (empty (ch_Adopt c)) eqn:He.
  - apply empty_true in He. injection H as <-. split; [by split|]. by left.
  - apply empty_false in He. step_ok H. destruct (adopted !! ch_Adopt c) eqn:?; [done|]. injection H as <-.
    split; [by split|]. by right.
Qed.

(** Over a whole workspace: every channel is good, and [adopted] says which
    channel adopts which id. *)
Lemma validate_channels_ok p key channels names adopted adopted' :
  fold_m (validate_channel p key channels) adopted names = Ok adopted' → NoDup names →
  (∀ name c, name ∈ names → channels !! name = Some c → channel_ok p name c) ∧
  (∀ id n, adopted !! id = Some n → adopted' !! id = Some n) ∧
  (∀ name c, name ∈ names → channels !! name = Some c → ch_Adopt c ≠ "" → adopted' !! ch_Adopt c = Some name).
Proof.
  revert adopted. induction names as [|x names IH]; intros adopted H Hnd; simpl in H.
  { injection H as <-. split; [|split]; intros; [|done|]; by set_solver. }
  destruct (validate_channel p key channels adopted x) as [a1|] eqn:Hx; [|done].
  apply NoDup_cons in Hnd as [Hnx Hnd]. destruct (IH _ H Hnd) as (Hok&Hkeep&Hadopt).
  destruct (channels !! x) as [cx|] eqn:Hcx.
  - apply (validate_channel_ok _ _ _ _ _ _ cx) in Hx as [Hcok Hx]; [|done].
    split; [|split].
    + intros name c [->|?]%elem_of_cons Hc; [congruence|eauto].
    + intros id n Hid. apply Hkeep. destruct Hx as [[_ ->]|(_&Hnone&->)]; [done|].
      rewrite lookup_insert_ne; [done|congruence].
    + intros name c [->|?]%elem_of_cons Hc Hne; [|eauto].
      rewrite Hcx in Hc. injection Hc as <-. apply Hkeep. destruct Hx as [[? _]|(_&_&->)]; [done|].
      by rewrite lookup_insert_eq.
  - unfold validate_channel in Hx. rewrite Hcx in Hx. step_ok Hx. injection Hx as ->.
    split; [|split]; [|by eauto|].
    + intros name c [->|?]%elem_of_cons Hc; [congruence|eauto].
    + intros name c [->|?]%elem_of_cons Hc; [congruence|eauto].
Qed.

Lemma validateSlackWorkspace_ok p key ws :
  validateSlackWorkspace p key = Ok tt → Slack p !! key = Some ws →
  slackSlug key = true ∧
  map_Forall (channel_ok p) (w_Channels ws) ∧
  (∀ n1 n2 c1 c2, w_Channels ws !! n1 = Some c1 → w_Channels ws !! n2 = Some c2 →
    ch_Adopt c1 ≠ "" → ch_Adopt c1 = ch_Adopt c2 → n1 = n2).
Proof.
  intros H Hk. unfold validateSlackWorkspace in H. rewrite Hk in H. simpl in H. step_ok H.
  apply validate_channels_ok in H1 as (Hok&_&Had); [|apply NoDup_sorted_keys].
  assert (∀ n c, w_Channels ws !! n = Some c → n ∈ sorted_keys (w_Channels ws)) as Hin.
  { intros n c Hn. apply elem_of_sorted_keys. by eexists. }
  split; [done|]. split; [intros n c Hn; eauto|].
  intros n1 n2 c1 c2 H1 H2 Hne Heq.
  pose proof (Had n1 c1 (Hin _ _ H1) H1 Hne) as E1.
  rewrite Heq in Hne. pose proof (Had n2 c2 (Hin _ _ H2) H2 Hne) as E2.
  rewrite Heq in E1. congruence.
Qed.

(** ** The properties *)

(** once the people table loads, an address names one person: whatever
    order Go ranges over the table in, the lookup finds exactly the person whose
    row lists the address, in any spelling that normalises to it. *)
Theorem PeopleByAddress_unambiguous p order (Hp : validatePeople p = Ok tt) (Ho : order ≡ₚ keys (People p)) :
  ∀ address person, PeopleByAddress p order !! address = Some person ↔ listed p person address.
Proof.
  intros address person. split.
  - intros H. apply PeopleByAddress_spec in H as [H|[_ H]]; [by rewrite lookup_empty in H | done].
  - intros Hl. destruct (PeopleByAddress_found p order address ∅) as [q Hq].
    { right. exists person. split; [|done]. rewrite Ho. apply elem_of_keys.
      unfold listed in Hl. destruct (People p !! person); [by eexists | by apply lists_nil in Hl]. }
    change (PeopleByAddress p order !! address = Some q) in Hq. rewrite Hq. f_equal.
    apply PeopleByAddress_spec in Hq as [Hq|[_ Hq]]; [by rewrite lookup_empty in Hq|].
    by eapply listed_unique.
Qed.

Definition sample_people : Policy :=
  mkPolicy 1 None ∅ ∅ ∅ ∅ no_documents ∅ ∅ {["ada" := ["ada@example.com"; "Ada@Old.Example"]; "bob" := ["bob@example.com"]]} ∅.

Lemma PeopleByAddress_unambiguous_witness :
  validatePeople sample_people = Ok tt ∧
  (PeopleByAddress sample_people ["bob"; "ada"] !! "ada@old.example" = Some "ada" ↔
   listed sample_people "ada" "ada@old.example").
Proof.
  split; [by vm_compute|]. apply PeopleByAddress_unambiguous; [by vm_compute|].
  vm_compute. first [reflexivity | apply Permutation_swap].
Defined.

(** in a slack block that loads, every channel is fed by at least one group,
    each declared and real under the vocabulary; a channel the controller may
    remove people from (strict) is private, only such a channel carries an
    ignore list, and no existing channel is adopted by two. *)
Theorem validateSlack_channels p key ws (Hv : validateSlack p = Ok tt) (Hk : Slack p !! key = Some ws) :
  slackSlug key = true ∧
  map_Forall (channel_ok p) (w_Channels ws) ∧
  (∀ n1 n2 c1 c2, w_Channels ws !! n1 = Some c1 → w_Channels ws !! n2 = Some c2 →
    ch_Adopt c1 ≠ "" → ch_Adopt c1 = ch_Adopt c2 → n1 = n2).
Proof.
  apply validateSlackWorkspace_ok; [|done]. unfold validateSlack in Hv. rewrite for_each_ok, Forall_forall in Hv.
  apply Hv, elem_of_sorted_keys. by eexists.
Qed.

Definition sample_workspace : SlackWorkspace := mkSlackWorkspace
  {["oncall" := mkSlackChannel true "strict" ["U0123ABCD"] ["rung:sre"] "C0123ABCD";
    "general" := mkSlackChannel false "" [] ["rung:sre"] ""]}.
Definition sample_slack : Policy :=
  mkPolicy 1 None {["rung:sre" := mkGroup ["sre@example.com"] []]} ∅ ∅ ∅ no_documents ∅ ∅ ∅ {["team" := sample_workspace]}.

Lemma validateSlack_channels_witness :
  validateSlack sample_slack = Ok tt ∧ map_Forall (channel_ok sample_slack) (w_Channels sample_workspace).
Proof.
  assert (validateSlack sample_slack = Ok tt) as H by by vm_compute.
  split; [done|]. apply (validateSlack_channels sample_slack "team" sample_workspace H). done.
Defined.
