(* ===== verification/Validate.v ===== *)
(** * Validate: what makes one layer of policy load

    [Policy.Validate] of [policy/policy.go] with everything it calls in
    [policy/resource.go], [policy/clientdoc.go], [policy/scope.go],
    [policy/groups_delimiter.go] (the vocabulary's, the fragments', the people's
    and Slack's checks are in their own files), with a constructor per message.

    The theorems say what a policy that loads guarantees: no dangling reference
    and no grant outside the vocabulary, matchers with exactly one condition,
    tokens whose group names stay distinct under every [groups_delimiter], and
    client and resource rows that keep their gates. *)

From S2P Require Import Prelude GoStrings Names Vocabulary Glob Claims NetUrl Utf8 Policy SlackPolicy.

Implicit Types (name id org : string).

(** ** Errors *)

Inductive text_error : Type :=
| NotUTF8 | Blank | TooLong (n limit : nat) | ControlCharacter (r : Z).

Inductive aws_error : Type :=
| BadAccount (account : string)
| BadPattern (field pattern : string).

Inductive delimiter_error : Type :=
| DelimiterEmpty
| DelimiterSeparator (delimiter : string)
| DelimiterQuoteOrComma (delimiter : string)
| DelimiterWhitespace (delimiter : string)
| DelimiterControl (delimiter : string)
| DelimiterNonASCII (delimiter : string)
| DelimiterNameByte (delimiter : string) (r : Z)
| DelimiterCollides (delimiter other concrete after : string).

Inductive override_error : Type :=
| BlankThing | ThingTwice (entry : string) | ThingUnknown (entry : string).

Inductive group_error : Type :=
| MemberNoDomain (member : string)
| NoCondition (i : nat)
| ManyConditions (i n : nat)
| EveryCIJob (i : nat)
| BadVisibility (i : nat) (visibility : string)
| NeedsNamespaceAndName (i : nat)
| BadAWS (i : nat) (why : aws_error).

Inductive client_error : Type :=
| BadText (field : string) (why : text_error)
| KindMissing | KindUnknown (kind : string)
| NoSecret | ExchangeRedirects | ExchangeSignedOut
| SignInExchangeKind (kind : string)
| SignedOutIsRedirect (uri : string)
| RequiresNothing
| AbsoluteCapNegative (limit : Z) | AbsoluteCapTooLong (limit : Z)
| BadSigningAlg (alg : string)
| BadDelimiter (why : delimiter_error)
| BadOverride (why : override_error)
| BadRequires (why : slack_error).

Inductive resource_id_error : Type :=
| NoID | NotAURI (id : string) | NotAbsolute (id : string) | HasFragment (id : string).

Inductive documents_error : Type :=
| OriginEmpty | OriginScheme (origin : string) | OriginPath (origin : string)
| OriginWildcard (origin : string) | OriginNotAHost (origin : string)
| InertDocuments | OpenDocuments | DocumentsWhy (why : client_error).

Inductive github_error : Type :=
| OrgNoName | OrgBindsNothing (org : string)
| IgnoreNotAddress (org entry : string) | IgnoreNotLogin (org entry : string)
| TeamNoName (org : string) | TeamUnfed (org team : string)
| BadBinding (why : slack_error).

Inductive policy_error : Type :=
| BadVersion (version : Z)
| BadVocabulary (why : vocab_error)
| BadGroup (name : string) (why : group_error)
| BadKey (why : name_error)
| BadReference (why : slack_error)
| BadGitHub (why : github_error)
| BadSlack (why : slack_error)
| BadClient (id : string) (why : client_error)
| BadResourceID (why : resource_id_error)
| BadResource (id : string) (why : client_error)
| BadDocuments (why : documents_error)
| BadFragments (why : fragment_error).

(** ** Text, algorithms and delimiters *)

(** [policy/policy.go:1027-1034 MaxDisplayName] *)
Definition MaxDisplayName : nat := 80.
(** [policy/policy.go:1027-1034 MaxDescription] *)
Definition MaxDescription : nat := 200.

(** [policy/policy.go:displayText] *)
Definition displayText (value : string) (limit : nat) : result text_error unit :=
  if empty value then Ok tt
  else
    check (ValidString value) NotUTF8 ;;
    check (negb (blank value)) Blank ;;
    check (RuneCount value <=? limit) (TooLong (RuneCount value) limit) ;;
    for_each (λ r, check (negb (control_or_format r)) (ControlCharacter r)) (omap id (runes value)).

(** [policy/policy.go:193-204 SigningAlgs] *)
Definition SigningAlgs : list string := ["RS256"; "ES256"; "ES384"].

(** [policy/policy.go:validSigningAlg] *)
Definition validSigningAlg (alg : string) : bool := str_in alg SigningAlgs.

(** What one rune of a delimiter is refused for. *)
Definition delimiter_rune (delimiter : string) (rune : option Z) : result delimiter_error unit :=
  let r := default 65533%Z rune in
  if IsSpace r then Err (DelimiterWhitespace delimiter)
  else if ((r <? 32) || (r =? 127))%Z then Err (DelimiterControl delimiter)
  else if (127 <? r)%Z then Err (DelimiterNonASCII delimiter)
  else if (between 65 90 r || between 97 122 r || between 48 57 r || (r =? 45)%Z)
       then Err (DelimiterNameByte delimiter r)
  else Ok tt.

Definition quote_or_comma c : bool := (code c =? 34) || byte_eqb c ",".

(** [policy/groups_delimiter.go:validGroupsDelimiter] *)
Definition validGroupsDelimiter (delimiter : string) : result delimiter_error unit :=
  check (negb (empty delimiter)) DelimiterEmpty ;;
  check (negb (Contains delimiter Separator)) (DelimiterSeparator delimiter) ;;
  check (negb (str_any quote_or_comma delimiter)) (DelimiterQuoteOrComma delimiter) ;;
  for_each (delimiter_rune delimiter) (runes delimiter).

(** One concrete name of the walk; [rewritten] is what came before. *)
Definition rewrite_one (delimiter : string) (rewritten : gmap string string) (concrete : string)
    : result delimiter_error (gmap string string) :=
  let after := replace_byte sep delimiter concrete in
  match rewritten !! after with
  | Some other =>
      if bool_decide (other = concrete) then Ok (<[after := concrete]> rewritten)
      else Err (DelimiterCollides delimiter other concrete after)
  | None => Ok (<[after := concrete]> rewritten)
  end.

(** [policy/groups_delimiter.go:Policy.checkGroupsDelimiterCollision] *)
Definition checkGroupsDelimiterCollision (p : Policy) (delimiter : string) : result delimiter_error unit :=
  fold_m (λ rewritten name, fold_m (rewrite_one delimiter) rewritten (groupKeyTargets p name))
    ∅ (sorted_keys (Groups p)) ;; Ok tt.

(** The check a client and a resource share. *)
Definition check_delimiter (p : Policy) (delimiter : string) : result client_error unit :=
  if empty delimiter then Ok tt
  else wrap BadDelimiter (validGroupsDelimiter delimiter ;; checkGroupsDelimiterCollision p delimiter).

(** One entry of a [groups] override; [seen] is what came before. *)
Definition override_entry (p : Policy) (seen : gset string) (entry : string) : result override_error (gset string) :=
  check (negb (empty (TrimSpace entry))) BlankThing ;;
  check (negb (bool_decide (entry ∈ seen))) (ThingTwice entry) ;;
  let seen := {[entry]} ∪ seen in
  if Contains entry Separator then Ok seen
  else match p_Vocabulary p with
       | None => Ok seen
       | Some v =>
           if bool_decide (entry = FamilyRung) || bool_decide (entry = FamilyEmp) then Ok seen
           else check (bool_decide (is_Some (Things v !! entry))) (ThingUnknown entry) ;; Ok seen
       end.

(** [policy/scope.go:Policy.checkGroupsOverride] *)
Definition checkGroupsOverride (p : Policy) (g : GroupsOverride) : result override_error unit :=
  if go_All g then Ok tt else fold_m (override_entry p) ∅ (go_Things g) ;; Ok tt.

(** ** Groups *)

(** [policy/policy.go:ValidAWSAccount] *)
Definition ValidAWSAccount (s : string) : bool := (String.length s =? 12) && str_all is_digit s.

(** [policy/policy.go:AWSMatcher.validate] The four patterns sit in a Go map:
    which of several malformed ones is named is the runtime's choice, and here
    the first of this list. *)
Definition AWSMatcher_validate (oa : option AWSMatcher) : result aws_error unit :=
  match oa with
  | None => Ok tt
  | Some a =>
      check (ValidAWSAccount (am_Account a)) (BadAccount (am_Account a)) ;;
      for_each (λ '(field, pattern), check (bool_decide (is_Some (Match pattern ""))) (BadPattern field pattern))
        [("role", am_Role a); ("path", am_Path a); ("function", am_Function a); ("org_id", am_OrgID a)]
  end.

(** [policy/policy.go:434-435 visibilities] *)
Definition visibilities : list string := ["public"; "private"; "internal"].

Definition no_github : GitHubMatcher := mkGitHubMatcher "" "" "" "" "" "" "" "" "" "" "".

(** The body of the loop over a group's matchers. *)
Definition validate_matcher (im : nat * Matcher) : result group_error unit :=
  let '(i, m) := im in
  match kinds m with
  | 0 => Err (NoCondition i)
  | 1 =>
      match m_GitHub m with
      | Some gh =>
          check (negb (bool_decide (gh = no_github))) (EveryCIJob i) ;;
          check (empty (gm_Visibility gh) || str_in (gm_Visibility gh) visibilities)
            (BadVisibility i (gm_Visibility gh))
      | None => Ok tt
      end ;;
      match m_ServiceAccount m with
      | Some sa => check (negb (empty (sm_Namespace sa) || empty (sm_Name sa))) (NeedsNamespaceAndName i)
      | None => Ok tt
      end ;;
      wrap (BadAWS i) (AWSMatcher_validate (m_AWS m))
  | n => Err (ManyConditions i n)
  end.

(** [policy/policy.go:Group.validate] *)
Definition Group_validate (g : Group) : result group_error unit :=
  for_each (λ address, check (bool_decide (is_Some (Domain address))) (MemberNoDomain address)) (g_Members g) ;;
  for_each validate_matcher (imap pair (g_Matchers g)).

(** ** GitHub *)

(** What may follow a login's first byte: at most [n] letters or digits, each
    with at most one hyphen before it. *)
Fixpoint login_rest (n : nat) (s : string) : bool :=
  match s, n with
  | EmptyString, _ => true
  | String _ _, 0 => false
  | String c t, S n =>
      if is_letter c || is_digit c then login_rest n t
      else if byte_eqb c "-" then
        match t with
        | String d t => (is_letter d || is_digit d) && login_rest n t
        | EmptyString => false
        end
      else false
  end.

(** [policy/policy.go:329-330 ignoredLogin] *)
Definition ignoredLogin (s : string) : bool :=
  match s with
  | String c t => (is_letter c || is_digit c) && login_rest 38 t
  | EmptyString => false
  end.

Definition validate_ignored org (entry : string) : result github_error unit :=
  let entry := TrimSpace entry in
  if contains_byte "@" entry then check (bool_decide (is_Some (Domain entry))) (IgnoreNotAddress org entry)
  else check (ignoredLogin entry) (IgnoreNotLogin org entry).

Definition validate_team (p : Policy) org (binding : GitHubOrg) (team : string) : result github_error unit :=
  check (negb (empty (TrimSpace team))) (TeamNoName org) ;;
  match o_Teams binding !! team with
  | None => Ok tt
  | Some bound =>
      check (negb (bool_decide (t_Members bound = []) && bool_decide (t_Maintainers bound = [])))
        (TeamUnfed org team) ;;
      wrap BadBinding (checkBoundGroups p (GitHubTeamOf org team) (GitHubTeam_Groups bound))
  end.

(** [policy/policy.go:Policy.validateGitHubOrg] *)
Definition validateGitHubOrg (p : Policy) org : result github_error unit :=
  check (negb (empty (TrimSpace org))) OrgNoName ;;
  match GitHub p !! org with
  | None => Ok tt
  | Some binding =>
      check (negb (bool_decide (o_Members binding = []) && bool_decide (o_Teams binding = ∅)))
        (OrgBindsNothing org) ;;
      wrap BadBinding (checkBoundGroups p (GitHubMembers org) (o_Members binding)) ;;
      for_each (validate_ignored org) (o_Ignore binding) ;;
      for_each (validate_team p org binding) (sorted_keys (o_Teams binding))
  end.

(** ** Clients, resources and documents *)

(** [policy/policy.go:Client.validate] *)
Definition Client_validate (p : Policy) id (c : Client) : result client_error unit :=
  wrap (BadText "display_name") (displayText (c_DisplayName c) MaxDisplayName) ;;
  wrap (BadText "description") (displayText (c_Description c) MaxDescription) ;;
  (if str_in (c_Kind c) ["public"; "confidential"; "exchange"] then Ok tt
   else if empty (c_Kind c) then Err KindMissing else Err (KindUnknown (c_Kind c))) ;;
  let confidential := bool_decide (c_Kind c = "confidential") in
  let exchange := bool_decide (c_Kind c = "exchange") in
  check (negb (confidential && empty (c_Secret c))) NoSecret ;;
  check (negb (exchange && negb (bool_decide (c_Redirects c = [])))) ExchangeRedirects ;;
  check (negb (exchange && negb (bool_decide (c_SignedOut c = [])))) ExchangeSignedOut ;;
  check (negb (c_SignInExchange c && negb (bool_decide (c_Kind c = "public")))) (SignInExchangeKind (c_Kind c)) ;;
  for_each (λ out, check (negb (str_in out (c_Redirects c))) (SignedOutIsRedirect out)) (c_SignedOut c) ;;
  check (negb (bool_decide (c_Requires c = []))) RequiresNothing ;;
  wrap BadRequires (checkBoundGroups p (ClientRequires id) (c_Requires c)) ;;
  check (empty (c_SigningAlg c) || validSigningAlg (c_SigningAlg c)) (BadSigningAlg (c_SigningAlg c)) ;;
  check_delimiter p (c_GroupsDelimiter c) ;;
  wrap BadOverride (checkGroupsOverride p (c_Groups c)).

(** [policy/resource.go:10-13 MaxAbsoluteCap] *)
Definition MaxAbsoluteCap : Z := 7 * 24 * 3600 * 1000000000.

(** [policy/resource.go:validateResourceID] *)
Definition validateResourceID id : result resource_id_error unit :=
  check (negb (empty (TrimSpace id))) NoID ;;
  match url_Parse id with
  | None => Err (NotAURI id)
  | Some u =>
      check (IsAbs u) (NotAbsolute id) ;;
      check (empty (Fragment u) && negb (contains_byte "#" id)) (HasFragment id)
  end.

(** The rest of [Resource.validate], past the id. *)
Definition Resource_validate_row (p : Policy) id (r : Resource) : result client_error unit :=
  check (negb (bool_decide (r_Requires r = []))) RequiresNothing ;;
  wrap BadRequires (checkBoundGroups p (ResourceRequires id) (r_Requires r)) ;;
  let limit := r_AbsoluteCap r in
  check (negb (limit <? 0)%Z) (AbsoluteCapNegative limit) ;;
  check (negb (MaxAbsoluteCap <? limit)%Z) (AbsoluteCapTooLong limit) ;;
  check (empty (r_SigningAlg r) || validSigningAlg (r_SigningAlg r)) (BadSigningAlg (r_SigningAlg r)) ;;
  check_delimiter p (r_GroupsDelimiter r) ;;
  wrap BadOverride (checkGroupsOverride p (r_Groups r)).

(** [policy/resource.go:Resource.validate] *)
Definition Resource_validate (p : Policy) id (r : Resource) : result policy_error unit :=
  wrap BadResourceID (validateResourceID id) ;;
  wrap (BadResource id) (Resource_validate_row p id r).

(** [policy/clientdoc.go:ClientDocuments.Enabled] *)
Definition Enabled (d : ClientDocuments) : bool := negb (bool_decide (d_Origins d = [])).

(** [policy/clientdoc.go:ClientDocuments.Permits] *)
Definition Permits (d : ClientDocuments) (u : URL) : bool :=
  existsb (λ allowed, bool_decide (ToLower allowed = ToLower (Host u))) (d_Origins d).

(** [policy/clientdoc.go:validateOrigin] *)
Definition validateOrigin (origin : string) : result documents_error unit :=
  check (negb (empty (TrimSpace origin))) OriginEmpty ;;
  check (negb (Contains origin "://")) (OriginScheme origin) ;;
  check (negb (ContainsAny origin "/?#")) (OriginPath origin) ;;
  check (negb (Contains origin "*")) (OriginWildcard origin) ;;
  check (bool_decide (is_Some (url_Parse ("https://" +:+ origin)))) (OriginNotAHost origin).

(** [policy/clientdoc.go:ClientDocuments.validate] *)
Definition ClientDocuments_validate (p : Policy) (d : ClientDocuments) : result documents_error unit :=
  for_each validateOrigin (d_Origins d) ;;
  if negb (Enabled d) then
    check (bool_decide (d_Requires d = []) && (d_TTLCap d =? 0)%Z && override_empty (d_Groups d)) InertDocuments
  else
    check (negb (bool_decide (d_Requires d = []))) OpenDocuments ;;
    wrap (DocumentsWhy ∘ BadRequires) (checkBoundGroups p DocumentsRequires (d_Requires d)) ;;
    wrap (DocumentsWhy ∘ BadOverride) (checkGroupsOverride p (d_Groups d)).

(** ** The layer *)

Definition validate_key (p : Policy) name : result policy_error unit :=
  wrap (BadGroup name) (Group_validate (group_of p name)) ;;
  wrap BadKey (checkGroupKey p name) ;; Ok tt.

(** [policy/policy.go:Policy.Validate] *)
Definition Validate (p : Policy) : result policy_error unit :=
  check (Version p =? 1)%Z (BadVersion (Version p)) ;;
  wrap BadVocabulary (validate_vocabulary (p_Vocabulary p)) ;;
  for_each (validate_key p) (sorted_keys (Groups p)) ;;
  for_each (λ name, wrap BadReference (check_bound_group p InClaims name)) (sorted_keys (p_Claims p)) ;;
  for_each (λ name,
    if bool_decide (name = LifetimeDefault) then Ok tt
    else wrap BadReference (check_bound_group p InLifetimes name)) (sorted_keys (Lifetimes p)) ;;
  for_each (λ org, wrap BadGitHub (validateGitHubOrg p org)) (sorted_keys (GitHub p)) ;;
  wrap BadSlack (validatePeople p) ;;
  wrap BadSlack (validateSlack p) ;;
  for_each (λ id, match Clients p !! id with
    | Some c => wrap (BadClient id) (Client_validate p id c) | None => Ok tt end) (sorted_keys (Clients p)) ;;
  for_each (λ id, match Resources p !! id with
    | Some r => Resource_validate p id r | None => Ok tt end) (sorted_keys (Resources p)) ;;
  wrap BadDocuments (ClientDocuments_validate p (p_ClientDocuments p)) ;;
  wrap BadFragments (checkFragments (p_Claims p)).

(** ** Lemmas *)

(** The checks of a layer that loads, one by one. *)
Record valid (p : Policy) : Prop := {
  va_version : Version p = 1%Z;
  va_vocabulary : validate_vocabulary (p_Vocabulary p) = Ok tt;
  va_keys : ∀ name, is_Some (Groups p !! name) → validate_key p name = Ok tt;
  va_claims : ∀ name, is_Some (p_Claims p !! name) → bound_group p name;
  va_lifetimes : ∀ name, is_Some (Lifetimes p !! name) → name ≠ LifetimeDefault → bound_group p name;
  va_github : ∀ org, is_Some (GitHub p !! org) → validateGitHubOrg p org = Ok tt;
  va_people : validatePeople p = Ok tt;
  va_slack : validateSlack p = Ok tt;
  va_clients : ∀ id c, Clients p !! id = Some c → Client_validate p id c = Ok tt;
  va_resources : ∀ id r, Resources p !! id = Some r → Resource_validate p id r = Ok tt;
  va_documents : ClientDocuments_validate p (p_ClientDocuments p) = Ok tt;
  va_fragments : checkFragments (p_Claims p) = Ok tt }.

Lemma wrap_ok_unit {E E'} (f : E → E') (r : result E unit) u : wrap f r = Ok u → r = Ok tt.
Proof. destruct u. by rewrite wrap_ok. Qed.

(** A loop over sorted keys that succeeded, read at one key. *)
Lemma for_keys_ok {E V} (f : string → result E unit) (m : gmap string V) k :
  Forall (λ x, f x = Ok tt) (sorted_keys m) → is_Some (m !! k) → f k = Ok tt.
Proof. rewrite Forall_forall. intros H Hk. by apply H, elem_of_sorted_keys. Qed.

Lemma check_bound_group_bound p at_ g : check_bound_group p at_ g = Ok tt → bound_group p g.
Proof. intros [? H]%check_bound_group_ok. split; [done|]. by eapply checkGrantName_fits. Qed.

Lemma Validate_valid p : Validate p = Ok tt → valid p.
Proof.
  unfold Validate. intros H. step_ok H.
  repeat match goal with u : unit |- _ => destruct u end.
  split; try done.
  - by apply Z.eqb_eq.
  - intros name. by apply (for_keys_ok (validate_key p)).
  - intros name Hn. eapply check_bound_group_bound, wrap_ok_unit.
    by apply (for_keys_ok _ _ _ H3 Hn).
  - intros name Hn Hd. pose proof (for_keys_ok _ _ _ H4 Hn) as Hl. simpl in Hl.
    rewrite bool_decide_eq_false_2 in Hl by done. eapply check_bound_group_bound, wrap_ok_unit. done.
  - intros org Ho. eapply wrap_ok_unit, (for_keys_ok _ _ _ H5 Ho).
  - intros id c Hc. pose proof (for_keys_ok _ _ id H8 ltac:(by eexists)) as Hl. simpl in Hl.
    rewrite Hc in Hl. by apply wrap_ok_unit in Hl.
  - intros id r Hr. pose proof (for_keys_ok _ _ id H9 ltac:(by eexists)) as Hl. simpl in Hl.
    by rewrite Hr in Hl.
Qed.

(** The places of a policy that name a group. *)
Inductive referenced (p : Policy) (g : string) : Prop :=
| RefClaims : is_Some (p_Claims p !! g) → referenced p g
| RefLifetimes : is_Some (Lifetimes p !! g) → g ≠ LifetimeDefault → referenced p g
| RefGitHubMembers org o : GitHub p !! org = Some o → g ∈ o_Members o → referenced p g
| RefGitHubTeam org o team t : GitHub p !! org = Some o → o_Teams o !! team = Some t →
    g ∈ t_Members t ++ t_Maintainers t → referenced p g
| RefSlack key ws name c : Slack p !! key = Some ws → w_Channels ws !! name = Some c →
    g ∈ ch_From c → referenced p g
| RefClient id c : Clients p !! id = Some c → g ∈ c_Requires c → referenced p g
| RefResource id r : Resources p !! id = Some r → g ∈ r_Requires r → referenced p g
| RefDocuments : g ∈ d_Requires (p_ClientDocuments p) → referenced p g.

Lemma bound_in p at_ groups g :
  Forall (λ x, check_bound_group p at_ x = Ok tt) groups → g ∈ groups → bound_group p g.
Proof. intros H%bound_groups_ok Hg. rewrite Forall_forall in H. auto. Qed.

Lemma validateGitHubOrg_bound p org o : validateGitHubOrg p org = Ok tt → GitHub p !! org = Some o →
  Forall (bound_group p) (o_Members o) ∧
  ∀ team t, o_Teams o !! team = Some t →
    t_Members t ++ t_Maintainers t ≠ [] ∧ Forall (bound_group p) (t_Members t ++ t_Maintainers t).
Proof.
  intros H Ho. unfold validateGitHubOrg in H. rewrite Ho in H. step_ok H.
  apply checkBoundGroups_ok in H2.
  split; [done|]. intros team t Ht.
  pose proof (for_keys_ok _ _ team H ltac:(by eexists)) as Hv.
  unfold validate_team in Hv. rewrite Ht in Hv. step_ok Hv.
  apply checkBoundGroups_ok in Hv.
  rewrite negb_true_iff, andb_false_iff, !bool_decide_eq_false in Hv1.
  split; [destruct (t_Members t), (t_Maintainers t); naive_solver|].
  rewrite Forall_forall in Hv |- *. intros g Hg. apply Hv.
  unfold GitHubTeam_Groups. by rewrite elem_of_compact, elem_of_sort_strings.
Qed.

(** What a sign-in page may be told to show: text of at most [limit]
    characters, none of them a control or a formatting character. *)
Definition shown (text : string) (limit : nat) : Prop :=
  text = "" ∨ ValidString text = true ∧ blank text = false ∧ RuneCount text ≤ limit ∧
    Forall (λ r, control_or_format r = false) (omap id (runes text)).

Lemma displayText_ok value limit u : displayText value limit = Ok u → shown value limit.
Proof.
  unfold displayText, shown. destruct (empty value) eqn:He.
  { apply empty_true in He. by left. }
  intros H. step_ok H. right. apply negb_true_iff in H1. apply Nat.leb_le in H2.
  repeat split; try done. eapply Forall_impl; [exact H|]. intros r Hr. simpl in Hr.
  by apply check_ok, negb_true_iff in Hr.
Qed.

Record client_ok (p : Policy) (c : Client) : Prop := {
  cl_kind : c_Kind c ∈ ["public"; "confidential"; "exchange"];
  cl_shown : shown (c_DisplayName c) 80 ∧ shown (c_Description c) 200;
  cl_gate : c_Requires c ≠ [] ∧ Forall (bound_group p) (c_Requires c);
  cl_secret : c_Kind c = "confidential" → c_Secret c ≠ "";
  cl_exchange : c_Kind c = "exchange" → c_Redirects c = [] ∧ c_SignedOut c = [];
  cl_sign_in : c_SignInExchange c = true → c_Kind c = "public";
  cl_signed_out : ∀ uri, uri ∈ c_SignedOut c → uri ∉ c_Redirects c;
  cl_alg : c_SigningAlg c = "" ∨ c_SigningAlg c ∈ SigningAlgs }.

Lemma andb_not_true b c : negb (b && c) = true → b = true → c = false.
Proof. by destruct b, c. Qed.

Lemma Client_validate_ok p id c : Client_validate p id c = Ok tt → client_ok p c.
Proof.
  intros H. unfold Client_validate in H. step_ok H.
  apply displayText_ok in H0, H1. apply checkBoundGroups_ok in H9.
  apply negb_true_iff, bool_decide_eq_false in H8.
  split; try done.
  - destruct (str_in _ _) eqn:Hk; [by apply str_in_true in Hk|]. by destruct (empty _).
  - intros Hk. pose proof (bool_decide_eq_true_2 _ Hk) as Hb. by apply empty_false, (andb_not_true _ _ H3).
  - intros Hk. pose proof (bool_decide_eq_true_2 _ Hk) as Hb. pose proof (andb_not_true _ _ H4 Hb) as E4.
    pose proof (andb_not_true _ _ H5 Hb) as E5. by apply negb_false_iff, bool_decide_eq_true in E4, E5.
  - intros Hk. by apply (andb_not_true _ _ H6), negb_false_iff, bool_decide_eq_true in Hk.
  - intros uri Hu. rewrite Forall_forall in H7. apply H7, check_ok, negb_true_iff in Hu.
    by apply str_in_false in Hu.
  - apply orb_true_iff in H10 as [He|He]; [left; by apply empty_true in He | right; by apply str_in_true in He].
Qed.

Record resource_ok (p : Policy) (id : string) (r : Resource) : Prop := {
  re_id : (∃ u, url_Parse id = Some u ∧ Scheme u ≠ "" ∧ Fragment u = "") ∧ contains_byte "#" id = false;
  re_gate : r_Requires r ≠ [] ∧ Forall (bound_group p) (r_Requires r);
  re_cap : (0 <= r_AbsoluteCap r <= MaxAbsoluteCap)%Z }.

Lemma Resource_validate_ok p id r : Resource_validate p id r = Ok tt → resource_ok p id r.
Proof.
  intros H. unfold Resource_validate in H. step_ok H.
  unfold validateResourceID in H0. step_ok H0. destruct (url_Parse id) as [u|] eqn:Hu; [|done]. step_ok H0.
  unfold IsAbs in *. unfold Resource_validate_row in H. step_ok H.
  apply checkBoundGroups_ok in H4.
  rewrite negb_true_iff, bool_decide_eq_false in H3.
  rewrite negb_true_iff, Z.ltb_ge in H5, H6. rewrite negb_true_iff, empty_false in H2.
  apply andb_true_iff in H0 as [Hf H0]. apply empty_true in Hf. apply negb_true_iff in H0.
  split; [|done|done]. eauto.
Qed.

Record documents_ok (p : Policy) (d : ClientDocuments) : Prop := {
  do_off : d_Origins d = [] → d_Requires d = [] ∧ d_TTLCap d = 0%Z ∧ override_empty (d_Groups d) = true;
  do_gate : d_Origins d ≠ [] → d_Requires d ≠ [];
  do_bound : Forall (bound_group p) (d_Requires d);
  do_hosts : ∀ origin, origin ∈ d_Origins d →
    origin ≠ "" ∧ Contains origin "://" = false ∧ ContainsAny origin "/?#" = false ∧ Contains origin "*" = false }.

Lemma validateOrigin_ok origin : validateOrigin origin = Ok tt →
  origin ≠ "" ∧ Contains origin "://" = false ∧ ContainsAny origin "/?#" = false ∧ Contains origin "*" = false.
Proof.
  intros H. unfold validateOrigin in H. step_ok H. rewrite negb_true_iff in *.
  split; [|done]. by intros ->.
Qed.

Lemma ClientDocuments_validate_ok p d : ClientDocuments_validate p d = Ok tt → documents_ok p d.
Proof.
  intros H. unfold ClientDocuments_validate in H. step_ok H.
  assert (∀ origin, origin ∈ d_Origins d → origin ≠ "" ∧ Contains origin "://" = false ∧
    ContainsAny origin "/?#" = false ∧ Contains origin "*" = false) as Hh.
  { rewrite Forall_forall in H0. intros o Ho. by apply validateOrigin_ok, H0. }
  unfold Enabled in H. case_bool_decide as Ho; simpl in H.
  - apply check_ok in H. rewrite !andb_true_iff, bool_decide_eq_true, Z.eqb_eq in H.
    destruct H as [[Hr ?] ?]. split; try done. rewrite Hr. constructor.
  - step_ok H. rewrite negb_true_iff, bool_decide_eq_false in H1. apply checkBoundGroups_ok in H2. done.
Qed.

(** Every name the walk of the collision check reaches: what a token can say. *)
Definition declared_targets (p : Policy) : list string :=
  mjoin (groupKeyTargets p <$> sorted_keys (Groups p)).

Lemma elem_of_declared_targets p g :
  g ∈ declared_targets p ↔ ∃ name, is_Some (Groups p !! name) ∧ g ∈ groupKeyTargets p name.
Proof.
  unfold declared_targets. rewrite list_elem_of_join. split.
  - intros (l&Hg&(name&->&Hn)%list_elem_of_fmap). apply elem_of_sorted_keys in Hn. eauto.
  - intros (name&Hn&Hg). exists (groupKeyTargets p name). split; [done|].
    by apply list_elem_of_fmap_2, elem_of_sorted_keys.
Qed.

Lemma rewrite_all_ok d l m m' : fold_m (rewrite_one d) m l = Ok m' →
  (∀ k v, m !! k = Some v → m' !! k = Some v) ∧ (∀ g, g ∈ l → m' !! replace_byte sep d g = Some g).
Proof.
  revert m. induction l as [|g l IH]; intros m; simpl.
  { intros [= <-]. split; [done|]. by intros ? ?%elem_of_nil. }
  intros H. destruct (rewrite_one d m g) as [m1|] eqn:Hg; [|done]. destruct (IH _ H) as [H1 H2].
  assert (m1 = <[replace_byte sep d g := g]> m ∧
    (m !! replace_byte sep d g = None ∨ m !! replace_byte sep d g = Some g)) as [-> Hm].
  { unfold rewrite_one in Hg. destruct (m !! _) as [o|]; [case_bool_decide; subst|]; naive_solver. }
  split.
  - intros k v Hk. apply H1. destruct (decide (replace_byte sep d g = k)) as [<-|Hne].
    + rewrite lookup_insert_eq. destruct Hm; congruence.
    + by rewrite lookup_insert_ne.
  - intros g' [->|?]%elem_of_cons; [|by apply H2]. apply H1. by rewrite lookup_insert_eq.
Qed.

Lemma collision_free p d : check_delimiter p d = Ok tt →
  ∀ g1 g2, g1 ∈ declared_targets p → g2 ∈ declared_targets p →
  RewriteGroupsDelimiter g1 d = RewriteGroupsDelimiter g2 d → g1 = g2.
Proof.
  unfold check_delimiter, RewriteGroupsDelimiter. destruct (empty d); [done|].
  intros H g1 g2 Hg1 Hg2 Heq. step_ok H. unfold checkGroupsDelimiterCollision in H. step_ok H.
  rewrite fold_m_nested in H1. destruct (rewrite_all_ok _ _ _ _ H1) as [_ Ha].
  apply Ha in Hg1, Hg2. rewrite Heq in Hg1. congruence.
Qed.

Lemma Client_validate_delimiter p id c : Client_validate p id c = Ok tt → check_delimiter p (c_GroupsDelimiter c) = Ok tt.
Proof. intros H. unfold Client_validate in H. step_ok H. by destruct a10. Qed.

Lemma Resource_validate_delimiter p id r :
  Resource_validate p id r = Ok tt → check_delimiter p (r_GroupsDelimiter r) = Ok tt.
Proof.
  intros H. unfold Resource_validate in H. step_ok H. unfold Resource_validate_row in H. step_ok H.
  lazymatch goal with E : check_delimiter _ _ = Ok ?u |- _ => by destruct u end.
Qed.

Lemma targets_fit p name g : p_Vocabulary p = None ∨ (∃ v, p_Vocabulary p = Some v ∧ validate_vocabulary (Some v) = Ok tt) →
  g ∈ groupKeyTargets p name → fits_vocabulary p g.
Proof.
  intros Hv. unfold groupKeyTargets, checkGroupKey, fits_vocabulary.
  destruct (SplitGroup name) as [[[s t] r]|] eqn:Hs.
  - destruct (is_star r); [by intros ?%elem_of_nil|].
    destruct (negb (is_star s || is_star t)).
    + destruct (p_Vocabulary p) as [v|]; simpl; [|done].
      destruct (fits v s t r) as [[]|] eqn:Hf; simpl; [|by intros ?%elem_of_nil].
      intros ->%list_elem_of_singleton. rewrite Hs. by apply fits_allowed.
    + destruct Hv as [->|(v&->&Hv)]; [done|]. simpl.
      destruct (checkWildcard v s t r) as [[]|]; simpl; [|by intros ?%elem_of_nil].
      destruct (expand v s t r) as [|e es] eqn:He.
      { destruct (expandIgnoringSensitivity v s t r);
          [|destruct (negb _ && _)]; by intros ?%elem_of_nil. }
      rewrite <- He. intros Hg.
      destruct (SplitGroup g) as [[[s' t'] r']|] eqn:Hsg; [|done].
      eapply expand_allowed; done.
  - intros ->%list_elem_of_singleton. rewrite Hs. by destruct (p_Vocabulary p).
Qed.

Lemma valid_vocabulary p : valid p →
  p_Vocabulary p = None ∨ (∃ v, p_Vocabulary p = Some v ∧ validate_vocabulary (Some v) = Ok tt).
Proof. intros Hv. pose proof (va_vocabulary p Hv). destruct (p_Vocabulary p) as [v|]; eauto. Qed.

Lemma valid_referenced p g : valid p → referenced p g → bound_group p g.
Proof.
  intros Hv [H|H1 H2|org o Ho Hg|org o team t Ho Ht Hg|key ws name c Hk Hc Hg|id c Hc Hg|id r Hr Hg|Hg].
  - by apply (va_claims p Hv).
  - by apply (va_lifetimes p Hv).
  - destruct (validateGitHubOrg_bound p org o) as [Hb _]; [by apply (va_github p Hv); eexists|done|].
    rewrite Forall_forall in Hb. auto.
  - destruct (validateGitHubOrg_bound p org o) as [_ Hb]; [by apply (va_github p Hv); eexists|done|].
    apply Hb in Ht as [_ Ht]. rewrite Forall_forall in Ht. auto.
  - pose proof (va_slack p Hv) as Hs. unfold validateSlack in Hs. apply for_each_ok in Hs.
    pose proof (for_keys_ok _ _ key Hs ltac:(by eexists)) as Hw.
    apply (validateSlackWorkspace_ok _ _ ws) in Hw as (_&Hok&_); [|done].
    apply Hok in Hc as [_ [_ Hf] _ _ _]. rewrite Forall_forall in Hf. auto.
  - apply (va_clients p Hv), Client_validate_ok in Hc as [_ _ [_ Hf] _ _ _ _ _].
    rewrite Forall_forall in Hf. auto.
  - apply (va_resources p Hv), Resource_validate_ok in Hr as [_ [_ Hf] _]. rewrite Forall_forall in Hf. auto.
  - pose proof (do_bound _ _ (ClientDocuments_validate_ok _ _ (va_documents p Hv))) as Hf.
    rewrite Forall_forall in Hf. auto.
Qed.

(** A matcher of a table that loads sets one condition, and a usable one. *)
Record matcher_ok (m : Matcher) : Prop := {
  ma_one : kinds m = 1;
  ma_github : ∀ gh, m_GitHub m = Some gh → gh ≠ no_github ∧
    (gm_Visibility gh = "" ∨ gm_Visibility gh ∈ visibilities);
  ma_sa : ∀ sa, m_ServiceAccount m = Some sa → sm_Namespace sa ≠ "" ∧ sm_Name sa ≠ "";
  ma_aws : ∀ a, m_AWS m = Some a → ValidAWSAccount (am_Account a) = true ∧
    Forall (λ pattern, is_Some (Match pattern "")) [am_Role a; am_Path a; am_Function a; am_OrgID a] }.

Lemma AWSMatcher_validate_ok oa a u : AWSMatcher_validate oa = Ok u → oa = Some a →
  ValidAWSAccount (am_Account a) = true ∧
  Forall (λ pattern, is_Some (Match pattern "")) [am_Role a; am_Path a; am_Function a; am_OrgID a].
Proof.
  intros H ->. unfold AWSMatcher_validate in H. apply bind_ok in H as (?&Ha&H).
  apply check_ok in Ha. apply for_each_ok in H. split; [done|].
  repeat (apply Forall_cons in H as [?%check_ok%bool_decide_eq_true H]).
  by repeat constructor.
Qed.

Lemma validate_matcher_ok i m : validate_matcher (i, m) = Ok tt → matcher_ok m.
Proof.
  unfold validate_matcher. destruct (kinds m) as [|[|n]] eqn:Hk; [done| |done].
  intros H. step_ok H. split; [done|..].
  - intros gh Hg. rewrite Hg in H0. step_ok H0.
    rewrite negb_true_iff, bool_decide_eq_false in H2. split; [done|].
    apply orb_true_iff in H0 as [?|?]; [left; by apply empty_true | right; by apply str_in_true].
  - intros sa Hs. rewrite Hs in H1. apply check_ok in H1.
    by rewrite negb_true_iff, orb_false_iff, !empty_false in H1.
  - intros a1 Ha. by eapply AWSMatcher_validate_ok.
Qed.

Lemma validate_key_ok p name : validate_key p name = Ok tt →
  Forall (λ a, is_Some (Domain a)) (g_Members (group_of p name)) ∧
  Forall matcher_ok (g_Matchers (group_of p name)) ∧
  groupKeyTargets p name ≠ [].
Proof.
  intros H. unfold validate_key in H. step_ok H. clear H. unfold Group_validate in H0. step_ok H0.
  split; [|split].
  - eapply Forall_impl; [exact H2|]. intros x Hx. simpl in Hx. by apply check_ok, bool_decide_eq_true in Hx.
  - rewrite Forall_forall in H0. apply Forall_forall. intros m Hm.
    apply list_elem_of_lookup in Hm as [i Hi]. apply (validate_matcher_ok i), H0.
    apply list_elem_of_lookup. exists i. by rewrite list_lookup_imap, Hi.
  - unfold groupKeyTargets. rewrite H1.
    unfold checkGroupKey in H1. destruct (SplitGroup name) as [[[s t] r]|]; [|by simplify_eq].
    destruct (is_star r); [done|]. destruct (negb (is_star s || is_star t)).
    + destruct (p_Vocabulary p); [step_ok H1|]; by simplify_eq.
    + destruct (p_Vocabulary p) as [v|]; [|done]. step_ok H1.
      destruct (expand v s t r); [|by simplify_eq].
      destruct (expandIgnoringSensitivity v s t r); [done|]. by destruct (_ && _).
Qed.

(** ** A policy that loads, for the witnesses *)

Definition sample_policy : Policy := {|
  Version := 1;
  p_Vocabulary := Some sample_vocabulary;
  Groups := {["*:k8s:viewer" := mkGroup ["staff@example.com"] [];
              "prod:k8s:admin" := mkGroup ["sre@example.com"] [];
              "rung:sre" := mkGroup ["sre@example.com"] [];
              "devel:k8s:operator" := mkGroup [] [mkMatcher None (Some (mkServiceAccountMatcher "" "ci" "deployer")) None "" ""]]};
  p_Claims := {["prod:k8s:admin" := [("tier", VStr "gold")]; "rung:sre" := [("tier", VStr "gold")]]};
  Lifetimes := {["default" := 36000%Z; "prod:k8s:admin" := 3600%Z]};
  Resources := {["https://mcp.example.com/" := mkResource "MCP" "" ["rung:sre"] 0 0 true "" no_override ""]};
  p_ClientDocuments := mkClientDocuments ["claude.ai"] ["rung:sre"] 900 no_override;
  Clients := {["k8s:prod" := mkClient "public" "Production" "" "" ["http://localhost:8000"] [] ["prod:k8s:admin"]
                 1800 false "" "" no_override "."]};
  GitHub := {["example" := mkGitHubOrg ["rung:sre"] {["sre" := mkGitHubTeam ["rung:sre"] []]} ["owner-bot"]]};
  People := {["ada" := ["ada@example.com"]]};
  Slack := {["team" := mkSlackWorkspace {["oncall" := mkSlackChannel true "strict" [] ["rung:sre"] ""]}]} |}.

Lemma sample_policy_loads : Validate sample_policy = Ok tt.
Proof. by vm_compute. Qed.

(** ** The properties *)

(** C3: a policy that loads has no dangling reference: every group a claims or
    lifetimes row, a GitHub or Slack binding, a client, a resource or the
    documents block names is declared, and is a real grant of the vocabulary. *)
Theorem Validate_references p g (Hv : Validate p = Ok tt) (Hg : referenced p g) :
  is_Some (Groups p !! g) ∧ fits_vocabulary p g.
Proof. by apply valid_referenced; [apply Validate_valid|]. Qed.

Lemma Validate_references_witness : is_Some (Groups sample_policy !! "rung:sre") ∧ fits_vocabulary sample_policy "rung:sre".
Proof.
  apply Validate_references; [by vm_compute|].
  apply (RefResource _ _ "https://mcp.example.com/" (mkResource "MCP" "" ["rung:sre"] 0 0 true "" no_override "")).
  - by vm_compute.
  - by left.
Defined.

(** in a policy that loads every declared key stands for at least one
    concrete name, and every name any key stands for is a grant the vocabulary
    allows (or no grant at all). *)
Theorem Validate_targets p name (Hv : Validate p = Ok tt) (Hn : is_Some (Groups p !! name)) :
  groupKeyTargets p name ≠ [] ∧ Forall (fits_vocabulary p) (groupKeyTargets p name).
Proof.
  apply Validate_valid in Hv. split; [by apply validate_key_ok, va_keys|].
  apply Forall_forall. intros g. apply targets_fit. by apply valid_vocabulary.
Qed.

Lemma Validate_targets_witness :
  groupKeyTargets sample_policy "*:k8s:viewer" = ["devel:k8s:viewer"; "stage:k8s:viewer"] ∧
  Forall (fits_vocabulary sample_policy) (groupKeyTargets sample_policy "*:k8s:viewer").
Proof.
  split; [by vm_compute|]. apply Validate_targets; [by vm_compute|].
  exists (mkGroup ["staff@example.com"] []). by vm_compute.
Defined.

(** C29: in a policy that loads every matcher sets exactly one condition, no CI
    matcher is the empty one that admits every job, a ServiceAccount matcher
    pins a namespace and a name, and an AWS matcher pins a 12-digit account with
    patterns that compile. *)
Theorem Validate_matchers p name group (Hv : Validate p = Ok tt) (Hn : Groups p !! name = Some group) :
  Forall matcher_ok (g_Matchers group) ∧ Forall (λ a, is_Some (Domain a)) (g_Members group).
Proof.
  apply Validate_valid in Hv. destruct (validate_key_ok p name) as (Ha&Hm&_).
  { apply va_keys; [done|by eexists]. }
  unfold group_of in Ha, Hm. by rewrite Hn in Ha, Hm.
Qed.

Lemma Validate_matchers_witness :
  Forall matcher_ok [mkMatcher None (Some (mkServiceAccountMatcher "" "ci" "deployer")) None "" ""].
Proof.
  apply (Validate_matchers sample_policy "devel:k8s:operator"
    (mkGroup [] [mkMatcher None (Some (mkServiceAccountMatcher "" "ci" "deployer")) None "" ""])); by vm_compute.
Defined.

(** in a policy that loads, rewriting the separator for an audience keeps
    every two group names a token can carry distinct. *)
Theorem Validate_delimiters p (Hv : Validate p = Ok tt) :
  (∀ id c, Clients p !! id = Some c →
    ∀ g1 g2, g1 ∈ declared_targets p → g2 ∈ declared_targets p →
    RewriteGroupsDelimiter g1 (c_GroupsDelimiter c) = RewriteGroupsDelimiter g2 (c_GroupsDelimiter c) → g1 = g2) ∧
  (∀ id r, Resources p !! id = Some r →
    ∀ g1 g2, g1 ∈ declared_targets p → g2 ∈ declared_targets p →
    RewriteGroupsDelimiter g1 (r_GroupsDelimiter r) = RewriteGroupsDelimiter g2 (r_GroupsDelimiter r) → g1 = g2).
Proof.
  apply Validate_valid in Hv. split; intros id x Hx; apply collision_free.
  - by eapply Client_validate_delimiter, va_clients.
  - by eapply Resource_validate_delimiter, va_resources.
Qed.

Lemma Validate_delimiters_witness :
  RewriteGroupsDelimiter "prod:k8s:admin" "." = "prod.k8s.admin" ∧
  ∀ id c, Clients sample_policy !! id = Some c →
    ∀ g1 g2, g1 ∈ declared_targets sample_policy → g2 ∈ declared_targets sample_policy →
    RewriteGroupsDelimiter g1 (c_GroupsDelimiter c) = RewriteGroupsDelimiter g2 (c_GroupsDelimiter c) → g1 = g2.
Proof. split; [done|]. apply Validate_delimiters. by vm_compute. Defined.

(** in a policy that loads every client, resource and document client is
    gated by at least one declared group; a confidential client names a secret,
    an exchange target has no landing pages, only a public client trades its
    sign-in, no sign-out page is a redirect, what the sign-in page shows carries
    no control character, a resource is an absolute URI without a fragment whose
    cap is within seven days, and the origins are plain hosts. *)
Theorem Validate_gates p (Hv : Validate p = Ok tt) :
  map_Forall (λ _, client_ok p) (Clients p) ∧
  map_Forall (resource_ok p) (Resources p) ∧
  documents_ok p (p_ClientDocuments p).
Proof.
  apply Validate_valid in Hv. split; [|split].
  - intros id c Hc. by eapply Client_validate_ok, va_clients.
  - intros id r Hr. by eapply Resource_validate_ok, va_resources.
  - by apply ClientDocuments_validate_ok, va_documents.
Qed.

Lemma Validate_gates_witness : map_Forall (λ _, client_ok sample_policy) (Clients sample_policy).
Proof. apply Validate_gates. by vm_compute. Defined.
