(* ===== verification/Evaluate.v ===== *)
(** * Evaluate: resolving a proof into groups, claims and a lifetime

    [policy/evaluate.go] and the session limits of [policy/resource.go].  The
    breadth-first walk over the implies graph runs on fuel; [walk_total] says
    the fuel computed from the policy is always enough, so [Evaluate] is a total
    function.  The theorems say the groups held are exactly the least set closed
    under direct membership and inheritance ([holds]), that every reason listed
    is a real one and none is missing, and what bounds a lifetime. *)

From S2P Require Import Prelude GoStrings Names Vocabulary Claims Policy SlackPolicy Validate.

Implicit Types (name role : string).

(** [policy/evaluate.go:type Held] *)
Record Held := mkHeld { h_Group : string; h_Via : list string; h_Key : string; h_Implies : string }.

#[global] Instance Held_eq_dec : EqDecision Held.
Proof. solve_decision. Defined.

(** [policy/evaluate.go:type Result] *)
Record Result := mkResult {
  res_Groups : list string; res_Held : list Held; res_Claims : list (string * value); res_Lifetime : Z }.

(** [policy/evaluate.go:Result.Has] *)
Definition Has (r : Result) (group : string) : bool := str_in group (res_Groups r).

(** [policy/evaluate.go:Policy.effectiveMembers] *)
Definition effectiveMembers (p : Policy) name : list string := g_Members (group_of p name).

(** [policy/evaluate.go:Policy.lifetimeOf] *)
Definition lifetimeOf (p : Policy) (groups : list string) : Z :=
  let shortest := foldl (λ shortest name,
    match Lifetimes p !! name with
    | Some d => if ((shortest =? 0) || (d <? shortest))%Z then d else shortest
    | None => shortest
    end) 0%Z groups in
  if (shortest =? 0)%Z then default 0%Z (Lifetimes p !! LifetimeDefault) else shortest.

(** What put the caller in a key: the directory groups matched, when the hub's
    answer may be acted on, then the matchers. *)
Definition via_of (p : Policy) (inp : Input) name : list string :=
  let confirmed : gset string := list_to_set (ToLower <$> in_DirectoryGroups inp) in
  (if in_Authoritative inp
   then List.filter (λ address, bool_decide (ToLower address ∈ confirmed)) (effectiveMembers p name)
   else []) ++
  (Describe <$> List.filter (λ m, matches m inp) (g_Matchers (group_of p name))).

(** [held] and [frontier]. *)
Notation reasons := (gmap string (list Held)) (only parsing).
Definition reasons_of (held : reasons) g : list Held := default [] (held !! g).
Definition add_reason (held : reasons) (h : Held) : reasons :=
  <[h_Group h := reasons_of held (h_Group h) ++ [h]]> held.

(** One concrete name a matched key stands for. *)
Definition hold_target name via (st : reasons * list string) concrete : reasons * list string :=
  let '(held, frontier) := st in
  (add_reason held (mkHeld concrete via name ""),
   match held !! concrete with Some _ => frontier | None => frontier ++ [concrete] end).

(** One key of the groups table. *)
Definition hold_key (p : Policy) (inp : Input) (st : reasons * list string) name : reasons * list string :=
  match via_of p inp name with
  | [] => st
  | via => foldl (hold_target name via) st (groupKeyTargets p name)
  end.

(** The grants one grant implies, one hop away. *)
Definition implied_from (v : Vocabulary) g : list string :=
  match SplitGroup g with
  | None => []
  | Some (scope, thing, role) =>
      match Things v !! thing with
      | None => []
      | Some spec => (λ r, grant scope thing r) <$> implies_of (Roles spec) role
      end
  end.

Record walk_state := mkWalk { wk_held : reasons; wk_reached : gset string; wk_queue : list string }.

(** The body of the loop over the implied roles of [g]. *)
Definition reach g (st : walk_state) implied : walk_state :=
  let held := add_reason (wk_held st) (mkHeld implied [] "" g) in
  if bool_decide (implied ∈ wk_reached st) then mkWalk held (wk_reached st) (wk_queue st)
  else mkWalk held ({[implied]} ∪ wk_reached st) (wk_queue st ++ [implied]).

(** The queue's loop, on fuel. *)
Fixpoint walk (fuel : nat) (v : Vocabulary) (st : walk_state) : option reasons :=
  match wk_queue st with
  | [] => Some (wk_held st)
  | g :: queue =>
      match fuel with
      | 0 => None
      | S fuel => walk fuel v (foldl (reach g) (mkWalk (wk_held st) (wk_reached st) queue) (implied_from v g))
      end
  end.

(** Every grant the walk could add: the roles a thing's ladder implies, at the
    scopes and things of the frontier. *)
Definition ladder_roles (spec : ThingSpec) : list string :=
  mjoin (Implies <$> (map_to_list (Roles spec)).*2).
Definition reachable_from (v : Vocabulary) g : list string :=
  match SplitGroup g with
  | None => []
  | Some (scope, thing, _) =>
      match Things v !! thing with
      | None => []
      | Some spec => (λ r, grant scope thing r) <$> ladder_roles spec
      end
  end.
Definition universe (v : Vocabulary) (frontier : list string) : gset string :=
  list_to_set (mjoin (reachable_from v <$> frontier)).
Definition walk_fuel (v : Vocabulary) (frontier : list string) : nat :=
  length frontier + size (universe v frontier).

(** Direct holds, then inheritance. *)
Definition direct (p : Policy) (inp : Input) : reasons * list string :=
  foldl (hold_key p inp) (∅, []) (sorted_keys (Groups p)).

Definition held_by (p : Policy) (inp : Input) : reasons :=
  let '(held, frontier) := direct p inp in
  match p_Vocabulary p with
  | None => held
  | Some v => default held (walk (walk_fuel v frontier) v (mkWalk held (list_to_set frontier) frontier))
  end.

(** The fragments of the groups held, merged, and the group names. *)
Definition claims_of (p : Policy) (groups : list string) : list (string * value) :=
  let claims := foldl (λ claims name,
    match p_Claims p !! name with
    | Some fragment => (mergeFragment claims fragment "").1
    | None => claims
    end) [] groups in
  match groups with
  | [] => claims
  | _ =>
      let asAny := VStr <$> groups in
      match assoc "groups" claims with
      | Some (VList existing) => assoc_set "groups" (VList (union existing asAny)) claims
      | _ => assoc_set "groups" (VList asAny) claims
      end
  end.

(** [policy/evaluate.go:Policy.Evaluate] *)
Definition Evaluate (p : Policy) (inp : Input) : Result :=
  let held := held_by p inp in
  let groups := sorted_keys held in
  mkResult groups (mjoin (reasons_of held <$> groups)) (claims_of p groups) (lifetimeOf p groups).

(** [policy/evaluate.go:Client.Title] *)
Definition Client_Title (c : Client) id : string :=
  let name := TrimSpace (c_DisplayName c) in
  if negb (empty name) then name
  else match CutPrefix id "k8s:" with
       | Some cluster => if negb (empty cluster) then "Kubernetes — " +:+ cluster else id
       | None => id
       end.

(** [policy/evaluate.go:Client.Cap] *)
Definition Cap (c : Client) (lifetime : Z) : Z :=
  let capped := c_TTLCap c in
  if ((0 <? capped) && ((lifetime =? 0) || (capped <? lifetime)))%Z then capped else lifetime.

(** [policy/evaluate.go:Client.Admits] *)
Definition Client_Admits (c : Client) (r : Result) : bool := existsb (Has r) (c_Requires c).

(** [policy/resource.go:Resource.Admits] *)
Definition Resource_Admits (r : Resource) (result : Result) : bool := existsb (Has result) (r_Requires r).

(** [policy/resource.go:Resource.Title] *)
Definition Resource_Title (r : Resource) id : string :=
  let name := TrimSpace (r_DisplayName r) in if negb (empty name) then name else id.

(** [policy/resource.go:Resource.CheckAbsoluteCap] *)
Definition CheckAbsoluteCap (r : Resource) (global : Z) : bool :=
  negb ((global <? r_AbsoluteCap r) && (0 <? global) && negb (r_ReadOnly r))%Z.

(** [policy/resource.go:Resource.AbsoluteFor] *)
Definition AbsoluteFor (r : Resource) (global : Z) : Z :=
  let capped := r_AbsoluteCap r in
  if ((capped <=? 0) || (global <=? 0))%Z then global
  else if (capped <=? global)%Z then capped
  else if negb (r_ReadOnly r) then global
  else Z.max global (Z.min capped MaxAbsoluteCap).

(** [policy/resource.go:EffectiveAbsolute] *)
Definition EffectiveAbsolute (global : Z) (touched : list string) (lookup : string → option Resource) : Z :=
  if (global <=? 0)%Z || bool_decide (touched = []) then global
  else foldl (λ out id,
    let limit := if negb (empty id) then
        match lookup id with Some r => AbsoluteFor r global | None => global end
      else global in
    if ((out =? 0) || (limit <? out))%Z then limit else out) 0%Z touched.

(** ** Lemmas: the table of reasons *)

Lemma reasons_of_add held h x h' :
  h' ∈ reasons_of (add_reason held h) x ↔ h' ∈ reasons_of held x ∨ (h' = h ∧ x = h_Group h).
Proof.
  unfold add_reason, reasons_of. destruct (decide (h_Group h = x)) as [<-|Hne].
  - rewrite lookup_insert_eq. simpl. rewrite elem_of_app, list_elem_of_singleton. naive_solver.
  - rewrite lookup_insert_ne by done. naive_solver.
Qed.

Lemma is_Some_add held h x : is_Some (add_reason held h !! x) ↔ is_Some (held !! x) ∨ x = h_Group h.
Proof.
  unfold add_reason. destruct (decide (h_Group h = x)) as [<-|Hne].
  - rewrite lookup_insert_eq. split; [by auto|by eexists].
  - rewrite lookup_insert_ne by done. naive_solver.
Qed.

(** ** Lemmas: direct holds *)

(** The caller is in a key, and the key stands for [g]. *)
Definition matched (p : Policy) (inp : Input) name g : Prop :=
  is_Some (Groups p !! name) ∧ via_of p inp name ≠ [] ∧ g ∈ groupKeyTargets p name.

Definition events (p : Policy) (inp : Input) name : list Held :=
  match via_of p inp name with
  | [] => []
  | via => (λ concrete, mkHeld concrete via name "") <$> groupKeyTargets p name
  end.

Definition add_event (st : reasons * list string) (h : Held) : reasons * list string :=
  (add_reason st.1 h,
   match st.1 !! h_Group h with Some _ => st.2 | None => st.2 ++ [h_Group h] end).

Lemma hold_key_events p inp st name : hold_key p inp st name = foldl add_event st (events p inp name).
Proof.
  unfold hold_key, events. destruct (via_of p inp name) as [|a via]; [done|].
  generalize (groupKeyTargets p name). intros l. revert st.
  induction l as [|c l IH]; intros [held frontier]; simpl; [done|]. apply IH.
Qed.

Lemma direct_events p inp :
  direct p inp = foldl add_event (∅, []) (mjoin (events p inp <$> sorted_keys (Groups p))).
Proof.
  unfold direct. generalize (sorted_keys (Groups p)) as l, (∅ : reasons, [] : list string) as st.
  induction l as [|name l IH]; intros st; [done|].
  change (mjoin (events p inp <$> name :: l)) with (events p inp name ++ mjoin (events p inp <$> l)).
  rewrite foldl_app. simpl. by rewrite IH, hold_key_events.
Qed.

Lemma elem_of_all_events p inp h :
  h ∈ mjoin (events p inp <$> sorted_keys (Groups p)) ↔
  ∃ name g, matched p inp name g ∧ h = mkHeld g (via_of p inp name) name "".
Proof.
  unfold matched, events. rewrite list_elem_of_join. split.
  - intros (l&Hh&(name&->&Hn)%list_elem_of_fmap). apply elem_of_sorted_keys in Hn.
    destruct (via_of p inp name) as [|a via] eqn:Hv; [by apply elem_of_nil in Hh|].
    apply list_elem_of_fmap in Hh as (c&->&Hc). exists name, c. by rewrite Hv.
  - intros (name&g&(Hn&Hv&Hg)&->). eexists. split.
    2: { apply list_elem_of_fmap_2. by apply elem_of_sorted_keys. }
    simpl. destruct (via_of p inp name) eqn:?; [done|]. apply list_elem_of_fmap. eauto.
Qed.

Lemma add_events_spec l st :
  let st' := foldl add_event st l in
  (∀ x h, h ∈ reasons_of st'.1 x ↔ h ∈ reasons_of st.1 x ∨ (h ∈ l ∧ x = h_Group h)) ∧
  (∀ x, is_Some (st'.1 !! x) ↔ is_Some (st.1 !! x) ∨ ∃ h, h ∈ l ∧ x = h_Group h) ∧
  ((∀ x, is_Some (st.1 !! x) ↔ x ∈ st.2) → ∀ x, is_Some (st'.1 !! x) ↔ x ∈ st'.2).
Proof.
  revert st. induction l as [|e l IH]; intros st; simpl.
  { split; [|split]; [|..|done]; intros; setoid_rewrite elem_of_nil; naive_solver. }
  destruct (IH (add_event st e)) as (H1&H2&H3). split; [|split].
  - intros x h. rewrite H1. simpl. rewrite reasons_of_add, elem_of_cons. naive_solver.
  - intros x. rewrite H2. simpl. rewrite is_Some_add. setoid_rewrite elem_of_cons. naive_solver.
  - intros Hst. apply H3. intros x. simpl. rewrite is_Some_add, Hst.
    destruct (st.1 !! h_Group e) eqn:He.
    + split; [|by auto]. intros [?| ->]; [done|]. apply Hst. by eexists.
    + rewrite elem_of_app, list_elem_of_singleton. done.
Qed.

Lemma direct_spec p inp :
  (∀ x h, h ∈ reasons_of (direct p inp).1 x ↔
    ∃ name, matched p inp name x ∧ h = mkHeld x (via_of p inp name) name "") ∧
  (∀ x, is_Some ((direct p inp).1 !! x) ↔ x ∈ (direct p inp).2) ∧
  (∀ x, x ∈ (direct p inp).2 ↔ ∃ name, matched p inp name x).
Proof.
  rewrite direct_events.
  destruct (add_events_spec (mjoin (events p inp <$> sorted_keys (Groups p))) (∅, [])) as (H1&H2&H3).
  simpl in *. setoid_rewrite elem_of_all_events in H1. setoid_rewrite elem_of_all_events in H2.
  assert (∀ x, is_Some ((∅ : reasons) !! x) ↔ x ∈ ([] : list string)) as H0.
  { intros x. rewrite elem_of_nil, lookup_empty. split; [by intros []|done]. }
  split; [|split].
  - intros x h. rewrite H1. unfold reasons_of at 1. rewrite lookup_empty. simpl. rewrite elem_of_nil.
    split.
    + intros [[]|((name&g&?&->)&->)]. eauto.
    + intros (name&?&->). right. split; [by eauto|done].
  - by apply H3.
  - intros x. rewrite <- (H3 H0), H2, lookup_empty. split.
    + intros [[? H]|(h&(name&g&?&->)&->)]; [done|]. eauto.
    + intros (name&?). right. exists (mkHeld x (via_of p inp name) name ""). split; [by eauto|done].
Qed.

(** ** Lemmas: the inheritance walk *)

Lemma reach_all_spec g l st :
  let st' := foldl (reach g) st l in
  (∀ x h, h ∈ reasons_of (wk_held st') x ↔ h ∈ reasons_of (wk_held st) x ∨ (x ∈ l ∧ h = mkHeld x [] "" g)) ∧
  (∀ x, is_Some (wk_held st' !! x) ↔ is_Some (wk_held st !! x) ∨ x ∈ l) ∧
  (∀ x, x ∈ wk_reached st' ↔ x ∈ wk_reached st ∨ x ∈ l) ∧
  (∀ x, x ∈ wk_queue st' ↔ x ∈ wk_queue st ∨ (x ∈ l ∧ x ∉ wk_reached st)).
Proof.
  revert st. induction l as [|y l IH]; intros st; simpl.
  { repeat split; intros; rewrite ?elem_of_nil in *; naive_solver. }
  destruct (IH (reach g st y)) as (H1&H2&H3&H4).
  assert (wk_held (reach g st y) = add_reason (wk_held st) (mkHeld y [] "" g)) as Hh.
  { unfold reach. by case_bool_decide. }
  assert (∀ x, x ∈ wk_reached (reach g st y) ↔ x ∈ wk_reached st ∨ x = y) as Hr.
  { intros x. unfold reach. case_bool_decide; simpl; [|set_solver]. naive_solver. }
  assert (∀ x, x ∈ wk_queue (reach g st y) ↔ x ∈ wk_queue st ∨ (x = y ∧ y ∉ wk_reached st)) as Hq.
  { intros x. unfold reach. case_bool_decide; simpl; [naive_solver|].
    rewrite elem_of_app, list_elem_of_singleton. naive_solver. }
  split; [|split; [|split]].
  - intros x h. rewrite H1, Hh, reasons_of_add, elem_of_cons. simpl. naive_solver.
  - intros x. rewrite H2, Hh, is_Some_add, elem_of_cons. simpl. naive_solver.
  - intros x. rewrite H3, Hr, elem_of_cons. naive_solver.
  - intros x. rewrite H4, Hr, Hq, elem_of_cons. destruct (decide (x = y)); naive_solver.
Qed.

(** What is left to do: the queue, and what could still enter it. *)
Definition work (U : gset string) (st : walk_state) : nat := length (wk_queue st) + size (U ∖ wk_reached st).

Lemma reach_all_work U g l st : (∀ x, x ∈ l → x ∈ U) → work U (foldl (reach g) st l) = work U st.
Proof.
  revert st. induction l as [|y l IH]; intros st Hl; simpl; [done|].
  rewrite IH by (intros; apply Hl; by right). unfold work, reach.
  case_bool_decide as Hy; simpl; [done|].
  assert (y ∈ U) as HyU by (apply Hl; by left).
  rewrite length_app. simpl.
  assert (U ∖ wk_reached st = {[y]} ∪ (U ∖ ({[y]} ∪ wk_reached st))) as ->.
  { apply set_eq. intros x. destruct (decide (x = y)); set_solver. }
  rewrite (size_union (C := gset string) {[y]}) by set_solver. rewrite size_singleton. lia.
Qed.

(** The grants inheritance reaches from the seeds. *)
Inductive closure (v : Vocabulary) (seeds : list string) : string → Prop :=
| closure_seed g : g ∈ seeds → closure v seeds g
| closure_step g x : closure v seeds g → x ∈ implied_from v g → closure v seeds x.

Lemma closure_family v seeds g s t r : closure v seeds g → SplitGroup g = Some (s, t, r) →
  ∃ g0 r0, g0 ∈ seeds ∧ SplitGroup g0 = Some (s, t, r0).
Proof.
  intros Hc. revert s t r. induction Hc as [g Hg|g x Hc IH Hx]; intros s t r Hs; [eauto|].
  unfold implied_from in Hx. destruct (SplitGroup g) as [[[s' t'] r']|]; [|by apply elem_of_nil in Hx].
  destruct (Things v !! t'); [|by apply elem_of_nil in Hx].
  apply list_elem_of_fmap in Hx as (r''&->&_). apply SplitGroup_grant_inv in Hs as (->&->&_). eauto.
Qed.

Lemma implied_in_universe v seeds g x : closure v seeds g → x ∈ implied_from v g → x ∈ universe v seeds.
Proof.
  intros Hc Hx. unfold implied_from in Hx. destruct (SplitGroup g) as [[[s t] r]|] eqn:Hg; [|by apply elem_of_nil in Hx].
  destruct (closure_family _ _ _ _ _ _ Hc Hg) as (g0&r0&Hg0&Hs0).
  destruct (Things v !! t) as [spec|] eqn:Ht; [|by apply elem_of_nil in Hx].
  apply list_elem_of_fmap in Hx as (role&->&Hr).
  unfold universe. apply elem_of_list_to_set, list_elem_of_join.
  exists (reachable_from v g0). split; [|by apply list_elem_of_fmap_2].
  unfold reachable_from. rewrite Hs0, Ht. apply list_elem_of_fmap_2.
  unfold implies_of in Hr. destruct (Roles spec !! r) as [rspec|] eqn:Hrs; [|by apply elem_of_nil in Hr].
  unfold ladder_roles. apply list_elem_of_join. exists (Implies rspec). split; [done|].
  apply list_elem_of_fmap_2. apply list_elem_of_fmap. exists (r, rspec). split; [done|].
  by apply elem_of_map_to_list.
Qed.

(** The loop's invariant, over the seeds and what they are held for. *)
Record walk_inv (v : Vocabulary) (D : reasons) (seeds : list string) (st : walk_state) : Prop := {
  wi_sound : ∀ x h, h ∈ reasons_of (wk_held st) x →
    h ∈ reasons_of D x ∨ ∃ g, closure v seeds g ∧ x ∈ implied_from v g ∧ h = mkHeld x [] "" g;
  wi_kept : ∀ x h, h ∈ reasons_of D x → h ∈ reasons_of (wk_held st) x;
  wi_dom : ∀ x, is_Some (wk_held st !! x) ↔ x ∈ wk_reached st;
  wi_reached : ∀ x, x ∈ wk_reached st → closure v seeds x;
  wi_queue : ∀ x, x ∈ wk_queue st → x ∈ wk_reached st;
  wi_seeds : ∀ x, x ∈ seeds → x ∈ wk_reached st;
  wi_done : ∀ g x, g ∈ wk_reached st → g ∉ wk_queue st → x ∈ implied_from v g →
    x ∈ wk_reached st ∧ mkHeld x [] "" g ∈ reasons_of (wk_held st) x }.

Lemma walk_inv_start v D seeds : (∀ x, is_Some (D !! x) ↔ x ∈ seeds) →
  walk_inv v D seeds (mkWalk D (list_to_set seeds) seeds).
Proof.
  intros HD. split; simpl; try setoid_rewrite elem_of_list_to_set; eauto using closure. naive_solver.
Qed.

Lemma walk_inv_step v D seeds held reached g queue :
  walk_inv v D seeds (mkWalk held reached (g :: queue)) →
  walk_inv v D seeds (foldl (reach g) (mkWalk held reached queue) (implied_from v g)).
Proof.
  intros [Hs Hk Hd Hr Hq Hse Hdo]. simpl in *.
  destruct (reach_all_spec g (implied_from v g) (mkWalk held reached queue)) as (E1&E2&E3&E4). simpl in *.
  assert (g ∈ reached) as Hg by (apply Hq; by left).
  split.
  - intros x h. rewrite E1. intros [?|[??]]; [by apply Hs|]. right. exists g. auto.
  - intros x h Hh. rewrite E1. auto.
  - intros x. by rewrite E2, E3, Hd.
  - intros x. rewrite E3. intros [?|?]; [auto|]. eapply closure_step; [|done]. auto.
  - intros x. rewrite E4, E3. intros [?|[??]]; [|auto]. left. apply Hq. by right.
  - intros x ?. rewrite E3. auto.
  - intros g' x. rewrite E3, E4, E3, E1. intros Hg' Hnq Hx.
    destruct (decide (g' = g)) as [->|Hne]; [auto|].
    destruct (decide (g' ∈ reached)) as [Hin|Hout]; [|naive_solver].
    assert (g' ∉ g :: queue) as Hn by (rewrite elem_of_cons; naive_solver).
    destruct (Hdo g' x Hin Hn Hx). auto.
Qed.

(** Enough fuel gives the result. *)
Lemma walk_total fuel v D seeds st : walk_inv v D seeds st → work (universe v seeds) st ≤ fuel →
  ∃ reached, ∃ held, walk fuel v st = Some held ∧ walk_inv v D seeds (mkWalk held reached []).
Proof.
  revert st. induction fuel as [|fuel IH]; intros [held reached queue] Hi Hw; destruct queue as [|g queue]; simpl.
  - eauto.
  - unfold work in Hw. simpl in Hw. lia.
  - eauto.
  - apply IH; [by apply walk_inv_step|]. rewrite reach_all_work.
    + unfold work in *. simpl in *. lia.
    + intros x. apply implied_in_universe. apply (wi_reached _ _ _ _ Hi), (wi_queue _ _ _ _ Hi). by left.
Qed.

(** ** The specification: what a proof holds, and why *)

Inductive holds (p : Policy) (inp : Input) : string → Prop :=
| holds_key name g : matched p inp name g → holds p inp g
| holds_implied v g x : p_Vocabulary p = Some v → holds p inp g → x ∈ implied_from v g → holds p inp x.

Inductive reason (p : Policy) (inp : Input) : Held → Prop :=
| reason_key name g : matched p inp name g → reason p inp (mkHeld g (via_of p inp name) name "")
| reason_implied v g x : p_Vocabulary p = Some v → holds p inp g → x ∈ implied_from v g →
    reason p inp (mkHeld x [] "" g).

Lemma holds_closure p inp v : p_Vocabulary p = Some v →
  ∀ x, holds p inp x ↔ closure v (direct p inp).2 x.
Proof.
  intros Hv x. destruct (direct_spec p inp) as (_&_&Hd). split.
  - induction 1 as [name g Hm|v' g x Hv' _ IH Hx]; [apply closure_seed, Hd; eauto|].
    rewrite Hv in Hv'. injection Hv' as <-. by eapply closure_step.
  - induction 1 as [g Hg|g x _ IH Hx]; [|by eapply holds_implied].
    apply Hd in Hg as [name ?]. by eapply holds_key.
Qed.

Lemma holds_flat p inp : p_Vocabulary p = None → ∀ x, holds p inp x ↔ ∃ name, matched p inp name x.
Proof.
  intros Hv x. split; [|by intros [? ?]; eapply holds_key].
  induction 1 as [|v' ??? Hv']; [by eauto|congruence].
Qed.

Lemma held_by_flat p inp : p_Vocabulary p = None → held_by p inp = (direct p inp).1.
Proof. intros Hv. unfold held_by. destruct (direct p inp). by rewrite Hv. Qed.

Lemma held_by_walk p inp v : p_Vocabulary p = Some v →
  ∃ reached, walk (walk_fuel v (direct p inp).2) v
      (mkWalk (direct p inp).1 (list_to_set (direct p inp).2) (direct p inp).2) = Some (held_by p inp) ∧
    walk_inv v (direct p inp).1 (direct p inp).2 (mkWalk (held_by p inp) reached []).
Proof.
  intros Hv. destruct (direct_spec p inp) as (_&Hdom&_). unfold held_by.
  destruct (direct p inp) as [D seeds]. rewrite Hv. simpl in *.
  destruct (walk_total (walk_fuel v seeds) v D seeds (mkWalk D (list_to_set seeds) seeds)) as (reached&held&->&Hi).
  - by apply walk_inv_start.
  - unfold work, walk_fuel. simpl. apply Nat.add_le_mono_l, subseteq_size. set_solver.
  - simpl. eauto.
Qed.

Lemma held_by_spec p inp :
  (∀ x, is_Some (held_by p inp !! x) ↔ holds p inp x) ∧
  (∀ x h, h ∈ reasons_of (held_by p inp) x ↔ reason p inp h ∧ x = h_Group h).
Proof.
  destruct (direct_spec p inp) as (Hr&Hdom&Hd).
  destruct (p_Vocabulary p) as [v|] eqn:Hv.
  - destruct (held_by_walk p inp v Hv) as (reached&_&Hi). pose proof (holds_closure p inp v Hv) as Hc.
    assert (∀ x, holds p inp x → x ∈ reached) as Hin.
    { intros x Hx. apply Hc in Hx. induction Hx as [g Hg|g x _ IH Hx]; [by apply (wi_seeds _ _ _ _ Hi)|].
      by apply (wi_done _ _ _ _ Hi g x IH); [apply not_elem_of_nil|]. }
    split.
    + intros x. rewrite (wi_dom _ _ _ _ Hi x). simpl. split; [|apply Hin]. intros Hx.
      by apply Hc, (wi_reached _ _ _ _ Hi).
    + intros x h. split.
      * intros [Hh|(g&Hg&Hx&->)]%(wi_sound _ _ _ _ Hi).
        { apply Hr in Hh as (name&?&->). split; [by constructor|done]. }
        split; [|done]. eapply reason_implied; [done|by apply Hc|done].
      * intros [[name g Hm|v' g y Hv' Hg Hy] ->]; simpl.
        { apply (wi_kept _ _ _ _ Hi), Hr. eauto. }
        rewrite Hv in Hv'. injection Hv' as <-.
        by apply (wi_done _ _ _ _ Hi g y (Hin _ Hg)); [apply not_elem_of_nil|].
  - rewrite held_by_flat by done. split.
    + intros x. by rewrite Hdom, Hd, holds_flat.
    + intros x h. rewrite Hr. split.
      * intros (name&?&->). split; [by constructor|done].
      * intros [[name g Hm|v' g y Hv' _ _] ->]; [eauto|congruence].
Qed.

Lemma elem_of_Evaluate p inp g : g ∈ res_Groups (Evaluate p inp) ↔ holds p inp g.
Proof. simpl. rewrite elem_of_sorted_keys. apply held_by_spec. Qed.

Lemma elem_of_Held p inp h : h ∈ res_Held (Evaluate p inp) ↔ reason p inp h.
Proof.
  simpl. destruct (held_by_spec p inp) as [Hdom Hr]. rewrite list_elem_of_join. split.
  - intros (l&Hh&(x&->&_)%list_elem_of_fmap). by apply Hr in Hh as [? _].
  - intros Hh. exists (reasons_of (held_by p inp) (h_Group h)). split; [by apply Hr|].
    apply list_elem_of_fmap_2, elem_of_sorted_keys, Hdom.
    destruct Hh as [name g Hm|v g x Hv Hg Hx]; simpl; [by eapply holds_key | by eapply holds_implied].
Qed.

(** Everything held is a grant the vocabulary allows. *)
Lemma holds_fits p inp g : valid p → holds p inp g → fits_vocabulary p g.
Proof.
  intros Hva. induction 1 as [name g (Hn&_&Hg)|v g x Hv _ IH Hx].
  - by eapply targets_fit, Hg; apply valid_vocabulary.
  - unfold fits_vocabulary in *. rewrite Hv in *. unfold implied_from in Hx.
    destruct (SplitGroup g) as [[[s t] r]|]; [|by apply elem_of_nil in Hx].
    destruct (Things v !! t) as [spec|] eqn:Ht; [|by apply elem_of_nil in Hx].
    apply list_elem_of_fmap in Hx as (role&->&Hr). unfold implies_of in Hr.
    destruct (Roles spec !! r) as [rspec|] eqn:Hrs; [|by apply elem_of_nil in Hr].
    destruct (SplitGroup (grant s t role)) as [[[s' t'] r']|] eqn:Hs; [|done].
    apply SplitGroup_grant_inv in Hs as (->&->&->).
    eapply implied_allowed; try done. pose proof (va_vocabulary p Hva) as Hok. rewrite Hv in Hok.
    by apply validate_vocabulary_wf.
Qed.

(** ** Lemmas: monotony *)

(** The same proof, with an answer the hub vouches for at least as much. *)
Definition no_less (i1 i2 : Input) : Prop :=
  in_Email i1 = in_Email i2 ∧ in_GitHub i1 = in_GitHub i2 ∧
  in_ServiceAccount i1 = in_ServiceAccount i2 ∧ in_AWS i1 = in_AWS i2 ∧
  (in_Authoritative i1 = true → in_Authoritative i2 = true ∧
    ∀ d, d ∈ ToLower <$> in_DirectoryGroups i1 → d ∈ ToLower <$> in_DirectoryGroups i2).

Lemma matches_no_less i1 i2 m : no_less i1 i2 → matches m i1 = matches m i2.
Proof. intros (He&Hg&Hs&Ha&_). unfold matches. by rewrite He, Hg, Hs, Ha. Qed.

Lemma via_of_no_less p i1 i2 name : no_less i1 i2 → via_of p i1 name ≠ [] → via_of p i2 name ≠ [].
Proof.
  intros Hle Hne. destruct (via_of p i1 name) as [|x xs] eqn:H1; [done|]. clear Hne.
  assert (x ∈ via_of p i1 name) as Hx by (rewrite H1; by left). clear H1.
  intros H2. apply (not_elem_of_nil x). rewrite <- H2. clear H2. revert Hx. unfold via_of.
  rewrite !elem_of_app. intros [Hx|Hx].
  - destruct (in_Authoritative i1) eqn:Ha; [|by apply elem_of_nil in Hx]. left.
    destruct Hle as (_&_&_&_&Hau). apply Hau in Ha as [-> Hd].
    apply elem_of_filter_bool in Hx as [Hx Hb]. apply elem_of_filter_bool. split; [done|].
    rewrite bool_decide_eq_true, elem_of_list_to_set in *. by apply Hd.
  - right. apply list_elem_of_fmap in Hx as (m&->&Hm). apply list_elem_of_fmap_2.
    rewrite elem_of_filter_bool in *. by rewrite <- (matches_no_less i1 i2).
Qed.

Lemma holds_no_less p i1 i2 g : no_less i1 i2 → holds p i1 g → holds p i2 g.
Proof.
  intros Hle. induction 1 as [name g (Hn&Hv&Hg)|v g x Hv _ IH Hx].
  - apply (holds_key _ _ name). split; [done|]. split; [by eapply via_of_no_less|done].
  - by eapply holds_implied.
Qed.

(** ** Lemmas: lifetimes *)

Definition shortest (p : Policy) (acc : Z) (groups : list string) : Z :=
  foldl (λ shortest name,
    match Lifetimes p !! name with
    | Some d => if ((shortest =? 0) || (d <? shortest))%Z then d else shortest
    | None => shortest
    end) acc groups.

(** Durations read from a file are positive. *)
Definition positive_lifetimes (p : Policy) : Prop := map_Forall (λ _ d, (0 < d)%Z) (Lifetimes p).

#[global] Instance positive_lifetimes_dec p : Decision (positive_lifetimes p).
Proof. unfold positive_lifetimes. apply _. Defined.

Lemma shortest_spec p groups acc : positive_lifetimes p → (0 <= acc)%Z →
  let s := shortest p acc groups in
  (s = acc ∨ ∃ name, name ∈ groups ∧ Lifetimes p !! name = Some s) ∧
  (∀ name d, name ∈ groups → Lifetimes p !! name = Some d → (0 < s <= d)%Z) ∧
  (0 < acc → 0 < s <= acc)%Z.
Proof.
  intros Hp. revert acc. induction groups as [|n groups IH]; intros acc Hacc; simpl.
  { split; [by left|]. split; [by intros ?? ?%elem_of_nil|lia]. }
  destruct (Lifetimes p !! n) as [d|] eqn:Hn.
  - pose proof (Hp n d Hn) as Hd. simpl in Hd.
    set (a := if ((acc =? 0) || (d <? acc))%Z then d else acc).
    assert (0 < a <= d ∧ (0 < acc → a <= acc) ∧ (a = d ∨ a = acc))%Z as (Ha&Ha'&Ha'').
    { subst a. destruct (Z.eqb_spec acc 0), (Z.ltb_spec d acc); simpl; lia. }
    destruct (IH a ltac:(lia)) as (H1&H2&H3). split; [|split].
    + destruct H1 as [H1|(m&?&?)]; [|right; exists m; by rewrite elem_of_cons; auto].
      rewrite H1. destruct Ha'' as [->| ->]; [|by left]. right. exists n. rewrite elem_of_cons. by auto.
    + intros m e [->|Hm]%elem_of_cons He; [|by eapply H2]. rewrite Hn in He. injection He as <-. lia.
    + lia.
  - destruct (IH acc Hacc) as (H1&H2&H3). split; [|split; [|done]].
    + destruct H1 as [?|(m&?&?)]; [by left|]. right. exists m. by rewrite elem_of_cons; auto.
    + intros m e [->|Hm]%elem_of_cons He; [congruence|by eapply H2].
Qed.

Lemma lifetimeOf_spec p groups : positive_lifetimes p →
  (∃ name, name ∈ groups ∧ Lifetimes p !! name = Some (lifetimeOf p groups) ∧
    ∀ m d, m ∈ groups → Lifetimes p !! m = Some d → (lifetimeOf p groups <= d)%Z) ∨
  ((∀ name, name ∈ groups → Lifetimes p !! name = None) ∧
   lifetimeOf p groups = default 0%Z (Lifetimes p !! LifetimeDefault)).
Proof.
  intros Hp. unfold lifetimeOf. fold (shortest p 0 groups).
  destruct (shortest_spec p groups 0 Hp ltac:(lia)) as (H1&H2&_).
  destruct (Z.eqb_spec (shortest p 0 groups) 0) as [Hz|Hz].
  - right. split; [|done]. intros name Hn. destruct (Lifetimes p !! name) as [d|] eqn:Hd; [|done].
    specialize (H2 _ _ Hn Hd). lia.
  - left. destruct H1 as [?|(name&Hn&Hd)]; [done|]. exists name. split; [done|]. split; [done|].
    intros m d Hm Hmd. specialize (H2 _ _ Hm Hmd). lia.
Qed.

Lemma walk_more fuel fuel' v st held : walk fuel v st = Some held → fuel ≤ fuel' → walk fuel' v st = Some held.
Proof.
  revert fuel' st. induction fuel as [|fuel IH]; intros fuel' [h r q] H Hle; destruct q as [|g q]; simpl in *; try done.
  - by destruct fuel'.
  - by destruct fuel'.
  - destruct fuel' as [|fuel']; [lia|]. simpl. apply IH; [done|lia].
Qed.

(** ** Lemmas: session limits *)

Definition limit_of (global : Z) (lookup : string → option Resource) id : Z :=
  if negb (empty id) then match lookup id with Some r => AbsoluteFor r global | None => global end else global.

Lemma AbsoluteFor_bounds r global : (0 < global)%Z →
  (0 < AbsoluteFor r global <= Z.max global MaxAbsoluteCap)%Z ∧
  (r_ReadOnly r = false → AbsoluteFor r global <= global)%Z ∧
  (0 < r_AbsoluteCap r → AbsoluteFor r global <= Z.max global (r_AbsoluteCap r))%Z.
Proof.
  intros Hg. unfold AbsoluteFor, MaxAbsoluteCap in *.
  destruct (Z.leb_spec (r_AbsoluteCap r) 0), (Z.leb_spec global 0); simpl; try lia.
  destruct (Z.leb_spec (r_AbsoluteCap r) global); simpl; try lia.
  destruct (r_ReadOnly r); simpl; lia.
Qed.

Lemma limit_of_bounds global lookup id : (0 < global)%Z →
  (0 < limit_of global lookup id <= Z.max global MaxAbsoluteCap)%Z.
Proof.
  intros Hg. unfold limit_of. destruct (negb (empty id)); [|lia].
  destruct (lookup id); [by apply AbsoluteFor_bounds|lia].
Qed.

Lemma shortest_limit global lookup touched acc : (0 < global)%Z → (0 <= acc)%Z →
  let out := foldl (λ out id, if ((out =? 0) || (limit_of global lookup id <? out))%Z
                              then limit_of global lookup id else out) acc touched in
  (out = acc ∨ ∃ id, id ∈ touched ∧ out = limit_of global lookup id) ∧
  (∀ id, id ∈ touched → 0 < out <= limit_of global lookup id)%Z ∧ (0 < acc → 0 < out <= acc)%Z.
Proof.
  intros Hg. revert acc. induction touched as [|id touched IH]; intros acc Hacc; simpl.
  { split; [by left|]. split; [by intros ? ?%elem_of_nil|lia]. }
  pose proof (limit_of_bounds global lookup id Hg) as Hl.
  set (a := if ((acc =? 0) || (limit_of global lookup id <? acc))%Z then limit_of global lookup id else acc).
  assert (0 < a <= limit_of global lookup id ∧ (0 < acc → a <= acc) ∧
    (a = limit_of global lookup id ∨ a = acc))%Z as (Ha&Ha'&Ha'').
  { subst a. destruct (Z.eqb_spec acc 0), (Z.ltb_spec (limit_of global lookup id) acc); simpl; lia. }
  destruct (IH a ltac:(lia)) as (H1&H2&H3). split; [|split; [|lia]].
  - destruct H1 as [H1|(m&?&?)]; [|right; exists m; by rewrite elem_of_cons; auto].
    rewrite H1. destruct Ha'' as [->| ->]; [|by left]. right. exists id. rewrite elem_of_cons. by auto.
  - intros m [->|Hm]%elem_of_cons; [lia|by apply H2].
Qed.

(** ** Lemmas: the [groups] claim *)

(** What a claims row of a group held puts under [groups]. *)
Definition spelled (p : Policy) (groups : list string) (v : value) : Prop :=
  ∃ g fragment l, g ∈ groups ∧ p_Claims p !! g = Some fragment ∧ ("groups", VList l) ∈ fragment ∧ v ∈ l.

Lemma claims_of_groups p groups l v :
  assoc "groups" (claims_of p groups) = Some (VList l) → v ∈ l →
  (∃ g, v = VStr g ∧ g ∈ groups) ∨ spelled p groups v.
Proof.
  unfold claims_of.
  set (claims := foldl _ _ groups).
  assert (∀ m w, assoc "groups" claims = Some (VList m) → w ∈ m → spelled p groups w) as Hrows.
  { subst claims. clear. induction groups as [|g before_g IH] using rev_ind; [done|].
    intros m w. rewrite foldl_app. simpl.
    set (before := foldl _ [] before_g) in *.
    assert (∀ x, spelled p before_g x → spelled p (before_g ++ [g]) x) as Hmore.
    { intros x (h&fragment&k&?&?). exists h, fragment, k. rewrite elem_of_app. by auto. }
    destruct (p_Claims p !! g) as [fragment|] eqn:Hfragment; [|by intros; apply Hmore; eapply IH].
    intros Hm Hw. destruct (mergeFragment_lists _ _ _ _ _ _ Hm Hw) as [(k&Hk&Hwk)|(k&Hk&Hwk)].
    - apply Hmore. by eapply IH.
    - exists g, fragment, k. rewrite elem_of_app, list_elem_of_singleton. by auto. }
  assert (∀ w, w ∈ VStr <$> groups → ∃ h, w = VStr h ∧ h ∈ groups) as Hnames.
  { intros w (h&->&?)%list_elem_of_fmap. by exists h. }
  destruct groups as [|first rest]; [done|].
  destruct (assoc "groups" claims) as [[]|] eqn:Hc; rewrite assoc_set_eq; intros [= <-] Hv;
    try (left; by apply Hnames).
  apply union_order_independent in Hv as [Hv|Hv]; [right; by eapply Hrows|left; by apply Hnames].
Qed.

(** ** The properties *)

(** C1: the groups a proof resolves to are exactly the ones it is in directly
    (a key whose directory group an authoritative answer confirms, or whose
    matcher the proof satisfies, through the key's own name or its wildcard's
    expansion) and everything those imply, transitively; each once, sorted. *)
Theorem Evaluate_groups p inp :
  (∀ g, g ∈ res_Groups (Evaluate p inp) ↔ holds p inp g) ∧
  StronglySorted String.le (res_Groups (Evaluate p inp)) ∧ NoDup (res_Groups (Evaluate p inp)).
Proof. split; [apply elem_of_Evaluate|]. split; [apply sorted_keys_sorted|apply NoDup_sorted_keys]. Qed.

(** the explanation is exact: the reasons listed are every key that reaches
    a group and every held grant that implies one, and no other; and every group
    held has one. *)
Theorem Evaluate_reasons p inp :
  (∀ h, h ∈ res_Held (Evaluate p inp) ↔ reason p inp h) ∧
  (∀ g, g ∈ res_Groups (Evaluate p inp) → ∃ h, h ∈ res_Held (Evaluate p inp) ∧ h_Group h = g).
Proof.
  split; [apply elem_of_Held|]. intros g. rewrite elem_of_Evaluate. setoid_rewrite elem_of_Held.
  intros [name g' Hm|v g' x Hv Hg Hx].
  - eexists. split; [by apply reason_key|done].
  - eexists. split; [by eapply reason_implied|done].
Qed.

(** the walk over the implies graph ends, cycles or none: the fuel computed
    from the seeds and the ladders is enough, and more changes nothing. *)
Theorem Evaluate_terminates p inp v (Hv : p_Vocabulary p = Some v) fuel
  (Hf : walk_fuel v (direct p inp).2 ≤ fuel) :
  walk fuel v (mkWalk (direct p inp).1 (list_to_set (direct p inp).2) (direct p inp).2) = Some (held_by p inp).
Proof. destruct (held_by_walk p inp v Hv) as (_&Hw&_). by eapply walk_more. Qed.

Definition sample_sre : Input := mkInput "ada@example.com" ["SRE@example.com"] true None None None.

Lemma Evaluate_terminates_witness :
  walk_fuel sample_vocabulary (direct sample_policy sample_sre).2 = 4 ∧
  walk 4 sample_vocabulary (mkWalk (direct sample_policy sample_sre).1
    (list_to_set (direct sample_policy sample_sre).2) (direct sample_policy sample_sre).2)
  = Some (held_by sample_policy sample_sre).
Proof.
  assert (walk_fuel sample_vocabulary (direct sample_policy sample_sre).2 = 4) as H by by vm_compute.
  split; [done|]. apply Evaluate_terminates; [done|]. by rewrite H.
Defined.

(** C2: under a policy that loads, every group a proof resolves to is one the
    vocabulary allows, inherited ones included; and whatever the [groups] claim
    of the token lists beyond the groups resolved to is spelled out, word for
    word, in a claims row the policy writes for one of those groups. *)
Theorem Evaluate_fits p inp (Hv : Validate p = Ok tt) :
  let r := Evaluate p inp in
  Forall (fits_vocabulary p) (res_Groups r) ∧
  ∀ l v, assoc "groups" (res_Claims r) = Some (VList l) → v ∈ l →
    (∃ g, v = VStr g ∧ g ∈ res_Groups r) ∨ spelled p (res_Groups r) v.
Proof.
  apply Validate_valid in Hv. split.
  - apply Forall_forall. intros g Hg%elem_of_Evaluate. by eapply holds_fits.
  - intros l v. apply claims_of_groups.
Qed.

(** What the first part does not bound, a claims row can name: the vocabulary
    governs groups, and a row is data of the policy's author. *)
Definition outspoken_policy : Policy :=
  let p := sample_policy in
  mkPolicy (Version p) (p_Vocabulary p) (Groups p)
    {["rung:sre" := [("groups", VList [VStr "nowhere:nothing:admin"])]]} (Lifetimes p) (Resources p)
    (p_ClientDocuments p) (Clients p) (GitHub p) (People p) (Slack p).

Lemma Evaluate_fits_witness :
  let r := Evaluate outspoken_policy sample_sre in
  Validate outspoken_policy = Ok tt ∧
  res_Groups r = ["prod:k8s:admin"; "prod:k8s:operator"; "prod:k8s:viewer"; "rung:sre"] ∧
  Forall (fits_vocabulary outspoken_policy) (res_Groups r) ∧
  (∃ l, assoc "groups" (res_Claims r) = Some (VList l) ∧ VStr "nowhere:nothing:admin" ∈ l) ∧
  spelled outspoken_policy (res_Groups r) (VStr "nowhere:nothing:admin").
Proof.
  assert (Validate outspoken_policy = Ok tt) as Hv by by vm_compute.
  assert (∃ l, assoc "groups" (res_Claims (Evaluate outspoken_policy sample_sre)) = Some (VList l) ∧
    VStr "nowhere:nothing:admin" ∈ l) as (l&Hl&Hin).
  { eexists. split; [by vm_compute|]. apply list_elem_of_here. }
  assert (res_Groups (Evaluate outspoken_policy sample_sre) =
    ["prod:k8s:admin"; "prod:k8s:operator"; "prod:k8s:viewer"; "rung:sre"]) as Hg by by vm_compute.
  destruct (Evaluate_fits outspoken_policy sample_sre Hv) as [Hf Hs].
  refine (conj Hv (conj Hg (conj Hf (conj (ex_intro _ l (conj Hl Hin)) _)))).
  destruct (Hs l _ Hl Hin) as [(g&[= <-]&Hbad)|Hspelled]; [|exact Hspelled]. rewrite Hg in Hbad.
  exfalso. revert Hbad. fold (not ("nowhere:nothing:admin" ∈ ["prod:k8s:admin"; "prod:k8s:operator"; "prod:k8s:viewer"; "rung:sre"])).
  apply (bool_decide_unpack _). by vm_compute.
Defined.

(** membership the hub cannot vouch for grants nothing: without an
    authoritative answer the directory groups do not matter at all. *)
Theorem Evaluate_unauthoritative p inp (Ha : in_Authoritative inp = false) groups :
  Evaluate p inp =
  Evaluate p (mkInput (in_Email inp) groups false (in_GitHub inp) (in_ServiceAccount inp) (in_AWS inp)).
Proof.
  assert (∀ name, via_of p inp name =
    via_of p (mkInput (in_Email inp) groups false (in_GitHub inp) (in_ServiceAccount inp) (in_AWS inp)) name) as Hvia.
  { intros name. unfold via_of. by rewrite Ha. }
  assert (direct p inp = direct p (mkInput (in_Email inp) groups false (in_GitHub inp) (in_ServiceAccount inp) (in_AWS inp))) as Hd.
  { unfold direct. apply foldl_ext. intros st name. unfold hold_key. by rewrite Hvia. }
  unfold Evaluate, held_by. by rewrite Hd.
Qed.

Lemma Evaluate_unauthoritative_witness :
  Evaluate sample_policy (mkInput "" ["sre@example.com"] false None None None) =
  Evaluate sample_policy (mkInput "" [] false None None None).
Proof. exact (Evaluate_unauthoritative sample_policy (mkInput "" ["sre@example.com"] false None None None) eq_refl []). Defined.

(** being vouched for in more directory groups never takes a group away,
    and never lengthens a session some held group already limits. *)
Theorem Evaluate_monotone p i1 i2 (Hp : positive_lifetimes p) (Hle : no_less i1 i2) :
  (∀ g, g ∈ res_Groups (Evaluate p i1) → g ∈ res_Groups (Evaluate p i2)) ∧
  ((∃ g, g ∈ res_Groups (Evaluate p i1) ∧ is_Some (Lifetimes p !! g)) →
   (res_Lifetime (Evaluate p i2) <= res_Lifetime (Evaluate p i1))%Z).
Proof.
  assert (∀ g, g ∈ res_Groups (Evaluate p i1) → g ∈ res_Groups (Evaluate p i2)) as Hg.
  { intros g. rewrite !elem_of_Evaluate. by apply holds_no_less. }
  split; [done|]. intros (g&Hin&[d Hd]). simpl in *.
  destruct (lifetimeOf_spec p (sorted_keys (held_by p i1)) Hp) as [(n&Hn&Hnd&_)|[Hnone _]].
  2: { rewrite Hnone in Hd by done. done. }
  destruct (lifetimeOf_spec p (sorted_keys (held_by p i2)) Hp) as [(m&_&_&Hmin)|[Hnone _]].
  - eapply Hmin; [|done]. by apply Hg.
  - rewrite Hnone in Hnd by (by apply Hg). done.
Qed.

Lemma Evaluate_monotone_witness :
  let i1 := mkInput "" ["sre@example.com"] true None None None in
  let i2 := mkInput "" ["staff@example.com"; "sre@example.com"] true None None None in
  (∀ g, g ∈ res_Groups (Evaluate sample_policy i1) → g ∈ res_Groups (Evaluate sample_policy i2)) ∧
  ((∃ g, g ∈ res_Groups (Evaluate sample_policy i1) ∧ is_Some (Lifetimes sample_policy !! g)) →
   (res_Lifetime (Evaluate sample_policy i2) <= res_Lifetime (Evaluate sample_policy i1))%Z).
Proof.
  apply Evaluate_monotone.
  - apply (bool_decide_unpack _). by vm_compute.
  - repeat split. intros d. simpl. rewrite !elem_of_cons. by auto.
Defined.

(** a session lasts as long as the shortest lifetime among the groups held,
    and the default exactly when none of them has one. *)
Theorem Evaluate_lifetime p inp (Hp : positive_lifetimes p) :
  let r := Evaluate p inp in
  (∃ name, name ∈ res_Groups r ∧ Lifetimes p !! name = Some (res_Lifetime r) ∧
    ∀ m d, m ∈ res_Groups r → Lifetimes p !! m = Some d → (res_Lifetime r <= d)%Z) ∨
  ((∀ name, name ∈ res_Groups r → Lifetimes p !! name = None) ∧
   res_Lifetime r = default 0%Z (Lifetimes p !! LifetimeDefault)).
Proof. by apply lifetimeOf_spec. Qed.

Lemma Evaluate_lifetime_witness :
  res_Lifetime (Evaluate sample_policy sample_sre) = 3600%Z ∧
  let r := Evaluate sample_policy sample_sre in
  (∃ name, name ∈ res_Groups r ∧ Lifetimes sample_policy !! name = Some (res_Lifetime r) ∧
    ∀ m d, m ∈ res_Groups r → Lifetimes sample_policy !! m = Some d → (res_Lifetime r <= d)%Z) ∨
  ((∀ name, name ∈ res_Groups r → Lifetimes sample_policy !! name = None) ∧
   res_Lifetime r = default 0%Z (Lifetimes sample_policy !! LifetimeDefault)).
Proof. split; [by vm_compute|]. apply Evaluate_lifetime. apply (bool_decide_unpack _). by vm_compute. Defined.

(** a proof of nothing is granted nothing: without an authoritative answer
    and without an address, a CI job, a ServiceAccount or an AWS role the result
    holds no group, and no client and no resource admits it. *)
Theorem Evaluate_nothing p groups :
  let r := Evaluate p (mkInput "" groups false None None None) in
  res_Groups r = [] ∧ (∀ c, Client_Admits c r = false) ∧ (∀ res, Resource_Admits res r = false).
Proof.
  assert (∀ m, matches m (mkInput "" groups false None None None) = false) as Hm.
  { intros m. unfold matches. simpl. destruct (m_GitHub m), (m_ServiceAccount m), (m_AWS m); try done.
    destruct (negb (empty (m_Email m))); [done|]. by destruct (negb (empty (m_EmailDomain m))). }
  assert (∀ g, ¬ holds p (mkInput "" groups false None None None) g) as Hn.
  { intros g Hg. induction Hg as [name g (_&Hv&_)|]; [|done]. apply Hv. unfold via_of. simpl.
    induction (g_Matchers (group_of p name)) as [|m l IH]; [done|]. simpl. by rewrite Hm. }
  assert (res_Groups (Evaluate p (mkInput "" groups false None None None)) = []) as Hr.
  { apply elem_of_nil_inv. intros g Hg. by apply elem_of_Evaluate, Hn in Hg. }
  simpl in *. split; [done|].
  split; intros x; unfold Client_Admits, Resource_Admits, Has; simpl; rewrite Hr.
  - by induction (c_Requires x).
  - by induction (r_Requires x).
Qed.

(** an absolute session limit is the shortest among what the session has
    touched; it is positive, never past seven days unless the installation's own
    is, and never past the installation's once anything touched is a client's
    own audience, undeclared, or not read-only. *)
Theorem EffectiveAbsolute_bounds global touched lookup (Hg : (0 < global)%Z) (Ht : touched ≠ []) :
  let out := EffectiveAbsolute global touched lookup in
  (∃ id, id ∈ touched ∧ out = limit_of global lookup id) ∧
  (∀ id, id ∈ touched → out <= limit_of global lookup id)%Z ∧
  (0 < out <= Z.max global MaxAbsoluteCap)%Z ∧
  ((∃ id, id ∈ touched ∧ (id = "" ∨ lookup id = None ∨ ∃ r, lookup id = Some r ∧ r_ReadOnly r = false)) →
   out <= global)%Z.
Proof.
  intros out. destruct (shortest_limit global lookup touched 0 Hg ltac:(lia)) as (H1&H2&_).
  assert (out = foldl (λ out id, if ((out =? 0) || (limit_of global lookup id <? out))%Z
    then limit_of global lookup id else out) 0%Z touched) as Ho.
  { unfold out, EffectiveAbsolute. destruct (Z.leb_spec global 0); [lia|]. simpl. by rewrite bool_decide_eq_false_2. }
  rewrite <- Ho in H1, H2. clearbody out. clear Ho.
  assert (∃ id, id ∈ touched) as [id0 Hid0] by (destruct touched as [|i ?]; [done|exists i; by left]).
  pose proof (H2 _ Hid0) as Hpos. pose proof (limit_of_bounds global lookup id0 Hg).
  split; [|split; [|split]].
  - destruct H1 as [?|?]; [lia|done].
  - intros id Hid. by apply H2.
  - lia.
  - intros (id&Hid&Hc). apply H2 in Hid as [_ Hid]. etrans; [exact Hid|]. unfold limit_of.
    destruct (empty id) eqn:He; simpl; [lia|]. destruct Hc as [->|[->|(r&->&Hr)]]; [done|lia|].
    by apply AbsoluteFor_bounds.
Qed.

Lemma EffectiveAbsolute_bounds_witness :
  let lookup id := Resources sample_policy !! id in
  let r := mkResource "MCP" "" ["rung:sre"] 0 (48 * 3600 * 1000000000) true "" no_override "" in
  let out := EffectiveAbsolute (10 * 3600 * 1000000000) ["https://mcp.example.com/"; ""]
    (λ id, if empty id then None else Some r) in
  out = (10 * 3600 * 1000000000)%Z ∧ (0 < out <= Z.max (10 * 3600 * 1000000000) MaxAbsoluteCap)%Z.
Proof.
  split; [by vm_compute|].
  apply (EffectiveAbsolute_bounds (10 * 3600 * 1000000000) ["https://mcp.example.com/"; ""]
    (λ id, if empty id then None else
      Some (mkResource "MCP" "" ["rung:sre"] 0 (48 * 3600 * 1000000000) true "" no_override ""))); [lia|done].
Defined.

(** a held group's lifetime longer than the default lengthens the session past
    it, in a policy that loads: the default is a fallback and not a ceiling. *)
Theorem lifetime_past_default :
  let p := mkPolicy 1 None {["rung:sre" := mkGroup ["sre@example.com"] []]} ∅
    {["default" := 10%Z; "rung:sre" := 24%Z]} ∅ no_documents ∅ ∅ ∅ ∅ in
  Validate p = Ok tt ∧
  res_Lifetime (Evaluate p (mkInput "" [] true None None None)) = 10%Z ∧
  res_Lifetime (Evaluate p (mkInput "" ["sre@example.com"] true None None None)) = 24%Z.
Proof. by vm_compute. Qed.
