(* ===== verification/Scope.v ===== *)
(** * Scope: what a token says about the groups held

    [policy/scope.go] (per-audience scoping of the groups claim) and the two
    load-time reports of [policy/policy.go] built on the same decision,
    [Unconsumed] and [UnconventionalGroups].  Sets of names the code keeps as
    [map[string]bool] are [gset]s, so Go's iteration order plays no part. *)

From S2P Require Import Prelude GoStrings Names Vocabulary NetUrl Policy SlackPolicy Validate Evaluate.

Implicit Types (name audience : string).

(** [policy/scope.go:type scopePair] *)
Notation scopePair := (string * string)%type (only parsing).

(** The pair of a concrete grant. *)
Definition pair_of name : option scopePair :=
  match SplitGroup name with Some (scope, thing, _) => Some (scope, thing) | None => None end.

(** [policy/scope.go:requiresPairs] *)
Definition requiresPairs (requires : list string) : gset scopePair := list_to_set (omap pair_of requires).

(** [policy/scope.go:asDocumentAudience] *)
Definition asDocumentAudience audience : option URL :=
  if HasPrefix audience "https://" then
    match url_Parse audience with
    | Some u => if empty (Host u) || HasUser u || negb (empty (Fragment u)) then None else Some u
    | None => None
    end
  else None.

(** [policy/scope.go:Policy.audienceScope] *)
Definition audienceScope (p : Policy) audience : gset scopePair * GroupsOverride :=
  match Clients p !! audience with
  | Some c => (requiresPairs (c_Requires c), c_Groups c)
  | None =>
      match Resources p !! audience with
      | Some r => (requiresPairs (r_Requires r), r_Groups r)
      | None =>
          let d := p_ClientDocuments p in
          match (if Enabled d then asDocumentAudience audience else None) with
          | Some u => if Permits d u then (requiresPairs (d_Requires d), d_Groups d) else (∅, no_override)
          | None => (∅, no_override)
          end
      end
  end.

(** [policy/scope.go:Policy.groupsOverrideKeeps] *)
Definition groupsOverrideKeeps name (pairs : gset scopePair) (override : GroupsOverride) : bool :=
  if go_All override then true
  else match SplitGroup name with
       | None =>
           match splitFamily name with
           | Some family => str_in family (go_Things override) || str_in name (go_Things override)
           | None => str_in name (go_Things override)
           end
       | Some (scope, thing, _) =>
           bool_decide ((scope, thing) ∈ pairs) || str_in thing (go_Things override)
       end.

(** [policy/scope.go:Policy.ScopeGroups] *)
Definition ScopeGroups (p : Policy) audience (held : list string) : list string * list string :=
  let '(pairs, override) := audienceScope p audience in
  let keeps name := groupsOverrideKeeps name pairs override in
  (sort_strings (List.filter keeps held), sort_strings (List.filter (λ name, negb (keeps name)) held)).

(** ** The load-time reports *)

(** [policy/policy.go:Policy.UnconventionalGroups] *)
Definition UnconventionalGroups (p : Policy) : list string :=
  List.filter (λ name, negb (conventional name)) (sorted_keys (Groups p)).

(** Every [groups] override of the policy. *)
Definition overrides (p : Policy) : list GroupsOverride :=
  d_Groups (p_ClientDocuments p)
    :: (c_Groups <$> (map_to_list (Clients p)).*2) ++ (r_Groups <$> (map_to_list (Resources p)).*2).

(** The names a consumer lists outright. *)
Definition named_by_consumers (p : Policy) : list string :=
  mjoin (c_Requires <$> (map_to_list (Clients p)).*2) ++
  mjoin (r_Requires <$> (map_to_list (Resources p)).*2) ++
  d_Requires (p_ClientDocuments p) ++
  mjoin ((λ o, o_Members o ++ mjoin ((λ t, t_Members t ++ t_Maintainers t) <$> (map_to_list (o_Teams o)).*2))
           <$> (map_to_list (GitHub p)).*2) ++
  mjoin ((λ ws, mjoin (ch_From <$> (map_to_list (w_Channels ws)).*2)) <$> (map_to_list (Slack p)).*2).

(** The hub's own roles. *)
Definition hub_role name : bool :=
  match SplitGroup name with
  | Some (_, thing, role) => bool_decide (thing = ThingSelf) && str_in role [RoleOperator; RoleViewer]
  | None => false
  end.

(** What some consumer reads: outright, through an override, through the hub's
    own roles, or through the catalogue the caller names. *)
Definition is_consumed (p : Policy) (catalogueGroups : list string) target : bool :=
  str_in target (named_by_consumers p) ||
  existsb (groupsOverrideKeeps target ∅) (overrides p) ||
  hub_role target ||
  str_in target catalogueGroups.

(** [policy/policy.go:Policy.Unconsumed] *)
Definition Unconsumed (p : Policy) (catalogueGroups : list string) : list string :=
  List.filter (λ name,
    negb (HasPrefix name "rung:" || HasPrefix name "emp:") &&
    negb (existsb (is_consumed p catalogueGroups) (groupKeyTargets p name)))
    (sorted_keys (Groups p)).

(** ** Lemmas *)

Lemma elem_of_requiresPairs requires s t :
  (s, t) ∈ requiresPairs requires ↔ ∃ r, grant s t r ∈ requires ∧ segment s ∧ segment t ∧ segment r.
Proof.
  unfold requiresPairs. rewrite elem_of_list_to_set, list_elem_of_omap. unfold pair_of. split.
  - intros (g&Hg&H). destruct (SplitGroup g) as [[[s' t'] r]|] eqn:Hs; [|done]. simplify_eq.
    apply SplitGroup_spec in Hs as (->&?&?&?). eauto.
  - intros (r&Hg&?&?&?). exists (grant s t r). split; [done|]. by rewrite SplitGroup_grant.
Qed.

(** Why a held name is kept. *)
Inductive keeps (pairs : gset scopePair) (override : GroupsOverride) name : Prop :=
| KeepAll : go_All override = true → keeps pairs override name
| KeepPair s t r : SplitGroup name = Some (s, t, r) → (s, t) ∈ pairs → keeps pairs override name
| KeepThing s t r : SplitGroup name = Some (s, t, r) → t ∈ go_Things override → keeps pairs override name
| KeepFamily f : SplitGroup name = None → splitFamily name = Some f → f ∈ go_Things override →
    keeps pairs override name
| KeepName : SplitGroup name = None → name ∈ go_Things override → keeps pairs override name.

Lemma groupsOverrideKeeps_spec name pairs override :
  groupsOverrideKeeps name pairs override = true ↔ keeps pairs override name.
Proof.
  unfold groupsOverrideKeeps. split.
  - destruct (go_All override) eqn:Ha; [by constructor|].
    destruct (SplitGroup name) as [[[s t] r]|] eqn:Hs.
    + rewrite orb_true_iff, bool_decide_eq_true, str_in_true.
      intros [?|?]; [by eapply KeepPair|by eapply KeepThing].
    + destruct (splitFamily name) as [f|] eqn:Hf.
      * rewrite orb_true_iff, !str_in_true. intros [?|?]; [by eapply KeepFamily|by apply KeepName].
      * rewrite str_in_true. by apply KeepName.
  - intros [->|s t r Hs Hp|s t r Hs Ht|f Hs Hf Hi|Hs Hi]; [done|..];
      (destruct (go_All override); [done|]; rewrite Hs).
    + by rewrite bool_decide_eq_true_2.
    + rewrite orb_true_iff, str_in_true. by right.
    + rewrite Hf, orb_true_iff, str_in_true. by left.
    + destruct (splitFamily name); rewrite ?orb_true_iff, ?str_in_true; auto.
Qed.

(** The gate an audience is under, if it is under one. *)
Definition gated (p : Policy) audience : Prop :=
  is_Some (Clients p !! audience) ∨ is_Some (Resources p !! audience) ∨
  ∃ u, Enabled (p_ClientDocuments p) = true ∧ asDocumentAudience audience = Some u ∧
       Permits (p_ClientDocuments p) u = true.

Lemma audienceScope_ungated p audience : ¬ gated p audience → audienceScope p audience = (∅, no_override).
Proof.
  unfold gated, audienceScope. intros Hg.
  destruct (Clients p !! audience); [naive_solver|]. destruct (Resources p !! audience); [naive_solver|].
  destruct (Enabled _) eqn:He; [|done]. destruct (asDocumentAudience audience) as [u|]; [|done].
  destruct (Permits _ u) eqn:Hp; [|done]. destruct Hg. right. right. by exists u.
Qed.

(** A gated audience's override is one of the policy's. *)
Lemma audienceScope_override p audience :
  gated p audience → (audienceScope p audience).2 ∈ overrides p.
Proof.
  unfold gated, audienceScope, overrides. intros Hg. destruct (Clients p !! audience) as [c|] eqn:Hc.
  { right. apply elem_of_app. left. apply list_elem_of_fmap. exists c. split; [done|]. apply elem_of_values. eauto. }
  destruct (Resources p !! audience) as [r|] eqn:Hr.
  { right. apply elem_of_app. right. apply list_elem_of_fmap. exists r. split; [done|]. apply elem_of_values. eauto. }
  destruct Hg as [[? ?]|[[? ?]|(u&->&->&->)]]; [done..|]. by left.
Qed.

(** ** The properties *)

(** scoping splits what is held in two and loses nothing: every name, with
    its repeats, is in exactly one of the two lists, both sorted; a name is kept
    exactly when the override asks for everything, for its thing, its family or
    itself, or when one of the audience's requires names its scope and thing. *)
Theorem ScopeGroups_partition p audience held :
  let '(kept, dropped) := ScopeGroups p audience held in
  let '(pairs, override) := audienceScope p audience in
  kept ++ dropped ≡ₚ held ∧ StronglySorted String.le kept ∧ StronglySorted String.le dropped ∧
  (∀ name, name ∈ kept ↔ name ∈ held ∧ keeps pairs override name) ∧
  (∀ name, name ∈ dropped ↔ name ∈ held ∧ ¬ keeps pairs override name).
Proof.
  unfold ScopeGroups. destruct (audienceScope p audience) as [pairs override].
  split; [|split; [apply sort_strings_sorted|split; [apply sort_strings_sorted|split]]].
  - rewrite !sort_strings_Permutation. induction held as [|x held IH]; [done|]. simpl.
    destruct (groupsOverrideKeeps x pairs override); simpl; [by rewrite IH|].
    by rewrite <- Permutation_middle, IH.
  - intros name. by rewrite elem_of_sort_strings, elem_of_filter_bool, groupsOverrideKeeps_spec.
  - intros name. rewrite elem_of_sort_strings, elem_of_filter_bool, negb_true_iff.
    by rewrite <- not_true_iff_false, groupsOverrideKeeps_spec.
Qed.

(** an audience no row and no permitted document governs keeps nothing. *)
Theorem ScopeGroups_ungated p audience held (Hg : ¬ gated p audience) :
  (ScopeGroups p audience held).1 = [] ∧ (ScopeGroups p audience held).2 ≡ₚ held.
Proof.
  unfold ScopeGroups. rewrite audienceScope_ungated by done. simpl.
  assert (∀ name, groupsOverrideKeeps name ∅ no_override = false) as Hn.
  { intros name. rewrite <- not_true_iff_false, groupsOverrideKeeps_spec.
    intros [Ha|? ? ? _ Hp|? ? ? _ Ht|? _ _ Ht|_ Ht]; [done|set_solver|exact (not_elem_of_nil _ Ht)..]. }
  split.
  - induction held as [|x held IH]; [done|]. simpl. by rewrite Hn.
  - rewrite sort_strings_Permutation. induction held as [|x held IH]; [done|]. simpl. rewrite Hn. simpl. by rewrite IH.
Qed.

Lemma not_gated_sample : ¬ gated sample_policy "https://evil.example/".
Proof. intros [[? H]|[[? H]|(u&_&Hu&H)]]; [done..|]. vm_compute in Hu. injection Hu as <-. vm_compute in H. discriminate H. Qed.

Lemma ScopeGroups_ungated_witness :
  (ScopeGroups sample_policy "https://evil.example/" ["prod:k8s:admin"]).1 = [] ∧
  (ScopeGroups sample_policy "https://evil.example/" ["prod:k8s:admin"]).2 ≡ₚ ["prod:k8s:admin"].
Proof.
  apply ScopeGroups_ungated. exact not_gated_sample.
Defined.

(** narrowing a token never drops the grant that admitted its caller: every
    grant a client or a resource requires is kept for it when held. *)
Theorem ScopeGroups_keeps_requires p audience held g requires
  (Ha : (∃ c, Clients p !! audience = Some c ∧ c_Requires c = requires) ∨
        (Clients p !! audience = None ∧ ∃ r, Resources p !! audience = Some r ∧ r_Requires r = requires))
  (Hr : g ∈ requires) (Hs : is_Some (SplitGroup g)) (Hh : g ∈ held) :
  g ∈ (ScopeGroups p audience held).1.
Proof.
  destruct Hs as [[[s t] r] Hs].
  assert ((audienceScope p audience).1 = requiresPairs requires) as Hp.
  { unfold audienceScope. destruct Ha as [(c&->&<-)|(->&res&->&<-)]; done. }
  unfold ScopeGroups. destruct (audienceScope p audience) as [pairs override]. simpl in *. subst pairs.
  rewrite elem_of_sort_strings, elem_of_filter_bool, groupsOverrideKeeps_spec. split; [done|].
  eapply KeepPair; [done|]. apply elem_of_requiresPairs. exists r.
  apply SplitGroup_spec in Hs as (<-&?&?&?). done.
Qed.

Lemma ScopeGroups_keeps_requires_witness :
  ScopeGroups sample_policy "k8s:prod" ["devel:k8s:viewer"; "prod:k8s:admin"; "prod:k8s:viewer"; "rung:sre"] =
    (["prod:k8s:admin"; "prod:k8s:viewer"], ["devel:k8s:viewer"; "rung:sre"]) ∧
  "prod:k8s:admin" ∈ (ScopeGroups sample_policy "k8s:prod" ["devel:k8s:viewer"; "prod:k8s:admin"; "prod:k8s:viewer"; "rung:sre"]).1.
Proof.
  split; [by vm_compute|]. apply (ScopeGroups_keeps_requires _ _ _ _ ["prod:k8s:admin"]).
  - left. eexists. split; [vm_compute; reflexivity|done].
  - by left.
  - by eexists.
  - right. by left.
Defined.

(** the report of unconsumed groups and the scoping of tokens agree: when a
    declared key is reported, no audience whatever reads any name it stands for,
    except through the scope and thing its own requires names. *)
Theorem Unconsumed_unread p catalogue name (Hn : name ∈ Unconsumed p catalogue) :
  is_Some (Groups p !! name) ∧
  ∀ target, target ∈ groupKeyTargets p name →
    target ∉ named_by_consumers p ∧ target ∉ catalogue ∧ hub_role target = false ∧
    ∀ audience held, target ∈ (ScopeGroups p audience held).1 →
      ∃ s t r, SplitGroup target = Some (s, t, r) ∧ (s, t) ∈ (audienceScope p audience).1.
Proof.
  unfold Unconsumed in Hn. rewrite elem_of_filter_bool, elem_of_sorted_keys, andb_true_iff, !negb_true_iff in Hn.
  destruct Hn as (Hn&_&Hc). split; [done|]. intros target Ht.
  assert (is_consumed p catalogue target = false) as Hf.
  { apply not_true_iff_false. intros H. apply not_true_iff_false in Hc. apply Hc, existsb_exists.
    exists target. by rewrite <- list_elem_of_In. }
  unfold is_consumed in Hf. rewrite !orb_false_iff, !str_in_false in Hf. destruct Hf as (((Hnm&Hov)&Hhub)&Hcat).
  split; [done|]. split; [done|]. split; [done|]. intros audience held Hk.
  unfold ScopeGroups in Hk. destruct (audienceScope p audience) as [pairs override] eqn:Hs. simpl in Hk.
  rewrite elem_of_sort_strings, elem_of_filter_bool, groupsOverrideKeeps_spec in Hk. destruct Hk as [_ Hk].
  destruct (decide (override ∈ overrides p)) as [Hin|Hout].
  - assert (groupsOverrideKeeps target ∅ override = false) as Hnk.
    { apply not_true_iff_false. intros H. apply not_true_iff_false in Hov. apply Hov, existsb_exists.
      exists override. by rewrite <- list_elem_of_In. }
    apply not_true_iff_false in Hnk. rewrite groupsOverrideKeeps_spec in Hnk.
    destruct Hk as [?|s t r ? ?|? ? ? ? ?|? ? ? ?|? ?]; [|by eauto 10|..]; by destruct Hnk; eauto using keeps.
  - assert (¬ gated p audience) as Hg.
    { intros Hg. apply Hout. pose proof (audienceScope_override p audience Hg) as Ho. by rewrite Hs in Ho. }
    rewrite (audienceScope_ungated p audience Hg) in Hs. injection Hs as <- <-.
    destruct Hk as [Ha|? ? ? _ Hp|? ? ? _ Hx|? _ _ Hx|_ Hx]; [done|set_solver|by destruct (not_elem_of_nil _ Hx)..].
Qed.

Lemma Unconsumed_unread_witness :
  Unconsumed sample_policy [] = ["*:k8s:viewer"; "devel:k8s:operator"] ∧
  "devel:k8s:operator" ∉ named_by_consumers sample_policy.
Proof.
  split; [by vm_compute|].
  apply (Unconsumed_unread sample_policy [] "devel:k8s:operator").
  - vm_compute. right. by left.
  - vm_compute. by left.
Defined.
