(* ===== verification/PolicySet.v ===== *)
(** * PolicySet: one policy out of several files, and the views of it

    [policy/set.go] and [mergeSlack] of [policy/slack.go]: the directory load
    folds one layer per file into the declared policy, refusing whatever two
    files both declare, and [Set] serves the result's views.  Reading files and
    YAML is outside; a layer here is a parsed one.  Go's nil and empty lists are
    one value, so a documents block that only spells an empty list counts as
    absent.

    The theorems: a load that succeeds loses nothing and overwrites nothing, and
    does not depend on the order two files are read in. *)

From S2P Require Import Prelude GoStrings Names Vocabulary Claims Policy Validate Evaluate.

Implicit Types (name from key : string).

(** What two files both declare. *)
Inductive clash : Type :=
| ClashVersion (from : string) (version : Z)
| ClashVocabulary (from : string)
| ClashDocuments (from : string)
| ClashGroup (from name : string)
| ClashClaims (from name : string)
| ClashLifetime (from name : string)
| ClashResource (from id : string)
| ClashClient (from id : string)
| ClashOrgMembers (from org : string)
| ClashTeam (from org team : string)
| ClashPerson (from person : string)
| ClashChannel (from key name : string)
| NoYAML.

(** The body of [mergeTable]'s loop. *)
Definition table_step {V} (from : gmap string V) (twice : string → clash) (into : gmap string V) key
    : result clash (gmap string V) :=
  match into !! key with
  | Some _ => Err (twice key)
  | None => match from !! key with Some v => Ok (<[key := v]> into) | None => Ok into end
  end.

(** [policy/set.go:mergeTable] *)
Definition mergeTable {V} (into from : gmap string V) (twice : string → clash) : result clash (gmap string V) :=
  fold_m (table_step from twice) into (sorted_keys from).

(** One organisation's bindings into what is already there. *)
Definition merge_ignore (into incoming : list string) : list string :=
  foldl (λ into entry, if str_in entry into then into else into ++ [entry]) into incoming.

Definition merge_org (file org : string) (into incoming : GitHubOrg) : result clash GitHubOrg :=
  members ← (match o_Members incoming, o_Members into with
             | [], m => Ok m
             | m, [] => Ok m
             | _, _ => Err (ClashOrgMembers file org)
             end);
  teams ← mergeTable (o_Teams into) (o_Teams incoming) (ClashTeam file org);
  Ok (mkGitHubOrg members teams (merge_ignore (o_Ignore into) (o_Ignore incoming))).

(** A loop over the keys of one map that updates another at each key. *)
Definition merge_each {V} (zero : V) (body : string → V → V → result clash V) (into from : gmap string V)
    : result clash (gmap string V) :=
  fold_m (λ into key,
    match from !! key with
    | None => Ok into
    | Some incoming => merged ← body key (default zero (into !! key)) incoming; Ok (<[key := merged]> into)
    end) into (sorted_keys from).

Definition no_org : GitHubOrg := mkGitHubOrg [] ∅ [].
Definition no_workspace : SlackWorkspace := mkSlackWorkspace ∅.

Definition merge_workspace (file key : string) (into incoming : SlackWorkspace) : result clash SlackWorkspace :=
  channels ← mergeTable (w_Channels into) (w_Channels incoming) (ClashChannel file key);
  Ok (mkSlackWorkspace channels).

(** [policy/slack.go:Policy.mergeSlack] *)
Definition mergeSlack (file : string) (into other : gmap string SlackWorkspace) : result clash (gmap string SlackWorkspace) :=
  merge_each no_workspace (merge_workspace file) into other.

(** [policy/set.go:Policy.mergeLayer] *)
Definition mergeLayer (p other : Policy) (file : string) : result clash Policy :=
  check (Version other =? 1)%Z (ClashVersion file (Version other)) ;;
  vocabulary ← (match p_Vocabulary other, p_Vocabulary p with
                | None, v => Ok v
                | v, None => Ok v
                | Some _, Some _ => Err (ClashVocabulary file)
                end);
  documents ← (if bool_decide (p_ClientDocuments other = no_documents) then Ok (p_ClientDocuments p)
               else if bool_decide (p_ClientDocuments p = no_documents) then Ok (p_ClientDocuments other)
               else Err (ClashDocuments file));
  groups ← mergeTable (Groups p) (Groups other) (ClashGroup file);
  claims ← mergeTable (p_Claims p) (p_Claims other) (ClashClaims file);
  lifetimes ← mergeTable (Lifetimes p) (Lifetimes other) (ClashLifetime file);
  resources ← mergeTable (Resources p) (Resources other) (ClashResource file);
  clients ← mergeTable (Clients p) (Clients other) (ClashClient file);
  github ← merge_each no_org (merge_org file) (GitHub p) (GitHub other);
  people ← mergeTable (People p) (People other) (ClashPerson file);
  slack ← mergeSlack file (Slack p) (Slack other);
  Ok (mkPolicy (Version p) vocabulary groups claims lifetimes resources documents clients github people slack).

(** [policy/set.go:LoadDeclared] over the parsed files of a directory, in the
    order they are read. *)
Definition LoadDeclared (layers : list (string * Policy)) : result clash Policy :=
  out ← fold_m (λ out '(file, layer), mergeLayer out layer file) empty_policy layers;
  check (negb (bool_decide (layers = []))) NoYAML ;; Ok out.

(** [policy/set.go:NewSet]; the digest hashes the policy's YAML and is left out. *)
Definition NewSet (declared : Policy) : result policy_error Policy := Validate declared ;; Ok declared.

(** ** The views *)

(** [policy/set.go:type MatcherView] *)
Record MatcherView := mkMatcherView { mv_Kind : string; mv_Rule : string }.

(** [policy/set.go:type GroupView] *)
Record GroupView := mkGroupView {
  gv_Name : string; gv_Members : list string; gv_Matchers : list string; gv_Rules : list MatcherView;
  gv_Claims : list (string * value); gv_Lifetime : Z }.

(** [policy/set.go:Set.membersLocked] *)
Definition membersLocked (p : Policy) name : list string := g_Members (group_of p name).

(** [policy/set.go:Set.Groups] *)
Definition Set_Groups (p : Policy) : list GroupView :=
  (λ name, mkGroupView name (membersLocked p name)
     (Describe <$> g_Matchers (group_of p name))
     ((λ m, mkMatcherView (Kind m) (Matcher_Rule m)) <$> g_Matchers (group_of p name))
     (default [] (p_Claims p !! name)) (lifetimeOf p [name])) <$> sorted_keys (Groups p).

(** [policy/set.go:type TeamView] *)
Record TeamView := mkTeamView { tv_Org : string; tv_Team : string; tv_Members : list string; tv_Maintainers : list string }.

(** [policy/set.go:Set.GitHubTeams] *)
Definition GitHubTeams (p : Policy) : list TeamView :=
  mjoin ((λ org, let teams := o_Teams (default no_org (GitHub p !! org)) in
    (λ team, let bound := default (mkGitHubTeam [] []) (teams !! team) in
             mkTeamView org team (t_Members bound) (t_Maintainers bound)) <$> sorted_keys teams)
    <$> sorted_keys (GitHub p)).

(** [policy/set.go:type OrgView] *)
Record OrgView := mkOrgView { ov_Org : string; ov_Members : list string; ov_Ignore : list string }.

(** [policy/set.go:Set.GitHubOrgs] *)
Definition GitHubOrgs (p : Policy) : list OrgView :=
  omap (λ org, let bound := default no_org (GitHub p !! org) in
    match o_Members bound, o_Ignore bound with
    | [], [] => None
    | m, i => Some (mkOrgView org m i)
    end) (sorted_keys (GitHub p)).

(** [policy/set.go:Set.Client] *)
Definition Set_Client (p : Policy) id : option Client := Clients p !! id.
(** [policy/set.go:Set.Resource] *)
Definition Set_Resource (p : Policy) id : option Resource := Resources p !! id.
(** [policy/set.go:Set.EffectiveAbsolute] *)
Definition Set_EffectiveAbsolute (p : Policy) (global : Z) (touched : list string) : Z :=
  EffectiveAbsolute global touched (Set_Resource p).
(** [policy/set.go:Set.Clients] *)
Definition Set_Clients (p : Policy) : list (string * Client) :=
  omap (λ id, pair id <$> Clients p !! id) (sorted_keys (Clients p)).
(** [policy/set.go:Set.Resources] *)
Definition Set_Resources (p : Policy) : list (string * Resource) :=
  omap (λ id, pair id <$> Resources p !! id) (sorted_keys (Resources p)).
(** [policy/set.go:Set.HasGroup] *)
Definition HasGroup (p : Policy) name : bool := bool_decide (is_Some (Groups p !! name)).
(** [policy/slack_team.go:Set.SlackWorkspaceDeclared] *)
Definition SlackWorkspaceDeclared (p : Policy) key : bool := bool_decide (is_Some (Slack p !! key)).
(** [policy/slack_team.go:Set.SlackWorkspaceKeys] *)
Definition SlackWorkspaceKeys (p : Policy) : list string := sorted_keys (Slack p).

(** ** Lemmas: one table *)

(** Folding fresh keys in is inserting them. *)
Lemma mergeTable_loop {V} (from into m : gmap string V) twice l : NoDup l →
  fold_m (table_step from twice) into l = Ok m ↔
  (∀ k, k ∈ l → into !! k = None) ∧ (∀ k, m !! k = if decide (k ∈ l) then from !! k else into !! k).
Proof.
  revert into. induction l as [|x l IH]; intros into Hnd; simpl.
  - split.
    + intros [= <-]. split; [by intros ? ?%elem_of_nil|]. done.
    + intros [_ H]. f_equal. apply map_eq. intros k. by rewrite H.
  - apply NoDup_cons in Hnd as [Hx Hnd]. unfold table_step at 1. destruct (into !! x) as [v|] eqn:Hi; simpl.
    { split; [done|]. intros [H _]. by rewrite H in Hi by (by left). }
    assert ((match from !! x with Some v => Ok (<[x := v]> into) | None => Ok into end : result clash _)
      = Ok (match from !! x with Some v => <[x := v]> into | None => into end)) as -> by by destruct (from !! x).
    rewrite IH by done.
    assert (∀ k, (match from !! x with Some v => <[x := v]> into | None => into end) !! k =
      if decide (k = x) then from !! x else into !! k) as Hk.
    { intros k. case_decide as Heq; [subst|]; destruct (from !! x) eqn:?;
        rewrite ?lookup_insert_eq, ?lookup_insert_ne by done; done. }
    split; intros [H1 H2]; split.
    + intros k [->|Hkl]%elem_of_cons; [done|]. specialize (H1 k Hkl). rewrite Hk in H1.
      by rewrite decide_False in H1 by (intros ->; done).
    + intros k. rewrite H2, Hk. destruct (decide (k = x)) as [->|Hne].
      * rewrite decide_False by done. by rewrite decide_True by by left.
      * repeat case_decide; set_solver.
    + intros k Hkl. rewrite Hk, decide_False by (intros ->; done). apply H1. by right.
    + intros k. rewrite H2, Hk. destruct (decide (k = x)) as [->|Hne].
      * rewrite decide_True by by left. by rewrite decide_False.
      * repeat case_decide; set_solver.
Qed.

(** A table merges exactly when no key is in both, into their union. *)
Lemma mergeTable_ok {V} (into from : gmap string V) twice m :
  mergeTable into from twice = Ok m ↔ into ##ₘ from ∧ m = into ∪ from.
Proof.
  unfold mergeTable. rewrite mergeTable_loop by apply NoDup_sorted_keys.
  split.
  - intros [Hd Hm]. assert (into ##ₘ from) as Hdis.
    { apply map_disjoint_spec. intros k x y Hx Hy.
      rewrite Hd in Hx by (apply elem_of_sorted_keys; by eexists). done. }
    split; [done|]. apply map_eq. intros k. rewrite Hm. case_decide as Hs; rewrite elem_of_sorted_keys in Hs.
    + destruct Hs as [v Hv]. rewrite Hv. symmetry. by apply lookup_union_Some_r.
    + apply eq_None_not_Some in Hs. rewrite lookup_union, Hs. by destruct (into !! k).
  - intros [Hdis ->]. split.
    + intros k [v Hv]%elem_of_sorted_keys. by eapply map_disjoint_Some_r.
    + intros k. case_decide as Hs; rewrite elem_of_sorted_keys in Hs.
      * destruct Hs as [v Hv]. rewrite Hv. by apply lookup_union_Some_r.
      * apply eq_None_not_Some in Hs. rewrite lookup_union, Hs. by destruct (into !! k).
Qed.

(** What it refuses: the first key, in order, that is in both. *)
Lemma mergeTable_err {V} (into from : gmap string V) twice e :
  mergeTable into from twice = Err e → ∃ k, is_Some (into !! k) ∧ is_Some (from !! k) ∧ e = twice k.
Proof.
  unfold mergeTable.
  assert (∀ l i, NoDup l → (∀ k, k ∈ l → is_Some (from !! k) ∧ i !! k = into !! k) →
    fold_m (table_step from twice) i l = Err e →
    ∃ k, is_Some (into !! k) ∧ is_Some (from !! k) ∧ e = twice k) as H.
  { induction l as [|x l IH]; intros i Hnd Hl; simpl; [done|].
    apply NoDup_cons in Hnd as [Hx Hnd]. destruct (Hl x ltac:(by left)) as [Hf Hi].
    unfold table_step at 1. destruct (i !! x) as [v|] eqn:Hix.
    - intros [= <-]. exists x. split; [|done]. rewrite <- Hi. by eexists.
    - destruct Hf as [v Hv]. rewrite Hv. apply IH; [done|]. intros k Hk. split; [apply Hl; by right|].
      rewrite lookup_insert_ne by (intros ->; done). apply Hl. by right. }
  apply H; [apply NoDup_sorted_keys|]. intros k Hk. by apply elem_of_sorted_keys in Hk.
Qed.

Lemma mergeTable_sym {V} (into from m : gmap string V) twice twice' :
  mergeTable into from twice = Ok m → mergeTable from into twice' = Ok m.
Proof. rewrite !mergeTable_ok. intros [Hd ->]. split; [done|]. by apply map_union_comm. Qed.

Lemma mergeTable_empty {V} (from : gmap string V) twice : mergeTable ∅ from twice = Ok from.
Proof. apply mergeTable_ok. split; [apply map_disjoint_empty_l|]. by rewrite (left_id_L ∅ (∪)). Qed.

(** ** Lemmas: tables of tables *)

Definition each_step {V} (zero : V) (body : string → V → V → result clash V) (from into : gmap string V) key
    : result clash (gmap string V) :=
  match from !! key with
  | None => Ok into
  | Some incoming => merged ← body key (default zero (into !! key)) incoming; Ok (<[key := merged]> into)
  end.

(** What a loop that succeeded left under a key. *)
Definition each_at {V} (zero : V) (body : string → V → V → result clash V) (from into m : gmap string V) k : Prop :=
  match from !! k with
  | None => m !! k = into !! k
  | Some incoming => ∃ v, body k (default zero (into !! k)) incoming = Ok v ∧ m !! k = Some v
  end.

Lemma each_loop {V} zero body (from into m : gmap string V) l :
  NoDup l → (∀ k, k ∈ l → is_Some (from !! k)) →
  fold_m (each_step zero body from) into l = Ok m ↔
  ∀ k, (k ∈ l → each_at zero body from into m k) ∧ (k ∉ l → m !! k = into !! k).
Proof.
  revert into. induction l as [|x l IH]; intros into Hnd Hl; simpl.
  - split.
    + intros [= <-] k. split; [by intros ?%elem_of_nil|done].
    + intros H. f_equal. apply map_eq. intros k. symmetry. by apply H, not_elem_of_nil.
  - apply NoDup_cons in Hnd as [Hx Hnd]. destruct (Hl x ltac:(by left)) as [inc Hinc].
    unfold each_step at 1. rewrite Hinc. destruct (body x (default zero (into !! x)) inc) as [v|e] eqn:Hb; simpl.
    2: { split; [done|]. intros H. destruct (H x) as [H1 _]. specialize (H1 ltac:(by left)).
         unfold each_at in H1. rewrite Hinc in H1. destruct H1 as (v&Hv&_). congruence. }
    rewrite IH by (first [done | intros k Hk; apply Hl; by right]).
    assert (∀ k, k ≠ x → each_at zero body from (<[x:=v]> into) m k ↔ each_at zero body from into m k) as He.
    { intros k Hk. unfold each_at. destruct (from !! k); by rewrite lookup_insert_ne. }
    split; intros H k; destruct (decide (k = x)) as [->|Hne].
    + destruct (H x) as [_ Hn]. specialize (Hn Hx). rewrite lookup_insert_eq in Hn. split.
      * intros _. unfold each_at. rewrite Hinc. eauto.
      * intros Hn'. destruct Hn'. by left.
    + destruct (H k) as [H1 H2]. rewrite He in H1 by done. rewrite lookup_insert_ne in H2 by done.
      rewrite elem_of_cons. split; [intros [?|?]; [done|by apply H1]|]. intros Hn. apply H2. by intros ?; apply Hn; right.
    + destruct (H x) as [H1 _]. specialize (H1 ltac:(by left)). unfold each_at in H1. rewrite Hinc in H1.
      destruct H1 as (w&Hw&Hm). rewrite Hb in Hw. injection Hw as <-. split; [done|]. intros _. by rewrite lookup_insert_eq.
    + destruct (H k) as [H1 H2]. rewrite He by done. rewrite lookup_insert_ne by done.
      split; [intros Hk; apply H1; by right|]. intros Hk. apply H2. by intros [?|?]%elem_of_cons.
Qed.

Lemma merge_each_ok {V} zero body (into from m : gmap string V) :
  merge_each zero body into from = Ok m ↔ ∀ k, each_at zero body from into m k.
Proof.
  change (merge_each zero body into from) with (fold_m (each_step zero body from) into (sorted_keys from)).
  rewrite each_loop; [|apply NoDup_sorted_keys|intros k; by rewrite elem_of_sorted_keys].
  split; intros H k.
  - destruct (H k) as [H1 H2]. destruct (decide (k ∈ sorted_keys from)) as [Hk|Hk]; [by apply H1|].
    unfold each_at. specialize (H2 Hk). rewrite elem_of_sorted_keys in Hk. by apply eq_None_not_Some in Hk as ->.
  - split; [done|]. intros Hk. specialize (H k). unfold each_at in H.
    rewrite elem_of_sorted_keys in Hk. apply eq_None_not_Some in Hk. by rewrite Hk in H.
Qed.

(** ** Lemmas: organisations and workspaces *)

Lemma elem_of_merge_ignore into incoming e : e ∈ merge_ignore into incoming ↔ e ∈ into ∨ e ∈ incoming.
Proof.
  revert into. induction incoming as [|x l IH]; intros into; simpl.
  { rewrite elem_of_nil. naive_solver. }
  unfold merge_ignore in *. simpl. rewrite IH, elem_of_cons. destruct (str_in x into) eqn:Hx.
  - apply str_in_true in Hx. naive_solver.
  - rewrite elem_of_app, list_elem_of_singleton. naive_solver.
Qed.

(** One organisation's bindings out of two files'. *)
Record org_union (o1 o2 o : GitHubOrg) : Prop := {
  ou_once : o_Members o1 = [] ∨ o_Members o2 = [];
  ou_members : o_Members o = o_Members o1 ++ o_Members o2;
  ou_disjoint : o_Teams o1 ##ₘ o_Teams o2;
  ou_teams : o_Teams o = o_Teams o1 ∪ o_Teams o2;
  ou_ignore : ∀ e, e ∈ o_Ignore o ↔ e ∈ o_Ignore o1 ∨ e ∈ o_Ignore o2 }.

Lemma merge_org_ok file org o1 o2 o : merge_org file org o1 o2 = Ok o → org_union o1 o2 o.
Proof.
  intros H. unfold merge_org in H. apply bind_ok in H as (m&Hm&H). apply bind_ok in H as (t&Ht&H).
  injection H as <-. apply mergeTable_ok in Ht as [Hd ->].
  split; simpl; try done; [|..|apply elem_of_merge_ignore].
  - destruct (o_Members o2); [by right|]. destruct (o_Members o1); [by left|done].
  - destruct (o_Members o2), (o_Members o1); simplify_eq; by rewrite ?app_nil_r.
Qed.

(** Any two organisations that may be merged are, and only the order of the
    ignore list depends on which is read first. *)
Lemma merge_org_total file org o1 o2 :
  (o_Members o1 = [] ∨ o_Members o2 = []) → o_Teams o1 ##ₘ o_Teams o2 → ∃ o, merge_org file org o1 o2 = Ok o.
Proof.
  intros Hm Hd. unfold merge_org.
  rewrite (proj2 (mergeTable_ok _ _ _ (o_Teams o1 ∪ o_Teams o2)) (conj Hd eq_refl)).
  destruct (o_Members o2) as [|], (o_Members o1) as [|]; simpl; eauto. by destruct Hm.
Qed.

Definition org_same (o1 o2 : GitHubOrg) : Prop :=
  o_Members o1 = o_Members o2 ∧ o_Teams o1 = o_Teams o2 ∧ ∀ e, e ∈ o_Ignore o1 ↔ e ∈ o_Ignore o2.

Lemma org_union_no_org o o' : org_union no_org o o' → org_same o o' .
Proof.
  intros [_ Hm _ Ht Hi]. simpl in *. split; [done|]. split; [by rewrite Ht, (left_id_L ∅ (∪))|].
  intros e. rewrite Hi, elem_of_nil. naive_solver.
Qed.

Lemma org_union_comm o1 o2 o o' : org_union o1 o2 o → org_union o2 o1 o' → org_same o o'.
Proof.
  intros [H1 Hm Hd Ht Hi] [_ Hm' _ Ht' Hi']. split; [|split].
  - rewrite Hm, Hm'. destruct H1 as [->| ->]; by rewrite app_nil_r.
  - rewrite Ht, Ht'. by apply map_union_comm.
  - intros e. rewrite Hi, Hi'. naive_solver.
Qed.

Lemma merge_github_sym file file' g1 g2 m : merge_each no_org (merge_org file) g1 g2 = Ok m →
  ∃ m', merge_each no_org (merge_org file') g2 g1 = Ok m' ∧ ∀ k, option_Forall2 org_same (m !! k) (m' !! k).
Proof.
  rewrite merge_each_ok. intros Hm.
  assert (∀ k, ∃ v', option_Forall2 org_same (m !! k) v' ∧
    match g1 !! k with
    | None => v' = g2 !! k
    | Some o => ∃ o', merge_org file' k (default no_org (g2 !! k)) o = Ok o' ∧ v' = Some o'
    end) as Hk.
  { intros k. specialize (Hm k). unfold each_at in Hm.
    destruct (g2 !! k) as [o2|] eqn:H2, (g1 !! k) as [o1|] eqn:H1; simpl in *.
    - destruct Hm as (v&Hv&->). apply merge_org_ok in Hv as Hu.
      destruct (merge_org_total file' k o2 o1) as [o' Ho']; [destruct (ou_once _ _ _ Hu); auto|by symmetry; eapply ou_disjoint|].
      exists (Some o'). split; [|by eauto]. constructor. eapply org_union_comm; [done|]. by eapply merge_org_ok.
    - destruct Hm as (v&Hv&->). exists (Some o2). split; [|done]. constructor.
      apply merge_org_ok, org_union_no_org in Hv as (?&?&?). split; [done|]. split; [done|]. naive_solver.
    - destruct (merge_org_total file' k no_org o1) as [o' Ho']; [by left|apply map_disjoint_empty_l|].
      exists (Some o'). rewrite Hm. split; [|by eauto]. constructor. by eapply org_union_no_org, merge_org_ok.
    - exists None. rewrite Hm. split; [constructor|done]. }
  exists (map_imap (λ k _, match g1 !! k with
      | None => g2 !! k
      | Some o => match merge_org file' k (default no_org (g2 !! k)) o with Ok o' => Some o' | Err _ => None end
      end) (g1 ∪ g2)).
  assert (∀ k v', (match g1 !! k with
      | None => v' = g2 !! k
      | Some o => ∃ o', merge_org file' k (default no_org (g2 !! k)) o = Ok o' ∧ v' = Some o' end) →
    map_imap (λ k _, match g1 !! k with
      | None => g2 !! k
      | Some o => match merge_org file' k (default no_org (g2 !! k)) o with Ok o' => Some o' | Err _ => None end
      end) (g1 ∪ g2) !! k = v') as Hv.
  { intros k v' H. rewrite map_lookup_imap, lookup_union. destruct (g1 !! k) as [o|] eqn:H1.
    - destruct H as (o'&Ho&->). destruct (g2 !! k); simpl in *; by rewrite Ho.
    - subst v'. by destruct (g2 !! k). }
  split.
  - apply merge_each_ok. intros k. unfold each_at. destruct (Hk k) as (v'&_&H). rewrite (Hv k v' H).
    destruct (g1 !! k); [|done]. destruct H as (o'&?&->). eauto.
  - intros k. destruct (Hk k) as (v'&?&H). by rewrite (Hv k v' H).
Qed.

Lemma merge_workspace_ok file key w1 w2 w :
  merge_workspace file key w1 w2 = Ok w ↔
  w_Channels w1 ##ₘ w_Channels w2 ∧ w = mkSlackWorkspace (w_Channels w1 ∪ w_Channels w2).
Proof.
  unfold merge_workspace. split.
  - intros (c&Hc&H)%bind_ok. apply mergeTable_ok in Hc as [? ->]. by injection H as <-.
  - intros [Hd ->]. by rewrite (proj2 (mergeTable_ok _ _ _ _) (conj Hd eq_refl)).
Qed.

Lemma merge_slack_sym file file' s1 s2 m : mergeSlack file s1 s2 = Ok m → mergeSlack file' s2 s1 = Ok m.
Proof.
  unfold mergeSlack. rewrite !merge_each_ok. intros Hm k. specialize (Hm k). unfold each_at in *.
  destruct (s2 !! k) as [[c2]|], (s1 !! k) as [[c1]|]; simpl in *.
  - destruct Hm as (v&Hv&->). apply merge_workspace_ok in Hv as [Hd ->]. simpl in *.
    exists (mkSlackWorkspace (c1 ∪ c2)). split; [|done]. apply merge_workspace_ok. simpl.
    split; [done|]. by rewrite (map_union_comm c1 c2).
  - destruct Hm as (v&Hv&->). apply merge_workspace_ok in Hv as [_ ->]. simpl. by rewrite (left_id_L ∅ (∪)).
  - exists (mkSlackWorkspace c1). split; [|done]. apply merge_workspace_ok. simpl.
    split; [apply map_disjoint_empty_l|]. by rewrite (left_id_L ∅ (∪)).
  - done.
Qed.

(** ** The specification of a merge *)

(** [r] declares what [p] and [q] declare, each thing once, and no more. *)
Record merged (p q r : Policy) : Prop := {
  mg_version : Version q = 1%Z ∧ Version r = Version p;
  mg_vocabulary : (p_Vocabulary p = None ∨ p_Vocabulary q = None) ∧
    p_Vocabulary r = (match p_Vocabulary p with Some v => Some v | None => p_Vocabulary q end);
  mg_documents : (p_ClientDocuments p = no_documents ∧ p_ClientDocuments r = p_ClientDocuments q) ∨
    (p_ClientDocuments q = no_documents ∧ p_ClientDocuments r = p_ClientDocuments p);
  mg_groups : Groups p ##ₘ Groups q ∧ Groups r = Groups p ∪ Groups q;
  mg_claims : p_Claims p ##ₘ p_Claims q ∧ p_Claims r = p_Claims p ∪ p_Claims q;
  mg_lifetimes : Lifetimes p ##ₘ Lifetimes q ∧ Lifetimes r = Lifetimes p ∪ Lifetimes q;
  mg_resources : Resources p ##ₘ Resources q ∧ Resources r = Resources p ∪ Resources q;
  mg_clients : Clients p ##ₘ Clients q ∧ Clients r = Clients p ∪ Clients q;
  mg_people : People p ##ₘ People q ∧ People r = People p ∪ People q;
  mg_github : ∀ org, org_union (default no_org (GitHub p !! org)) (default no_org (GitHub q !! org))
                               (default no_org (GitHub r !! org)) ∨
                     (GitHub q !! org = None ∧ GitHub r !! org = GitHub p !! org);
  mg_slack : ∀ key, let channels x := w_Channels (default no_workspace (Slack x !! key)) in
    channels p ##ₘ channels q ∧ channels r = channels p ∪ channels q }.

(** What [mergeLayer] that succeeded did, table by table. *)
Lemma mergeLayer_steps p q file r : mergeLayer p q file = Ok r →
  ∃ voc docs gr cl li re ct gh pe sl,
    Version q = 1%Z ∧
    (match p_Vocabulary q, p_Vocabulary p with
     | None, v => Ok v | v, None => Ok v | Some _, Some _ => Err (ClashVocabulary file) end) = Ok voc ∧
    (if bool_decide (p_ClientDocuments q = no_documents) then Ok (p_ClientDocuments p)
     else if bool_decide (p_ClientDocuments p = no_documents) then Ok (p_ClientDocuments q)
     else Err (ClashDocuments file)) = Ok docs ∧
    mergeTable (Groups p) (Groups q) (ClashGroup file) = Ok gr ∧
    mergeTable (p_Claims p) (p_Claims q) (ClashClaims file) = Ok cl ∧
    mergeTable (Lifetimes p) (Lifetimes q) (ClashLifetime file) = Ok li ∧
    mergeTable (Resources p) (Resources q) (ClashResource file) = Ok re ∧
    mergeTable (Clients p) (Clients q) (ClashClient file) = Ok ct ∧
    merge_each no_org (merge_org file) (GitHub p) (GitHub q) = Ok gh ∧
    mergeTable (People p) (People q) (ClashPerson file) = Ok pe ∧
    mergeSlack file (Slack p) (Slack q) = Ok sl ∧
    r = mkPolicy (Version p) voc gr cl li re docs ct gh pe sl.
Proof.
  unfold mergeLayer. rewrite bind_ok. intros ([]&Hv&H). apply check_ok, Z.eqb_eq in Hv.
  repeat (apply bind_ok in H as (?&?&H)). injection H as <-. eauto 25.
Qed.

Lemma mergeLayer_merged p q file r : mergeLayer p q file = Ok r → merged p q r.
Proof.
  intros (voc&docs&gr&cl&li&re&ct&gh&pe&sl&Hver&Hvoc&Hdocs&Hgr&Hcl&Hli&Hre&Hct&Hgh&Hpe&Hsl&->)%mergeLayer_steps.
  apply mergeTable_ok in Hgr, Hcl, Hli, Hre, Hct, Hpe. unfold mergeSlack in Hsl.
  rewrite merge_each_ok in Hgh. rewrite merge_each_ok in Hsl. split; simpl; try done.
  - destruct (p_Vocabulary q), (p_Vocabulary p); simplify_eq; auto.
  - repeat case_bool_decide; simplify_eq; auto.
  - intros org. specialize (Hgh org). unfold each_at in Hgh. destruct (GitHub q !! org) as [o|]; simpl; [|by auto].
    destruct Hgh as (v&Hv&->). left. simpl. by eapply merge_org_ok.
  - intros key. specialize (Hsl key). unfold each_at in Hsl. destruct (Slack q !! key) as [w|]; simpl.
    + destruct Hsl as (v&Hv&->). by apply merge_workspace_ok in Hv as [? ->].
    + rewrite Hsl. split; [apply map_disjoint_empty_r|]. by rewrite (right_id_L ∅ (∪)).
Qed.

(** Two policies that differ at most in the order of an organisation's ignored
    accounts. *)
Record same_policy (p q : Policy) : Prop := {
  sp_vocabulary : p_Vocabulary p = p_Vocabulary q;
  sp_documents : p_ClientDocuments p = p_ClientDocuments q;
  sp_groups : Groups p = Groups q;
  sp_claims : p_Claims p = p_Claims q;
  sp_lifetimes : Lifetimes p = Lifetimes q;
  sp_resources : Resources p = Resources q;
  sp_clients : Clients p = Clients q;
  sp_people : People p = People q;
  sp_github : ∀ org, option_Forall2 org_same (GitHub p !! org) (GitHub q !! org);
  sp_slack : Slack p = Slack q }.

(** ** The properties *)

(** a file that merges into a policy loses nothing and overwrites nothing:
    every table of the result is the disjoint union of the two (teams and
    channels within an organisation and a workspace, an organisation's own
    members from one file alone, its ignored accounts from both), and the
    vocabulary and the documents block come from one file at most. *)
Theorem mergeLayer_lossless p q file r (Hm : mergeLayer p q file = Ok r) : merged p q r.
Proof. by eapply mergeLayer_merged. Qed.

Definition layer_github : Policy := mkPolicy 1 None {["rung:sre" := mkGroup ["sre@example.com"] []]} ∅ ∅ ∅ no_documents ∅
  {["example" := mkGitHubOrg ["rung:sre"] ∅ ["owner-bot"]]} ∅ ∅.
Definition layer_teams : Policy := mkPolicy 1 None ∅ ∅ ∅ ∅ no_documents ∅
  {["example" := mkGitHubOrg [] {["sre" := mkGitHubTeam ["rung:sre"] []]} ["old-bot"; "owner-bot"]]} ∅ ∅.

Lemma mergeLayer_lossless_witness :
  ∃ r, mergeLayer layer_github layer_teams "teams.yaml" = Ok r ∧ merged layer_github layer_teams r ∧
  GitHub r !! "example" = Some (mkGitHubOrg ["rung:sre"] {["sre" := mkGitHubTeam ["rung:sre"] []]} ["owner-bot"; "old-bot"]).
Proof.
  eexists. split; [vm_compute; reflexivity|]. split.
  - apply (mergeLayer_lossless _ _ "teams.yaml"). by vm_compute.
  - by vm_compute.
Defined.

(** which of two files is read first does not matter: merged the other way
    round they give the same policy, up to the order of ignored accounts, and
    every proof resolves the same under both. *)
Theorem mergeLayer_order p q file file' r (Hp : Version p = 1%Z) (Hm : mergeLayer p q file = Ok r) :
  ∃ r', mergeLayer q p file' = Ok r' ∧ same_policy r r' ∧ ∀ inp, Evaluate r inp = Evaluate r' inp.
Proof.
  apply mergeLayer_steps in Hm as (voc&docs&gr&cl&li&re&ct&gh&pe&sl&Hver&Hvoc&Hdocs&Hgr&Hcl&Hli&Hre&Hct&Hgh&Hpe&Hsl&->).
  apply (merge_github_sym file file') in Hgh as (gh'&Hgh'&Hsame).
  exists (mkPolicy (Version q) voc gr cl li re docs ct gh' pe sl). split; [|split].
  - unfold mergeLayer. rewrite Hp. simpl.
    assert ((match p_Vocabulary p, p_Vocabulary q with
      | None, v => Ok v | v, None => Ok v | Some _, Some _ => Err (ClashVocabulary file') end) = Ok voc) as ->.
    { destruct (p_Vocabulary q), (p_Vocabulary p); naive_solver. }
    simpl. assert ((if bool_decide (p_ClientDocuments p = no_documents) then Ok (p_ClientDocuments q)
      else if bool_decide (p_ClientDocuments q = no_documents) then Ok (p_ClientDocuments p)
      else Err (ClashDocuments file')) = Ok docs) as ->.
    { repeat case_bool_decide; simplify_eq; congruence. }
    simpl. by rewrite (mergeTable_sym _ _ _ _ _ Hgr), (mergeTable_sym _ _ _ _ _ Hcl), (mergeTable_sym _ _ _ _ _ Hli),
      (mergeTable_sym _ _ _ _ _ Hre), (mergeTable_sym _ _ _ _ _ Hct), Hgh', (mergeTable_sym _ _ _ _ _ Hpe),
      (merge_slack_sym _ file' _ _ _ Hsl).
  - by split.
  - done.
Qed.

Lemma mergeLayer_order_witness :
  ∃ r', mergeLayer layer_teams layer_github "org.yaml" = Ok r' ∧
  GitHub r' !! "example" = Some (mkGitHubOrg ["rung:sre"] {["sre" := mkGitHubTeam ["rung:sre"] []]} ["old-bot"; "owner-bot"]).
Proof.
  destruct (mergeLayer layer_github layer_teams "teams.yaml") as [r|] eqn:Hm; [|vm_compute in Hm; discriminate Hm].
  destruct (mergeLayer_order layer_github layer_teams "teams.yaml" "org.yaml" r eq_refl Hm) as (r'&Hr'&_).
  exists r'. split; [exact Hr'|]. vm_compute in Hr'. injection Hr' as <-. by vm_compute.
Defined.
