(* ===== verification/Sha256.v ===== *)
(** * Sha256: the hash behind fingerprints

    [crypto/sha256] and [encoding/hex] on byte strings, from FIPS 180-4: words
    are [Z] below 2^32, bytes [Z] below 256.  Executable, so a fingerprint can
    be computed; the test vectors are the standard's own. *)

From S2P Require Import Prelude GoStrings.
Open Scope Z_scope.

Definition word_mask : Z := 4294967295.
Definition w32 (x : Z) : Z := Z.land x word_mask.
Definition add32 (x y : Z) : Z := w32 (x + y).
Definition rotr (n x : Z) : Z := w32 (Z.lor (Z.shiftr x n) (Z.shiftl x (32 - n))).

Definition round_constants : list Z :=
 [1116352408; 1899447441; 3049323471; 3921009573; 961987163; 1508970993; 2453635748; 2870763221;
  3624381080; 310598401; 607225278; 1426881987; 1925078388; 2162078206; 2614888103; 3248222580;
  3835390401; 4022224774; 264347078; 604807628; 770255983; 1249150122; 1555081692; 1996064986;
  2554220882; 2821834349; 2952996808; 3210313671; 3336571891; 3584528711; 113926993; 338241895;
  666307205; 773529912; 1294757372; 1396182291; 1695183700; 1986661051; 2177026350; 2456956037;
  2730485921; 2820302411; 3259730800; 3345764771; 3516065817; 3600352804; 4094571909; 275423344;
  430227734; 506948616; 659060556; 883997877; 958139571; 1322822218; 1537002063; 1747873779;
  1955562222; 2024104815; 2227730452; 2361852424; 2428436474; 2756734187; 3204031479; 3329325298].

Definition initial_hash : list Z :=
  [1779033703; 3144134277; 1013904242; 2773480762; 1359893119; 2600822924; 528734635; 1541459225].

Fixpoint bytes_of (s : string) : list Z :=
  match s with
  | EmptyString => []
  | String c t => Z.of_nat (nat_of_ascii c) :: bytes_of t
  end.

(** A number's [n] low bytes, most significant first. *)
Fixpoint be_bytes (n : nat) (x : Z) : list Z :=
  match n with
  | O => []
  | S n => Z.land (Z.shiftr x (8 * Z.of_nat n)) 255 :: be_bytes n x
  end.

(** A one bit, zeros up to eight bytes short of a block, the length in bits. *)
Definition pad (l : list Z) : list Z :=
  let n := length l in
  l ++ [128] ++ replicate ((119 - n mod 64) mod 64) 0 ++ be_bytes 8 (8 * Z.of_nat n).

Fixpoint words (l : list Z) : list Z :=
  match l with
  | a :: b :: c :: d :: rest =>
      Z.lor (Z.shiftl a 24) (Z.lor (Z.shiftl b 16) (Z.lor (Z.shiftl c 8) d)) :: words rest
  | _ => []
  end.

(** The message schedule, kept most recent first. *)
Fixpoint schedule (n : nat) (recent : list Z) : list Z :=
  match n with
  | O => recent
  | S n =>
      let w i := nth i recent 0 in
      let s0 := Z.lxor (rotr 7 (w 14%nat)) (Z.lxor (rotr 18 (w 14%nat)) (Z.shiftr (w 14%nat) 3)) in
      let s1 := Z.lxor (rotr 17 (w 1%nat)) (Z.lxor (rotr 19 (w 1%nat)) (Z.shiftr (w 1%nat) 10)) in
      schedule n (add32 (add32 (w 15%nat) s0) (add32 (w 6%nat) s1) :: recent)
  end.

Definition compress (v : list Z) (kw : Z * Z) : list Z :=
  match v with
  | [a; b; c; d; e; f; g; h] =>
      let s1 := Z.lxor (rotr 6 e) (Z.lxor (rotr 11 e) (rotr 25 e)) in
      let ch := Z.lxor (Z.land e f) (Z.land (Z.lxor e word_mask) g) in
      let t1 := add32 (add32 h s1) (add32 ch (add32 (fst kw) (snd kw))) in
      let s0 := Z.lxor (rotr 2 a) (Z.lxor (rotr 13 a) (rotr 22 a)) in
      let maj := Z.lxor (Z.land a b) (Z.lxor (Z.land a c) (Z.land b c)) in
      [add32 t1 (add32 s0 maj); a; b; c; add32 d t1; e; f; g]
  | _ => v
  end.

Definition block (hash : list Z) (ws : list Z) : list Z :=
  zip_with add32 hash (foldl compress hash (zip round_constants (rev (schedule 48 (rev ws))))).

(** The blocks of a padded message; [n] of them. *)
Fixpoint blocks (n : nat) (hash ws : list Z) : list Z :=
  match n with
  | O => hash
  | S n => blocks n (block hash (take 16 ws)) (drop 16 ws)
  end.

(** [sha256.Sum256] *)
Definition Sum256 (s : string) : list Z :=
  let ws := words (pad (bytes_of s)) in
  mjoin (be_bytes 4 <$> blocks (length ws / 16)%nat initial_hash ws).

(** [hex.EncodeToString] *)
Definition hex_digit (x : Z) : ascii :=
  ascii_of_nat (Z.to_nat (if x <? 10 then 48 + x else 87 + x)).
Fixpoint hex (l : list Z) : string :=
  match l with
  | [] => ""
  | x :: l => String (hex_digit (Z.shiftr x 4)) (String (hex_digit (Z.land x 15)) (hex l))
  end.

Example sha256_empty : hex (Sum256 "") = "e3b0c44298fc1c149afbf4c8996fb92427ae41e4649b934ca495991b7852b855".
Proof. by vm_compute. Qed.

Example sha256_abc : hex (Sum256 "abc") = "ba7816bf8f01cfea414140de5dae2223b00361a396177a9cb410ff61f20015ad".
Proof. by vm_compute. Qed.

Example sha256_two_blocks : hex (Sum256 "abcdbcdecdefdefgefghfghighijhijkijkljklmklmnlmnomnopnopq") =
  "248d6a61d20638b8e5c026930c3e6039a33ce45964ff2167f6ecedd419db06c1".
Proof. by vm_compute. Qed.

Close Scope Z_scope.
