(* ===== verification/Base64.v ===== *)
(** * Base64: [base64.RawURLEncoding]

    The unpadded URL alphabet of RFC 4648, as Go's [encoding/base64] reads and
    writes it: bytes and sextets in [Z], a group of three bytes at a time.
    Decoding skips line breaks, refuses a byte outside the alphabet and a lone
    sextet, and ignores the unused low bits of the last one. *)

From S2P Require Import Prelude GoStrings Sha256.
Open Scope Z_scope.

(** The alphabet. *)
Definition sextet_char (x : Z) : ascii :=
  ascii_of_nat (Z.to_nat (if x <? 26 then 65 + x else if x <? 52 then 71 + x else if x <? 62 then x - 4
                          else if x =? 62 then 45 else 95)).
Definition char_sextet (c : ascii) : option Z :=
  let n := Z.of_nat (nat_of_ascii c) in
  if (65 <=? n) && (n <=? 90) then Some (n - 65)
  else if (97 <=? n) && (n <=? 122) then Some (n - 71)
  else if (48 <=? n) && (n <=? 57) then Some (n + 4)
  else if n =? 45 then Some 62
  else if n =? 95 then Some 63
  else None.

(** Bytes to sextets, and back. *)
Fixpoint to_sextets (l : list Z) : list Z :=
  match l with
  | a :: b :: c :: rest => a / 4 :: (a mod 4) * 16 + b / 16 :: (b mod 16) * 4 + c / 64 :: c mod 64 :: to_sextets rest
  | [a; b] => [a / 4; (a mod 4) * 16 + b / 16; (b mod 16) * 4]
  | [a] => [a / 4; (a mod 4) * 16]
  | [] => []
  end.
Fixpoint of_sextets (l : list Z) : option (list Z) :=
  match l with
  | p :: q :: r :: s :: rest =>
      rest' ← of_sextets rest; Some (p * 4 + q / 16 :: (q mod 16) * 16 + r / 4 :: (r mod 4) * 64 + s :: rest')
  | [p; q; r] => Some [p * 4 + q / 16; (q mod 16) * 16 + r / 4]
  | [p; q] => Some [p * 4 + q / 16]
  | [_] => None
  | [] => Some []
  end.

Fixpoint string_of_bytes (l : list Z) : string :=
  match l with [] => "" | x :: l => String (ascii_of_nat (Z.to_nat x)) (string_of_bytes l) end.

Definition EncodeToString (s : string) : string := String.string_of_list_ascii (sextet_char <$> to_sextets (bytes_of s)).

Definition line_break (c : ascii) : bool := bool_decide (c = "010"%char) || bool_decide (c = "013"%char).
Definition DecodeString (s : string) : option string :=
  sextets ← mapM char_sextet (List.filter (λ c, negb (line_break c)) (String.list_ascii_of_string s));
  string_of_bytes <$> of_sextets sextets.

Example base64_vector : EncodeToString "light w" = "bGlnaHQgdw". Proof. reflexivity. Qed.
Example base64_back : DecodeString "bGlnaHQgdw" = Some "light w". Proof. reflexivity. Qed.
Example base64_url : EncodeToString (string_of_bytes [251; 255; 254]) = "-__-". Proof. reflexivity. Qed.

(** ** Decoding undoes encoding *)

Definition is_byte (x : Z) : Prop := 0 <= x < 256.
Definition is_sextet (x : Z) : Prop := 0 <= x < 64.

Lemma triple_ind (P : list Z → Prop) : P [] → (∀ a, P [a]) → (∀ a b, P [a; b]) →
  (∀ a b c l, P l → P (a :: b :: c :: l)) → ∀ l, P l.
Proof. intros H0 H1 H2 H3. fix rec 1. intros [|a [|b [|c l]]]; [apply H0|apply H1|apply H2|apply H3, rec]. Qed.

Lemma high_part m x y : 0 <= y < m → (x * m + y) / m = x.
Proof. intros H. rewrite Z.div_add_l, Z.div_small by lia. lia. Qed.
Lemma low_part m x y : 0 <= y < m → (x * m + y) mod m = y.
Proof. intros H. rewrite Z.add_comm, Z_mod_plus_full. by apply Z.mod_small. Qed.
Lemma parts m x : 0 < m → x / m * m + x mod m = x.
Proof. intros H. rewrite (Z.div_mod x m) at 3 by lia. lia. Qed.

(** The parts of a byte at a power of two, and their bounds. *)
Lemma byte_parts x : is_byte x →
  0 <= x / 4 < 64 ∧ 0 <= x mod 4 < 4 ∧ 0 <= x / 16 < 16 ∧ 0 <= x mod 16 < 16 ∧ 0 <= x / 64 < 4 ∧ 0 <= x mod 64 < 64.
Proof.
  unfold is_byte. intros Hx.
  assert (∀ m k, 0 < m → 256 = m * k → 0 <= x / m < k) as Hdiv.
  { intros m k Hm Hk. split; [apply Z.div_pos; lia|apply Z.div_lt_upper_bound; lia]. }
  destruct (Hdiv 4 64), (Hdiv 16 16), (Hdiv 64 4); [done..|].
  destruct (Z.mod_pos_bound x 4), (Z.mod_pos_bound x 16), (Z.mod_pos_bound x 64); [done..|]. by split_and!.
Qed.

Lemma sextets_roundtrip l : Forall is_byte l → Forall is_sextet (to_sextets l) ∧ of_sextets (to_sextets l) = Some l.
Proof.
  unfold is_sextet.
  induction l as [|a|a b|a b c l IH] using triple_ind; rewrite ?Forall_cons.
  - done.
  - intros [(?&?&_)%byte_parts _]. cbn [to_sextets of_sextets]. split; [repeat constructor; lia|].
    rewrite <- (Z.add_0_r (_ * 16)), high_part, parts by lia. done.
  - intros ((?&?&_)%byte_parts&(_&_&?&?&_)%byte_parts&_). cbn [to_sextets of_sextets]. split; [repeat constructor; lia|].
    rewrite high_part, low_part, <- (Z.add_0_r (b mod 16 * 4)), high_part, !parts by lia. done.
  - intros ((?&?&_)%byte_parts&(_&_&?&?&_)%byte_parts&(_&_&_&_&?&?)%byte_parts&Hl). destruct (IH Hl) as [Hs Heq].
    cbn [to_sextets of_sextets]. rewrite Heq. cbn [mbind option_bind]. split; [repeat constructor; lia || done|].
    by rewrite !high_part, !low_part, !parts by lia.
Qed.

Lemma sextet_char_back x : is_sextet x → char_sextet (sextet_char x) = Some x ∧ line_break (sextet_char x) = false.
Proof.
  intros Hx. assert (Forall (λ x, char_sextet (sextet_char x) = Some x ∧ line_break (sextet_char x) = false)
    (Z.of_nat <$> seq 0 64)) as Hall by (apply (bool_decide_unpack _); vm_compute; exact I).
  apply (proj1 (Forall_forall _ _) Hall). apply list_elem_of_fmap. exists (Z.to_nat x).
  unfold is_sextet in Hx. split; [lia|]. apply elem_of_seq. lia.
Qed.

Lemma bytes_of_bytes s : Forall is_byte (bytes_of s).
Proof. induction s as [|c s IH]; simpl; constructor; [|done]. unfold is_byte. pose proof (nat_ascii_bounded c). lia. Qed.

Lemma string_of_bytes_of s : string_of_bytes (bytes_of s) = s.
Proof. induction s as [|c s IH]; simpl; [done|]. by rewrite Nat2Z.id, ascii_nat_embedding, IH. Qed.

Lemma Base64_roundtrip s : DecodeString (EncodeToString s) = Some s.
Proof.
  unfold DecodeString, EncodeToString. rewrite String.list_ascii_of_string_of_list_ascii.
  destruct (sextets_roundtrip (bytes_of s) (bytes_of_bytes s)) as [Hs Heq].
  assert (mapM char_sextet (List.filter (λ c, negb (line_break c)) (sextet_char <$> to_sextets (bytes_of s))) =
    Some (to_sextets (bytes_of s))) as ->.
  { clear Heq. induction Hs as [|x l Hx Hl IH]; [done|]. destruct (sextet_char_back x Hx) as [Hc Hb].
    cbn [fmap list_fmap List.filter]. rewrite Hb. cbn [negb mapM]. rewrite Hc. simpl. by rewrite IH. }
  cbn [mbind option_bind]. rewrite Heq. simpl. by rewrite string_of_bytes_of.
Qed.

Close Scope Z_scope.

Lemma contains_byte_list c (l : list ascii) :
  contains_byte c (String.string_of_list_ascii l) = existsb (byte_eqb c) l.
Proof. induction l as [|a l IH]; simpl; [done|]. by rewrite <- IH. Qed.

(** The alphabet of Base64 has neither of the separators. *)
Lemma sextet_char_plain x : is_sextet x → byte_eqb "." (sextet_char x) = false ∧ byte_eqb ":" (sextet_char x) = false.
Proof.
  intros Hx. assert (Forall (λ x, byte_eqb "." (sextet_char x) = false ∧ byte_eqb ":" (sextet_char x) = false) (Z.of_nat <$> seq 0 64)) as Hall
    by (apply (bool_decide_unpack _); vm_compute; exact I).
  apply (proj1 (Forall_forall _ _) Hall). apply list_elem_of_fmap. exists (Z.to_nat x). unfold is_sextet in Hx. split; [lia|]. apply elem_of_seq. lia.
Qed.
Lemma EncodeToString_plain s : contains_byte "." (EncodeToString s) = false ∧ contains_byte ":" (EncodeToString s) = false.
Proof.
  unfold EncodeToString. rewrite !contains_byte_list. destruct (sextets_roundtrip (bytes_of s) (bytes_of_bytes s)) as [Hs _].
  induction Hs as [|x l Hx Hl [IH1 IH2]]; [done|]. cbn [fmap list_fmap existsb]. destruct (sextet_char_plain x Hx) as [-> ->]. done.
Qed.
