(* ===== verification/Port.v ===== *)
(** * Port: the storage edge, and what every adapter promises

    [internal/port]: the errors, the check every write passes, the page tokens
    of a listing, and the State port as an interface: a class of operations
    ([State], the Go interface) and a class of laws ([StateSpec], the semantics
    the interface's comments and docs/design/ports.md give it).  A client's
    theorems are proved against the laws; an adapter's instance discharges them.

    Time is in nanoseconds.  A value is a byte string; a revision is opaque. *)

From S2P Require Import Prelude GoStrings Base64.

Implicit Types (key value prefix rev : string) (ttl : Z).

(** [internal/port/port.go:20-47 Errors] *)
Inductive port_error : Type :=
| ErrNotFound | ErrExists | ErrConflict | ErrBadPage | ErrTooLarge | ErrNoLifetime.
#[global] Instance port_error_eq_dec : EqDecision port_error.
Proof. solve_decision. Defined.

(** [internal/port/port.go:49-51 MaxValue] *)
Definition MaxValue : Z := Z.shiftl 256 10.

(** [internal/port/layout.go:13-15 permanent] *)
Definition permanent : list string := ["ws."; "gh.org."; "gh.link."; "app."; "rec."].

(** [internal/port/layout.go:Permanent] *)
Definition Permanent key : bool := existsb (HasPrefix key) permanent.

(** [internal/port/layout.go:CheckWrite]; [None] is nil. *)
Definition CheckWrite key value ttl : option port_error :=
  if (MaxValue <? Z.of_nat (String.length value))%Z then Some ErrTooLarge
  else if ((ttl <? 0) || ((ttl =? 0) && negb (Permanent key)))%Z then Some ErrNoLifetime
  else None.

(** [internal/port/layout.go:39-41 DefaultPage] *)
Definition DefaultPage : nat := 100.

Definition nul : ascii := "000".

(** [internal/port/layout.go:PageToken] *)
Definition PageToken prefix (last : string) : string := EncodeToString (prefix +:+ String nul last).

(** [internal/port/layout.go:PageStart] *)
Definition PageStart prefix (token : string) : result port_error string :=
  if empty token then Ok ""
  else match DecodeString token with
       | None => Err ErrBadPage
       | Some raw =>
           match cut_on nul raw with
           | Some (p, last) => if bool_decide (p = prefix) then Ok last else Err ErrBadPage
           | None => Err ErrBadPage
           end
       end.

(** [internal/port/port.go:type Record] *)
Record KVRecord := mkKV { kv_Key : string; kv_Value : string; kv_Revision : string }.
(** [internal/port/port.go:type Page] *)
Record Page := mkPage { pg_Records : list KVRecord; pg_Next : string }.
(** [internal/port/port.go:type Event] *)
Inductive Event := EvWritten (key rev : string) | EvDeleted (key rev : string) | EvFellBehind.

(** ** The State port *)

(** [internal/port/port.go:type State]: the operations on records, as functions of
    the store's state, and the passing of time. *)
Class State (S : Type) := {
  st_Get : S → string → result port_error KVRecord;
  st_Put : S → string → string → Z → result port_error string * S;
  st_Create : S → string → string → Z → result port_error string * S;
  st_Update : S → string → string → Z → string → result port_error string * S;
  st_Delete : S → string → S;
  st_DeleteIfRevision : S → string → string → result port_error unit * S;
  st_wait : S → Z → S }.

(** A live record, as the laws see it: its value, its revision, when it ends. *)
Record live_record := mkLive { lv_value : string; lv_rev : string; lv_expires : option Z }.

(** Whether something that ends then, if ever, is still there now. *)
Definition alive (now : Z) (expires : option Z) : bool :=
  match expires with Some at_ => (now <? at_)%Z | None => true end.

(** A write at time [now]: one key, a revision nobody was ever given. *)
Definition written {S} (view : S → string → option live_record) (issued : S → string → Prop) (now : Z)
    (s : S) key value ttl rev (s' : S) : Prop :=
  ¬ issued s rev ∧ (∀ r, issued s' r ↔ issued s r ∨ r = rev) ∧
  view s' key = Some (mkLive value rev (if (ttl =? 0)%Z then None else Some (now + ttl)%Z)) ∧
  ∀ key', key' ≠ key → view s' key' = view s key'.

(** What every adapter promises.  [sp_ok n s]: [s] is well formed and has room for
    [n] more writes before it runs out of revisions. *)
Class StateSpec (S : Type) `{State S} := {
  sp_ok : nat → S → Prop;
  sp_view : S → string → option live_record;
  sp_issued : S → string → Prop;
  sp_now : S → Z;
  sp_live : ∀ n s key r, sp_ok n s → sp_view s key = Some r →
    sp_issued s (lv_rev r) ∧ alive (sp_now s) (lv_expires r) = true;
  sp_weaken : ∀ n s, sp_ok (Datatypes.S n) s → sp_ok n s;
  sp_Get : ∀ n s key, sp_ok n s → st_Get s key =
    match sp_view s key with Some r => Ok (mkKV key (lv_value r) (lv_rev r)) | None => Err ErrNotFound end;
  sp_refused : ∀ n s key value ttl rev e, sp_ok n s → CheckWrite key value ttl = Some e →
    st_Put s key value ttl = (Err e, s) ∧ st_Create s key value ttl = (Err e, s) ∧
    st_Update s key value ttl rev = (Err e, s);
  sp_Put : ∀ n s key value ttl, sp_ok (Datatypes.S n) s → CheckWrite key value ttl = None →
    ∃ rev s', st_Put s key value ttl = (Ok rev, s') ∧ sp_ok n s' ∧ sp_now s' = sp_now s ∧
      written sp_view sp_issued (sp_now s) s key value ttl rev s';
  sp_Create : ∀ n s key value ttl, sp_ok (Datatypes.S n) s → CheckWrite key value ttl = None →
    (is_Some (sp_view s key) ∧ st_Create s key value ttl = (Err ErrExists, s)) ∨
    (sp_view s key = None ∧ ∃ rev s', st_Create s key value ttl = (Ok rev, s') ∧ sp_ok n s' ∧ sp_now s' = sp_now s ∧
      written sp_view sp_issued (sp_now s) s key value ttl rev s');
  sp_Update : ∀ n s key value ttl rev, sp_ok (Datatypes.S n) s → CheckWrite key value ttl = None →
    (sp_view s key = None ∧ st_Update s key value ttl rev = (Err ErrNotFound, s)) ∨
    (∃ r, sp_view s key = Some r ∧
      (lv_rev r ≠ rev ∧ st_Update s key value ttl rev = (Err ErrConflict, s) ∨
       lv_rev r = rev ∧ ∃ rev' s', st_Update s key value ttl rev = (Ok rev', s') ∧ sp_ok n s' ∧ sp_now s' = sp_now s ∧
         written sp_view sp_issued (sp_now s) s key value ttl rev' s'));
  sp_Delete : ∀ n s key, sp_ok n s → let s' := st_Delete s key in
    sp_ok n s' ∧ sp_now s' = sp_now s ∧ (∀ r, sp_issued s' r ↔ sp_issued s r) ∧
    sp_view s' key = None ∧ ∀ key', key' ≠ key → sp_view s' key' = sp_view s key';
  sp_DeleteIfRevision : ∀ n s key rev, sp_ok n s →
    (sp_view s key = None ∧ st_DeleteIfRevision s key rev = (Err ErrNotFound, s)) ∨
    (∃ r, sp_view s key = Some r ∧
      (lv_rev r ≠ rev ∧ st_DeleteIfRevision s key rev = (Err ErrConflict, s) ∨
       lv_rev r = rev ∧ st_DeleteIfRevision s key rev = (Ok tt, st_Delete s key)));
  sp_wait : ∀ n s d, sp_ok n s → (0 <= d)%Z → let s' := st_wait s d in
    sp_ok n s' ∧ sp_now s' = (sp_now s + d)%Z ∧ (∀ r, sp_issued s' r ↔ sp_issued s r) ∧
    ∀ key, sp_view s' key = match sp_view s key with
      | Some r => if alive (sp_now s') (lv_expires r) then Some r else None
      | None => None end }.
#[global] Hint Mode StateSpec + - : typeclass_instances.

(** ** Page tokens *)

Lemma cut_on_first c s t : contains_byte c s = false → cut_on c (s +:+ String c t) = Some (s, t).
Proof.
  induction s as [|d s IH]; [simpl; by rewrite byte_eqb_refl|]. rewrite contains_byte_cons.
  intros [Hd Hs]%orb_false_iff. apply byte_eqb_false in Hd. simpl.
  rewrite (proj2 (byte_eqb_false d c)) by done. by rewrite IH.
Qed.

Lemma EncodeToString_nonempty s : s ≠ "" → EncodeToString s ≠ "".
Proof.
  intros Hs Heq. apply (f_equal DecodeString) in Heq. rewrite Base64_roundtrip in Heq.
  change (DecodeString "") with (Some "") in Heq. congruence.
Qed.

Lemma PageStart_token prefix prefix' (last : string) : contains_byte nul prefix = false →
  PageStart prefix' (PageToken prefix last) = if bool_decide (prefix = prefix') then Ok last else Err ErrBadPage.
Proof.
  intros Hp. unfold PageStart, PageToken. rewrite (proj2 (empty_false _)).
  - by rewrite Base64_roundtrip, cut_on_first.
  - apply EncodeToString_nonempty. by destruct prefix.
Qed.

Lemma PageToken_nonempty prefix (last : string) : PageToken prefix last ≠ "".
Proof. apply EncodeToString_nonempty. by destruct prefix. Qed.

(** a page token names where its page starts, and is no token of another
    prefix: reading back a token gives the key it was made for, under the prefix
    it was made for, and any other prefix refuses it. *)
Theorem PageToken_roundtrip prefix prefix' (last : string) (Hp : contains_byte nul prefix = false) :
  PageStart prefix' (PageToken prefix last) = if bool_decide (prefix = prefix') then Ok last else Err ErrBadPage.
Proof. by apply PageStart_token. Qed.

Lemma PageToken_roundtrip_witness : PageStart "ses." (PageToken "ses." "ses.ada") = Ok "ses.ada" ∧
  PageStart "app." (PageToken "ses." "ses.ada") = Err ErrBadPage.
Proof.
  split.
  - rewrite PageToken_roundtrip; reflexivity.
  - rewrite PageToken_roundtrip; reflexivity.
Defined.

(** What a key and a value must be for a write to be let through. *)
Lemma CheckWrite_none key value ttl : CheckWrite key value ttl = None ↔
  (Z.of_nat (String.length value) <= 262144)%Z ∧ ((0 < ttl)%Z ∨ ttl = 0%Z ∧ Permanent key = true).
Proof.
  unfold CheckWrite. change MaxValue with 262144%Z.
  destruct (Z.ltb_spec 262144 (Z.of_nat (String.length value))); [split; [done|lia]|].
  destruct (Z.ltb_spec ttl 0), (Z.eqb_spec ttl 0), (Permanent key); simpl; split; intros; try done; try lia; naive_solver lia.
Qed.
