(* ===== verification/Memory.v ===== *)
(** * Memory: the in-memory store

    [internal/port/memory/memory.go]: records with lifetimes and revisions, sets,
    blobs, watches, and the tokens a test admits, under one lock, so each
    operation is one function of the whole store.  The clock is part of the
    store: [wait] is time passing, [Advance] is the test's way of moving it.

    A Go map the code ranges over while it emits events is read in key order.  A
    watch whose channel was closed stays in the table, marked, because its reader
    still holds the channel; nothing is sent to it any more.  The sealer (AES-GCM)
    is not modelled.

    The instance at the end says the store keeps every promise of the State port
    for as long as its 64-bit revision counter has not run out. *)

From stdpp Require Import pretty.
From S2P Require Import Prelude GoStrings Base64 Port.

Implicit Types (key value prefix rev name : string) (ttl : Z).

(** ** The state *)

(** [internal/port/memory/memory.go:type entry] *)
Record entry := mkEntry { e_value : string; e_rev : string; e_expires : option Z }.
(** [internal/port/memory/memory.go:type set] *)
Record member_set := mkSet { m_members : gset string; m_expires : option Z }.
(** [internal/port/memory/memory.go:type blob] *)
Record blob := mkBlob { b_body : string; b_version : string }.
(** [internal/port/memory/memory.go:type watch]; [w_ch] is what the channel holds. *)
Record watch := mkWatch { w_prefix : string; w_ch : list Event; w_closed : bool }.
(** [internal/port/memory/memory.go:type grant] *)
Record token_grant := mkGrant { tg_subject : string; tg_audiences : list string }.

(** [internal/port/memory/memory.go:type Store]; the clock is [now] and [offset] together. *)
Record Store := mkStore {
  s_clock : Z; s_rev : Z;
  s_records : gmap string entry; s_sets : gmap string member_set; s_blobs : gmap string blob;
  s_watches : gmap nat watch; s_nextW : nat; s_tokens : gmap string token_grant }.

(** [internal/port/memory/memory.go:New] *)
Definition New (now : Z) : Store := mkStore now 0 ∅ ∅ ∅ ∅ 0 ∅.

Definition with_records (s : Store) records watches : Store :=
  mkStore (s_clock s) (s_rev s) records (s_sets s) (s_blobs s) watches (s_nextW s) (s_tokens s).
Definition with_sets (s : Store) sets : Store :=
  mkStore (s_clock s) (s_rev s) (s_records s) sets (s_blobs s) (s_watches s) (s_nextW s) (s_tokens s).
Definition with_blobs (s : Store) blobs : Store :=
  mkStore (s_clock s) (s_rev s) (s_records s) (s_sets s) blobs (s_watches s) (s_nextW s) (s_tokens s).
Definition with_watches (s : Store) watches nextW : Store :=
  mkStore (s_clock s) (s_rev s) (s_records s) (s_sets s) (s_blobs s) watches nextW (s_tokens s).
Definition with_clock (s : Store) clock : Store :=
  mkStore clock (s_rev s) (s_records s) (s_sets s) (s_blobs s) (s_watches s) (s_nextW s) (s_tokens s).

(** ** Time and revisions *)

(** [internal/port/memory/memory.go:Store.live] *)
Definition live (s : Store) (e : entry) : bool := alive (s_clock s) (e_expires e).

(** [strconv.FormatUint(rev, 10)] *)
Definition revision (rev : Z) : string := pretty (Z.to_N rev).

(** [internal/port/memory/memory.go:Store.next]; the counter is a [uint64]. *)
Definition next (s : Store) : string * Store :=
  let rev := ((s_rev s + 1) mod 2 ^ 64)%Z in
  (revision rev, mkStore (s_clock s) rev (s_records s) (s_sets s) (s_blobs s) (s_watches s) (s_nextW s) (s_tokens s)).

(** [internal/port/memory/memory.go:Store.expiry] *)
Definition expiry (s : Store) ttl : option Z := if (ttl <=? 0)%Z then None else Some (s_clock s + ttl)%Z.

(** ** Events *)

(** [internal/port/memory/memory.go:309-309 Store.Watch] *)
Definition watch_buffer : nat := 256.

Definition event_key (ev : Event) : string :=
  match ev with EvWritten key _ | EvDeleted key _ => key | EvFellBehind => "" end.

(** One watcher: a full channel loses its oldest event to the last one. *)
Definition send (ev : Event) (w : watch) : watch :=
  if w_closed w || negb (HasPrefix (event_key ev) (w_prefix w)) then w
  else if length (w_ch w) <? watch_buffer then mkWatch (w_prefix w) (w_ch w ++ [ev]) false
  else mkWatch (w_prefix w) (tail (w_ch w) ++ [EvFellBehind]) true.

(** [internal/port/memory/memory.go:Store.emitLocked] *)
Definition emitLocked (ev : Event) (watches : gmap nat watch) : gmap nat watch := send ev <$> watches.

(** ** Records *)

(** [internal/port/memory/memory.go:Store.liveEntry] *)
Definition liveEntry (s : Store) key : option entry :=
  match s_records s !! key with Some e => if live s e then Some e else None | None => None end.

(** [internal/port/memory/memory.go:Store.write] *)
Definition write (s : Store) key value ttl : string * Store :=
  let '(rev, s) := next s in
  (rev, with_records s (<[key := mkEntry value rev (expiry s ttl)]> (s_records s))
          (emitLocked (EvWritten key rev) (s_watches s))).

(** [internal/port/memory/memory.go:Store.deleteLocked] *)
Definition deleteLocked (s : Store) key : Store :=
  match s_records s !! key with
  | Some e => with_records s (delete key (s_records s)) (emitLocked (EvDeleted key (e_rev e)) (s_watches s))
  | None => s
  end.

(** [internal/port/memory/memory.go:Store.sweepLocked] *)
Definition sweepLocked (s : Store) : Store :=
  let s := foldl (λ s key, match s_records s !! key with
                           | Some e => if live s e then s else deleteLocked s key
                           | None => s
                           end) s (sorted_keys (s_records s)) in
  with_sets s (filter (λ kv : string * member_set, alive (s_clock s) (m_expires kv.2) = true) (s_sets s)).

(** [internal/port/memory/memory.go:Store.Advance] *)
Definition Advance (s : Store) (d : Z) : Store := sweepLocked (with_clock s (s_clock s + d)%Z).

(** Time passing outside the store. *)
Definition wait (s : Store) (d : Z) : Store := with_clock s (s_clock s + d)%Z.

(** [internal/port/memory/memory.go:Store.Get] *)
Definition Store_Get (s : Store) key : result port_error KVRecord :=
  match liveEntry s key with
  | None => Err ErrNotFound
  | Some e => Ok (mkKV key (e_value e) (e_rev e))
  end.

Definition answer (w : string * Store) : result port_error string * Store := (Ok w.1, w.2).

(** [internal/port/memory/memory.go:Store.Put] *)
Definition Store_Put (s : Store) key value ttl : result port_error string * Store :=
  match CheckWrite key value ttl with
  | Some err => (Err err, s)
  | None => answer (write s key value ttl)
  end.

(** [internal/port/memory/memory.go:Store.Create] *)
Definition Store_Create (s : Store) key value ttl : result port_error string * Store :=
  match CheckWrite key value ttl with
  | Some err => (Err err, s)
  | None =>
      match liveEntry s key with
      | Some _ => (Err ErrExists, s)
      | None => answer (write s key value ttl)
      end
  end.

(** [internal/port/memory/memory.go:Store.Update] *)
Definition Store_Update (s : Store) key value ttl rev : result port_error string * Store :=
  match CheckWrite key value ttl with
  | Some err => (Err err, s)
  | None =>
      match liveEntry s key with
      | None => (Err ErrNotFound, s)
      | Some e => if bool_decide (e_rev e = rev) then answer (write s key value ttl) else (Err ErrConflict, s)
      end
  end.

(** [internal/port/memory/memory.go:Store.Delete] *)
Definition Store_Delete (s : Store) key : Store := deleteLocked s key.

(** [internal/port/memory/memory.go:Store.DeleteIfRevision] *)
Definition Store_DeleteIfRevision (s : Store) key rev : result port_error unit * Store :=
  match liveEntry s key with
  | None => (Err ErrNotFound, s)
  | Some e => if bool_decide (e_rev e = rev) then (Ok tt, deleteLocked s key) else (Err ErrConflict, s)
  end.

(** [key > after] on Go strings: byte order. *)
Definition beyond (after key : string) : bool := bool_decide (¬ String.le key after).

(** The keys a page is cut from. *)
Definition listed (s : Store) prefix (after : string) : list string :=
  List.filter (λ key, HasPrefix key prefix && beyond after key &&
    match liveEntry s key with Some _ => true | None => false end) (sorted_keys (s_records s)).

Definition record_of (s : Store) key : option KVRecord :=
  (λ e, mkKV key (e_value e) (e_rev e)) <$> s_records s !! key.

(** [internal/port/memory/memory.go:Store.List] *)
Definition Store_List (s : Store) prefix (page : string) (limit : Z) : result port_error Page :=
  after ← PageStart prefix page;
  let limit := if (limit <=? 0)%Z then DefaultPage else Z.to_nat limit in
  let keys := listed s prefix after in
  Ok (mkPage (omap (record_of s) (take limit keys))
        (if limit <? length keys
         then match last (take limit keys) with Some key => PageToken prefix key | None => "" end else "")).

(** ** Watches *)

(** [internal/port/memory/memory.go:Store.Watch] *)
Definition Store_Watch (s : Store) prefix : nat * Store :=
  (s_nextW s, with_watches s (<[s_nextW s := mkWatch prefix [] false]> (s_watches s)) (S (s_nextW s))).

(** [internal/port/memory/memory.go:311-319 Watch ctx.Done]: the watcher's context ended. *)
Definition unwatch (s : Store) (id : nat) : Store :=
  with_watches s (alter (λ w, mkWatch (w_prefix w) (w_ch w) true) id (s_watches s)) (s_nextW s).

(** The watcher reads its channel: [None] when it is closed and drained. *)
Definition receive (s : Store) (id : nat) : option Event * Store :=
  match s_watches s !! id with
  | Some w =>
      match w_ch w with
      | ev :: rest => (Some ev, with_watches s (<[id := mkWatch (w_prefix w) rest (w_closed w)]> (s_watches s)) (s_nextW s))
      | [] => (None, s)
      end
  | None => (None, s)
  end.

(** ** Sets *)

Definition liveSet (s : Store) key : option member_set :=
  match s_sets s !! key with Some st => if alive (s_clock s) (m_expires st) then Some st else None | None => None end.

(** [internal/port/memory/memory.go:Store.Add] *)
Definition Store_Add (s : Store) key (member : string) ttl : Store :=
  let st := default (mkSet ∅ None) (liveSet s key) in
  with_sets s (<[key := mkSet ({[member]} ∪ m_members st) (if (0 <? ttl)%Z then expiry s ttl else m_expires st)]> (s_sets s)).

(** [internal/port/memory/memory.go:Store.Remove] *)
Definition Store_Remove (s : Store) key (member : string) : Store :=
  with_sets s (alter (λ st, mkSet (m_members st ∖ {[member]}) (m_expires st)) key (s_sets s)).

(** [internal/port/memory/memory.go:Store.Members] *)
Definition Store_Members (s : Store) key : list string :=
  match liveSet s key with Some st => sort_strings (elements (m_members st)) | None => [] end.

(** ** Blobs *)

(** [internal/port/memory/memory.go:Blobs.Read] *)
Definition Blobs_Read (s : Store) name : result port_error (string * string) :=
  match s_blobs s !! name with Some o => Ok (b_body o, b_version o) | None => Err ErrNotFound end.

(** [internal/port/memory/memory.go:Store.putBlob] *)
Definition putBlob (s : Store) name (body : string) : string * Store :=
  let '(version, s) := next s in (version, with_blobs s (<[name := mkBlob body version]> (s_blobs s))).

(** [internal/port/memory/memory.go:Blobs.Write] *)
Definition Blobs_Write (s : Store) name (body : string) : string * Store := putBlob s name body.

(** [internal/port/memory/memory.go:Blobs.WriteIfVersion] *)
Definition Blobs_WriteIfVersion (s : Store) name (body version : string) : result port_error string * Store :=
  match s_blobs s !! name with
  | None => (Err ErrNotFound, s)
  | Some o => if bool_decide (b_version o = version) then answer (putBlob s name body) else (Err ErrConflict, s)
  end.

(** [internal/port/memory/memory.go:Blobs.Delete] *)
Definition Blobs_Delete (s : Store) name : Store := with_blobs s (delete name (s_blobs s)).

(** [internal/port/memory/memory.go:Blobs.List] *)
Definition Blobs_List (s : Store) prefix : list string :=
  List.filter (λ name, HasPrefix name prefix) (sorted_keys (s_blobs s)).

(** [internal/port/memory/memory.go:Blobs.Replace] *)
Definition Blobs_Replace (s : Store) prefix (objects : gmap string string) : Store :=
  let s := with_blobs s (filter (λ kv : string * blob,
    negb (HasPrefix kv.1 prefix) || bool_decide (is_Some (objects !! TrimPrefix kv.1 prefix)) = true) (s_blobs s)) in
  foldl (λ s name, match objects !! name with Some body => (putBlob s (prefix +:+ name) body).2 | None => s end)
    s (sorted_keys objects).

(** [internal/port/memory/memory.go:Blobs.ReadAll] *)
Definition Blobs_ReadAll (s : Store) prefix : gmap string string :=
  list_to_map (omap (λ kv : string * blob,
    (λ name, (name, b_body kv.2)) <$> CutPrefix kv.1 prefix) (map_to_list (s_blobs s))).

(** ** Identity *)

(** [internal/port/memory/memory.go:Store.Allow] *)
Definition Allow (s : Store) (token subject : string) (audiences : list string) : Store :=
  mkStore (s_clock s) (s_rev s) (s_records s) (s_sets s) (s_blobs s) (s_watches s) (s_nextW s)
    (<[token := mkGrant subject audiences]> (s_tokens s)).

(** [internal/port/memory/memory.go:Store.Verify]; [None] is [ErrUnauthenticated]. *)
Definition Verify (s : Store) (token : string) (audiences : list string) : option string :=
  match s_tokens s !! token with
  | Some g => if existsb (λ a, str_in a (tg_audiences g)) audiences then Some (tg_subject g) else None
  | None => None
  end.

#[export] Instance Store_State : State Store := {
  st_Get := Store_Get; st_Put := Store_Put; st_Create := Store_Create; st_Update := Store_Update;
  st_Delete := Store_Delete; st_DeleteIfRevision := Store_DeleteIfRevision; st_wait := wait }.

(** ** The store keeps the port's promises *)

(** A live record, and the revisions given out. *)
Definition view (s : Store) key : option live_record :=
  (λ e, mkLive (e_value e) (e_rev e) (e_expires e)) <$> liveEntry s key.
Definition issued (s : Store) rev : Prop := ∃ i, (0 < i <= s_rev s)%Z ∧ rev = revision i.

(** Well formed, with [n] revisions left. *)
Definition ok (n : nat) (s : Store) : Prop :=
  (0 <= s_rev s)%Z ∧ (s_rev s + Z.of_nat n < 2 ^ 64)%Z ∧ map_Forall (λ _ e, issued s (e_rev e)) (s_records s).

Lemma revision_inj i j : (0 <= i)%Z → (0 <= j)%Z → revision i = revision j → i = j.
Proof. unfold revision. intros Hi Hj H. apply (inj pretty) in H. lia. Qed.

Lemma liveEntry_Some s key e : liveEntry s key = Some e ↔ s_records s !! key = Some e ∧ live s e = true.
Proof.
  unfold liveEntry. destruct (s_records s !! key) as [e'|]; [|by split; [|intros [? _]]].
  destruct (live s e') eqn:Hl; split.
  - by intros [= ->].
  - by intros [[= ->] _].
  - done.
  - intros [[= ->] ?]. congruence.
Qed.

Lemma write_spec n s key value ttl : ok (S n) s → CheckWrite key value ttl = None →
  ok n (write s key value ttl).2 ∧ s_clock (write s key value ttl).2 = s_clock s ∧
  written view issued (s_clock s) s key value ttl (write s key value ttl).1 (write s key value ttl).2.
Proof.
  intros (H0&Hn&Hrev) Hcheck. apply CheckWrite_none in Hcheck as [_ Httl]. unfold write, next. rewrite Z.mod_small by lia.
  set (rev := revision (s_rev s + 1)). cbn [fst snd]. unfold ok, written, issued. cbn [s_rev s_records s_clock with_records].
  assert (∀ r, (∃ i, (0 < i <= s_rev s + 1)%Z ∧ r = revision i) ↔ (∃ i, (0 < i <= s_rev s)%Z ∧ r = revision i) ∨ r = rev) as Hiss.
  { intros r. split.
    - intros (i&Hi&->). destruct (decide (i = s_rev s + 1)%Z) as [->|]; [by right|]. left. exists i. split; [lia|done].
    - intros [(i&Hi&->)| ->]; [exists i|exists (s_rev s + 1)%Z]; (split; [lia|done]). }
  split_and!; [lia|lia| |done| |done| |].
  - intros k e. destruct (decide (k = key)) as [->|Hk].
    + rewrite lookup_insert_eq. intros [= <-]. simpl. apply Hiss. by right.
    + rewrite lookup_insert_ne by done. intros He. apply Hiss. left. by apply (Hrev k).
  - intros (i&Hi&Heq). apply revision_inj in Heq; lia.
  - unfold view, liveEntry, live. cbn [s_records s_clock with_records]. rewrite lookup_insert_eq.
    unfold expiry, alive. cbn [e_expires s_clock with_records].
    destruct (Z.leb_spec ttl 0), (Z.eqb_spec ttl 0); try lia; [done|].
    rewrite (proj2 (Z.ltb_lt _ _)) by lia. done.
  - intros k Hk. unfold view, liveEntry, live. cbn [s_records s_clock with_records]. by rewrite lookup_insert_ne.
Qed.

Lemma deleteLocked_spec n s key : ok n s → let s' := deleteLocked s key in
  ok n s' ∧ s_clock s' = s_clock s ∧ (∀ r, issued s' r ↔ issued s r) ∧
  view s' key = None ∧ ∀ key', key' ≠ key → view s' key' = view s key'.
Proof.
  intros (H0&Hn&Hrev). unfold deleteLocked. destruct (s_records s !! key) as [e|] eqn:He.
  - unfold ok, view, liveEntry, live. cbn [s_rev s_records s_clock with_records]. split_and!; try done.
    + intros k e'. rewrite lookup_delete_Some. intros [_ Hk]. by apply (Hrev k).
    + by rewrite lookup_delete_eq.
    + intros k Hk. by rewrite lookup_delete_ne.
  - cbn zeta. split_and!; try done. unfold view, liveEntry. by rewrite He.
Qed.

Lemma view_live s key r : view s key = Some r → ∃ e, s_records s !! key = Some e ∧ live s e = true ∧
  liveEntry s key = Some e ∧ r = mkLive (e_value e) (e_rev e) (e_expires e).
Proof. unfold view. intros He. apply fmap_Some in He as (e&He&->). exists e. destruct (proj1 (liveEntry_Some _ _ _) He). auto. Qed.

Lemma view_none s key : view s key = None ↔ liveEntry s key = None.
Proof. unfold view. by rewrite fmap_None. Qed.

#[export] Program Instance Store_StateSpec : StateSpec Store := {
  sp_ok := ok; sp_view := view; sp_issued := issued; sp_now := s_clock }.
Next Obligation.
  intros n s key r (_&_&Hrev) (e&He&Hl&_&->)%view_live. split; [by apply (Hrev key)|done].
Qed.
Next Obligation. intros n s (?&?&?). unfold ok. split_and!; [done|lia|done]. Qed.
Next Obligation. intros n s key _. unfold st_Get, Store_State, Store_Get, view. by destruct (liveEntry s key). Qed.
Next Obligation.
  intros n s key value ttl rev e _ H. simpl. unfold Store_Put, Store_Create, Store_Update. by rewrite H.
Qed.
Next Obligation.
  intros n s key value ttl Hok H. simpl. unfold Store_Put. rewrite H. unfold answer.
  destruct (write_spec n s key value ttl Hok H) as (?&?&?). eauto 8.
Qed.
Next Obligation.
  intros n s key value ttl Hok H. simpl. unfold Store_Create. rewrite H.
  destruct (liveEntry s key) as [e|] eqn:He.
  - left. split; [|done]. unfold view. rewrite He. by eexists.
  - right. split; [by apply view_none|]. unfold answer.
    destruct (write_spec n s key value ttl Hok H) as (?&?&?). eauto 8.
Qed.
Next Obligation.
  intros n s key value ttl rev Hok H. simpl. unfold Store_Update. rewrite H.
  destruct (liveEntry s key) as [e|] eqn:He.
  - right. exists (mkLive (e_value e) (e_rev e) (e_expires e)). split; [unfold view; by rewrite He|]. simpl.
    case_bool_decide as Hr; [right|by left]. split; [done|]. unfold answer.
    destruct (write_spec n s key value ttl Hok H) as (?&?&?). eauto 8.
  - left. split; [by apply view_none|done].
Qed.
Next Obligation. intros n s key Hok. by apply deleteLocked_spec. Qed.
Next Obligation.
  intros n s key rev Hok. simpl. unfold Store_DeleteIfRevision.
  destruct (liveEntry s key) as [e|] eqn:He; [|left; split; [by apply view_none|done]].
  right. exists (mkLive (e_value e) (e_rev e) (e_expires e)). split; [unfold view; by rewrite He|]. simpl.
  case_bool_decide; [by right|by left].
Qed.
Next Obligation.
  intros n s d (H0&Hn&Hrev) Hd. simpl. split_and!; [done..|]. intros key.
  unfold view, liveEntry, live. cbn [s_records s_clock wait with_clock].
  destruct (s_records s !! key) as [e|]; [|done]. unfold alive. destruct (e_expires e) as [at_|] eqn:He.
  - destruct (s_clock s + d <? at_)%Z eqn:Hafter, (s_clock s <? at_)%Z eqn:Hbefore; simpl; rewrite ?He, ?Hafter; try done.
    apply Z.ltb_lt in Hafter. apply Z.ltb_ge in Hbefore. lia.
  - simpl. by rewrite He.
Qed.

Lemma New_ok now n : (Z.of_nat n < 2 ^ 64)%Z → ok n (New now).
Proof. intros H. unfold ok. simpl. split_and!; [done|lia|apply map_Forall_empty]. Qed.

(** ** Listing page by page *)

(** Every page of a listing, one after the other. *)
Fixpoint all_pages (fuel : nat) (s : Store) prefix (page : string) (limit : Z) : option (list KVRecord) :=
  match fuel with
  | 0 => None
  | S fuel =>
      match Store_List s prefix page limit with
      | Err _ => None
      | Ok pg => if empty (pg_Next pg) then Some (pg_Records pg)
                 else (λ rest, pg_Records pg ++ rest) <$> all_pages fuel s prefix (pg_Next pg) limit
      end
  end.

(** The live keys under a prefix, in order. *)
Definition live_keys (s : Store) prefix : list string :=
  List.filter (λ key, HasPrefix key prefix && match liveEntry s key with Some _ => true | None => false end)
    (sorted_keys (s_records s)).

Lemma listed_live s prefix (after : string) : listed s prefix after = List.filter (beyond after) (live_keys s prefix).
Proof.
  unfold listed, live_keys. induction (sorted_keys (s_records s)) as [|k l IH]; [done|]. simpl. rewrite IH.
  destruct (HasPrefix k prefix), (beyond after k) eqn:Hb, (liveEntry s k); simpl; by rewrite ?Hb.
Qed.

Lemma live_keys_sorted s prefix : StronglySorted String.le (live_keys s prefix) ∧ NoDup (live_keys s prefix).
Proof.
  split; [apply StronglySorted_filter, sorted_keys_sorted|].
  apply NoDup_ListNoDup, List.NoDup_filter, NoDup_ListNoDup, NoDup_sorted_keys.
Qed.

(** In a sorted list without duplicates what is beyond an element comes after it. *)
Lemma filter_beyond (l1 l2 : list string) (a : string) : StronglySorted String.le (l1 ++ a :: l2) → NoDup (l1 ++ a :: l2) →
  List.filter (beyond a) (l1 ++ a :: l2) = l2.
Proof.
  intros Hs Hnd. rewrite List.filter_app. simpl. unfold beyond at 2. rewrite bool_decide_eq_false_2 by (intros H; by apply H).
  assert (List.filter (beyond a) l1 = []) as ->.
  { assert (∀ x, x ∈ l1 → String.le x a) as Hle.
    { intros x Hx. eapply StronglySorted_app_1_elem_of; [done..|]. by left. }
    clear Hs Hnd. induction l1 as [|x l1 IH]; [done|]. simpl. unfold beyond at 1.
    rewrite bool_decide_eq_false_2; [apply IH; intros; apply Hle; by right|]. intros H. apply H, Hle. by left. }
  apply StronglySorted_app_1_r in Hs. apply StronglySorted_inv in Hs as [_ Hs].
  apply NoDup_app in Hnd as (_&_&Hnd). apply NoDup_cons in Hnd as [Ha _]. simpl.
  induction l2 as [|y l2 IH]; [done|]. apply Forall_cons in Hs as [Hy Hs]. simpl. unfold beyond at 1.
  rewrite bool_decide_eq_true_2.
  - f_equal. apply IH; [done|]. intros H. apply Ha. by right.
  - intros Hle. apply Ha. rewrite (anti_symm String.le a y) by done. by left.
Qed.

Lemma beyond_empty key : beyond "" key = negb (empty key).
Proof. by destruct key. Qed.

Definition page_size (limit : Z) : nat := if (limit <=? 0)%Z then DefaultPage else Z.to_nat limit.

Lemma page_size_pos limit : 0 < page_size limit.
Proof. unfold page_size, DefaultPage. destruct (Z.leb_spec limit 0); lia. Qed.

Lemma all_pages_S fuel s prefix page limit : all_pages (S fuel) s prefix page limit =
  match Store_List s prefix page limit with
  | Err _ => None
  | Ok pg => if empty (pg_Next pg) then Some (pg_Records pg)
             else (λ rest, pg_Records pg ++ rest) <$> all_pages fuel s prefix (pg_Next pg) limit
  end.
Proof. done. Qed.

(** Pages read from a point of the listing give the rest of it. *)
Lemma all_pages_rest s prefix limit n : contains_byte nul prefix = false → ∀ page after done rest,
  PageStart prefix page = Ok after → listed s prefix after = rest → live_keys s prefix = done ++ rest → length rest ≤ n →
  all_pages (S n) s prefix page limit = Some (omap (record_of s) rest).
Proof.
  intros Hp. pose proof (page_size_pos limit) as Hpos. induction n as [|n IH]; intros page after read rest Hpage Hl Hk Hn;
    rewrite all_pages_S; unfold Store_List; fold (page_size limit); rewrite Hpage; cbn [mbind result_bind pg_Next pg_Records]; rewrite Hl.
  - destruct rest; [|simpl in Hn; lia]. destruct (page_size limit); [lia|]. done.
  - destruct (Nat.ltb_spec (page_size limit) (length rest)) as [Hlt|Hle].
    + set (m := page_size limit) in *. destruct (rest !! pred m) as [a|] eqn:Ha; [|apply lookup_ge_None in Ha; lia].
      pose proof (take_drop_middle rest (pred m) a Ha) as Hsplit. replace (S (pred m)) with m in Hsplit by lia.
      assert (take m rest = take (pred m) rest ++ [a]) as Htake.
      { replace m with (S (pred m)) at 1 by lia. by apply take_S_r. }
      rewrite Htake, last_snoc, (proj2 (empty_false _)) by apply PageToken_nonempty.
      rewrite (IH (PageToken prefix a) a (read ++ take m rest) (drop m rest)).
      * simpl. rewrite <- omap_app, <- Htake, take_drop. done.
      * rewrite PageStart_token by done. by rewrite bool_decide_eq_true_2.
      * destruct (live_keys_sorted s prefix) as [Hs Hnd]. rewrite listed_live.
        assert (live_keys s prefix = (read ++ take (pred m) rest) ++ a :: drop m rest) as Heq
          by (by rewrite <- app_assoc, Hsplit).
        rewrite Heq in *. by apply filter_beyond.
      * rewrite Hk, <- app_assoc. by rewrite take_drop.
      * rewrite length_drop. lia.
    + by rewrite take_ge.
Qed.

(** listing page by page sees every record.  Following [Next] from the first
    page to the last gives the live records under the prefix, each once, in key
    order, whatever the page size; a key is never empty and a prefix holds no NUL
    byte. *)
Theorem List_pages s prefix limit (Hp : contains_byte nul prefix = false) (Hk : s_records s !! "" = None) :
  all_pages (S (size (s_records s))) s prefix "" limit = Some (omap (record_of s) (live_keys s prefix)) ∧
  StronglySorted String.le (live_keys s prefix) ∧ NoDup (live_keys s prefix) ∧
  ∀ key r, mkKV key (lv_value r) (lv_rev r) ∈ omap (record_of s) (live_keys s prefix) ↔
    HasPrefix key prefix = true ∧ ∃ expires, view s key = Some (mkLive (lv_value r) (lv_rev r) expires).
Proof.
  assert (listed s prefix "" = live_keys s prefix) as Hall.
  { rewrite listed_live. apply filter_all. intros key [[e He]%elem_of_sorted_keys _]%elem_of_filter_bool.
    rewrite beyond_empty. destruct (empty key) eqn:Hempty; [|done]. apply empty_true in Hempty as ->. congruence. }
  destruct (live_keys_sorted s prefix) as [Hs Hnd]. split_and!; [|done..|].
  - apply (all_pages_rest s prefix limit _ Hp "" "" [] _ eq_refl Hall eq_refl).
    unfold live_keys. etransitivity; [apply List.filter_length_le|]. unfold sorted_keys.
    rewrite sort_strings_Permutation. unfold keys. by rewrite length_fmap, length_map_to_list.
  - intros key r. rewrite list_elem_of_omap. split.
    + intros (k&Hin&Hr). unfold record_of in Hr. apply fmap_Some in Hr as (e&He&[= <- Hv Hrev]).
      apply elem_of_filter_bool in Hin as [_ [Hpre Hlive]%andb_true_iff]. split; [done|].
      destruct (liveEntry s key) as [e'|] eqn:Hl; [|done]. exists (e_expires e'). unfold view. rewrite Hl. simpl.
      apply liveEntry_Some in Hl as [Hl _]. congruence.
    + intros [Hpre (expires&(e&He&_&Hl&[= Hv Hr _])%view_live)]. exists key. split.
      * apply elem_of_filter_bool. rewrite Hpre, Hl. split; [|done]. apply elem_of_sorted_keys. by eexists.
      * unfold record_of. rewrite He. simpl. by rewrite Hv, Hr.
Qed.

(** ** Watches *)

(** What a reader that applies events knows: the revision of each key. *)
Definition revs (s : Store) : gmap string string := e_rev <$> s_records s.
Definition apply_event (m : gmap string string) (ev : Event) : gmap string string :=
  match ev with EvWritten key rev => <[key := rev]> m | EvDeleted key _ => delete key m | EvFellBehind => m end.
Definition under prefix (m : gmap string string) : gmap string string :=
  filter (λ kv : string * string, HasPrefix kv.1 prefix = true) m.

Definition is_change (ev : Event) : Prop := match ev with EvFellBehind => False | _ => True end.

(** A step of the store announces what it does to its records. *)
Definition announces (s : Store) (evs : list Event) (s' : Store) : Prop :=
  Forall is_change evs ∧ revs s' = foldl apply_event (revs s) evs ∧ s_nextW s' = s_nextW s ∧
  s_watches s' = foldl (λ watches ev, emitLocked ev watches) (s_watches s) evs.

Lemma announces_nothing s s' : s_records s' = s_records s → s_watches s' = s_watches s → s_nextW s' = s_nextW s →
  announces s [] s'.
Proof. intros Hr Hw Hn. unfold announces, revs. simpl. rewrite Hr. split_and!; [constructor|done..]. Qed.

Lemma announces_app s1 s2 s3 evs1 evs2 : announces s1 evs1 s2 → announces s2 evs2 s3 → announces s1 (evs1 ++ evs2) s3.
Proof.
  intros (H1&H2&H3&H4) (H1'&H2'&H3'&H4'). unfold announces. rewrite !foldl_app, <- H2, <- H4. split_and!; [|congruence..].
  by apply Forall_app.
Qed.

Lemma write_announces s key value ttl : announces s [EvWritten key (write s key value ttl).1] (write s key value ttl).2.
Proof.
  unfold write, next. cbn [fst snd]. unfold announces, revs. simpl. split_and!; [by repeat constructor| |done..].
  by rewrite fmap_insert.
Qed.

Lemma deleteLocked_announces s key : ∃ evs, announces s evs (deleteLocked s key).
Proof.
  unfold deleteLocked. destruct (s_records s !! key) as [e|] eqn:He; [|exists []; by apply announces_nothing].
  exists [EvDeleted key (e_rev e)]. unfold announces, revs. simpl. split_and!; [by repeat constructor| |done..].
  by rewrite fmap_delete.
Qed.

Lemma sweepLocked_announces s : ∃ evs, announces s evs (sweepLocked s).
Proof.
  unfold sweepLocked. set (f := λ (s : Store) (key : string), match s_records s !! key with
    | Some e => if live s e then s else deleteLocked s key | None => s end).
  assert (∀ ks s, ∃ evs, announces s evs (foldl f s ks)) as Hf.
  { induction ks as [|k ks IH]; intros s0; simpl; [exists []; by apply announces_nothing|].
    assert (∃ evs, announces s0 evs (f s0 k)) as [evs1 H1].
    { unfold f. destruct (s_records s0 !! k) as [e|]; [destruct (live s0 e)|];
        [exists []; by apply announces_nothing|apply deleteLocked_announces|exists []; by apply announces_nothing]. }
    destruct (IH (f s0 k)) as [evs2 H2]. exists (evs1 ++ evs2). by eapply announces_app. }
  destruct (Hf (sorted_keys (s_records s)) s) as [evs H]. exists evs. unfold announces in *. by destruct (foldl f s _).
Qed.

(** The operations of the store that change it, watching aside. *)
Inductive op :=
  | OpPut (key value : string) (ttl : Z) | OpCreate (key value : string) (ttl : Z)
  | OpUpdate (key value : string) (ttl : Z) (rev : string) | OpDelete (key : string)
  | OpDeleteIfRevision (key rev : string) | OpAdvance (d : Z) | OpWait (d : Z)
  | OpAdd (key member : string) (ttl : Z) | OpRemove (key member : string)
  | OpWrite (name body : string) | OpWriteIfVersion (name body version : string) | OpBlobDelete (name : string)
  | OpReplace (prefix : string) (objects : gmap string string) | OpAllow (token subject : string) (audiences : list string).

Definition exec (s : Store) (o : op) : Store :=
  match o with
  | OpPut key value ttl => (Store_Put s key value ttl).2
  | OpCreate key value ttl => (Store_Create s key value ttl).2
  | OpUpdate key value ttl rev => (Store_Update s key value ttl rev).2
  | OpDelete key => Store_Delete s key
  | OpDeleteIfRevision key rev => (Store_DeleteIfRevision s key rev).2
  | OpAdvance d => Advance s d
  | OpWait d => wait s d
  | OpAdd key member ttl => Store_Add s key member ttl
  | OpRemove key member => Store_Remove s key member
  | OpWrite name body => (Blobs_Write s name body).2
  | OpWriteIfVersion name body version => (Blobs_WriteIfVersion s name body version).2
  | OpBlobDelete name => Blobs_Delete s name
  | OpReplace prefix objects => Blobs_Replace s prefix objects
  | OpAllow token subject audiences => Allow s token subject audiences
  end.

Lemma putBlob_announces s name body : announces s [] (putBlob s name body).2.
Proof. by apply announces_nothing. Qed.

Lemma exec_announces s o : ∃ evs, announces s evs (exec s o).
Proof.
  assert (∃ evs, announces s evs s) as Hsame by (exists []; by apply announces_nothing).
  destruct o; simpl; try (exists []; by apply announces_nothing).
  - unfold Store_Put. destruct (CheckWrite _ _ _); [done|]. eexists. apply write_announces.
  - unfold Store_Create. destruct (CheckWrite _ _ _); [done|]. destruct (liveEntry _ _); [done|]. eexists. apply write_announces.
  - unfold Store_Update. destruct (CheckWrite _ _ _); [done|]. destruct (liveEntry _ _); [|done].
    case_bool_decide; [|done]. eexists. apply write_announces.
  - apply deleteLocked_announces.
  - unfold Store_DeleteIfRevision. destruct (liveEntry _ _); [|done]. case_bool_decide; [|done]. apply deleteLocked_announces.
  - unfold Advance. destruct (sweepLocked_announces (with_clock s (s_clock s + d)%Z)) as [evs H]. by exists evs.
  - unfold Blobs_WriteIfVersion. destruct (s_blobs s !! name); [|done]. case_bool_decide; [|done].
    eexists. apply putBlob_announces.
  - unfold Blobs_Replace. set (s0 := with_blobs s _). assert (announces s [] s0) as H0 by (by apply announces_nothing).
    clearbody s0. exists []. revert s0 H0. induction (sorted_keys objects) as [|n ns IH]; intros s0 H0; [done|]. simpl. apply IH.
    destruct (objects !! n); [|done]. apply (announces_app _ _ _ [] [] H0). apply putBlob_announces.
Qed.

(** One watcher's channel through a run of events: everything, or its end. *)
Lemma send_all evs w : Forall is_change evs →
  let w' := foldl (λ w ev, send ev w) w evs in
  w_prefix w' = w_prefix w ∧
  (w_closed w' = false → w_closed w = false ∧
    w_ch w' = w_ch w ++ List.filter (λ ev, HasPrefix (event_key ev) (w_prefix w)) evs) ∧
  (w_closed w' = true → w_closed w = false → last (w_ch w') = Some EvFellBehind) ∧
  (w_closed w = true → w' = w).
Proof.
  intros Hev. revert w. induction Hev as [|ev evs Hc Hev IH]; intros w.
  { simpl. rewrite app_nil_r. split_and!; auto. congruence. }
  simpl. destruct (IH (send ev w)) as (Hp&Hopen&Hclosed&Hdone). clear IH.
  assert (w_prefix (send ev w) = w_prefix w) as Hpre.
  { unfold send. destruct (w_closed w || _); [done|]. by destruct (_ <? _). }
  rewrite Hpre in *. split_and!; [done|..].
  - intros H. destruct (Hopen H) as [Hc1 ->]. unfold send in *.
    destruct (w_closed w) eqn:Hcl; simpl in *; [congruence|]. split; [done|].
    destruct (HasPrefix (event_key ev) (w_prefix w)); simpl in *; [|done].
    destruct (length (w_ch w) <? watch_buffer); simpl in *; [|done]. by rewrite <- app_assoc.
  - intros H Hw. destruct (w_closed (send ev w)) eqn:Hs; [|by apply Hclosed].
    rewrite Hdone by done. unfold send in *. rewrite Hw in *. simpl in *.
    destruct (HasPrefix (event_key ev) (w_prefix w)); simpl in *; [|congruence].
    destruct (length (w_ch w) <? watch_buffer); simpl in *; [done|]. by rewrite last_snoc.
  - intros Hw. assert (send ev w = w) as Hs by (unfold send; by rewrite Hw). rewrite Hs in *. by apply Hdone.
Qed.

Lemma emit_all evs (watches : gmap nat watch) id :
  foldl (λ watches ev, emitLocked ev watches) watches evs !! id = (λ w, foldl (λ w ev, send ev w) w evs) <$> watches !! id.
Proof.
  revert watches. induction evs as [|ev evs IH]; intros watches; simpl; [by destruct (watches !! id)|].
  rewrite IH. unfold emitLocked. rewrite lookup_fmap. by destruct (watches !! id).
Qed.

Lemma under_apply prefix m ev : under prefix (apply_event m ev) =
  if HasPrefix (event_key ev) prefix then apply_event (under prefix m) ev
  else under prefix m.
Proof.
  unfold under. destruct ev as [key rev|key rev|]; simpl.
  - destruct (HasPrefix key prefix) eqn:Hp; [by rewrite map_filter_insert_True|].
    rewrite map_filter_insert_False by (simpl; congruence). apply map_filter_delete_not. intros r _. simpl. congruence.
  - destruct (HasPrefix key prefix) eqn:Hp; [by rewrite map_filter_delete|].
    apply map_filter_delete_not. intros r _. simpl. congruence.
  - by destruct (HasPrefix "" prefix).
Qed.

Lemma under_all prefix evs m : Forall is_change evs → under prefix (foldl apply_event m evs) =
  foldl apply_event (under prefix m) (List.filter (λ ev, HasPrefix (event_key ev) prefix) evs).
Proof.
  intros Hev. revert m. induction Hev as [|ev evs _ _ IH]; intros m; [done|]. simpl. rewrite IH, under_apply.
  by destruct (HasPrefix (event_key ev) prefix).
Qed.

(** One reader, [id], among everything else that happens: [got] is what it read. *)
Inductive follow (id : nat) : Store * list Event → Store * list Event → Prop :=
  | follow_op s got o : follow id (s, got) (exec s o, got)
  | follow_watch s got prefix : follow id (s, got) ((Store_Watch s prefix).2, got)
  | follow_unwatch s got id' : id' ≠ id → follow id (s, got) (unwatch s id', got)
  | follow_other s got id' : id' ≠ id → follow id (s, got) ((receive s id').2, got)
  | follow_receive s got ev s' : receive s id = (Some ev, s') → follow id (s, got) (s', got ++ [ev]).

(** What holds of it: open, and what it read with what waits for it replays to
    the store; or closed, and the last thing it is told is that it fell behind. *)
Definition follows (id : nat) prefix (base : gmap string string) (sg : Store * list Event) : Prop :=
  id < s_nextW sg.1 ∧ ∃ w, s_watches sg.1 !! id = Some w ∧ w_prefix w = prefix ∧
    (w_closed w = false ∧ foldl apply_event base (sg.2 ++ w_ch w) = under prefix (revs sg.1) ∨
     w_closed w = true ∧ last (sg.2 ++ w_ch w) = Some EvFellBehind).

Lemma last_app_some {A} (l l' : list A) x : last l' = Some x → last (l ++ l') = Some x.
Proof. rewrite last_app. by intros ->. Qed.

Lemma follows_announces id prefix base s s' evs got : announces s evs s' →
  follows id prefix base (s, got) → follows id prefix base (s', got).
Proof.
  intros (Hev&Hrev&Hn&Hw) [Hid (w&Hlw&Hp&Hcase)]. unfold follows in *. simpl in *. rewrite Hn, Hw. split; [done|].
  destruct (send_all evs w Hev) as (Hp'&Hopen&Hclosed&Hdone). set (w' := foldl _ w evs) in *.
  exists w'. rewrite emit_all, Hlw. split_and!; [done|congruence|].
  destruct Hcase as [[Hc Hbase]|[Hc Hlast]]; [|right; by rewrite Hdone].
  destruct (w_closed w') eqn:Hc'; [right|left]; (split; [done|]).
  - apply last_app_some. by apply Hclosed.
  - destruct (Hopen eq_refl) as [_ ->]. by rewrite app_assoc, foldl_app, Hbase, Hrev, under_all, Hp.
Qed.

Lemma follows_step id prefix base sg sg' : follow id sg sg' → follows id prefix base sg → follows id prefix base sg'.
Proof.
  intros Hstep [Hid (w&Hlw&Hp&Hcase)].
  destruct Hstep as [s got o|s got p|s got id' Hne|s got id' Hne|s got ev s' Hrec]; simpl in *.
  - destruct (exec_announces s o) as [evs H]. apply (follows_announces _ _ _ s _ evs got H). split; [done|]. by exists w.
  - unfold follows. simpl. split; [lia|]. exists w. rewrite lookup_insert_ne by lia. done.
  - unfold follows. simpl. split; [done|]. exists w. by rewrite lookup_alter_ne.
  - unfold receive. destruct (s_watches s !! id') as [w'|] eqn:Hw'; [|split; [done|]; by exists w].
    destruct (w_ch w') as [|ev rest]; [split; [done|]; by exists w|].
    unfold follows. simpl. split; [done|]. exists w. by rewrite lookup_insert_ne.
  - unfold receive in Hrec. rewrite Hlw in Hrec. destruct (w_ch w) as [|ev' rest] eqn:Hch; [done|].
    injection Hrec as -> <-. unfold follows. simpl. split; [done|]. eexists. rewrite lookup_insert_eq. split; [done|].
    simpl. rewrite <- app_assoc. simpl. done.
Qed.

(** a watch never loses a change in silence.  Whatever operations follow a
    [Watch] — writes, deletions, expiry swept by the clock, other watchers coming
    and going — its reader is in one of two places: the stream is open, and
    applying what was read and what waits in the channel to what was stored when
    the watch began gives exactly what is stored now, key by key and revision by
    revision; or the stream is closed and its last event says the watcher fell
    behind. *)
Theorem Watch_complete s prefix s' got :
  rtc (follow (Store_Watch s prefix).1) ((Store_Watch s prefix).2, []) (s', got) →
  ∃ w, s_watches s' !! (Store_Watch s prefix).1 = Some w ∧
    (w_closed w = false ∧ foldl apply_event (under prefix (revs s)) (got ++ w_ch w) = under prefix (revs s') ∨
     w_closed w = true ∧ last (got ++ w_ch w) = Some EvFellBehind).
Proof.
  intros Hrtc.
  assert (follows (Store_Watch s prefix).1 prefix (under prefix (revs s)) ((Store_Watch s prefix).2, [])) as Hstart.
  { unfold follows. simpl. split; [lia|]. eexists. rewrite lookup_insert_eq. split_and!; [done..|]. by left. }
  set (id := (Store_Watch s prefix).1) in *.
  assert (∀ sg sg', rtc (follow id) sg sg' → follows id prefix (under prefix (revs s)) sg →
    follows id prefix (under prefix (revs s)) sg') as Hinv.
  { induction 1; [done|]. intros. eauto using follows_step. }
  destruct (Hinv _ _ Hrtc Hstart) as [_ (w&Hw&_&Hcase)]. by exists w.
Qed.

(** ** Witnesses *)

Definition sample_store : Store :=
  exec (exec (exec (exec (New 0) (OpPut "app.a" "1" 0)) (OpPut "ses.b" "2" 50)) (OpPut "app.c" "3" 9)) (OpPut "app.b" "4" 0).

Lemma List_pages_witness :
  all_pages 5 sample_store "app." "" 1 = Some [mkKV "app.a" "1" "1"; mkKV "app.b" "4" "4"; mkKV "app.c" "3" "3"] ∧
  all_pages 5 (wait sample_store 9) "app." "" 2 = Some [mkKV "app.a" "1" "1"; mkKV "app.b" "4" "4"].
Proof.
  split.
  - destruct (List_pages sample_store "app." 1) as [H _]; [by vm_compute..|]. etransitivity; [exact H|by vm_compute].
  - destruct (List_pages (wait sample_store 9) "app." 2) as [H _]; [by vm_compute..|]. etransitivity; [exact H|by vm_compute].
Defined.

Lemma Watch_complete_witness : ∃ w, s_watches (Advance sample_store 9) !! 0 = None ∧
  s_watches (exec (Store_Watch sample_store "app.").2 (OpAdvance 9)) !! 0 = Some w ∧ w_ch w = [EvDeleted "app.c" "3"] ∧
  foldl apply_event (under "app." (revs sample_store)) (w_ch w) =
  under "app." (revs (exec (Store_Watch sample_store "app.").2 (OpAdvance 9))).
Proof.
  destruct (Watch_complete sample_store "app." (exec (Store_Watch sample_store "app.").2 (OpAdvance 9)) []) as (w&Hw&Hcase).
  { eapply rtc_l; [apply follow_op|apply rtc_refl]. }
  assert (s_watches (exec (Store_Watch sample_store "app.").2 (OpAdvance 9)) !! 0 =
    Some (mkWatch "app." [EvDeleted "app.c" "3"] false)) as Heq by (vm_compute; reflexivity).
  change (Store_Watch sample_store "app.").1 with 0 in Hw. rewrite Heq in Hw. injection Hw as <-.
  eexists. split; [vm_compute; reflexivity|]. split; [exact Heq|]. split; [reflexivity|].
  destruct Hcase as [[_ Hcase]|[Hcase _]]; [exact Hcase|discriminate Hcase].
Defined.
