(* ===== verification/Items.v ===== *)
(** * Items: records over the State port, one compare-and-swap each

    [internal/portstore/portstore.go]: what the domain stores share.  A program over
    the port is the list of its calls, each deciding the next from its answer
    ([prog]), because between two calls any other replica may write: [exec] runs it
    with others' calls and the passing of time in between, [run] runs it alone, and
    [crash] stops it after some of its calls.

    The theorems: an edit of a key is one atomic step, whatever other writers do to
    that key and to every other; alone, it does what its change function says, at
    the first attempt; a listing alone gives every live record under its prefix,
    once; a name written as a key segment reads back.

    An item's JSON and the sealer are parameters ([Codec], [Sealer]). *)

From S2P Require Import Prelude Runs GoStrings Base64 Port Memory.

Implicit Types (key value prefix rev : string) (ttl : Z).

(** ** The port's listing *)

Definition record_at (view : string → option live_record) key : option KVRecord :=
  (λ r, mkKV key (lv_value r) (lv_rev r)) <$> view key.

(** One page of a listing whose remaining keys are [rest]: some of them, in order,
    and where the next page starts, if there is one. *)
Definition is_page (view : string → option live_record) prefix (rest : list string) (pg : Page) : Prop :=
  ∃ now later, rest = now ++ later ∧ pg_Records pg = omap (record_at view) now ∧
    (pg_Next pg = "" ∧ later = [] ∨ ∃ key, last now = Some key ∧ pg_Next pg = PageToken prefix key).

(** [internal/port/port.go:98-101 State.List], and what it promises: [sp_keys] are
    the live keys under a prefix, in order. *)
Class StateList (S : Type) `{StateSpec S} := {
  st_List : S → string → string → Z → result port_error Page;
  sp_keys : S → string → list string;
  sp_keys_sorted : ∀ s prefix, StronglySorted String.le (sp_keys s prefix) ∧ NoDup (sp_keys s prefix);
  sp_keys_live : ∀ n s prefix key, sp_ok n s →
    key ∈ sp_keys s prefix ↔ HasPrefix key prefix = true ∧ is_Some (sp_view s key);
  sp_List : ∀ n s prefix page limit after, sp_ok n s → contains_byte nul prefix = false →
    PageStart prefix page = Ok after →
    ∃ pg, st_List s prefix page limit = Ok pg ∧
      is_page (sp_view s) prefix (List.filter (beyond after) (sp_keys s prefix)) pg }.

(** The in-memory store's listing keeps it. *)
#[export] Program Instance Store_StateList : StateList Store := {
  st_List := Store_List;
  sp_keys := live_keys }.
Next Obligation. intros s prefix. apply live_keys_sorted. Qed.
Next Obligation.
  intros n s prefix key _. unfold live_keys. rewrite elem_of_filter_bool, andb_true_iff, elem_of_sorted_keys.
  simpl. unfold view. split.
  - intros [_ [Hp Hl]]. split; [done|]. by destruct (liveEntry s key).
  - intros [Hp [r Hr]]. destruct (liveEntry s key) as [e|] eqn:He; [|done].
    apply liveEntry_Some in He as [He _]. split; [by exists e|done].
Qed.
Next Obligation.
  intros n s prefix page limit after _ _ Hpage. simpl. unfold Store_List. rewrite Hpage. cbn [mbind result_bind].
  eexists. split; [reflexivity|]. fold (page_size limit). rewrite listed_live.
  set (rest := List.filter (beyond after) (live_keys s prefix)).
  assert (∀ l : list string, (∀ key, key ∈ l → key ∈ live_keys s prefix) →
    omap (record_of s) l = omap (record_at (view s)) l) as Hrec.
  { induction l as [|key l IH]; intros Hl; [done|]. cbn. rewrite IH by (intros; apply Hl; by right).
    assert (record_of s key = record_at (view s) key) as ->; [|done].
    assert (key ∈ live_keys s prefix) as Hk by (apply Hl; by left).
    apply elem_of_filter_bool in Hk as [_ [_ Hlive]%andb_true_iff]. unfold record_of, record_at, view.
    destruct (liveEntry s key) as [e|] eqn:He; [|done]. apply liveEntry_Some in He as [-> _]. done. }
  exists (take (page_size limit) rest), (drop (page_size limit) rest). cbn [pg_Records pg_Next].
  split; [by rewrite take_drop|]. split.
  { apply Hrec. intros key Hk%(subseteq_take _ rest). by apply elem_of_filter_bool in Hk as [? _]. }
  destruct (Nat.ltb_spec (page_size limit) (length rest)) as [Hlt|Hge]; [right|left; split; [done|by apply drop_ge]].
  pose proof (page_size_pos limit) as Hpos. destruct (last (take (page_size limit) rest)) as [key|] eqn:Hlast; [by exists key|].
  apply last_None in Hlast. apply (f_equal length) in Hlast. rewrite length_take in Hlast. simpl in Hlast. lia.
Qed.

(** ** Programs over the port *)

(** One call of the port, by the type of its answer. *)
Inductive call : Type → Type :=
| CGet key : call (result port_error KVRecord)
| CPut key value ttl : call (result port_error string)
| CCreate key value ttl : call (result port_error string)
| CUpdate key value ttl rev : call (result port_error string)
| CDelete key : call unit
| CDeleteIfRevision key rev : call (result port_error unit)
| CList prefix (page : string) (limit : Z) : call (result port_error Page).

(** Why an operation of the stores fails. *)
Inductive items_error : Type :=
| EPort (e : port_error)
| EBusy
| EUnreadable (key : string)
| ESealer (key : string)
| EInvalid (what : string)
| OutOfFuel.
#[global] Instance items_error_eq_dec : EqDecision items_error.
Proof. solve_decision. Defined.

(** A program that gives a result or an error. *)
Definition P (A : Type) : Type := prog call (result items_error A).
#[global] Instance P_ret : MRet P := λ A a, Ret (Ok a).
#[global] Instance P_bind : MBind P := λ A B k p,
  prog_bind p (λ r, match r with Ok a => k a | Err e => Ret (Err e) end).
Definition give {A} (a : A) : P A := Ret (Ok a).
Definition throw {A} (e : items_error) : P A := Ret (Err e).


Section semantics.
Context {S : Type} `{StateList S}.
Implicit Types s : S.

(** What the store answers. *)
Definition perform {B} (c : call B) : S → B * S :=
  match c in call B return S → B * S with
  | CGet key => λ s, (st_Get s key, s)
  | CPut key value ttl => λ s, st_Put s key value ttl
  | CCreate key value ttl => λ s, st_Create s key value ttl
  | CUpdate key value ttl rev => λ s, st_Update s key value ttl rev
  | CDelete key => λ s, (tt, st_Delete s key)
  | CDeleteIfRevision key rev => λ s, st_DeleteIfRevision s key rev
  | CList prefix page limit => λ s, (st_List s prefix page limit, s)
  end.

(** Alone. *)
Fixpoint run {A} (p : prog call A) s : A * S :=
  match p with Ret a => (a, s) | Do c k => let '(b, s) := perform c s in run (k b) s end.

(** Alone, stopped after its first calls. *)
Fixpoint crash {A} (calls : nat) (p : prog call A) s : S :=
  match calls, p with
  | Datatypes.S calls, Do c k => let '(b, s) := perform c s in crash calls (k b) s
  | _, _ => s
  end.

(** Two programs sharing the store: whose call comes next is the schedule. *)
Fixpoint interleaved {A B} (schedule : list bool) (p : prog call A) (q : prog call B) s : prog call A * prog call B * S :=
  match schedule with
  | [] => (p, q, s)
  | true :: rest => match p with Ret _ => interleaved rest p q s | Do c k => let '(b, s) := perform c s in interleaved rest (k b) q s end
  | false :: rest => match q with Ret _ => interleaved rest p q s | Do c k => let '(b, s) := perform c s in interleaved rest p (k b) s end
  end.

(** What anything else may do between two calls: any call, and time. *)
Inductive other : S → S → Prop :=
| other_call {B} (c : call B) s : other s (perform c s).2
| other_wait d s : (0 <= d)%Z → other s (st_wait s d).

(** Among others: [n] steps in all, the store before and after each of the
    program's own calls, its answer and the store at the end. *)
Fixpoint exec {A} (n : nat) (p : prog call A) s (own : list (S * S)) (a : A) s' : Prop :=
  match p with
  | Ret x => nsteps other n s s' ∧ own = [] ∧ a = x
  | Do c k => ∃ n1 n2 s1 own', n = n1 + Datatypes.S n2 ∧ nsteps other n1 s s1 ∧
      own = (s1, (perform c s1).2) :: own' ∧ exec n2 (k (perform c s1).1) (perform c s1).2 own' a s'
  end.
End semantics.

(** ** Edits *)

(** What a change function says of the value it is given: write another, delete it,
    leave it ([errKeep]), or fail.  Beside it stands what the function leaves in the
    variables it captured, which its caller reads when the edit succeeds. *)
Inductive change_result : Type :=
| Change (next : string) | Remove | Keep | Refuse (e : items_error).

(** [internal/portstore/portstore.go:55-56 attempts] *)
Definition attempts : nat := 16.

(** [internal/portstore/portstore.go:156-158 Base.editRaw]: what makes it try again. *)
Definition moved (e : port_error) : bool :=
  match e with ErrConflict | ErrExists | ErrNotFound => true | _ => false end.

(** [internal/portstore/portstore.go:156-159 Base.editRaw]: what follows a write. *)
Definition again {A W} (retry : P W) (w : W) (r : result port_error A) : P W :=
  match r with
  | Ok _ => give w
  | Err e => if moved e then retry else throw (EPort e)
  end.

(** [internal/portstore/portstore.go:136-159 Base.editRaw]: what is written over what was read. *)
Definition edit_over {W} (retry : P W) key ttl (change : option string → change_result * W) (cur : option KVRecord) : P W :=
  let '(verdict, w) := change (kv_Value <$> cur) in
  match verdict, cur with
  | Keep, _ => give w
  | Refuse e, _ => throw e
  | Remove, None => give w
  | Remove, Some rec => Do (CDeleteIfRevision key (kv_Revision rec))
      (λ r, match r with Err ErrNotFound => give w | _ => again retry w r end)
  | Change next, None => Do (CCreate key next ttl) (again retry w)
  | Change next, Some rec => Do (CUpdate key next ttl (kv_Revision rec)) (again retry w)
  end.

(** [internal/portstore/portstore.go:Base.editRaw], from a number of attempts. *)
Fixpoint editRaw_loop {W} (n : nat) key ttl (change : option string → change_result * W) : P W :=
  match n with
  | 0 => throw EBusy
  | S n =>
      Do (CGet key) (λ r,
        match r with
        | Err ErrNotFound => edit_over (editRaw_loop n key ttl change) key ttl change None
        | Err e => throw (EPort e)
        | Ok rec => edit_over (editRaw_loop n key ttl change) key ttl change (Some rec)
        end)
  end.
Definition editRaw {W} : string → Z → (option string → change_result * W) → P W := editRaw_loop attempts.

(** ** Items *)

(** [internal/portstore/portstore.go:type item]: a record and a sealed secret, both
    as bytes. *)
Record item := mkItem { it_Record : string; it_Sealed : string }.

(** A JSON document of a type, read back as it was written. *)
Class Codec (A : Type) := {
  encode_doc : A → string;
  decode_doc : string → option A;
  decode_encode_doc : ∀ a, decode_doc (encode_doc a) = Some a }.

(** [internal/port/port.go:type Sealer] with [port.Seal] and [port.Open], of a value
    for a key; [None] is a failure.  While the key-encryption key can be reached, what
    is sealed for a key opens under that key. *)
Class Sealer := { seal : string → string → option string; open_ : string → string → option string }.
Class SealerSpec `{Sealer} :=
  open_seal : ∀ key plain sealed, seal key plain = Some sealed → open_ key sealed = Some plain ∧ sealed ≠ "".

(** [internal/portstore/portstore.go:79-79 itemVersion] *)
Definition itemVersion : Z := 1.

Section items.
Context `{!Codec (Z * item)}.

(** [internal/portstore/portstore.go:decodeItem]; [None] is an item that does not
    decode or has another version. *)
Definition decodeItem (raw : string) : option item :=
  match decode_doc raw with
  | Some (v, it) => if bool_decide (v = itemVersion) then Some it else None
  | None => None
  end.

(** [internal/portstore/portstore.go:encodeItem] *)
Definition encodeItem (it : item) : string := encode_doc (itemVersion, it).

(** What a change of an item says. *)
Inductive item_change : Type :=
| ItemNext (next : item) | ItemGone | ItemKeep | ItemFails (e : items_error).

(** [internal/portstore/portstore.go:167-180 Base.editItem]: the change of the bytes. *)
Definition editItem_change {W} (change : option item → item_change * W) (raw : option string) : change_result * W :=
  let '(verdict, w) := change (raw ≫= decodeItem) in
  (match verdict with
   | ItemFails e => Refuse e
   | ItemKeep => Keep
   | ItemGone => Remove
   | ItemNext next => Change (encodeItem next)
   end, w).

(** [internal/portstore/portstore.go:Base.editItem] *)
Definition editItem {W} key ttl (change : option item → item_change * W) : P W := editRaw key ttl (editItem_change change).

(** [internal/portstore/portstore.go:Base.getItem] *)
Definition getItem key : P (option item) :=
  Do (CGet key) (λ r,
    match r with
    | Err ErrNotFound => give None
    | Err e => throw (EPort e)
    | Ok rec => match decodeItem (kv_Value rec) with Some it => give (Some it) | None => throw (EUnreadable key) end
    end).
End items.

(** [internal/portstore/portstore.go:Base.listAll], at most [fuel] pages. *)
Fixpoint listAll_loop (fuel : nat) prefix (page : string) (out : list KVRecord) : P (list KVRecord) :=
  match fuel with
  | 0 => throw OutOfFuel
  | S fuel =>
      Do (CList prefix page 0) (λ r,
        match r with
        | Err e => throw (EPort e)
        | Ok pg =>
            let out := out ++ pg_Records pg in
            if empty (pg_Next pg) then give out else listAll_loop fuel prefix (pg_Next pg) out
        end)
  end.
Definition listAll (fuel : nat) prefix : P (list KVRecord) := listAll_loop fuel prefix "" [].

(** ** Key segments *)

Definition hex_digit (x : nat) : ascii :=
  ascii_of_nat (if x <? 10 then 48 + x else 55 + x).

Definition seg_plain (c : ascii) : bool :=
  let n := nat_of_ascii c in
  ((97 <=? n) && (n <=? 122)) || ((65 <=? n) && (n <=? 90)) || ((48 <=? n) && (n <=? 57)) || (n =? 45) || (n =? 95).

(** [internal/portstore/portstore.go:seg] *)
Fixpoint seg (s : string) : string :=
  match s with
  | EmptyString => ""
  | String c s =>
      if seg_plain c then String c (seg s)
      else String "~" (String (hex_digit (nat_of_ascii c / 16)) (String (hex_digit (nat_of_ascii c mod 16)) (seg s)))
  end.

(** A hexadecimal digit of either case, as [fmt.Sscanf]'s [%02X] reads it. *)
Definition unhex (c : ascii) : option nat :=
  let n := nat_of_ascii c in
  if (48 <=? n) && (n <=? 57) then Some (n - 48)
  else if (65 <=? n) && (n <=? 70) then Some (n - 55)
  else if (97 <=? n) && (n <=? 102) then Some (n - 87)
  else None.

Definition scan_space (c : ascii) : bool :=
  let n := nat_of_ascii c in (n =? 32) || (n =? 9) || (n =? 11) || (n =? 12) || (n =? 13).

(** [fmt.Sscanf] of two bytes with [%02X]: spaces are skipped, and what follows the
    first digit need not be one. *)
Definition scan_hex (a b : ascii) : option ascii :=
  match unhex a with
  | Some x => Some (ascii_of_nat (match unhex b with Some y => 16 * x + y | None => x end))
  | None => if scan_space a then ascii_of_nat <$> unhex b else None
  end.

Fixpoint unseg_loop (s : string) : string :=
  match s with
  | String c rest =>
      match rest with
      | String a (String b rest') =>
          if bool_decide (c = "~"%char)
          then match scan_hex a b with Some v => String v (unseg_loop rest') | None => String c (unseg_loop rest) end
          else String c (unseg_loop rest)
      | _ => String c (unseg_loop rest)
      end
  | EmptyString => ""
  end.

(** [internal/portstore/portstore.go:unseg] *)
Definition unseg (s : string) : string := if contains_byte "~" s then unseg_loop s else s.

(** ** Segments read back *)

Lemma hex_digits_read (n : nat) : n < 256 →
  scan_hex (hex_digit (n / 16)) (hex_digit (n mod 16)) = Some (ascii_of_nat n).
Proof.
  intros Hn. assert (forallb (λ m, bool_decide (scan_hex (hex_digit (m / 16)) (hex_digit (m mod 16)) = Some (ascii_of_nat m)))
    (seq 0 256) = true) as Hall by (vm_compute; reflexivity).
  rewrite forallb_forall in Hall. eapply bool_decide_eq_true, Hall, in_seq. lia.
Qed.

Lemma seg_plain_tilde c : seg_plain c = true → c ≠ "~"%char.
Proof. by intros H ->. Qed.

(** The segment of a name is letters, digits, '-', '_' and '~': it holds no dot. *)
Lemma seg_no_dot s : contains_byte "." (seg s) = false.
Proof.
  induction s as [|c s IH]; [done|]. cbn [seg]. destruct (seg_plain c) eqn:Hc.
  - rewrite contains_byte_cons, IH, orb_false_r. apply byte_eqb_false. by intros <-.
  - rewrite !contains_byte_cons, IH.
    assert (∀ n, n < 16 → byte_eqb "." (hex_digit n) = false) as Hhex.
    { intros n Hn. do 16 (destruct n as [|n]; [done|]). lia. }
    rewrite !Hhex; [done|apply Nat.mod_upper_bound; lia|]. apply Nat.Div0.div_lt_upper_bound. pose proof (nat_ascii_bounded c). lia.
Qed.

(** a name written as a key segment reads back: whatever its bytes. *)
Theorem seg_roundtrip s : unseg (seg s) = s.
Proof.
  assert (unseg_loop (seg s) = s) as Hloop.
  { induction s as [|c s IH]; [done|]. cbn [seg]. destruct (seg_plain c) eqn:Hc.
    - apply seg_plain_tilde in Hc. destruct (seg s) as [|a [|b rest]]; cbn [unseg_loop] in *; try by rewrite IH.
      rewrite bool_decide_eq_false_2 by done. by rewrite IH.
    - cbn [unseg_loop]. rewrite bool_decide_eq_true_2, hex_digits_read by (done || apply nat_ascii_bounded).
      by rewrite IH, ascii_nat_embedding. }
  unfold unseg. destruct (contains_byte "~" (seg s)) eqn:Ht; [done|]. rewrite <- Hloop at 2. clear Hloop.
  induction (seg s) as [|c t IH]; [done|]. rewrite contains_byte_cons, orb_false_iff in Ht. destruct Ht as [Hc Ht].
  apply byte_eqb_false in Hc. specialize (IH Ht). destruct t as [|a [|b rest]]; cbn [unseg_loop] in *; try congruence.
  rewrite bool_decide_eq_false_2 by done. congruence.
Qed.

Lemma seg_inj s t : seg s = seg t → s = t.
Proof. intros Heq. by rewrite <- (seg_roundtrip s), Heq, seg_roundtrip. Qed.

(** ** What a call does *)

Section calls.
Context {S : Type} `{StateList S}.
Implicit Types s : S.

(** The value a key holds. *)
Definition value_at s key : option string := lv_value <$> sp_view s key.

(** The three things a call does to the store. *)
Definition effect s s' : Prop :=
  s' = s ∨ (∃ key value ttl rev, written sp_view sp_issued (sp_now s) s key value ttl rev s') ∨
  (∃ key, s' = st_Delete s key).

Lemma perform_effect {B} (c : call B) n s : sp_ok (Datatypes.S n) s →
  sp_ok n (perform c s).2 ∧ sp_now (perform c s).2 = sp_now s ∧ effect s (perform c s).2.
Proof.
  intros Hok. pose proof (sp_weaken _ _ Hok) as Hok'.
  assert (∀ s', s' = s → sp_ok n s' ∧ sp_now s' = sp_now s ∧ effect s s') as Hsame by (intros s' ->; split_and!; [done..|by left]).
  destruct c as [key|key value ttl|key value ttl|key value ttl rev|key|key rev|prefix page limit]; cbn [perform].
  - by apply Hsame.
  - destruct (CheckWrite key value ttl) as [e|] eqn:Hc.
    + destruct (sp_refused _ s key value ttl "" e Hok Hc) as (->&_&_). by apply Hsame.
    + destruct (sp_Put _ s key value ttl Hok Hc) as (rev&s'&->&Hs'&Hnow&Hw). split_and!; [done..|]. right. left. by exists key, value, ttl, rev.
  - destruct (CheckWrite key value ttl) as [e|] eqn:Hc.
    + destruct (sp_refused _ s key value ttl "" e Hok Hc) as (_&->&_). by apply Hsame.
    + destruct (sp_Create _ s key value ttl Hok Hc) as [[_ ->]|(_&rev&s'&->&Hs'&Hnow&Hw)]; [by apply Hsame|].
      split_and!; [done..|]. right. left. by exists key, value, ttl, rev.
  - destruct (CheckWrite key value ttl) as [e|] eqn:Hc.
    + destruct (sp_refused _ s key value ttl rev e Hok Hc) as (_&_&->). by apply Hsame.
    + destruct (sp_Update _ s key value ttl rev Hok Hc) as [[_ ->]|(r&_&[[_ ->]|(_&rev'&s'&->&Hs'&Hnow&Hw)])]; [by apply Hsame..|].
      split_and!; [done..|]. right. left. by exists key, value, ttl, rev'.
  - destruct (sp_Delete _ s key Hok') as (Hs'&Hnow&_). split_and!; [done..|]. right. right. by exists key.
  - destruct (sp_DeleteIfRevision _ s key rev Hok') as [[_ ->]|(r&_&[[_ ->]|[_ ->]])]; [by apply Hsame..|].
    destruct (sp_Delete _ s key Hok') as (Hs'&Hnow&_). split_and!; [done..|]. right. right. by exists key.
  - by apply Hsame.
Qed.

(** A revision stands for the value it was given out with, on its key. *)
Definition stands s key rev value : Prop :=
  sp_issued s rev ∧ ∀ r, sp_view s key = Some r → lv_rev r = rev → lv_value r = value.

Lemma stands_read n s key r : sp_ok n s → sp_view s key = Some r → stands s key (lv_rev r) (lv_value r).
Proof. intros Hok Hr. split; [by eapply sp_live|]. congruence. Qed.

Lemma stands_effect n s s' key rev value : sp_ok n s → effect s s' → stands s key rev value → stands s' key rev value.
Proof.
  intros Hok [->|[(k&v&ttl&rev'&Hnew&Hiss&Hkey&Hother)|(k&->)]] [Hrev Hview]; [done| |].
  - split; [apply Hiss; by left|]. intros r Hr Heq. destruct (decide (key = k)) as [->|Hk]; [|rewrite Hother in Hr by done; by apply Hview].
    rewrite Hkey in Hr. injection Hr as <-. simpl in Heq. by subst rev'.
  - destruct (sp_Delete n s k Hok) as (_&_&Hiss&Hnone&Hother). split; [by apply Hiss|]. intros r Hr Heq.
    destruct (decide (key = k)) as [->|Hk]; [congruence|]. rewrite Hother in Hr by done. by apply Hview.
Qed.

Lemma other_ok n s s' : sp_ok (Datatypes.S n) s → other s s' → sp_ok n s' ∧
  ∀ key rev value, stands s key rev value → stands s' key rev value.
Proof.
  intros Hok Hstep. revert Hok. destruct Hstep as [B c s1|d s1 Hd]; intros Hok.
  - destruct (perform_effect c n s1 Hok) as (Hok'&_&Heff). split; [done|]. intros key rev value. by apply (stands_effect (Datatypes.S n)).
  - destruct (sp_wait _ s1 d (sp_weaken _ _ Hok) Hd) as (Hok'&_&Hiss&Hview). split; [done|].
    intros key rev value [Hrev Hv]. split; [by apply Hiss|]. intros r. rewrite Hview.
    destruct (sp_view s1 key) as [r'|] eqn:Hr'; [|done]. destruct (alive _ _); [|done]. intros [= ->]. by apply Hv.
Qed.

Lemma others_ok n m s s' : nsteps other n s s' → sp_ok (n + m) s → sp_ok m s' ∧
  ∀ key rev value, stands s key rev value → stands s' key rev value.
Proof.
  revert s. induction n as [|n IH]; intros s Hn Hok; [by inversion Hn; subst|].
  inversion Hn as [|? ? s1 ? Hstep Hrest]; subst. destruct (other_ok _ _ _ Hok Hstep) as [Hok1 Hst]. destruct (IH _ Hrest Hok1) as [Hok' Hst']. split; [done|]. auto.
Qed.

(** ** Programs among others *)

Lemma exec_ok {A} (p : prog call A) n m s own a s' : exec n p s own a s' → sp_ok (n + m) s → sp_ok m s'.
Proof.
  revert n s own. induction p as [x|B c k IH]; intros n s own Hx Hok; [by destruct Hx as [Hs _]; eapply others_ok|].
  destruct Hx as (n1&n2&s1&own'&->&Hs&_&Hk). rewrite <- Nat.add_assoc in Hok. destruct (others_ok _ _ _ _ Hs Hok) as [Hok1 _].
  eapply IH; [exact Hk|]. by apply (perform_effect c).
Qed.

Lemma exec_bind {A B} (p : prog call A) (k : A → prog call B) n s own b s' :
  exec n (prog_bind p k) s own b s' → ∃ n1 n2 own1 own2 a s1, n = n1 + n2 ∧ own = own1 ++ own2 ∧
    exec n1 p s own1 a s1 ∧ exec n2 (k a) s1 own2 b s'.
Proof.
  revert n s own. induction p as [x|C c k' IH]; intros n s own Hx.
  - exists 0, n, [], own, x, s. split_and!; [done|done| |done]. split_and!; [constructor|done..].
  - destruct Hx as (n1&n2&s1&own'&->&Hs&->&Hk). destruct (IH _ _ _ _ Hk) as (m1&m2&own1&own2&a&s2&->&->&Hp&Hq).
    exists (n1 + Datatypes.S m1), m2, ((s1, (perform c s1).2) :: own1), own2, a, s2. split_and!; [lia|done| |done].
    by exists n1, m1, s1, own1.
Qed.

Lemma run_bind {A B} (p : prog call A) (k : A → prog call B) s : run (prog_bind p k) s = run (k (run p s).1) (run p s).2.
Proof. revert s. induction p as [x|C c k' IH]; intros s; [done|]. cbn [prog_bind run]. destruct (perform c s). apply IH. Qed.

(** Alone is among nobody. *)
Lemma run_exec {A} (p : prog call A) s : ∃ n own, exec n p s own (run p s).1 (run p s).2.
Proof.
  revert s. induction p as [x|B c k IH]; intros s; [exists 0, []; split_and!; [constructor|done..]|].
  cbn [run]. destruct (perform c s) as [b s1] eqn:Hc. destruct (IH b s1) as (n&own&Hx).
  exists (Datatypes.S n), ((s, s1) :: own). exists 0, n, s, own. rewrite Hc. split_and!; [done|constructor|done|done].
Qed.
End calls.

(** ** An edit is atomic *)

Section edits.
Context {S : Type} `{StateList S}.
Context {W : Type} (key : string) (ttl : Z) (change : option string → change_result * W).
Implicit Types s : S.

Definition quiet (own : list (S * S)) : Prop := Forall (λ x, x.1 = x.2) own.

(** How an edit that is not given up ends with its last call, at [s1] leaving [s2]; [own]
    are its calls. *)
Inductive edit_end (own : list (S * S)) s1 s2 : result items_error W → Prop :=
| end_written next rev w : change (value_at s1 key) = (Change next, w) →
    written sp_view sp_issued (sp_now s1) s1 key next ttl rev s2 → edit_end own s1 s2 (Ok w)
| end_removed w : change (value_at s1 key) = (Remove, w) → is_Some (sp_view s1 key) → s2 = st_Delete s1 key →
    edit_end own s1 s2 (Ok w)
| end_gone s0 w : (s0, s0) ∈ own → change (value_at s0 key) = (Remove, w) → sp_view s1 key = None → s2 = s1 →
    edit_end own s1 s2 (Ok w)
| end_kept w : change (value_at s1 key) = (Keep, w) → s2 = s1 → edit_end own s1 s2 (Ok w)
| end_refused e w : change (value_at s1 key) = (Refuse e, w) → s2 = s1 → edit_end own s1 s2 (Err e)
| end_unwritable s0 next e w : (s0, s0) ∈ own → change (value_at s0 key) = (Change next, w) →
    CheckWrite key next ttl = Some e → s2 = s1 → edit_end own s1 s2 (Err (EPort e)).

(** The calls of [k] attempts, a read and a write each, the record of the key not at the
    write what it was at the read. *)
Fixpoint interrupted (k : nat) (own : list (S * S)) : Prop :=
  match k, own with
  | 0, [] => True
  | Datatypes.S k, (s_read, _) :: (s_write, _) :: own => sp_view s_read key ≠ sp_view s_write key ∧ interrupted k own
  | _, _ => False
  end.

Definition edit_done (own : list (S * S)) (r : result items_error W) s' : Prop :=
  ∃ before s1 s2 j, own = before ++ [(s1, s2)] ∧ quiet before ∧ edit_end own s1 s2 r ∧ nsteps other j s2 s'.

Lemma edit_end_more own own' s1 s2 r : (∀ x, x ∈ own → x ∈ own') → edit_end own s1 s2 r → edit_end own' s1 s2 r.
Proof. intros Hown Hend. destruct Hend; [by eapply end_written|by apply end_removed|eapply end_gone; eauto|by apply end_kept|by eapply end_refused|eapply end_unwritable; eauto]. Qed.

Lemma edit_done_more own pre r s' : quiet pre → edit_done own r s' → edit_done (pre ++ own) r s'.
Proof.
  intros Hpre (before&s1&s2&j&->&Hq&Hend&Hj). exists (pre ++ before), s1, s2, j. split_and!; [by rewrite app_assoc|by apply Forall_app| |done].
  eapply edit_end_more; [|exact Hend]. intros x Hx. apply elem_of_app. by right.
Qed.

(** The last call of an edit. *)
Lemma edit_done_last s0 own s1 s2 r j s' : own = [(s1, s2)] ∨ own = [(s0, s0); (s1, s2)] →
  edit_end own s1 s2 r → nsteps other j s2 s' → edit_done own r s'.
Proof.
  intros [->| ->] Hend Hj; [exists [], s1, s2, j|exists [(s0, s0)], s1, s2, j]; split_and!; try done; [constructor|by apply Forall_singleton].
Qed.

(** A conditional write answers that the key moved only if it did since the read, and
    otherwise writes over what was read. *)
Definition no_write_of (e : port_error) (next : string) : Prop := CheckWrite key next ttl = Some e ∧ moved e = false.

Lemma CheckWrite_not_moved next e : CheckWrite key next ttl = Some e → moved e = false.
Proof. unfold CheckWrite. repeat case_match; naive_solver. Qed.

Lemma Update_over n s rev next value : sp_ok (Datatypes.S n) s → stands s key rev value →
  match st_Update s key next ttl rev with
  | (Ok _, s2) => value_at s key = Some value ∧ ∃ rev', written sp_view sp_issued (sp_now s) s key next ttl rev' s2
  | (Err e, s2) => s2 = s ∧ (no_write_of e next ∨ moved e = true ∧ ∀ r, sp_view s key = Some r → lv_rev r ≠ rev)
  end.
Proof.
  intros Hok [_ Hst]. destruct (CheckWrite key next ttl) as [e|] eqn:Hc.
  - destruct (sp_refused _ s key next ttl rev e Hok Hc) as (_&_&->). split; [done|]. left. split; [done|by eapply CheckWrite_not_moved].
  - destruct (sp_Update _ s key next ttl rev Hok Hc) as [[Hn ->]|(r&Hr&[[Hne ->]|(Heq&rev'&s'&->&_&_&Hw)])].
    + split; [done|]. right. split; [done|]. congruence.
    + split; [done|]. right. split; [done|]. congruence.
    + split; [|by eexists]. unfold value_at. rewrite Hr. simpl. by rewrite (Hst r Hr Heq).
Qed.

Lemma Create_over n s next : sp_ok (Datatypes.S n) s →
  match st_Create s key next ttl with
  | (Ok _, s2) => value_at s key = None ∧ ∃ rev', written sp_view sp_issued (sp_now s) s key next ttl rev' s2
  | (Err e, s2) => s2 = s ∧ (no_write_of e next ∨ moved e = true ∧ is_Some (sp_view s key))
  end.
Proof.
  intros Hok. destruct (CheckWrite key next ttl) as [e|] eqn:Hc.
  - destruct (sp_refused _ s key next ttl "" e Hok Hc) as (_&->&_). split; [done|]. left. split; [done|by eapply CheckWrite_not_moved].
  - destruct (sp_Create _ s key next ttl Hok Hc) as [[Hn ->]|(Hn&rev'&s'&->&_&_&Hw)].
    + split; [done|]. by right.
    + split; [|by eexists]. unfold value_at. by rewrite Hn.
Qed.

Lemma Delete_over n s rev value : sp_ok n s → stands s key rev value →
  match st_DeleteIfRevision s key rev with
  | (Ok _, s2) => value_at s key = Some value ∧ s2 = st_Delete s key
  | (Err e, s2) => s2 = s ∧ moved e = true ∧ (∀ r, sp_view s key = Some r → lv_rev r ≠ rev) ∧ (e = ErrNotFound → sp_view s key = None)
  end.
Proof.
  intros Hok [_ Hst]. destruct (sp_DeleteIfRevision _ s key rev Hok) as [[Hn ->]|(r&Hr&[[Hne ->]|[Heq ->]])].
  - split_and!; [done|done|congruence|done].
  - split_and!; [done|done|congruence|done].
  - split; [|done]. unfold value_at. rewrite Hr. simpl. by rewrite (Hst r Hr Heq).
Qed.

(** An attempt that met another's change of the key between its read and its write: the
    attempts left go on from there. *)
Definition retried (k m : nat) (own : list (S * S)) (r : result items_error W) s' : Prop :=
  ∃ n' s1 s2 own', sp_view s1 key ≠ sp_view s2 key ∧ own = [(s1, s1); (s2, s2)] ++ own' ∧ sp_ok (n' + m) s2 ∧
    exec n' (editRaw_loop k key ttl change) s2 own' r s'.

(** What a write's answer leads to, at [s2], after its read at [s0]. *)
Lemma write_answered {A} k n2 m s0 s2 own (ans : result port_error A * S) r s' next w :
  sp_ok (n2 + m) ans.2 → exec n2 (again (editRaw_loop k key ttl change) w ans.1) ans.2 own r s' →
  change (value_at s0 key) = (Change next, w) →
  match ans with
  | (Ok _, s3) => change (value_at s2 key) = (Change next, w) ∧ ∃ rev', written sp_view sp_issued (sp_now s2) s2 key next ttl rev' s3
  | (Err e, s3) => s3 = s2 ∧ (no_write_of e next ∨ moved e = true ∧ sp_view s0 key ≠ sp_view s2 key)
  end →
  edit_done ([(s0, s0); (s2, ans.2)] ++ own) r s' ∨ retried k m ([(s0, s0); (s2, ans.2)] ++ own) r s'.
Proof.
  intros Hok Hx Hch Hw. destruct ans as [[x|e] s3]; cbn [fst snd] in *.
  - left. destruct Hx as (Hj&->&->), Hw as (Hv&rev'&Hw). apply (edit_done_last s0 _ s2 s3 _ n2); [by right| |done]. by eapply end_written.
  - destruct Hw as (->&[[Hc Hm]|[Hm Hne]]); cbn [again] in Hx; rewrite Hm in Hx.
    + left. destruct Hx as (Hj&->&->). apply (edit_done_last s0 _ s2 s2 _ n2); [by right| |done].
      eapply (end_unwritable _ _ _ s0); [by left|done..].
    + right. by exists n2, s0, s2, own.
Qed.

Definition attempted k m own r s' : Prop := edit_done own r s' ∨ retried k m own r s'.

Lemma attempted_read k n m s1 r s' : nsteps other n s1 s' → edit_end [(s1, s1)] s1 s1 r → attempted k m [(s1, s1)] r s'.
Proof. intros Hj Hend. left. apply (edit_done_last s1 _ s1 s1 _ n); [by left|done|done]. Qed.

Lemma over_nothing k n m s1 own r s' : sp_ok (n + m) s1 → sp_view s1 key = None →
  exec n (edit_over (editRaw_loop k key ttl change) key ttl change None) s1 own r s' →
  attempted k m ((s1, s1) :: own) r s'.
Proof.
  intros Hok Hnone. assert (value_at s1 key = None) as Hv by (unfold value_at; by rewrite Hnone).
  unfold edit_over. cbn [fmap option_fmap option_map]. destruct (change None) as [[next| | |e] w] eqn:Hch.
  - intros (n1&n2&s2&own'&->&Hs2&->&Hx). cbn [perform] in *.
    destruct (others_ok n1 (Datatypes.S n2 + m) s1 s2 Hs2) as [Hok2 _]; [by rewrite Nat.add_assoc|].
    pose proof (Create_over _ s2 next Hok2) as Hw.
    pose proof (proj1 (perform_effect (CCreate key next ttl) _ s2 Hok2)) as Hok3. cbn [perform] in Hok3.
    eapply (write_answered k n2 m s1 s2 own'); [done|exact Hx|by rewrite Hv|].
    destruct (st_Create s2 key next ttl) as [[x|e] s3]; [by destruct Hw as [-> Hw]|].
    destruct Hw as (->&[?|[Hm [r0 Hr0]]]); split; auto. right. split; [done|]. congruence.
  - intros (Hj&->&->). apply (attempted_read k n); [done|]. apply (end_gone _ _ _ s1); [by left|by rewrite Hv|done..].
  - intros (Hj&->&->). apply (attempted_read k n); [done|]. apply end_kept; [by rewrite Hv|done].
  - intros (Hj&->&->). apply (attempted_read k n); [done|]. eapply end_refused; [by rewrite Hv|done].
Qed.

Lemma over_record k n m s1 r0 own r s' : sp_ok (n + m) s1 → sp_view s1 key = Some r0 →
  exec n (edit_over (editRaw_loop k key ttl change) key ttl change (Some (mkKV key (lv_value r0) (lv_rev r0)))) s1 own r s' →
  attempted k m ((s1, s1) :: own) r s'.
Proof.
  intros Hok Hr0. assert (value_at s1 key = Some (lv_value r0)) as Hv by (unfold value_at; by rewrite Hr0).
  pose proof (stands_read _ _ _ _ Hok Hr0) as Hst1.
  assert (∀ s2, (∀ r, sp_view s2 key = Some r → lv_rev r ≠ lv_rev r0) → sp_view s1 key ≠ sp_view s2 key) as Hmoved.
  { intros s2 Hne Heq. apply (Hne r0); congruence. }
  unfold edit_over. cbn [fmap option_fmap option_map kv_Value kv_Revision]. destruct (change (Some (lv_value r0))) as [[next| | |e] w] eqn:Hch.
  - intros (n1&n2&s2&own'&->&Hs2&->&Hx). cbn [perform] in *.
    destruct (others_ok n1 (Datatypes.S n2 + m) s1 s2 Hs2) as [Hok2 Hst]; [by rewrite Nat.add_assoc|].
    pose proof (Update_over _ s2 (lv_rev r0) next (lv_value r0) Hok2 (Hst _ _ _ Hst1)) as Hw.
    pose proof (proj1 (perform_effect (CUpdate key next ttl (lv_rev r0)) _ s2 Hok2)) as Hok3. cbn [perform] in Hok3.
    eapply (write_answered k n2 m s1 s2 own'); [done|exact Hx|by rewrite Hv|].
    destruct (st_Update s2 key next ttl (lv_rev r0)) as [[x|e] s3]; [by destruct Hw as [-> Hw]|].
    destruct Hw as (->&[?|[Hm Hne]]); split; auto.
  - intros (n1&n2&s2&own'&->&Hs2&->&Hx). cbn [perform] in *.
    destruct (others_ok n1 (Datatypes.S n2 + m) s1 s2 Hs2) as [Hok2 Hst]; [by rewrite Nat.add_assoc|].
    pose proof (Delete_over _ s2 (lv_rev r0) (lv_value r0) Hok2 (Hst _ _ _ Hst1)) as Hw.
    destruct (st_DeleteIfRevision s2 key (lv_rev r0)) as [[x|e] s3]; cbn [fst snd] in *.
    + destruct Hx as (Hj&->&->), Hw as (Hv2&->). left. apply (edit_done_last s1 _ s2 (st_Delete s2 key) _ n2); [by right| |done].
      apply end_removed; [by rewrite Hv2|unfold value_at in Hv2; by destruct (sp_view s2 key)|done].
    + destruct Hw as (->&Hm&Hne&Hgone). destruct (decide (e = ErrNotFound)) as [->|He].
      * destruct Hx as (Hj&->&->). left. apply (edit_done_last s1 _ s2 s2 _ n2); [by right| |done].
        apply (end_gone _ _ _ s1); [by left|by rewrite Hv|by apply Hgone|done].
      * right. exists n2, s1, s2, own'. split_and!; [by apply Hmoved|done|by eapply sp_weaken|destruct e; try done; by destruct He].
  - intros (Hj&->&->). apply (attempted_read k n); [done|]. apply end_kept; [by rewrite Hv|done].
  - intros (Hj&->&->). apply (attempted_read k n); [done|]. eapply end_refused; [by rewrite Hv|done].
Qed.

(** One attempt ends the edit, or another's change of the key came between its read and its
    write. *)
Lemma attempt k n m s own r s' : sp_ok (n + m) s → exec n (editRaw_loop (Datatypes.S k) key ttl change) s own r s' →
  attempted k m own r s'.
Proof.
  intros Hok (n1&n2&s1&own'&->&Hs1&->&Hx). cbn [perform fst snd] in *.
  destruct (others_ok n1 (Datatypes.S n2 + m) s s1 Hs1) as [Hok1 _]; [by rewrite Nat.add_assoc|].
  rewrite (sp_Get _ _ _ Hok1) in Hx. apply sp_weaken in Hok1.
  destruct (sp_view s1 key) as [r0|] eqn:Hr0; [by eapply over_record|by eapply over_nothing].
Qed.

Lemma attempts_all k n m s own r s' : sp_ok (n + m) s → exec n (editRaw_loop k key ttl change) s own r s' →
  edit_done own r s' ∨
  (r = Err EBusy ∧ quiet own ∧ interrupted k own ∧ ∃ s2 j, (own = [] ∧ k = 0 ∨ last own = Some (s2, s2)) ∧ nsteps other j s2 s').
Proof.
  revert n s own. induction k as [|k IH]; intros n s own Hok Hx.
  - right. destruct Hx as (Hj&->&->). split_and!; [done|constructor|done|]. exists s, n. split; [by left|done].
  - apply (attempt k n m) in Hx as [Hd|(n'&s1&s2&own'&Hne&->&Hok2&Hx)]; [by left| |done].
    destruct (IH _ _ _ Hok2 Hx) as [Hd|(->&Hq&Hint&s3&j&Hlast&Hj)].
    + left. apply edit_done_more; [by repeat constructor|done].
    + right. split_and!; [done|by repeat constructor|done|].
      destruct Hlast as [[-> ->]|Hlast]; [|exists s3, j; split; [right|done]; by rewrite last_app, Hlast].
      destruct Hx as (Hj2&_&_). exists s2, n'. split; [by right|done].
Qed.
End edits.

Lemma edit_instant {S W} `{StateList S} n m (s : S) key ttl (change : option string → change_result * W) own r s' :
  sp_ok (n + m) s → exec n (editRaw key ttl change) s own r s' →
  ∃ before s1 s2 j, own = before ++ [(s1, s2)] ∧ quiet before ∧ nsteps other j s2 s' ∧
    (edit_end key ttl change own s1 s2 r ∨ r = Err EBusy ∧ s2 = s1 ∧ interrupted key 16 own).
Proof.
  intros Hok Hx. destruct (attempts_all _ _ _ _ _ _ _ _ _ _ Hok Hx) as [Hd|(->&Hq&Hint&s2&j&[[_ ?]|Hlast]&Hj)]; [|done|].
  - destruct Hd as (before&s1&s2&j&?&?&?&?). exists before, s1, s2, j. split_and!; auto.
  - apply last_Some in Hlast as [before Hown]. exists before, s2, s2, j. rewrite Hown in Hq. apply Forall_app in Hq as [Hq _].
    split_and!; [done..|]. by right.
Qed.

(** C25: an edit is one atomic step.  Whatever other writers do to the key and to every
    other between its calls, and however long they take, all the calls of an edit but
    its last leave the store alone; at its last the change is made to the value the key
    holds at that very instant, in full or not at all; an error means nothing was
    written; and it gives up only after sixteen attempts, a read and a write each, in every
    one of which the record of this key was not at the write what it had been at the read. *)
Theorem editRaw_atomic {S W} `{StateList S} n m (s : S) key ttl (change : option string → change_result * W) own r s' :
  sp_ok (n + m) s → exec n (editRaw key ttl change) s own r s' →
  ∃ before s1 s2 j, own = before ++ [(s1, s2)] ∧ quiet before ∧ nsteps other j s2 s' ∧
    (edit_end key ttl change own s1 s2 r ∨ r = Err EBusy ∧ s2 = s1 ∧ interrupted key 16 own).
Proof. apply edit_instant. Qed.

(** ** Alone *)

Section alone.
Context {S : Type} `{StateList S}.
Implicit Types s : S.

(** One key of the store replaced or deleted, and nothing else. *)
Definition key_set s key (v : option live_record) s' : Prop :=
  sp_now s' = sp_now s ∧ sp_view s' key = v ∧ ∀ key', key' ≠ key → sp_view s' key' = sp_view s key'.

Lemma written_set s key value ttl rev s' : sp_now s' = sp_now s → written sp_view sp_issued (sp_now s) s key value ttl rev s' →
  key_set s key (Some (mkLive value rev (if (ttl =? 0)%Z then None else Some (sp_now s + ttl)%Z))) s'.
Proof. intros Hnow (_&_&?&?). done. Qed.

(** What an edit does to a store nobody else writes to. *)
Definition edited {W} s key ttl (verdict : change_result * W) (r : result items_error W) s' : Prop :=
  match verdict.1 with
  | Change next =>
      match CheckWrite key next ttl with
      | Some e => r = Err (EPort e) ∧ s' = s
      | None => r = Ok verdict.2 ∧ ∃ rev, key_set s key (Some (mkLive next rev (if (ttl =? 0)%Z then None else Some (sp_now s + ttl)%Z))) s'
      end
  | Remove => r = Ok verdict.2 ∧ key_set s key None s'
  | Keep => r = Ok verdict.2 ∧ s' = s
  | Refuse e => r = Err e ∧ s' = s
  end.

Lemma editRaw_first {W} k n s key ttl (change : option string → change_result * W) : sp_ok (Datatypes.S n) s →
  let '(r, s') := run (editRaw_loop (Datatypes.S k) key ttl change) s in
  sp_ok n s' ∧ edited s key ttl (change (value_at s key)) r s'.
Proof.
  intros Hok. pose proof (sp_weaken _ _ Hok) as Hok'. cbn [editRaw_loop run perform].
  rewrite (sp_Get _ _ _ Hok). unfold value_at, edited, edit_over.
  destruct (sp_view s key) as [r0|] eqn:Hr0; cbn [kv_Value kv_Revision fmap option_fmap option_map].
  - destruct (change (Some (lv_value r0))) as [[next| | |e] w]; cbn [run perform fst snd]; [..|done|done].
    + destruct (CheckWrite key next ttl) as [e|] eqn:Hc.
      * destruct (sp_refused _ s key next ttl (lv_rev r0) e Hok Hc) as (_&_&->). cbn [again].
        by rewrite (CheckWrite_not_moved _ _ _ _ Hc).
      * destruct (sp_Update _ s key next ttl (lv_rev r0) Hok Hc) as [[? _]|(r&Hr&[[? _]|(_&rev&s'&->&Hs'&Hnow&Hw)])]; [congruence..|].
        cbn. split; [done|]. split; [done|]. exists rev. by apply written_set.
    + destruct (sp_DeleteIfRevision _ s key (lv_rev r0) Hok) as [[? _]|(r&Hr&[[? _]|[_ ->]])]; [congruence..|].
      destruct (sp_Delete _ s key Hok') as (Hs'&Hnow&_&Hnone&Hother). cbn. by split_and!.
  - destruct (change None) as [[next| | |e] w]; cbn [run perform fst snd]; [..|done|done].
    + destruct (CheckWrite key next ttl) as [e|] eqn:Hc.
      * destruct (sp_refused _ s key next ttl "" e Hok Hc) as (_&->&_). cbn [again].
        by rewrite (CheckWrite_not_moved _ _ _ _ Hc).
      * destruct (sp_Create _ s key next ttl Hok Hc) as [[[? ?] _]|(_&rev&s'&->&Hs'&Hnow&Hw)]; [congruence|].
        cbn. split; [done|]. split; [done|]. exists rev. by apply written_set.
    + cbn. by split_and!.
Qed.

(** an edit alone does what its change says, at the first attempt. *)
Theorem editRaw_alone {W} n s key ttl (change : option string → change_result * W) : sp_ok (Datatypes.S n) s →
  let '(r, s') := run (editRaw key ttl change) s in
  sp_ok n s' ∧ edited s key ttl (change (value_at s key)) r s'.
Proof. apply editRaw_first. Qed.

Lemma listAll_rest n s prefix : sp_ok n s → contains_byte nul prefix = false → ∀ fuel page after done rest out,
  PageStart prefix page = Ok after → sp_keys s prefix = done ++ rest →
  List.filter (beyond after) (sp_keys s prefix) = rest →
  run (listAll_loop fuel prefix page out) s = (Ok (out ++ omap (record_at (sp_view s)) rest), s) ∨
  run (listAll_loop fuel prefix page out) s = (Err OutOfFuel, s) ∧ fuel <= length rest.
Proof.
  intros Hok Hp. induction fuel as [|fuel IH]; intros page after read rest out Hpage Hkeys Hrest; [right; split; [done|lia]|].
  cbn [listAll_loop run perform]. destruct (sp_List n s prefix page 0 after Hok Hp Hpage) as (pg&->&now&later&Hsplit&Hrec&Hnext).
  rewrite Hrest in Hsplit. destruct Hnext as [[-> ->]|(key&Hlast&->)].
  - left. cbn. by rewrite Hrec, Hsplit, app_nil_r.
  - rewrite (proj2 (empty_false _)) by apply PageToken_nonempty. apply last_Some in Hlast as [now' ->].
    destruct (IH (PageToken prefix key) key (read ++ now' ++ [key]) later (out ++ pg_Records pg)) as [->|[-> Hfuel]].
    + rewrite PageStart_token by done. by rewrite bool_decide_eq_true_2.
    + by rewrite Hkeys, Hsplit, app_assoc.
    + destruct (sp_keys_sorted s prefix) as [Hs Hnd]. rewrite Hkeys, Hsplit in *.
      replace (read ++ (now' ++ [key]) ++ later) with ((read ++ now') ++ key :: later) in * by (by rewrite <- !app_assoc).
      by apply filter_beyond.
    + left. by rewrite Hrec, Hsplit, (omap_app _ (now' ++ [key])), app_assoc.
    + right. split; [done|]. rewrite Hsplit, !length_app. simpl. lia.
Qed.

Lemma listAll_run n s prefix fuel : sp_ok n s → contains_byte nul prefix = false → prefix ≠ "" →
  run (listAll fuel prefix) s = (Ok (omap (record_at (sp_view s)) (sp_keys s prefix)), s) ∨
  run (listAll fuel prefix) s = (Err OutOfFuel, s) ∧ fuel <= length (sp_keys s prefix).
Proof.
  intros Hok Hp Hne. assert (List.filter (beyond "") (sp_keys s prefix) = sp_keys s prefix) as Hall.
  { apply filter_all. intros key Hkey. rewrite beyond_empty. apply (sp_keys_live n) in Hkey as [Hpre _]; [|done].
    destruct key; [by destruct prefix|done]. }
  exact (listAll_rest n s prefix Hok Hp fuel "" "" [] (sp_keys s prefix) [] eq_refl eq_refl Hall).
Qed.

(** a listing alone gives every live record under its prefix, once, in key order,
    however many pages it takes. *)
Theorem listAll_alone n s prefix fuel : sp_ok n s → contains_byte nul prefix = false → prefix ≠ "" →
  length (sp_keys s prefix) < fuel →
  run (listAll fuel prefix) s = (Ok (omap (record_at (sp_view s)) (sp_keys s prefix)), s).
Proof.
  intros Hok Hp Hne Hfuel. destruct (listAll_run n s prefix fuel Hok Hp Hne) as [->|[_ ?]]; [done|lia].
Qed.
End alone.

(** ** A listing among writers *)

Section listing.
Context {S : Type} `{StateList S}.
Implicit Types s : S.

(** What the page read at [s1] leaves for later pages. *)
Lemma page_next prefix (view : string → option live_record) rest pg after key :
  StronglySorted String.le rest → NoDup rest → is_page view prefix rest pg → key ∈ rest → beyond after key = true →
  is_Some (view key) →
  (∃ rec, record_at view key = Some rec ∧ rec ∈ pg_Records pg) ∨
  ∃ last', pg_Next pg = PageToken prefix last' ∧ beyond last' key = true.
Proof.
  intros Hs Hnd (now&later&->&Hrec&Hnext) Hkey Hafter [r Hr]. apply elem_of_app in Hkey as [Hkey|Hkey].
  - left. eexists. unfold record_at at 1. rewrite Hr. split; [done|]. rewrite Hrec. apply list_elem_of_omap.
    exists key. split; [done|]. unfold record_at. by rewrite Hr.
  - right. destruct Hnext as [[_ ->]|(key'&Hlast&Htok)]; [by apply elem_of_nil in Hkey|]. exists key'. split; [done|].
    apply last_Some in Hlast as [now' ->]. apply bool_decide_eq_true. intros Hle.
    assert (String.le key' key) as Hge by (eapply StronglySorted_app_1_elem_of; [exact Hs| |exact Hkey]; set_solver).
    apply NoDup_app in Hnd as (_&Hdis&_). apply (Hdis key); [|done]. rewrite (anti_symm String.le key key') by done. set_solver.
Qed.

Lemma listAll_keeps fuel prefix key : contains_byte nul prefix = false → HasPrefix key prefix = true →
  ∀ n m s own page after out found s', PageStart prefix page = Ok after →
  sp_ok (n + m) s → exec n (listAll_loop fuel prefix page out) s own (Ok found) s' →
  (∀ x, x ∈ own → is_Some (sp_view x.1 key)) →
  (∀ rec, rec ∈ out → rec ∈ found) ∧
  (beyond after key = true → ∃ s1 rec, (s1, s1) ∈ own ∧ record_at (sp_view s1) key = Some rec ∧ rec ∈ found).
Proof.
  intros Hp Hkey. induction fuel as [|fuel IH]; intros n m s own page after out found s' Hpage Hok Hx Hlive;
    [by destruct Hx as (_&_&?)|].
  destruct Hx as (n1&n2&s1&own'&->&Hs1&->&Hx). cbn [perform fst snd] in *.
  destruct (others_ok n1 (Datatypes.S n2 + m) s s1 Hs1) as [Hok1 _]; [by rewrite Nat.add_assoc|].
  destruct (sp_List _ s1 prefix page 0 after Hok1 Hp Hpage) as (pg&Heq&Hpg). rewrite Heq in Hx.
  assert (is_Some (sp_view s1 key)) as Hlive1 by (apply (Hlive (s1, s1)); by left).
  assert (beyond after key = true → (∃ rec, record_at (sp_view s1) key = Some rec ∧ rec ∈ pg_Records pg) ∨
    ∃ last', pg_Next pg = PageToken prefix last' ∧ beyond last' key = true) as Hnext.
  { intros Hb. destruct (sp_keys_sorted s1 prefix) as [Hs Hnd]. eapply page_next; [| |exact Hpg| |exact Hb|done].
    - by apply StronglySorted_filter.
    - by apply NoDup_ListNoDup, List.NoDup_filter, NoDup_ListNoDup.
    - apply elem_of_filter_bool. split; [|done]. by eapply (sp_keys_live _ s1 prefix key Hok1). }
  destruct (empty (pg_Next pg)) eqn:Hempty.
  - destruct Hx as (_&->&[= ->]). split; [set_solver|]. intros Hb.
    destruct (Hnext Hb) as [(rec&Hr&Hin)|(last'&Htok&_)].
    + exists s1, rec. split_and!; [by left|done|set_solver].
    + rewrite Htok, (proj2 (empty_false _)) in Hempty; [done|apply PageToken_nonempty].
  - destruct Hpg as (now&later&_&_&[[Hn _]|(key'&_&Htok)]); [by rewrite Hn in Hempty|]. rewrite Htok in Hx, Hnext.
    destruct (IH n2 m s1 own' (PageToken prefix key') key' (out ++ pg_Records pg) found s') as [Hout Hfound];
      [by rewrite PageStart_token, bool_decide_eq_true_2|by apply sp_weaken|exact Hx|intros x Hxo; apply Hlive; by right|].
    split; [set_solver|]. intros Hb. destruct (Hnext Hb) as [(rec&Hr&Hin)|(last'&Htok'&Hb')].
    + exists s1, rec. split_and!; [by left|done|set_solver].
    + assert (last' = key') as ->.
      { assert (PageStart prefix (PageToken prefix key') = PageStart prefix (PageToken prefix last')) as Heq' by (by rewrite Htok').
        rewrite !PageStart_token, bool_decide_eq_true_2 in Heq' by done. by injection Heq'. }
      destruct (Hfound Hb') as (s2&rec&?&?&?). exists s2, rec. split_and!; [by right|done..].
Qed.
End listing.

(** a listing misses nothing that stays.  However others write between its pages, a
    record that is live whenever a page is read is in the result, as one of those
    reads saw it. *)
Theorem listAll_misses_nothing {S} `{StateList S} n m (s : S) fuel prefix own found s' key :
  sp_ok (n + m) s → contains_byte nul prefix = false → prefix ≠ "" →
  exec n (listAll fuel prefix) s own (Ok found) s' →
  HasPrefix key prefix = true → (∀ x, x ∈ own → is_Some (sp_view x.1 key)) →
  ∃ s1 rec, (s1, s1) ∈ own ∧ record_at (sp_view s1) key = Some rec ∧ rec ∈ found.
Proof.
  intros Hok Hp Hne Hx Hkey Hlive.
  eapply (listAll_keeps fuel prefix key Hp Hkey n m s own "" "" [] found s'); [done..|].
  rewrite beyond_empty. destruct key; [by destruct prefix|done].
Qed.

(** ** Two programs on one timeline *)

Section timeline.
Context {S : Type} `{StateList S}.
Implicit Types s : S.

(** What happened to the store, and by which of the two. *)
Fixpoint chain s (tl : list (bool * (S * S))) s' : Prop :=
  match tl with [] => s = s' | (_, (a, b)) :: tl => a = s ∧ chain b tl s' end.
Definition owns (who : bool) (tl : list (bool * (S * S))) : list (S * S) := snd <$> List.filter (λ e, Bool.eqb e.1 who) tl.

Lemma exec_later {A} (p : prog call A) n s s1 own a s' : other s s1 → exec n p s1 own a s' → exec (Datatypes.S n) p s own a s'.
Proof.
  intros Ho. destruct p as [x|B c k]; cbn [exec].
  - intros (Hn&?&?). split; [by econstructor|done].
  - intros (n1&n2&s2&own'&->&Hn&->&Hk). exists (Datatypes.S n1), n2, s2, own'. split_and!; [lia|by econstructor|done|done].
Qed.

Lemma interleaved_timeline {A B} schedule (p : prog call A) (q : prog call B) s a b s' :
  interleaved schedule p q s = (Ret a, Ret b, s') →
  ∃ tl, length tl <= length schedule ∧ chain s tl s' ∧
    exec (length tl) p s (owns true tl) a s' ∧ exec (length tl) q s (owns false tl) b s'.
Proof.
  revert p q s. induction schedule as [|[] schedule IH]; intros p q s Hi; cbn [interleaved] in Hi.
  - injection Hi as -> -> ->. exists []. split_and!; [done|done|by split_and!; [constructor|..]..].
  - destruct p as [x|C c k].
    + destruct (IH _ _ _ Hi) as (tl&?&?). exists tl. cbn [length]. split; [lia|done].
    + destruct (perform c s) as [y s1] eqn:Hc. destruct (IH _ _ _ Hi) as (tl&Hlen&Hch&Hp&Hq). exists ((true, (s, s1)) :: tl).
      split_and!; [cbn; lia|done| |].
      * exists 0, (length tl), s, (owns true tl). rewrite Hc. split_and!; [done|constructor|done|done].
      * cbn [length]. eapply exec_later; [|exact Hq]. replace s1 with (perform c s).2 by by rewrite Hc. constructor.
  - destruct q as [x|C c k].
    + destruct (IH _ _ _ Hi) as (tl&?&?). exists tl. cbn [length]. split; [lia|done].
    + destruct (perform c s) as [y s1] eqn:Hc. destruct (IH _ _ _ Hi) as (tl&Hlen&Hch&Hp&Hq). exists ((false, (s, s1)) :: tl).
      split_and!; [cbn; lia|done| |].
      * cbn [length]. eapply exec_later; [|exact Hp]. replace s1 with (perform c s).2 by by rewrite Hc. constructor.
      * exists 0, (length tl), s, (owns false tl). rewrite Hc. split_and!; [done|constructor|done|done].
Qed.

Lemma chain_app s tl1 tl2 s' : chain s (tl1 ++ tl2) s' ↔ ∃ s1, chain s tl1 s1 ∧ chain s1 tl2 s'.
Proof.
  revert s. induction tl1 as [|[w [a b]] tl1 IH]; intros s; cbn [chain app]; [naive_solver|]. rewrite IH. naive_solver.
Qed.

Lemma owns_snoc who tl w x : owns who (tl ++ [(w, x)]) = owns who tl ++ (if Bool.eqb w who then [x] else []).
Proof. unfold owns. rewrite List.filter_app, fmap_app. cbn. by destruct (Bool.eqb w who). Qed.

(** When one has written last, and the other nothing since it began, that is how the
    store stands. *)
Lemma chain_last who s tl s' before t1 t2 : chain s tl s' → owns who tl = before ++ [(t1, t2)] →
  quiet before → quiet (owns (negb who) tl) → s' = t2.
Proof.
  revert s'. induction tl as [|[w [a b]] tl IH] using rev_ind; intros s' Hch Hown Hb Hq; [by destruct before|].
  apply chain_app in Hch as (s1&Hch&->&->). rewrite owns_snoc in Hown, Hq.
  destruct (Bool.eqb w who) eqn:Hw.
  - apply app_inj_tail in Hown as [_ [= <- <-]]. done.
  - rewrite app_nil_r in Hown. apply eqb_false_iff in Hw. assert (w = negb who) as -> by (by destruct w, who).
    rewrite Bool.eqb_reflx in Hq. apply Forall_app in Hq as [Hq Hlast]. apply Forall_inv in Hlast. simpl in Hlast. subst s1. by apply IH.
Qed.

(** Of two programs whose last calls alone may write, one wrote last, and saw what the
    other left. *)
Lemma last_writers s tl s' before1 s1 s2 before2 t1 t2 : chain s tl s' →
  owns true tl = before1 ++ [(s1, s2)] → owns false tl = before2 ++ [(t1, t2)] → quiet before1 → quiet before2 →
  t1 = s2 ∨ s1 = t2.
Proof.
  intros Hch Ho1 Ho2 Hq1 Hq2. destruct tl as [|[w [a b]] tl _] using rev_ind; [by destruct before1|].
  apply chain_app in Hch as (m&Hch&->&->). rewrite owns_snoc in Ho1, Ho2. destruct w; cbn [Bool.eqb] in *.
  - apply app_inj_tail in Ho1 as [Ho1 [= -> ->]]. rewrite app_nil_r in Ho2. right.
    eapply (chain_last false); [exact Hch|exact Ho2|done|]. cbn. by rewrite Ho1.
  - apply app_inj_tail in Ho2 as [Ho2 [= -> ->]]. rewrite app_nil_r in Ho1. left.
    eapply (chain_last true); [exact Hch|exact Ho1|done|]. cbn. by rewrite Ho2.
Qed.
End timeline.

(** ** Evaluated *)

(** An edit that adds a byte to what it reads, and another writer between its first read
    and the write that follows. *)
Definition grow (cur : option string) : change_result * unit := (Change (default "" cur +:+ "a"), ()).
Definition disturbed : prog call (result items_error unit) * prog call unit * Store :=
  interleaved [true; false; true; true; true] (editRaw "k" 9 grow) (Do (CPut "k" "theirs" 9) (λ _, Ret ())) (New 0).

Lemma disturbed_run : interleaved [true; false; true; true; true] (editRaw "k" 9 grow) (Do (CPut "k" "theirs" 9) (λ _, Ret ())) (New 0) =
  (Ret (Ok ()), Ret (), disturbed.2) ∧ value_at disturbed.2 "k" = Some "theirsa".
Proof. split; vm_compute; reflexivity. Qed.

Lemma editRaw_atomic_witness : ∃ n own, exec n (editRaw "k" 9 grow) (New 0) own (Ok ()) disturbed.2 ∧
  ∃ before s1 s2 j, own = before ++ [(s1, s2)] ∧ quiet before ∧ nsteps other j s2 disturbed.2 ∧
    (edit_end "k" 9 grow own s1 s2 (Ok ()) ∨ Ok () = Err EBusy ∧ s2 = s1 ∧ interrupted "k" 16 own).
Proof.
  destruct (interleaved_timeline _ _ _ _ _ _ _ (proj1 disturbed_run)) as (tl&Hlen&_&Hx&_).
  exists (length tl), (owns true tl). split; [exact Hx|].
  apply (editRaw_atomic (length tl) 0 (New 0) "k" 9 grow (owns true tl) (Ok ()) disturbed.2); [|exact Hx].
  apply New_ok. cbn in Hlen. lia.
Defined.
