(* ===== verification/Codecs.v ===== *)
(** * Codecs: documents the kernel can write and read

    What the stores encode is JSON, which is not modelled: their theorems hold for any
    [Codec].  Here are codecs to evaluate them with, built from those of strings and
    numbers by pairs, lists and isomorphisms: a part is written after its length. *)

From S2P Require Import Prelude GoStrings Runs Base64 Port Memory Items.

#[export] Instance string_codec : Codec string := {
  encode_doc s := s;
  decode_doc := Some;
  decode_encode_doc := λ s, eq_refl }.

(** A positive number in binary. *)
Fixpoint pos_digits (p : positive) : string :=
  match p with xH => "" | xO p => String "0" (pos_digits p) | xI p => String "1" (pos_digits p) end.
Fixpoint digits_pos (s : string) : positive :=
  match s with EmptyString => xH | String "1" s => xI (digits_pos s) | String _ s => xO (digits_pos s) end.
Lemma digits_pos_digits p : digits_pos (pos_digits p) = p.
Proof. induction p as [p IH|p IH|]; simpl; by rewrite ?IH. Qed.

#[export] Program Instance Z_codec : Codec Z := {
  encode_doc z := pos_digits (encode z);
  decode_doc s := decode (digits_pos s) }.
Next Obligation. intros z. simpl. rewrite digits_pos_digits. apply decode_encode. Qed.

Lemma pos_digits_no_dot p : contains_byte "." (pos_digits p) = false.
Proof. by induction p. Qed.

(** A part, after its length, and what follows it. *)
Fixpoint str_split (n : nat) (s : string) : string * string :=
  match n, s with
  | S n, String c s => let '(a, b) := str_split n s in (String c a, b)
  | _, _ => ("", s)
  end.
Lemma str_split_app s rest : str_split (String.length s) (s +:+ rest) = (s, rest).
Proof. induction s as [|c s IH]; [by destruct rest|]. cbn [String.length str_split String.append]. simpl. by rewrite IH. Qed.

Definition part (s rest : string) : string := pos_digits (encode (String.length s)) +:+ String "." (s +:+ rest).
Definition unpart (s : string) : option (string * string) :=
  '(n, s) ← cut_on "." s; n ← decode (digits_pos n); Some (str_split n s).
Lemma unpart_part s rest : unpart (part s rest) = Some (s, rest).
Proof.
  unfold unpart, part. rewrite cut_on_app by apply pos_digits_no_dot. simpl.
  rewrite digits_pos_digits, decode_encode. simpl. by rewrite str_split_app.
Qed.

#[export] Program Instance prod_codec {A B} `{!Codec A, !Codec B} : Codec (A * B) := {
  encode_doc x := part (encode_doc x.1) (encode_doc x.2);
  decode_doc s := '(a, b) ← unpart s; a ← decode_doc a; b ← decode_doc b; Some (a, b) }.
Next Obligation.
  intros A B ? ? [a b]. simpl. rewrite unpart_part. simpl. by rewrite !decode_encode_doc.
Qed.

Fixpoint encode_list {A} `{!Codec A} (l : list A) : string :=
  match l with [] => "" | x :: l => part (encode_doc x) (encode_list l) end.
Fixpoint decode_list {A} `{!Codec A} (fuel : nat) (s : string) : option (list A) :=
  match fuel with
  | 0 => Some []
  | S fuel =>
      if empty s then Some []
      else '(a, rest) ← unpart s; a ← decode_doc a; l ← decode_list fuel rest; Some (a :: l)
  end.

Lemma length_append_le s t : String.length t <= String.length (s +:+ t).
Proof. induction s as [|c s IH]; [done|]. change (String.length t <= S (String.length (s +:+ t))). lia. Qed.
Lemma part_length s rest : String.length rest < String.length (part s rest).
Proof.
  unfold part. eapply Nat.lt_le_trans; [|apply length_append_le].
  change (String.length rest < S (String.length (s +:+ rest))). pose proof (length_append_le s rest). lia.
Qed.

Lemma decode_encode_list {A} `{!Codec A} (l : list A) fuel : String.length (encode_list l) <= fuel →
  decode_list fuel (encode_list l) = Some l.
Proof.
  revert fuel. induction l as [|x l IH]; intros fuel Hf; [by destruct fuel|]. cbn [encode_list] in *.
  pose proof (part_length (encode_doc x) (encode_list l)). destruct fuel as [|fuel]; [lia|]. cbn [decode_list].
  assert (empty (part (encode_doc x) (encode_list l)) = false) as ->.
  { unfold part. by destruct (pos_digits _). }
  rewrite unpart_part. simpl. rewrite decode_encode_doc. simpl. rewrite IH; [done|lia].
Qed.

#[export] Program Instance list_codec {A} `{!Codec A} : Codec (list A) := {
  encode_doc := encode_list;
  decode_doc s := decode_list (String.length s) s }.
Next Obligation. intros A ? l. simpl. by apply decode_encode_list. Qed.

(** Of a type with the same values as another. *)
Program Definition iso_codec {A B} `{!Codec B} (to : A → B) (from : B → A) (back : ∀ a, from (to a) = a) : Codec A := {|
  encode_doc a := encode_doc (to a);
  decode_doc s := from <$> decode_doc s |}.
Next Obligation. intros A B ? to from back a. simpl. rewrite decode_encode_doc. simpl. by rewrite back. Qed.

#[export] Program Instance item_codec : Codec item :=
  iso_codec (λ it, (it_Record it, it_Sealed it)) (λ x, mkItem x.1 x.2) _.
Next Obligation. by intros []. Qed.

(** A sealer that binds what it seals to its key, and the same one while the
    key-encryption key cannot be reached to open anything. *)
Definition key_sealer : Sealer := {|
  seal key plain := Some (part key plain);
  open_ key sealed := '(k, plain) ← unpart sealed; if bool_decide (k = key) then Some plain else None |}.
Definition key_sealer_down : Sealer := {| seal key plain := Some (part key plain); open_ _ _ := None |}.
#[export] Instance key_sealer_spec : SealerSpec (H := key_sealer).
Proof.
  intros key plain sealed [= <-]. split; [|unfold part; by destruct (pos_digits _)].
  simpl. rewrite unpart_part. simpl. by rewrite bool_decide_eq_true_2.
Qed.
