(* ===== verification/CrashLogic.v ===== *)
(** * CrashLogic: what a program leaves behind, wherever it stops

    A Hoare logic with a crash condition for programs over the State port ([hoare]):
    alone on the store, from a state of [Pre], a program that gives an answer leaves a
    state of [Post], and one that is stopped after any of its calls, or fails, leaves a
    state of [Crash].  The rules for sequences, edits, reads and listings carry the
    proofs about the stores. *)

From S2P Require Import Prelude GoStrings Runs Base64 Port Memory Items.

Implicit Types (key value prefix : string) (ttl : Z).

Section logic.
Context {S : Type} `{StateList S}.
Implicit Types s : S.

(** How many calls a program makes. *)
Fixpoint calls {A} (p : prog call A) s : nat :=
  match p with Ret _ => 0 | Do c k => Datatypes.S (calls (k (perform c s).1) (perform c s).2) end.

Lemma sp_ok_less n m s : sp_ok (n + m) s → sp_ok m s.
Proof. induction n as [|n IH]; [done|]. intros Hok. by apply IH, sp_weaken. Qed.

Lemma run_ok {A} (p : prog call A) n s : sp_ok (calls p s + n) s → sp_ok n (run p s).2.
Proof.
  revert s. induction p as [a|B c k IH]; intros s Hok; [done|]. cbn [run calls] in *.
  destruct (perform_effect c _ s Hok) as [Hok' _]. destruct (perform c s) as [b s1]. by apply IH.
Qed.

Lemma calls_bind {A B} (p : prog call A) (k : A → prog call B) s :
  calls (prog_bind p k) s = calls p s + calls (k (run p s).1) (run p s).2.
Proof.
  revert s. induction p as [a|C c k' IH]; intros s; [done|]. cbn [prog_bind run calls]. rewrite IH.
  by destruct (perform c s).
Qed.

(** A program stopped in a sequence stopped in its first part or in its second. *)
Lemma crash_bind {A B} (p : prog call A) (k : A → prog call B) s j :
  (∃ i, crash j (prog_bind p k) s = crash i p s) ∨ (∃ i, crash j (prog_bind p k) s = crash i (k (run p s).1) (run p s).2).
Proof.
  revert s j. induction p as [a|C c k' IH]; intros s j; [right; by exists j|].
  destruct j as [|j]; [left; by exists 0|]. cbn [prog_bind run crash]. destruct (perform c s) as [b s1] eqn:Hc.
  destruct (IH b s1 j) as [[i Hi]|[i Hi]]; [left|right; by exists i]. exists (Datatypes.S i). cbn [crash]. by rewrite Hc.
Qed.

Lemma crash_all {A} (p : prog call A) s : crash (calls p s) p s = (run p s).2.
Proof.
  revert s. induction p as [a|C c k IH]; intros s; [done|]. cbn [calls crash run]. destruct (perform c s) as [b s1]. apply IH.
Qed.

(** Wherever it stops, no time has passed and the store is well. *)
Lemma crash_ok {A} (p : prog call A) n s j : sp_ok (calls p s + n) s →
  sp_ok n (crash j p s) ∧ sp_now (crash j p s) = sp_now s.
Proof.
  revert s j. induction p as [a|C c k IH]; intros s j Hok; [by destruct j|]. cbn [calls] in Hok.
  destruct j as [|j]; [split; [|done]; cbn [crash]; by eapply (sp_ok_less (Datatypes.S (calls (k (perform c s).1) (perform c s).2)))|].
  destruct (perform_effect c _ s Hok) as (Hok'&Hnow&_). cbn [crash]. destruct (perform c s) as [b s1]. cbn in *.
  rewrite <- Hnow. by apply IH.
Qed.

Definition hoare {A} (Pre : S → Prop) (p : P A) (Post : A → S → Prop) (Crash : S → Prop) : Prop :=
  ∀ n s, sp_ok (calls p s + n) s → Pre s →
    (∀ j, Crash (crash j p s)) ∧ ∀ a, (run p s).1 = Ok a → Post a (run p s).2.

Lemma hoare_conseq {A} (Pre Pre' Crash Crash' : S → Prop) (p : P A) (Post Post' : A → S → Prop) :
  hoare Pre' p Post' Crash' → (∀ s, sp_ok 0 s → Pre s → Pre' s) →
  (∀ a s, sp_ok 0 s → Post' a s → Post a s) → (∀ s, Crash' s → Crash s) → hoare Pre p Post Crash.
Proof.
  intros Hp Hpre Hpost Hcrash n s Hok Hs. assert (sp_ok 0 s) as H0s by (eapply (sp_ok_less (calls p s + n)); by rewrite Nat.add_0_r).
  destruct (Hp n s Hok (Hpre s H0s Hs)) as [Hc Hr]. split; [auto|]. intros a Ha. apply Hpost; [|by apply Hr].
  apply run_ok. eapply (sp_ok_less n). by rewrite Nat.add_0_r, Nat.add_comm.
Qed.

Lemma hoare_pre {A} (Pre Pre' Crash : S → Prop) (p : P A) (Post : A → S → Prop) :
  (∀ s, sp_ok 0 s → Pre s → Pre' s) → hoare Pre' p Post Crash → hoare Pre p Post Crash.
Proof. intros Hpre Hp. by eapply hoare_conseq. Qed.

Lemma hoare_post {A} (Pre Crash : S → Prop) (p : P A) (Post Post' : A → S → Prop) :
  (∀ a s, sp_ok 0 s → Post' a s → Post a s) → hoare Pre p Post' Crash → hoare Pre p Post Crash.
Proof. intros Hpost Hp. by eapply hoare_conseq. Qed.

Lemma hoare_give {A} (Pre Crash : S → Prop) (a : A) (Post : A → S → Prop) :
  (∀ s, sp_ok 0 s → Pre s → Post a s ∧ Crash s) → hoare Pre (give a) Post Crash.
Proof.
  intros Hp n s Hok Hs. destruct (Hp s) as [Hpost Hc]; [by eapply (sp_ok_less (0 + n)); rewrite Nat.add_0_r|done|].
  split; [by intros []|]. by intros ? [= <-].
Qed.

Lemma hoare_throw {A} (Pre Crash : S → Prop) e (Post : A → S → Prop) :
  (∀ s, Pre s → Crash s) → hoare Pre (throw e) Post Crash.
Proof. intros Hp n s Hok Hs. split; [by intros []; apply Hp|done]. Qed.

Lemma hoare_bind {A B} (Pre Crash : S → Prop) (p : P A) (Mid : A → S → Prop) (f : A → P B) (Post : B → S → Prop) :
  hoare Pre p Mid Crash → (∀ a, hoare (Mid a) (f a) Post Crash) → hoare Pre (p ≫= f) Post Crash.
Proof.
  intros Hp Hf n s Hok Hs. unfold mbind, P_bind in *. rewrite calls_bind, <- Nat.add_assoc in Hok. rewrite run_bind.
  destruct (Hp _ s Hok Hs) as [Hcp Hrp]. apply run_ok in Hok. destruct (run p s) as [[a|e] s1] eqn:Hrun; cbn [fst snd] in *.
  - destruct (Hf a n s1 Hok (Hrp a eq_refl)) as [Hcf Hrf]. split; [|done]. intros j.
    destruct (crash_bind p (λ r, match r with Ok a => f a | Err e => Ret (Err e) end) s j) as [[i ->]|[i ->]]; [done|]. by rewrite Hrun.
  - split; [|done]. intros j.
    destruct (crash_bind p (λ r, match r with Ok a => f a | Err e => Ret (Err e) end) s j) as [[i ->]|[i ->]]; [done|]. rewrite Hrun.
    cbn [fst snd]. assert (crash i (Ret (Err e)) s1 = crash (calls p s) p s) as -> by (rewrite crash_all, Hrun; by destruct i).
    apply Hcp.
Qed.

Lemma hoare_do {A B} (Pre Crash : S → Prop) (c : call B) (Mid : B → S → Prop) (k : B → P A) (Post : A → S → Prop) :
  (∀ n s, sp_ok (Datatypes.S n) s → Pre s → Crash s ∧ Mid (perform c s).1 (perform c s).2) →
  (∀ b, hoare (Mid b) (k b) Post Crash) → hoare Pre (Do c k) Post Crash.
Proof.
  intros Hc Hk n s Hok Hs. cbn [calls] in Hok. destruct (Hc _ s Hok Hs) as [Hcrash Hmid].
  destruct (perform_effect c _ s Hok) as [Hok' _]. destruct (Hk _ n _ Hok' Hmid) as [Hck Hrk].
  cbn [run]. destruct (perform c s) as [b s1] eqn:Hp. split; [|done].
  intros [|j]; [done|]. cbn [crash]. rewrite Hp. apply Hck.
Qed.

(** ** Edits: all or nothing, wherever they stop *)

Definition settled {A} (p : prog call A) s : Prop := ∀ j, crash j p s = s ∨ crash j p s = (run p s).2.

Lemma settled_ret {A} (a : A) s : settled (Ret a) s.
Proof. intros []; by left. Qed.

Lemma settled_last {A B} (c : call B) (k : B → prog call A) s a : k (perform c s).1 = Ret a → settled (Do c k) s.
Proof.
  intros Hk [|j]; [by left|right]. cbn [crash run]. destruct (perform c s) as [b s1]. cbn in Hk. rewrite Hk. by destruct j.
Qed.

Lemma settled_read {A B} (c : call B) (k : B → prog call A) s b : perform c s = (b, s) → settled (k b) s → settled (Do c k) s.
Proof. intros Hc Hk [|j]; [by left|]. cbn [crash run]. rewrite Hc. apply Hk. Qed.

Lemma editRaw_settled {W} k n s key ttl (change : option string → change_result * W) : sp_ok (Datatypes.S n) s →
  settled (editRaw_loop (Datatypes.S k) key ttl change) s.
Proof.
  intros Hok. pose proof (sp_weaken _ _ Hok) as Hok'. cbn [editRaw_loop]. eapply settled_read; [cbn [perform]; by rewrite (sp_Get _ _ _ Hok)|].
  unfold edit_over. destruct (sp_view s key) as [r0|] eqn:Hr0; cbn [kv_Value kv_Revision fmap option_fmap option_map].
  - pose proof (Update_over key ttl n s (lv_rev r0)) as Hw. pose proof (Delete_over key _ s (lv_rev r0) (lv_value r0) Hok) as Hd.
    pose proof (stands_read _ _ _ _ Hok Hr0) as Hst.
    destruct (change (Some (lv_value r0))) as [[next| | |e] w]; try apply settled_ret.
    + specialize (Hw next _ Hok Hst). destruct (st_Update s key next ttl (lv_rev r0)) as [[x|e] s2] eqn:Hu.
      * eapply settled_last. cbn [perform]. by rewrite Hu.
      * eapply settled_last. cbn [perform fst]. rewrite Hu. cbn [fst again].
        destruct Hw as (_&[[_ ->]|[_ Hne]]); [done|by destruct (Hne r0)].
    + specialize (Hd Hst). destruct (st_DeleteIfRevision s key (lv_rev r0)) as [[x|e] s2] eqn:Hu.
      * eapply settled_last. cbn [perform]. by rewrite Hu.
      * destruct Hd as (_&_&Hne&_). by destruct (Hne r0).
  - pose proof (Create_over key ttl n s) as Hw.
    destruct (change None) as [[next| | |e] w]; try apply settled_ret.
    specialize (Hw next Hok). destruct (st_Create s key next ttl) as [[x|e] s2] eqn:Hu.
    + eapply settled_last. cbn [perform]. by rewrite Hu.
    + eapply settled_last. cbn [perform fst]. rewrite Hu. cbn [fst again].
      destruct Hw as (_&[[_ ->]|[_ [r Hr]]]); [done|congruence].
Qed.

Lemma hoare_editRaw_loop {W} k (Pre Crash : S → Prop) key ttl (change : option string → change_result * W) (Post : W → S → Prop) :
  (∀ s, sp_ok 0 s → Pre s → Crash s) →
  (∀ s s' w, sp_ok 0 s → sp_ok 0 s' → Pre s → edited s key ttl (change (value_at s key)) (Ok w) s' → Crash s' ∧ Post w s') →
  hoare Pre (editRaw_loop (Datatypes.S k) key ttl change) Post Crash.
Proof.
  intros Hcrash Hedit n s Hok Hs.
  assert (1 <= calls (editRaw_loop (Datatypes.S k) key ttl change) s) as Hone by (cbn [editRaw_loop calls]; lia).
  revert Hone Hok. generalize (calls (editRaw_loop (Datatypes.S k) key ttl change) s) as m. intros [|m] Hone Hok; [lia|].
  assert (sp_ok 0 s) as H0s by (eapply (sp_ok_less (Datatypes.S m + n)); by rewrite Nat.add_0_r).
  pose proof (editRaw_settled k (m + n) s key ttl change Hok) as Hset. pose proof (editRaw_first k (m + n) s key ttl change Hok) as Hrun.
  destruct (run (editRaw_loop (Datatypes.S k) key ttl change) s) as [[w|e] s'] eqn:Hr; destruct Hrun as [Hok' Hed];
    (assert (sp_ok 0 s') as H0s' by (eapply (sp_ok_less (m + n)); by rewrite Nat.add_0_r)).
  - destruct (Hedit s s' w H0s H0s' Hs Hed) as [Hc Hp]. split; [|by intros ? [= <-]].
    intros j. destruct (Hset j) as [-> | ->]; [by apply Hcrash|by rewrite Hr].
  - split; [|done]. assert (s' = s) as ->.
    { unfold edited in Hed. destruct (change (value_at s key)).1; [destruct (CheckWrite _ _ _)|..]; naive_solver. }
    intros j. destruct (Hset j) as [-> | ->]; [by apply Hcrash|rewrite Hr; by apply Hcrash].
Qed.

Lemma hoare_editRaw {W} (Pre Crash : S → Prop) key ttl (change : option string → change_result * W) (Post : W → S → Prop) :
  (∀ s, sp_ok 0 s → Pre s → Crash s) →
  (∀ s s' w, sp_ok 0 s → sp_ok 0 s' → Pre s → edited s key ttl (change (value_at s key)) (Ok w) s' → Crash s' ∧ Post w s') →
  hoare Pre (editRaw key ttl change) Post Crash.
Proof. apply hoare_editRaw_loop. Qed.

(** ** Reads *)

Lemma hoare_listAll (Pre Crash : S → Prop) fuel prefix (Post : list KVRecord → S → Prop) :
  contains_byte nul prefix = false → prefix ≠ "" → (∀ s, sp_ok 0 s → Pre s → Crash s) →
  (∀ s, sp_ok 0 s → Pre s → Post (omap (record_at (sp_view s)) (sp_keys s prefix)) s) →
  hoare Pre (listAll fuel prefix) Post Crash.
Proof.
  intros Hp Hne Hcrash Hpost n s Hok Hs. assert (sp_ok 0 s) as H0s by (eapply (sp_ok_less (calls (listAll fuel prefix) s + n)); by rewrite Nat.add_0_r).
  assert (∀ j, crash j (listAll fuel prefix) s = s) as Hquiet.
  { unfold listAll. generalize "" at 1. generalize (@nil KVRecord). clear Hpost Hok. induction fuel as [|fuel IH]; intros out page [|j]; [done..|].
    cbn [listAll_loop crash perform]. destruct (st_List s prefix page 0) as [pg|e]; [|by destruct j].
    destruct (empty (pg_Next pg)); [by destruct j|apply IH]. }
  split; [intros j; rewrite Hquiet; by apply Hcrash|]. intros found Hfound.
  destruct (listAll_run 0 s prefix fuel H0s Hp Hne) as [Hr|[Hr _]]; rewrite Hr in *; [|done]. injection Hfound as <-. by apply Hpost.
Qed.

Lemma hoare_getItem `{!Codec (Z * item)} (Pre Crash : S → Prop) key (Post : option item → S → Prop) :
  (∀ s, sp_ok 0 s → Pre s → Crash s) →
  (∀ s, sp_ok 0 s → Pre s → (is_Some (value_at s key) → is_Some (value_at s key ≫= decodeItem)) →
    Post (value_at s key ≫= decodeItem) s) →
  hoare Pre (getItem key) Post Crash.
Proof.
  intros Hcrash Hpost. eapply (hoare_do _ _ _ (λ r s, Pre s ∧ sp_ok 0 s ∧
    r = match sp_view s key with Some x => Ok (mkKV key (lv_value x) (lv_rev x)) | None => Err ErrNotFound end)).
  - intros n s Hok Hs. assert (sp_ok 0 s) as H0s by (eapply (sp_ok_less (Datatypes.S n)); by rewrite Nat.add_0_r).
    cbn [perform fst snd]. rewrite (sp_Get _ _ _ Hok). split; [by apply Hcrash|done].
  - intros r n s Hok (Hs&H0s&->). assert (∀ j A (a : A), Crash (crash j (Ret a) s)) as Hc by (intros [] ? ?; by apply Hcrash).
    specialize (Hpost s H0s Hs). unfold value_at in *. destruct (sp_view s key) as [x|]; cbn in *.
    + destruct (decodeItem (lv_value x)) as [it|]; (split; [intros; apply Hc|]); [|done].
      intros ? [= <-]. by apply Hpost.
    + split; [intros; apply Hc|]. intros ? [= <-]. apply Hpost. by intros [? ?].
Qed.
End logic.
