(* ===== verification/Links.v ===== *)
(** * Links: people's GitHub links, one item per account

    [internal/githubroster/link/link.go]: a link, its checks when it is written and
    read, and what a claim, an invalidation and an adoption do to the other links.
    [internal/portstore/githublinks.go]: the store of links over the State port
    ([GitHubLinks_] before an operation's name), as programs of port calls.

    JSON documents and the sealer are parameters ([Codec], [Sealer]); times are in
    nanoseconds, 0 the zero time.  An operation that fails drops what it had written
    from its answer, though not from the store. *)

From stdpp Require Import pretty.
From S2P Require Import Prelude GoStrings Runs Base64 Port Memory Items.

Implicit Types (key email login reason : string) (now : Z).

(** ** A link *)

(** [internal/githubroster/link/link.go:28-29 Version] *)
Definition Version : Z := 1.

(** [internal/githubroster/link/link.go:47-63 State] *)
Definition StateLinked : string := "linked".
Definition StateLost : string := "lost".
Definition StateUnverifiable : string := "unverifiable".

(** [internal/githubroster/link/link.go:65-80 Source] *)
Definition SourceSelf : string := "self".
Definition SourceProfile : string := "profile".
Definition SourceImported : string := "imported".

(** [internal/githubroster/link/link.go:type Link]; the last five are the tokens and
    their times. *)
Record Link := mkLink {
  lk_Version : Z; lk_ID : Z; lk_Login : string; lk_Source : string; lk_Note : string; lk_AppID : Z;
  lk_Emails : list string; lk_State : string; lk_Reason : string; lk_LinkedAt : Z; lk_CheckedAt : Z; lk_ChangedAt : Z;
  lk_Revision : Z; lk_AccessToken : string; lk_AccessExpires : Z; lk_RefreshToken : string; lk_RefreshExpires : Z;
  lk_RefreshingSince : Z }.
#[global] Instance Link_eq_dec : EqDecision Link.
Proof. solve_decision. Defined.

Definition with_Version (v : Z) (l : Link) : Link :=
  mkLink v (lk_ID l) (lk_Login l) (lk_Source l) (lk_Note l) (lk_AppID l) (lk_Emails l) (lk_State l) (lk_Reason l)
    (lk_LinkedAt l) (lk_CheckedAt l) (lk_ChangedAt l) (lk_Revision l) (lk_AccessToken l) (lk_AccessExpires l)
    (lk_RefreshToken l) (lk_RefreshExpires l) (lk_RefreshingSince l).
Definition with_Emails (emails : list string) (l : Link) : Link :=
  mkLink (lk_Version l) (lk_ID l) (lk_Login l) (lk_Source l) (lk_Note l) (lk_AppID l) emails (lk_State l) (lk_Reason l)
    (lk_LinkedAt l) (lk_CheckedAt l) (lk_ChangedAt l) (lk_Revision l) (lk_AccessToken l) (lk_AccessExpires l)
    (lk_RefreshToken l) (lk_RefreshExpires l) (lk_RefreshingSince l).
Definition with_State (state : string) (l : Link) : Link :=
  mkLink (lk_Version l) (lk_ID l) (lk_Login l) (lk_Source l) (lk_Note l) (lk_AppID l) (lk_Emails l) state (lk_Reason l)
    (lk_LinkedAt l) (lk_CheckedAt l) (lk_ChangedAt l) (lk_Revision l) (lk_AccessToken l) (lk_AccessExpires l)
    (lk_RefreshToken l) (lk_RefreshExpires l) (lk_RefreshingSince l).
Definition with_Reason (reason : string) (l : Link) : Link :=
  mkLink (lk_Version l) (lk_ID l) (lk_Login l) (lk_Source l) (lk_Note l) (lk_AppID l) (lk_Emails l) (lk_State l) reason
    (lk_LinkedAt l) (lk_CheckedAt l) (lk_ChangedAt l) (lk_Revision l) (lk_AccessToken l) (lk_AccessExpires l)
    (lk_RefreshToken l) (lk_RefreshExpires l) (lk_RefreshingSince l).
Definition with_ChangedAt (at_ : Z) (l : Link) : Link :=
  mkLink (lk_Version l) (lk_ID l) (lk_Login l) (lk_Source l) (lk_Note l) (lk_AppID l) (lk_Emails l) (lk_State l) (lk_Reason l)
    (lk_LinkedAt l) (lk_CheckedAt l) at_ (lk_Revision l) (lk_AccessToken l) (lk_AccessExpires l)
    (lk_RefreshToken l) (lk_RefreshExpires l) (lk_RefreshingSince l).
Definition with_Checked (login : string) (at_ : Z) (l : Link) : Link :=
  mkLink (lk_Version l) (lk_ID l) login (lk_Source l) (lk_Note l) (lk_AppID l) (lk_Emails l) (lk_State l) (lk_Reason l)
    (lk_LinkedAt l) at_ (lk_ChangedAt l) (lk_Revision l) (lk_AccessToken l) (lk_AccessExpires l)
    (lk_RefreshToken l) (lk_RefreshExpires l) (lk_RefreshingSince l).
Definition with_Revision (rev : Z) (l : Link) : Link :=
  mkLink (lk_Version l) (lk_ID l) (lk_Login l) (lk_Source l) (lk_Note l) (lk_AppID l) (lk_Emails l) (lk_State l) (lk_Reason l)
    (lk_LinkedAt l) (lk_CheckedAt l) (lk_ChangedAt l) rev (lk_AccessToken l) (lk_AccessExpires l)
    (lk_RefreshToken l) (lk_RefreshExpires l) (lk_RefreshingSince l).
Definition with_tokens (access refresh : string) (l : Link) : Link :=
  mkLink (lk_Version l) (lk_ID l) (lk_Login l) (lk_Source l) (lk_Note l) (lk_AppID l) (lk_Emails l) (lk_State l) (lk_Reason l)
    (lk_LinkedAt l) (lk_CheckedAt l) (lk_ChangedAt l) (lk_Revision l) access (lk_AccessExpires l)
    refresh (lk_RefreshExpires l) (lk_RefreshingSince l).
Definition with_times (access refresh refreshing : Z) (l : Link) : Link :=
  mkLink (lk_Version l) (lk_ID l) (lk_Login l) (lk_Source l) (lk_Note l) (lk_AppID l) (lk_Emails l) (lk_State l) (lk_Reason l)
    (lk_LinkedAt l) (lk_CheckedAt l) (lk_ChangedAt l) (lk_Revision l) (lk_AccessToken l) access
    (lk_RefreshToken l) refresh refreshing.

(** [internal/githubroster/link/link.go:Link.Checked] *)
Definition Checked (l : Link) : bool := empty (lk_Source l) || bool_decide (lk_Source l = SourceSelf).

(** [internal/githubroster/link/link.go:Link.Active] *)
Definition Active (l : Link) : bool := bool_decide (lk_State l = StateLinked) && negb (bool_decide (lk_Emails l = [])).

(** [internal/githubroster/link/link.go:Link.Forget] *)
Definition Forget (l : Link) : Link := with_times 0 0 0 (with_tokens "" "" l).

(** [internal/githubroster/link/link.go:Link.Public] *)
Definition Public (l : Link) : Link := with_times 0 0 0 (with_tokens "" "" l).

(** [internal/githubroster/link/link.go:normalise], under the name callers use. *)
Definition Normalise (emails : list string) : list string :=
  compact (sort_strings (List.filter (λ email, negb (empty email)) ((λ email, ToLower (TrimSpace email)) <$> emails))).

Section documents.
Context `{!Codec Link}.

(** [internal/githubroster/link/link.go:Encode] *)
Definition link_Encode (l : Link) : result items_error string :=
  if (lk_ID l <=? 0)%Z || empty (lk_Login l) then Err (EInvalid "link: a link needs an account id and a login")
  else if negb (str_in (lk_State l) [StateLinked; StateLost; StateUnverifiable]) then Err (EInvalid "link: unknown state")
  else Ok (encode_doc (with_Emails (Normalise (lk_Emails l)) (with_Version Version l))).

(** [internal/githubroster/link/link.go:Decode] *)
Definition link_Decode (raw : string) : option Link :=
  l ← decode_doc raw; if bool_decide (lk_Version l = Version) then Some l else None.
End documents.

(** [internal/githubroster/link/link.go:Claim], of one other link: what it becomes, if
    it changes. *)
Definition claim_from (claimed : Link) now (other : Link) : option Link :=
  if bool_decide (lk_ID other = lk_ID claimed) || negb (bool_decide (lk_State other = StateLinked)) then None
  else
    let kept := List.filter (λ email, negb (str_in email (lk_Emails claimed))) (lk_Emails other) in
    if length kept =? length (lk_Emails other) then None
    else
      let other := with_ChangedAt now (with_Emails kept other) in
      Some (if bool_decide (kept = [])
            then Forget (with_Reason ("its addresses were linked to @" +:+ lk_Login claimed +:+ " instead") (with_State StateLost other))
            else other).

(** [internal/githubroster/link/link.go:Claim] *)
Definition link_Claim (existing : list Link) (claimed : Link) now : list Link :=
  let claimed := with_Emails (Normalise (lk_Emails claimed)) claimed in
  claimed :: omap (claim_from claimed now) existing.

(** [internal/githubroster/link/link.go:Invalidate] *)
Definition link_Invalidate (existing : list Link) reason now : list Link :=
  omap (λ l, if negb (bool_decide (lk_State l = StateLinked)) || negb (Checked l) then None
             else Some (Forget (with_ChangedAt now (with_Reason reason (with_State StateUnverifiable l))))) existing.

(** ** Adopting links nobody made *)

(** What [Adopt] carries: the links to write, why a candidate was skipped, who proves
    each address and which accounts have a link that counts. *)
Record adoption := mkAdoption {
  ad_adopted : list Link; ad_skipped : gmap Z string; ad_proven : gmap string string; ad_have : gset Z }.

(** [internal/githubroster/link/link.go:320-332 Adopt] *)
Definition adopt_start (existing : list Link) : adoption :=
  foldl (λ a l, if Active l
                then mkAdoption (ad_adopted a) (ad_skipped a)
                       (foldl (λ m email, <[email := lk_Login l]> m) (ad_proven a) (lk_Emails l)) ({[lk_ID l]} ∪ ad_have a)
                else a)
    (mkAdoption [] ∅ ∅ ∅) existing.

(** [internal/githubroster/link/link.go:333-357 Adopt], of one candidate. *)
Definition adopt_step (a : adoption) (candidate : Link) : adoption :=
  let skip why := mkAdoption (ad_adopted a) (<[lk_ID candidate := why]> (ad_skipped a)) (ad_proven a) (ad_have a) in
  if bool_decide (lk_ID candidate ∈ ad_have a) then skip "the account is already linked"
  else
    let emails := Normalise (lk_Emails candidate) in
    let taken := omap (λ email, (λ login, email +:+ " (linked to @" +:+ login +:+ ")") <$> ad_proven a !! email) emails in
    let kept := List.filter (λ email, negb (bool_decide (is_Some (ad_proven a !! email)))) emails in
    if bool_decide (kept = [])
    then skip ("every address is already linked to another account: " +:+ Join taken ", ")
    else
      let candidate := Forget (with_State StateLinked (with_Emails kept candidate)) in
      mkAdoption (ad_adopted a ++ [candidate]) (ad_skipped a)
        (foldl (λ m email, <[email := lk_Login candidate]> m) (ad_proven a) kept) ({[lk_ID candidate]} ∪ ad_have a).

(** [internal/githubroster/link/link.go:Adopt] *)
Definition link_Adopt (existing candidates : list Link) : list Link * gmap Z string :=
  let a := foldl adopt_step (adopt_start existing) candidates in (ad_adopted a, ad_skipped a).

(** ** The store *)

(** [internal/portstore/githublinks.go:17-20 ghLinkPrefix] *)
Definition ghLinkPrefix : string := "gh.link.".
Definition ghClaimPrefix : string := "gate.github-claim.".
(** [internal/portstore/githublinks.go:ghLinkKey] *)
Definition ghLinkKey (id : Z) : string := ghLinkPrefix +:+ pretty id.
(** [internal/portstore/githublinks.go:24-25 claimTTL]: a week. *)
Definition claimTTL : Z := 7 * 24 * 3600 * 1000000000.

(** [internal/portstore/githublinks.go:type tokens] *)
Record tokens := mkTokens { tk_Access : string; tk_Refresh : string }.
#[global] Instance tokens_eq_dec : EqDecision tokens.
Proof. solve_decision. Defined.

(** [internal/portstore/githublinks.go:type claimMarker] *)
Record claimMarker := mkMarker { cm_ID : Z; cm_Login : string; cm_Emails : list string; cm_At : Z }.

Section store.
Context `{!Codec (Z * item), !Codec Link, !Codec tokens, !Codec claimMarker} {SL : Sealer}.
(** How many pages a listing may have. *)
Context (pages : nat).

(** [internal/portstore/githublinks.go:GitHubLinks.encode] *)
Definition links_encode (l : Link) : result items_error item :=
  let key := ghLinkKey (lk_ID l) in
  let held := mkTokens (lk_AccessToken l) (lk_RefreshToken l) in
  raw ← link_Encode (with_tokens "" "" l);
  if bool_decide (held = mkTokens "" "") then Ok (mkItem raw "")
  else match seal key (encode_doc held) with
       | Some sealed => Ok (mkItem raw sealed)
       | None => Err (ESealer key)
       end.

(** [internal/portstore/githublinks.go:GitHubLinks.decode]; [None] is an error. *)
Definition links_decode key (it : item) : option Link :=
  l ← link_Decode (it_Record it);
  if empty (it_Sealed it) then Some l
  else plain ← open_ key (it_Sealed it); held ← decode_doc plain;
    Some (with_tokens (tk_Access held) (tk_Refresh held) l).

(** The link under a key, as far as it can be read. *)
Definition link_of (rec : KVRecord) : option Link := decodeItem (kv_Value rec) ≫= links_decode (kv_Key rec).

Definition by_ID (a b : Link) : Prop := (lk_ID a <= lk_ID b)%Z.
#[local] Instance by_ID_dec : RelDecision by_ID := λ a b, Z_le_dec (lk_ID a) (lk_ID b).

(** [internal/portstore/githublinks.go:GitHubLinks.list] *)
Definition links_list : P (list Link) :=
  records ← listAll pages ghLinkPrefix;
  give (merge_sort by_ID (omap link_of records)).

(** [internal/portstore/githublinks.go:GitHubLinks.write]: the change of one item; the
    link is written at the revision after the one that is there. *)
Definition write_change (id : Z) (next : option Link → option Link) (cur : option item) : item_change * option Link :=
  let have := cur ≫= links_decode (ghLinkKey id) in
  match next have with
  | None => (ItemKeep, None)
  | Some l =>
      let l := with_Revision (match have with Some h => lk_Revision h | None => 0 end + 1) l in
      match links_encode l with
      | Ok it => (ItemNext it, Some l)
      | Err e => (ItemFails e, None)
      end
  end.

(** [internal/portstore/githublinks.go:GitHubLinks.write]: the link as stored, if it
    was written. *)
Definition write_link (id : Z) (next : option Link → option Link) : P (option Link) :=
  editItem (ghLinkKey id) 0 (write_change id next).

(** Each link written in turn, and those that were. *)
Fixpoint write_each (writes : list (Z * (option Link → option Link))) : P (list Link) :=
  match writes with
  | [] => give []
  | (id, next) :: rest =>
      l ← write_link id next;
      written ← write_each rest;
      give (option_list l ++ written)
  end.

(** [internal/portstore/githublinks.go:217-228 GitHubLinks.narrow]: what another link
    becomes. *)
Definition narrow_next (claimed : Link) now (cur : option Link) : option Link :=
  match cur with
  | None => None
  | Some cur => List.find (λ l, bool_decide (lk_ID l = lk_ID cur)) (link_Claim [cur] claimed now)
  end.

(** [internal/portstore/githublinks.go:GitHubLinks.narrow] *)
Definition narrow (claimed : Link) now : P (list Link) :=
  existing ← links_list;
  write_each ((λ other, (lk_ID other, narrow_next claimed now)) <$>
    List.filter (λ other, negb (bool_decide (lk_ID other = lk_ID claimed))) existing).

(** [internal/portstore/githublinks.go:GitHubLinks.get] *)
Definition links_get (id : Z) : P (option Link) :=
  it ← getItem (ghLinkKey id);
  give (it ≫= links_decode (ghLinkKey id)).

(** [internal/portstore/githublinks.go:247-268 GitHubLinks.finishClaims]: one marker. *)
Definition finish_claim (rec : KVRecord) : P unit :=
  let drop (k : result port_error unit → P unit) : P unit := Do (CDeleteIfRevision (kv_Key rec) (kv_Revision rec)) k in
  match decode_doc (kv_Value rec) with
  | None => drop (λ _, give tt)
  | Some m =>
      claimed ← links_get (cm_ID m);
      _ ← (match claimed with
           | Some claimed => if bool_decide (lk_State claimed = StateLinked) then narrow claimed (cm_At m) else give []
           | None => give []
           end);
      drop (λ r, match r with
                 | Ok _ | Err ErrConflict | Err ErrNotFound => give tt
                 | Err e => throw (EPort e)
                 end)
  end.

Fixpoint finish_each (markers : list KVRecord) : P unit :=
  match markers with [] => give tt | rec :: rest => _ ← finish_claim rec; finish_each rest end.

(** [internal/portstore/githublinks.go:GitHubLinks.finishClaims] *)
Definition finishClaims : P unit := markers ← listAll pages ghClaimPrefix; finish_each markers.

(** [internal/portstore/githublinks.go:GitHubLinks.List] *)
Definition GitHubLinks_List : P (list Link) := _ ← finishClaims; links_list.

Definition claim_key (id : Z) : string := ghClaimPrefix +:+ pretty id.

(** [internal/portstore/githublinks.go:GitHubLinks.Claim] *)
Definition GitHubLinks_Claim (claimed : Link) now : P (list Link) :=
  let claimed := with_Emails (Normalise (lk_Emails claimed)) claimed in
  let mark := mkMarker (lk_ID claimed) (lk_Login claimed) (lk_Emails claimed) now in
  Do (CPut (claim_key (lk_ID claimed)) (encode_doc mark) claimTTL) (λ r,
    match r with
    | Err e => throw (EPort e)
    | Ok _ =>
        l ← write_link (lk_ID claimed) (λ _, Some claimed);
        narrowed ← narrow claimed now;
        Do (CDelete (claim_key (lk_ID claimed))) (λ _, give (option_list l ++ narrowed))
    end).

(** [internal/portstore/githublinks.go:292-308 GitHubLinks.Adopt]: the writes, and the
    accounts that turn out to have a link by then. *)
Fixpoint adopt_each (adopted : list Link) (skipped : gmap Z string) : P (list Link * gmap Z string) :=
  match adopted with
  | [] => give ([], skipped)
  | a :: rest =>
      l ← write_link (lk_ID a) (λ cur, match cur with
                                       | Some cur => if Active cur then None else Some a
                                       | None => Some a
                                       end);
      '(written, skipped) ← adopt_each rest
        (match l with Some _ => skipped | None => <[lk_ID a := "the account is already linked"]> skipped end);
      give (option_list l ++ written, skipped)
  end.

(** [internal/portstore/githublinks.go:GitHubLinks.Adopt] *)
Definition GitHubLinks_Adopt (candidates : list Link) : P (list Link * gmap Z string) :=
  existing ← GitHubLinks_List;
  let '(adopted, skipped) := link_Adopt existing candidates in
  adopt_each adopted skipped.

(** [internal/portstore/githublinks.go:319-325 GitHubLinks.Update]: a change goes in
    only over the revision it was made from. *)
Definition update_next (change : Link) (cur : option Link) : option Link :=
  match cur with
  | Some cur => if bool_decide (lk_Revision cur = lk_Revision change) then Some change else None
  | None => None
  end.

(** [internal/portstore/githublinks.go:GitHubLinks.Update] *)
Definition GitHubLinks_Update (changed : list Link) : P (list Link) :=
  write_each ((λ change, (lk_ID change, update_next change)) <$> changed).

(** [internal/portstore/githublinks.go:GitHubLinks.Restore] *)
Definition GitHubLinks_Restore (l : Link) : P unit :=
  editItem (ghLinkKey (lk_ID l)) 0 (λ _,
    (match links_encode l with Ok it => ItemNext it | Err e => ItemFails e end, tt)).

(** [internal/portstore/githublinks.go:354-363 GitHubLinks.Invalidate]: one link. *)
Definition invalidate_next reason now (cur : option Link) : option Link :=
  match cur with Some cur => head (link_Invalidate [cur] reason now) | None => None end.

(** [internal/portstore/githublinks.go:GitHubLinks.Invalidate]: how many changed. *)
Definition GitHubLinks_Invalidate reason now : P nat :=
  existing ← GitHubLinks_List;
  written ← write_each ((λ l, (lk_ID l, invalidate_next reason now)) <$> existing);
  give (length written).
End store.
