(* ===== verification/LinksSafety.v ===== *)
(** * LinksSafety: an address proves one account, through crashes and writers

    What the store of links keeps true ([Links]).  Alone, through a crash of a claim at
    any of its calls and of any number of the recoveries after it, every address is
    proven by one account and none that was proven is left unproven.  Among others, of
    two checks that read a link at the same revision one writes it.  And what does not
    hold: two people claiming one address at once both lose it, an adoption beside a
    claim shares one, and a link whose tokens cannot be opened is narrowed by nobody. *)

From stdpp Require Import pretty.
From S2P Require Import Prelude GoStrings Runs Base64 Port Memory Items Codecs CrashLogic Links.

Implicit Types (key email login : string) (now id : Z).

(** ** Addresses *)

(** A list of addresses as [Normalise] leaves one. *)
Definition normal_emails (l : list string) : Prop :=
  StronglySorted String.le l ∧ NoDup l ∧ ∀ e, e ∈ l → e ≠ "" ∧ ToLower (TrimSpace e) = e.

Lemma Normalise_normal l : normal_emails (Normalise l).
Proof.
  unfold Normalise. destruct (compact_sorted (sort_strings (List.filter (λ email, negb (empty email)) ((λ email, ToLower (TrimSpace email)) <$> l)))) as [Hs Hn];
    [apply sort_strings_sorted|]. split_and!; [done..|]. intros e. rewrite elem_of_compact, elem_of_sort_strings, elem_of_filter_bool.
  intros [(x&->&_)%list_elem_of_fmap He]. split; [by intros Heq; rewrite Heq in He|apply normalise_idem].
Qed.

Lemma compact_NoDup {A} `{EqDecision A} (l : list A) : NoDup l → compact l = l.
Proof.
  induction 1 as [|x l Hx Hnd IH]; [done|]. destruct l as [|y l]; [done|].
  change (compact (x :: y :: l)) with (if decide (x = y) then compact (y :: l) else x :: compact (y :: l)).
  rewrite decide_False by set_solver. by rewrite IH.
Qed.

Lemma Normalise_fixed l : normal_emails l → Normalise l = l.
Proof.
  intros (Hs&Hn&Hall). unfold Normalise.
  assert ((λ email, ToLower (TrimSpace email)) <$> l = l) as ->.
  { clear Hs Hn. induction l as [|e l IH]; [done|]. rewrite fmap_cons. f_equal; [by apply Hall; left|apply IH; intros; apply Hall; by right]. }
  assert (List.filter (λ email, negb (empty email)) l = l) as ->.
  { apply filter_all. intros e He. apply Hall in He as [He _]. by destruct e. }
  assert (sort_strings l = l) as ->; [|by apply compact_NoDup].
  apply (StronglySorted_unique String.le); [apply sort_strings_sorted|done|apply sort_strings_Permutation].
Qed.

Lemma normal_filter f l : normal_emails l → normal_emails (List.filter f l).
Proof.
  intros (Hs&Hn&Hall). split_and!; [by apply StronglySorted_filter|by apply NoDup_ListNoDup, List.NoDup_filter, NoDup_ListNoDup|].
  intros e [He _]%elem_of_filter_bool. by apply Hall.
Qed.

Lemma Normalise_idem l : Normalise (Normalise l) = Normalise l.
Proof. apply Normalise_fixed, Normalise_normal. Qed.

Lemma ghLinkKey_prefix id : HasPrefix (ghLinkKey id) ghLinkPrefix = true.
Proof. apply HasPrefix_spec. by eexists. Qed.
Lemma ghLinkKey_inj id id' : ghLinkKey id = ghLinkKey id' → id = id'.
Proof. unfold ghLinkKey. intros Heq. apply (inj (pretty (A := Z))). by apply (inj (String.append ghLinkPrefix)). Qed.
Lemma claim_key_prefix id : HasPrefix (claim_key id) ghLinkPrefix = false ∧ HasPrefix (claim_key id) ghClaimPrefix = true.
Proof. split; [done|]. apply HasPrefix_spec. by eexists. Qed.

Lemma filter_length_all {A} (f : A → bool) l : length (List.filter f l) = length l → List.filter f l = l.
Proof.
  induction l as [|x l IH]; [done|]. simpl. destruct (f x); simpl; intros Hl; [by rewrite IH by lia|].
  pose proof (List.filter_length_le f l). lia.
Qed.

(** ** What a claim makes of another link *)

Definition takes_from (claimed : Link) (email : string) : Prop := email ∈ Normalise (lk_Emails claimed).

Lemma narrow_next_spec claimed now l : normal_emails (lk_Emails l) → lk_ID l ≠ lk_ID claimed →
  match narrow_next claimed now (Some l) with
  | None => ∀ e, takes_from claimed e → lk_State l = StateLinked → e ∉ lk_Emails l
  | Some l' => lk_ID l' = lk_ID l ∧ normal_emails (lk_Emails l') ∧
      ∀ e, lk_State l' = StateLinked ∧ e ∈ lk_Emails l' ↔ lk_State l = StateLinked ∧ e ∈ lk_Emails l ∧ ¬ takes_from claimed e
  end.
Proof.
  intros Hn Hid. unfold narrow_next, link_Claim. cbn [omap list_omap List.find]. cbn [lk_ID with_Emails].
  rewrite bool_decide_eq_false_2 by done. unfold claim_from. cbn [lk_ID with_Emails lk_Emails lk_Login].
  rewrite bool_decide_eq_false_2 by done. cbn [orb]. case_bool_decide as Hlinked; cbn [negb]; [|by intros e _ ?].
  set (kept := List.filter _ _). assert (∀ e, e ∈ kept ↔ e ∈ lk_Emails l ∧ ¬ takes_from claimed e) as Hkept.
  { intros e. unfold kept, takes_from. rewrite elem_of_filter_bool, negb_true_iff, str_in_false. done. }
  destruct (Nat.eqb_spec (length kept) (length (lk_Emails l))) as [Hlen|Hlen].
  - intros e Ht _ He. apply filter_length_all in Hlen. fold kept in Hlen. rewrite <- Hlen in He. by apply Hkept in He as [_ ?].
  - case_bool_decide as Hempty; cbn [List.find lk_ID lk_Emails lk_State Forget with_times with_tokens with_Reason with_State with_ChangedAt with_Emails];
      rewrite bool_decide_eq_true_2 by done; cbn [lk_ID lk_Emails lk_State].
    + split_and!; [done|by apply normal_filter|]. intros e. split; [by intros [? _]|]. intros (_&He&Ht).
      assert (e ∈ kept) as Hin by (by apply Hkept). rewrite Hempty in Hin. by apply elem_of_nil in Hin.
    + split_and!; [done|by apply normal_filter|]. intros e. rewrite Hkept. naive_solver.
Qed.

(** ** What the store holds *)

Section safety.
Context {S : Type} `{StateList S}.
Context `{!Codec (Z * item), !Codec Link, !Codec tokens, !Codec claimMarker} {SL : Sealer} {Opens : @SealerSpec SL}.
Implicit Types s : S.

(** The link of an account, as far as it can be read. *)
Definition stored s id : option Link := (value_at s (ghLinkKey id) ≫= decodeItem) ≫= links_decode (ghLinkKey id).

Definition as_stored (l : Link) : Link := with_Emails (Normalise (lk_Emails l)) (with_Version Version l).

Lemma links_roundtrip l it : links_encode l = Ok it →
  decodeItem (encodeItem it) ≫= links_decode (ghLinkKey (lk_ID l)) = Some (as_stored l).
Proof.
  unfold links_encode, link_Encode, decodeItem, encodeItem. intros Henc. rewrite decode_encode_doc, bool_decide_eq_true_2 by done.
  cbn [mbind option_bind]. unfold links_decode, link_Decode.
  destruct ((lk_ID (with_tokens "" "" l) <=? 0)%Z || _); [done|]. destruct (negb _); [done|]. cbn in Henc.
  case_bool_decide as Hheld.
  - injection Henc as <-. cbn [it_Record it_Sealed]. rewrite decode_encode_doc. cbn. injection Hheld as Ha Hr.
    unfold as_stored, with_tokens, with_Emails, with_Version. cbn. by rewrite Ha, Hr.
  - destruct (seal _ _) as [sealed|] eqn:Hseal; [|done]. injection Henc as <-. cbn [it_Record it_Sealed].
    rewrite decode_encode_doc. cbn. apply Opens in Hseal as [Hopen Hne]. rewrite (proj2 (empty_false _)) by done.
    rewrite Hopen. cbn. by rewrite decode_encode_doc.
Qed.

(** The links are where their ids say, readable and for good. *)
Definition links_ok s : Prop := ∀ key r, sp_view s key = Some r → HasPrefix key ghLinkPrefix = true →
  lv_expires r = None ∧ ∃ id l, key = ghLinkKey id ∧ stored s id = Some l ∧ lk_ID l = id ∧ normal_emails (lk_Emails l).

Lemma links_ok_stored s id l : links_ok s → stored s id = Some l → lk_ID l = id ∧ normal_emails (lk_Emails l).
Proof.
  intros Hok Hl. unfold stored, value_at in Hl. destruct (sp_view s (ghLinkKey id)) as [r|] eqn:Hr; [|done].
  destruct (Hok _ r Hr (ghLinkKey_prefix id)) as (_&id'&l'&Hkey&Hl'&Hid&Hn). apply ghLinkKey_inj in Hkey as <-.
  unfold stored, value_at in Hl'. rewrite Hr in Hl'. naive_solver.
Qed.

(** One account's link written, and nothing else. *)
Definition wrote s id (l : Link) s' : Prop :=
  sp_now s' = sp_now s ∧ stored s' id = Some l ∧ (∀ id', id' ≠ id → stored s' id' = stored s id') ∧
  (∀ key, HasPrefix key ghLinkPrefix = false → sp_view s' key = sp_view s key) ∧
  (links_ok s → links_ok s').

Lemma stored_same s s' id : sp_view s' (ghLinkKey id) = sp_view s (ghLinkKey id) → stored s' id = stored s id.
Proof. unfold stored, value_at. by intros ->. Qed.

Lemma key_set_wrote s s' id v rev l : key_set s (ghLinkKey id) (Some (mkLive v rev None)) s' →
  decodeItem v ≫= links_decode (ghLinkKey id) = Some l → lk_ID l = id → normal_emails (lk_Emails l) → wrote s id l s'.
Proof.
  intros (Hnow&Hkey&Hother) Hl Hid Hn.
  assert (stored s' id = Some l) as Hs by (unfold stored, value_at; by rewrite Hkey).
  assert (∀ id', id' ≠ id → stored s' id' = stored s id') as Hs'.
  { intros id' Hne. apply stored_same, Hother. by intros ?%ghLinkKey_inj. }
  split_and!; [done..| |].
  - intros key Hk. apply Hother. intros ->. by rewrite ghLinkKey_prefix in Hk.
  - intros Hok key r Hr Hp. destruct (decide (key = ghLinkKey id)) as [->|Hne].
    + rewrite Hkey in Hr. injection Hr as <-. split; [done|]. by exists id, l.
    + rewrite Hother in Hr by done. destruct (Hok key r Hr Hp) as (He&id'&l'&->&Hl'&Hid'&Hn'). split; [done|].
      exists id', l'. split; [done|]. rewrite Hs'; [done|]. by intros ->.
Qed.

(** Writing one link: what it may leave, and what was written. *)
Lemma hoare_write_link (Pre Crash : S → Prop) id next (Post : option Link → S → Prop) :
  (∀ s, sp_ok 0 s → Pre s → Crash s) →
  (∀ s, sp_ok 0 s → Pre s → next (stored s id) = None → Post None s) →
  (∀ s l, Pre s → next (stored s id) = Some l → lk_ID l = id) →
  (∀ s s' l rev, sp_ok 0 s → Pre s → next (stored s id) = Some l → let l := with_Revision rev l in
    wrote s id (as_stored l) s' → Crash s' ∧ Post (Some l) s') →
  hoare Pre (write_link id next) Post Crash.
Proof.
  intros Hcrash Hnone Hid Hsome. apply hoare_editRaw; [done|]. intros s s' w Hok _ Hs Hed.
  unfold editItem_change, write_change, edited in Hed. fold (stored s id) in Hed.
  change ((value_at s (ghLinkKey id) ≫= decodeItem) ≫= links_decode (ghLinkKey id)) with (stored s id) in Hed.
  destruct (next (stored s id)) as [l|] eqn:Hnext; cbn in Hed.
  - set (rev := (match stored s id with Some h => lk_Revision h | None => 0 end + 1)%Z) in *.
    destruct (links_encode (with_Revision rev l)) as [it|e] eqn:Henc; [|by destruct Hed]. cbn in Hed.
    destruct (CheckWrite _ _ _); [by destruct Hed|]. destruct Hed as ([= ->]&rev'&Hset).
    eapply (Hsome s s' l rev); [done..|]. eapply key_set_wrote; [exact Hset| | |apply Normalise_normal].
    + apply links_roundtrip in Henc. cbn [lk_ID with_Revision] in Henc. by rewrite (Hid s l Hs Hnext) in Henc.
    + by apply (Hid s l Hs).
  - destruct Hed as ([= ->]&->). split; [by apply Hcrash|by apply Hnone].
Qed.

Lemma hoare_links_list (Pre Crash : S → Prop) pages (Post : list Link → S → Prop) :
  (∀ s, sp_ok 0 s → Pre s → Crash s ∧ links_ok s) →
  (∀ s ls, sp_ok 0 s → Pre s → (∀ l, l ∈ ls ↔ stored s (lk_ID l) = Some l) → Post ls s) →
  hoare Pre (links_list pages) Post Crash.
Proof.
  intros Hcrash Hpost. eapply (hoare_bind _ _ _ (λ records s, Pre s ∧ records = omap (record_at (sp_view s)) (sp_keys s ghLinkPrefix))).
  - apply hoare_listAll; [done|done| |done]. intros s Hok Hs. by apply Hcrash.
  - intros records. apply hoare_give. intros s Hok [Hs ->]. split; [|by apply Hcrash]. apply Hpost; [done..|]. intros l.
    destruct (Hcrash s Hok Hs) as [_ Hlinks]. rewrite merge_sort_Permutation, list_elem_of_omap. split.
    + intros (rec&(key&Hkey&Hrec)%list_elem_of_omap&Hl). apply (sp_keys_live 0) in Hkey as [Hp [r Hr]]; [|done].
      unfold record_at in Hrec. rewrite Hr in Hrec. injection Hrec as <-. destruct (Hlinks key r Hr Hp) as (_&id&l'&->&Hl'&Hid&_).
      assert (stored s id = Some l) as Hst by (unfold stored, value_at; rewrite Hr; exact Hl). naive_solver.
    + intros Hl. unfold stored, value_at in Hl. destruct (sp_view s (ghLinkKey (lk_ID l))) as [r|] eqn:Hr; [|done].
      exists (mkKV (ghLinkKey (lk_ID l)) (lv_value r) (lv_rev r)). split; [|exact Hl]. apply list_elem_of_omap.
      exists (ghLinkKey (lk_ID l)). split; [|unfold record_at; by rewrite Hr].
      apply (sp_keys_live 0); [done|]. split; [apply ghLinkKey_prefix|by eexists].
Qed.

(** ** Narrowing *)

(** The account proves the address. *)
Definition proves s id email : Prop := ∃ l, stored s id = Some l ∧ lk_State l = StateLinked ∧ email ∈ lk_Emails l.

(** One account's link, narrowed by a claim. *)
Definition narrowed (claimed : Link) s id s' : Prop :=
  (∃ l, wrote s id l s') ∧ ∀ e, proves s' id e ↔ proves s id e ∧ ¬ takes_from claimed e.

Lemma wrote_proves s id l s' id' e : wrote s id l s' → id' ≠ id → proves s' id' e ↔ proves s id' e.
Proof. intros (_&_&Hother&_) Hne. unfold proves. by rewrite Hother. Qed.

Lemma wrote_now_proves s id l s' e : wrote s id (as_stored l) s' → normal_emails (lk_Emails l) →
  proves s' id e ↔ lk_State l = StateLinked ∧ e ∈ lk_Emails l.
Proof.
  intros (_&Hw&_) Hn. unfold proves. rewrite Hw. assert (lk_Emails (as_stored l) = lk_Emails l) as Heq by (by apply Normalise_fixed).
  split; [intros (x&[= <-]&Hst&He); by rewrite Heq in He|]. intros [Hst He]. exists (as_stored l). by rewrite Heq.
Qed.

(** The accounts have none of the claimed addresses. *)
Definition clear_of (claimed : Link) (ids : list Z) s : Prop := ∀ id e, id ∈ ids → takes_from claimed e → ¬ proves s id e.

Lemma hoare_narrow_one (I : S → Prop) claimed now id ids : id ≠ lk_ID claimed →
  (∀ s, I s → links_ok s) → (∀ s s', I s → narrowed claimed s id s' → I s') →
  hoare (λ s, I s ∧ clear_of claimed ids s) (write_link id (narrow_next claimed now))
    (λ _ s, I s ∧ clear_of claimed (ids ++ [id]) s) I.
Proof.
  intros Hne Hlinks Hstep.
  assert (∀ s s', clear_of claimed ids s → (∀ id' e, id' ≠ id → proves s' id' e → proves s id' e) →
    (∀ e, takes_from claimed e → ¬ proves s' id e) → clear_of claimed (ids ++ [id]) s') as Hclear.
  { intros s s' Hc Hother Hid id' e Hin Ht. destruct (decide (id' = id)) as [->|Hn]; [by apply Hid|].
    apply elem_of_app in Hin as [Hin|Hin]; [|set_solver]. intros Hp. by apply (Hc id' e Hin Ht), Hother. }
  apply hoare_write_link.
  - by intros s _ [? _].
  - intros s _ [Hs Hc] Hnone. split; [done|]. apply (Hclear s s); [done..|]. intros e Ht (l&Hl&Hst&He).
    destruct (links_ok_stored s id l (Hlinks s Hs) Hl) as [Hid Hn]. pose proof (narrow_next_spec claimed now l Hn ltac:(congruence)) as Hspec.
    rewrite Hl in Hnone. rewrite Hnone in Hspec. by apply (Hspec e).
  - intros s l [Hs _] Hsome. destruct (stored s id) as [cur|] eqn:Hl; [|done].
    destruct (links_ok_stored s id cur (Hlinks s Hs) Hl) as [Hid Hn]. pose proof (narrow_next_spec claimed now cur Hn ltac:(congruence)) as Hspec.
    rewrite Hsome in Hspec. destruct Hspec as [-> _]. done.
  - intros s s' l rev _ [Hs Hc] Hsome l' Hw. destruct (stored s id) as [cur|] eqn:Hl; [|done].
    destruct (links_ok_stored s id cur (Hlinks s Hs) Hl) as [Hid Hn]. pose proof (narrow_next_spec claimed now cur Hn ltac:(congruence)) as Hspec.
    rewrite Hsome in Hspec. destruct Hspec as (_&Hn'&Hspec).
    assert (narrowed claimed s id s') as Hnar.
    { split; [by eexists|]. intros e. rewrite (wrote_now_proves _ _ _ _ _ Hw Hn'). unfold l'. cbn [lk_State with_Revision lk_Emails].
      rewrite (Hspec e). unfold proves. rewrite Hl. naive_solver. }
    split; [by eapply Hstep|]. split; [by eapply Hstep|]. apply (Hclear s s'); [done| |].
    + intros id' e Hid'. by apply (wrote_proves s id (as_stored l')).
    + intros e Ht Hp. by apply Hnar in Hp as [_ ?].
Qed.

Lemma hoare_narrow_each (I : S → Prop) claimed now others ids :
  (∀ o, o ∈ others → lk_ID o ≠ lk_ID claimed) → (∀ s, I s → links_ok s) →
  (∀ s s' o, o ∈ others → I s → narrowed claimed s (lk_ID o) s' → I s') →
  hoare (λ s, I s ∧ clear_of claimed ids s) (write_each ((λ other, (lk_ID other, narrow_next claimed now)) <$> others))
    (λ _ s, I s ∧ clear_of claimed (ids ++ (lk_ID <$> others)) s) I.
Proof.
  revert ids. induction others as [|o others IH]; intros ids Hne Hlinks Hstep.
  - apply hoare_give. intros s _ [Hs Hc]. by rewrite app_nil_r.
  - cbn [fmap list_fmap write_each]. eapply hoare_bind.
    + apply (hoare_narrow_one I); [by apply Hne; left|done|]. intros s s'. apply Hstep. by left.
    + intros l. eapply hoare_bind; [apply IH; [set_solver|done|]|].
      * intros s s' o' Ho'. apply Hstep. by right.
      * intros written. apply hoare_give. intros s _ [Hs Hc]. rewrite <- app_assoc in Hc. done.
Qed.

(** Alone, narrowing leaves no other account with a claimed address. *)
Lemma hoare_narrow (I : S → Prop) pages claimed now :
  (∀ s, I s → links_ok s) →
  (∀ s s' id, id ≠ lk_ID claimed → I s → narrowed claimed s id s' → I s') →
  hoare I (narrow pages claimed now)
    (λ _ s, I s ∧ ∀ id e, id ≠ lk_ID claimed → takes_from claimed e → ¬ proves s id e) I.
Proof.
  intros Hlinks Hstep. eapply (hoare_bind _ _ _ (λ ls s, I s ∧ ∀ id, is_Some (stored s id) → id ∈ lk_ID <$> ls)).
  - apply hoare_links_list; [by intros s _ Hs; split; [|by apply Hlinks]|]. intros s ls _ Hs Hls. split; [done|].
    intros id [l Hl]. destruct (links_ok_stored s id l (Hlinks s Hs) Hl) as [<- _]. apply list_elem_of_fmap. exists l. split; [done|]. by apply Hls.
  - intros ls. set (others := List.filter _ ls).
    assert (∀ o, o ∈ others → lk_ID o ≠ lk_ID claimed) as Hne.
    { intros o [_ Ho]%elem_of_filter_bool. by apply negb_true_iff, bool_decide_eq_false in Ho. }
    eapply hoare_conseq; [apply (hoare_narrow_each (λ s, I s ∧ ∀ id, is_Some (stored s id) → id ∈ lk_ID <$> ls) claimed now others [] Hne)| | |].
    + intros s [Hs _]. by apply Hlinks.
    + intros s s' o Ho [Hs Hin] Hnar. split; [by eapply Hstep; [apply Hne|..]|]. intros id Hid.
      destruct Hnar as [[l (_&_&Hother&_)] _]. destruct (decide (id = lk_ID o)) as [->|Hn]; [|apply Hin; by rewrite <- Hother].
      apply elem_of_filter_bool in Ho as [Ho _]. by apply list_elem_of_fmap_2.
    + intros s _ [Hs Hin]. split; [done|]. by intros id e ?%elem_of_nil.
    + intros _ s _ [[Hs Hin] Hc]. split; [done|]. intros id e Hid Ht Hp. apply (Hc id e); [|done..].
      destruct Hp as (l&Hl&_). specialize (Hin id ltac:(by eexists)). apply list_elem_of_fmap in Hin as (o&->&Ho).
      apply list_elem_of_fmap. exists o. split; [done|]. apply elem_of_filter_bool. split; [done|]. by apply negb_true_iff, bool_decide_eq_false.
    + by intros s [? _].
Qed.

(** ** Claims and recoveries *)

(** Every address is proven by one account. *)
Definition one_account s : Prop := ∀ i j e, proves s i e → proves s j e → i = j.

Section claim.
Context (s0 : S) (claimed : Link) (cid : Z) (until : Z).

(** The claim's marker is there, with its end. *)
Definition marked s : Prop := ∃ r m, sp_view s (claim_key cid) = Some r ∧ decode_doc (lv_value r) = Some m ∧ cm_ID m = cid ∧
  lv_expires r = Some until.

(** Nothing that other accounts proved is proven by nobody. *)
Definition kept s : Prop := ∀ i e, i ≠ cid → proves s0 i e → ∃ j, proves s j e.

(** What a claim stopped anywhere leaves: an address two accounts prove is the claimed
    account's, and its marker says so. *)
Definition recoverable s : Prop := links_ok s ∧ kept s ∧
  ∀ i j e, proves s i e → proves s j e → i = j ∨ (i = cid ∨ j = cid) ∧ marked s.

(** Same links, same addresses. *)
Definition same_links s s' : Prop := (∀ key, HasPrefix key ghLinkPrefix = true → sp_view s' key = sp_view s key).

Lemma same_links_proves s s' i e : same_links s s' → proves s' i e ↔ proves s i e.
Proof. intros Hs. unfold proves. by rewrite (stored_same s s') by (apply Hs, ghLinkKey_prefix). Qed.

Lemma same_links_ok s s' : same_links s s' → links_ok s → links_ok s'.
Proof.
  intros Hs Hok key r Hr Hp. rewrite Hs in Hr by done. destruct (Hok key r Hr Hp) as (He&id&l&->&Hl&Hid). split; [done|].
  exists id, l. split; [done|]. by rewrite (stored_same s s') by by apply Hs.
Qed.

Lemma kept_same s s' : same_links s s' → kept s → kept s'.
Proof. intros Hs Hk i e Hi Hp. destruct (Hk i e Hi Hp) as [j Hj]. exists j. by apply (same_links_proves s s'). Qed.

Lemma wrote_marked s id l s' : wrote s id l s' → marked s → marked s'.
Proof. intros (_&_&_&Hother&_) (r&m&Hr&?). exists r, m. by rewrite Hother by apply claim_key_prefix. Qed.

(** Narrowing by a link that stands keeps every address proven and shares none anew. *)
Lemma narrowed_kept c s id s' : narrowed c s id s' → id ≠ lk_ID c → (∀ e, takes_from c e ↔ proves s (lk_ID c) e) →
  (∀ i e, proves s' i e → proves s i e) ∧ (∀ e, takes_from c e ↔ proves s' (lk_ID c) e) ∧ (kept s → kept s').
Proof.
  intros [[l Hw] Hnar] Hne Hc. assert (∀ i e, i ≠ id → proves s' i e ↔ proves s i e) as Hother by (intros; by eapply wrote_proves).
  split_and!.
  - intros i e Hp. destruct (decide (i = id)) as [->|Hi]; [by apply Hnar in Hp as [? _]|by apply Hother].
  - intros e. by rewrite Hother.
  - intros Hk i e Hi Hp. destruct (Hk i e Hi Hp) as [j Hj]. destruct (decide (j = id)) as [->|Hj']; [|exists j; by apply Hother].
    destruct (decide (e ∈ Normalise (lk_Emails c))) as [He|He]; [exists (lk_ID c); apply Hother; [done|by apply Hc]|exists id; by apply Hnar].
Qed.

(** What is shared is the claimed account's, and its marker is there. *)
Definition claiming s : Prop := links_ok s ∧ marked s ∧ kept s ∧ (∀ e, takes_from claimed e ↔ proves s cid e) ∧
  ∀ i j e, proves s i e → proves s j e → i = j ∨ (i = cid ∨ j = cid).

Lemma claiming_recoverable s : claiming s → recoverable s.
Proof. intros (Hl&Hm&Hk&_&Hs). split_and!; [done..|]. intros i j e Hi Hj. destruct (Hs i j e Hi Hj); auto. Qed.

Lemma one_account_recoverable s : links_ok s → kept s → one_account s → recoverable s.
Proof. intros Hl Hk Ho. split_and!; [done..|]. intros i j e Hi Hj. left. by eapply Ho. Qed.

Lemma hoare_claim_written : lk_ID claimed = cid → lk_State claimed = StateLinked → normal_emails (lk_Emails claimed) →
  hoare (λ s, links_ok s ∧ marked s ∧ one_account s ∧ ∀ i e, proves s i e ↔ proves s0 i e)
    (write_link cid (λ _, Some claimed)) (λ _ s, claiming s) recoverable.
Proof.
  intros Hid Hlinked Hn. apply hoare_write_link.
  - intros s _ (Hl&_&Ho&Hs0). apply one_account_recoverable; [done| |done]. intros i e _ Hp. exists i. by apply Hs0.
  - done.
  - by intros s l _ [= <-].
  - intros s s' l0 rev _ (Hl&Hm&Ho&Hs0) [= <-] l Hw. assert (claiming s') as Hc; [|split; [by apply claiming_recoverable|done]].
    assert (∀ e, proves s' cid e ↔ e ∈ lk_Emails claimed) as Hcid by (intros e; rewrite (wrote_now_proves _ _ _ _ _ Hw Hn); naive_solver).
    assert (∀ i e, i ≠ cid → proves s' i e ↔ proves s i e) as Hother by (intros; by eapply wrote_proves).
    split_and!; [by apply Hw|by eapply wrote_marked| | |].
    + intros i e Hi Hp. exists i. by apply Hother, Hs0.
    + intros e. rewrite Hcid. unfold takes_from. by rewrite Normalise_fixed.
    + intros i j e Hi Hj. destruct (decide (i = cid)); [by right; left|]. destruct (decide (j = cid)); [by right; right|].
      left. apply (Ho i j e); by apply Hother.
Qed.

Lemma takes_from_normal e : normal_emails (lk_Emails claimed) → takes_from claimed e ↔ e ∈ lk_Emails claimed.
Proof. intros Hn. unfold takes_from. by rewrite Normalise_fixed. Qed.

(** The marker's deletion, once nothing is shared. *)
Lemma one_account_same s s' : same_links s s' → one_account s → one_account s'.
Proof. intros Hs Ho i j e. rewrite !(same_links_proves s s') by done. apply Ho. Qed.

Lemma delete_same_links n s key : sp_ok n s → HasPrefix key ghLinkPrefix = false → same_links s (st_Delete s key).
Proof.
  intros Hok Hp key' Hk. destruct (sp_Delete n s key Hok) as (_&_&_&_&Hother). apply Hother. intros ->. congruence.
Qed.

(** A claim alone: done, or stopped at any of its calls. *)
Lemma hoare_Claim pages raw now : claimed = with_Emails (Normalise (lk_Emails raw)) raw →
  lk_ID raw = cid → lk_State raw = StateLinked → until = (sp_now s0 + claimTTL)%Z →
  links_ok s0 → one_account s0 →
  hoare (λ s, s = s0) (GitHubLinks_Claim pages raw now)
    (λ _ s, links_ok s ∧ kept s ∧ one_account s ∧ ∀ e, e ∈ lk_Emails claimed → proves s cid e) recoverable.
Proof.
  intros Hraw Hid Hlinked Huntil Hl0 Ho0.
  assert (lk_ID claimed = cid) as Hcid by (by rewrite Hraw). assert (lk_State claimed = StateLinked) as Hst by (by rewrite Hraw).
  assert (normal_emails (lk_Emails claimed)) as Hn by (rewrite Hraw; apply Normalise_normal).
  unfold GitHubLinks_Claim. rewrite <- Hraw.
  eapply (hoare_do _ _ _ (λ r s, match r with
    | Ok _ => links_ok s ∧ marked s ∧ one_account s ∧ ∀ i e, proves s i e ↔ proves s0 i e
    | Err _ => recoverable s end)).
  - intros n s Hok ->. assert (recoverable s0) as Hr0.
    { apply one_account_recoverable; [done| |done]. intros i e _ Hp. by exists i. }
    split; [done|]. cbn [perform]. set (mark := mkMarker _ _ _ _).
    destruct (CheckWrite (claim_key (lk_ID claimed)) (encode_doc mark) claimTTL) as [e|] eqn:Hc.
    + destruct (sp_refused _ s0 _ _ _ "" e Hok Hc) as (Hput&_). by rewrite Hput.
    + destruct (sp_Put _ s0 _ _ _ Hok Hc) as (rev&s'&Hput&Hok'&Hnow&Hw). rewrite Hput. cbn [fst snd].
      destruct (written_set _ _ _ _ _ _ Hnow Hw) as (_&Hkey&Hother). rewrite Hcid in Hkey, Hother.
      assert (same_links s0 s') as Hsame.
      { intros key Hp. apply Hother. intros ->. by rewrite (proj1 (claim_key_prefix _)) in Hp. }
      split_and!; [by eapply same_links_ok| |by eapply one_account_same|intros i e; by apply same_links_proves].
      eexists _, _. split_and!; [exact Hkey|apply decode_encode_doc|done|]. cbn. by rewrite Huntil.
  - intros [rev|e]; [|by apply hoare_throw].
    eapply hoare_bind; [rewrite Hcid; by apply hoare_claim_written|]. intros l. eapply hoare_bind.
    + eapply hoare_conseq; [apply (hoare_narrow claiming pages claimed now)|done|intros a s _ Hs; exact Hs|apply claiming_recoverable].
      * by intros s (?&_).
      * intros s s' id Hne (Hl&Hm&Hk&Hc&Hs) Hnar. rewrite Hcid in Hne.
        destruct (narrowed_kept claimed s id s' Hnar) as (Hless&Hc'&Hk'); [by rewrite Hcid|by rewrite Hcid|]. rewrite Hcid in Hc'.
        destruct Hnar as [[x Hw] _]. split_and!; [by apply Hw|by eapply wrote_marked|by apply Hk'|done|].
        intros i j e Hi Hj. eapply Hs; by apply Hless.
    + intros nar. eapply (hoare_do _ _ _ (λ _ s, links_ok s ∧ kept s ∧ one_account s ∧ ∀ e, e ∈ lk_Emails claimed → proves s cid e)).
      * intros n s Hok [(Hl&Hm&Hk&Hc&Hs) Hclear]. rewrite Hcid in Hclear.
        assert (one_account s) as Ho.
        { intros i j e Hi Hj. destruct (Hs i j e Hi Hj) as [?|[->| ->]]; [done|..].
          - apply Hc in Hi. destruct (decide (j = cid)) as [->|Hne]; [done|]. by destruct (Hclear j e Hne Hi).
          - apply Hc in Hj. destruct (decide (i = cid)) as [->|Hne]; [done|]. by destruct (Hclear i e Hne Hj). }
        split; [by apply one_account_recoverable|]. cbn [perform fst snd]. rewrite Hcid.
        pose proof (delete_same_links n s (claim_key cid) (sp_weaken _ _ Hok) (proj1 (claim_key_prefix cid))) as Hsame.
        split_and!; [by eapply same_links_ok|by eapply kept_same|by eapply one_account_same|].
        intros e He. apply (same_links_proves s); [done|]. by apply Hc, takes_from_normal.
      * intros u. apply hoare_give. intros s _ (?&?&?&?). split; [done|]. by apply one_account_recoverable.
Qed.

(** ** Finishing claims *)

Definition ours (rec : KVRecord) : Prop := ∃ m, decode_doc (kv_Value rec) = Some m ∧ cm_ID m = cid.

(** Markers still to be finished: what is shared is the claimed account's, and its own
    marker is among them. *)
Definition finishing (rest : list KVRecord) s : Prop := links_ok s ∧ kept s ∧
  (∀ rec, rec ∈ rest → HasPrefix (kv_Key rec) ghClaimPrefix = true) ∧
  ∀ i j e, proves s i e → proves s j e → i = j ∨
    (i = cid ∨ j = cid) ∧ marked s ∧ (∃ rec, rec ∈ rest ∧ ours rec) ∧ ∀ rec, rec ∈ rest → kv_Key rec = claim_key cid → ours rec.

Lemma finishing_recoverable rest s : finishing rest s → recoverable s.
Proof. intros (Hl&Hk&_&Hs). split_and!; [done..|]. intros i j e Hi Hj. destruct (Hs i j e Hi Hj) as [?|(?&?&_)]; auto. Qed.

(** One marker less: it was another's, or nothing is shared any more. *)
Definition finished_one (rec : KVRecord) (rest : list KVRecord) s : Prop := finishing (rec :: rest) s ∧
  ∀ i j e, proves s i e → proves s j e → i = j ∨ ¬ ours rec.

Lemma claim_prefix_not_link key : HasPrefix key ghClaimPrefix = true → HasPrefix key ghLinkPrefix = false.
Proof. intros [r ->]%HasPrefix_spec. done. Qed.

Lemma finished_one_drop n rec rest s s' : sp_ok n s → finished_one rec rest s →
  s' = s ∨ s' = st_Delete s (kv_Key rec) → finishing rest s'.
Proof.
  intros Hok [(Hl&Hk&Hp&Hs) Hone] Hs'.
  assert (HasPrefix (kv_Key rec) ghClaimPrefix = true) as Hrec by (apply Hp; by left).
  assert (same_links s s') as Hsame.
  { destruct Hs' as [->| ->]; [done|]. eapply delete_same_links; [exact Hok|by apply claim_prefix_not_link]. }
  split_and!; [by eapply same_links_ok|by eapply kept_same|intros; apply Hp; by right|].
  intros i j e. rewrite !(same_links_proves s s') by done. intros Hi Hj.
  destruct (Hone i j e Hi Hj) as [?|Hours]; [by left|]. destruct (Hs i j e Hi Hj) as [?|(Hij&Hm&(rec'&Hin&Ho)&Hkeys)]; [by left|].
  right. split_and!; [done| | |intros rec2 Hin2; apply Hkeys; by right].
  - destruct Hs' as [->| ->]; [done|]. destruct Hm as (r&m&Hr&?). exists r, m. split; [|done].
    destruct (sp_Delete n s (kv_Key rec) Hok) as (_&_&_&_&Hother). rewrite Hother; [done|].
    intros Heq. apply Hours, Hkeys; [by left|done].
  - exists rec'. split; [|done]. apply elem_of_cons in Hin as [->|Hin]; [by destruct Hours|done].
Qed.

(** The marker's own delete, whatever it answers. *)
Lemma hoare_drop rec rest (k : result port_error unit → P unit) :
  (∀ r, k r = give tt ∨ ∃ e, k r = throw e) →
  hoare (finished_one rec rest) (Do (CDeleteIfRevision (kv_Key rec) (kv_Revision rec)) k) (λ _ s, finishing rest s) recoverable.
Proof.
  intros Hk. eapply (hoare_do _ _ _ (λ _ s, finishing rest s)).
  - intros n s Hok Hs. split; [eapply finishing_recoverable, Hs|]. eapply finished_one_drop; [exact (sp_weaken _ _ Hok)|exact Hs|].
    cbn [perform]. destruct (sp_DeleteIfRevision _ s (kv_Key rec) (kv_Revision rec) Hok) as [[_ ->]|(r&_&[[_ ->]|[_ ->]])]; auto.
  - intros r. destruct (Hk r) as [->|[e ->]].
    + apply hoare_give. intros s _ Hs. split; [done|]. by eapply finishing_recoverable.
    + apply hoare_throw. intros s Hs. by eapply finishing_recoverable.
Qed.

(** Narrowing by the link a marker names, as it stands. *)
Lemma hoare_finish_narrow pages rec rest m c now : decode_doc (kv_Value rec) = Some m → lk_State c = StateLinked →
  hoare (λ s, finishing (rec :: rest) s ∧ stored s (cm_ID m) = Some c) (narrow pages c now)
    (λ _ s, finished_one rec rest s) recoverable.
Proof.
  intros Hm Hst. eapply hoare_conseq; [apply (hoare_narrow (λ s, finishing (rec :: rest) s ∧ stored s (cm_ID m) = Some c ∧
    lk_ID c = cm_ID m ∧ ∀ e, takes_from c e ↔ proves s (lk_ID c) e) pages c now)| | |].
  - by intros s [(?&_) _].
  - intros s s' id Hne ((Hl&Hk&Hp&Hs)&Hc&Hid&Htakes) Hnar. destruct (narrowed_kept c s id s' Hnar Hne Htakes) as (Hless&Htakes'&Hk').
    destruct Hnar as [[x Hw] _].
    split; [split_and!; [by apply Hw|by apply Hk'|done|]|split_and!; [rewrite <- Hc; apply Hw; congruence|done|done]].
    intros i j e Hi Hj. destruct (Hs i j e) as [?|(Hij&Hmk&Hpend&Hkeys)]; [by apply Hless..|by left|]. right. split_and!; [done|by eapply wrote_marked|done..].
  - intros s _ [Hf Hc]. destruct (links_ok_stored s _ c (proj1 Hf) Hc) as [Hid Hn]. split_and!; [done..|].
    intros e. rewrite Hid. unfold takes_from, proves. rewrite Normalise_fixed by done. rewrite Hc. naive_solver.
  - intros _ s _ [(Hf&Hc&Hid&Htakes) Hclear]. split; [done|]. intros i j e Hi Hj. pose proof Hf as (_&_&_&Hs).
    destruct (Hs i j e Hi Hj) as [?|(Hij&_)]; [by left|]. destruct (decide (i = j)) as [->|Hne]; [by left|]. right.
    intros (m'&Hm'&Hcid). assert (m' = m) as -> by congruence. rewrite Hcid in Hid. rewrite Hid in Hclear, Htakes.
    destruct Hij as [->| ->].
    + by apply (Hclear j e); [congruence|apply Htakes|].
    + by apply (Hclear i e); [|apply Htakes|].
  - intros s [Hf _]. by eapply finishing_recoverable.
Qed.

(** An account with no link that stands shares nothing. *)
Lemma unlinked_finished rec rest m s : decode_doc (kv_Value rec) = Some m →
  finishing (rec :: rest) s → (∀ c, stored s (cm_ID m) = Some c → lk_State c ≠ StateLinked) → finished_one rec rest s.
Proof.
  intros Hm Hf Hno. split; [done|]. intros i j e Hi Hj. pose proof Hf as (_&_&_&Hs).
  destruct (Hs i j e Hi Hj) as [?|(Hij&_)]; [by left|]. right. intros (m'&Hm'&Hcid). assert (m' = m) as -> by congruence.
  rewrite Hcid in Hno. destruct Hij as [->| ->]; [destruct Hi as (c&Hc&?&_)|destruct Hj as (c&Hc&?&_)]; by apply (Hno c Hc).
Qed.

Lemma hoare_links_get (I : S → Prop) id : (∀ s, I s → recoverable s) →
  hoare I (links_get id) (λ c s, I s ∧ stored s id = c) recoverable.
Proof.
  intros HI. eapply hoare_bind; [apply (hoare_getItem _ _ _ (λ it s, I s ∧ it ≫= links_decode (ghLinkKey id) = stored s id)); [auto|done]|].
  intros it. apply hoare_give. intros s _ [Hf Heq]. by auto.
Qed.

Lemma hoare_finish_claim pages rec rest :
  hoare (finishing (rec :: rest)) (finish_claim pages rec) (λ _ s, finishing rest s) recoverable.
Proof.
  unfold finish_claim. destruct (decode_doc (kv_Value rec)) as [m|] eqn:Hm.
  - eapply hoare_bind; [apply (hoare_links_get (finishing (rec :: rest))); apply finishing_recoverable|].
    intros c. cbn beta. eapply hoare_bind; [|intros l; apply hoare_drop; intros [|[]]; eauto].
    destruct c as [c|]; [destruct (bool_decide_reflect (lk_State c = StateLinked)) as [Hst|Hst]|].
    + by apply (hoare_finish_narrow pages rec rest m).
    + apply hoare_give. intros s _ [Hf Hc]. split; [|by eapply finishing_recoverable].
      eapply unlinked_finished; [done..|]. intros c'. by rewrite Hc; intros [= <-].
    + apply hoare_give. intros s _ [Hf Hc]. split; [|by eapply finishing_recoverable].
      eapply unlinked_finished; [done..|]. intros c'. by rewrite Hc.
  - eapply hoare_pre; [|apply hoare_drop; eauto]. intros s _ Hf. split; [done|]. intros i j e _ _. right. intros (m&Hm'&_). congruence.
Qed.

Lemma hoare_finish_each pages markers :
  hoare (finishing markers) (finish_each pages markers) (λ _ s, finishing [] s) recoverable.
Proof.
  induction markers as [|rec rest IH].
  - apply hoare_give. intros s _ Hs. split; [done|]. by eapply finishing_recoverable.
  - cbn [finish_each]. eapply hoare_bind; [apply hoare_finish_claim|]. intros u. apply IH.
Qed.

(** A list taken alone, from whatever a stopped claim left: done, or stopped again at
    any of its calls. *)
Lemma hoare_List pages : hoare recoverable (GitHubLinks_List pages)
  (λ ls s, links_ok s ∧ kept s ∧ one_account s ∧ ∀ l, l ∈ ls ↔ stored s (lk_ID l) = Some l) recoverable.
Proof.
  unfold GitHubLinks_List. eapply (hoare_bind _ _ _ (λ _ s, finishing [] s)).
  - unfold finishClaims. eapply (hoare_bind _ _ _ finishing); [|intros markers; apply hoare_finish_each].
    apply hoare_listAll; [done|done|done|]. intros s Hok (Hl&Hk&Hs). split_and!; [done..| |].
    + intros rec (key&[Hp _]%(sp_keys_live 0)&Hrec)%list_elem_of_omap; [|done]. unfold record_at in Hrec.
      apply fmap_Some in Hrec as (r&_&->). done.
    + intros i j e Hi Hj. destruct (Hs i j e Hi Hj) as [?|[Hij Hm]]; [by left|]. right. split_and!; [done..| |].
      * destruct Hm as (r&m&Hr&Hdec&Hid&_). exists (mkKV (claim_key cid) (lv_value r) (lv_rev r)). split; [|by exists m].
        apply list_elem_of_omap. exists (claim_key cid). split; [|unfold record_at; by rewrite Hr].
        apply (sp_keys_live 0); [done|]. split; [apply claim_key_prefix|by eexists].
      * intros rec (key&_&Hrec)%list_elem_of_omap Hkey. unfold record_at in Hrec. apply fmap_Some in Hrec as (r&Hr&->).
        cbn [kv_Key] in Hkey. subst key. destruct Hm as (r'&m&Hr'&Hdec&Hid&_). exists m. cbn [kv_Value]. split; [congruence|done].
  - intros u. assert (∀ s, finishing [] s → links_ok s ∧ kept s ∧ one_account s) as Hdone.
    { intros s (Hl&Hk&_&Hs). split_and!; [done..|]. intros i j e Hi Hj. destruct (Hs i j e Hi Hj) as [?|(_&_&(rec&Hin&_)&_)]; [done|].
      by apply elem_of_nil in Hin. }
    apply hoare_links_list.
    + intros s _ Hs. split; [by eapply finishing_recoverable|apply Hs].
    + intros s ls _ Hs Hls. destruct (Hdone s Hs) as (?&?&?). done.
Qed.

(** Less than a marker's lifetime later, it is all still there. *)
Lemma recoverable_wait n s d : sp_ok n s → (0 <= d)%Z → (sp_now s + d < until)%Z → recoverable s → recoverable (st_wait s d).
Proof.
  intros Hok Hd Hlt (Hl&Hk&Hs). destruct (sp_wait n s d Hok Hd) as (Hok'&Hnow&_&Hview).
  assert (same_links s (st_wait s d)) as Hsame.
  { intros key Hp. rewrite Hview. destruct (sp_view s key) as [r|] eqn:Hr; [|done]. destruct (Hl key r Hr Hp) as [-> _]. done. }
  split_and!; [by eapply same_links_ok|by eapply kept_same|]. intros i j e. rewrite !(same_links_proves s (st_wait s d)) by done.
  intros Hi Hj. destruct (Hs i j e Hi Hj) as [?|[Hij (r&m&Hr&Hdec&Hid&Hexp)]]; [by left|]. right. split; [done|].
  exists r, m. split_and!; [|done..]. rewrite Hview, Hr, Hnow, Hexp. cbn. by rewrite (proj2 (Z.ltb_lt _ _)).
Qed.

(** Lists stopped one after the other, and the calls there are from the first on. *)
Fixpoint stopped_lists pages (stops : list nat) s : S :=
  match stops with [] => s | j :: stops => stopped_lists pages stops (crash j (GitHubLinks_List pages) s) end.
Fixpoint spent pages (stops : list nat) s : nat :=
  calls (GitHubLinks_List pages) s +
  match stops with [] => 0 | j :: stops => spent pages stops (crash j (GitHubLinks_List pages) s) end.

Lemma stopped_lists_recoverable pages stops s ls s' : sp_ok (spent pages stops s) s → recoverable s →
  run (GitHubLinks_List pages) (stopped_lists pages stops s) = (Ok ls, s') →
  links_ok s' ∧ kept s' ∧ one_account s' ∧ ∀ l, l ∈ ls ↔ stored s' (lk_ID l) = Some l.
Proof.
  revert s. induction stops as [|j stops IH]; intros s Hok Hs Hrun; cbn [spent stopped_lists] in *.
  - destruct (hoare_List pages _ s Hok Hs) as [_ Hpost]. rewrite Hrun in Hpost. by apply Hpost.
  - destruct (hoare_List pages _ s Hok Hs) as [Hc _]. apply (IH _ (proj1 (crash_ok _ _ s j Hok)) (Hc j) Hrun).
Qed.
End claim.

(** The link is in use and proves the address. *)
Definition shows (l : Link) email : Prop := Active l = true ∧ email ∈ lk_Emails l.

Lemma proves_shows s l e : stored s (lk_ID l) = Some l → shows l e ↔ proves s (lk_ID l) e.
Proof.
  intros Hl. unfold shows, Active, proves. rewrite andb_true_iff, negb_true_iff, bool_decide_eq_true, bool_decide_eq_false. split.
  - intros [[Hst _] He]. by exists l.
  - intros (l'&Hl'&Hst&He). assert (l' = l) as -> by congruence. split_and!; [done| |done]. intros Hnil. rewrite Hnil in He. by apply elem_of_nil in He.
Qed.
End safety.

(** C26: an address proves one account, through every crash.  Alone on the store, a claim
    stopped after any number of its calls, then up to a week of nothing, then any number
    of lists each stopped after any number of theirs: the first list that answers shows
    every address on one account at most, and every address that another account proved
    before the claim is still proven by one. *)
Theorem claim_survives_crashes {S} `{StateList S} `{!Codec (Z * item), !Codec Link, !Codec tokens, !Codec claimMarker}
    {SL : Sealer} {Opens : @SealerSpec SL} pages (s0 : S) claimed now calls_made d stops ls s' :
  let s1 := st_wait (crash calls_made (GitHubLinks_Claim pages claimed now) s0) d in
  sp_ok (calls (GitHubLinks_Claim pages claimed now) s0 + spent pages stops s1) s0 →
  links_ok s0 → one_account s0 → lk_State claimed = StateLinked → (0 <= d < claimTTL)%Z →
  run (GitHubLinks_List pages) (stopped_lists pages stops s1) = (Ok ls, s') →
  (∀ l l' e, l ∈ ls → l' ∈ ls → shows l e → shows l' e → l = l') ∧
  ∀ l e, stored s0 (lk_ID l) = Some l → lk_ID l ≠ lk_ID claimed → shows l e → ∃ l', l' ∈ ls ∧ shows l' e.
Proof.
  intros s1 Hok Hl Ho Hst Hd Hrun.
  destruct (crash_ok _ _ s0 calls_made Hok) as [Hok1 Hnow].
  destruct (hoare_Claim s0 (with_Emails (Normalise (lk_Emails claimed)) claimed) (lk_ID claimed) (sp_now s0 + claimTTL) pages claimed now
    eq_refl eq_refl Hst eq_refl Hl Ho _ s0 Hok eq_refl) as [Hcrash _].
  destruct (sp_wait _ _ d Hok1 (proj1 Hd)) as [Hok2 _].
  apply (recoverable_wait s0 (lk_ID claimed) (sp_now s0 + claimTTL) _ _ d Hok1) in Hcrash; [|lia..].
  destruct (stopped_lists_recoverable s0 (lk_ID claimed) (sp_now s0 + claimTTL) pages stops s1 ls s' Hok2 Hcrash Hrun) as (Hl'&Hk&Ho'&Hls).
  split.
  - intros l l' e Hin Hin' Hs Hs'. apply Hls in Hin, Hin'. apply (proves_shows s') in Hs, Hs'; [|done..].
    assert (lk_ID l = lk_ID l') as Hid by (by eapply Ho'). rewrite Hid in Hin. congruence.
  - intros l e Hin Hid Hs. apply (proves_shows s0) in Hs; [|done]. destruct (Hk _ e Hid Hs) as [j (l'&Hj&Hst'&He)].
    destruct (links_ok_stored s' j l' Hl' Hj) as [<- _]. exists l'. split; [by apply Hls|]. apply (proves_shows s'); [done|]. by exists l'.
Qed.

(** ** Writers side by side *)

Section writers.
Context {S : Type} `{StateList S}.
Context `{!Codec (Z * item), !Codec Link, !Codec tokens, !Codec claimMarker} {SL : Sealer} {Opens : @SealerSpec SL}.
Implicit Types s : S.

(** The revision an account's link is at. *)
Definition link_revision s id : option Z := lk_Revision <$> stored s id.

(** Among others, a write of a link is its last call: over the link as it stands then. *)
Lemma write_link_instant n m s id next own w s' : sp_ok (n + m) s → exec n (write_link id next) s own (Ok w) s' →
  (∀ cur l, next cur = Some l → lk_ID l = id) →
  ∃ before s1 s2, own = before ++ [(s1, s2)] ∧ quiet before ∧
    match w with
    | None => s2 = s1
    | Some l' => ∃ l, next (stored s1 id) = Some l ∧ l' = with_Revision (default 0 (link_revision s1 id) + 1)%Z l ∧
        stored s2 id = Some (as_stored l')
    end.
Proof.
  intros Hok Hx Hid. destruct (edit_instant _ _ _ _ _ _ _ _ _ Hok Hx) as (before&s1&s2&j&->&Hq&_&[Hend|(?&_&_)]); [|done].
  exists before, s1, s2. split_and!; [done..|].
  assert (∀ s0, editItem_change (write_change id next) (value_at s0 (ghLinkKey id)) =
    match next (stored s0 id) with
    | None => (Keep, None)
    | Some l => let l := with_Revision (default 0 (link_revision s0 id) + 1)%Z l in
        match links_encode l with Ok it => (Change (encodeItem it), Some l) | Err e => (Refuse e, None) end
    end) as Hchange.
  { intros s0. unfold editItem_change, write_change, link_revision. fold (stored s0 id). destruct (next (stored s0 id)) as [l|]; [|done].
    destruct (stored s0 id); cbn; by destruct (links_encode _). }
  inversion Hend as [next' rev w' Hch Hw|w' Hch|s0 w' _ Hch|w' Hch Heq|e w' Hch|s0 next' e w' _ Hch]; subst; rewrite Hchange in Hch;
    destruct (next (stored _ id)) as [l|] eqn:Hnext; try (injection Hch as <-); try done;
    cbn in Hch; destruct (links_encode _) as [it|e'] eqn:Henc; try done.
  injection Hch as <- <-. exists l. split_and!; [done..|]. apply links_roundtrip in Henc. cbn [lk_ID with_Revision] in Henc.
  rewrite (Hid _ _ Hnext) in Henc. destruct Hw as (_&_&Hkey&_). unfold stored, value_at. rewrite Hkey. exact Henc.
Qed.

Lemma Update_one n m s c own written s' : sp_ok (n + m) s → exec n (GitHubLinks_Update [c]) s own (Ok written) s' →
  ∃ before s1 s2, own = before ++ [(s1, s2)] ∧ quiet before ∧
    (written = [] ∧ s2 = s1 ∨
     written = [with_Revision (lk_Revision c + 1) c] ∧ link_revision s1 (lk_ID c) = Some (lk_Revision c) ∧
     link_revision s2 (lk_ID c) = Some (lk_Revision c + 1)%Z).
Proof.
  intros Hok Hx. unfold GitHubLinks_Update in Hx. cbn [fmap list_fmap write_each] in Hx.
  apply exec_bind in Hx as (n1&n2&own1&own2&[w|e]&s1&->&->&Hw&Hrest); [|by destruct Hrest as (_&_&?)].
  destruct Hrest as (_&->&[= ->]). rewrite <- Nat.add_assoc in Hok.
  destruct (write_link_instant _ _ _ _ _ _ _ _ Hok Hw) as (before&t1&t2&->&Hq&Hwrote).
  { intros [cur|] l; [|done]. cbn. case_bool_decide; [|done]. by intros [= <-]. }
  exists before, t1, t2. split_and!; [by rewrite app_nil_r|done|]. destruct w as [l'|]; [right|by left].
  destruct Hwrote as (l&Hnext&->&Hst). destruct (stored t1 (lk_ID c)) as [cur|] eqn:Hcur; [|done]. cbn in Hnext.
  case_bool_decide as Hrev; [|done]. injection Hnext as <-. unfold link_revision in *. rewrite Hcur in *. rewrite Hst. cbn. by rewrite Hrev.
Qed.
End writers.

(** C27: a refresh token is spent once.  Two replicas that read an account's link at one
    revision and both write it back - the marker before a refresh, say - share the store
    in whatever order their calls go: when both are done, at most one of them wrote. *)
Theorem Update_once {S} `{StateList S} `{!Codec (Z * item), !Codec Link, !Codec tokens} {SL : Sealer} {Opens : @SealerSpec SL}
    schedule (s : S) a b wrote_a wrote_b s' :
  sp_ok (length schedule) s → lk_ID a = lk_ID b → lk_Revision a = lk_Revision b →
  interleaved schedule (GitHubLinks_Update [a]) (GitHubLinks_Update [b]) s = (Ret (Ok wrote_a), Ret (Ok wrote_b), s') →
  wrote_a = [] ∨ wrote_b = [].
Proof.
  intros Hok Hid Hrev Hi. destruct (interleaved_timeline _ _ _ _ _ _ _ Hi) as (tl&Hlen&Hch&Ha&Hb).
  assert (sp_ok (length tl + 0) s) as Hok'.
  { apply (sp_ok_less (length schedule - length tl)). by replace (length schedule - length tl + (length tl + 0)) with (length schedule) by lia. }
  destruct (Update_one _ _ _ _ _ _ _ Hok' Ha) as (before1&s1&s2&Hown1&Hq1&[[-> _]|(_&Hr1&Hr2)]); [by left|].
  destruct (Update_one _ _ _ _ _ _ _ Hok' Hb) as (before2&t1&t2&Hown2&Hq2&[[-> _]|(_&Ht1&Ht2)]); [by right|].
  rewrite Hid in Hr1, Hr2. rewrite Hrev in Hr1, Hr2.
  destruct (last_writers _ _ _ _ _ _ _ _ _ Hch Hown1 Hown2 Hq1 Hq2) as [->| ->].
  - rewrite Hr2 in Ht1. injection Ht1. lia.
  - rewrite Ht2 in Hr1. injection Hr1. lia.
Qed.

(** ** Documents to evaluate with *)

Definition link_doc (l : Link) : list Z * (list string * list string) :=
  ([lk_Version l; lk_ID l; lk_AppID l; lk_LinkedAt l; lk_CheckedAt l; lk_ChangedAt l; lk_Revision l;
    lk_AccessExpires l; lk_RefreshExpires l; lk_RefreshingSince l],
   ([lk_Login l; lk_Source l; lk_Note l; lk_State l; lk_Reason l; lk_AccessToken l; lk_RefreshToken l], lk_Emails l)).
Definition link_undoc (x : list Z * (list string * list string)) : Link :=
  match x with
  | ([v; id; app; linked; checked; changed; rev; access; refresh; since],
     ([login; source; note; state; reason; atok; rtok], emails)) =>
      mkLink v id login source note app emails state reason linked checked changed rev atok access rtok refresh since
  | _ => mkLink 0 0 "" "" "" 0 [] "" "" 0 0 0 0 "" 0 "" 0 0
  end.
Lemma link_undoc_doc l : link_undoc (link_doc l) = l.
Proof. by destruct l. Qed.
#[export] Instance Link_codec : Codec Link := iso_codec link_doc link_undoc link_undoc_doc.

Lemma tokens_back t : mkTokens (tk_Access t, tk_Refresh t).1 (tk_Access t, tk_Refresh t).2 = t.
Proof. by destruct t. Qed.
#[export] Instance tokens_codec : Codec tokens := iso_codec (λ t, (tk_Access t, tk_Refresh t)) (λ x, mkTokens x.1 x.2) tokens_back.

Definition marker_doc (m : claimMarker) : Z * (string * (list string * Z)) := (cm_ID m, (cm_Login m, (cm_Emails m, cm_At m))).
Definition marker_undoc (x : Z * (string * (list string * Z))) : claimMarker := mkMarker x.1 x.2.1 x.2.2.1 x.2.2.2.
Lemma marker_undoc_doc m : marker_undoc (marker_doc m) = m.
Proof. by destruct m. Qed.
#[export] Instance claimMarker_codec : Codec claimMarker := iso_codec marker_doc marker_undoc marker_undoc_doc.

(** ** Evaluated *)

Definition self_link (id : Z) login emails : Link :=
  mkLink 1 id login SourceSelf "" 77 emails StateLinked "" 10 0 0 0 "access" 50 "refresh" 90 0.
Definition ann : Link := self_link 1 "ann" ["ann@acme.test"].
Definition ann_again : Link := self_link 2 "ann2" ["Ann@Acme.test "; "ann@work.test"].
#[local] Existing Instance key_sealer.

Definition linked_store : Store := (run (GitHubLinks_Claim 9 ann 20) (New 0)).2.
Definition read_links (r : result items_error (list Link) * Store) : list (Z * list string * string * Z) :=
  match r.1 with Ok ls => (λ l, (lk_ID l, lk_Emails l, lk_State l, lk_Revision l)) <$> ls | Err _ => [] end.

Example claimed_alone : read_links (run (GitHubLinks_List 9) (run (GitHubLinks_Claim 9 ann_again 30) linked_store).2) =
  [(1%Z, [], StateLost, 2%Z); (2%Z, ["ann@acme.test"; "ann@work.test"], StateLinked, 1%Z)].
Proof. vm_compute. reflexivity. Qed.

(** what a claim in the middle of another does: both lose the address.  Two people, or
    one with two accounts, link with one verified address at about the same time: each
    has written its own link before the other narrows, so each takes the address from
    the other, and the address is proven by nobody, though a claim promises never that. *)
Lemma claims_lose_both :
  let '(first, second, s) := interleaved (repeat true 3 ++ repeat false 20 ++ repeat true 20)
    (GitHubLinks_Claim 9 ann 20) (GitHubLinks_Claim 9 (self_link 2 "ann2" ["ann@acme.test"]) 30) (New 0) in
  (∃ r, first = Ret (Ok r)) ∧ (∃ r, second = Ret (Ok r)) ∧
  read_links (run (GitHubLinks_List 9) s) = [(1%Z, [], StateLost, 2%Z); (2%Z, [], StateLost, 2%Z)].
Proof. vm_compute. split_and!; [by eexists..|reflexivity]. Qed.

(** an adoption beside a claim shares an address.  A match from a profile that was
    decided before a claim and written after it checks that its account has no link,
    and not that its addresses are still free: two accounts prove one address from then
    on, with no marker to tell. *)
Definition matched : Link := mkLink 1 1 "ann" SourceProfile "" 0 ["ann@acme.test"] StateLinked "" 10 0 0 0 "" 0 "" 0 0.
Lemma adoption_shares :
  let '(first, second, s) := interleaved (repeat true 2 ++ repeat false 20 ++ repeat true 20)
    (GitHubLinks_Adopt 9 [matched]) (GitHubLinks_Claim 9 (self_link 2 "ann2" ["ann@acme.test"]) 30) (New 0) in
  (∃ r, first = Ret (Ok r)) ∧ (∃ r, second = Ret (Ok r)) ∧
  read_links (run (GitHubLinks_List 9) s) =
    [(1%Z, ["ann@acme.test"], StateLinked, 1%Z); (2%Z, ["ann@acme.test"], StateLinked, 1%Z)].
Proof. vm_compute. split_and!; [by eexists..|reflexivity]. Qed.

(** a link that cannot be opened is nobody's.  While the key-encryption key cannot be
    reached to open a person's tokens, a claim by another account does not narrow their
    link, so both prove the address once it can be; and an adoption takes it for no link
    at all and replaces what the person made, at its first revision. *)
Lemma unopened_is_nobodys :
  read_links (run (GitHubLinks_List 9)
    (run (GitHubLinks_Claim (SL := key_sealer_down) 9 (self_link 2 "ann2" ["ann@acme.test"]) 30) linked_store).2) =
    [(1%Z, ["ann@acme.test"], StateLinked, 1%Z); (2%Z, ["ann@acme.test"], StateLinked, 1%Z)] ∧
  (λ l, (lk_Source l, lk_RefreshToken l, lk_Revision l)) <$>
    match (run (GitHubLinks_List 9) (run (GitHubLinks_Update [with_Checked "ann" 40 (with_Revision 1 ann)]) linked_store).2).1 with Ok ls => ls | Err _ => [] end =
    [(SourceSelf, "refresh", 2%Z)] ∧
  (λ l, (lk_Source l, lk_RefreshToken l, lk_Revision l)) <$>
    match (run (GitHubLinks_List 9) (run (GitHubLinks_Adopt (SL := key_sealer_down) 9 [matched])
      (run (GitHubLinks_Update [with_Checked "ann" 40 (with_Revision 1 ann)]) linked_store).2).2).1 with Ok ls => ls | Err _ => [] end =
    [(SourceProfile, "", 1%Z)].
Proof. vm_compute. split_and!; reflexivity. Qed.

(** one bad entry hides every good one, when a claim's marker names it: the list then
    fails until the marker ends. *)
Lemma bad_entry_hides_all :
  (run (links_list 9) (st_Put linked_store (ghLinkKey 2) "?" 0).2).1 = Ok [with_Revision 1 ann] ∧
  (run (GitHubLinks_List 9) (st_Put (st_Put linked_store (ghLinkKey 2) "?" 0).2
     (claim_key 2) (encode_doc (mkMarker 2 "ann2" ["ann@acme.test"] 30)) claimTTL).2).1 = Err (EUnreadable (ghLinkKey 2)).
Proof. vm_compute. split; reflexivity. Qed.

(** ** Witnesses *)

Lemma linked_store_ok : links_ok linked_store ∧ one_account linked_store ∧ sp_ok 1000 linked_store.
Proof.
  assert (sp_ok (calls (GitHubLinks_Claim 9 ann 20) (New 0) + 1000) (New 0)) as Hok by (apply New_ok; vm_compute; reflexivity).
  assert (∀ key, sp_view (New 0) key = None) as Hnone by done.
  assert (links_ok (New 0) ∧ one_account (New 0)) as [Hl Ho].
  { split; [by intros key r; rewrite Hnone|]. intros i j e (l&Hi&_). unfold stored, value_at in Hi. by rewrite Hnone in Hi. }
  destruct (hoare_Claim (New 0) (with_Emails (Normalise (lk_Emails ann)) ann) 1 (sp_now (New 0) + claimTTL) 9 ann 20
    eq_refl eq_refl eq_refl eq_refl Hl Ho _ _ Hok eq_refl) as [_ Hpost].
  destruct (run (GitHubLinks_Claim 9 ann 20) (New 0)) as [[ls|e] s'] eqn:Hrun; [|by vm_compute in Hrun].
  assert (linked_store = s') as -> by (unfold linked_store; by rewrite Hrun).
  destruct (Hpost ls eq_refl) as (?&_&?&_). split_and!; [done..|]. apply run_ok in Hok. by rewrite Hrun in Hok.
Qed.

Definition crashed_store : Store := st_wait (crash 3 (GitHubLinks_Claim 9 ann_again 30) linked_store) 1000.

Definition recovered : result items_error (list Link) * Store := run (GitHubLinks_List 9) (stopped_lists 9 [4; 1] crashed_store).
Definition recovered_links : list Link := match recovered.1 with Ok ls => ls | Err _ => [] end.

Lemma claim_survives_crashes_witness : recovered = (Ok recovered_links, recovered.2) ∧ length recovered_links = 2 ∧
  ((∀ l l' e, l ∈ recovered_links → l' ∈ recovered_links → shows l e → shows l' e → l = l') ∧
   ∀ l e, stored linked_store (lk_ID l) = Some l → lk_ID l ≠ lk_ID ann_again → shows l e → ∃ l', l' ∈ recovered_links ∧ shows l' e).
Proof.
  assert (recovered = (Ok recovered_links, recovered.2)) as Hrun by (vm_compute; reflexivity).
  split; [exact Hrun|]. split; [vm_compute; reflexivity|].
  destruct linked_store_ok as (Hl&Ho&Hok).
  apply (claim_survives_crashes 9 linked_store ann_again 30 3 1000 [4; 1] recovered_links recovered.2);
    [|exact Hl|exact Ho|reflexivity|split; [done|vm_compute; reflexivity]|exact Hrun].
  match goal with |- sp_ok ?n _ => assert (n <= 1000) as Hle by (apply Nat.leb_le; vm_compute; reflexivity);
    apply (sp_ok_less (1000 - n)); by replace (1000 - n + n) with 1000 by lia end.
Defined.

Definition raced : prog call (result items_error (list Link)) * prog call (result items_error (list Link)) * Store :=
  interleaved [true; false; true; false; false; false] (GitHubLinks_Update [with_Revision 1 ann])
    (GitHubLinks_Update [with_Checked "ann" 40 (with_Revision 1 ann)]) linked_store.

Lemma raced_run : interleaved [true; false; true; false; false; false] (GitHubLinks_Update [with_Revision 1 ann])
    (GitHubLinks_Update [with_Checked "ann" 40 (with_Revision 1 ann)]) linked_store =
  (Ret (Ok [with_Revision 2 ann]), Ret (Ok []), raced.2).
Proof. vm_compute. reflexivity. Qed.

Lemma Update_once_witness :
  interleaved [true; false; true; false; false; false] (GitHubLinks_Update [with_Revision 1 ann])
    (GitHubLinks_Update [with_Checked "ann" 40 (with_Revision 1 ann)]) linked_store =
  (Ret (Ok [with_Revision 2 ann]), Ret (Ok []), raced.2) ∧
  ([with_Revision 2 ann] = [] ∨ ([] : list Link) = []).
Proof.
  split; [exact raced_run|]. destruct linked_store_ok as (_&_&Hok).
  exact (Update_once [true; false; true; false; false; false] linked_store (with_Revision 1 ann)
    (with_Checked "ann" 40 (with_Revision 1 ann)) [with_Revision 2 ann] [] raced.2 (sp_ok_less 994 6 linked_store Hok) eq_refl eq_refl raced_run).
Defined.
