(* ===== verification/Lease.v ===== *)
(** * Lease: one runner at a time on a target

    [internal/rails/lease.go], over any store that keeps the State port's
    promises: a lease is a [Create] with a lifetime, renewed with the revision its
    holder was given, released by deleting it only if it is still the holder's.
    Runners, and whatever else writes to the store, are a step relation; [keep] is
    the loop that renews a lease while a tick runs.

    The theorems: at most one runner's lease on a target is good, however the
    steps interleave and however the clock moves; releasing a lease nobody may
    hold any more takes nothing from anybody; and how late a runner that cannot
    reach the store notices that its lease is gone. *)

From S2P Require Import Prelude GoStrings Base64 Port Memory.

Implicit Types (kind target key : string).

(** [internal/rails/lease.go:22-34 DefaultLeaseTTL]: two minutes. *)
Definition DefaultLeaseTTL : Z := 2 * 60 * 1000000000.
(** [internal/rails/lease.go:22-34 leaseKeyPrefix] *)
Definition leaseKeyPrefix : string := "lease.".

(** [internal/rails/lease.go:36-41 ErrHeld]; any other error is the State's. *)
Inductive lease_error := ErrHeld | ErrLost | ErrState (e : port_error).

(** [internal/rails/lease.go:type Leases] *)
Record Leases := mkLeases { ls_Holder : string; ls_TTL : Z }.

(** [internal/rails/lease.go:Leases.ttl] *)
Definition lease_ttl (l : Leases) : Z := if (0 <? ls_TTL l)%Z then ls_TTL l else DefaultLeaseTTL.

(** [internal/rails/lease.go:Key] *)
Definition Key kind target : string := leaseKeyPrefix +:+ kind +:+ ":" +:+ target.

(** [internal/rails/lease.go:type Lease] *)
Record Lease := mkLease { le_owner : Leases; le_key : string; le_rev : string }.

Section operations.
Context {S : Type} `{State S}.

(** [internal/rails/lease.go:Leases.Acquire] *)
Definition Acquire (l : Leases) (s : S) kind target : result lease_error Lease * S :=
  let key := Key kind target in
  let '(r, s) := st_Create s key (ls_Holder l) (lease_ttl l) in
  (match r with
   | Ok rev => Ok (mkLease l key rev)
   | Err ErrExists => Err ErrHeld
   | Err e => Err (ErrState e)
   end, s).

(** [internal/rails/lease.go:Lease.Renew]; the lease with its new revision. *)
Definition Renew (x : Lease) (s : S) : result lease_error Lease * S :=
  let '(r, s) := st_Update s (le_key x) (ls_Holder (le_owner x)) (lease_ttl (le_owner x)) (le_rev x) in
  (match r with
   | Ok rev => Ok (mkLease (le_owner x) (le_key x) rev)
   | Err ErrConflict | Err ErrNotFound => Err ErrLost
   | Err e => Err (ErrState e)
   end, s).

(** [internal/rails/lease.go:Lease.Release] *)
Definition Release (x : Lease) (s : S) : result lease_error unit * S :=
  let '(r, s) := st_DeleteIfRevision s (le_key x) (le_rev x) in
  (match r with
   | Ok u => Ok u
   | Err ErrConflict | Err ErrNotFound => Ok tt
   | Err e => Err (ErrState e)
   end, s).

(** [internal/rails/lease.go:Leases.Do]; [tick] stands for the tick and the renewals
    [keep] makes while it runs, and gives back the lease as last renewed.  The
    answer is whether it ran, and the error. *)
Definition Do (l : Leases) (s : S) kind target (tick : Lease → S → Lease * S) : bool * option lease_error * S :=
  match Acquire l s kind target with
  | (Err ErrHeld, s) => (false, None, s)
  | (Err e, s) => (false, Some e, s)
  | (Ok x, s) => let '(x, s) := tick x s in (true, None, (Release x s).2)
  end.
End operations.

(** ** Keeping a lease *)

(** What one tick of [keep] saw: what [Renew] answered, whether the context had
    ended by then, and the time at that point. *)
Inductive renewal := Renewed | Lost | Failed.
Record keep_tick := mkTick { kt_renewal : renewal; kt_over : bool; kt_now : Z }.
Inductive keep_end := Over | Cancelled (at_ : Z) | Keeping (lastGood : Z).

(** [internal/rails/lease.go:Leases.keep] *)
Fixpoint keep (ttl lastGood : Z) (ticks : list keep_tick) : keep_end :=
  match ticks with
  | [] => Keeping lastGood
  | t :: rest =>
      match kt_renewal t with
      | Renewed => keep ttl (kt_now t) rest
      | Lost => Cancelled (kt_now t)
      | Failed =>
          if kt_over t then Over
          else if (ttl <=? kt_now t - lastGood)%Z then Cancelled (kt_now t)
          else keep ttl lastGood rest
      end
  end.

(** ** Runners sharing a store *)

Section exclusion.
Context {S : Type} `{StateSpec S}.

(** The store, and the leases runners believe they hold. *)
Definition system : Type := S * list Lease.

(** A lease is good when renewing it would succeed. *)
Definition good (s : S) (x : Lease) : Prop := ∃ r, sp_view s (le_key x) = Some r ∧ lv_rev r = le_rev x.

(** A key no lease uses. *)
Definition other_key key : Prop := ∀ kind target, key ≠ Key kind target.

(** What happens to the store and the runners: leases taken, refused, renewed,
    lost, released or forgotten by a runner that died; answers that never arrive;
    writes and deletions of other keys; time. *)
Inductive step : system → system → Prop :=
  | step_acquire l kind target s x s' leases :
      Acquire l s kind target = (Ok x, s') → step (s, leases) (s', leases ++ [x])
  | step_refused l kind target s e s' leases :
      Acquire l s kind target = (Err e, s') → step (s, leases) (s', leases)
  | step_renew i x s x' s' leases : leases !! i = Some x →
      Renew x s = (Ok x', s') → step (s, leases) (s', <[i := x']> leases)
  | step_unanswered_acquire l kind target s x s' leases :
      Acquire l s kind target = (Ok x, s') → step (s, leases) (s', leases)
  | step_unanswered_renew i x s x' s' leases : leases !! i = Some x →
      Renew x s = (Ok x', s') → step (s, leases) (s', leases)
  | step_lost i x s e s' leases : leases !! i = Some x →
      Renew x s = (Err e, s') → step (s, leases) (s', delete i leases)
  | step_release i x s s' leases : leases !! i = Some x →
      (Release x s).2 = s' → step (s, leases) (s', delete i leases)
  | step_forget i s leases : step (s, leases) (s, delete i leases)
  | step_write key value ttl s leases : other_key key →
      step (s, leases) ((st_Put s key value ttl).2, leases)
  | step_delete key s leases : other_key key → step (s, leases) (st_Delete s key, leases)
  | step_wait d s leases : (0 <= d)%Z → step (s, leases) (st_wait s d, leases).

(** The holder's name fits in a record. *)
Definition holder_fits (l : Leases) : Prop := (Z.of_nat (String.length (ls_Holder l)) <= 262144)%Z.

Lemma lease_ttl_pos l : (0 < lease_ttl l)%Z.
Proof. unfold lease_ttl. by destruct (Z.ltb_spec 0 (ls_TTL l)). Qed.

Lemma lease_write_ok l key : holder_fits l → CheckWrite key (ls_Holder l) (lease_ttl l) = None.
Proof. intros Hl. apply CheckWrite_none. split; [done|left; apply lease_ttl_pos]. Qed.

Lemma lease_write_refused l key : ¬ holder_fits l → CheckWrite key (ls_Holder l) (lease_ttl l) = Some ErrTooLarge.
Proof.
  unfold holder_fits, CheckWrite. change MaxValue with 262144%Z. intros Hl. by rewrite (proj2 (Z.ltb_lt _ _)) by lia.
Qed.

(** What a write of a lease's record does. *)
Definition takes (s : S) (l : Leases) key rev (s' : S) : Prop :=
  written sp_view sp_issued (sp_now s) s key (ls_Holder l) (lease_ttl l) rev s'.

Lemma Acquire_cases n l s kind target : sp_ok (Datatypes.S n) s → holder_fits l →
  (is_Some (sp_view s (Key kind target)) ∧ Acquire l s kind target = (Err ErrHeld, s)) ∨
  (sp_view s (Key kind target) = None ∧ ∃ rev s', Acquire l s kind target = (Ok (mkLease l (Key kind target) rev), s') ∧
    sp_ok n s' ∧ sp_now s' = sp_now s ∧ takes s l (Key kind target) rev s').
Proof.
  intros Hok Hl. unfold Acquire.
  destruct (sp_Create n s (Key kind target) (ls_Holder l) (lease_ttl l) Hok (lease_write_ok _ _ Hl))
    as [[Hs ->]|(Hs&rev&s'&->&Hok'&Hnow&Hw)]; [by left|right].
  split; [done|]. exists rev, s'. by split_and!.
Qed.

Lemma Renew_cases n x s : sp_ok (Datatypes.S n) s → holder_fits (le_owner x) →
  (¬ good s x ∧ Renew x s = (Err ErrLost, s)) ∨
  (good s x ∧ ∃ rev s', Renew x s = (Ok (mkLease (le_owner x) (le_key x) rev), s') ∧
    sp_ok n s' ∧ sp_now s' = sp_now s ∧ takes s (le_owner x) (le_key x) rev s').
Proof.
  intros Hok Hl. unfold Renew, good.
  destruct (sp_Update n s (le_key x) (ls_Holder (le_owner x)) (lease_ttl (le_owner x)) (le_rev x) Hok (lease_write_ok _ _ Hl))
    as [[Hs ->]|(r&Hs&[[Hne ->]|(Heq&rev&s'&->&Hok'&Hnow&Hw)])].
  - left. split; [|done]. intros (r&Hr&_). congruence.
  - left. split; [|done]. intros (r'&Hr&?). congruence.
  - right. split; [by exists r|]. exists rev, s'. by split_and!.
Qed.

Lemma Release_cases n x s : sp_ok n s →
  (¬ good s x ∧ Release x s = (Ok tt, s)) ∨ (good s x ∧ Release x s = (Ok tt, st_Delete s (le_key x))).
Proof.
  intros Hok. unfold Release, good. destruct (sp_DeleteIfRevision n s (le_key x) (le_rev x) Hok) as [[Hs ->]|(r&Hs&[[Hne ->]|[Heq ->]])].
  - left. split; [|done]. intros (r&Hr&_). congruence.
  - left. split; [|done]. intros (r'&Hr&?). congruence.
  - right. split; [by exists r|done].
Qed.

(** ** The invariant *)

(** A lease's revision was given out for its key and its holder, and stands for
    nothing else. *)
Definition sound (s : S) (x : Lease) : Prop :=
  sp_issued s (le_rev x) ∧ ∀ key r, sp_view s key = Some r → lv_rev r = le_rev x →
    key = le_key x ∧ lv_value r = ls_Holder (le_owner x).

Definition inv (n : nat) (c : system) : Prop :=
  sp_ok n c.1 ∧ NoDup (le_rev <$> c.2) ∧ Forall (sound c.1) c.2.

Lemma sound_written s key value ttl rev s' now x :
  written sp_view sp_issued now s key value ttl rev s' → sound s x → sound s' x.
Proof.
  intros (Hnew&Hiss&Hkey&Hother) [Hx Hview]. split; [apply Hiss; by left|]. intros k r Hr Hrev.
  destruct (decide (k = key)) as [->|Hk]; [|rewrite Hother in Hr by done; by apply Hview].
  rewrite Hkey in Hr. injection Hr as <-. simpl in Hrev. subst rev. done.
Qed.

Lemma sound_taken s l key rev s' : takes s l key rev s' →
  (∀ k r, sp_view s k = Some r → sp_issued s (lv_rev r)) → sound s' (mkLease l key rev).
Proof.
  intros (Hnew&Hiss&Hkey&Hother) Hlive. split; [apply Hiss; by right|]. simpl. intros k r Hr Hrev.
  destruct (decide (k = key)) as [->|Hk]; [rewrite Hkey in Hr; by injection Hr as <-|].
  rewrite Hother in Hr by done. destruct Hnew. rewrite <- Hrev. by eapply Hlive.
Qed.

Lemma fresh_rev s rev (leases : list Lease) : ¬ sp_issued s rev → Forall (sound s) leases → rev ∉ le_rev <$> leases.
Proof.
  intros Hnew Hall (x&->&Hx)%list_elem_of_fmap. destruct Hnew. by apply (proj1 (Forall_forall _ _) Hall x Hx).
Qed.

Lemma inv_weaken n c : inv (Datatypes.S n) c → inv n c.
Proof. intros (?&?&?). split_and!; auto using sp_weaken. Qed.

Lemma inv_shrunk n s s' leases : sp_ok n s' → (∀ r, sp_issued s' r ↔ sp_issued s r) →
  (∀ key, sp_view s' key = sp_view s key ∨ sp_view s' key = None) →
  NoDup (le_rev <$> leases) → Forall (sound s) leases → inv n (s', leases).
Proof.
  intros Hok Hiss Hview Hnd Hall. split_and!; [done..|]. simpl. apply (Forall_impl (sound s)); [done|].
  intros x [Hx Hv]. split; [by apply Hiss|]. intros key r Hr. destruct (Hview key) as [Heq|Heq]; rewrite Heq in Hr; [|done].
  by apply Hv.
Qed.

Lemma inv_delete n i s leases : inv n (s, leases) → inv n (s, delete i leases).
Proof.
  intros (Hok&Hnd&Hall). split_and!; [done| |by apply Forall_delete]. simpl. rewrite list_fmap_delete.
  eapply sublist_NoDup; [exact Hnd|apply sublist_delete].
Qed.

Lemma NoDup_insert_fresh {A} (l : list A) i x : NoDup l → x ∉ l → NoDup (<[i:=x]> l).
Proof.
  rewrite !NoDup_alt. intros Hnd Hx i1 i2 y. rewrite !list_lookup_insert_Some.
  assert (∀ k, l !! k ≠ Some x) as Hno by (intros k Hk; by apply Hx, (list_elem_of_lookup_2 _ k)).
  intros [(<-&<-&_)|[_ H1]] [(<-&Heq&_)|[_ H2]]; subst; try done; [by destruct (Hno i2)|by destruct (Hno i1)|by eapply Hnd].
Qed.

(** A write of a lease's record, by whoever made it. *)
Lemma inv_takes n s l key rev s' leases : inv (Datatypes.S n) (s, leases) → sp_ok n s' → takes s l key rev s' →
  inv n (s', leases) ∧ inv n (s', leases ++ [mkLease l key rev]) ∧ ∀ i, inv n (s', <[i := mkLease l key rev]> leases).
Proof.
  intros (Hok&Hnd&Hall) Hok' Ht. simpl in *.
  assert (Forall (sound s') leases) as Hall'.
  { apply (Forall_impl (sound s)); [done|]. intros x. eapply sound_written, Ht. }
  assert (rev ∉ le_rev <$> leases) as Hfresh by (eapply fresh_rev; [apply Ht|done]).
  assert (sound s' (mkLease l key rev)) as Hs.
  { eapply sound_taken; [exact Ht|]. intros k r Hr. by destruct (sp_live _ _ _ _ Hok Hr). }
  split_and!; [by split_and!| |intros i]; (split_and!; [done|..]); simpl.
  - rewrite fmap_app. apply NoDup_app. split_and!; [done| |apply NoDup_singleton].
    intros r Hr ->%list_elem_of_singleton. done.
  - apply Forall_app. split; [done|]. by apply Forall_singleton.
  - rewrite list_fmap_insert. by apply NoDup_insert_fresh.
  - by apply Forall_insert.
Qed.

Lemma inv_Acquire n l s kind target leases r s' : inv (Datatypes.S n) (s, leases) → Acquire l s kind target = (r, s') →
  inv n (s', leases) ∧ ∀ x, r = Ok x → inv n (s', leases ++ [x]).
Proof.
  intros Hinv Hacq. pose proof Hinv as (Hok&_&_). simpl in Hok.
  destruct (decide (Z.of_nat (String.length (ls_Holder l)) <= 262144)%Z) as [Hfit|Hfit].
  - destruct (Acquire_cases n l s kind target Hok Hfit) as [[_ Heq]|(_&rev&s2&Heq&Hok'&_&Ht)]; rewrite Heq in Hacq;
      injection Hacq as <- <-.
    + split; [by apply inv_weaken|done].
    + destruct (inv_takes n s l _ rev s2 leases Hinv Hok' Ht) as (?&?&_). split; [done|]. by intros x [= <-].
  - unfold Acquire in Hacq. destruct (sp_refused _ s (Key kind target) (ls_Holder l) (lease_ttl l) "" _ Hok
      (lease_write_refused l _ Hfit)) as (_&Heq&_). rewrite Heq in Hacq. injection Hacq as <- <-.
    split; [by apply inv_weaken|done].
Qed.

Lemma inv_Renew n x s leases r s' : inv (Datatypes.S n) (s, leases) → Renew x s = (r, s') →
  inv n (s', leases) ∧ ∀ x' i, r = Ok x' → inv n (s', <[i := x']> leases).
Proof.
  intros Hinv Hren. pose proof Hinv as (Hok&_&_). simpl in Hok.
  destruct (decide (Z.of_nat (String.length (ls_Holder (le_owner x))) <= 262144)%Z) as [Hfit|Hfit].
  - destruct (Renew_cases n x s Hok Hfit) as [[_ Heq]|(_&rev&s2&Heq&Hok'&_&Ht)]; rewrite Heq in Hren; injection Hren as <- <-.
    + split; [by apply inv_weaken|done].
    + destruct (inv_takes n s _ _ rev s2 leases Hinv Hok' Ht) as (?&_&?). split; [done|]. by intros x' i [= <-].
  - unfold Renew in Hren. destruct (sp_refused _ s (le_key x) (ls_Holder (le_owner x)) (lease_ttl (le_owner x)) (le_rev x) _ Hok
      (lease_write_refused _ (le_key x) Hfit)) as (_&_&Heq). rewrite Heq in Hren. injection Hren as <- <-.
    split; [by apply inv_weaken|done].
Qed.

Lemma inv_forget n s leases key : inv n (s, leases) → inv n (st_Delete s key, leases).
Proof.
  intros (Hok&Hnd&Hall). destruct (sp_Delete n s key Hok) as (Hok'&_&Hiss&Hnone&Hother).
  apply (inv_shrunk n s); [done..| |done|done]. intros k.
  destruct (decide (k = key)) as [->|?]; [by right|left; by apply Hother].
Qed.

Lemma inv_step n c c' : inv (Datatypes.S n) c → step c c' → inv n c'.
Proof.
  intros Hinv Hstep.
  destruct Hstep as [l kind target s x s' leases Ha|l kind target s e s' leases Ha|i x s x' s' leases Hi Hr
    |l kind target s x s' leases Ha|i x s x' s' leases Hi Hr|i x s e s' leases Hi Hr|i x s s' leases Hi Hr|i s leases
    |key value ttl s leases Hkey|key s leases Hkey|d s leases Hd].
  - by eapply (inv_Acquire n l s); [..|reflexivity].
  - by eapply (inv_Acquire n l s).
  - by eapply (inv_Renew n x s); [..|reflexivity].
  - by eapply (inv_Acquire n l s).
  - by eapply (inv_Renew n x s).
  - apply inv_delete. by eapply (inv_Renew n x s).
  - apply inv_delete, inv_weaken. subst s'. destruct Hinv as (Hok&Hinv). simpl in Hok.
    destruct (Release_cases _ x s Hok) as [[_ ->]|[_ ->]]; [by split|]. simpl. by apply inv_forget.
  - by apply inv_delete, inv_weaken.
  - pose proof Hinv as (Hok&Hnd&Hall). simpl in *. destruct (CheckWrite key value ttl) as [e|] eqn:Hc.
    + destruct (sp_refused _ s key value ttl "" e Hok Hc) as (->&_). by apply inv_weaken.
    + destruct (sp_Put n s key value ttl Hok Hc) as (rev&s'&->&Hok'&_&Hw). split_and!; [done..|]. simpl.
      apply (Forall_impl (sound s)); [done|]. intros x. by eapply sound_written.
  - by apply inv_weaken, inv_forget.
  - apply inv_weaken. destruct Hinv as (Hok&Hnd&Hall). simpl in *.
    destruct (sp_wait _ s d Hok Hd) as (Hok'&_&Hiss&Hview). apply (inv_shrunk _ s); [done..| |done|done].
    intros k. rewrite Hview. destruct (sp_view s k) as [r|]; [|by left]. destruct (alive _ _); [by left|by right].
Qed.

Lemma inv_steps n m c c' : nsteps step n c c' → inv (n + m) c → inv m c'.
Proof.
  induction 1 as [c|n c c2 c' Hs Hn IH]; intros Hinv; [done|]. apply IH. by eapply inv_step; [exact Hinv|].
Qed.

Lemma inv_start n s : sp_ok n s → inv n (s, []).
Proof. intros Hok. split_and!; [done|apply NoDup_nil_2|by apply Forall_nil]. Qed.

(** C24: two runners never hold one target.  From a store with no leases, whatever
    runners, other writers and the clock do in any order, and whatever answers are
    lost on the way, two leases on the same key that could both still be renewed
    are one and the same, and the store's record of it names its holder. *)
Theorem leases_exclusive n s0 s leases i j x y :
  sp_ok n s0 → nsteps step n (s0, []) (s, leases) →
  leases !! i = Some x → leases !! j = Some y → le_key x = le_key y → good s x → good s y →
  i = j ∧ ∃ r, sp_view s (le_key x) = Some r ∧ lv_value r = ls_Holder (le_owner x).
Proof.
  intros Hok Hsteps Hi Hj Hkey (r&Hr&Hrx) (r'&Hr'&Hry).
  destruct (inv_steps n 0 _ _ Hsteps) as (_&Hnd&Hall); [rewrite Nat.add_0_r; by apply inv_start|]. simpl in *.
  assert (r' = r) as -> by congruence. split.
  - apply (proj1 (NoDup_alt _) Hnd i j (lv_rev r)); rewrite list_lookup_fmap; [rewrite Hi|rewrite Hj]; simpl; congruence.
  - exists r. split; [done|]. apply (proj1 (Forall_lookup _ _) Hall i x Hi) in Hr as [_ ?]; done.
Qed.

(** releasing takes nothing from anybody.  A release of a lease that is still
    good frees its key and leaves every other record alone; of one that expired or
    was taken over it does nothing at all, and either way it reports success; so
    every other runner's good lease stays good. *)
Theorem Release_safe n s0 s leases i x :
  sp_ok n s0 → nsteps step n (s0, []) (s, leases) → leases !! i = Some x →
  let s' := (Release x s).2 in
  (Release x s).1 = Ok tt ∧
  (good s x → sp_view s' (le_key x) = None ∧ ∀ key, key ≠ le_key x → sp_view s' key = sp_view s key) ∧
  (¬ good s x → s' = s) ∧
  ∀ j y, leases !! j = Some y → j ≠ i → good s y → good s' y.
Proof.
  intros Hok Hsteps Hi. destruct (inv_steps n 0 _ _ Hsteps) as (Hok'&Hnd&Hall); [rewrite Nat.add_0_r; by apply inv_start|].
  simpl in *. destruct (Release_cases 0 x s Hok') as [[Hbad ->]|[Hgood ->]]; simpl; [by split_and!|].
  destruct (sp_Delete 0 s (le_key x) Hok') as (_&_&_&Hnone&Hother). split_and!; [done|done|done|].
  intros j y Hj Hne (r&Hr&Hrev). exists r. split; [|done]. rewrite Hother; [done|]. intros Hkey.
  destruct Hgood as (r'&Hr'&Hrev'). destruct Hne. rewrite Hkey in Hr.
  apply (proj1 (NoDup_alt _) Hnd j i (lv_rev r)); rewrite list_lookup_fmap; [rewrite Hj|rewrite Hi]; simpl; congruence.
Qed.

(** a lease is taken when nobody has it, and only then.  [Acquire] succeeds
    exactly when the target has no live record — never taken, released, or expired
    — and the lease it gives is good until its lifetime passes; otherwise it says
    the target is held and changes nothing.  [Renew] succeeds exactly on a good
    lease, and again for a whole lifetime; otherwise it says the lease is lost. *)
Theorem lease_life n l s kind target : sp_ok (Datatypes.S n) s → holder_fits l →
  let lasts s' x := ∀ d, (0 <= d)%Z → good (st_wait s' d) x ↔ (d < lease_ttl l)%Z in
  (sp_view s (Key kind target) = None → ∃ x s', Acquire l s kind target = (Ok x, s') ∧
     le_owner x = l ∧ le_key x = Key kind target ∧ lasts s' x) ∧
  (is_Some (sp_view s (Key kind target)) → Acquire l s kind target = (Err ErrHeld, s)) ∧
  (∀ x, le_owner x = l → good s x → ∃ x' s', Renew x s = (Ok x', s') ∧ le_owner x' = l ∧ le_key x' = le_key x ∧ lasts s' x') ∧
  (∀ x, le_owner x = l → ¬ good s x → Renew x s = (Err ErrLost, s)).
Proof.
  intros Hok Hfit lasts.
  assert (∀ key rev s', takes s l key rev s' → sp_now s' = sp_now s → sp_ok n s' → lasts s' (mkLease l key rev)) as Hlasts.
  { intros key rev s' (_&_&Hkey&_) Hnow Hok' d Hd. destruct (sp_wait n s' d Hok' Hd) as (_&Hnow'&_&Hview).
    unfold good. simpl. rewrite Hview, Hkey, Hnow', Hnow. pose proof (lease_ttl_pos l).
    rewrite (proj2 (Z.eqb_neq _ _)) by lia. simpl. destruct (Z.ltb_spec (sp_now s + d) (sp_now s + lease_ttl l)).
    - split; [lia|]. intros _. by eexists.
    - split; [by intros (?&?&_)|lia]. }
  split_and!.
  - intros Hs. destruct (Acquire_cases n l s kind target Hok Hfit) as [[[? ?] _]|(_&rev&s'&Ha&Hok'&Hnow&Ht)]; [congruence|].
    exists (mkLease l (Key kind target) rev), s'. split_and!; auto.
  - intros [r Hr]. destruct (Acquire_cases n l s kind target Hok Hfit) as [[_ ?]|(?&_)]; [done|congruence].
  - intros x <- Hgood. destruct (Renew_cases n x s Hok Hfit) as [[? _]|(_&rev&s'&Ha&Hok'&Hnow&Ht)]; [done|].
    exists (mkLease (le_owner x) (le_key x) rev), s'. split_and!; auto.
  - intros x <- Hbad. destruct (Renew_cases n x s Hok Hfit) as [[_ ?]|(?&_)]; done.
Qed.
(** Renewals that fail one after the other, no two further apart than [gap], up to
    one at least a lifetime after the last that did not. *)
Fixpoint failing (ttl gap lastGood prev : Z) (ticks : list keep_tick) : Prop :=
  match ticks with
  | [] => False
  | t :: rest =>
      kt_renewal t = Failed ∧ kt_over t = false ∧ (prev <= kt_now t <= prev + gap)%Z ∧
      ((lastGood + ttl <= kt_now t)%Z ∨ failing ttl gap lastGood (kt_now t) rest)
  end.

Lemma keep_failing ttl gap lastGood prev ticks : (prev < lastGood + ttl)%Z → failing ttl gap lastGood prev ticks →
  ∃ at_, keep ttl lastGood ticks = Cancelled at_ ∧ (lastGood + ttl <= at_ < lastGood + ttl + gap)%Z.
Proof.
  revert prev. induction ticks as [|t rest IH]; intros prev Hprev; [done|]. simpl. intros (->&->&[Hlo Hhi]&Hrest).
  destruct (Z.leb_spec ttl (kt_now t - lastGood)).
  - exists (kt_now t). split; [done|lia].
  - destruct Hrest as [?|Hrest]; [lia|]. eapply IH; [|done]. lia.
Qed.

(** a runner that cannot reach the store is stopped, and never before its lease
    has run out.  When every renewal after [lastGood] fails, [keep] cancels the tick
    at the first attempt a whole lifetime later, so within one gap between attempts
    of that; and by then, whenever the store is asked, the record the last renewal
    wrote is no longer good: another runner may already hold the target. *)
Theorem keep_late ttl gap lastGood ticks : (0 < ttl)%Z → failing ttl gap lastGood lastGood ticks →
  ∃ at_, keep ttl lastGood ticks = Cancelled at_ ∧ (lastGood + ttl <= at_ < lastGood + ttl + gap)%Z ∧
  ∀ n l s key rev s', sp_ok n s' → lease_ttl l = ttl → takes s l key rev s' → sp_now s' = sp_now s →
    (sp_now s <= lastGood)%Z → ¬ good (st_wait s' (at_ - sp_now s')) (mkLease l key rev).
Proof.
  intros Httl Hf. destruct (keep_failing ttl gap lastGood lastGood ticks) as (at_&Hk&Hlo&Hhi); [lia|done|].
  exists at_. split_and!; [done..|]. intros n l s key rev s' Hok Hl (_&_&Hkey&_) Hnow Hpast (r&Hr&_). simpl in Hr.
  destruct (sp_wait n s' (at_ - sp_now s') Hok) as (_&Hnow'&_&Hview); [lia|].
  rewrite Hview, Hkey, Hnow', Hl in Hr. rewrite (proj2 (Z.eqb_neq _ _)) in Hr by lia. simpl in Hr.
  rewrite (proj2 (Z.ltb_ge _ _)) in Hr by lia. done.
Qed.
End exclusion.

(** ** Witnesses: two runners on the in-memory store *)

Definition runner_a : Leases := mkLeases "host-a-1f" 0.
Definition runner_b : Leases := mkLeases "host-b-2e" (60 * 1000000000).
Definition lease_key : string := Key "slack-tick" "acme".
Definition store_a : Store := (Acquire runner_a (New 0) "slack-tick" "acme").2.
Definition store_expired : Store := wait store_a DefaultLeaseTTL.
Definition store_b : Store := (Acquire runner_b store_expired "slack-tick" "acme").2.
Definition sample_leases : list Lease := [mkLease runner_a lease_key "1"; mkLease runner_b lease_key "2"].

Lemma sample_takeover : nsteps step 3 (New 0, []) (store_b, sample_leases).
Proof.
  eapply nsteps_l; [eapply (step_acquire runner_a "slack-tick" "acme" _ (mkLease runner_a lease_key "1") store_a); vm_compute; reflexivity|].
  eapply nsteps_l; [apply (step_wait DefaultLeaseTTL); vm_compute; discriminate|].
  eapply nsteps_l; [eapply (step_acquire runner_b "slack-tick" "acme" _ (mkLease runner_b lease_key "2") store_b); vm_compute; reflexivity|].
  apply nsteps_O.
Qed.

Lemma sample_good : good store_b (mkLease runner_b lease_key "2").
Proof. eexists. split; vm_compute; reflexivity. Qed.

Lemma leases_exclusive_witness : ¬ good store_b (mkLease runner_a lease_key "1") ∧
  ∃ r, sp_view store_b lease_key = Some r ∧ lv_value r = "host-b-2e".
Proof.
  split.
  - intros Hgood. destruct (leases_exclusive 3 (New 0) store_b sample_leases 0 1
      (mkLease runner_a lease_key "1") (mkLease runner_b lease_key "2")) as [H _];
      [apply New_ok; lia|apply sample_takeover|reflexivity|reflexivity|reflexivity|exact Hgood|apply sample_good|discriminate].
  - destruct (leases_exclusive 3 (New 0) store_b sample_leases 1 1
      (mkLease runner_b lease_key "2") (mkLease runner_b lease_key "2")) as [_ H];
      [apply New_ok; lia|apply sample_takeover|reflexivity|reflexivity|reflexivity|apply sample_good|apply sample_good|exact H].
Defined.

Lemma Release_safe_witness : good (Release (mkLease runner_a lease_key "1") store_b).2 (mkLease runner_b lease_key "2").
Proof.
  destruct (Release_safe 3 (New 0) store_b sample_leases 0 (mkLease runner_a lease_key "1")) as (_&_&_&H);
    [apply New_ok; lia|apply sample_takeover|reflexivity|].
  apply (H 1 (mkLease runner_b lease_key "2")); [reflexivity|discriminate|apply sample_good].
Defined.

Lemma lease_life_witness : Acquire runner_b store_a "slack-tick" "acme" = (Err ErrHeld, store_a) ∧
  ∃ x s', Acquire runner_a (New 0) "slack-tick" "acme" = (Ok x, s') ∧ ¬ good (wait s' DefaultLeaseTTL) x.
Proof.
  split.
  - destruct (lease_life 5 runner_b store_a "slack-tick" "acme") as (_&H&_).
    + apply (inv_steps 1 6 (New 0, []) (store_a, [mkLease runner_a lease_key "1"])); [|apply inv_start, New_ok; lia].
      eapply nsteps_l; [eapply (step_acquire runner_a "slack-tick" "acme" _ (mkLease runner_a lease_key "1") store_a); vm_compute; reflexivity|apply nsteps_O].
    + vm_compute. discriminate.
    + apply H. eexists. vm_compute. reflexivity.
  - destruct (lease_life 5 runner_a (New 0) "slack-tick" "acme") as (H&_).
    + apply New_ok. lia.
    + vm_compute. discriminate.
    + destruct H as (x&s'&Ha&_&_&Hlast); [reflexivity|]. exists x, s'. split; [exact Ha|].
      intros Hgood. apply (Hlast DefaultLeaseTTL) in Hgood; [|vm_compute; discriminate]. vm_compute in Hgood. discriminate Hgood.
Defined.

(** Renewed at 40s of a two-minute lease and unreachable after: attempts every
    forty seconds that each take two to fail. *)
Definition sample_outage : list keep_tick :=
  [mkTick Failed false 82; mkTick Failed false 122; mkTick Failed false 162].

Lemma keep_late_witness : ∃ at_, keep 120 41 sample_outage = Cancelled at_ ∧ (161 <= at_ < 203)%Z.
Proof.
  destruct (keep_late (S := Store) 120 42 41 sample_outage) as (at_&Hk&Hb&_).
  - reflexivity.
  - unfold sample_outage. simpl. split_and!; try reflexivity; try lia. right. split_and!; try reflexivity; try lia. right. split_and!; try reflexivity; lia.
  - exists at_. split; [exact Hk|]. lia.
Defined.
