(* ===== verification/Rails.v ===== *)
(** * Rails: what the reconcilers share

    [internal/rails]: the policy guard on a console's answers, the two questions
    put to the directory, the rule a removal rests on ([Removal]), the removal
    breaker and its fingerprint, the ledger of held rows, the gate on requested
    passes, the dry-run switch and the pacing of passes.  Clients, logs, metrics
    and goroutines are outside: a question to the console is a function argument
    that returns an answer, its policy digest, or an error. *)

From S2P Require Import Prelude GoStrings Sha256.

Implicit Types (email group target key : string).

(** ** The policy guard *)

(** [internal/rails/policy.go:type PolicyGuard] *)
Record PolicyGuard := mkPolicyGuard { Digest : string }.

(** [internal/rails/policy.go:PolicyGuard.Check] *)
Definition PolicyGuard_Check (g : PolicyGuard) (digest : string) : bool :=
  negb (empty (Digest g)) && bool_decide (digest = Digest g).

Inductive ask_error (E : Type) : Type :=
| AskFailed (e : E)
| PolicyDiffers (digest : string).
Arguments AskFailed {E} e.
Arguments PolicyDiffers {E} digest.

(** [internal/rails/confirm.go:Confirm]; the notice given of each skipped
    candidate is its third result. *)
Fixpoint Confirm {E T} (candidates : list string) (guard : PolicyGuard) (ask : string → result E (T * string))
    (out : gmap string T) : gmap string T * bool * list (string * ask_error E) :=
  match candidates with
  | [] => (out, false, [])
  | candidate :: rest =>
      match ask candidate with
      | Err e =>
          let '(out', other, skipped) := Confirm rest guard ask out in
          (out', other, (candidate, AskFailed e) :: skipped)
      | Ok (value, digest) =>
          if PolicyGuard_Check guard digest then Confirm rest guard ask (<[candidate := value]> out)
          else
            let '(out', _, skipped) := Confirm rest guard ask out in
            (out', true, (candidate, PolicyDiffers digest) :: skipped)
      end
  end.

(** ** The directory's answers *)

(** [internal/rails/directory.go:type Holder] *)
Record Holder := mkHolder { hd_Email : string; hd_Live : bool }.

(** [internal/rails/directory.go:type Vouch] *)
Record Vouch := mkVouch {
  v_Authoritative : bool; v_Found : bool; v_Suspended : bool;
  v_Groups : list string; v_DirectoryGroups : list string }.

(** [internal/rails/directory.go:Vouch.Gone] *)
Definition Gone (v : Vouch) : bool := v_Authoritative v && (negb (v_Found v) || v_Suspended v).

Inductive holders_error (E : Type) : Type :=
| HoldersFailed (group : string) (e : E)
| HoldersPolicy (group digest : string).
Arguments HoldersFailed {E} group e.
Arguments HoldersPolicy {E} group digest.

(** [internal/rails/directory.go:Directory.Holders]; a truncated list is only
    logged, and so is not part of the answer here. *)
Definition Directory_Holders {E} (guard : PolicyGuard)
    (ListHolders : string → result E (list Holder * string)) (groups : list string)
    : result (holders_error E) (gmap string (list Holder)) :=
  fold_m (λ out group,
    match ListHolders group with
    | Err e => Err (HoldersFailed group e)
    | Ok (holders, digest) =>
        if PolicyGuard_Check guard digest then
          Ok (match holders with
              | [] => out
              | _ => <[group := default [] (out !! group) ++ holders]> out
              end)
        else Err (HoldersPolicy group digest)
    end) ∅ (compact (sort_strings groups)).

(** [internal/rails/directory.go:Directory.Vouch] *)
Definition Directory_Vouch {E} (guard : PolicyGuard) (Explain : string → result E (Vouch * string))
    (emails : list string) : gmap string Vouch * bool :=
  let '(out, other, _) := Confirm emails guard Explain ∅ in (out, other).

(** [internal/rails/directory.go:holdsAny] *)
Definition holdsAny (held wanted : list string) : bool := existsb (λ group, str_in group held) wanted.

(** [internal/rails/directory.go:Removal] *)
Fixpoint Removal (emails : list string) (vouches : gmap string Vouch) (wanted : list string) : string * bool :=
  match emails with
  | [] => ("", true)
  | email :: rest =>
      match vouches !! email with
      | None => ("the directory was not asked about " +:+ email, false)
      | Some v =>
          if negb (v_Authoritative v) then ("the directory cannot vouch for " +:+ email +:+ " right now", false)
          else if v_Found v && negb (v_Suspended v) &&
                  (holdsAny (v_Groups v) wanted || holdsAny (v_DirectoryGroups v) wanted)
               then ("", false)
          else Removal rest vouches wanted
      end
  end.

(** ** The breaker *)

(** [internal/rails/breaker.go:Fingerprint] *)
Definition Fingerprint (lines : list string) : string :=
  hex (take 8 (Sum256 (Join (sort_strings lines) (String "010"%char "")))).

(** [internal/rails/breaker.go:type Breaker] *)
Record Breaker := mkBreaker { b_Affected : nat; b_Total : nat; b_Fingerprint : string; b_Confirmed : bool }.

(** [internal/rails/breaker.go:CheckBreaker] *)
Definition CheckBreaker (affected : nat) (lines : list string) (total : nat) (confirmed : string) : option Breaker :=
  if (total =? 0) || (affected * 2 <=? total) then None
  else
    let fingerprint := Fingerprint lines in
    Some (mkBreaker affected total fingerprint (negb (empty confirmed) && bool_decide (confirmed = fingerprint))).

(** ** The ledger, the gate, the switch, the pace *)

Notation ledger := (gmap string (gset string)) (only parsing).

(** [internal/rails/ledger.go:Ledger.Fresh] *)
Definition Fresh (l : ledger) target (now seed : list string) : list bool * ledger :=
  let last := match l !! target with Some last => last | None => list_to_set seed end in
  ((λ key, negb (bool_decide (key ∈ last))) <$> now, <[target := list_to_set now]> l).

(** [internal/rails/pass.go:5-7 PassGap] *)
Definition PassGap : Z := 60 * 1000000000.

(** [internal/rails/pass.go:Gate]; [last] is [None] for the zero time. *)
Definition Gate (records : gmap string string) key (raw : string) (at_ : Z) (decode : string → option Z)
    : gmap string string * bool * option Z :=
  match records !! key ≫= decode with
  | Some prev =>
      if (at_ - prev <? PassGap)%Z then (records, false, Some prev) else (<[key := raw]> records, true, Some prev)
  | None => (<[key := raw]> records, true, None)
  end.

(** [internal/rails/dryrun.go:type Tick] *)
Record Tick := mkTick { tk_Changes : nat; tk_Held : nat; tk_Retrying : nat; tk_Waiting : nat }.

(** [internal/rails/dryrun.go:24-44 Outcome] *)
Inductive Outcome := OutcomeDryRun | OutcomeApplied | OutcomeHeld | OutcomeRetrying | OutcomeWaiting | OutcomeInSync.

(** [internal/rails/dryrun.go:Switch.Act] on the state [f] would change. *)
Definition Act {S} (s : bool) (f : S → S) (st : S) : S := if s then f st else st.

(** [internal/rails/dryrun.go:Switch.Decide] *)
Definition Decide (s : bool) (t : Tick) : Outcome :=
  if negb s && ((0 <? tk_Changes t) || (0 <? tk_Held t) || (0 <? tk_Retrying t)) then OutcomeDryRun
  else if 0 <? tk_Changes t then OutcomeApplied
  else if 0 <? tk_Held t then OutcomeHeld
  else if 0 <? tk_Retrying t then OutcomeRetrying
  else if 0 <? tk_Waiting t then OutcomeWaiting
  else OutcomeInSync.

(** [internal/rails/loop.go:10-20 DefaultPolicyRetry] *)
Definition DefaultPolicyRetry : Z := 5 * 1000000000.
(** [internal/rails/loop.go:10-20 PolicyRetryCap] *)
Definition PolicyRetryCap : Z := 60 * 1000000000.
(** [internal/rails/loop.go:10-20 PolicyRetries] *)
Definition PolicyRetries : nat := 6.

(** [internal/rails/loop.go:Run]: the wait after one pass that took [elapsed],
    and the retries counted after it (a wake also zeroes them). *)
Definition next_wait (interval policyRetry elapsed : Z) (retries : nat) (otherPolicy : bool) : Z * nat :=
  let policyRetry := if (policyRetry <=? 0)%Z then DefaultPolicyRetry else policyRetry in
  let '(wait, retries) :=
    if otherPolicy && (retries <? PolicyRetries)
    then (Z.min (wrap64 (Z.shiftl policyRetry (Z.of_nat retries))) (Z.min PolicyRetryCap interval), S retries)
    else ((interval - elapsed)%Z, 0) in
  (Z.max wait 0, retries).

(** ** Lemmas *)

(** An answer that settles one address's removal. *)
Definition settles (vouches : gmap string Vouch) (wanted : list string) email : Prop :=
  ∃ v, vouches !! email = Some v ∧ v_Authoritative v = true ∧
    (v_Found v = false ∨ v_Suspended v = true ∨
     ∀ group, group ∈ wanted → group ∉ v_Groups v ∧ group ∉ v_DirectoryGroups v).

Lemma holdsAny_true held wanted : holdsAny held wanted = true ↔ ∃ group, group ∈ wanted ∧ group ∈ held.
Proof.
  unfold holdsAny. rewrite existsb_exists. split.
  - intros (g&Hg&H). exists g. rewrite str_in_true in H. by rewrite list_elem_of_In.
  - intros (g&Hg&H). exists g. by rewrite str_in_true, <- list_elem_of_In.
Qed.

Lemma holdsAny_false held wanted : holdsAny held wanted = false ↔ ∀ group, group ∈ wanted → group ∉ held.
Proof. rewrite <- not_true_iff_false, holdsAny_true. naive_solver. Qed.

Lemma not_holding v wanted :
  v_Found v && negb (v_Suspended v) && (holdsAny (v_Groups v) wanted || holdsAny (v_DirectoryGroups v) wanted) = false ↔
  v_Found v = false ∨ v_Suspended v = true ∨
  ∀ group, group ∈ wanted → group ∉ v_Groups v ∧ group ∉ v_DirectoryGroups v.
Proof.
  rewrite !andb_false_iff, orb_false_iff, negb_false_iff, !holdsAny_false. split.
  - intros [[?|?]|[H1 H2]]; [by auto..|]. right. right. intros g Hg. split; [by apply H1|by apply H2].
  - intros [?|[?|H]]; [by auto..|]. right. split; intros g Hg; by apply H.
Qed.

Lemma Removal_true emails vouches wanted :
  (Removal emails vouches wanted).2 = true ↔ Forall (settles vouches wanted) emails.
Proof.
  induction emails as [|email rest IH]; simpl; [by split; [constructor|]|].
  rewrite Forall_cons. unfold settles at 1.
  destruct (vouches !! email) as [v|]; simpl; [|split; [done|]; by intros [(?&?&_) _]].
  destruct (v_Authoritative v) eqn:Ha; simpl; [|split; [done|]; intros [(?&?&?&_) _]; congruence].
  destruct (v_Found v && _ && _) eqn:Hh; simpl.
  - split; [done|]. intros [(v'&[= <-]&_&H) _]. apply not_holding in H. congruence.
  - rewrite IH. apply not_holding in Hh. split; [|by intros [_ ?]]. intros Hr. split; [by eauto|done].
Qed.

Lemma Removal_agree emails c1 c2 wanted : (∀ email, email ∈ emails → c1 !! email = c2 !! email) →
  Removal emails c1 wanted = Removal emails c2 wanted.
Proof.
  induction emails as [|email rest IH]; intros H; [done|]. simpl. rewrite (H email) by (by left).
  by rewrite IH by (intros; apply H; by right).
Qed.

Lemma Fingerprint_proper l1 l2 : l1 ≡ₚ l2 → Fingerprint l1 = Fingerprint l2.
Proof. intros H. unfold Fingerprint. by rewrite (sort_strings_proper l1 l2). Qed.

#[global] Instance Fingerprint_Permutation : Proper ((≡ₚ) ==> (=)) Fingerprint.
Proof. intros l1 l2. apply Fingerprint_proper. Qed.

(** What [Confirm] keeps of each candidate. *)
Lemma Confirm_spec {E T} candidates guard (ask : string → result E (T * string)) out :
  let '(out', other, skipped) := Confirm candidates guard ask out in
  (∀ c v, out' !! c = Some v →
    out !! c = Some v ∨ (c ∈ candidates ∧ ∃ digest, ask c = Ok (v, digest) ∧ PolicyGuard_Check guard digest = true)) ∧
  (∀ c v digest, c ∈ candidates → ask c = Ok (v, digest) → PolicyGuard_Check guard digest = true →
    out' !! c = Some v) ∧
  (∀ c, c ∉ candidates → out' !! c = out !! c) ∧
  (other = true ↔ ∃ c v digest, c ∈ candidates ∧ ask c = Ok (v, digest) ∧ PolicyGuard_Check guard digest = false).
Proof.
  revert out. induction candidates as [|x rest IH]; intros out; simpl.
  { split; [by left|]. split; [by intros ??? ?%elem_of_nil|]. split; [done|].
    split; [done|]. by intros (?&?&?&?%elem_of_nil&_). }
  destruct (ask x) as [[v digest]|e] eqn:Hx.
  - destruct (PolicyGuard_Check guard digest) eqn:Hg.
    + specialize (IH (<[x := v]> out)). destruct (Confirm rest guard ask _) as [[out' other] skipped].
      destruct IH as (H1&H2&H3&H4). split; [|split; [|split]].
      * intros c w Hc. rewrite elem_of_cons. apply H1 in Hc as [Hc|(?&?)]; [|by auto].
        destruct (decide (c = x)) as [->|Hne].
        { rewrite lookup_insert_eq in Hc. injection Hc as <-. right. split; [by left|]. by exists digest. }
        rewrite lookup_insert_ne in Hc by done. by auto.
      * intros c w d [->|Hc]%elem_of_cons Hask Hd; [|by eapply H2]. rewrite Hx in Hask. simplify_eq.
        destruct (decide (x ∈ rest)) as [Hin|Hin]; [by eapply H2|]. by rewrite H3, lookup_insert_eq.
      * intros c [Hne Hc]%not_elem_of_cons. rewrite H3 by done. by rewrite lookup_insert_ne.
      * rewrite H4. setoid_rewrite elem_of_cons. split; [naive_solver|].
        intros (c&w&d&[->|Hc]&Hask&Hd); [congruence|by exists c, w, d].
    + specialize (IH out). destruct (Confirm rest guard ask out) as [[out' other] skipped].
      destruct IH as (H1&H2&H3&H4). split; [|split; [|split]].
      * intros c w Hc. rewrite elem_of_cons. apply H1 in Hc as [?|[? ?]]; auto.
      * intros c w d [->|Hc]%elem_of_cons Hask Hd; [congruence|by eapply H2].
      * intros c [Hne Hc]%not_elem_of_cons. by apply H3.
      * split; [|done]. intros _. exists x, v, digest. split; [by left|done].
  - specialize (IH out). destruct (Confirm rest guard ask out) as [[out' other] skipped].
    destruct IH as (H1&H2&H3&H4). split; [|split; [|split]].
    + intros c w Hc. rewrite elem_of_cons. apply H1 in Hc as [?|[? ?]]; auto.
    + intros c w d [->|Hc]%elem_of_cons Hask Hd; [congruence|by eapply H2].
    + intros c [Hne Hc]%not_elem_of_cons. by apply H3.
    + rewrite H4. setoid_rewrite elem_of_cons. split; [naive_solver|].
      intros (c&w&d&[->|Hc]&Hask&Hd); [congruence|by exists c, w, d].
Qed.

Lemma CheckBreaker_none affected lines total confirmed :
  CheckBreaker affected lines total confirmed = None ↔ total = 0 ∨ affected * 2 ≤ total.
Proof.
  unfold CheckBreaker. destruct (Nat.eqb_spec total 0), (Nat.leb_spec (affected * 2) total); simpl;
    (split; [try done; by auto|]); intros [?|?]; try done; lia.
Qed.

Lemma CheckBreaker_some affected lines total confirmed b :
  CheckBreaker affected lines total confirmed = Some b →
  0 < total < affected * 2 ∧ b_Affected b = affected ∧ b_Total b = total ∧ b_Fingerprint b = Fingerprint lines ∧
  (b_Confirmed b = true ↔ confirmed ≠ "" ∧ confirmed = Fingerprint lines).
Proof.
  unfold CheckBreaker. destruct (Nat.eqb_spec total 0), (Nat.leb_spec (affected * 2) total); simpl; try done.
  intros [= <-]. cbn [b_Affected b_Total b_Fingerprint b_Confirmed].
  rewrite andb_true_iff, negb_true_iff, empty_false, bool_decide_eq_true. split_and!; done || lia.
Qed.

(** ** The properties *)

(** somebody is removed only when every one of their addresses was asked
    about, the directory vouched for each answer, and none of those answers is a
    live account in a wanted group; otherwise they stay, with a reason exactly
    when an answer is missing or cannot be vouched for. *)
Theorem Removal_vouched emails vouches wanted :
  ((Removal emails vouches wanted).2 = true ↔ Forall (settles vouches wanted) emails) ∧
  ((Removal emails vouches wanted).2 = false → (Removal emails vouches wanted).1 ≠ "" →
    ∃ email, email ∈ emails ∧
      (vouches !! email = None ∨ ∃ v, vouches !! email = Some v ∧ v_Authoritative v = false)) ∧
  ((Removal emails vouches wanted).2 = false → (Removal emails vouches wanted).1 = "" →
    ∃ email v group, email ∈ emails ∧ vouches !! email = Some v ∧ v_Authoritative v = true ∧
      v_Found v = true ∧ v_Suspended v = false ∧ group ∈ wanted ∧ (group ∈ v_Groups v ∨ group ∈ v_DirectoryGroups v)).
Proof.
  split; [apply Removal_true|].
  induction emails as [|email rest [IH1 IH2]]; simpl; [by split|].
  destruct (vouches !! email) as [v|] eqn:Hv; simpl.
  2: { split; [|done]. intros _ _. exists email. split; [by left|by left]. }
  destruct (v_Authoritative v) eqn:Ha; simpl.
  2: { split; [|done]. intros _ _. exists email. split; [by left|by eauto]. }
  destruct (v_Found v && _ && _) eqn:Hh; simpl.
  - split; [done|]. intros _ _. apply andb_true_iff in Hh as [[Hf Hs]%andb_true_iff Hh].
    apply negb_true_iff in Hs. rewrite orb_true_iff, !holdsAny_true in Hh.
    destruct Hh as [(g&?&?)|(g&?&?)]; exists email, v, g; split_and!; eauto; by left.
  - split; [intros H1 H2; destruct (IH1 H1 H2) as (e&?&?)|intros H1 H2; destruct (IH2 H1 H2) as (e&w&g&?&?)].
    + exists e. split; [by right|done].
    + exists e, w, g. split; [by right|done].
Qed.

(** What is recorded as newly held is recorded once: asked again with nothing
    changed, nothing is fresh, and other targets are not affected. *)
Theorem Fresh_once l target now seed seed' :
  let l' := (Fresh l target now seed).2 in
  (Fresh l' target now seed').1 = replicate (length now) false ∧
  (∀ t, t ≠ target → l' !! t = l !! t) ∧
  (∀ i key, now !! i = Some key → (Fresh l target now seed).1 !! i =
    Some (negb (bool_decide (key ∈ default (list_to_set seed) (l !! target))))).
Proof.
  unfold Fresh. simpl. split; [|split].
  - rewrite lookup_insert_eq. apply (list_eq _ _). intros i. rewrite list_lookup_fmap.
    destruct (now !! i) as [k|] eqn:Hk; simpl.
    + rewrite lookup_replicate_2 by (by eapply lookup_lt_Some).
      rewrite bool_decide_eq_true_2; [done|]. rewrite elem_of_list_to_set. by eapply list_elem_of_lookup_2.
    + symmetry. apply lookup_replicate_None. by apply lookup_ge_None in Hk.
  - intros t Ht. by rewrite lookup_insert_ne.
  - intros i key Hi. rewrite list_lookup_fmap, Hi. simpl. by destruct (l !! target).
Qed.

(** Whatever the configuration, even one whose doubling overflows, a wait is
    never negative; a quick retry is never longer than the cap or the interval;
    and at most [PolicyRetries] of them come in a row. *)
Theorem next_wait_bounds interval policyRetry elapsed retries other (Hi : (0 < interval)%Z) (He : (0 <= elapsed)%Z) :
  let '(wait, retries') := next_wait interval policyRetry elapsed retries other in
  (0 <= wait <= interval)%Z ∧
  (retries ≤ PolicyRetries → retries' ≤ PolicyRetries) ∧
  (retries' ≠ 0 → retries' = S retries ∧ other = true ∧ (wait <= PolicyRetryCap)%Z).
Proof.
  unfold next_wait, PolicyRetries, PolicyRetryCap.
  generalize (wrap64 (Z.shiftl (if (policyRetry <=? 0)%Z then DefaultPolicyRetry else policyRetry) (Z.of_nat retries))) as w.
  intros w. destruct (Nat.ltb_spec retries 6), other; simpl; split_and!; try lia; intros; split_and!; lia.
Qed.
