(* ===== verification/Asking.v ===== *)
(** * Asking: the console's answers, one call at a time

    [internal/rails/directory.go] and confirm.go as both controllers run them: each question
    is a call of the pass's own signature, and an answer under another policy is not taken.
    [Rails] has the same functions over a console that answers every question at once. *)

From S2P Require Import Prelude GoStrings Runs Rails.

Implicit Types (group why : string).

(** Why a pass fails: an answer about a group under another policy, or anything else. *)
Inductive pass_error := PassFailed (why : string) | OtherPolicy group.

Definition error_words (e : pass_error) : string :=
  match e with PassFailed why => why | OtherPolicy group => "ask who holds " +:+ group end.
Definition is_other (e : pass_error) : bool := match e with OtherPolicy _ => true | PassFailed _ => false end.

Section asking.
Context {E : Type → Type} (guard : PolicyGuard) (ListHolders : string → E (result string (list Holder * string))).

(** [internal/rails/directory.go:Directory.Holders], from the sorted groups. *)
Fixpoint holders_each (groups : list string) (out : gmap string (list Holder)) : prog E (result pass_error (gmap string (list Holder))) :=
  match groups with
  | [] => Ret (Ok out)
  | group :: rest =>
      then_ (ask_by PassFailed (ListHolders group)) (λ '(holders, digest),
        if PolicyGuard_Check guard digest then
          holders_each rest (match holders with [] => out | _ => <[group := default [] (out !! group) ++ holders]> out end)
        else Ret (Err (OtherPolicy group)))
  end.

(** [internal/rails/directory.go:Directory.Holders] *)
Definition ask_holders (groups : list string) : prog E (result pass_error (gmap string (list Holder))) :=
  holders_each (compact (sort_strings groups)) ∅.
End asking.
