(* ===== verification/GitHub.v ===== *)
(** * GitHub: what one organisation should look like

    [internal/githubroster/reconcile/reconcile.go] with the report's shapes from
    [internal/githubroster/status/status.go] and the organisation's from
    [internal/githubapp/org.go].  [Derive] works out everything the inputs
    settle and names the addresses whose removal must be asked about; [Decide]
    finishes it: the report, and the changes.

    Go maps read in sorted order are read so here; a map whose range order the
    code leaves open is either a set, or (the links that are gone) read in sorted
    order. *)

From stdpp Require Import pretty.
From S2P Require Import Prelude GoStrings Policy Rails.

Implicit Types (email login slug scope : string).

(** ** What GitHub holds *)

(** [internal/githubapp/org.go:type Member] *)
Record AppMember := mkAppMember { am_ID : Z; am_Login : string; am_Owner : bool; am_Emails : list string }.
(** [internal/githubapp/org.go:type Invitation] *)
Record Invitation := mkInvitation { iv_Email : string; iv_Login : string }.
(** [internal/githubapp/org.go:type Team] *)
Record AppTeam := mkAppTeam { at_ID : Z; at_Slug : string }.
(** [internal/githubapp/org.go:type TeamMember] *)
Record TeamMember := mkTeamMember { tm_Login : string; tm_Maintainer : bool }.

(** [internal/githubroster/reconcile/reconcile.go:type Link] *)
Record Link := mkLink {
  l_ID : Z; l_Login : string; l_Emails : list string; l_Lost : bool; l_Reason : string; l_LinkedAt : Z }.

(** [internal/githubroster/reconcile/reconcile.go:type State] *)
Record OrgState := mkOrgState {
  os_Members : list AppMember; os_Invitations : list Invitation; os_Teams : list AppTeam;
  os_TeamMembers : gmap string (list TeamMember); os_Links : list Link }.

(** ** The report and the changes *)

(** [internal/githubroster/status/status.go:188-194 Role] *)
Inductive Role := RoleMember | RoleMaintainer.
(** [internal/githubroster/status/status.go:197-229 State] *)
Inductive RowState := StateNotLinked | StatePending | StateInvited | StateSynced | StateLeaving
  | StateHeld | StateRetrying | StateIgnored | StateReported.
(** [internal/githubroster/status/status.go:232-240 Action] *)
Inductive ActionKind := ActionInvite | ActionAdd | ActionSetRole | ActionRemove.

#[global] Instance Role_eq_dec : EqDecision Role.
Proof. solve_decision. Defined.
#[global] Instance RowState_eq_dec : EqDecision RowState.
Proof. solve_decision. Defined.
#[global] Instance ActionKind_eq_dec : EqDecision ActionKind.
Proof. solve_decision. Defined.

(** [internal/githubroster/status/status.go:type Member] *)
Record Row := mkRow {
  w_Email : string; w_Login : string; w_Role : Role; w_State : RowState; w_Action : option ActionKind; w_Reason : string }.
(** [internal/githubroster/status/status.go:type Team] *)
Record TeamReport := mkTeamReport { tr_Team : string; tr_Members : list Row }.
(** [internal/githubroster/status/status.go:type Account] *)
Record Account := mkAccount { ac_Login : string; ac_Reason : string }.
(** [internal/githubroster/status/status.go:type Seats] *)
Record Seats := mkSeats { se_Known : bool; se_Total : Z; se_Filled : Z; se_Pending : Z; se_Free : Z; se_Short : nat }.
(** [internal/githubroster/status/status.go:type Org] The fields a pass decides. *)
Record OrgReport := mkOrgReport {
  or_Org : string; or_Members : list Row; or_Teams : list TeamReport; or_Unlinked : list Account;
  or_Seats : option Seats; or_Breaker : option Breaker }.

(** [internal/githubroster/reconcile/reconcile.go:type Action] *)
Record Action := mkAction {
  a_Kind : ActionKind; a_Team : string; a_Login : string; a_Email : string; a_Role : option Role;
  a_Teams : list Z; a_Account : Z; a_Reason : string }.

(** ** The draft *)

(** [internal/githubroster/reconcile/reconcile.go:type Draft] *)
Record Draft := mkDraft {
  d_org : string; d_binding : GitHubOrg;
  d_desired : gmap string (gmap string Role); d_anywhere : gset string;
  d_loginOf : gmap string string; d_ambiguous : gmap string (list string); d_emailsOf : gmap string (list string);
  d_owner : gmap string bool; d_invited : gset string; d_teamID : gmap string Z;
  d_current : gmap string (gmap string bool); d_outside : gmap string Link; d_lost : gmap string Link;
  d_unlinked : list Account; d_candidates : gset string }.

(** [internal/githubroster/reconcile/reconcile.go:appendUnique] *)
Definition appendUnique (l : list string) (value : string) : list string := if str_in value l then l else l ++ [value].

(** [internal/githubroster/reconcile/reconcile.go:roleOf] *)
Definition roleOf (maintainer : bool) : Role := if maintainer then RoleMaintainer else RoleMember.

(** [internal/githubroster/reconcile/reconcile.go:150-164 Derive kept] *)
Definition kept (binding : GitHubOrg) login (emails : list string) : list string * bool :=
  if bool_decide (ToLower login ∈ IgnoredLogins binding) then ([], true)
  else
    let out := List.filter (λ email, negb (bool_decide (ToLower email ∈ IgnoredAddresses binding))) emails in
    (out, negb (bool_decide (emails = [])) && bool_decide (out = [])).

(** Who a scope wants, in which role. *)
Notation desired_map := (gmap string (gmap string Role)) (only parsing).
Definition desired_in (desired : desired_map) scope : gmap string Role := default ∅ (desired !! scope).

(** [internal/githubroster/reconcile/reconcile.go:167-177 Derive want] *)
Definition want scope (role : Role) (desired : desired_map) email : desired_map :=
  let in_scope := desired_in desired scope in
  <[scope := if bool_decide (in_scope !! email = Some RoleMaintainer) then in_scope else <[email := role]> in_scope]> desired.

(** [internal/githubroster/reconcile/reconcile.go:178-184 Derive live] *)
Definition live (binding : GitHubOrg) (holders : gmap string (list Holder)) group : list string :=
  List.filter (λ email, negb (bool_decide (email ∈ IgnoredAddresses binding)))
    ((λ h, ToLower (TrimSpace (hd_Email h))) <$> List.filter hd_Live (default [] (holders !! group))).

Definition want_groups (binding : GitHubOrg) holders scope role (desired : desired_map) (groups : list string) : desired_map :=
  foldl (λ desired group, foldl (want scope role) desired (live binding holders group)) desired groups.

(** [internal/githubroster/reconcile/reconcile.go:185-196 Derive desired] *)
Definition derive_desired (binding : GitHubOrg) (holders : gmap string (list Holder)) : desired_map :=
  foldl (λ desired slug,
    let team := default (mkGitHubTeam [] []) (o_Teams binding !! slug) in
    want_groups binding holders slug RoleMaintainer
      (want_groups binding holders slug RoleMember desired (t_Members team)) (t_Maintainers team))
    (want_groups binding holders "" RoleMember ∅ (o_Members binding)) (sorted_keys (o_Teams binding)).

Definition anywhere_of (desired : desired_map) : gset string :=
  list_to_set (mjoin (keys <$> (map_to_list desired).*2)).

(** What the loop over the members builds. *)
Record member_state := mkMemberState {
  ms_loginOf : gmap string string; ms_ambiguous : gmap string (list string); ms_emailsOf : gmap string (list string);
  ms_owner : gmap string bool; ms_lost : gmap string Link; ms_unlinked : list Account; ms_skipped : gset string }.

Definition add_ambiguous (ambiguous : gmap string (list string)) email (one other : string) : gmap string (list string) :=
  <[email := appendUnique (appendUnique (default [] (ambiguous !! email)) one) other]> ambiguous.

(** [internal/githubroster/reconcile/reconcile.go:230-241 Derive email]: one address of a member. *)
Definition member_email login (s : member_state) email : member_state :=
  let email := ToLower email in
  let emails := default [] (ms_emailsOf s !! login) in
  if str_in email emails then s
  else
    let emailsOf := <[login := emails ++ [email]]> (ms_emailsOf s) in
    match ms_loginOf s !! email with
    | Some other =>
        if bool_decide (other = login) then
          mkMemberState (<[email := login]> (ms_loginOf s)) (ms_ambiguous s) emailsOf (ms_owner s) (ms_lost s) (ms_unlinked s) (ms_skipped s)
        else
          mkMemberState (ms_loginOf s) (add_ambiguous (ms_ambiguous s) email other login) emailsOf
            (ms_owner s) (ms_lost s) (ms_unlinked s) (ms_skipped s)
    | None =>
        mkMemberState (<[email := login]> (ms_loginOf s)) (ms_ambiguous s) emailsOf (ms_owner s) (ms_lost s) (ms_unlinked s) (ms_skipped s)
    end.

(** [internal/githubroster/reconcile/reconcile.go:202-242 Derive member]: one member. *)
Definition member_step (binding : GitHubOrg) (links : gmap Z Link) (s : member_state) (member : AppMember) : member_state :=
  let login := am_Login member in
  let l := links !! am_ID member in
  let all := am_Emails member ++ match l with Some l => l_Emails l | None => [] end in
  let '(rest, alone) := kept binding login all in
  if alone then
    mkMemberState (ms_loginOf s) (ms_ambiguous s) (ms_emailsOf s) (ms_owner s) (ms_lost s) (ms_unlinked s) ({[login]} ∪ ms_skipped s)
  else
    let linked_live := match l with Some l => negb (l_Lost l) | None => false end in
    let emails := if linked_live then rest else (kept binding login (am_Emails member)).1 in
    let owner := <[login := am_Owner member]> (ms_owner s) in
    match emails, l with
    | [], Some l' =>
        if l_Lost l' then
          mkMemberState (ms_loginOf s) (ms_ambiguous s) (ms_emailsOf s) owner (<[login := l']> (ms_lost s)) (ms_unlinked s) (ms_skipped s)
        else
          mkMemberState (ms_loginOf s) (ms_ambiguous s) (ms_emailsOf s) owner (ms_lost s)
            (ms_unlinked s ++ [mkAccount login "has not linked this account to a work address"]) (ms_skipped s)
    | [], None =>
        mkMemberState (ms_loginOf s) (ms_ambiguous s) (ms_emailsOf s) owner (ms_lost s)
          (ms_unlinked s ++ [mkAccount login "has not linked this account to a work address"]) (ms_skipped s)
    | _, _ =>
        foldl (member_email login)
          (mkMemberState (ms_loginOf s) (ms_ambiguous s) (ms_emailsOf s) owner (ms_lost s) (ms_unlinked s) (ms_skipped s)) emails
    end.

Definition member_start : member_state := mkMemberState ∅ ∅ ∅ ∅ ∅ [] ∅.

(** [internal/githubroster/reconcile/reconcile.go:248-265 Derive outside]: linked accounts that are not members. *)
Definition outside_email (l : Link) (s : gmap string Link * gmap string (list string)) email :=
  let '(outside, ambiguous) := s in
  let email := ToLower email in
  match outside !! email with
  | Some other =>
      if bool_decide (l_ID other = l_ID l) then (<[email := l]> outside, ambiguous)
      else (outside, add_ambiguous ambiguous email (l_Login other) (l_Login l))
  | None => (<[email := l]> outside, ambiguous)
  end.

Definition outside_step (binding : GitHubOrg) (members : gset Z) (s : gmap string Link * gmap string (list string)) (l : Link) :=
  if l_Lost l || bool_decide (l_ID l ∈ members) then s
  else
    let '(emails, alone) := kept binding (l_Login l) (l_Emails l) in
    if alone then s else foldl (outside_email l) s emails.

(** The addresses and logins one pending invitation stands for. *)
Definition invited_by (i : Invitation) : list string :=
  (if empty (iv_Email i) then [] else [ToLower (iv_Email i)]) ++
  (if empty (iv_Login i) then [] else ["@" +:+ ToLower (iv_Login i)]).
(** [internal/githubroster/reconcile/reconcile.go:266-273 Derive invited] *)
Definition invited_of (invitations : list Invitation) : gset string := list_to_set (mjoin (invited_by <$> invitations)).

(** [internal/githubroster/reconcile/reconcile.go:277-285 Derive current] *)
Definition current_of (binding : GitHubOrg) (skipped : gset string) (members : list TeamMember) : gmap string bool :=
  foldl (λ current m,
    if bool_decide (tm_Login m ∈ skipped) || bool_decide (ToLower (tm_Login m) ∈ IgnoredLogins binding) then current
    else <[tm_Login m := tm_Maintainer m]> current) ∅ members.

(** [internal/githubroster/reconcile/reconcile.go:Draft.wantsAny] *)
Definition wantsAny (desired : desired_map) scope (emails : list string) : bool :=
  existsb (λ email, bool_decide (is_Some (desired_in desired scope !! email))) emails.
(** [internal/githubroster/reconcile/reconcile.go:Draft.wantsAnywhere] *)
Definition wantsAnywhere (anywhere : gset string) (emails : list string) : bool :=
  existsb (λ email, bool_decide (email ∈ anywhere)) emails.

Definition is_owner (owner : gmap string bool) login : bool := default false (owner !! login).
Definition emails_of (emailsOf : gmap string (list string)) login : list string := default [] (emailsOf !! login).

(** [internal/githubroster/reconcile/reconcile.go:287-308 Derive candidates] *)
Definition candidates_of (binding : GitHubOrg) (desired : desired_map) (current : gmap string (gmap string bool))
    (owner : gmap string bool) (emailsOf : gmap string (list string)) : gset string :=
  let of_member slug login : list string :=
    let emails := emails_of emailsOf login in
    if is_owner owner login || wantsAny desired slug emails then [] else emails in
  let of_team slug : list string := mjoin (of_member slug <$> keys (default ∅ (current !! slug))) in
  let of_account emails : list string := if wantsAnywhere (anywhere_of desired) emails then [] else emails in
  list_to_set (mjoin (of_team <$> keys (o_Teams binding)) ++ mjoin (of_account <$> (map_to_list emailsOf).*2)).

(** The links by account, a later one over an earlier. *)
Definition links_of (links : list Link) : gmap Z Link := foldl (λ m l, <[l_ID l := l]> m) ∅ links.

(** [internal/githubroster/reconcile/reconcile.go:Derive] *)
Definition Derive org (binding : GitHubOrg) (holders : gmap string (list Holder)) (state : OrgState) : Draft :=
  let desired := derive_desired binding holders in
  let s := foldl (member_step binding (links_of (os_Links state))) member_start (os_Members state) in
  let members : gset Z := list_to_set (am_ID <$> os_Members state) in
  let loginOf := filter (λ kv : string * string, ms_ambiguous s !! kv.1 = None) (ms_loginOf s) in
  let '(outside, ambiguous) := foldl (outside_step binding members) (∅, ms_ambiguous s) (os_Links state) in
  let current := current_of binding (ms_skipped s) <$> os_TeamMembers state in
  mkDraft org binding desired (anywhere_of desired) loginOf ambiguous (ms_emailsOf s) (ms_owner s)
    (invited_of (os_Invitations state)) (foldl (λ m t, <[at_Slug t := at_ID t]> m) ∅ (os_Teams state))
    current outside (ms_lost s) (ms_unlinked s)
    (candidates_of binding desired current (ms_owner s) (ms_emailsOf s)).

(** [internal/githubroster/reconcile/reconcile.go:Draft.Confirm] *)
Definition Draft_Confirm (d : Draft) : list string := sort_strings (elements (d_candidates d)).

(** ** Lemmas: the loop over the members *)

Lemma kept_spec binding login emails rest alone : kept binding login emails = (rest, alone) →
  (∀ email, email ∈ rest → email ∈ emails ∧ ToLower email ∉ IgnoredAddresses binding) ∧
  (alone = false → ToLower login ∉ IgnoredLogins binding).
Proof.
  unfold kept. case_bool_decide as Hi; intros [= <- <-].
  - split; [by intros ? ?%elem_of_nil|done].
  - split; [|done]. intros email. by rewrite elem_of_filter_bool, negb_true_iff, bool_decide_eq_false.
Qed.

(** The addresses an account is shown to have and the binding does not ignore:
    GitHub's own, and those of a link that still holds. *)
Definition proven (binding : GitHubOrg) (links : gmap Z Link) (m : AppMember) : list string :=
  ToLower <$> (kept binding (am_Login m) (am_Emails m ++ match links !! am_ID m with
                                          | Some l => if l_Lost l then [] else l_Emails l | None => [] end)).1.

(** What holds of the loop's state once the members of [done] are read. *)
Record member_inv (binding : GitHubOrg) (links : gmap Z Link) (done : list AppMember) (s : member_state) : Prop := {
  mi_known : ∀ login, is_Some (ms_emailsOf s !! login) ∨ is_Some (ms_lost s !! login) →
    ∃ m, m ∈ done ∧ am_Login m = login ∧ ms_owner s !! login = Some (am_Owner m) ∧ ToLower login ∉ IgnoredLogins binding;
  mi_emails : ∀ login es, ms_emailsOf s !! login = Some es → es ≠ [] ∧
    ∃ m, m ∈ done ∧ am_Login m = login ∧ ∀ e, e ∈ es ↔ e ∈ proven binding links m;
  mi_login : ∀ email login, ms_loginOf s !! email = Some login → ∃ es, ms_emailsOf s !! login = Some es ∧ email ∈ es;
  mi_lost : ∀ login l, ms_lost s !! login = Some l → l_Lost l = true ∧
    ∃ m, m ∈ done ∧ am_Login m = login ∧ links !! am_ID m = Some l ∧ proven binding links m = [];
  mi_taken : ∀ m e, m ∈ done → ToLower (am_Login m) ∉ IgnoredLogins binding → e ∈ proven binding links m →
    is_Some (ms_loginOf s !! e) }.

Lemma member_email_spec login s email :
  let s' := member_email login s email in
  ms_owner s' = ms_owner s ∧ ms_lost s' = ms_lost s ∧
  (∀ x, x ≠ login → ms_emailsOf s' !! x = ms_emailsOf s !! x) ∧
  (∃ es, ms_emailsOf s' !! login = Some es ∧ es ≠ [] ∧ ToLower email ∈ es ∧
    (∀ e, e ∈ es → e = ToLower email ∨ e ∈ default [] (ms_emailsOf s !! login)) ∧
    (∀ e, e ∈ default [] (ms_emailsOf s !! login) → e ∈ es)) ∧
  (∀ e x, ms_loginOf s' !! e = Some x → ms_loginOf s !! e = Some x ∨ (e = ToLower email ∧ x = login)).
Proof.
  unfold member_email. destruct (str_in (ToLower email) (default [] (ms_emailsOf s !! login))) eqn:Hin.
  { apply str_in_true in Hin. simpl. split_and!; auto. exists (default [] (ms_emailsOf s !! login)).
    destruct (ms_emailsOf s !! login) as [es|]; simpl in *; [|by apply elem_of_nil in Hin].
    split_and!; auto. by intros ->; apply elem_of_nil in Hin. }
  clear Hin. set (es := default [] (ms_emailsOf s !! login)).
  assert (∀ (owner : gmap string bool) lost un sk amb lo,
    (∀ e x, lo !! e = Some x → ms_loginOf s !! e = Some x ∨ (e = ToLower email ∧ x = login)) →
    let s' := mkMemberState lo amb (<[login := es ++ [ToLower email]]> (ms_emailsOf s)) owner lost un sk in
    ms_owner s' = owner ∧ ms_lost s' = lost ∧
    (∀ x, x ≠ login → ms_emailsOf s' !! x = ms_emailsOf s !! x) ∧
    (∃ es', ms_emailsOf s' !! login = Some es' ∧ es' ≠ [] ∧ ToLower email ∈ es' ∧
      (∀ e, e ∈ es' → e = ToLower email ∨ e ∈ es) ∧ (∀ e, e ∈ es → e ∈ es')) ∧
    (∀ e x, ms_loginOf s' !! e = Some x → ms_loginOf s !! e = Some x ∨ (e = ToLower email ∧ x = login))) as Hgen.
  { intros owner lost un sk amb lo Hlo. simpl. split_and!; auto.
    - intros x Hx. by rewrite lookup_insert_ne.
    - exists (es ++ [ToLower email]). rewrite lookup_insert_eq. split_and!; [done|by destruct es|..].
      + apply elem_of_app. right. by left.
      + intros e. rewrite elem_of_app, list_elem_of_singleton. naive_solver.
      + intros e ?. apply elem_of_app. by left. }
  assert (∀ e x, <[ToLower email := login]> (ms_loginOf s) !! e = Some x →
    ms_loginOf s !! e = Some x ∨ (e = ToLower email ∧ x = login)) as Hset.
  { intros e x. destruct (decide (ToLower email = e)) as [<-|Hne].
    - rewrite lookup_insert_eq. intros [= <-]. by right.
    - rewrite lookup_insert_ne by done. by left. }
  destruct (ms_loginOf s !! ToLower email); [case_bool_decide|]; apply Hgen; auto.
Qed.

Lemma member_emails_spec login s emails : emails ≠ [] →
  let s' := foldl (member_email login) s emails in
  ms_owner s' = ms_owner s ∧ ms_lost s' = ms_lost s ∧
  (∀ x, x ≠ login → ms_emailsOf s' !! x = ms_emailsOf s !! x) ∧
  (∃ es, ms_emailsOf s' !! login = Some es ∧ es ≠ [] ∧
    (∀ e, e ∈ es → e ∈ ToLower <$> emails ∨ e ∈ default [] (ms_emailsOf s !! login)) ∧
    (∀ e, e ∈ ToLower <$> emails → e ∈ es) ∧
    (∀ e, e ∈ default [] (ms_emailsOf s !! login) → e ∈ es) ∧
    (∀ e x, ms_loginOf s' !! e = Some x → ms_loginOf s !! e = Some x ∨ (e ∈ es ∧ x = login))).
Proof.
  revert s. induction emails as [|email rest IH]; intros s Hne; [done|]. clear Hne. simpl.
  destruct (member_email_spec login s email) as (Ho&Hl&Hx&(es&Hes&Hne&Hin&Hsub&Hsup)&Hlo).
  destruct rest as [|e2 rest].
  { simpl. split_and!; auto. exists es. split_and!; auto.
    - intros e He. apply Hsub in He as [->|?]; [left; by left|by right].
    - intros e He. by apply list_elem_of_singleton in He as ->.
    - intros e x He. apply Hlo in He as [?|[-> ->]]; auto. }
  destruct (IH (member_email login s email) ltac:(done)) as (Ho'&Hl'&Hx'&(es'&Hes'&Hne'&Hsub'&Hall'&Hsup'&Hlo')).
  rewrite Hes in Hsub', Hsup'. simpl in Hsub', Hsup'.
  split_and!; [by rewrite Ho'|by rewrite Hl'|intros x ?; by rewrite Hx', Hx|].
  exists es'. split_and!; auto.
  - intros e He. apply Hsub' in He as [?|He]; [left; by right|]. apply Hsub in He as [->|?]; [left; by left|by right].
  - intros e He. apply elem_of_cons in He as [->|He]; auto.
  - intros e x He. apply Hlo' in He as [He|?]; [|by auto]. apply Hlo in He as [?|[-> ->]]; auto.
Qed.

Lemma member_email_taken login s email :
  (∀ e, e ∈ default [] (ms_emailsOf s !! login) → is_Some (ms_loginOf s !! e)) →
  let s' := member_email login s email in
  (∀ e, e ∈ default [] (ms_emailsOf s' !! login) → is_Some (ms_loginOf s' !! e)) ∧
  (∀ e, is_Some (ms_loginOf s !! e) → is_Some (ms_loginOf s' !! e)).
Proof.
  intros Hs. unfold member_email. destruct (str_in _ _); [done|].
  set (es := default [] (ms_emailsOf s !! login)) in *.
  assert (∀ e, is_Some (ms_loginOf s !! e) → is_Some (<[ToLower email := login]> (ms_loginOf s) !! e)) as Hins.
  { intros e He. destruct (decide (ToLower email = e)) as [->|?]; [by rewrite lookup_insert_eq|by rewrite lookup_insert_ne]. }
  destruct (ms_loginOf s !! ToLower email) as [other|] eqn:Hother; [case_bool_decide|]; simpl;
    rewrite lookup_insert_eq; simpl; (split; [|by auto]);
    intros e [He| ->%list_elem_of_singleton]%elem_of_app; auto; rewrite ?lookup_insert_eq, ?Hother; by eexists.
Qed.

Lemma member_emails_taken login s emails :
  (∀ e, e ∈ default [] (ms_emailsOf s !! login) → is_Some (ms_loginOf s !! e)) →
  let s' := foldl (member_email login) s emails in
  (∀ e, e ∈ default [] (ms_emailsOf s' !! login) → is_Some (ms_loginOf s' !! e)) ∧
  (∀ e, is_Some (ms_loginOf s !! e) → is_Some (ms_loginOf s' !! e)).
Proof.
  revert s. induction emails as [|email rest IH]; intros s Hs; [done|]. simpl.
  destruct (member_email_taken login s email Hs) as [Hs' Hmono].
  destruct (IH _ Hs') as [? Hmono']. split; auto.
Qed.

(** An account left alone either is ignored or shows no address worth keeping. *)
Lemma kept_alone binding links m : (kept binding (am_Login m) (am_Emails m ++
    match links !! am_ID m with Some l => l_Emails l | None => [] end)).2 = true →
  ToLower (am_Login m) ∉ IgnoredLogins binding → proven binding links m = [].
Proof.
  intros Halone Hi. destruct (proven binding links m) as [|e rest] eqn:Heq; [done|].
  assert (e ∈ proven binding links m) as Hin by (rewrite Heq; by left). clear Heq.
  unfold proven, kept in *. rewrite bool_decide_eq_false_2 in Hin, Halone by done. simpl in *.
  apply andb_true_iff in Halone as [_ Hnil%bool_decide_eq_true].
  apply list_elem_of_fmap in Hin as (x&_&[Hx Hkeep]%elem_of_filter_bool).
  destruct (not_elem_of_nil x). rewrite <- Hnil. apply elem_of_filter_bool. split; [|done].
  apply elem_of_app in Hx as [?|Hx]; apply elem_of_app; [by left|right].
  destruct (links !! am_ID m) as [l|]; [|done]. destruct (l_Lost l); [by apply elem_of_nil in Hx|done].
Qed.

Lemma member_inv_step binding links done s m :
  member_inv binding links done s → am_Login m ∉ am_Login <$> done →
  member_inv binding links (done ++ [m]) (member_step binding links s m).
Proof.
  intros [Hk He Hlo Hl Htk] Hfresh. unfold member_step.
  destruct (kept binding (am_Login m) _) as [rest alone] eqn:Hkept.
  destruct (kept_spec _ _ _ _ _ Hkept) as [_ Hign].
  assert (rest = (kept binding (am_Login m) (am_Emails m ++
    match links !! am_ID m with Some l => l_Emails l | None => [] end)).1) as Hkept_eq by (by rewrite Hkept).
  assert (∀ x, x ∈ done → x ∈ done ++ [m]) as Hold by (intros; apply elem_of_app; by left).
  assert (m ∈ done ++ [m]) as Hnew by (apply elem_of_app; right; by left).
  assert (∀ login, is_Some (ms_emailsOf s !! login) ∨ is_Some (ms_lost s !! login) → login ≠ am_Login m) as Hother.
  { intros login Hs ->. destruct (Hk _ Hs) as (m'&Hm'&Heq&_). apply Hfresh. rewrite <- Heq. by apply list_elem_of_fmap_2. }
  assert (∀ (loginOf : gmap string string), (∀ e, is_Some (ms_loginOf s !! e) → is_Some (loginOf !! e)) →
    (ToLower (am_Login m) ∉ IgnoredLogins binding → ∀ e, e ∈ proven binding links m → is_Some (loginOf !! e)) →
    ∀ m' e, m' ∈ done ++ [m] → ToLower (am_Login m') ∉ IgnoredLogins binding → e ∈ proven binding links m' →
    is_Some (loginOf !! e)) as Htk'.
  { intros lo Hmono Hme m' e [Hm'| ->%list_elem_of_singleton]%elem_of_app Hi Hp; [|by auto]. by eapply Hmono, Htk. }
  destruct alone.
  { split; simpl.
    - intros login Hs. destruct (Hk _ Hs) as (m'&?&?&?&?). eauto 6.
    - intros login es Hs. destruct (He _ _ Hs) as (?&m'&?&?&?). split; [done|]. eauto 6.
    - done.
    - intros login l Hs. destruct (Hl _ _ Hs) as (?&m'&?&?&?). split; [done|]. eauto 6.
    - apply Htk'; [done|]. intros Hi e Hp. rewrite (kept_alone binding links m) in Hp by (by rewrite ?Hkept).
      by apply elem_of_nil in Hp. }
  specialize (Hign eq_refl).
  set (owner := <[am_Login m := am_Owner m]> (ms_owner s)).
  assert (∀ login, is_Some (ms_emailsOf s !! login) ∨ is_Some (ms_lost s !! login) →
    ∃ m', m' ∈ done ++ [m] ∧ am_Login m' = login ∧ owner !! login = Some (am_Owner m') ∧ ToLower login ∉ IgnoredLogins binding) as Hk'.
  { intros login Hs. pose proof (Hother _ Hs). destruct (Hk _ Hs) as (m'&?&?&?&?). exists m'. split_and!; auto.
    unfold owner. by rewrite lookup_insert_ne. }
  set (emails := if match links !! am_ID m with Some l => negb (l_Lost l) | None => false end
                 then rest else (kept binding (am_Login m) (am_Emails m)).1).
  assert (ToLower <$> emails = proven binding links m) as Hproven.
  { unfold emails, proven. rewrite Hkept_eq. destruct (links !! am_ID m) as [l|]; simpl; [|by rewrite app_nil_r].
    destruct (l_Lost l); simpl; by rewrite ?app_nil_r. }
  assert (emails = [] → ∀ m' e, m' ∈ done ++ [m] → ToLower (am_Login m') ∉ IgnoredLogins binding →
    e ∈ proven binding links m' → is_Some (ms_loginOf s !! e)) as Htk0.
  { intros Hem. apply Htk'; [done|]. intros _ e Hp. rewrite <- Hproven, Hem in Hp. by apply elem_of_nil in Hp. }
  assert (emails = [] → ∀ unlinked, member_inv binding links (done ++ [m])
    (mkMemberState (ms_loginOf s) (ms_ambiguous s) (ms_emailsOf s) owner (ms_lost s) unlinked (ms_skipped s))) as Hplain.
  { intros Hem un. split; simpl; [..|by apply Htk0].
    - done.
    - intros login es Hs. destruct (He _ _ Hs) as (?&m'&?&?&?). split; [done|]. eauto 6.
    - done.
    - intros login l Hs. destruct (Hl _ _ Hs) as (?&m'&?&?&?). split; [done|]. eauto 6. }
  destruct emails as [|e0 es0] eqn:Hem.
  - destruct (links !! am_ID m) as [l|] eqn:Hlink; [|by apply Hplain]. destruct (l_Lost l) eqn:Hlost; [|by apply Hplain].
    split; simpl; [..|by apply Htk0].
    + intros login [Hs|Hs].
      { apply Hk'. by left. }
      destruct (decide (login = am_Login m)) as [->|Hne].
      * exists m. split_and!; auto. unfold owner. by rewrite lookup_insert_eq.
      * rewrite lookup_insert_ne in Hs by done. apply Hk'. by right.
    + intros login es Hs. destruct (He _ _ Hs) as (?&m'&?&?&?). split; [done|]. eauto 6.
    + done.
    + intros login l' Hs. destruct (decide (login = am_Login m)) as [->|Hne].
      * rewrite lookup_insert_eq in Hs. injection Hs as <-. split; [done|]. exists m. rewrite <- Hproven. auto.
      * rewrite lookup_insert_ne in Hs by done. destruct (Hl _ _ Hs) as (?&m'&?&?&?). split; [done|]. eauto 6.
  - assert (ms_emailsOf s !! am_Login m = None) as Hnone.
    { destruct (ms_emailsOf s !! am_Login m) eqn:Hs; [|done]. destruct (Hother (am_Login m)); [left; by eexists|done]. }
    destruct (member_emails_spec (am_Login m)
      (mkMemberState (ms_loginOf s) (ms_ambiguous s) (ms_emailsOf s) owner (ms_lost s) (ms_unlinked s) (ms_skipped s))
      (e0 :: es0) ltac:(done)) as (Ho&Hlost&Hx&(es&Hes&Hne&Hsub&Hall&_&Hlo')). simpl in Ho, Hlost, Hx, Hes, Hsub, Hlo'.
    rewrite Hnone in Hsub. simpl in Hsub.
    destruct (member_emails_taken (am_Login m)
      (mkMemberState (ms_loginOf s) (ms_ambiguous s) (ms_emailsOf s) owner (ms_lost s) (ms_unlinked s) (ms_skipped s))
      (e0 :: es0)) as [Htaken Hmono].
    { simpl. rewrite Hnone. by intros e ?%elem_of_nil. }
    cbn [foldl ms_loginOf] in Htaken, Hmono. rewrite Hes in Htaken. cbn [default] in Htaken.
    assert (member_inv binding links (done ++ [m]) (foldl (member_email (am_Login m))
      (mkMemberState (ms_loginOf s) (ms_ambiguous s) (ms_emailsOf s) owner (ms_lost s) (ms_unlinked s) (ms_skipped s))
      (e0 :: es0))) as Hgoal; [|by destruct (links !! am_ID m)].
    cbn [foldl] in *. split.
    + intros login Hs. rewrite Hlost in Hs. rewrite Ho. destruct (decide (login = am_Login m)) as [->|Hne'].
      * exists m. split_and!; auto. unfold owner. by rewrite lookup_insert_eq.
      * rewrite Hx in Hs by done. by apply Hk'.
    + intros login es' Hs. destruct (decide (login = am_Login m)) as [->|Hne'].
      * rewrite Hes in Hs. injection Hs as <-. split; [done|]. exists m. split_and!; auto.
        intros e. rewrite <- Hproven. split; [|by apply Hall].
        intros Hin. by apply Hsub in Hin as [Hin|Hin]; [|apply elem_of_nil in Hin].
      * rewrite Hx in Hs by done. destruct (He _ _ Hs) as (?&m'&?&?&?). split; [done|]. eauto 6.
    + intros email login Hs. apply Hlo' in Hs as [Hs|[Hin ->]]; [|by eauto].
      destruct (Hlo _ _ Hs) as (es'&Hes'&Hin). destruct (decide (login = am_Login m)) as [->|Hne']; [congruence|].
      exists es'. by rewrite Hx.
    + rewrite Hlost. intros login l Hs. destruct (Hl _ _ Hs) as (?&m'&?&?&?). split; [done|]. eauto 6.
    + apply Htk'; [done|]. intros _ e Hp. apply Htaken, Hall. by rewrite Hproven.
Qed.

Lemma member_inv_all binding links members : NoDup (am_Login <$> members) →
  member_inv binding links members (foldl (member_step binding links) member_start members).
Proof.
  induction members as [|m members IH] using rev_ind; intros Hnd.
  { split; simpl; try (intros ?? Hs; by rewrite lookup_empty in Hs).
    - intros login [Hs|Hs]; rewrite lookup_empty in Hs; by destruct Hs.
    - by intros m e ?%elem_of_nil. }
  rewrite fmap_app in Hnd. apply NoDup_app in Hnd as (Hnd&Hdis&_).
  rewrite foldl_app. simpl. apply member_inv_step; [by apply IH|].
  intros Hin. apply (Hdis _ Hin). by left.
Qed.

(** ** Lemmas: the loop over the links *)

(** What the accounts outside the organisation are, per address. *)
Definition outside_inv (binding : GitHubOrg) (members : gset Z) (links : list Link) (outside : gmap string Link) : Prop :=
  ∀ email l, outside !! email = Some l →
    l ∈ links ∧ l_Lost l = false ∧ l_ID l ∉ members ∧ ToLower (l_Login l) ∉ IgnoredLogins binding ∧
    email ∈ ToLower <$> l_Emails l ∧ email ∉ IgnoredAddresses binding.

Lemma outside_email_cases l s email :
  ((outside_email l s email).1 = <[ToLower email := l]> s.1 ∨ (outside_email l s email).1 = s.1) ∧
  (∀ e, is_Some (s.2 !! e) → is_Some ((outside_email l s email).2 !! e)).
Proof.
  destruct s as [outside ambiguous]. unfold outside_email.
  assert (∀ a b e, is_Some (ambiguous !! e) → is_Some (add_ambiguous ambiguous (ToLower email) a b !! e)) as Hamb.
  { intros a b e He. unfold add_ambiguous. destruct (decide (ToLower email = e)) as [->|?];
      [by rewrite lookup_insert_eq|by rewrite lookup_insert_ne]. }
  destruct (outside !! ToLower email) as [other|]; [case_bool_decide|]; simpl; auto.
Qed.

Lemma outside_ambiguous binding members links s e :
  is_Some (s.2 !! e) → is_Some ((foldl (outside_step binding members) s links).2 !! e).
Proof.
  revert s. induction links as [|l links IH]; intros s He; [done|]. simpl. apply IH.
  unfold outside_step. destruct (l_Lost l || _); [done|]. destruct (kept _ _ _) as [emails alone]. destruct alone; [done|].
  revert s He. induction emails as [|x emails IHe]; intros s He; [done|]. simpl. by apply IHe, outside_email_cases.
Qed.

Lemma outside_step_inv binding members links s l : outside_inv binding members links s.1 → l ∈ links →
  outside_inv binding members links (outside_step binding members s l).1.
Proof.
  intros Hs Hl. unfold outside_step. destruct (l_Lost l) eqn:Hlost; [done|]. simpl. case_bool_decide as Hm; [done|].
  destruct (kept binding (l_Login l) (l_Emails l)) as [emails alone] eqn:Hkept.
  destruct (kept_spec _ _ _ _ _ Hkept) as [Hemails Hign]. clear Hkept. destruct alone; [done|]. specialize (Hign eq_refl).
  revert s Hs. induction emails as [|x emails IH]; intros s Hs; [done|]. simpl.
  apply IH; [intros; apply Hemails; by right|]. destruct (Hemails x) as [Hx Hxi]; [by left|].
  destruct (outside_email_cases l s x) as [[-> | ->] _]; [|done]. intros e l'.
  destruct (decide (ToLower x = e)) as [<-|Hne]; [|rewrite lookup_insert_ne by done; apply Hs].
  rewrite lookup_insert_eq. intros [= <-]. split_and!; auto. by apply list_elem_of_fmap_2.
Qed.

Lemma outside_inv_all binding members links s : outside_inv binding members links s.1 →
  outside_inv binding members links (foldl (outside_step binding members) s links).1.
Proof.
  assert (∀ l, l ∈ links → l ∈ links) as Hin by done. revert Hin. generalize links at 1 5 as ls.
  intros ls. revert s. induction ls as [|l ls IH]; intros s Hin Hs; [done|]. simpl.
  apply IH; [intros; apply Hin; by right|]. apply outside_step_inv; [done|]. apply Hin. by left.
Qed.

(** ** What a derived draft knows of an account *)

Section derived.
Context (org : string) (binding : GitHubOrg) (holders : gmap string (list Holder)) (state : OrgState).
Context (Hlogins : NoDup (am_Login <$> os_Members state)).
Let d := Derive org binding holders state.
Let links := links_of (os_Links state).

Lemma Derive_inv : member_inv binding links (os_Members state)
  (mkMemberState (ms_loginOf (foldl (member_step binding links) member_start (os_Members state)))
    (ms_ambiguous (foldl (member_step binding links) member_start (os_Members state)))
    (d_emailsOf d) (d_owner d) (d_lost d) [] ∅).
Proof using Hlogins.
  pose proof (member_inv_all binding links _ Hlogins) as [Hk He Hlo Hl Htk]. unfold d, Derive. fold links.
  destruct (foldl (outside_step _ _) _ _) as [outside ambiguous]. by split.
Qed.

Lemma Derive_account login m :
  m ∈ os_Members state → am_Login m = login → is_Some (d_emailsOf d !! login) ∨ is_Some (d_lost d !! login) →
  is_owner (d_owner d) login = am_Owner m ∧ ToLower login ∉ IgnoredLogins binding.
Proof using Hlogins.
  intros Hm Heq Hs. destruct (mi_known _ _ _ _ Derive_inv login Hs) as (m'&Hm'&Heq'&Ho&Hign). simpl in Ho.
  assert (m = m') as -> by (eapply NoDup_fmap_unique; eauto; congruence).
  unfold is_owner. by rewrite Ho.
Qed.

Lemma Derive_emailsOf login es : d_emailsOf d !! login = Some es →
  es ≠ [] ∧ ∃ m, m ∈ os_Members state ∧ am_Login m = login ∧ is_owner (d_owner d) login = am_Owner m ∧
    ToLower login ∉ IgnoredLogins binding ∧ (∀ e, e ∈ es ↔ e ∈ proven binding links m).
Proof using Hlogins.
  intros Hes. destruct (mi_emails _ _ _ _ Derive_inv login es Hes) as (Hne&m&Hm&Heq&Hall).
  split; [done|]. exists m. destruct (Derive_account login m Hm Heq) as [Ho Hign]; [left; by eexists|]. auto.
Qed.

Lemma Derive_lostOf login l : d_lost d !! login = Some l →
  l_Lost l = true ∧ ∃ m, m ∈ os_Members state ∧ am_Login m = login ∧ is_owner (d_owner d) login = am_Owner m ∧
    ToLower login ∉ IgnoredLogins binding ∧ links !! am_ID m = Some l ∧ proven binding links m = [].
Proof using Hlogins.
  intros Hs. destruct (mi_lost _ _ _ _ Derive_inv login l Hs) as (Hl&m&Hm&Heq&Hlink&Hp).
  split; [done|]. exists m. destruct (Derive_account login m Hm Heq) as [Ho Hign]; [right; by eexists|]. auto 6.
Qed.

Lemma Derive_loginOf email login : d_loginOf d !! email = Some login →
  ∃ es, d_emailsOf d !! login = Some es ∧ email ∈ es.
Proof using Hlogins.
  intros Hs. apply (mi_login _ _ _ _ Derive_inv email login). simpl. unfold d, Derive in Hs. fold links in Hs.
  destruct (foldl (outside_step _ _) _ _) as [outside ambiguous]. simpl in Hs.
  by apply map_lookup_filter_Some in Hs as [Hs _].
Qed.

(** An address no account answers for and no two claim belongs to no member. *)
Lemma Derive_nobody email m : d_loginOf d !! email = None → d_ambiguous d !! email = None →
  m ∈ os_Members state → ToLower (am_Login m) ∉ IgnoredLogins binding → email ∉ proven binding links m.
Proof using Hlogins.
  intros Hno Hamb Hm Hign Hp. destruct (mi_taken _ _ _ _ Derive_inv m email Hm Hign Hp) as [login Hs]. simpl in Hs.
  unfold d, Derive in Hno, Hamb. fold links in Hno, Hamb. set (s := foldl (member_step binding links) _ _) in *.
  pose proof (outside_ambiguous binding (list_to_set (am_ID <$> os_Members state)) (os_Links state) (∅, ms_ambiguous s) email) as Hmono.
  destruct (foldl (outside_step _ _) _ _) as [outside ambiguous]. simpl in *.
  rewrite map_lookup_filter_None in Hno. destruct Hno as [Hno|Hno]; [congruence|].
  apply (Hno login Hs). simpl. apply eq_None_not_Some. intros [x Hx]%Hmono. congruence.
Qed.

(** Who an invitation can go to: a holding link of an account that is no member. *)
Lemma Derive_outside email l : d_outside d !! email = Some l →
  l ∈ os_Links state ∧ l_Lost l = false ∧ l_ID l ∉ am_ID <$> os_Members state ∧
  ToLower (l_Login l) ∉ IgnoredLogins binding ∧ email ∈ ToLower <$> l_Emails l ∧ email ∉ IgnoredAddresses binding.
Proof.
  unfold d, Derive. set (s := foldl (member_step _ _) _ _). set (members := list_to_set _).
  assert (outside_inv binding members (os_Links state) (foldl (outside_step binding members) (∅, ms_ambiguous s) (os_Links state)).1) as Hinv.
  { apply outside_inv_all. intros e l' Hs. simpl in Hs. by rewrite lookup_empty in Hs. }
  destruct (foldl (outside_step _ _) _ _) as [outside ambiguous]. simpl. intros Hs.
  destruct (Hinv email l Hs) as (?&?&Hid&?&?&?). split_and!; auto. intros Hin. apply Hid.
  unfold members. by apply elem_of_list_to_set.
Qed.
(** A team with an id is one GitHub has. *)
Lemma Derive_team slug : is_Some (d_teamID d !! slug) → slug ∈ at_Slug <$> os_Teams state.
Proof.
  unfold d, Derive. destruct (foldl (outside_step _ _) _ _) as [outside ambiguous]. simpl.
  assert (∀ teams (m : gmap string Z), is_Some (foldl (λ m t, <[at_Slug t := at_ID t]> m) m teams !! slug) →
    is_Some (m !! slug) ∨ slug ∈ at_Slug <$> teams) as Hfold.
  { induction teams as [|t teams IH]; intros m Hs; [by left|]. simpl in Hs. apply IH in Hs as [Hs|?]; [|by right; right].
    destruct (decide (at_Slug t = slug)) as [<-|Hne]; [right; by left|]. left. by rewrite lookup_insert_ne in Hs. }
  intros [Hs|?]%Hfold; [|done]. rewrite lookup_empty in Hs. by destruct Hs.
Qed.
End derived.

(** *** Who is wanted where *)

Lemma desired_in_want scope scope' role desired email e r :
  desired_in (want scope role desired email) scope' !! e = Some r →
  desired_in desired scope' !! e = Some r ∨ (scope' = scope ∧ e = email ∧ r = role).
Proof.
  unfold want, desired_in at 1. destruct (decide (scope' = scope)) as [->|Hne].
  - rewrite lookup_insert_eq. simpl. case_bool_decide; [by left|].
    destruct (decide (e = email)) as [->|?]; [rewrite lookup_insert_eq; intros [= <-]; by right|].
    rewrite lookup_insert_ne by done. by left.
  - rewrite lookup_insert_ne by done. by left.
Qed.

Lemma desired_in_want_groups binding holders scope scope' role groups desired e r :
  desired_in (want_groups binding holders scope role desired groups) scope' !! e = Some r →
  desired_in desired scope' !! e = Some r ∨
  (scope' = scope ∧ r = role ∧ ∃ group, group ∈ groups ∧ e ∈ live binding holders group).
Proof.
  unfold want_groups. revert desired. induction groups as [|group groups IH]; intros desired; [by left|].
  simpl. intros [Hs|(->&->&g&?&?)]%IH; [|right; split_and!; auto; exists g; split; [by right|done]].
  assert (∀ l desired, desired_in (foldl (want scope role) desired l) scope' !! e = Some r →
    desired_in desired scope' !! e = Some r ∨ (scope' = scope ∧ r = role ∧ e ∈ l)) as Hl.
  { induction l as [|x l IHl]; intros ds; [by left|]. simpl.
    intros [[?|(->&->&->)]%desired_in_want|(->&->&?)]%IHl; auto; right; split_and!; auto; [by left|by right]. }
  apply Hl in Hs as [?|(->&->&?)]; auto. right. split_and!; auto. exists group. split; [by left|done].
Qed.

(** What the binding asks of a scope: its member groups, or one team's groups. *)
Definition scope_groups (binding : GitHubOrg) scope (role : Role) : list string :=
  (if bool_decide (scope = "" ∧ role = RoleMember) then o_Members binding else []) ++
  match o_Teams binding !! scope with
  | Some team => match role with RoleMember => t_Members team | RoleMaintainer => t_Maintainers team end
  | None => []
  end.

Lemma derive_desired_spec binding holders scope e r :
  desired_in (derive_desired binding holders) scope !! e = Some r →
  ∃ group, group ∈ scope_groups binding scope r ∧ e ∈ live binding holders group.
Proof.
  unfold derive_desired. set (start := want_groups binding holders "" RoleMember ∅ (o_Members binding)).
  assert (∀ e r scope, desired_in start scope !! e = Some r →
    ∃ group, group ∈ scope_groups binding scope r ∧ e ∈ live binding holders group) as Hstart.
  { intros e' r' scope' [Hs|(->&->&g&?&?)]%desired_in_want_groups.
    - unfold desired_in in Hs. rewrite lookup_empty in Hs. simpl in Hs. by rewrite lookup_empty in Hs.
    - exists g. split; [|done]. unfold scope_groups. apply elem_of_app. left. by rewrite bool_decide_eq_true_2. }
  clearbody start. revert start Hstart.
  assert (∀ slug, slug ∈ sorted_keys (o_Teams binding) → is_Some (o_Teams binding !! slug)) as Hkeys.
  { intros slug Hin. by apply elem_of_sorted_keys. }
  induction (sorted_keys (o_Teams binding)) as [|slug slugs IH]; intros start Hstart Hs; [by eapply Hstart|].
  simpl in Hs. apply IH in Hs; [done|intros; apply Hkeys; by right|]. clear Hs IH scope e r.
  destruct (Hkeys slug) as [team Hteam]; [by left|]. rewrite Hteam. simpl.
  intros e r scope [[?|(->&->&g&?&?)]%desired_in_want_groups|(->&->&g&?&?)]%desired_in_want_groups; auto;
    exists g; (split; [|done]); unfold scope_groups; rewrite Hteam; apply elem_of_app; by right.
Qed.

Lemma elem_of_live binding holders group e :
  e ∈ live binding holders group ↔
  e ∉ IgnoredAddresses binding ∧ ∃ h, h ∈ default [] (holders !! group) ∧ hd_Live h = true ∧ e = ToLower (TrimSpace (hd_Email h)).
Proof.
  unfold live. rewrite elem_of_filter_bool, negb_true_iff, bool_decide_eq_false, list_elem_of_fmap.
  setoid_rewrite elem_of_filter_bool. naive_solver.
Qed.

Lemma elem_of_anywhere desired e :
  e ∈ anywhere_of desired ↔ ∃ scope, is_Some (desired_in desired scope !! e).
Proof.
  unfold anywhere_of. rewrite elem_of_list_to_set, list_elem_of_join. split.
  - intros (l&He&(m&->&Hm)%list_elem_of_fmap). apply list_elem_of_fmap in Hm as ([scope m']&->&Hm).
    apply elem_of_map_to_list in Hm. apply elem_of_keys in He. exists scope. unfold desired_in. by rewrite Hm.
  - intros (scope&He). unfold desired_in in He. destruct (desired !! scope) as [m|] eqn:Hm; simpl in He.
    + exists (keys m). split; [by apply elem_of_keys|]. apply list_elem_of_fmap_2. apply list_elem_of_fmap.
      exists (scope, m). split; [done|]. by apply elem_of_map_to_list.
    + rewrite lookup_empty in He. by destruct He.
Qed.
