(* ===== verification/LinkCheck.v ===== *)
(** * LinkCheck: the link check, and what may make a link lost

    [internal/githubroster/controller/links.go]: asking GitHub about a link, renewing its
    tokens, and what an organisation's decisions read afterwards.  What the check asks -
    GitHub's answers, and the store of links, which other replicas write to - are calls
    whose answers are anything ([ask]); a run is the calls it made, with their answers
    ([traced]).

    The theorems: only GitHub's own answer ever makes a link lost; a pair is renewed only
    right after its marker was written over the link that was read, with the token of
    the link as written; where GitHub does not answer, the link stands as it was.

    Warnings and metrics are left out; an audit record is what it is about. *)

From stdpp Require Import pretty.
From S2P Require Import Prelude GoStrings Names Vocabulary Policy Rails GitHub.
From S2P Require Import Runs Base64 Port Memory Items Links.

Implicit Types (login reason : string) (now : Z).

(** [internal/githubroster/controller/links.go:29-31 refreshAhead]: two hours. *)
Definition refreshAhead : Z := 2 * 3600 * 1000000000.

(** [internal/githubroster/link/link.go:type AppCredential]: what the check uses of it. *)
Record AppCredential := mkAppCredential { ac_AppID : Z; ac_ClientID : string; ac_ClientSecret : string }.

(** [internal/githubapp/user.go:type UserTokens] *)
Record UserTokens := mkUserTokens { ut_Access : string; ut_AccessExpires : Z; ut_Refresh : string; ut_RefreshExpires : Z }.
(** [internal/githubapp/user.go:type User] *)
Record User := mkUser { gu_ID : Z; gu_Login : string }.

(** Why a read of the account fails: GitHub refused the token, or anything else. *)
Inductive read_error := TokenRefused | NotRead.
(** Why a renewal fails: GitHub refused the grant, or anything else. *)
Inductive renew_error := AuthorizationRefused | NotRenewed.

(** What the check asks; [None] is an error. *)
Inductive ask : Type → Type :=
| CheckUserToken (token : string) : ask (option bool)
| CurrentUser (token : string) : ask (result read_error User)
| VerifiedEmails (token : string) : ask (result read_error (list string))
| RefreshUserTokens (token : string) : ask (result renew_error UserTokens)
| StoreUpdate (changed : list Link) : ask (option (list Link))
| StoreList : ask (option (list Link)).

(** [internal/audit/events.go:359-375 GitHubLinkLost]: about whom, and why. *)
Inductive link_event :=
| LinkNarrowed (person login reason : string)
| LinkUnverifiable (person login reason : string)
| LinkLost (person login reason : string).

(** [internal/githubroster/controller/links.go:firstEmail] *)
Definition firstEmail (l : Link) : string := match lk_Emails l with e :: _ => e | [] => "" end.

Definition answered (state reason : string) now (l : Link) : Link :=
  Forget (with_Checked (lk_Login l) now (with_ChangedAt now (with_Reason reason (with_State state l)))).

(** [internal/githubroster/controller/links.go:Controller.lose] *)
Definition lose (l : Link) now reason : Link * option link_event :=
  let l := answered StateLost reason now l in (l, Some (LinkLost (firstEmail l) (lk_Login l) reason)).

(** [internal/githubroster/controller/links.go:Controller.unverifiable] *)
Definition unverifiable (l : Link) now reason : Link * option link_event :=
  let l := answered StateUnverifiable reason now l in (l, Some (LinkUnverifiable (firstEmail l) (lk_Login l) reason)).

Definition marked_at (since : Z) (l : Link) : Link := with_times (lk_AccessExpires l) (lk_RefreshExpires l) since l.

(** [internal/githubroster/controller/links.go:Controller.refreshedElsewhere] *)
Definition refreshedElsewhere (was : Link) now : prog ask (option Link) :=
  Do StoreList (λ links, Ret (
    match links ≫= List.find (λ l, bool_decide (lk_ID l = lk_ID was)) with
    | Some l =>
        if negb (bool_decide (lk_Revision l = lk_Revision was)) && bool_decide (lk_State l = StateLinked) &&
           bool_decide (lk_RefreshingSince l = 0%Z) && negb (empty (lk_RefreshToken l)) &&
           (now + refreshAhead <? lk_AccessExpires l)%Z
        then Some l else None
    | None => None
    end)).

(** [internal/githubroster/controller/links.go:253-260 Controller.refresh]: the new pair
    is kept, in at most so many attempts. *)
Fixpoint keep_pair (attempts : nat) (l : Link) : prog ask Link :=
  match attempts with
  | 0 => Ret l
  | S attempts => Do (StoreUpdate [l]) (λ r, match r with Some [written] => Ret written | _ => keep_pair attempts l end)
  end.

(** [internal/githubroster/controller/links.go:211-226 Controller.refresh]: the swap was
    lost, so nothing was refreshed by us; a winner that is done left the pair to use. *)
Definition swap_lost (l : Link) now (written : option (list Link)) : prog ask (Link * option link_event * bool) :=
  let l := marked_at 0 l in
  match written with
  | None => Ret (l, None, false)
  | Some _ =>
      prog_bind (refreshedElsewhere l now) (λ current,
        Ret (match current with Some current => (current, None, true) | None => (l, None, false) end))
  end.

(** [internal/githubroster/controller/links.go:227-261 Controller.refresh]: the marker is
    written, so the pair may be traded. *)
Definition trade (l : Link) now : prog ask (Link * option link_event * bool) :=
  Do (RefreshUserTokens (lk_RefreshToken l)) (λ tokens,
    match tokens with
    | Err AuthorizationRefused =>
        Do (CheckUserToken (lk_AccessToken l)) (λ valid, Ret (
          match valid with
          | None => (l, None, false)
          | Some false => (lose l now "the authorization was revoked on GitHub, or the account is gone", false)
          | Some true => (unverifiable l now "GitHub would not renew the link's token: link the account again", false)
          end))
    | Err NotRenewed => Ret (l, None, false)
    | Ok t =>
        let l := with_times (ut_AccessExpires t) (ut_RefreshExpires t) 0 (with_tokens (ut_Access t) (ut_Refresh t) l) in
        prog_bind (keep_pair 3 l) (λ l, Ret (l, None, true))
    end).

(** [internal/githubroster/controller/links.go:Controller.refresh]: the link, its event,
    and whether to go on with it. *)
Definition refresh (l : Link) now : prog ask (Link * option link_event * bool) :=
  Do (StoreUpdate [marked_at now l]) (λ written,
    match written with Some [l] => trade l now | _ => swap_lost l now written end).

(** [internal/githubroster/controller/links.go:168-177 Controller.checkLink]: a read that
    failed. *)
Definition gone (l : Link) now (e : read_error) : prog ask (Link * option link_event) :=
  match e with
  | NotRead => Ret (l, None)
  | TokenRefused =>
      Do (CheckUserToken (lk_AccessToken l)) (λ valid, Ret (
        match valid with
        | Some false => lose l now "the authorization was revoked on GitHub, or the account is gone"
        | _ => (l, None)
        end))
  end.

(** [internal/githubroster/controller/links.go:178-200 Controller.checkLink]: what GitHub
    says of the account and its addresses. *)
Definition check_addresses (l : Link) now : prog ask (Link * option link_event) :=
  Do (CurrentUser (lk_AccessToken l)) (λ user,
    match user with
    | Err e => gone l now e
    | Ok user =>
        if negb (bool_decide (gu_ID user = lk_ID l)) then
          Ret (unverifiable l now ("the link's token belongs to account " +:+ pretty (gu_ID user)))
        else
          Do (VerifiedEmails (lk_AccessToken l)) (λ verified,
            match verified with
            | Err e => gone l now e
            | Ok verified => Ret (
                let l := with_Checked (gu_Login user) now l in
                let kept := List.filter (λ email, str_in email verified) (lk_Emails l) in
                if bool_decide (kept = []) then
                  lose l now ("no linked work address is verified on the account any more (" +:+ Join (lk_Emails l) ", " +:+ ")")
                else if length kept <? length (lk_Emails l) then
                  let dropped := List.filter (λ email, negb (str_in email kept)) (lk_Emails l) in
                  let l := with_ChangedAt now (with_Emails kept l) in
                  (l, Some (LinkNarrowed (firstEmail l) (lk_Login l)
                     ("no longer verified on the account: " +:+ Join dropped ", ")))
                else (l, None))
            end)
    end).

(** [internal/githubroster/controller/links.go:160-166 Controller.checkLink]: a token that
    is about to expire is renewed first. *)
Definition renew_then (l : Link) now : prog ask (Link * option link_event) :=
  if negb (empty (lk_RefreshToken l)) && negb (bool_decide (lk_AccessExpires l = 0%Z)) &&
     (lk_AccessExpires l <? now + refreshAhead)%Z
  then prog_bind (refresh l now) (λ '(l, event, ok), if ok : bool then check_addresses l now else Ret (l, event))
  else check_addresses l now.

(** [internal/githubroster/controller/links.go:Controller.checkLink] *)
Definition checkLink (credential : AppCredential) now (l : Link) : prog ask (Link * option link_event) :=
  if negb (bool_decide (lk_AppID l = ac_AppID credential)) then
    Ret (unverifiable l now "it was made with a link App that is no longer connected: link the account again")
  else if negb (bool_decide (lk_RefreshingSince l = 0%Z)) then
    Do (CheckUserToken (lk_AccessToken l)) (λ valid,
      match valid with
      | None => Ret (l, None)
      | Some false => Ret (unverifiable l now "a token refresh was interrupted and its tokens were lost: link the account again")
      | Some true => renew_then (marked_at 0 l) now
      end)
  else renew_then l now.

(** [internal/githubroster/controller/links.go:62-76 Controller.checkLinks]: each link in
    turn, with what changed and the records. *)
Fixpoint check_each (credential : AppCredential) (clock : nat → Z) (k : nat) (links : list Link) :
    prog ask (list Link * list Link * list link_event) :=
  match links with
  | [] => Ret ([], [], [])
  | l :: rest =>
      if negb (bool_decide (lk_State l = StateLinked)) || negb (Checked l)
      then prog_bind (check_each credential clock (S k) rest) (λ '(links, changed, events), Ret (l :: links, changed, events))
      else
        prog_bind (checkLink credential (clock k) l) (λ '(checked, event),
        prog_bind (check_each credential clock (S k) rest) (λ '(links, changed, events),
          Ret (checked :: links,
               if negb (bool_decide (lk_Revision checked = lk_Revision l)) || negb (bool_decide (lk_CheckedAt checked = lk_CheckedAt l)) ||
                  negb (bool_decide (lk_State checked = lk_State l))
               then checked :: changed else changed,
               option_list event ++ events)))
  end.

(** [internal/githubroster/controller/links.go:Controller.checkLinks]: the links as it
    leaves them and the records it reports; [None] is a store that could not be read.
    [credential] is the link App's, where it is connected and can be read. *)
Definition checkLinks (credential : option AppCredential) (clock : nat → Z) : prog ask (option (list Link * list link_event)) :=
  Do StoreList (λ links,
    match links with
    | None => Ret None
    | Some links =>
        match credential with
        | None => Ret (Some (links, []))
        | Some credential =>
            prog_bind (check_each credential clock 0 links) (λ '(links, changed, events),
              match changed with
              | [] => Ret (Some (links, events))
              | _ => Do (StoreUpdate changed) (λ _, Ret (Some (links, events)))
              end)
        end
    end).

(** [internal/githubroster/controller/links.go:102-110 Controller.storedLinks]: one link. *)
Definition stored_link (l : Link) : option GitHub.Link :=
  if Active l then Some (GitHub.mkLink (lk_ID l) (lk_Login l) (lk_Emails l) false "" (lk_LinkedAt l))
  else if bool_decide (lk_State l = StateLost)
  then Some (GitHub.mkLink (lk_ID l) (lk_Login l) (lk_Emails l) true (lk_Reason l) (lk_LinkedAt l))
  else None.

(** [internal/githubroster/controller/links.go:Controller.storedLinks]: what an
    organisation's decisions may use; nothing of a link that cannot be checked any more. *)
Definition storedLinks : prog ask (option (list GitHub.Link)) :=
  Do StoreList (λ links, Ret (match links with Some links => Some (omap stored_link links) | None => None end)).

(** ** Runs *)

(** One call with its answer. *)
Inductive asked :=
| SawToken (token : string) (valid : option bool)
| SawUser (token : string) (user : result read_error User)
| SawEmails (token : string) (emails : result read_error (list string))
| SawRenewed (token : string) (pair : result renew_error UserTokens)
| SawUpdate (changed : list Link) (written : option (list Link))
| SawList (links : option (list Link)).
Definition Asked {B} (c : ask B) : B → asked :=
  match c in ask B return B → asked with
  | CheckUserToken token => SawToken token
  | CurrentUser token => SawUser token
  | VerifiedEmails token => SawEmails token
  | RefreshUserTokens token => SawRenewed token
  | StoreUpdate changed => SawUpdate changed
  | StoreList => SawList
  end.

Notation traced := (Runs.traced (@Asked)).

(** ** What GitHub said *)


(** Where the account, the addresses and the token of a link come from that a check of [l]
    goes by: from [l], the token perhaps a new one GitHub traded in the check; or from the
    record of the same account as the store listed it in the check. *)
Definition stems (t : list asked) (l x : Link) : Prop :=
  lk_ID x = lk_ID l ∧
  (lk_Emails x = lk_Emails l ∧ (lk_AccessToken x = lk_AccessToken l ∨
     ∃ token pair, SawRenewed token (Ok pair) ∈ t ∧ lk_AccessToken x = ut_Access pair) ∨
   ∃ links current, SawList (Some links) ∈ t ∧ current ∈ links ∧ lk_ID current = lk_ID l ∧
     lk_Emails x = lk_Emails current ∧ lk_AccessToken x = lk_AccessToken current).






(** The same account, addresses and token. *)
Definition alike (l x : Link) : Prop := lk_ID x = lk_ID l ∧ lk_Emails x = lk_Emails l ∧ lk_AccessToken x = lk_AccessToken l.

Lemma stems_alike t l x : alike l x → stems t l x.
Proof. intros (?&?&?). split; [done|]. left. auto. Qed.


(** The store gives back the links it was given, at other revisions. *)
Definition honest (t : list asked) : Prop := ∀ ls ws w, SawUpdate ls (Some ws) ∈ t → w ∈ ws →
  ∃ l rev, l ∈ ls ∧ w = with_Revision rev l.

Lemma honest_part t t' : (∀ e, e ∈ t' → e ∈ t) → honest t → honest t'.
Proof. intros Hin Hh ls ws w Hw. by apply (Hh ls ws w), Hin. Qed.





Lemma swap_lost_linked l x now ws t r : lk_State x = StateLinked → alike l x → traced (swap_lost x now ws) t r →
  lk_State r.1.1 = StateLinked ∧ stems t l r.1.1.
Proof.
  intros Hst Hx. destruct ws as [ws|]; cbn [swap_lost]; [|intros [_ ->]; split; [done|by apply stems_alike]].
  intros (t1&t2&found&->&Hf&->&->)%traced_bind. destruct Hf as (links&t'&->&->&->).
  assert (lk_State (marked_at 0 x) = StateLinked ∧ ∀ t, stems t l (marked_at 0 x)) as [Hm1 Hm2].
  { split; [done|]. intros t. by apply stems_alike. }
  destruct (links ≫= _) as [y|] eqn:Hfind; [|by split]. destruct (_ && _) eqn:Hc; [|by split].
  destruct links as [links|]; [|done]. cbn in Hfind. apply List.find_some in Hfind as [Hin Hid%bool_decide_eq_true].
  split; [by repeat (apply andb_true_iff in Hc as [Hc ?]); apply bool_decide_eq_true in H2|].
  destruct Hx as (Hxid&_). cbn in Hid. split; [cbn; congruence|]. right. exists links, y. split; [by left|].
  split; [by apply list_elem_of_In|]. split_and!; [congruence|done..].
Qed.








(** ** Renewing *)

(** Every renewal directly follows the write of a marked link, and spends the refresh
    token of the link that write left. *)
Definition renewed_behind (marked : Link → Prop) (t : list asked) : Prop := ∀ before token pair after,
  t = before ++ SawRenewed token pair :: after →
  ∃ before' m w, marked m ∧ before = before' ++ [SawUpdate [m] (Some [w])] ∧ token = lk_RefreshToken w.
(** The link as it was read, marked. *)
Definition renewed_on (l : Link) now : list asked → Prop := renewed_behind (λ m, m = marked_at now l).
(** No renewal at all. *)
Definition quiet (t : list asked) : Prop := ∀ token pair, SawRenewed token pair ∉ t.

Lemma quiet_nil : quiet [].
Proof. intros ?? Hin. by apply elem_of_nil in Hin. Qed.
Lemma quiet_cons e t : (∀ token pair, e ≠ SawRenewed token pair) → quiet t → quiet (e :: t).
Proof. intros He Ht token pair [Heq|Hin]%elem_of_cons; [by apply (He token pair)|by apply (Ht token pair)]. Qed.
#[local] Hint Resolve quiet_nil quiet_cons : core.

Lemma renewed_quiet marked t : quiet t → renewed_behind marked t.
Proof. intros Hq before token pair after ->. destruct (Hq token pair). apply elem_of_app. right. by left. Qed.

Lemma renewed_app marked t1 t2 : renewed_behind marked t1 → renewed_behind marked t2 → renewed_behind marked (t1 ++ t2).
Proof.
  intros H1 H2 before token pair after [(k&->&Heq)|(k&->&Heq)]%app_eq_inv.
  - destruct k as [|e k]; [destruct (H2 [] token pair after (eq_sym Heq)) as (b&m&w&_&Hb&_); by destruct b|].
    injection Heq as <- ->. by apply (H1 before token pair k).
  - destruct (H2 k token pair after Heq) as (b&m&w&Hm&->&->). exists (t1 ++ b), m, w. by rewrite app_assoc.
Qed.

Lemma renewed_mono (m1 m2 : Link → Prop) t : (∀ m, m1 m → m2 m) → renewed_behind m1 t → renewed_behind m2 t.
Proof. intros Hm Ht before token pair after Heq. destruct (Ht before token pair after Heq) as (b&m&w&?&?). exists b, m, w. auto. Qed.

Lemma gone_quiet l now e t r : traced (gone l now e) t r → quiet t.
Proof. destruct e; [intros (?&?&->&->&_)|intros [-> _]]; eauto. Qed.

Lemma check_addresses_quiet l now t r : traced (check_addresses l now) t r → quiet t.
Proof.
  intros (user&t1&->&Hu). apply quiet_cons; [done|]. destruct user as [user|e]; [|by eapply gone_quiet].
  destruct (negb _); [by destruct Hu as [-> _]|]. destruct Hu as (verified&t2&->&Hv). apply quiet_cons; [done|].
  destruct verified as [verified|e]; [by destruct Hv as [-> _]|by eapply gone_quiet].
Qed.

Lemma quiet_app t1 t2 : quiet t1 → quiet t2 → quiet (t1 ++ t2).
Proof. intros H1 H2 token pair [?|?]%elem_of_app; [by eapply H1|by eapply H2]. Qed.

Lemma keep_pair_quiet n l t r : traced (keep_pair n l) t r → quiet t.
Proof.
  revert t. induction n as [|n IH]; intros t; [by intros [-> _]|]. intros (ws&t'&->&Ht). apply quiet_cons; [done|].
  destruct ws as [[|w [|]]|]; try by apply IH. by destruct Ht as [-> _].
Qed.

Lemma swap_lost_quiet l now ws t r : traced (swap_lost l now ws) t r → quiet t.
Proof.
  destruct ws; [|by intros [-> _]]. intros (t1&t2&found&->&(links&t'&->&->&_)&->&_)%traced_bind. eauto using quiet_app.
Qed.

Lemma trade_spends l now t r : traced (trade l now) t r → ∃ pair t', t = SawRenewed (lk_RefreshToken l) pair :: t' ∧ quiet t'.
Proof.
  intros (pair&t'&->&Ht). exists pair, t'. split; [done|]. destruct pair as [tokens|[]].
  - apply traced_bind in Ht as (t2&t3&l'&->&Hk%keep_pair_quiet&->&_). by apply quiet_app.
  - destruct Ht as (valid&t2&->&->&_). eauto.
  - by destruct Ht as [-> _].
Qed.

Lemma refresh_renewed l now t r : traced (refresh l now) t r → renewed_on l now t.
Proof.
  intros (ws&t1&->&Ht).
  destruct ws as [[|w [|]]|]; try (apply renewed_quiet, quiet_cons; [done|by eapply swap_lost_quiet]).
  apply trade_spends in Ht as (pair&t'&->&Hq). intros [|e0 [|e1 before]] token pair' after; [done| |].
  - intros [= <- <- <- <-]. by exists [], (marked_at now l), w.
  - intros [= _ _ ->]. destruct (Hq token pair'). apply elem_of_app. right. by left.
Qed.

Lemma renew_then_renewed l now t r : traced (renew_then l now) t r → renewed_on l now t.
Proof.
  unfold renew_then. destruct (_ && _); [|by intros ?%check_addresses_quiet; apply renewed_quiet].
  intros (t1&t2&[[l' event] ok]&->&Hr%refresh_renewed&Ht)%traced_bind. apply renewed_app; [done|]. apply renewed_quiet.
  destruct ok; [by eapply check_addresses_quiet|by destruct Ht as [-> _]].
Qed.

Lemma checkLink_renewed credential now l t r : traced (checkLink credential now l) t r → renewed_on l now t.
Proof.
  unfold checkLink. destruct (negb _); [by intros [-> _]; apply renewed_quiet|].
  destruct (negb _); [|by apply renew_then_renewed]. intros (valid&t'&->&Ht).
  apply (renewed_app _ [_] t'); [apply renewed_quiet; eauto|].
  destruct valid as [[]|]; [|destruct Ht as [-> _]; by apply renewed_quiet..].
  exact (renew_then_renewed (marked_at 0 l) now t' r Ht).
Qed.

(** A linked link, marked. *)
Definition marked_linked (m : Link) : Prop := ∃ l now, lk_State l = StateLinked ∧ m = marked_at now l.

Lemma check_each_renewed credential clock k links t r : traced (check_each credential clock k links) t r →
  renewed_behind marked_linked t.
Proof.
  revert k t r. induction links as [|l rest IH]; intros k t r; cbn [check_each]; [by intros [-> _]; apply renewed_quiet|].
  destruct (negb (bool_decide (lk_State l = StateLinked)) || negb (Checked l)) eqn:Hskip.
  - intros (t1&t2&[[ls ch] ev]&->&Ht%IH&->&_)%traced_bind. by rewrite app_nil_r.
  - apply orb_false_iff in Hskip as [Hst%negb_false_iff%bool_decide_eq_true _].
    intros (t1&t2&[checked event]&->&Hc%checkLink_renewed&(t3&t4&[[ls ch] ev]&->&Ht%IH&->&_)%traced_bind)%traced_bind.
    rewrite app_nil_r. apply renewed_app; [|done]. eapply renewed_mono; [|exact Hc]. intros m ->. by exists l, (clock k).
Qed.

(** ** Outages *)

(** GitHub said nothing: no token was answered for, and every read and renewal failed for
    another reason than a refusal. What the store says is anything. *)
Definition unanswered (e : asked) : Prop :=
  match e with
  | SawToken _ valid => valid = None
  | SawUser _ user => user = Err NotRead
  | SawEmails _ emails => emails = Err NotRead
  | SawRenewed _ traded => traded = Err NotRenewed
  | SawUpdate _ _ | SawList _ => True
  end.

Lemma check_addresses_outage l now t r : Forall unanswered t → traced (check_addresses l now) t r → r = (l, None).
Proof. intros Ht (user&t1&->&Hu). apply Forall_cons in Ht as [[= ->] _]. by destruct Hu. Qed.

Lemma refresh_outage l now t r : honest t → lk_State l = StateLinked → Forall unanswered t → traced (refresh l now) t r →
  r.1.2 = None ∧ lk_State r.1.1 = StateLinked.
Proof.
  intros Hh Hst Ho (ws&t1&->&Ht). apply Forall_cons in Ho as [_ Ho].
  destruct ws as [[|w [|]]|].
  2: { destruct (Hh [marked_at now l] [w] w) as (l'&rev&->%list_elem_of_singleton&->); [by left|by left|].
       destruct Ht as (pair&t2&->&Ht). apply Forall_cons in Ho as [[= ->] _]. by destruct Ht as [_ ->]. }
  all: split; [|by apply (swap_lost_linked l) in Ht as [? _]].
  1,2: apply traced_bind in Ht as (t2&t3&[found|]&_&_&_&->); done.
  by destruct Ht as [_ ->].
Qed.

(** ** Properties *)


(** a single-use refresh token is spent only behind the marker: in any pass, a renewal
    directly follows the write of one link, linked and marked as being refreshed, that the
    store accepted, and the token spent is the accepted link's. *)
Theorem renewals_follow_the_marker credential clock t r token pair before after
    (Ht : traced (checkLinks (Some credential) clock) t r) (Hr : t = before ++ SawRenewed token pair :: after) :
  ∃ before' l now w, lk_State l = StateLinked ∧ before = before' ++ [SawUpdate [marked_at now l] (Some [w])] ∧
    token = lk_RefreshToken w.
Proof.
  assert (renewed_behind marked_linked t) as Hall.
  { destruct Ht as (links&t'&->&Ht). apply (renewed_app _ [_] t'); [apply renewed_quiet; eauto|].
    destruct links as [links|]; [|by destruct Ht as [-> _]; apply renewed_quiet].
    apply traced_bind in Ht as (t1&t2&[[ls changed] ev]&->&Hc%check_each_renewed&Ht). apply renewed_app; [done|].
    destruct changed; [destruct Ht as [-> _]|destruct Ht as (w&t''&->&->&_)]; apply renewed_quiet; eauto. }
  destruct (Hall before token pair after Hr) as (before'&m&w&(l&now&Hl&->)&Hb&Htok). by exists before', l, now, w.
Qed.

(** an outage removes nobody: in a check of a linked link of the connected link App in
    which GitHub answers nothing, and another replica may write what it likes, no record is
    reported and the link stays linked. *)
Theorem outage_removes_nobody credential now l t r (Happ : lk_AppID l = ac_AppID credential) (Hl : lk_State l = StateLinked)
    (Hh : honest t) (Ho : Forall unanswered t) (Ht : traced (checkLink credential now l) t r) :
  r.2 = None ∧ lk_State r.1 = StateLinked.
Proof.
  unfold checkLink in Ht. rewrite bool_decide_true in Ht by done. cbn [negb] in Ht.
  destruct (negb _); [destruct Ht as (valid&t'&->&Ht); apply Forall_cons in Ho as [[= ->] _]; by destruct Ht as [_ ->]|].
  unfold renew_then in Ht. destruct (_ && _); [|apply check_addresses_outage in Ht as ->; done].
  apply traced_bind in Ht as (t1&t2&[[l' event] ok]&->&Hr&Ht). apply Forall_app in Ho as [Ho1 Ho2].
  apply refresh_outage in Hr as [He Hl']; [|eapply honest_part; [|exact Hh]; intros e He; apply elem_of_app; by left|done..].
  cbn in He, Hl'. destruct ok; [by apply check_addresses_outage in Ht as ->|by destruct Ht as [_ ->]].
Qed.

(** ** A run *)

(** A link about to expire is renewed, and its account no longer has the address. *)
Definition run_link : Link :=
  mkLink 1 7 "ann" SourceSelf "" 77 ["ann@acme.test"] StateLinked "" 10 10 0 1 "a1" 50 "r1" (90 * refreshAhead) 0.
Definition run_renewed : Link :=
  with_times (9 * refreshAhead) (90 * refreshAhead) 0 (with_tokens "a2" "r2" (with_Revision 2 (marked_at 20 run_link))).
Definition run_lost : Link := (lose (with_Checked "ann" 20 (with_Revision 3 run_renewed)) 20
  "no linked work address is verified on the account any more (ann@acme.test)").1.
Definition run_credential : AppCredential := mkAppCredential 77 "id" "secret".
Definition run_before : list asked :=
  [SawList (Some [run_link])] ++ [SawUpdate [marked_at 20 run_link] (Some [with_Revision 2 (marked_at 20 run_link)])].
Definition run_after : list asked :=
  [SawUpdate [run_renewed] (Some [with_Revision 3 run_renewed]); SawUser "a2" (Ok (mkUser 7 "ann"));
   SawEmails "a2" (Ok ["ann@home.test"]); SawUpdate [run_lost] (Some [with_Revision 4 run_lost])].
Definition run_pair : result renew_error UserTokens := Ok (mkUserTokens "a2" (9 * refreshAhead) "r2" (90 * refreshAhead)).
Definition run_trace : list asked := run_before ++ SawRenewed "r1" run_pair :: run_after.
Definition run_events : list link_event :=
  [LinkLost "ann@acme.test" "ann" "no linked work address is verified on the account any more (ann@acme.test)"].

(** The answers: a store that keeps the write or does not, and GitHub up or down. *)
Definition run_answers (up keeps : bool) (stored : Link) B (c : ask B) : B :=
  match c in ask B return B with
  | CheckUserToken _ => None
  | CurrentUser _ => if up then Ok (mkUser 7 "ann") else Err NotRead
  | VerifiedEmails _ => if up then Ok ["ann@home.test"] else Err NotRead
  | RefreshUserTokens _ => if up then run_pair else Err NotRenewed
  | StoreUpdate changed => if keeps then Some (map (λ l, with_Revision (lk_Revision l + 1) l) changed) else None
  | StoreList => Some [stored]
  end.

Lemma run_traced : traced (checkLinks (Some run_credential) (λ _, 20%Z)) run_trace (Some ([run_lost], run_events)).
Proof. apply (traced_played (@Asked) (run_answers true true run_link)). vm_compute. reflexivity. Qed.



Lemma renewals_follow_the_marker_witness : ∃ before' l now w, lk_State l = StateLinked ∧
  run_before = before' ++ [SawUpdate [marked_at now l] (Some [w])] ∧ "r1" = lk_RefreshToken w.
Proof.
  exact (renewals_follow_the_marker run_credential (λ _, 20%Z) run_trace _ "r1" run_pair run_before run_after run_traced eq_refl).
Defined.

(** GitHub is down: the marker is written, nothing is renewed, and the link stays. *)
Definition outage_trace : list asked :=
  [SawUpdate [marked_at 20 run_link] (Some [with_Revision 2 (marked_at 20 run_link)]); SawRenewed "r1" (Err NotRenewed)].

Lemma outage_traced : traced (checkLink run_credential 20 run_link) outage_trace (with_Revision 2 (marked_at 20 run_link), None).
Proof. apply (traced_played (@Asked) (run_answers false true run_link)). vm_compute. reflexivity. Qed.

Lemma outage_honest : honest outage_trace.
Proof.
  intros ls ws w [[= -> ->]|[?|Hin%elem_of_nil]%elem_of_cons]%elem_of_cons Hw; [|done|done].
  apply list_elem_of_singleton in Hw as ->. eexists _, _. split; [by left|reflexivity].
Qed.

Lemma outage_unanswered : Forall unanswered outage_trace.
Proof. by repeat constructor. Qed.

Lemma outage_removes_nobody_witness : lk_State (with_Revision 2 (marked_at 20 run_link)) = StateLinked.
Proof.
  exact (proj2 (outage_removes_nobody run_credential 20 run_link outage_trace _ eq_refl eq_refl outage_honest
    outage_unanswered outage_traced)).
Defined.

(** ** A marker of any age *)

(** A marker says only that a renewal was started, not that its replica is gone. While
    another replica is renewing a good link - GitHub has traded its pair and the new one is
    not kept yet - a check that reads the marker finds the old token invalid, gives the link
    up as unverifiable and writes that over the marker, at the marker's own revision; each
    attempt of the other replica to keep the new pair then loses its swap. *)
Definition marked_link : Link := with_Revision 2 (marked_at 20 run_link).
Definition given_up : Link :=
  (unverifiable marked_link 20 "a token refresh was interrupted and its tokens were lost: link the account again").1.

Lemma marker_gives_up_a_good_link : traced (checkLinks (Some run_credential) (λ _, 20%Z))
  [SawList (Some [marked_link]); SawToken "a1" (Some false); SawUpdate [given_up] (Some [with_Revision 3 given_up])]
  (Some ([given_up], [LinkUnverifiable "ann@acme.test" "ann"
     "a token refresh was interrupted and its tokens were lost: link the account again"])).
Proof.
  apply (traced_played (@Asked) (λ B c, match c in ask B return B with
    | CheckUserToken _ => Some false | c => run_answers true true marked_link _ c end)). vm_compute. reflexivity.
Qed.

(** ** Reports *)

(** The records a pass reports do not depend on whether what it found was kept: with a
    store that refuses the write (another writer came first, or the store is down), the
    link is still linked and its loss is reported all the same, in this pass and in
    the next. *)
Lemma reported_unkept : traced (checkLinks (Some run_credential) (λ _, 20%Z))
  [SawList (Some [with_Revision 3 run_renewed]); SawUser "a2" (Ok (mkUser 7 "ann")); SawEmails "a2" (Ok ["ann@home.test"]);
   SawUpdate [run_lost] None] (Some ([run_lost], run_events)).
Proof. apply (traced_played (@Asked) (run_answers true false (with_Revision 3 run_renewed))). vm_compute. reflexivity. Qed.
