(* ===== verification/GitHubDecide.v ===== *)
(** * GitHubDecide: the report and the changes of one pass

    [Draft.Decide] of [internal/githubroster/reconcile/reconcile.go] and the
    organisation-wide rules of [internal/githubroster/reconcile/guard.go]: who is
    invited, added, promoted and removed, and what stops that.

    The theorems are about safety: nobody leaves a team or the organisation
    without the directory vouching for it (or GitHub itself saying the link is
    gone), owners and ignored accounts are never removed or demoted, teams no
    binding names are never touched, nobody is invited past the free seats, and a
    pass that would remove more than half the members removes nobody unless that
    exact set was confirmed. *)

From stdpp Require Import pretty.
From S2P Require Import Prelude GoStrings Policy Rails GitHub.

Implicit Types (email login slug scope : string).

(** ** Invitations *)

(** What the loop over the wanted addresses builds. *)
Record invite_state := mkInviteState {
  in_invites : list Action; in_held : gmap string string; in_notLinked : gset string }.

Definition with_teams (a : Action) (teams : list Z) : Action :=
  mkAction (a_Kind a) (a_Team a) (a_Login a) (a_Email a) (a_Role a) teams (a_Account a) (a_Reason a).

(** The teams an invitation places the invitee in, with those that want [email]. *)
Definition invite_teams (d : Draft) email (teams : list Z) : list Z :=
  foldl (λ teams slug,
    match desired_in (d_desired d) slug !! email, d_teamID d !! slug with
    | Some _, Some id => if bool_decide (id ∈ teams) then teams else teams ++ [id]
    | _, _ => teams
    end) teams (sorted_keys (o_Teams (d_binding d))).

(** One invitation per linked account, whichever of its addresses is wanted. *)
Definition invite_account (d : Draft) (account : Link) email (invites : list Action) : list Action :=
  if existsb (λ a, bool_decide (a_Account a = l_ID account)) invites then
    (λ a, if bool_decide (a_Account a = l_ID account) then with_teams a (invite_teams d email (a_Teams a)) else a) <$> invites
  else
    invites ++ [mkAction ActionInvite "" (l_Login account) email (Some RoleMember) (invite_teams d email []) (l_ID account) ""].

(** [internal/githubroster/reconcile/reconcile.go:341-390 Draft.Decide invites] *)
Definition invite_step (d : Draft) (s : invite_state) email : invite_state :=
  if bool_decide (is_Some (d_loginOf d !! email)) || bool_decide (email ∈ d_invited d) then s
  else match d_ambiguous d !! email with
  | Some logins =>
      mkInviteState (in_invites s)
        (<[email := email +:+ " is linked to more than one account (" +:+ Join logins ", " +:+ ")"]> (in_held s))
        (in_notLinked s)
  | None =>
      match d_outside d !! email with
      | None => mkInviteState (in_invites s) (in_held s) ({[email]} ∪ in_notLinked s)
      | Some account =>
          if bool_decide ("@" +:+ ToLower (l_Login account) ∈ d_invited d) then s
          else mkInviteState (invite_account d account email (in_invites s)) (in_held s) (in_notLinked s)
      end
  end.

Definition invites_of (d : Draft) : invite_state :=
  foldl (invite_step d) (mkInviteState [] ∅ ∅) (sort_strings (elements (d_anywhere d))).

(** Why a wanted address has no account any more. *)
Definition lostBy (d : Draft) : gmap string string :=
  foldl (λ m login,
    match d_lost d !! login with
    | Some l => foldl (λ m email, <[ToLower email := "the link to @" +:+ login +:+ " is gone (" +:+ l_Reason l +:+ ")"]> m) m (l_Emails l)
    | None => m
    end) ∅ (sorted_keys (d_lost d)).

(** ** Rows *)

(** [internal/githubroster/reconcile/reconcile.go:392-432 Draft.Decide row] *)
Definition row (d : Draft) (iv : invite_state) (lost_by : gmap string string) scope email (role : Role) : Row * list Action :=
  match d_loginOf d !! email with
  | None =>
      let account := d_outside d !! email in
      let shown := match account with Some l => l_Login l | None => "" end in
      let member st act reason := (mkRow email shown role st act reason, []) in
      if bool_decide (email ∈ d_invited d) ||
         match account with Some l => bool_decide ("@" +:+ ToLower (l_Login l) ∈ d_invited d) | None => false end
      then member StateInvited None ""
      else match in_held iv !! email with
      | Some reason => member StateHeld (Some ActionInvite) reason
      | None =>
          if bool_decide (email ∈ in_notLinked iv) then
            match lost_by !! email with
            | Some why => member StateNotLinked None (why +:+ ": link the account again")
            | None => member StateNotLinked None (email +:+ " has not linked a GitHub account")
            end
          else member StatePending (Some ActionInvite) ""
      end
  | Some login =>
      if empty scope then (mkRow email login role StateSynced None "", [])
      else match default ∅ (d_current d !! scope) !! login with
      | None =>
          (mkRow email login role StatePending (Some ActionAdd) "",
           [mkAction ActionAdd scope login email (Some role) [] 0 ""])
      | Some current =>
          if is_owner (d_owner d) login && current && negb (bool_decide (role = RoleMaintainer)) then
            (mkRow email login RoleMaintainer StateReported None
               "an owner, kept as maintainer: owners are added and promoted, never demoted", [])
          else if negb (bool_decide (current = bool_decide (role = RoleMaintainer))) then
            (mkRow email login role StatePending (Some ActionSetRole) "",
             [mkAction ActionSetRole scope login email (Some role) [] 0 ""])
          else (mkRow email login role StateSynced None "", [])
      end
  end.

(** The rows of everybody a scope wants, in order of address, and their changes. *)
Definition wanted_rows (d : Draft) (iv : invite_state) lost_by scope : list (Row * list Action) :=
  (λ email, row d iv lost_by scope email (default RoleMember (desired_in (d_desired d) scope !! email)))
    <$> sorted_keys (desired_in (d_desired d) scope).

(** ** Leaving *)

(** [internal/githubroster/reconcile/reconcile.go:Draft.confirmTeamRemoval] *)
Definition confirmTeamRemoval (d : Draft) slug (emails : list string) (confirmations : gmap string Vouch) : string * bool :=
  Removal emails confirmations (GitHubTeam_Groups (default (mkGitHubTeam [] []) (o_Teams (d_binding d) !! slug))).

(** [internal/githubroster/reconcile/reconcile.go:Draft.allGone] *)
Definition allGone (emails : list string) (confirmations : gmap string Vouch) : bool :=
  forallb (λ email, match confirmations !! email with Some c => Gone c | None => false end) emails.

Definition first_of (emails : list string) : string := match emails with email :: _ => email | [] => "" end.

(** [internal/githubroster/reconcile/reconcile.go:454-482 Draft.Decide team leavers] *)
Definition team_leaver (d : Draft) (confirmations : gmap string Vouch) slug login : option (Row * list Action) :=
  let emails := emails_of (d_emailsOf d) login in
  if bool_decide (emails = []) || wantsAny (d_desired d) slug emails then None
  else
    let role := roleOf (default false (default ∅ (d_current d !! slug) !! login)) in
    let member st act reason := mkRow (first_of emails) login role st act reason in
    if is_owner (d_owner d) login then
      Some (member StateReported None "an owner, left in the team: owners are added and promoted, never removed", [])
    else
      let '(reason, remove) := confirmTeamRemoval d slug emails confirmations in
      if remove then
        Some (member StateLeaving (Some ActionRemove) "", [mkAction ActionRemove slug login (first_of emails) None [] 0 ""])
      else if negb (empty reason) then Some (member StateRetrying (Some ActionRemove) reason, [])
      else Some (member StateSynced None "", []).

(** One team: held as a whole when GitHub has no such team. *)
Definition decide_team (d : Draft) (iv : invite_state) lost_by (confirmations : gmap string Vouch) slug
    : TeamReport * list Action :=
  match d_teamID d !! slug with
  | None =>
      (mkTeamReport slug ((λ email,
         mkRow email (default "" (d_loginOf d !! email)) (default RoleMember (desired_in (d_desired d) slug !! email))
           StateHeld (Some ActionAdd) (d_org d +:+ " has no team " +:+ slug))
         <$> sorted_keys (desired_in (d_desired d) slug)), [])
  | Some _ =>
      let rows := wanted_rows d iv lost_by slug ++
                  omap (team_leaver d confirmations slug) (sorted_keys (default ∅ (d_current d !! slug))) in
      (mkTeamReport slug rows.*1, mjoin rows.*2)
  end.

(** [internal/githubroster/reconcile/reconcile.go:486-503 Draft.Decide organisation leavers] *)
Definition org_leaver (d : Draft) (confirmations : gmap string Vouch) login : option (Row * list Action) :=
  let emails := emails_of (d_emailsOf d) login in
  if wantsAnywhere (d_anywhere d) emails || negb (allGone emails confirmations) then None
  else if is_owner (d_owner d) login then
    Some (mkRow (first_of emails) login RoleMember StateReported None
            "an owner, managed outside: the directory no longer has them", [])
  else
    Some (mkRow (first_of emails) login RoleMember StateLeaving (Some ActionRemove) "",
          [mkAction ActionRemove "" login (first_of emails) None [] 0 ""]).

(** [internal/githubroster/reconcile/reconcile.go:505-521 Draft.Decide lost links] *)
Definition lost_leaver (d : Draft) login : option (Row * list Action) :=
  match d_lost d !! login with
  | None => None
  | Some l =>
      let email := first_of (l_Emails l) in
      if is_owner (d_owner d) login then
        Some (mkRow email login RoleMember StateReported None
                ("an owner, managed outside: the link is gone (" +:+ l_Reason l +:+ ")"), [])
      else
        let reason := "the link is gone: " +:+ l_Reason l in
        Some (mkRow email login RoleMember StateLeaving (Some ActionRemove) reason,
              [mkAction ActionRemove "" login email None [] 0 reason])
  end.

(** [internal/githubroster/reconcile/reconcile.go:dropTeamWorkForLeavers] *)
Definition leaving (actions : list Action) : list string :=
  a_Login <$> List.filter (λ a, bool_decide (a_Kind a = ActionRemove) && empty (a_Team a)) actions.
Definition dropTeamWorkForLeavers (actions : list Action) : list Action :=
  List.filter (λ a, empty (a_Team a) || negb (str_in (a_Login a) (leaving actions))) actions.

(** Every change a pass decides on, before the team work of leavers is dropped. *)
Definition all_actions (d : Draft) (confirmations : gmap string Vouch) : list Action :=
  let iv := invites_of d in
  ((λ a, with_teams a (merge_sort Z.le (a_Teams a))) <$> in_invites iv) ++
  mjoin (wanted_rows d iv (lostBy d) "").*2 ++
  mjoin (decide_team d iv (lostBy d) confirmations <$> sorted_keys (o_Teams (d_binding d))).*2 ++
  mjoin (omap (org_leaver d confirmations) (sorted_keys (d_emailsOf d))).*2 ++
  mjoin (omap (lost_leaver d) (sorted_keys (d_lost d))).*2.

(** [internal/githubroster/reconcile/reconcile.go:Draft.Decide] *)
Definition Draft_Decide (d : Draft) (confirmations : gmap string Vouch) : OrgReport * list Action :=
  let iv := invites_of d in
  (mkOrgReport (d_org d)
     ((wanted_rows d iv (lostBy d) "").*1 ++
      (omap (org_leaver d confirmations) (sorted_keys (d_emailsOf d))).*1 ++
      (omap (lost_leaver d) (sorted_keys (d_lost d))).*1)
     (decide_team d iv (lostBy d) confirmations <$> sorted_keys (o_Teams (d_binding d))).*1
     (d_unlinked d) None None,
   dropTeamWorkForLeavers (all_actions d confirmations)).

(** ** The organisation-wide rules *)

(** [internal/githubapp/org.go:type FailedInvitation] *)
Record FailedInvitation := mkFailed { fi_Login : string; fi_FailedAt : Z }.

(** [internal/githubroster/reconcile/guard.go:type Guards]; the plan's seats are [None] when unknown. *)
Record Guards := mkGuards {
  gu_Plan : option (Z * Z); gu_Pending : Z; gu_Failed : list FailedInvitation; gu_LinkedAt : gmap Z Z;
  gu_Members : nat; gu_Confirmed : string }.

(** [internal/githubroster/reconcile/guard.go:34-35 ignoredAfter] *)
Definition ignoredAfter : nat := 2.

(** [internal/githubroster/reconcile/guard.go:142-150 setRows matches] *)
Definition row_matches (a : Action) (m : Row) : bool :=
  bool_decide (w_Action m = Some (a_Kind a)) &&
  (if bool_decide (a_Kind a = ActionInvite)
   then bool_decide (w_Email m = a_Email a) || (negb (empty (a_Login a)) && EqualFold (w_Login m) (a_Login a))
   else EqualFold (w_Login m) (a_Login a)).

(** [internal/githubroster/reconcile/guard.go:setRows] *)
Definition setRows (report : OrgReport) (a : Action) (change : Row → Row) : OrgReport :=
  let on m := if row_matches a m then change m else m in
  mkOrgReport (or_Org report)
    (if bool_decide (a_Kind a = ActionInvite) || empty (a_Team a) then on <$> or_Members report else or_Members report)
    ((λ t, if bool_decide (a_Kind a = ActionRemove) && negb (empty (a_Team a)) && negb (bool_decide (tr_Team t = a_Team a))
           then t else mkTeamReport (tr_Team t) (on <$> tr_Members t)) <$> or_Teams report)
    (or_Unlinked report) (or_Seats report) (or_Breaker report).

(** [slices.DeleteFunc] with a predicate that edits the report as it goes. *)
Fixpoint delete_func {S} (f : S → Action → S * bool) (s : S) (actions : list Action) : S * list Action :=
  match actions with
  | [] => (s, [])
  | a :: rest =>
      let '(s, gone) := f s a in
      let '(s, remaining) := delete_func f s rest in
      (s, if gone then remaining else a :: remaining)
  end.

(** How many invitations an account let expire since it last linked; an account
    with no link counts from the zero time. *)
Definition expired (g : Guards) (a : Action) : nat :=
  length (List.filter (λ failed,
    EqualFold (fi_Login failed) (a_Login a) &&
    match gu_LinkedAt g !! a_Account a with Some at_ => (at_ <? fi_FailedAt failed)%Z | None => true end) (gu_Failed g)).

Definition row_state (state : RowState) (action : option ActionKind → option ActionKind) (reason : string) (m : Row) : Row :=
  mkRow (w_Email m) (w_Login m) (w_Role m) state (action (w_Action m)) reason.

(** [internal/githubroster/reconcile/guard.go:ignoreRepeatedInvitations] *)
Definition ignoreRepeatedInvitations (report : OrgReport) (actions : list Action) (g : Guards) : OrgReport * list Action :=
  delete_func (λ report a,
    if negb (bool_decide (a_Kind a = ActionInvite)) || (a_Account a =? 0)%Z then (report, false)
    else if expired g a <? ignoredAfter then (report, false)
    else (setRows report a (row_state StateIgnored (λ _, None)
            ("@" +:+ a_Login a +:+ " let " +:+ pretty (Z.of_nat (expired g a)) +:+
             " invitations expire; linking the account again invites them again")), true)) report actions.

Definition no_seat (g : Guards) : string :=
  match gu_Plan g with
  | Some _ => "no free seat: buy a seat in the organisation's billing, and the invitation goes out on the next pass"
  | None => "seats cannot be counted: approve organisation administration (read) for the App, and invitations go out on the next pass"
  end.

Definition free_seats (g : Guards) : Z :=
  match gu_Plan g with Some (total, filled) => Z.max 0 (total - filled - gu_Pending g) | None => 0 end.

(** One action against the seats left; the state is the report, the seats left
    and how many invitations went without. *)
Definition seat_step (g : Guards) (s : OrgReport * Z * nat) (a : Action) : (OrgReport * Z * nat) * bool :=
  let '(report, free, short) := s in
  if negb (bool_decide (a_Kind a = ActionInvite)) then (s, false)
  else if bool_decide (is_Some (gu_Plan g)) && (0 <? free)%Z then ((report, (free - 1)%Z, short), false)
  else ((setRows report a (row_state StateHeld (λ act, act) (no_seat g)), free, S short), true).

(** [internal/githubroster/reconcile/guard.go:fitSeats] *)
Definition fitSeats (report : OrgReport) (actions : list Action) (g : Guards) : OrgReport * list Action :=
  let free := free_seats g in
  let '((report, _, short), remaining) := delete_func (seat_step g) (report, free, 0) actions in
  let '(total, filled) := default (0, 0)%Z (gu_Plan g) in
  (mkOrgReport (or_Org report) (or_Members report) (or_Teams report) (or_Unlinked report)
     (Some (mkSeats (bool_decide (is_Some (gu_Plan g))) total filled (gu_Pending g) free short)) (or_Breaker report), remaining).

(** What the breaker counts: the accounts removals concern, and a line each. *)
Definition removals (actions : list Action) : list Action := List.filter (λ a, bool_decide (a_Kind a = ActionRemove)) actions.
Definition affected (actions : list Action) : gset string := list_to_set ((λ a, ToLower (a_Login a)) <$> removals actions).
Definition removal_lines (actions : list Action) : list string :=
  (λ a, ToLower (a_Login a) +:+ "|" +:+ a_Team a) <$> removals actions.

(** [internal/githubroster/reconcile/guard.go:breakMassRemoval] *)
Definition breakMassRemoval (report : OrgReport) (actions : list Action) (g : Guards) : OrgReport * list Action :=
  match CheckBreaker (size (affected actions)) (removal_lines actions) (gu_Members g) (gu_Confirmed g) with
  | None => (report, actions)
  | Some breaker =>
      let report := mkOrgReport (or_Org report) (or_Members report) (or_Teams report) (or_Unlinked report)
                      (or_Seats report) (Some breaker) in
      if b_Confirmed breaker then (report, actions)
      else
        let reason := "over the removal limit — " +:+ pretty (Z.of_nat (b_Affected breaker)) +:+ " of " +:+
          pretty (Z.of_nat (b_Total breaker)) +:+ " members at once: an operator confirms this set in the console" in
        delete_func (λ report a,
          if negb (bool_decide (a_Kind a = ActionRemove)) then (report, false)
          else (setRows report a (row_state StateHeld (λ act, act) reason), true)) report actions
  end.

(** [internal/githubroster/reconcile/guard.go:Guard] *)
Definition Guard (report : OrgReport) (actions : list Action) (g : Guards) : OrgReport * list Action :=
  let '(report, actions) := ignoreRepeatedInvitations report actions g in
  let '(report, actions) := fitSeats report actions g in
  breakMassRemoval report actions g.

(** ** Lemmas: where a change comes from *)

Lemma row_action d iv lost_by scope email role a : a ∈ (row d iv lost_by scope email role).2 →
  scope ≠ "" ∧ a_Team a = scope ∧ a_Email a = email ∧ a_Role a = Some role ∧
  d_loginOf d !! email = Some (a_Login a) ∧
  (a_Kind a = ActionAdd ∧ default ∅ (d_current d !! scope) !! a_Login a = None ∨
   a_Kind a = ActionSetRole ∧ ∃ current, default ∅ (d_current d !! scope) !! a_Login a = Some current ∧
     current ≠ bool_decide (role = RoleMaintainer) ∧ (is_owner (d_owner d) (a_Login a) = true → role = RoleMaintainer)).
Proof.
  unfold row. destruct (d_loginOf d !! email) as [login|] eqn:Hlogin.
  - destruct (empty scope) eqn:Hscope; [by intros ?%elem_of_nil|].
    destruct (default ∅ (d_current d !! scope) !! login) as [current|] eqn:Hcur.
    + destruct (is_owner _ _ && current && _) eqn:Howner; [by intros ?%elem_of_nil|].
      destruct (negb (bool_decide (current = _))) eqn:Hrole; [|by intros ?%elem_of_nil].
      intros ->%list_elem_of_singleton. simpl. split_and!; auto; [by intros ->|].
      right. split; [done|]. exists current. apply negb_true_iff, bool_decide_eq_false in Hrole.
      split_and!; auto. intros Ho. rewrite Ho in Howner. simpl in Howner.
      case_bool_decide; [done|]. exfalso. by destruct current.
    + intros ->%list_elem_of_singleton. simpl. split_and!; auto. by intros ->.
  - repeat case_match; by intros ?%elem_of_nil.
Qed.

Lemma team_leaver_action d confirmations slug login r a :
  team_leaver d confirmations slug login = Some r → a ∈ r.2 →
  a_Kind a = ActionRemove ∧ a_Team a = slug ∧ a_Login a = login ∧ is_owner (d_owner d) login = false ∧
  wantsAny (d_desired d) slug (emails_of (d_emailsOf d) login) = false ∧ emails_of (d_emailsOf d) login ≠ [] ∧
  (confirmTeamRemoval d slug (emails_of (d_emailsOf d) login) confirmations).2 = true.
Proof.
  unfold team_leaver. set (emails := emails_of _ _). case_bool_decide as Hne; [done|].
  destruct (wantsAny _ _ _) eqn:Hwants; [done|]. simpl.
  destruct (is_owner _ _) eqn:Ho; [by intros [= <-] ?%elem_of_nil|].
  destruct (confirmTeamRemoval d slug emails confirmations) as [reason remove]. destruct remove.
  - intros [= <-] ->%list_elem_of_singleton. by split_and!.
  - destruct (negb (empty reason)); by intros [= <-] ?%elem_of_nil.
Qed.

Lemma org_leaver_action d confirmations login r a :
  org_leaver d confirmations login = Some r → a ∈ r.2 →
  a_Kind a = ActionRemove ∧ a_Team a = "" ∧ a_Login a = login ∧ is_owner (d_owner d) login = false ∧
  wantsAnywhere (d_anywhere d) (emails_of (d_emailsOf d) login) = false ∧
  allGone (emails_of (d_emailsOf d) login) confirmations = true.
Proof.
  unfold org_leaver. destruct (wantsAnywhere _ _); [done|]. destruct (allGone _ _); [|done]. simpl.
  destruct (is_owner _ _) eqn:Ho; [by intros [= <-] ?%elem_of_nil|].
  intros [= <-] ->%list_elem_of_singleton. by split_and!.
Qed.

Lemma lost_leaver_action d login r a : lost_leaver d login = Some r → a ∈ r.2 →
  a_Kind a = ActionRemove ∧ a_Team a = "" ∧ a_Login a = login ∧ is_owner (d_owner d) login = false ∧
  is_Some (d_lost d !! login).
Proof.
  unfold lost_leaver. destruct (d_lost d !! login) as [l|]; [|done].
  destruct (is_owner _ _) eqn:Ho; [by intros [= <-] ?%elem_of_nil|].
  intros [= <-] ->%list_elem_of_singleton. split_and!; by try eexists.
Qed.

(** The four places a change that is not an invitation can come from. *)
Inductive change_source (d : Draft) (confirmations : gmap string Vouch) (a : Action) : Prop :=
  | from_row slug email role :
      is_Some (o_Teams (d_binding d) !! slug) → is_Some (d_teamID d !! slug) →
      desired_in (d_desired d) slug !! email = Some role →
      a ∈ (row d (invites_of d) (lostBy d) slug email role).2 → change_source d confirmations a
  | from_team slug login r :
      is_Some (o_Teams (d_binding d) !! slug) → is_Some (default ∅ (d_current d !! slug) !! login) →
      team_leaver d confirmations slug login = Some r → a ∈ r.2 → change_source d confirmations a
  | from_org login r : is_Some (d_emailsOf d !! login) →
      org_leaver d confirmations login = Some r → a ∈ r.2 → change_source d confirmations a
  | from_lost login r : lost_leaver d login = Some r → a ∈ r.2 → change_source d confirmations a.

Lemma wanted_rows_action d iv lost_by scope a : a ∈ mjoin (wanted_rows d iv lost_by scope).*2 →
  ∃ email role, desired_in (d_desired d) scope !! email = Some role ∧ a ∈ (row d iv lost_by scope email role).2.
Proof.
  rewrite elem_of_mjoin_snd. intros (r&Hr&Ha). unfold wanted_rows in Hr.
  apply list_elem_of_fmap in Hr as (email&->&[role Hin]%elem_of_sorted_keys).
  exists email, role. split; [done|]. by rewrite Hin in Ha.
Qed.

Lemma rest_inv d confirmations a :
  a ∈ mjoin (wanted_rows d (invites_of d) (lostBy d) "").*2 ++
      mjoin (decide_team d (invites_of d) (lostBy d) confirmations <$> sorted_keys (o_Teams (d_binding d))).*2 ++
      mjoin (omap (org_leaver d confirmations) (sorted_keys (d_emailsOf d))).*2 ++
      mjoin (omap (lost_leaver d) (sorted_keys (d_lost d))).*2 → change_source d confirmations a.
Proof.
  rewrite !elem_of_app. intros [Ho|[Ht|[Hl|Hl]]].
  - apply wanted_rows_action in Ho as (email&role&_&(Hs&_)%row_action). done.
  - apply elem_of_mjoin_snd in Ht as (r&Hr&Ha).
    apply list_elem_of_fmap in Hr as (slug&->&Hslug%elem_of_sorted_keys).
    unfold decide_team in Ha. destruct (d_teamID d !! slug) as [id|] eqn:Hid; [|by apply elem_of_nil in Ha].
    simpl in Ha. rewrite fmap_app in Ha. apply list_elem_of_join in Ha as (l&Ha&[Hl|Hl]%elem_of_app).
    + destruct (wanted_rows_action d (invites_of d) (lostBy d) slug a) as (email&role&Hd&Hin).
      { apply list_elem_of_join. eauto. }
      by eapply from_row; eauto.
    + apply list_elem_of_fmap in Hl as (r&->&(login&Hin%elem_of_sorted_keys&Hr)%list_elem_of_omap).
      by eapply from_team; eauto.
  - apply elem_of_mjoin_snd in Hl as (r&(login&Hin%elem_of_sorted_keys&Hr)%list_elem_of_omap&Ha).
    by eapply from_org; eauto.
  - apply elem_of_mjoin_snd in Hl as (r&(login&_&Hr)%list_elem_of_omap&Ha).
    by eapply from_lost; eauto.
Qed.

Lemma all_actions_inv d confirmations a : a ∈ all_actions d confirmations →
  (∃ i, i ∈ in_invites (invites_of d) ∧ a = with_teams i (merge_sort Z.le (a_Teams i))) ∨ change_source d confirmations a.
Proof.
  unfold all_actions. rewrite elem_of_app. intros [Hi|Hr]; [|right; by apply rest_inv].
  apply list_elem_of_fmap in Hi as (i&->&Hi). eauto.
Qed.

Lemma change_kind d confirmations a : change_source d confirmations a → a_Kind a ≠ ActionInvite.
Proof.
  intros [slug email role _ _ _ H|slug login r _ _ Hl Hr|login r _ Hl Hr|login r Hl Hr].
  - apply row_action in H as (_&_&_&_&_&[[-> _]|[-> _]]); done.
  - by destruct (team_leaver_action _ _ _ _ _ _ Hl Hr) as [-> _].
  - by destruct (org_leaver_action _ _ _ _ _ Hl Hr) as [-> _].
  - by destruct (lost_leaver_action _ _ _ _ Hl Hr) as [-> _].
Qed.

Lemma dropTeamWorkForLeavers_sub actions a : a ∈ dropTeamWorkForLeavers actions → a ∈ actions.
Proof. unfold dropTeamWorkForLeavers. by intros [? _]%elem_of_filter_bool. Qed.

(** *** Invitations *)

(** What an invitation being built says: an account linked outside the
    organisation, wanted by an address of it, and not invited yet. *)
Definition invite_ok (d : Draft) (a : Action) : Prop :=
  a_Kind a = ActionInvite ∧ a_Team a = "" ∧ a_Role a = Some RoleMember ∧
  a_Email a ∈ d_anywhere d ∧ a_Email a ∉ d_invited d ∧ d_loginOf d !! a_Email a = None ∧
  d_ambiguous d !! a_Email a = None ∧
  (∃ account, d_outside d !! a_Email a = Some account ∧ a_Account a = l_ID account ∧ a_Login a = l_Login account ∧
    "@" +:+ ToLower (l_Login account) ∉ d_invited d) ∧
  ∀ id, id ∈ a_Teams a → ∃ slug email, is_Some (o_Teams (d_binding d) !! slug) ∧ d_teamID d !! slug = Some id ∧
    is_Some (desired_in (d_desired d) slug !! email) ∧
    ∃ account, d_outside d !! email = Some account ∧ l_ID account = a_Account a.

Lemma elem_of_invite_teams d email teams id : id ∈ invite_teams d email teams →
  id ∈ teams ∨ ∃ slug, is_Some (o_Teams (d_binding d) !! slug) ∧ d_teamID d !! slug = Some id ∧
    is_Some (desired_in (d_desired d) slug !! email).
Proof.
  unfold invite_teams.
  assert (∀ slug, slug ∈ sorted_keys (o_Teams (d_binding d)) → is_Some (o_Teams (d_binding d) !! slug)) as Hkeys
    by (intros slug; by rewrite elem_of_sorted_keys).
  revert teams Hkeys. induction (sorted_keys (o_Teams (d_binding d))) as [|slug slugs IH]; intros teams Hkeys Hin; [by left|].
  simpl in Hin. apply IH in Hin as [Hin|?]; [|by right|by intros; apply Hkeys; right].
  destruct (desired_in (d_desired d) slug !! email) as [role|] eqn:Hd; [|by left].
  destruct (d_teamID d !! slug) as [id'|] eqn:Hid; [|by left]. case_bool_decide; [by left|].
  apply elem_of_app in Hin as [?| ->%list_elem_of_singleton]; [by left|]. right. exists slug.
  split_and!; [apply Hkeys; by left|done|by eexists].
Qed.

Lemma invites_of_ok d : Forall (invite_ok d) (in_invites (invites_of d)) ∧
  NoDup (a_Account <$> in_invites (invites_of d)).
Proof.
  unfold invites_of.
  assert (∀ email, email ∈ sort_strings (elements (d_anywhere d)) → email ∈ d_anywhere d) as Hany.
  { intros email. by rewrite elem_of_sort_strings, elem_of_elements. }
  revert Hany. set (start := mkInviteState [] ∅ ∅).
  assert (Forall (invite_ok d) (in_invites start) ∧ NoDup (a_Account <$> in_invites start)) as Hstart.
  { split; [by apply Forall_nil|by apply NoDup_nil]. }
  clearbody start. revert start Hstart.
  induction (sort_strings _) as [|email emails IH]; intros s Hs Hany; [done|]. simpl.
  apply IH; [|by intros; apply Hany; right]. specialize (Hany email ltac:(by left)). clear IH.
  unfold invite_step. destruct (bool_decide (is_Some (d_loginOf d !! email))) eqn:Hlogin; [done|].
  apply bool_decide_eq_false in Hlogin. simpl. case_bool_decide as Hinv; [done|].
  destruct (d_ambiguous d !! email) eqn:Hamb; [done|].
  destruct (d_outside d !! email) as [account|] eqn:Hout; [|done]. case_bool_decide as Hinv'; [done|]. simpl.
  assert (d_loginOf d !! email = None) as Hlogin' by (by apply eq_None_not_Some).
  destruct Hs as [Hok Hnd]. unfold invite_account. destruct (existsb _ _) eqn:Hex.
  - split.
    + apply Forall_fmap, (Forall_impl (invite_ok d)); [done|]. intros a Ha. simpl. case_bool_decide as Hid; [|done].
      destruct Ha as (?&?&?&?&?&?&?&?&Hteams). unfold invite_ok. simpl. split_and!; auto.
      intros id [Hin|(slug&?&?&?)]%elem_of_invite_teams; [by apply Hteams|].
      exists slug, email. split_and!; auto. exists account. auto.
    + rewrite <- list_fmap_compose. erewrite list_fmap_ext; [done|]. intros i a _. simpl. by case_bool_decide.
  - split.
    + apply Forall_app. split; [done|]. apply Forall_singleton. unfold invite_ok. simpl. split_and!; auto; [by exists account|].
      intros id [Hin|(slug&?&?&?)]%elem_of_invite_teams; [by apply elem_of_nil in Hin|].
      exists slug, email. split_and!; auto. by exists account.
    + rewrite fmap_app. apply NoDup_app. split_and!; [done| |apply NoDup_singleton].
      simpl. intros id Hin Heq%list_elem_of_singleton. subst id.
      apply list_elem_of_fmap in Hin as (a&Heq&Hin). apply not_true_iff_false in Hex. destruct Hex.
      apply existsb_exists. exists a. rewrite <- list_elem_of_In. split; [done|]. by rewrite bool_decide_eq_true_2.
Qed.

Lemma invites_kind d i : i ∈ in_invites (invites_of d) → a_Kind i = ActionInvite.
Proof. intros Hi. destruct (invites_of_ok d) as [Hok _]. by apply (proj1 (Forall_forall _ _) Hok i Hi). Qed.

(** A change that is not an invitation comes from one of the four places. *)
Lemma change_inv d confirmations a : a ∈ (Draft_Decide d confirmations).2 → a_Kind a ≠ ActionInvite →
  change_source d confirmations a.
Proof.
  simpl. intros Ha%dropTeamWorkForLeavers_sub Hk. apply all_actions_inv in Ha as [(i&Hi&->)|?]; [|done].
  simpl in Hk. by rewrite (invites_kind d i) in Hk.
Qed.

(** The invitations of a pass are the ones built, with their teams in order. *)
Lemma Decide_invites d confirmations :
  List.filter (λ a, bool_decide (a_Kind a = ActionInvite)) (Draft_Decide d confirmations).2 =
  (λ a, with_teams a (merge_sort Z.le (a_Teams a))) <$> in_invites (invites_of d).
Proof.
  simpl. destruct (invites_of_ok d) as [Hok _]. set (f := λ a, bool_decide (a_Kind a = ActionInvite)).
  assert (∀ l, (∀ a, a ∈ l → change_source d confirmations a) → List.filter f l = []) as Hnone.
  { intros l Hl. induction l as [|a l IH]; [done|]. simpl. unfold f at 1.
    rewrite bool_decide_eq_false_2; [apply IH; intros; apply Hl; by right|].
    intros Hk. by apply (change_kind d confirmations a); [apply Hl; left|]. }
  set (invites := (λ a, with_teams a (merge_sort Z.le (a_Teams a))) <$> in_invites (invites_of d)).
  assert (Forall (λ a, a_Kind a = ActionInvite ∧ a_Team a = "") invites) as Hinv.
  { apply Forall_fmap, (Forall_impl (invite_ok d)); [done|]. intros a (?&?&_). by split. }
  assert (∃ rest, all_actions d confirmations = invites ++ rest ∧ ∀ a, a ∈ rest → change_source d confirmations a) as (rest&Heq&Hrest).
  { unfold all_actions. eexists. split; [done|]. intros a Ha.
    rewrite !elem_of_app in Ha. apply rest_inv. by rewrite !elem_of_app. }
  unfold dropTeamWorkForLeavers. rewrite Heq, !List.filter_app.
  rewrite (Hnone (List.filter _ rest)), app_nil_r by (intros a [? _]%elem_of_filter_bool; auto).
  generalize (leaving (invites ++ rest)) as gone. clear Heq. intros gone.
  induction Hinv as [|a l [Hk Ht] Hl IH]; [done|]. simpl. rewrite Ht. simpl. unfold f at 1. rewrite Hk. simpl. by rewrite IH.
Qed.

(** *** What the confirmations are asked for *)

Lemma wantsAny_false desired scope emails :
  wantsAny desired scope emails = false ↔ ∀ email, email ∈ emails → desired_in desired scope !! email = None.
Proof.
  unfold wantsAny. rewrite <- not_true_iff_false, existsb_exists. split.
  - intros H email Hin. apply eq_None_not_Some. intros Hs. destruct H. exists email.
    rewrite <- list_elem_of_In. by rewrite bool_decide_eq_true_2.
  - intros H (email&Hin&Hs%bool_decide_eq_true). apply list_elem_of_In, H in Hin. rewrite Hin in Hs. by destruct Hs.
Qed.

Lemma wantsAnywhere_false anywhere emails :
  wantsAnywhere anywhere emails = false ↔ ∀ email, email ∈ emails → email ∉ anywhere.
Proof.
  unfold wantsAnywhere. rewrite <- not_true_iff_false, existsb_exists. split.
  - intros H email Hin Hs. destruct H. exists email. rewrite <- list_elem_of_In. by rewrite bool_decide_eq_true_2.
  - intros H (email&Hin&Hs%bool_decide_eq_true). by apply list_elem_of_In, H in Hin.
Qed.

Lemma allGone_true emails confirmations : allGone emails confirmations = true ↔
  ∀ email, email ∈ emails → ∃ v, confirmations !! email = Some v ∧ Gone v = true.
Proof.
  unfold allGone. rewrite forallb_forall. setoid_rewrite list_elem_of_In. split.
  - intros H email Hin%H. destruct (confirmations !! email) as [v|]; [|done]. eauto.
  - intros H email (v&->&?)%H. done.
Qed.

Lemma allGone_agree emails c1 c2 : (∀ email, email ∈ emails → c1 !! email = c2 !! email) →
  allGone emails c1 = allGone emails c2.
Proof.
  induction emails as [|email rest IH]; intros H; [done|]. simpl. rewrite (H email) by (by left).
  by rewrite IH by (intros; apply H; by right).
Qed.

Section confirmations.
Context (d : Draft) (c1 c2 : gmap string Vouch).
Context (Hcand : d_candidates d = candidates_of (d_binding d) (d_desired d) (d_current d) (d_owner d) (d_emailsOf d)).
Context (Hany : d_anywhere d = anywhere_of (d_desired d)).
Context (Hagree : ∀ email, email ∈ Draft_Confirm d → c1 !! email = c2 !! email).

Lemma candidate_agree email : email ∈ d_candidates d → c1 !! email = c2 !! email.
Proof using Hagree. intros H. apply Hagree. unfold Draft_Confirm. by rewrite elem_of_sort_strings, elem_of_elements. Qed.

Lemma team_leaver_agree slug login : is_Some (o_Teams (d_binding d) !! slug) →
  is_Some (default ∅ (d_current d !! slug) !! login) →
  team_leaver d c1 slug login = team_leaver d c2 slug login.
Proof using Hcand Hagree.
  intros Hslug Hlogin. unfold team_leaver. set (emails := emails_of (d_emailsOf d) login).
  destruct (bool_decide (emails = []) || wantsAny (d_desired d) slug emails) eqn:Hskip; [done|].
  destruct (is_owner (d_owner d) login) eqn:Howner; [done|]. unfold confirmTeamRemoval.
  rewrite (Removal_agree emails c1 c2); [done|]. intros email Hin. apply candidate_agree. rewrite Hcand.
  unfold candidates_of. rewrite elem_of_list_to_set, elem_of_app, !list_elem_of_join. left.
  eexists. split; [|apply list_elem_of_fmap_2, (proj2 (elem_of_keys _ slug)); done].
  rewrite list_elem_of_join. exists emails. split; [done|]. apply list_elem_of_fmap. exists login.
  cbn zeta. fold emails. apply orb_false_iff in Hskip as [_ Hwants]. rewrite Howner, Hwants. split; [done|]. by apply elem_of_keys.
Qed.

Lemma org_leaver_agree login : is_Some (d_emailsOf d !! login) → org_leaver d c1 login = org_leaver d c2 login.
Proof using Hcand Hany Hagree.
  intros [emails Hes]. unfold org_leaver, emails_of. rewrite Hes. simpl.
  destruct (wantsAnywhere (d_anywhere d) emails) eqn:Hwants; [done|].
  rewrite (allGone_agree emails c1 c2); [done|]. intros email Hin. apply candidate_agree. rewrite Hcand.
  unfold candidates_of. rewrite elem_of_list_to_set, elem_of_app, !list_elem_of_join. right.
  exists emails. split; [done|]. apply list_elem_of_fmap. exists emails.
  rewrite <- Hany, Hwants. split; [done|]. apply list_elem_of_fmap. exists (login, emails).
  split; [done|]. by apply elem_of_map_to_list.
Qed.

Lemma decide_team_agree iv lost_by slug : is_Some (o_Teams (d_binding d) !! slug) →
  decide_team d iv lost_by c1 slug = decide_team d iv lost_by c2 slug.
Proof using Hcand Hagree.
  intros Hslug. unfold decide_team. destruct (d_teamID d !! slug); [|done].
  rewrite (omap_agree (team_leaver d c1 slug) (team_leaver d c2 slug)); [done|].
  intros login Hin%elem_of_sorted_keys. by apply team_leaver_agree.
Qed.

Lemma Decide_agree : Draft_Decide d c1 = Draft_Decide d c2.
Proof using Hcand Hany Hagree.
  assert (decide_team d (invites_of d) (lostBy d) c1 <$> sorted_keys (o_Teams (d_binding d)) =
          decide_team d (invites_of d) (lostBy d) c2 <$> sorted_keys (o_Teams (d_binding d))) as Hteams.
  { apply list_fmap_ext. intros i slug Hi%list_elem_of_lookup_2%elem_of_sorted_keys. by apply decide_team_agree. }
  assert (omap (org_leaver d c1) (sorted_keys (d_emailsOf d)) = omap (org_leaver d c2) (sorted_keys (d_emailsOf d))) as Horg.
  { apply omap_agree. intros login Hin%elem_of_sorted_keys. by apply org_leaver_agree. }
  unfold Draft_Decide, all_actions. by rewrite Hteams, Horg.
Qed.
End confirmations.

Lemma Derive_shape org binding holders state : let d := Derive org binding holders state in
  d_candidates d = candidates_of (d_binding d) (d_desired d) (d_current d) (d_owner d) (d_emailsOf d) ∧
  d_anywhere d = anywhere_of (d_desired d) ∧ d_desired d = derive_desired binding holders ∧
  d_binding d = binding ∧ d_invited d = invited_of (os_Invitations state).
Proof. unfold Derive. by destruct (foldl (outside_step _ _) _ _) as [outside ambiguous]. Qed.

(** *** The organisation-wide rules *)

Lemma delete_func_filter {S} (f : S → Action → S * bool) (gone : Action → bool) s actions :
  (∀ s a, (f s a).2 = gone a) → (delete_func f s actions).2 = List.filter (λ a, negb (gone a)) actions.
Proof.
  intros Hf. revert s. induction actions as [|a rest IH]; intros s; [done|]. simpl.
  pose proof (Hf s a) as Ha. destruct (f s a) as [s' b]. simpl in Ha. subst b.
  specialize (IH s'). destruct (delete_func f s' rest) as [s'' remaining]. simpl in *. subst remaining.
  by destruct (gone a).
Qed.

Definition is_invite (a : Action) : bool := bool_decide (a_Kind a = ActionInvite).
(** An invitation refused: the account let two expire since it last linked. *)
Definition refused (g : Guards) (a : Action) : bool :=
  is_invite a && negb (a_Account a =? 0)%Z && (ignoredAfter <=? expired g a).

Lemma ignoreRepeatedInvitations_actions report actions g :
  (ignoreRepeatedInvitations report actions g).2 = List.filter (λ a, negb (refused g a)) actions.
Proof.
  apply delete_func_filter. intros s a. unfold refused, is_invite.
  destruct (Nat.ltb_spec (expired g a) ignoredAfter), (Nat.leb_spec ignoredAfter (expired g a)); try lia;
    by destruct (bool_decide (a_Kind a = ActionInvite)), (a_Account a =? 0)%Z.
Qed.

Lemma fit_seats_fold g report free short actions : (0 <= free)%Z → (gu_Plan g = None → free = 0%Z) →
  let '((_, _, short'), remaining) := delete_func (seat_step g) (report, free, short) actions in
  List.filter is_invite remaining = take (Z.to_nat free) (List.filter is_invite actions) ∧
  List.filter (λ a, negb (is_invite a)) remaining = List.filter (λ a, negb (is_invite a)) actions ∧
  short' = short + (length (List.filter is_invite actions) - Z.to_nat free).
Proof.
  revert report free short. induction actions as [|a rest IH]; intros report free short Hfree Hplan.
  { simpl. rewrite take_nil. split_and!; [done..|lia]. }
  cbn [delete_func]. unfold seat_step at 1. fold (is_invite a). destruct (is_invite a) eqn:Ha; cbn [negb].
  - destruct (bool_decide (is_Some (gu_Plan g)) && (0 <? free)%Z) eqn:Hseat.
    + apply andb_true_iff in Hseat as [_ Hpos%Z.ltb_lt].
      specialize (IH report (free - 1)%Z short ltac:(lia)). destruct (delete_func _ _ rest) as [[[r f] sh] remaining].
      destruct IH as (H1&H2&H3); [intros Hn; specialize (Hplan Hn); lia|].
      simpl. rewrite Ha. simpl. rewrite H1, H2. replace (Z.to_nat free) with (S (Z.to_nat (free - 1))) by lia.
      simpl. split_and!; [done..|lia].
    + assert (free = 0%Z) as ->.
      { apply andb_false_iff in Hseat as [Hn%bool_decide_eq_false|Hz%Z.ltb_ge]; [|lia].
        apply Hplan. by apply eq_None_not_Some. }
      match goal with |- context [delete_func _ (?r, _, _) rest] => specialize (IH r 0%Z (S short) ltac:(lia) Hplan) end.
      destruct (delete_func _ _ rest) as [[[r f] sh] remaining]. destruct IH as (H1&H2&H3).
      simpl. rewrite Ha. simpl in *. rewrite H1, H2. split_and!; [done..|lia].
  - specialize (IH report free short Hfree Hplan). destruct (delete_func _ _ rest) as [[[r f] sh] remaining].
    destruct IH as (H1&H2&H3). simpl. rewrite Ha. simpl. by rewrite H1, H2.
Qed.

Lemma free_seats_bounds g : (0 <= free_seats g)%Z ∧ (gu_Plan g = None → free_seats g = 0%Z).
Proof. unfold free_seats. destruct (gu_Plan g) as [[total filled]|]; split; [lia|done|lia|done]. Qed.

Lemma fitSeats_spec report actions g : let '(report', remaining) := fitSeats report actions g in
  List.filter is_invite remaining = take (Z.to_nat (free_seats g)) (List.filter is_invite actions) ∧
  List.filter (λ a, negb (is_invite a)) remaining = List.filter (λ a, negb (is_invite a)) actions ∧
  (∃ seats, or_Seats report' = Some seats ∧ se_Free seats = free_seats g ∧
    se_Short seats = length (List.filter is_invite actions) - Z.to_nat (free_seats g)).
Proof.
  destruct (free_seats_bounds g) as [H1 H2]. unfold fitSeats.
  pose proof (fit_seats_fold g report (free_seats g) 0 actions H1 H2) as H.
  destruct (delete_func _ _ _) as [[[r f] short] remaining]. destruct H as (?&?&->).
  destruct (default _ _) as [total filled]. simpl. split_and!; eauto.
Qed.

(** Removals are let through, or all held. *)
Definition removals_allowed (actions : list Action) (g : Guards) : bool :=
  bool_decide (gu_Members g = 0) || (size (affected actions) * 2 <=? gu_Members g) ||
  (negb (empty (gu_Confirmed g)) && bool_decide (gu_Confirmed g = Fingerprint (removal_lines actions))).

Lemma delete_func_seats (f : OrgReport → Action → OrgReport * bool) report actions :
  (∀ r a, or_Seats (f r a).1 = or_Seats r) → or_Seats (delete_func f report actions).1 = or_Seats report.
Proof.
  intros Hf. revert report. induction actions as [|a rest IH]; intros report; [done|]. simpl.
  pose proof (Hf report a) as Ha. destruct (f report a) as [r b]. simpl in Ha.
  specialize (IH r). destruct (delete_func f r rest) as [r' remaining]. simpl in *. congruence.
Qed.

Lemma breakMassRemoval_spec report actions g : let '(report', remaining) := breakMassRemoval report actions g in
  remaining = (if removals_allowed actions g then actions
               else List.filter (λ a, negb (bool_decide (a_Kind a = ActionRemove))) actions) ∧
  or_Seats report' = or_Seats report.
Proof.
  unfold breakMassRemoval, removals_allowed. destruct (CheckBreaker _ _ _ _) as [b|] eqn:Hb.
  - destruct (CheckBreaker_some _ _ _ _ _ Hb) as ([Hpos Hlt]&_&_&_&Hconf).
    rewrite bool_decide_eq_false_2 by lia. rewrite (proj2 (Nat.leb_gt _ _)) by lia. simpl.
    destruct (b_Confirmed b) eqn:Hc.
    + destruct (proj1 Hconf eq_refl) as [Hne Heq].
      by rewrite (proj2 (empty_false _) Hne), bool_decide_eq_true_2 by done.
    + destruct (negb (empty (gu_Confirmed g)) && _) eqn:Hx.
      { apply andb_true_iff in Hx as [Hne%negb_true_iff%empty_false Heq%bool_decide_eq_true].
        discriminate (proj2 Hconf (conj Hne Heq)). }
      match goal with |- context [delete_func ?f ?r actions] =>
        pose proof (delete_func_filter f (λ a, bool_decide (a_Kind a = ActionRemove)) r actions) as Hd;
        pose proof (delete_func_seats f r actions) as Hs; destruct (delete_func f r actions) as [r' remaining] end.
      simpl in *. split.
      * apply Hd. intros s a. by destruct (bool_decide (a_Kind a = ActionRemove)).
      * apply Hs. intros s a. by destruct (bool_decide (a_Kind a = ActionRemove)).
  - apply CheckBreaker_none in Hb as [-> |Hb]; [by rewrite bool_decide_eq_true_2 by done|].
    rewrite (proj2 (Nat.leb_le _ _) Hb), orb_true_r. done.
Qed.

Lemma removals_allowed_true actions g : removals_allowed actions g = true ↔
  gu_Members g = 0 ∨ size (affected actions) * 2 ≤ gu_Members g ∨
  gu_Confirmed g ≠ "" ∧ gu_Confirmed g = Fingerprint (removal_lines actions).
Proof.
  unfold removals_allowed. rewrite !orb_true_iff, andb_true_iff, negb_true_iff, empty_false, !bool_decide_eq_true, Nat.leb_le.
  tauto.
Qed.

(** Filters that agree on what the non-invitations are see the same removals. *)
Lemma filter_through (f : Action → bool) l l' : (∀ a, f a = true → is_invite a = false) →
  List.filter (λ a, negb (is_invite a)) l = List.filter (λ a, negb (is_invite a)) l' → List.filter f l = List.filter f l'.
Proof.
  intros Hf H. assert (∀ l, List.filter f l = List.filter f (List.filter (λ a, negb (is_invite a)) l)) as Hl.
  { intros l''. rewrite filter_filter. apply filter_agree. intros a. specialize (Hf a).
    destruct (f a), (is_invite a); simpl; auto; by specialize (Hf eq_refl). }
  by rewrite (Hl l), (Hl l'), H.
Qed.

Definition is_team_change (a : Action) : bool := bool_decide (a_Kind a = ActionAdd ∨ a_Kind a = ActionSetRole).

Lemma Guard_stages report actions g : let '(report', actions') := Guard report actions g in
  let eligible := List.filter (λ a, is_invite a && negb (refused g a)) actions in
  List.filter is_invite actions' = take (Z.to_nat (free_seats g)) eligible ∧
  removals actions' = (if removals_allowed actions g then removals actions else []) ∧
  List.filter is_team_change actions' = List.filter is_team_change actions ∧
  (∃ seats, or_Seats report' = Some seats ∧ se_Free seats = free_seats g ∧
    se_Short seats = length eligible - Z.to_nat (free_seats g)).
Proof.
  unfold Guard. pose proof (ignoreRepeatedInvitations_actions report actions g) as H1.
  destruct (ignoreRepeatedInvitations report actions g) as [r1 a1]. simpl in H1.
  pose proof (fitSeats_spec r1 a1 g) as H2. destruct (fitSeats r1 a1 g) as [r2 a2]. destruct H2 as (H2&H3&seats&Hs&Hf&Hsh).
  pose proof (breakMassRemoval_spec r2 a2 g) as H4. destruct (breakMassRemoval r2 a2 g) as [r3 a3]. destruct H4 as [H4 H5].
  assert (List.filter is_invite a1 = List.filter (λ a, is_invite a && negb (refused g a)) actions) as Helig
    by (by rewrite H1, filter_filter).
  assert (∀ f : Action → bool, (∀ a, f a = true → is_invite a = false) → List.filter f a2 = List.filter f actions) as Hkeep.
  { intros f Hfi. apply filter_through; [done|]. rewrite H3, H1, filter_filter. apply filter_agree. intros a.
    unfold refused. by destruct (is_invite a). }
  assert (removals a2 = removals actions) as Hrem.
  { apply Hkeep. unfold is_invite. intros a ->%bool_decide_eq_true. done. }
  assert (removals_allowed a2 g = removals_allowed actions g) as Hall
    by (unfold removals_allowed, affected, removal_lines; by rewrite Hrem).
  rewrite Hall in H4. rewrite Helig in H2, Hsh. cbn zeta. rewrite H5. split_and!; [| | |by exists seats].
  - rewrite <- H2, H4. destruct (removals_allowed actions g); [done|]. rewrite filter_filter. apply filter_agree.
    intros a. unfold is_invite. by destruct (a_Kind a).
  - rewrite H4, <- Hrem. destruct (removals_allowed actions g); [done|]. unfold removals. rewrite filter_filter.
    clear. induction a2 as [|a l IH]; [done|]. simpl. by rewrite andb_negb_r.
  - rewrite <- (Hkeep is_team_change), H4; [|unfold is_team_change, is_invite; intros a; by destruct (a_Kind a)].
    destruct (removals_allowed actions g); [done|]. rewrite filter_filter. apply filter_agree.
    intros a. unfold is_team_change. by destruct (a_Kind a).
Qed.

(** ** Properties *)

(** nobody is removed on less than an answer about every address.  A removal
    names a member of the organisation who is no owner and whose login the
    binding does not ignore, and then one of three things holds: GitHub says the
    link is gone and the account shows no other address; no scope of the
    organisation wants any of its addresses and the directory says each of them
    is gone; or, for one of the binding's teams, the team wants none of its
    addresses and the directory vouches, with authority, that each of them is
    gone or holds none of that team's groups. *)
Theorem Draft_Decide_removals org binding holders state confirmations a :
  NoDup (am_Login <$> os_Members state) →
  a ∈ (Draft_Decide (Derive org binding holders state) confirmations).2 → a_Kind a = ActionRemove →
  ∃ m, m ∈ os_Members state ∧ am_Login m = a_Login a ∧ am_Owner m = false ∧
    ToLower (am_Login m) ∉ IgnoredLogins binding ∧
    let emails := proven binding (links_of (os_Links state)) m in
    let desired := derive_desired binding holders in
    (a_Team a = "" ∧ emails = [] ∧ (∃ l, links_of (os_Links state) !! am_ID m = Some l ∧ l_Lost l = true) ∨
     a_Team a = "" ∧ emails ≠ [] ∧ (∀ email, email ∈ emails →
       (∀ scope, desired_in desired scope !! email = None) ∧
       ∃ v, confirmations !! email = Some v ∧ Gone v = true) ∨
     emails ≠ [] ∧ ∃ team, o_Teams binding !! a_Team a = Some team ∧ ∀ email, email ∈ emails →
       desired_in desired (a_Team a) !! email = None ∧ settles confirmations (GitHubTeam_Groups team) email).
Proof.
  intros Hnd Ha Hkind. destruct (Derive_shape org binding holders state) as (_&Hany&Hdes&Hbind&_).
  set (d := Derive org binding holders state) in *.
  destruct (change_inv d confirmations a Ha) as [slug email role _ _ _ Hrow|slug login r [team Hteam] _ Hl Hr|login r [es Hes] Hl Hr|login r Hl Hr];
    [congruence|..].
  - apply row_action in Hrow as (_&_&_&_&_&[[Hk _]|[Hk _]]); congruence.
  - destruct (team_leaver_action _ _ _ _ _ _ Hl Hr) as (_&Hslug&Hlogin&Ho&Hw&Hne&Hrem). subst slug login.
    unfold emails_of in *. destruct (d_emailsOf d !! a_Login a) as [es|] eqn:Hes; [|done]. simpl in *.
    destruct (Derive_emailsOf org binding holders state Hnd _ _ Hes) as (_&m&Hm&Heq&Hown&Hign&Hall).
    exists m. fold d in Hown. rewrite Heq, Ho in *. split_and!; auto. right. right.
    split; [destruct es as [|e es]; [done|]; intros Hp; assert (e ∈ []) as []%not_elem_of_nil by (rewrite <- Hp; apply Hall; by left)|].
    rewrite Hbind in Hteam. exists team. split; [done|]. intros email Hin%Hall.
    rewrite <- Hdes. split; [by apply wantsAny_false with es|].
    unfold confirmTeamRemoval in Hrem. rewrite Hbind, Hteam in Hrem.
    apply Removal_true in Hrem. by apply (proj1 (Forall_forall _ _) Hrem).
  - destruct (org_leaver_action _ _ _ _ _ Hl Hr) as (_&Hteam&Hlogin&Ho&Hw&Hgone). subst login.
    unfold emails_of in *. rewrite Hes in *. simpl in *.
    destruct (Derive_emailsOf org binding holders state Hnd _ _ Hes) as (Hne&m&Hm&Heq&Hown&Hign&Hall).
    exists m. fold d in Hown. rewrite Heq, Ho in *. split_and!; auto. right. left. split; [done|].
    split; [destruct es as [|e es]; [done|]; intros Hp; assert (e ∈ []) as []%not_elem_of_nil by (rewrite <- Hp; apply Hall; by left)|].
    intros email Hin%Hall. split; [|by eapply allGone_true].
    intros scope. apply eq_None_not_Some. intros Hs. destruct (proj1 (wantsAnywhere_false _ _) Hw email Hin).
    rewrite Hany, Hdes. apply elem_of_anywhere. by exists scope.
  - destruct (lost_leaver_action _ _ _ _ Hl Hr) as (_&Hteam&Hlogin&Ho&[l Hlost]). subst login.
    destruct (Derive_lostOf org binding holders state Hnd _ _ Hlost) as (Hl'&m&Hm&Heq&Hown&Hign&Hlink&Hp).
    exists m. fold d in Hown. rewrite Heq, Ho in *. split_and!; auto. left. split_and!; auto. by exists l.
Qed.


(** an invitation goes to an account that proved an address the organisation
    wants, and to nobody twice.  The account has a link that holds and is no
    member; the address is one of the link's, is wanted in some scope, is not
    ignored, belongs to no member of the organisation and has no pending
    invitation, nor has the login; the teams the invitation names are teams of
    the binding, with GitHub's ids, that want an address of the same account; and
    a pass has at most one invitation per account. *)
Theorem Draft_Decide_invites org binding holders state confirmations :
  NoDup (am_Login <$> os_Members state) →
  let d := Derive org binding holders state in
  let invites := List.filter (λ a, bool_decide (a_Kind a = ActionInvite)) (Draft_Decide d confirmations).2 in
  NoDup (a_Account <$> invites) ∧
  ∀ a, a ∈ invites →
    a_Team a = "" ∧
    (∃ scope, is_Some (desired_in (derive_desired binding holders) scope !! a_Email a)) ∧
    a_Email a ∉ invited_of (os_Invitations state) ∧ "@" +:+ ToLower (a_Login a) ∉ invited_of (os_Invitations state) ∧
    (∀ m, m ∈ os_Members state → ToLower (am_Login m) ∉ IgnoredLogins binding →
      a_Email a ∉ proven binding (links_of (os_Links state)) m) ∧
    (∃ account, account ∈ os_Links state ∧ a_Account a = l_ID account ∧ a_Login a = l_Login account ∧
      l_Lost account = false ∧ l_ID account ∉ am_ID <$> os_Members state ∧
      ToLower (l_Login account) ∉ IgnoredLogins binding ∧
      a_Email a ∈ ToLower <$> l_Emails account ∧ a_Email a ∉ IgnoredAddresses binding) ∧
    (∀ id, id ∈ a_Teams a → ∃ slug email, is_Some (o_Teams binding !! slug) ∧ slug ∈ at_Slug <$> os_Teams state ∧
      d_teamID d !! slug = Some id ∧ is_Some (desired_in (derive_desired binding holders) slug !! email) ∧
      ∃ account, account ∈ os_Links state ∧ l_ID account = a_Account a ∧ email ∈ ToLower <$> l_Emails account).
Proof.
  intros Hnd d invites. destruct (Derive_shape org binding holders state) as (_&Hany&Hdes&Hbind&Hinv).
  fold d in Hany, Hdes, Hbind, Hinv. destruct (invites_of_ok d) as [Hok Hacc]. split.
  { unfold invites. by rewrite (Decide_invites d confirmations), <- list_fmap_compose. }
  intros a Ha. unfold invites in Ha. rewrite (Decide_invites d confirmations) in Ha.
  apply list_elem_of_fmap in Ha as (i&->&Hi).
  destruct (proj1 (Forall_forall _ _) Hok i Hi) as (_&Ht&_&Hwant&Hni&Hlogin&Hamb&(account&Hout&Hid&Hl&Hnl)&Hteams).
  simpl. rewrite <- Hinv, <- Hdes. rewrite Hany in Hwant. apply elem_of_anywhere in Hwant.
  destruct (Derive_outside org binding holders state _ _ Hout) as (Hlink&Hlost&Hnm&Hil&Hmail&Him).
  split_and!; auto; [by rewrite Hl|..].
  - intros m Hm Hmi. by eapply (Derive_nobody org binding holders state Hnd).
  - exists account. by split_and!.
  - intros id Hin. rewrite merge_sort_Permutation in Hin. destruct (Hteams id Hin) as (slug&email&Hs&Hid'&Hd&(account'&Hout'&Heq)).
    rewrite Hbind in Hs. exists slug, email. destruct (Derive_outside org binding holders state _ _ Hout') as (?&_&_&_&?&_).
    split_and!; auto; [apply (Derive_team org binding holders); by eexists|]. by exists account'.
Qed.

(** asking about the addresses [Confirm] names is enough: two sets of answers
    that agree on them lead to the same report and the same changes. *)
Theorem Draft_Decide_confirmed org binding holders state c1 c2 :
  let d := Derive org binding holders state in
  (∀ email, email ∈ Draft_Confirm d → c1 !! email = c2 !! email) →
  Draft_Decide d c1 = Draft_Decide d c2.
Proof. intros d H. destruct (Derive_shape org binding holders state) as (?&?&_). by apply Decide_agree. Qed.

(** no invitation goes out without a seat.  Of the invitations not refused for
    two expired ones, exactly the first as many as there are free seats go out, in
    the order decided; none when the plan cannot be counted; and the report says
    how many go without. *)
Theorem Guard_invitations report actions g :
  let '(report', actions') := Guard report actions g in
  let eligible := List.filter (λ a, is_invite a && negb (refused g a)) actions in
  List.filter is_invite actions' = take (Z.to_nat (free_seats g)) eligible ∧
  (gu_Plan g = None → List.filter is_invite actions' = []) ∧
  (∃ seats, or_Seats report' = Some seats ∧ se_Free seats = free_seats g ∧
    se_Short seats = length eligible - length (List.filter is_invite actions')).
Proof.
  pose proof (Guard_stages report actions g) as H. destruct (Guard report actions g) as [report' actions'].
  destruct H as (H1&_&_&seats&Hs&Hf&Hsh). destruct (free_seats_bounds g) as [_ Hnone]. split_and!; [done|..].
  - intros Hn. rewrite H1, (Hnone Hn). done.
  - exists seats. split_and!; [done..|]. rewrite H1, Hsh, length_take. lia.
Qed.

(** C7: a mass removal stops and everything else goes on.  When the removals
    concern more than half the organisation's accounts, counted once each however
    many teams they leave, none of them is made unless exactly this set was
    confirmed; otherwise all of them are; and additions and changes of role are
    never held by these rules. *)
Theorem Guard_removals report actions g :
  let actions' := (Guard report actions g).2 in
  let allowed := gu_Members g = 0 ∨ size (affected actions) * 2 ≤ gu_Members g ∨
    gu_Confirmed g ≠ "" ∧ gu_Confirmed g = Fingerprint (removal_lines actions) in
  (allowed → removals actions' = removals actions) ∧ (¬ allowed → removals actions' = []) ∧
  List.filter (λ a, bool_decide (a_Kind a = ActionAdd ∨ a_Kind a = ActionSetRole)) actions' =
  List.filter (λ a, bool_decide (a_Kind a = ActionAdd ∨ a_Kind a = ActionSetRole)) actions.
Proof.
  pose proof (Guard_stages report actions g) as H. destruct (Guard report actions g) as [report' actions'].
  destruct H as (_&H2&H3&_). simpl. rewrite <- removals_allowed_true. split_and!; [..|done].
  - intros Ha. by rewrite H2, Ha.
  - intros Ha%not_true_iff_false. by rewrite H2, Ha.
Qed.

(** ** Witnesses: an organisation where one account joins, one is invited and one leaves *)

Definition sample_binding : GitHubOrg := mkGitHubOrg ["everyone"] {["core" := mkGitHubTeam ["developers"] ["leads"]]} [].
Definition sample_holders : gmap string (list Holder) :=
  <["everyone" := [mkHolder "Ann@acme.test" true; mkHolder "cat@acme.test" true; mkHolder "bob@acme.test" false]]>
  {["leads" := [mkHolder "ann@acme.test" true]]}.
Definition sample_state : OrgState := mkOrgState
  [mkAppMember 1 "ann" false ["ann@acme.test"]; mkAppMember 2 "bob" false ["Bob@acme.test"]] []
  [mkAppTeam 7 "core"] {["core" := [mkTeamMember "bob" false]]}
  [mkLink 3 "cat" ["cat@acme.test"] false "" 100].
Definition sample_draft : Draft := Derive "acme" sample_binding sample_holders sample_state.
Definition sample_confirmations : gmap string Vouch := {["bob@acme.test" := mkVouch true false false [] []]}.
(** Bob is still employed, and in no group of the team. *)
Definition sample_moved : gmap string Vouch := {["bob@acme.test" := mkVouch true true false ["everyone"] []]}.

Example sample_actions : (Draft_Decide sample_draft sample_confirmations).2 =
  [mkAction ActionInvite "" "cat" "cat@acme.test" (Some RoleMember) [] 3 "";
   mkAction ActionAdd "core" "ann" "ann@acme.test" (Some RoleMaintainer) [] 0 "";
   mkAction ActionRemove "" "bob" "bob@acme.test" None [] 0 ""].
Proof. vm_compute. reflexivity. Qed.

Lemma removals_example : (∃ m, m ∈ os_Members sample_state ∧ am_Login m = "bob" ∧ am_Owner m = false) ∧
  ∃ m, m ∈ os_Members sample_state ∧ proven sample_binding (links_of (os_Links sample_state)) m ≠ [] ∧
    Forall (settles sample_moved ["developers"; "leads"]) (proven sample_binding (links_of (os_Links sample_state)) m).
Proof.
  split.
  - destruct (Draft_Decide_removals "acme" sample_binding sample_holders sample_state sample_confirmations
      (mkAction ActionRemove "" "bob" "bob@acme.test" None [] 0 "")) as (m&Hm&Hl&Ho&_);
      [apply (bool_decide_unpack _); vm_compute; exact I|eapply (list_elem_of_lookup_2 _ 2); vm_compute; reflexivity|reflexivity|].
    exists m. auto.
  - destruct (Draft_Decide_removals "acme" sample_binding sample_holders sample_state sample_moved
      (mkAction ActionRemove "core" "bob" "bob@acme.test" None [] 0 "")) as (m&Hm&_&_&_&[[Ht _]|[[Ht _]|(Hne&team&Hteam&Hall)]]);
      [apply (bool_decide_unpack _); vm_compute; exact I|eapply (list_elem_of_lookup_2 _ 2); vm_compute; reflexivity|reflexivity
      |discriminate|discriminate|].
    exists m. split_and!; [done..|]. apply Forall_forall. intros email Hin.
    injection Hteam as <-. by apply Hall.
Defined.


Lemma Draft_Decide_invites_witness : ∃ account, account ∈ os_Links sample_state ∧ l_Login account = "cat" ∧
  l_ID account ∉ am_ID <$> os_Members sample_state.
Proof.
  destruct (Draft_Decide_invites "acme" sample_binding sample_holders sample_state sample_confirmations) as [_ H];
    [apply (bool_decide_unpack _); vm_compute; exact I|].
  destruct (H (mkAction ActionInvite "" "cat" "cat@acme.test" (Some RoleMember) [] 3 ""))
    as (_&_&_&_&_&(account&Hin&_&Hl&_&Hid&_)&_); [eapply (list_elem_of_lookup_2 _ 0); vm_compute; reflexivity|].
  exists account. auto.
Defined.

Lemma Draft_Decide_confirmed_witness :
  Draft_Decide sample_draft sample_confirmations =
  Draft_Decide sample_draft (<["ann@acme.test" := mkVouch true false false [] []]> sample_confirmations).
Proof.
  apply (Draft_Decide_confirmed "acme" sample_binding sample_holders sample_state). intros email Hin.
  assert (Draft_Confirm sample_draft = ["bob@acme.test"]) as Heq by (vm_compute; reflexivity).
  unfold sample_draft in Heq. rewrite Heq in Hin. apply list_elem_of_singleton in Hin as ->. vm_compute. reflexivity.
Defined.
