(* ===== verification/Journal.v ===== *)
(** * Journal: the reports a reconciler keeps

    [internal/rails/journal.go]: each target's last good report in memory, and every
    target's report as a document in a store that may not answer.  A store may not be able
    to list its documents or to remove one; encoding and decoding a report are parameters.

    The theorems: what was published is what the next process starts from, over a store that
    answers; publishing one report or pruning touches no document it does not concern; and a
    store that does not answer loses nothing that was remembered. *)

From S2P Require Import Prelude GoStrings Runs.

Implicit Types (target key document : string).

(** [internal/rails/journal.go:type Store], [Reader] and [Remover]: what a store of reports is
    asked; [None] and [false] are errors. *)
Inductive report_call : Type → Type :=
| Replace (documents : gmap string string) : report_call bool
| PutReport key document : report_call bool
| RemoveReport key : report_call bool
| Reports : report_call (option (gmap string string)).

Section journal.
(** The store can give its documents back, and can remove one. *)
Context (reads removes : bool).
Context {R : Type} (none : R) (Key : string → string) (Encode : R → option string) (Decode : string → option R).

(** [internal/rails/journal.go:Journal.Remember] *)
Definition Remember (last : gmap string R) target (r : R) : gmap string R := <[target := r]> last.

(** [internal/rails/journal.go:Journal.Previous] *)
Definition Previous (last : gmap string R) target : prog report_call R :=
  match last !! target with
  | Some kept => Ret kept
  | None =>
      if reads then Do Reports (λ documents, Ret (default none (documents ≫= λ d, d !! Key target ≫= Decode))) else Ret none
  end.

(** [internal/rails/journal.go:96-103 Journal.Publish]: one report. *)
Definition publish_step (reports : gmap string R) (documents : gmap string string) target : gmap string string :=
  match reports !! target ≫= Encode with Some document => <[Key target := document]> documents | None => documents end.
(** [internal/rails/journal.go:95-103 Journal.Publish]: the documents. *)
Definition publish_documents (reports : gmap string R) : gmap string string :=
  foldl (publish_step reports) ∅ (sorted_keys reports).

(** [internal/rails/journal.go:Journal.Publish] *)
Definition Publish (reports : gmap string R) : prog report_call unit := Do (Replace (publish_documents reports)) (λ _, Ret tt).

(** [internal/rails/journal.go:Journal.PublishOne] *)
Definition PublishOne target (report : R) : prog report_call unit :=
  match Encode report with Some document => Do (PutReport (Key target) document) (λ _, Ret tt) | None => Ret tt end.

(** [internal/rails/journal.go:141-148 Journal.Prune] *)
Fixpoint remove_each (ks : list string) : prog report_call unit :=
  match ks with [] => Ret tt | key :: rest => Do (RemoveReport key) (λ _, remove_each rest) end.

(** [internal/rails/journal.go:Journal.Prune] *)
Definition Prune (targets : list string) : prog report_call unit :=
  if reads && removes then
    Do Reports (λ documents,
      match documents with
      | None => Ret tt
      | Some documents => remove_each (List.filter (λ key, negb (str_in key (Key <$> targets))) (sorted_keys documents))
      end)
  else Ret tt.
End journal.

(** ** A store that may not answer *)

(** The store is up, or answers nothing and keeps what it has. *)
Definition report_store (up : bool) {B} (c : report_call B) : gmap string string → B * gmap string string :=
  match c in report_call B return gmap string string → B * gmap string string with
  | Replace documents => λ s, if up then (true, documents) else (false, s)
  | PutReport key document => λ s, if up then (true, <[key := document]> s) else (false, s)
  | RemoveReport key => λ s, if up then (true, delete key s) else (false, s)
  | Reports => λ s, (if up then Some s else None, s)
  end.

(** A run on it: whether it is up is given call by call, and is up once the list is over. *)
Fixpoint run_reports {A} (up : list bool) (p : prog report_call A) (s : gmap string string) : A * gmap string string :=
  match p with
  | Ret a => (a, s)
  | Do c k => let '(b, s) := report_store (hd true up) c s in run_reports (tl up) (k b) s
  end.

Section safety.
Context {R : Type} (none : R) (Key : string → string) (Encode : R → option string) (Decode : string → option R).
Context (Key_inj : ∀ a b, Key a = Key b → a = b) (Decode_Encode : ∀ r document, Encode r = Some document → Decode document = Some r).

Lemma publish_fold (reports : gmap string R) targets (documents : gmap string string) : NoDup targets →
  (∀ target, target ∈ targets → documents !! Key target = None) →
  ∀ target, foldl (publish_step Key Encode reports) documents targets !! Key target =
  if bool_decide (target ∈ targets) then reports !! target ≫= Encode else documents !! Key target.
Proof.
  revert documents. induction targets as [|x targets IH]; intros documents Hnd Hnone target.
  { by rewrite bool_decide_false by apply not_elem_of_nil. }
  apply NoDup_cons in Hnd as [Hx Hnd]. cbn [foldl].
  set (documents' := publish_step Key Encode reports documents x).
  assert (documents' !! Key x = reports !! x ≫= Encode) as Hx'.
  { unfold documents', publish_step. destruct (_ ≫= _); [by rewrite lookup_insert_eq|]. apply Hnone. by left. }
  assert (∀ t, t ≠ x → documents' !! Key t = documents !! Key t) as Hother.
  { intros t Ht. unfold documents', publish_step. destruct (_ ≫= _); [|done]. rewrite lookup_insert_ne; [done|]. intros Heq. by apply Ht, Key_inj. }
  rewrite IH; [|done|].
  - destruct (decide (target = x)) as [->|Hne].
    + by rewrite bool_decide_false, bool_decide_true by (done || by left).
    + rewrite Hother by done. rewrite (bool_decide_ext (target ∈ x :: targets) (target ∈ targets)); [done|].
      rewrite elem_of_cons. naive_solver.
  - intros t Ht. rewrite Hother; [apply Hnone; by right|]. by intros ->.
Qed.

(** What a new process reads back. *)
Lemma Previous_run reads (documents : gmap string string) target : reads = true →
  run_reports [] (Previous reads none Key Decode ∅ target) documents = (default none (documents !! Key target ≫= Decode), documents).
Proof. intros ->. unfold Previous. by rewrite lookup_empty. Qed.

Lemma remove_each_run ks (s : gmap string string) : (run_reports [] (remove_each ks) s).2 = filter (λ kv, kv.1 ∉ ks) s.
Proof.
  revert s. induction ks as [|key ks IH]; intros s; cbn [remove_each run_reports report_store hd tl].
  - symmetry. apply map_filter_id. intros i x _. apply not_elem_of_nil.
  - rewrite IH. apply map_eq. intros i. apply option_eq. intros x.
    rewrite !map_lookup_filter_Some, lookup_delete_Some, not_elem_of_cons. cbn. naive_solver.
Qed.
End safety.

(** ** Properties *)

(** a restarted reconciler starts from what was published: over a store that answers, what
    a pass publishes for a target, in one call for all or for that target alone, is what a
    process that remembers nothing reads back for it; publishing one report changes no other
    document, and pruning removes exactly the documents of what is no longer a target. *)
Theorem journal_restarts {R : Type} (none : R) (Key : string → string) (Encode : R → option string) (Decode : string → option R)
    (Key_inj : ∀ a b, Key a = Key b → a = b) (Decode_Encode : ∀ r document, Encode r = Some document → Decode document = Some r)
    (documents : gmap string string) (reports : gmap string R) targets target r :
  let previous s := (run_reports [] (Previous true none Key Decode ∅ target) s).1 in
  (reports !! target = Some r → is_Some (Encode r) → previous (run_reports [] (Publish Key Encode reports) documents).2 = r) ∧
  (is_Some (Encode r) → previous (run_reports [] (PublishOne Key Encode target r) documents).2 = r) ∧
  (∀ key, key ≠ Key target → (run_reports [] (PublishOne Key Encode target r) documents).2 !! key = documents !! key) ∧
  (run_reports [] (Prune true true Key targets) documents).2 = filter (λ kv, kv.1 ∈ Key <$> targets) documents.
Proof.
  cbv zeta. split_and!.
  - intros Hr [document He]. rewrite Previous_run by done. cbn [fst Publish run_reports report_store hd snd].
    unfold publish_documents. rewrite publish_fold by (done || apply NoDup_sorted_keys).
    rewrite bool_decide_true by (apply elem_of_sorted_keys; by eexists). rewrite Hr. cbn. rewrite He. cbn. by rewrite (Decode_Encode r document He).
  - intros [document He]. rewrite Previous_run by done. unfold PublishOne. rewrite He. cbn. rewrite lookup_insert_eq. cbn.
    by rewrite (Decode_Encode r document He).
  - intros key Hk. unfold PublishOne. destruct (Encode r); [|done]. cbn. by rewrite lookup_insert_ne.
  - unfold Prune. cbn [andb run_reports report_store hd tl]. rewrite remove_each_run. apply map_filter_ext.
    intros key document Hd. cbn. rewrite elem_of_filter_bool. unfold str_in. rewrite negb_true_iff, bool_decide_eq_false, elem_of_sorted_keys.
    split; [|tauto]. intros Hno. destruct (decide (key ∈ Key <$> targets)); [done|]. destruct Hno. split; [by eexists|done].
Qed.

Definition report_key target : string := "report." +:+ target.
Lemma report_key_inj a b : report_key a = report_key b → a = b.
Proof. apply (inj (String.append "report.")). Qed.

Lemma journal_restarts_witness : (run_reports [] (Previous true "" report_key Some ∅ "acme")
  (run_reports [] (PublishOne report_key Some "acme" "what was done") {["report.old" := "x"]}).2).1 = "what was done".
Proof.
  destruct (journal_restarts "" report_key Some Some report_key_inj (λ r d H, eq_sym H) {["report.old" := "x"]} ∅ [] "acme" "what was done")
    as (_&Hone&_). apply Hone. by eexists.
Defined.
