(* ===== verification/GitHubPass.v ===== *)
(** * GitHubPass: one pass over an organisation, from its reads to its changes

    [internal/githubroster/controller/controller.go] and guards.go: what the controller reads
    of GitHub and of the console, in which order; how a pass that cannot read ends; the
    changes it makes, and what it reports of them.  What it decides in between is [GitHub] and
    [GitHubDecide]; the links it starts from are [LinkCheck]'s; its reports are a [Journal].

    GitHub, the console, the store of links and the store of reports are calls whose answers
    are anything ([org_call]).  A pass's clock does not move.  The cache of tokens, the rows
    already recorded and the profiles already looked at are the controller's memory.
    Warnings and metrics are left out; an error is the words of the call that failed, without
    what is added to them on the way; an audit record is what it is about. *)

From stdpp Require Import pretty.
From S2P Require Import Prelude GoStrings Runs Links Policy Rails Asking GitHub GitHubDecide LinkCheck Journal.

Implicit Types (org email login slug team token group reason : string) (now : Z).

(** ** Reports *)

(** [internal/githubroster/status/status.go:138-163 Outcome] *)
Inductive tick_outcome := Ended (o : Rails.Outcome) | OutcomeFailed.
(** [internal/githubroster/status/status.go:type Tick] *)
Record OrgTick := mkOrgTick {
  ot_At : Z; ot_Outcome : tick_outcome; ot_Error : string; ot_Changes : nat; ot_Held : nat; ot_Retrying : nat; ot_Waiting : nat }.
(** [internal/githubroster/status/status.go:type Org]: what a pass decided, and how it went. *)
Record OrgStatus := mkOrgStatus {
  sr_Report : OrgReport; sr_Enabled : bool; sr_Tick : OrgTick; sr_Outside : list Account }.
(** The report of a target that has none. *)
Definition no_report : OrgStatus :=
  mkOrgStatus (mkOrgReport "" [] [] [] None None) false (mkOrgTick 0 (Ended OutcomeInSync) "" 0 0 0 0) [].

(** Every row with the team it is on, "" for the organisation's own. *)
(** [internal/githubroster/controller/controller.go:each] *)
Definition each (report : OrgReport) : list (string * Row) :=
  (pair "" <$> or_Members report) ++ mjoin ((λ t, pair (tr_Team t) <$> tr_Members t) <$> or_Teams report).

(** [internal/githubroster/controller/controller.go:countState] *)
Definition countState (report : OrgReport) (state : RowState) : nat :=
  length (List.filter (λ r, bool_decide (w_State r.2 = state)) (each report)).

(** [internal/githubroster/controller/controller.go:672-678 rows] *)
Definition concerns (a : Action) (m : Row) : bool :=
  if bool_decide (a_Kind a = ActionInvite) then
    bool_decide (w_Action m = Some ActionInvite) &&
    (bool_decide (w_Email m = a_Email a) || (negb (bool_decide (a_Account a = 0%Z)) && bool_decide (w_Login m = a_Login a)))
  else bool_decide (w_Login m = a_Login a) && bool_decide (w_Action m = Some (a_Kind a)).

(** [internal/githubroster/controller/controller.go:rows] *)
Definition rows (report : OrgReport) (a : Action) (visit : Row → Row) : OrgReport :=
  let on m := if concerns a m then visit m else m in
  let invite := bool_decide (a_Kind a = ActionInvite) in
  mkOrgReport (or_Org report) (if invite || empty (a_Team a) then on <$> or_Members report else or_Members report)
    ((λ t, if negb invite && negb (empty (a_Team a)) && negb (bool_decide (tr_Team t = a_Team a))
           then t else mkTeamReport (tr_Team t) (on <$> tr_Members t)) <$> or_Teams report)
    (or_Unlinked report) (or_Seats report) (or_Breaker report).

(** [internal/githubroster/controller/controller.go:markDone] *)
Definition markDone (report : OrgReport) (a : Action) : OrgReport :=
  rows report a (λ m,
    match a_Kind a with
    | ActionInvite => mkRow (w_Email m) (w_Login m) (w_Role m) StateInvited None (w_Reason m)
    | ActionRemove => mkRow (w_Email m) (w_Login m) (w_Role m) StateLeaving (w_Action m) (w_Reason m)
    | _ => mkRow (w_Email m) (w_Login m) (w_Role m) StateSynced None (w_Reason m)
    end).

(** [internal/githubroster/controller/controller.go:markHeld] *)
Definition markHeld (report : OrgReport) (a : Action) reason : OrgReport :=
  rows report a (λ m, mkRow (w_Email m) (w_Login m) (w_Role m) StateRetrying (w_Action m) ("GitHub refused: " +:+ TrimSpace reason)).

(** [internal/githubroster/controller/controller.go:heldKey] *)
Definition heldKey (team : string) (m : Row) : string :=
  let action := match w_Action m with
    | Some ActionInvite => "invite" | Some ActionAdd => "add" | Some ActionSetRole => "set-role" | Some ActionRemove => "remove" | None => "" end in
  let state := match w_State m with StateHeld => "held" | StateReported => "reported" | _ => "" end in
  team +:+ "|" +:+ w_Email m +:+ "|" +:+ w_Login m +:+ "|" +:+ action +:+ "|" +:+ state.

(** The held and the reported rows. *)
Definition held_rows (report : OrgReport) : list (string * Row) :=
  List.filter (λ r, bool_decide (w_State r.2 = StateHeld ∨ w_State r.2 = StateReported)) (each report).

(** ** What a pass asks *)

(** One change of GitHub. *)
Inductive change :=
| InviteUser (account : Z) (teams : list Z)
| InviteEmail email (teams : list Z)
| RemoveFromOrg login
| RemoveFromTeam team login
| SetTeamRole team login (maintainer : bool).

(** [internal/githubroster/controller/controller.go:552-563 act] *)
Definition change_of (a : Action) : change :=
  match a_Kind a with
  | ActionInvite => if bool_decide (a_Account a = 0%Z) then InviteEmail (a_Email a) (a_Teams a) else InviteUser (a_Account a) (a_Teams a)
  | ActionRemove => if empty (a_Team a) then RemoveFromOrg (a_Login a) else RemoveFromTeam (a_Team a) (a_Login a)
  | _ => SetTeamRole (a_Team a) (a_Login a) (bool_decide (a_Role a = Some RoleMaintainer))
  end.

(** An organisation's credential: the App, its key and where it is installed, 0 if unknown. *)
Record Credential := mkCredential { cr_AppID : Z; cr_PrivateKey : string; cr_InstallationID : Z }.

(** The console's explanation of an address. *)
Record Explained := mkExplained {
  ex_InDomain : bool; ex_Authoritative : bool; ex_Found : bool; ex_Suspended : bool; ex_Held : list string; ex_Digest : string }.

(** The calls, [string] an error's words. *)
Inductive org_call : Type → Type :=
| ReadCredential org : org_call (result string (option Credential))
| FindInstallation (app : string) org : org_call (result string Z)
| MintToken (app : string) (installation : Z) : org_call (result string (string * Z))
| ReadMembers : org_call (result string (list AppMember))
| ReadInvitations : org_call (result string (list Invitation))
| ReadTeams : org_call (result string (list AppTeam))
| ReadTeamMembers slug : org_call (result string (list TeamMember))
| PublicEmail login : org_call (result string string)
| AdoptLinks (candidates : list Links.Link) : org_call (option (list Links.Link))
| ListHolders group : org_call (result string (list Holder * string))
| Explain email : org_call (result string Explained)
| ReadPlan : org_call (result string (option (Z * Z)))
| ReadFailed : org_call (result string (list FailedInvitation))
| ReadCollaborators : org_call (result string (list string))
| ReadConfirmations : org_call (option (gmap string string))
| TakeLease (kind name : string) : org_call (option bool)
| MakeChange (c : change) : org_call (option string)
| InLinks {B} (c : LinkCheck.ask B) : org_call B
| InJournal {B} (c : report_call B) : org_call B.

(** A call that fails with its words. *)
Definition ask_ {A} (c : org_call (result string A)) : prog org_call (result pass_error A) := ask_by PassFailed c.

(** What the controller remembers from pass to pass: its tokens with their ends, the rows it
    recorded as held, its reports, and the profiles that showed no address. *)
Record memory := mkMemory {
  mm_tokens : gmap string (string * Z); mm_held : gmap string (gset string); mm_last : gmap string OrgStatus; mm_misses : gmap string Z }.
Definition keep_token org (kept : string * Z) (m : memory) : memory :=
  mkMemory (<[org := kept]> (mm_tokens m)) (mm_held m) (mm_last m) (mm_misses m).
Definition keep_misses (misses : gmap string Z) (m : memory) : memory := mkMemory (mm_tokens m) (mm_held m) (mm_last m) misses.
Definition keep_held (held : gmap string (gset string)) (m : memory) : memory := mkMemory (mm_tokens m) held (mm_last m) (mm_misses m).
Definition keep_last (last : gmap string OrgStatus) (m : memory) : memory := mkMemory (mm_tokens m) (mm_held m) last (mm_misses m).

(** What a pass records. *)
Inductive pass_event :=
| Made (a : Action) (refused : option string)
| NowHeld team (m : Row)
| NowMatched email login (note : string).

Definition five_minutes : Z := 5 * 60 * 1000000000.
(** [internal/githubroster/controller/guards.go:20-22 profileRetry]: a day. *)
Definition profileRetry : Z := 24 * 3600 * 1000000000.

Section pass.
(** The policy's digest, the App's own token, and how a report is kept. *)
Context (guard : PolicyGuard) (AppToken : Z → string → Z → option string).
Context (reads removes : bool) (Key : string → string) (Encode : OrgStatus → option string) (Decode : string → option OrgStatus).

(** ** Reading *)

(** [internal/githubroster/controller/controller.go:404-427 Controller.token] *)
Definition mint_token org now : prog org_call (result pass_error (string * Z)) :=
  then_ (ask_ (ReadCredential org)) (λ credential,
  match credential with
  | None => Ret (Err (PassFailed (org +:+ " is not connected: connect it from the console's GitHub page")))
  | Some c =>
      match AppToken (cr_AppID c) (cr_PrivateKey c) now with
      | None => Ret (Err (PassFailed "the App's key does not sign"))
      | Some app =>
          then_ (if bool_decide (cr_InstallationID c = 0%Z) then ask_ (FindInstallation app org) else Ret (Ok (cr_InstallationID c)))
            (λ installation, ask_ (MintToken app installation))
      end
  end).

(** [internal/githubroster/controller/controller.go:Controller.token]: whether there is one,
    and what is remembered of it. *)
Definition token_ org now (m : memory) : prog org_call (result pass_error memory) :=
  let mint := then_ (mint_token org now) (λ kept, Ret (Ok (keep_token org kept m))) in
  match mm_tokens m !! org with
  | Some (_, expires) => if (now + five_minutes <? expires)%Z then Ret (Ok m) else mint
  | None => mint
  end.

(** [internal/githubroster/controller/controller.go:467-480 Controller.read]: each bound team
    GitHub has. *)
Fixpoint read_teams (slugs exists_ : list string) (members : gmap string (list TeamMember)) :
    prog org_call (result pass_error (gmap string (list TeamMember))) :=
  match slugs with
  | [] => Ret (Ok members)
  | slug :: rest =>
      if str_in slug exists_ then
        then_ (ask_ (ReadTeamMembers slug)) (λ ms, read_teams rest exists_ (<[slug := ms]> members))
      else read_teams rest exists_ members
  end.

(** [internal/githubroster/controller/controller.go:Controller.read]: all of it, or an error. *)
Definition read (binding : GitHubOrg) : prog org_call (result pass_error OrgState) :=
  then_ (ask_ ReadMembers) (λ members,
  then_ (ask_ ReadInvitations) (λ invitations,
  then_ (ask_ ReadTeams) (λ teams,
  then_ (read_teams (sorted_keys (o_Teams binding)) (at_Slug <$> teams) ∅) (λ team_members,
  Ret (Ok (mkOrgState members invitations teams team_members [])))))).

(** [internal/githubroster/controller/guards.go:Controller.liveInDirectory] *)
Definition liveInDirectory email : prog org_call bool :=
  Do (Explain (ToLower email)) (λ r, Ret (
    match r with
    | Ok x => ex_InDomain x && ex_Authoritative x && ex_Found x && negb (ex_Suspended x)
    | Err _ => false
    end)).

(** [internal/githubroster/controller/guards.go:111-115 Controller.matchProfiles]: the
    candidate. *)
Definition profile_link now (member : AppMember) email : Links.Link :=
  Links.mkLink 0 (am_ID member) (am_Login member) SourceProfile "the work address the account publishes on its GitHub profile" 0
    [email] StateLinked "" now now now 0 "" 0 "" 0 0.

(** [internal/githubroster/controller/guards.go:91-99 Controller.matchProfiles]: a member
    that is left alone. *)
Definition match_skips (linked : gset Z) now (misses : gmap string Z) (member : AppMember) : bool :=
  bool_decide (am_ID member ∈ linked) || negb (bool_decide (am_Emails member = [])) || bool_decide (am_ID member = 0%Z) ||
  match misses !! am_Login member with Some missed => (now - missed <? profileRetry)%Z | None => false end.

(** [internal/githubroster/controller/guards.go:90-116 Controller.matchProfiles] *)
Fixpoint match_each (linked : gset Z) now (members : list AppMember) (misses : gmap string Z) :
    prog org_call (list Links.Link * gmap string Z) :=
  match members with
  | [] => Ret ([], misses)
  | member :: rest =>
      if match_skips linked now misses member then match_each linked now rest misses
      else
        Do (PublicEmail (am_Login member)) (λ r,
          match r with
          | Err _ => match_each linked now rest misses
          | Ok email =>
              prog_bind (if empty email then Ret false else liveInDirectory email) (λ is_live,
                if is_live : bool then
                  prog_bind (match_each linked now rest misses) (λ '(candidates, misses), Ret (profile_link now member email :: candidates, misses))
                else match_each linked now rest (<[am_Login member := now]> misses))
          end)
  end.

(** [internal/githubroster/controller/guards.go:Controller.matchProfiles], with a store of
    links, whose [Adopt] gives back links that have an address. *)
Definition matchProfiles now (members : list AppMember) (links : list GitHub.Link) (misses : gmap string Z) :
    prog org_call (list GitHub.Link * gmap string Z * list pass_event) :=
  prog_bind (match_each (list_to_set (l_ID <$> links)) now members misses) (λ '(candidates, misses),
    match candidates with
    | [] => Ret ([], misses, [])
    | _ => Do (AdoptLinks candidates) (λ adopted, Ret (
             let adopted := default [] adopted in
             ((λ l, GitHub.mkLink (lk_ID l) (lk_Login l) (lk_Emails l) false "" (lk_LinkedAt l)) <$> adopted, misses,
              (λ l, NowMatched (firstEmail l) (lk_Login l) (lk_Note l)) <$> adopted)))
    end).

Definition bound_groups (binding : GitHubOrg) : list string :=
  o_Members binding ++ mjoin ((λ slug, from_option GitHubTeam_Groups [] (o_Teams binding !! slug)) <$> sorted_keys (o_Teams binding)).

(** [internal/githubroster/controller/controller.go:Controller.holders] *)
Definition holders (binding : GitHubOrg) : prog org_call (result pass_error (gmap string (list Holder))) :=
  ask_holders guard ListHolders (bound_groups binding).

(** [internal/githubroster/controller/controller.go:502-517 Controller.directory] *)
Definition vouch_of (x : Explained) : Vouch := mkVouch (ex_Authoritative x) (ex_Found x) (ex_Suspended x) (ex_Held x) [].

(** [internal/githubroster/controller/controller.go:Controller.confirm], which is
    [Rails.Confirm] asked of the console. *)
Fixpoint confirm (emails : list string) (out : gmap string Vouch) (other : bool) : prog org_call (gmap string Vouch * bool) :=
  match emails with
  | [] => Ret (out, other)
  | email :: rest =>
      Do (Explain email) (λ r,
        match r with
        | Err _ => confirm rest out other
        | Ok x => if PolicyGuard_Check guard (ex_Digest x) then confirm rest (<[email := vouch_of x]> out) other
                  else confirm rest out true
        end)
  end.

(** [internal/githubroster/controller/guards.go:Controller.guards] *)
Definition guards (state : OrgState) (confirmed : string) : prog org_call Guards :=
  Do ReadPlan (λ plan,
  Do ReadFailed (λ failed, Ret (
    mkGuards (match plan with Ok plan => plan | Err _ => None end) (Z.of_nat (length (os_Invitations state)))
      (match failed with Ok failed => failed | Err _ => [] end)
      (foldl (λ m l, <[l_ID l := l_LinkedAt l]> m) ∅ (os_Links state)) (length (os_Members state)) confirmed))).

(** [internal/githubroster/controller/guards.go:Controller.collaborators] *)
Definition collaborators : prog org_call (list Account) :=
  Do ReadCollaborators (λ r, Ret (
    match r with
    | Ok logins => (λ login, mkAccount login "outside collaborator: reported, not managed") <$> logins
    | Err _ => []
    end)).

(** ** Acting *)

(** [internal/githubroster/controller/controller.go:Controller.act]: the report, the records,
    and how many changes were made. *)
Fixpoint act (actions : list Action) (report : OrgReport) : prog org_call (OrgReport * list pass_event * nat) :=
  match actions with
  | [] => Ret (report, [], 0)
  | a :: rest =>
      Do (MakeChange (change_of a)) (λ refused,
        prog_bind (act rest (match refused with Some why => markHeld report a why | None => markDone report a end)) (λ '(report, events, done),
          Ret (report, Made a refused :: events, match refused with Some _ => done | None => S done end)))
  end.

(** [internal/rails/journal.go:Journal.Previous], of this controller's reports. *)
Definition previous (m : memory) org : prog org_call OrgStatus :=
  lift (@InJournal) (Previous reads no_report Key Decode (mm_last m) org).

(** [internal/githubroster/controller/controller.go:Controller.recordNewlyHeld] *)
Definition recordNewlyHeld org (report : OrgReport) (m : memory) : prog org_call (memory * list pass_event) :=
  let held := held_rows report in
  let keys := (λ r, heldKey r.1 r.2) <$> held in
  prog_bind (match mm_held m !! org with
             | Some _ => Ret []
             | None => prog_bind (previous m org) (λ last, Ret ((λ r, heldKey r.1 r.2) <$> held_rows (sr_Report last)))
             end) (λ seed,
    let '(fresh, ledger) := Fresh (mm_held m) org keys seed in
    Ret (keep_held ledger m, (λ r : string * Row * bool, NowHeld r.1.1 r.1.2) <$> List.filter snd (zip held fresh))).

(** ** A pass *)

(** Everything a pass must read; what failed is an error. *)
(** [internal/githubroster/controller/controller.go:348-366 Controller.organisation] *)
Definition prepare org (binding : GitHubOrg) now (links : result string (list GitHub.Link)) (m : memory) :
    prog org_call (result pass_error (OrgState * gmap string (list Holder)) * memory * list pass_event) :=
  match links with
  | Err why => Ret (Err (PassFailed why), m, [])
  | Ok links =>
      prog_bind (token_ org now m) (λ r, match r with Err e => Ret (Err e, m, []) | Ok m =>
      prog_bind (read binding) (λ r, match r with Err e => Ret (Err e, m, []) | Ok state =>
      prog_bind (matchProfiles now (os_Members state) links (mm_misses m)) (λ '(matched, misses, events),
      let m := keep_misses misses m in
      let state := mkOrgState (os_Members state) (os_Invitations state) (os_Teams state) (os_TeamMembers state) (links ++ matched) in
      prog_bind (holders binding) (λ r,
        Ret (match r with Err e => Err e | Ok hs => Ok (state, hs) end, m, events))) end) end)
  end.

(** [internal/githubroster/controller/controller.go:367-373 Controller.organisation]: what is
    decided, and whether an answer came under another policy. *)
Definition decided org (binding : GitHubOrg) (state : OrgState) hs (confirmed : string) :
    prog org_call (OrgReport * list Action * list Account * bool) :=
  prog_bind (guards state confirmed) (λ g,
  let draft := Derive org binding hs state in
  prog_bind (confirm (Draft_Confirm draft) ∅ false) (λ '(confirmations, other),
  let '(report, actions) := Draft_Decide draft confirmations in
  let '(report, actions) := Guard report actions g in
  prog_bind collaborators (λ outside, Ret (report, actions, outside, other)))).

(** [internal/githubroster/controller/controller.go:340-346 Controller.organisation fail] *)
Definition fail org (enabled : bool) now (m : memory) (e : pass_error) : prog org_call OrgStatus :=
  prog_bind (previous m org) (λ last, Ret (
    let r := sr_Report last in
    mkOrgStatus (mkOrgReport org (or_Members r) (or_Teams r) (or_Unlinked r) (or_Seats r) (or_Breaker r)) enabled
      (mkOrgTick now OutcomeFailed (error_words e) 0 0 0 0) (sr_Outside last))).

(** [internal/githubroster/controller/controller.go:374-390 Controller.organisation]: the
    report of a pass that ended. *)
Definition ended (enabled : bool) now (report : OrgReport) (changes : nat) (outside : list Account) : OrgStatus :=
  let held := countState report StateHeld in
  let retrying := countState report StateRetrying in
  let waiting := countState report StateNotLinked in
  mkOrgStatus report enabled (mkOrgTick now (Ended (Decide enabled (mkTick changes held retrying waiting))) "" changes held retrying waiting) outside.

(** [internal/githubroster/controller/controller.go:Controller.organisation] *)
Definition organisation org (binding : GitHubOrg) (enabled : bool) now (links : result string (list GitHub.Link))
    (confirmed : string) (m : memory) : prog org_call (OrgStatus * bool * memory * list pass_event) :=
  prog_bind (prepare org binding now links m) (λ '(r, m, matched),
  match r with
  | Err e => prog_bind (fail org enabled now m e) (λ report, Ret (report, is_other e, m, matched))
  | Ok (state, hs) =>
      prog_bind (decided org binding state hs confirmed) (λ '(report, actions, outside, other),
      prog_bind (if enabled then
                   prog_bind (act actions report) (λ '(report, made, done),
                   prog_bind (recordNewlyHeld org report m) (λ '(m, newly), Ret (report, done, m, made ++ newly)))
                 else Ret (report, length actions, m, [])) (λ '(report, changes, m, events),
      let report := ended enabled now report changes outside in
      Ret (report, other, keep_last (Remember (mm_last m) org report) m, matched ++ events)))
  end).

(** ** Targets *)

Context (bindings : gmap string GitHubOrg) (Enabled : string → bool).
(** The link App's credential, where it is connected, and the link check's clock. *)
Context (link_credential : option AppCredential) (link_clock : nat → Z).

(** [internal/githubroster/controller/controller.go:190-192 LinksTarget] *)
Definition LinksTarget : string := "github:links".

(** [internal/githubroster/controller/controller.go:Controller.Targets] *)
Definition Targets : list string := LinksTarget :: sorted_keys bindings.

(** [internal/githubroster/controller/controller.go:Controller.known] *)
Definition known target : bool := bool_decide (target = LinksTarget) || bool_decide (is_Some (bindings !! target)).

Inductive tick_error := ErrUnknownTarget | TickFailed (why : string).

(** [internal/githubroster/controller/guards.go:Controller.confirmations], of one
    organisation. *)
Definition confirmation org : prog org_call string :=
  Do ReadConfirmations (λ r, Ret (default "" (r ≫= λ confirmed : gmap string string, confirmed !! org))).

(** [internal/githubroster/controller/controller.go:Controller.Tick] *)
Definition Tick target now (m : memory) : prog org_call (result tick_error bool * memory * list pass_event) :=
  if bool_decide (target = LinksTarget) then
    prog_bind (lift (@InLinks) (checkLinks link_credential link_clock)) (λ r,
      Ret (match r with Some _ => Ok false | None => Err (TickFailed "read the linked accounts") end, m, []))
  else
    match bindings !! target with
    | None => Ret (Err ErrUnknownTarget, m, [])
    | Some binding =>
        prog_bind (lift (@InLinks) storedLinks) (λ links,
        prog_bind (confirmation target) (λ confirmed,
        prog_bind (organisation target binding (Enabled target) now
            (match links with Some links => Ok links | None => Err "read the linked accounts" end) confirmed m) (λ '(report, differs, m, events),
        prog_bind (lift (@InJournal) (PublishOne Key Encode target report)) (λ _, Ret (Ok differs, m, events)))))
    end.

(** [internal/githubroster/controller/controller.go:198-203 leaseOrg] *)
Definition leaseOrg : string := "github-tick".
(** [internal/githubroster/controller/controller.go:198-203 leaseLinks] *)
Definition leaseLinks : string := "github-links".

(** [internal/githubroster/controller/controller.go:Controller.RunTarget], with leases: whether it ran, and
    whether an answer came under another policy. *)
Definition RunTarget target now (m : memory) : prog org_call (result tick_error (bool * bool) * memory * list pass_event) :=
  if negb (known target) then Ret (Err ErrUnknownTarget, m, [])
  else
    let '(kind, name) := if bool_decide (target = LinksTarget) then (leaseLinks, "all") else (leaseOrg, target) in
    Do (TakeLease kind name) (λ taken,
      match taken with
      | None => Ret (Err (TickFailed "the lease"), m, [])
      | Some false => Ret (Ok (false, false), m, [])
      | Some true =>
          prog_bind (Tick target now m) (λ '(r, m, events),
            Ret (match r with Ok differs => Ok (true, differs) | Err e => Err e end, m, events))
      end).

(** [internal/githubroster/controller/controller.go:251-258 Controller.Pass] *)
Fixpoint run_targets (targets : list string) (clock : nat → Z) (k : nat) (m : memory) : prog org_call (bool * memory * list pass_event) :=
  match targets with
  | [] => Ret (false, m, [])
  | target :: rest =>
      prog_bind (RunTarget target (clock k) m) (λ '(r, m, events),
      prog_bind (run_targets rest clock (S k) m) (λ '(differs, m, more),
        Ret (match r with Ok (_, other) => other | Err _ => false end || differs, m, events ++ more)))
  end.

(** [internal/githubroster/controller/controller.go:Controller.Pass] *)
Definition Pass (clock : nat → Z) (m : memory) : prog org_call (bool * memory * list pass_event) :=
  prog_bind (run_targets Targets clock 0 m) (λ '(differs, m, events),
  prog_bind (lift (@InJournal) (Prune reads removes Key (sorted_keys bindings))) (λ _, Ret (differs, m, events))).
End pass.

(** ** Runs *)

(** A call with its answer, of those the theorems speak of. *)
Inductive seen :=
| SawMembers (r : result string (list AppMember))
| SawInvitations (r : result string (list Invitation))
| SawTeams (r : result string (list AppTeam))
| SawTeamMembers slug (r : result string (list TeamMember))
| SawHolders group (r : result string (list Holder * string))
| SawExplained email (r : result string Explained)
| SawProfile login (r : result string string)
| SawAdopted (candidates : list Links.Link) (adopted : option (list Links.Link))
| SawChange (c : change) (refused : option string)
| SawOther.
Definition See {B} (c : org_call B) : B → seen :=
  match c in org_call B return B → seen with
  | ReadMembers => SawMembers
  | ReadInvitations => SawInvitations
  | ReadTeams => SawTeams
  | ReadTeamMembers slug => SawTeamMembers slug
  | ListHolders group => SawHolders group
  | Explain email => SawExplained email
  | PublicEmail login => SawProfile login
  | AdoptLinks candidates => SawAdopted candidates
  | MakeChange c => SawChange c
  | _ => λ _, SawOther
  end.

Notation traced := (Runs.traced (@See)).

(** ** What a run does *)

(** What fails a pass when it is read: an error, or holders under another policy. *)
Definition unread (guard : PolicyGuard) (e : seen) : Prop :=
  match e with
  | SawMembers (Err _) | SawInvitations (Err _) | SawTeams (Err _) | SawTeamMembers _ (Err _) | SawHolders _ (Err _) => True
  | SawHolders _ (Ok (_, digest)) => PolicyGuard_Check guard digest = false
  | _ => False
  end.
Definition saw_change (e : seen) : option (change * option string) := match e with SawChange c refused => Some (c, refused) | _ => None end.
Definition quiet (e : seen) : Prop := saw_change e = None.
(** Nothing is changed, and everything is read. *)
Definition sound (guard : PolicyGuard) (e : seen) : Prop := quiet e ∧ ¬ unread guard e.

Ltac sounds := split; [reflexivity|intros []].

Lemma quiet_changes t : Forall quiet t → omap saw_change t = [].
Proof. induction 1 as [|e t He _ IH]; [done|]. cbn. by rewrite He. Qed.

Lemma sound_quiet guard t : Forall (sound guard) t → Forall quiet t.
Proof. intros Ht. eapply Forall_impl; [exact Ht|]. by intros e []. Qed.

Lemma lift_sound {E A} (into : ∀ B, E B → org_call B) guard (p : prog E A) t a :
  (∀ B c x, See (into B c) x = SawOther) → traced (lift into p) t a → Forall (sound guard) t.
Proof.
  intros Hi. revert t. induction p as [x|B c k IH]; intros t; cbn [lift Runs.traced]; [by intros [-> _]|].
  intros (y&t'&->&Ht). constructor; [|by eapply IH]. rewrite Hi. sounds.
Qed.

(** A part of a pass changes nothing, and if it ends well has read everything. *)
Definition reading (guard : PolicyGuard) {A X} (p : prog org_call (result X A)) : Prop := whole (@See) quiet (sound guard) p.

Lemma reading_ret guard {A X} (r : result X A) : reading guard (Ret r).
Proof. apply whole_ret. Qed.

Lemma reading_then guard {A B X} (p : prog org_call (result X A)) (k : A → prog org_call (result X B)) :
  reading guard p → (∀ a, reading guard (k a)) → reading guard (then_ p k).
Proof. apply whole_then. Qed.

Lemma reading_ask guard {A} (c : org_call (result string A)) :
  (∀ x, quiet (See c x)) → (∀ a, ¬ unread guard (See c (Ok a))) → reading guard (ask_ c).
Proof. intros Hq Hu. apply whole_ask; [done|]. by split. Qed.

Ltac asks := apply reading_ask; [intros []; reflexivity|intros ? Hu; exact Hu].

Lemma mint_token_reading guard AppToken org now : reading guard (mint_token AppToken org now).
Proof.
  unfold mint_token. apply reading_then; [asks|]. intros [c|]; [|apply reading_ret].
  destruct (AppToken _ _ _) as [app|]; [|apply reading_ret]. apply reading_then; [case_bool_decide; [asks|apply reading_ret]|].
  intros installation. asks.
Qed.

Lemma token_reading guard AppToken org now m : reading guard (token_ AppToken org now m).
Proof.
  unfold token_. pose proof (reading_then guard (mint_token AppToken org now) (λ kept, Ret (Ok (keep_token org kept m)))
    (mint_token_reading guard AppToken org now) (λ kept, reading_ret guard _)) as Hmint.
  destruct (mm_tokens m !! org) as [[value expires]|]; [|done]. destruct (_ <? _)%Z; [apply reading_ret|done].
Qed.

Lemma read_teams_reading guard slugs exists_ members : reading guard (read_teams slugs exists_ members).
Proof.
  revert members. induction slugs as [|slug slugs IH]; intros members; cbn [read_teams]; [apply reading_ret|].
  destruct (str_in slug exists_); [|apply IH]. apply reading_then; [asks|]. intros ms. apply IH.
Qed.

Lemma read_reading guard binding : reading guard (read binding).
Proof.
  unfold read. repeat (apply reading_then; [first [asks|apply read_teams_reading]|intros ?]). apply reading_ret.
Qed.

Lemma holders_each_reading guard groups out : reading guard (holders_each guard ListHolders groups out).
Proof.
  revert out. induction groups as [|group groups IH]; intros out; cbn [holders_each]; [apply reading_ret|].
  intros t r [(e&(x&->&Hx)%traced_ask&->)|(t1&t2&[hs digest]&->&(x&->&Hx)%traced_ask&Hr)]%traced_then; [by split; [constructor|]|].
  destruct x as [[hs' digest']|]; [|done]. injection Hx as <- <-. destruct (PolicyGuard_Check guard digest) eqn:Hg.
  - destruct (IH _ _ _ Hr) as [Hq Hs]. split; [by constructor|]. intros a Ha. constructor; [|by eapply Hs]. split; [done|].
    cbn. by rewrite Hg.
  - destruct Hr as [-> ->]. by split; [constructor|].
Qed.

Lemma liveInDirectory_sound guard email t a : traced (liveInDirectory email) t a → Forall (sound guard) t.
Proof. intros (r&t'&->&->&_). constructor; [sounds|done]. Qed.

Lemma match_each_sound guard linked now members misses t r :
  traced (match_each linked now members misses) t r → Forall (sound guard) t.
Proof.
  revert misses t r. induction members as [|member members IH]; intros misses t r; cbn [match_each]; [by intros [-> _]|].
  destruct (match_skips _ _ _ _); [apply IH|]. intros (x&t'&->&Ht). constructor; [sounds|]. destruct x as [email|e]; [|by eapply IH].
  eapply traced_bind_all; [| |exact Ht].
  - intros t1 a Ht1. destruct (empty email); [by destruct Ht1 as [-> _]|by eapply liveInDirectory_sound].
  - intros [] t1 b Ht1; [|by eapply IH]. eapply traced_bind_all; [intros; by eapply IH| |exact Ht1]. by intros [candidates ms] t2 c [-> _].
Qed.

(** A change that was made, as it was recorded. *)
Definition made_change (e : pass_event) : option (change * option string) :=
  match e with Made a refused => Some (change_of a, refused) | _ => None end.

Lemma matches_made {A} (f : A → string * string * string) (l : list A) :
  omap made_change ((λ x, NowMatched (f x).1.1 (f x).1.2 (f x).2) <$> l) = [].
Proof. by induction l. Qed.

(** The links an adoption answered with, as the pass takes them. *)
Definition linked_now (adopted : option (list Links.Link)) : list GitHub.Link :=
  (λ l, GitHub.mkLink (lk_ID l) (lk_Login l) (lk_Emails l) false "" (lk_LinkedAt l)) <$> default [] adopted.

(** A link put forward for a listed member that has none, shows no address and
    publishes one on its profile, which the console says is a live account's. *)
Definition put_forward now (ms : list AppMember) (linked : list Z) (t : list seen) (c : Links.Link) : Prop :=
  ∃ mb email x, mb ∈ ms ∧ c = profile_link now mb email ∧ am_Emails mb = [] ∧ am_ID mb ∉ linked ∧
    SawProfile (am_Login mb) (Ok email) ∈ t ∧ SawExplained (ToLower email) (Ok x) ∈ t ∧
    ex_Authoritative x = true ∧ ex_Found x = true ∧ ex_Suspended x = false.

(** The links a pass adds to the stored ones: none, or what the store of links
    answered it when it put forward the published addresses it had just checked. *)
Definition matched_in now (ms : list AppMember) (linked : list Z) (t : list seen) (matched : list GitHub.Link) : Prop :=
  matched = [] ∨ ∃ candidates adopted, SawAdopted candidates adopted ∈ t ∧ matched = linked_now adopted ∧
    Forall (put_forward now ms linked t) candidates.

Lemma put_forward_more now ms ms' linked t t' c :
  (∀ mb, mb ∈ ms → mb ∈ ms') → (∀ e, e ∈ t → e ∈ t') → put_forward now ms linked t c → put_forward now ms' linked t' c.
Proof. intros Hms Ht (mb&email&x&?&?&?&?&?&?&?). exists mb, email, x. split_and!; naive_solver. Qed.

Lemma matched_in_more now ms linked t t' matched :
  (∀ e, e ∈ t → e ∈ t') → matched_in now ms linked t matched → matched_in now ms linked t' matched.
Proof.
  intros Ht [?|(candidates&adopted&?&?&Hall)]; [by left|]. right. exists candidates, adopted. split_and!; auto.
  eapply Forall_impl; [exact Hall|]. intros c. by apply put_forward_more.
Qed.

Lemma match_each_forward linked now members misses t candidates misses' :
  traced (match_each (list_to_set linked) now members misses) t (candidates, misses') →
  Forall (put_forward now members linked t) candidates.
Proof.
  revert misses t candidates misses'. induction members as [|member members IH]; intros misses t candidates misses'; cbn [match_each].
  { by intros [_ [= -> _]]. }
  assert (∀ t' t'' cs, (∀ e, e ∈ t' → e ∈ t'') → Forall (put_forward now members linked t') cs →
    Forall (put_forward now (member :: members) linked t'') cs) as Hmore.
  { intros t' t'' cs Hin Hall. eapply Forall_impl; [exact Hall|]. intros c. apply put_forward_more; [by right|done]. }
  destruct (match_skips _ _ _ _) eqn:Hskip; [intros Ht%IH; by eapply Hmore|]. intros (x&t'&->&Ht).
  destruct x as [email|e]; [|apply IH in Ht; eapply Hmore; [|exact Ht]; by right].
  apply traced_bind in Ht as (t1&t2&is_live&->&H1&H2). destruct is_live.
  - apply traced_bind in H2 as (t3&t4&[cs ms]&->&H3%IH&[-> [= -> ->]]). destruct (empty email); [by destruct H1|].
    destruct H1 as (r&t5&->&->&Hlive). destruct r as [r|]; [|done]. symmetry in Hlive.
    rewrite !andb_true_iff, negb_true_iff in Hlive. destruct Hlive as [[[_ Ha] Hf] Hs].
    unfold match_skips in Hskip. rewrite !orb_false_iff, negb_false_iff, !bool_decide_eq_true, !bool_decide_eq_false in Hskip.
    destruct Hskip as [[[Hl He] _] _]. rewrite app_nil_r. constructor.
    + exists member, email, r. rewrite elem_of_list_to_set in Hl. split_and!; try done; [by left|by left|by right; left].
    + eapply Hmore; [|exact H3]. intros e ?. right. by right.
  - apply IH in H2. eapply Hmore; [|exact H2]. intros e ?. right. apply elem_of_app. by right.
Qed.

(** Profile matches are never lost links. *)
Lemma matchProfiles_sound guard now members links misses t matched misses' events :
  traced (matchProfiles now members links misses) t (matched, misses', events) →
  Forall (sound guard) t ∧ Forall (λ l, l_Lost l = false) matched ∧ omap made_change events = [] ∧
  matched_in now members (l_ID <$> links) t matched.
Proof.
  intros (t1&t2&[candidates ms]&->&H1&H2)%traced_bind. pose proof (match_each_forward _ _ _ _ _ _ _ H1) as Hf.
  apply (match_each_sound guard) in H1.
  destruct candidates as [|c candidates].
  - destruct H2 as [-> [= -> -> ->]]. rewrite app_nil_r. split_and!; try done. by left.
  - destruct H2 as (x&t3&->&->&[= -> -> ->]). split; [|split; [by apply Forall_fmap, Forall_true|split]].
    3: { right. exists (c :: candidates), x. split_and!; [apply elem_of_app; right; by left|done|]. eapply Forall_impl; [exact Hf|].
         intros c'. apply put_forward_more; [done|]. intros e ?. apply elem_of_app. by left. }
    2: { exact (matches_made (λ l, (firstEmail l, lk_Login l, lk_Note l)) _). }
    apply Forall_app. split; [done|]. constructor; [sounds|done].
Qed.

Lemma confirm_sound guard emails out other t out' other' : traced (confirm guard emails out other) t (out', other') →
  Forall (sound guard) t ∧ ∀ email v, out' !! email = Some v → out !! email = Some v ∨
    ∃ x, SawExplained email (Ok x) ∈ t ∧ ex_Digest x = Digest guard ∧ v = vouch_of x.
Proof.
  revert out other t. induction emails as [|email emails IH]; intros out other t; cbn [confirm].
  { intros [-> [= -> ->]]. split; [done|]. by left. }
  intros (x&t'&->&Ht). assert (sound guard (See (Explain email) x)) as Hx by sounds.
  assert (∀ out other, traced (confirm guard emails out other) t' (out', other') → (∀ e v, out !! e = Some v → out !! e = Some v) →
    Forall (sound guard) (See (Explain email) x :: t')) as Hall.
  { intros o oth Ho _. apply IH in Ho as [Ho _]. by constructor. }
  assert (∀ e v, (∃ y, SawExplained e (Ok y) ∈ t' ∧ ex_Digest y = Digest guard ∧ v = vouch_of y) →
    ∃ y, SawExplained e (Ok y) ∈ See (Explain email) x :: t' ∧ ex_Digest y = Digest guard ∧ v = vouch_of y) as Hmore.
  { intros email' v (y&Hy&?). exists y. split; [by right|done]. }
  destruct x as [x|]; [destruct (PolicyGuard_Check guard (ex_Digest x)) eqn:Hg|];
    (split; [by eapply Hall|]); intros email' v Hv; destruct (IH _ _ _ Ht) as [_ Hout]; apply Hout in Hv as [Hv|Hv]; auto.
  apply lookup_insert_Some in Hv as [[<- <-]|[_ Hv]]; [|by left]. right. exists x. split; [by left|].
  apply andb_true_iff in Hg as [_ Hg%bool_decide_eq_true]. by split.
Qed.

(** What was decided, and on what. *)
Lemma decided_inv guard org binding state hs confirmed t report actions outside other :
  traced (decided guard org binding state hs confirmed) t (report, actions, outside, other) →
  Forall (sound guard) t ∧ ∃ confirmations g, gu_Members g = length (os_Members state) ∧ gu_Confirmed g = confirmed ∧
    (report, actions) = (let '(r, a) := Draft_Decide (Derive org binding hs state) confirmations in Guard r a g) ∧
    ∀ email v, confirmations !! email = Some v → ∃ x, SawExplained email (Ok x) ∈ t ∧ ex_Digest x = Digest guard ∧ v = vouch_of x.
Proof.
  intros (t1&t2&g&->&Hg&(t3&t4&[confirmations o]&->&Hc&Hd)%traced_bind)%traced_bind.
  destruct Hg as (plan&t5&->&(failed&t6&->&->&->)). apply confirm_sound in Hc as [Hcs Hc].
  destruct (Draft_Decide _ confirmations) as [r a] eqn:Hdd. destruct (Guard r a _) as [r' a'] eqn:Hgu.
  apply traced_bind in Hd as (t7&t8&outside'&->&(x&t9&->&->&_)&->&[= -> -> -> ->]). split.
  { repeat (apply Forall_cons; split; [sounds|]). apply Forall_app. split; [done|]. apply Forall_cons. split; [sounds|done]. }
  exists confirmations. eexists. split_and!; [| |rewrite Hdd; symmetry; exact Hgu|]; [done..|].
  intros email v Hv. apply Hc in Hv as [Hv|(x'&Hx&?)]; [by rewrite lookup_empty in Hv|]. exists x'.
  split; [|done]. apply elem_of_app. right. apply elem_of_app. by left.
Qed.

Lemma token_keeps AppToken org now m t m' : traced (token_ AppToken org now m) t (Ok m') →
  mm_last m' = mm_last m ∧ mm_held m' = mm_held m.
Proof.
  unfold token_. assert (∀ t, traced (then_ (mint_token AppToken org now) (λ kept, Ret (Ok (keep_token org kept m)))) t (Ok m') →
    mm_last m' = mm_last m ∧ mm_held m' = mm_held m) as Hmint.
  { intros t' [(e&_&?)|(t1&t2&kept&_&_&_&[= ->])]%traced_then; done. }
  destruct (mm_tokens m !! org) as [[value expires]|]; [|apply Hmint]. destruct (_ <? _)%Z; [by intros [_ [= ->]]|apply Hmint].
Qed.

Lemma read_members binding t state : traced (read binding) t (Ok state) → SawMembers (Ok (os_Members state)) ∈ t.
Proof.
  intros [(e&_&?)|(t1&t2&ms&->&(x&->&Hx)%traced_ask&Ht)]%traced_then; [done|]. destruct x as [ms'|]; [|done]. injection Hx as ->.
  apply traced_then in Ht as [(e&_&?)|(t3&t4&ivs&->&_&Ht)]; [done|].
  apply traced_then in Ht as [(e&_&?)|(t5&t6&ts&->&_&Ht)]; [done|].
  apply traced_then in Ht as [(e&_&?)|(t7&t8&tms&->&_&_&[= ->])]; [done|]. by left.
Qed.

(** What was read, and what every pass rests on. *)
Lemma prepare_inv guard AppToken org binding now links m t r m' events :
  traced (prepare guard AppToken org binding now links m) t (r, m', events) →
  Forall quiet t ∧ mm_last m' = mm_last m ∧ omap made_change events = [] ∧ ∀ state hs, r = Ok (state, hs) →
    Forall (sound guard) t ∧ SawMembers (Ok (os_Members state)) ∈ t ∧
    ∃ ls matched, links = Ok ls ∧ os_Links state = ls ++ matched ∧ Forall (λ l, l_Lost l = false) matched ∧
      matched_in now (os_Members state) (l_ID <$> ls) t matched.
Proof.
  destruct links as [links|why]; cbn [prepare]; [|by intros [-> [= -> -> ->]]].
  intros (t1&t2&r1&->&H1&H2)%traced_bind. destruct (token_reading guard _ _ _ _ _ _ H1) as [Q1 S1].
  destruct r1 as [m1|e]; [|destruct H2 as [-> [= -> -> ->]]; by rewrite app_nil_r]. destruct (token_keeps _ _ _ _ _ _ H1) as [<- _].
  specialize (S1 _ eq_refl). apply traced_bind in H2 as (t3&t4&r2&->&H3&H4). destruct (read_reading guard _ _ _ H3) as [Q3 S3].
  destruct r2 as [state|e]; [|destruct H4 as [-> [= -> -> ->]]; rewrite app_nil_r; split; [by apply Forall_app|done]].
  specialize (S3 _ eq_refl). apply read_members in H3.
  apply traced_bind in H4 as (t5&t6&[[matched misses] events']&->&(S5&Hm&He&Hma)%(matchProfiles_sound guard)&H6).
  apply traced_bind in H6 as (t7&t8&hs&->&H7&[-> [= -> -> ->]]). destruct (holders_each_reading guard _ _ _ _ H7) as [Q7 S7].
  rewrite app_nil_r. split; [|split; [done|split; [done|]]].
  - repeat (apply Forall_app; split); try done; by eapply sound_quiet.
  - intros state' hs'. destruct hs as [hs|]; [|done]. intros [= <- <-]. split; [|split].
    + repeat (apply Forall_app; split); try done. by eapply S7.
    + cbn. apply elem_of_app. right. apply elem_of_app. by left.
    + exists links, matched. split_and!; try done. eapply matched_in_more, Hma. intros e ?. rewrite !elem_of_app. tauto.
Qed.

(** The changes a pass makes, with what GitHub said. *)
Lemma act_inv actions report t report' events done_ : traced (act actions report) t (report', events, done_) →
  ∃ answers, length answers = length actions ∧ t = (λ x : Action * option string, SawChange (change_of x.1) x.2) <$> zip actions answers ∧
    events = (λ x : Action * option string, Made x.1 x.2) <$> zip actions answers ∧
    done_ = length (List.filter (λ r, bool_decide (r = None)) answers).
Proof.
  revert report t report' events done_. induction actions as [|a actions IH]; intros report t report' events done_.
  { intros [-> [= -> -> ->]]. by exists []. }
  intros (refused&t'&->&(t1&t2&[[report1 events1] done1]&->&H1&[-> [= -> -> ->]])%traced_bind).
  destruct (IH _ _ _ _ _ H1) as (answers&Hl&->&->&->). exists (refused :: answers). rewrite app_nil_r.
  split_and!; [cbn; congruence|done..|]. by destruct refused.
Qed.

Lemma previous_sound guard reads Key Decode m org t r : traced (previous reads Key Decode m org) t r → Forall (sound guard) t.
Proof. by apply lift_sound. Qed.

Lemma recordNewlyHeld_sound guard reads Key Decode org report m t m' events :
  traced (recordNewlyHeld reads Key Decode org report m) t (m', events) →
  Forall (sound guard) t ∧ mm_last m' = mm_last m ∧ Forall (λ e, ∃ team row, e = NowHeld team row) events.
Proof.
  intros (t1&t2&seed&->&H1&H2)%traced_bind. destruct (Fresh _ _ _ _) as [fresh ledger]. destruct H2 as [-> [= -> ->]].
  rewrite app_nil_r. split; [|split; [done|]].
  - destruct (mm_held m !! org); [by destruct H1 as [-> _]|]. eapply traced_bind_all; [apply previous_sound| |exact H1]. by intros a t b [-> _].
  - apply Forall_fmap, Forall_true. intros [[team row] ?]. by exists team, row.
Qed.

(** Two reports show the same people. *)
Definition same_rows (r last : OrgStatus) : Prop :=
  or_Members (sr_Report r) = or_Members (sr_Report last) ∧ or_Teams (sr_Report r) = or_Teams (sr_Report last) ∧
  or_Unlinked (sr_Report r) = or_Unlinked (sr_Report last) ∧ sr_Outside r = sr_Outside last.

(** A pass over an organisation: it failed, or it ended having read everything. *)
Inductive pass_shape (guard : PolicyGuard) org (binding : GitHubOrg) (enabled : bool) now (links : result string (list GitHub.Link))
    (m : memory) (t : list seen) (report : OrgStatus) (m' : memory) (events : list pass_event) : Prop :=
| pass_failed : Forall quiet t → omap made_change events = [] → ot_Outcome (sr_Tick report) = OutcomeFailed → ot_Changes (sr_Tick report) = 0 →
    mm_last m' = mm_last m → (∀ last, mm_last m !! org = Some last → same_rows report last) → pass_shape guard org binding enabled now links m t report m' events
| pass_ended t0 t1 state hs ls matched confirmations g report0 actions answers :
    t = t0 ++ ((λ x : Action * option string, SawChange (change_of x.1) x.2) <$> zip actions answers) ++ t1 →
    Forall (sound guard) t0 → Forall (sound guard) t1 → ot_Outcome (sr_Tick report) ≠ OutcomeFailed →
    SawMembers (Ok (os_Members state)) ∈ t0 →
    links = Ok ls → os_Links state = ls ++ matched → Forall (λ l, l_Lost l = false) matched → matched_in now (os_Members state) (l_ID <$> ls) t0 matched →
    gu_Members g = length (os_Members state) →
    (report0, actions) = (let '(r, a) := Draft_Decide (Derive org binding hs state) confirmations in Guard r a g) →
    (∀ email v, confirmations !! email = Some v → ∃ x, SawExplained email (Ok x) ∈ t0 ∧ ex_Digest x = Digest guard ∧ v = vouch_of x) →
    length answers = (if enabled then length actions else 0) →
    omap made_change events = (λ x : Action * option string, (change_of x.1, x.2)) <$> zip actions answers →
    ot_Changes (sr_Tick report) = (if enabled then length (List.filter (λ r, bool_decide (r = None)) answers) else length actions) →
    mm_last m' = <[org := report]> (mm_last m) →
    pass_shape guard org binding enabled now links m t report m' events.

Lemma made_fmap (xs : list (Action * option string)) :
  omap made_change ((λ x : Action * option string, Made x.1 x.2) <$> xs) = (λ x : Action * option string, (change_of x.1, x.2)) <$> xs.
Proof. induction xs as [|x xs IH]; [done|]. cbn. by f_equal. Qed.

Lemma newly_made events : Forall (λ e, ∃ team row, e = NowHeld team row) events → omap made_change events = [].
Proof. induction 1 as [|e events (?&?&->) _ IH]; [done|exact IH]. Qed.

Lemma fail_inv reads Key Decode org enabled now m e t report : traced (fail reads Key Decode org enabled now m e) t report →
  Forall quiet t ∧ ot_Outcome (sr_Tick report) = OutcomeFailed ∧ ot_Changes (sr_Tick report) = 0 ∧
  ∀ last, mm_last m !! org = Some last → same_rows report last.
Proof.
  intros (t1&t2&last&->&H1&[-> ->])%traced_bind. rewrite app_nil_r. split_and!; [|done|done|].
  - by eapply sound_quiet, (previous_sound (mkPolicyGuard "")), H1.
  - intros last' Hlast. unfold previous, Previous in H1. rewrite Hlast in H1. by destruct H1 as [_ ->].
Qed.

Lemma organisation_shape guard AppToken reads Key Decode org binding enabled now links confirmed m t report other m' events :
  traced (organisation guard AppToken reads Key Decode org binding enabled now links confirmed m) t (report, other, m', events) →
  pass_shape guard org binding enabled now links m t report m' events.
Proof.
  intros (t0&t1&[[r m1] matches]&->&(Q0&Hl&He&Hp)%prepare_inv&H2)%traced_bind. destruct r as [[state hs]|e].
  - destruct (Hp _ _ eq_refl) as (S0&Hms&ls&matched&Hlinks&Hstate&Hm&Hma).
    apply traced_bind in H2 as (t2&t3&[[[report0 actions] outside] other0]&->&(S2&confirmations&g&Hg&_&Hd&Hc)%decided_inv&H3).
    apply traced_bind in H3 as (t4&t5&[[[report1 changes] m2] events1]&->&H4&[-> [= -> -> -> ->]]).
    assert (∀ email v, confirmations !! email = Some v →
      ∃ x, SawExplained email (Ok x) ∈ t0 ++ t2 ∧ ex_Digest x = Digest guard ∧ v = vouch_of x) as Hc'.
    { intros email v (x&Hx&?)%Hc. exists x. rewrite elem_of_app. by split; [right|]. }
    assert (∀ t2, matched_in now (os_Members state) (l_ID <$> ls) (t0 ++ t2) matched) as Hmore.
    { intros t2'. eapply matched_in_more, Hma. intros e ?. apply elem_of_app. by left. }
    rewrite app_nil_r, app_assoc. destruct enabled.
    + apply traced_bind in H4 as (t6&t7&[[report2 made] done_]&->&(answers&Hlen&->&->&->)%act_inv&H7).
      apply traced_bind in H7 as (t8&t9&[m3 newly]&->&(S8&Hl3&Hn)%(recordNewlyHeld_sound guard)&[-> [= -> -> -> ->]]).
      eapply (pass_ended guard org binding true now links m _ _ _ _ (t0 ++ t2) t8 state hs ls matched confirmations g report0 actions answers);
        try done; [by rewrite app_nil_r|by apply Forall_app|by apply elem_of_app; left| |].
      * rewrite !omap_app, He, made_fmap, (newly_made newly Hn). cbn. by rewrite app_nil_r.
      * cbn. unfold Remember. by rewrite Hl3, Hl.
    + destruct H4 as [-> [= -> -> -> ->]].
      eapply (pass_ended guard org binding false now links m _ _ _ _ (t0 ++ t2) [] state hs ls matched confirmations g report0 actions []);
        try done; [by rewrite zip_with_nil_r|by apply Forall_app|by apply elem_of_app; left| |].
      * by rewrite zip_with_nil_r, app_nil_r, He.
      * cbn. unfold Remember. by rewrite Hl.
  - apply traced_bind in H2 as (t2&t3&report0&->&(Q2&Ho&Hch&Hrows)%fail_inv&[-> [= -> -> -> ->]]). rewrite app_nil_r.
    apply pass_failed; try done; [by apply Forall_app|]. intros last Hlast. apply Hrows. by rewrite Hl.
Qed.

(** ** Removals *)





(** ** Properties *)


(** C5: a pass that could not read everything changes nothing and forgets nothing.  Whether a
    listing of GitHub failed, or the console would not say who holds a bound group, or said it
    under another policy, or the links could not be read: the pass reports a failure, no
    change is made, the report shows the same people as the one remembered, and the one
    remembered is kept. *)
Theorem pass_fails_closed guard AppToken reads Key Decode org binding enabled now links confirmed m t report other m' events last :
  traced (organisation guard AppToken reads Key Decode org binding enabled now links confirmed m) t (report, other, m', events) →
  (∃ e, e ∈ t ∧ unread guard e) ∨ (∃ why, links = Err why) → mm_last m !! org = Some last →
  omap saw_change t = [] ∧ omap made_change events = [] ∧ ot_Outcome (sr_Tick report) = OutcomeFailed ∧
  ot_Changes (sr_Tick report) = 0 ∧ same_rows report last ∧ mm_last m' = mm_last m.
Proof.
  intros Ht%organisation_shape Hbad Hlast. destruct Ht as [Q Hm Ho Hch Hl Hrows|t0 t1 state hs ls matched confirmations g report0 actions answers
    -> S0 S1 _ Hms Hl _ _ _ _ _ _ _ _ _ _].
  { split_and!; try done; [by apply quiet_changes|by apply Hrows..]. }
  destruct Hbad as [(e&He&Hu)|[why ?]]; [|congruence]. exfalso. rewrite !elem_of_app in He. destruct He as [He|[He|He]].
  - by apply (proj1 (Forall_forall _ _) S0) in He as [_ []].
  - by apply list_elem_of_fmap in He as ([a r]&->&_).
  - by apply (proj1 (Forall_forall _ _) S1) in He as [_ []].
Qed.

(** what a pass changed is what it says it changed.  The changes it made, in the order it
    made them, with GitHub's answers, are the ones it recorded; a disabled organisation is
    never changed; and where the pass ended, its count of changes is the number of those
    GitHub accepted. *)
Theorem pass_records_its_changes guard AppToken reads Key Decode org binding enabled now links confirmed m t report other m' events :
  traced (organisation guard AppToken reads Key Decode org binding enabled now links confirmed m) t (report, other, m', events) →
  omap saw_change t = omap made_change events ∧ (enabled = false → omap saw_change t = []) ∧
  (enabled = true → ot_Changes (sr_Tick report) = length (List.filter (λ x, bool_decide (x.2 = None)) (omap saw_change t))).
Proof.
  intros Ht%organisation_shape. destruct Ht as [Q Hm _ Hch _ _|t0 t1 state hs ls matched confirmations g report0 actions answers
    -> S0%sound_quiet S1%sound_quiet _ _ _ _ _ _ _ _ _ Hlen Hm Hch _].
  { rewrite quiet_changes, Hm by done. by rewrite Hch. }
  assert (omap saw_change (t0 ++ ((λ x : Action * option string, SawChange (change_of x.1) x.2) <$> zip actions answers) ++ t1) =
    (λ x : Action * option string, (change_of x.1, x.2)) <$> zip actions answers) as Heq.
  { rewrite !omap_app, (quiet_changes t0 S0), (quiet_changes t1 S1). cbn [app]. rewrite app_nil_r. clear. by induction (zip actions answers) as [|x xs IH]; [|cbn; f_equal]. }
  rewrite Heq, Hm. split_and!; [done| |].
  - intros ->. destruct answers; [|done]. by rewrite zip_with_nil_r.
  - intros ->. rewrite Hch. clear -Hlen. revert actions Hlen. induction answers as [|r answers IH]; intros [|a actions] Hlen; try done.
    cbn. case_bool_decide; cbn; [f_equal|]; apply IH; cbn in Hlen; lia.
Qed.

(** ** Witnesses: a pass over the sample organisation *)

Definition pass_policy : PolicyGuard := mkPolicyGuard "policy".
Definition pass_memory : memory := mkMemory {["acme" := ("token", (100 * five_minutes)%Z)]} ∅ {["acme" := no_report]} ∅.

(** GitHub and the console, which knows everybody but Bob; GitHub refuses what [refuses] says,
    and lists its teams or does not. *)
Definition pass_answers (lists : bool) (refuses : option string) B (c : org_call B) : B :=
  match c in org_call B return B with
  | ReadMembers => Ok (os_Members sample_state)
  | ReadInvitations => Ok []
  | ReadTeams => if lists then Ok (os_Teams sample_state) else Err "timeout"
  | ReadTeamMembers slug => Ok (default [] (os_TeamMembers sample_state !! slug))
  | ListHolders group => Ok (default [] (sample_holders !! group), "policy")
  | Explain email => Ok (mkExplained true true (negb (bool_decide (email = "bob@acme.test"))) false ["everyone"] "policy")
  | MakeChange _ => refuses
  | InLinks c => run_answers true true run_link _ c
  | InJournal c => match c in report_call B return B with Replace _ => true | PutReport _ _ => true | RemoveReport _ => true | Reports => None end
  | ReadCredential _ | FindInstallation _ _ | MintToken _ _ | PublicEmail _ | ReadPlan | ReadFailed | ReadCollaborators => Err "timeout"
  | AdoptLinks _ | ReadConfirmations | TakeLease _ _ => None
  end.
Definition sample_pass : prog org_call (OrgStatus * bool * memory * list pass_event) :=
  organisation pass_policy (λ _ _ _, None) true (λ org, org) (λ _, None) "acme" sample_binding true 20
    (Ok (os_Links sample_state)) "" pass_memory.
Definition pass_run (lists : bool) (refuses : option string) := played (@See) (pass_answers lists refuses) sample_pass.

(** What the run is, computed: the calls it makes, its report, whether an answer came under
    another policy, what is remembered and what is recorded. *)
Definition pass_trace : list seen := Eval vm_compute in (pass_run true None).1.
Definition pass_report : OrgStatus := Eval vm_compute in (pass_run true None).2.1.1.1.
Definition pass_events : list pass_event := Eval vm_compute in (pass_run true None).2.2.
Definition passed_memory : memory := keep_last (Remember (mm_last pass_memory) "acme" pass_report)
  (keep_held {["acme" := {["|cat@acme.test|cat|invite|held"]}]} pass_memory).
Lemma pass_traced : traced sample_pass pass_trace (pass_report, false, passed_memory, pass_events).
Proof. apply (traced_played (@See) (pass_answers true None)). vm_compute. reflexivity. Qed.



Definition failed_trace : list seen := Eval vm_compute in (pass_run false None).1.
Definition failed_report : OrgStatus := Eval vm_compute in (pass_run false None).2.1.1.1.
Lemma failed_traced : traced sample_pass failed_trace (failed_report, false, pass_memory, []).
Proof. apply (traced_played (@See) (pass_answers false None)). vm_compute. reflexivity. Qed.
Lemma failed_unread : ∃ e, e ∈ failed_trace ∧ unread pass_policy e.
Proof. exists (SawTeams (Err "timeout")). split; [|exact I]. by eapply (list_elem_of_lookup_2 _ 2). Qed.

Lemma pass_fails_closed_witness : omap saw_change failed_trace = [] ∧ ot_Outcome (sr_Tick failed_report) = OutcomeFailed.
Proof.
  destruct (pass_fails_closed pass_policy (λ _ _ _, None) true (λ org, org) (λ _, None) "acme" sample_binding true 20
    (Ok (os_Links sample_state)) "" pass_memory failed_trace failed_report false pass_memory [] no_report
    failed_traced (or_introl failed_unread) eq_refl) as (Hc&_&Ho&_). exact (conj Hc Ho).
Defined.

Lemma pass_records_its_changes_witness : omap saw_change pass_trace = omap made_change pass_events.
Proof.
  exact (proj1 (pass_records_its_changes pass_policy (λ _ _ _, None) true (λ org, org) (λ _, None) "acme" sample_binding true 20
    (Ok (os_Links sample_state)) "" pass_memory pass_trace pass_report false passed_memory pass_events pass_traced)).
Defined.

Example pass_changes : omap saw_change pass_trace = [(SetTeamRole "core" "ann" true, None); (RemoveFromOrg "bob", None)].
Proof. vm_compute. reflexivity. Qed.

(** ** Dry runs and the record of what is held *)

(** A disabled pass remembers its report, held rows and all, and records none of them; the
    first enabled pass then takes them for recorded, from the report.  So what was held before
    an organisation was enabled is never recorded, however long it stays held. *)
Definition unsure_answers B (c : org_call B) : B :=
  match c in org_call B return B with
  | Explain _ => Ok (mkExplained true false true false [] "policy")
  | c => pass_answers true None _ c
  end.
Definition unsure_pass (enabled : bool) (m : memory) :=
  (played (@See) unsure_answers (organisation pass_policy (λ _ _ _, None) true (λ org, org) (λ _, None) "acme" sample_binding enabled 20
    (Ok (os_Links sample_state)) "" m)).2.
Definition is_held (e : pass_event) : bool := match e with NowHeld _ _ => true | _ => false end.

Example held_in_a_dry_run :
  (ot_Held (sr_Tick (unsure_pass false pass_memory).1.1.1), List.filter is_held (unsure_pass false pass_memory).2,
   ot_Held (sr_Tick (unsure_pass true (unsure_pass false pass_memory).1.2).1.1.1),
   List.filter is_held (unsure_pass true (unsure_pass false pass_memory).1.2).2,
   length (List.filter is_held (unsure_pass true pass_memory).2)) = (1, [], 1, [], 1).
Proof. vm_compute. reflexivity. Qed.
