(* ===== verification/SlackData.v ===== *)
(** * SlackData: what a Slack workspace's pass reads, and the console's records

    The types of [internal/slackroster/reconcile/reconcile.go], and the rules a
    console record ([SharedChannel], [ConsoleChannel]) is held to before the
    reconciler sees it.  The page's audit stamps of a record are left out.

    The theorem: a record that loads names a channel the policy does not define,
    is fed by addresses, none twice, and is strict only where it is private. *)

From S2P Require Import Prelude GoStrings Policy SlackPolicy Rails.

Implicit Types (workspace name id address group member : string).

(** ** Records of the console *)

(** [internal/slackroster/reconcile/reconcile.go:type Privacy]; a nil map of sides
    and an empty one differ here, as they do in [Validate]. *)
Record Privacy := mkPrivacy { pv_All : bool; pv_PerSide : option (gmap string bool) }.

(** [internal/slackroster/reconcile/reconcile.go:Privacy.IsPrivate] *)
Definition IsPrivate (p : Privacy) workspace : bool :=
  match pv_PerSide p with
  | Some per => default false (per !! workspace)
  | None => pv_All p
  end.

(** [internal/slackroster/reconcile/reconcile.go:type SharedChannel] *)
Record SharedChannel := mkSharedChannel {
  sc_Name : string; sc_Host : string; sc_With : list string; sc_Sources : list string;
  sc_Members : list string; sc_Private : Privacy; sc_ChannelID : string }.

(** [internal/slackroster/reconcile/reconcile.go:type ConsoleChannel] *)
Record ConsoleChannel := mkConsoleChannel {
  cc_Workspace : string; cc_Name : string; cc_ChannelID : string; cc_Private : bool; cc_Mode : string;
  cc_Ignore : list string; cc_Sources : list string; cc_Members : list string }.

(** [internal/slackroster/reconcile/reconcile.go:ConsoleChannel.Strict] *)
Definition ConsoleChannel_Strict (c : ConsoleChannel) : bool := bool_decide (cc_Mode c = "strict").

(** [internal/slackroster/reconcile/reconcile.go:ConsoleChannel.Binding] *)
Definition Binding (c : ConsoleChannel) : SlackChannel :=
  mkSlackChannel (cc_Private c) (cc_Mode c) (cc_Ignore c) (cc_Sources c) (cc_ChannelID c).

(** ** What the workspace holds *)

(** [internal/slackroster/reconcile/reconcile.go:type Account] *)
Record Account := mkAccount {
  ac_ID : string; ac_Found : bool; ac_Deleted : bool; ac_Guest : bool; ac_Bot : bool; ac_TeamID : string }.
(** [internal/slackroster/reconcile/reconcile.go:type Member] *)
Record Member := mkMember {
  m_ID : string; m_Email : string; m_TeamID : string; m_Bot : bool; m_Deleted : bool; m_Guest : bool }.
(** [internal/slackroster/reconcile/reconcile.go:type Channel] *)
Record Channel := mkChannel {
  sl_ID : string; sl_Name : string; sl_Creator : string; sl_Private : bool; sl_BotIn : bool; sl_General : bool;
  sl_Archived : bool; sl_Shared : bool; sl_SharedTeamIDs : list string; sl_HostTeamID : string;
  sl_Teams : list string; sl_NumMembers : Z; sl_Members : list string; sl_MembersKnown : bool }.
(** [internal/slackroster/reconcile/reconcile.go:type Invite] *)
Record Invite := mkInvite {
  i_ID : string; i_Incoming : bool; i_HostTeamID : string; i_ChannelID : string; i_ChannelName : string;
  i_RecipientUserID : string }.
(** [internal/slackroster/reconcile/reconcile.go:type Observed] *)
Record Observed := mkObserved {
  ob_TeamID : string; ob_BotUserID : string; ob_Channels : list Channel; ob_Accounts : gmap string Account;
  ob_Members : gmap string Member; ob_Invites : list Invite }.

(** [internal/slackroster/reconcile/reconcile.go:type Confirmed] *)
Record Confirmed := mkConfirmed { cf_Workspace : string; cf_Channels : gmap string string }.

(** [internal/slackroster/reconcile/reconcile.go:Confirmed.covers] *)
Definition covers (c : Confirmed) (fingerprint : string) : string :=
  if empty fingerprint then ""
  else if bool_decide (cf_Workspace c = fingerprint) then fingerprint
  else if bool_decide (fingerprint ∈ (map_to_list (cf_Channels c)).*2) then fingerprint else "".

(** [internal/slackroster/reconcile/reconcile.go:type Facts] *)
Record Facts := mkFacts { f_Team : string; f_Owner : string; f_Domains : list string }.
Definition no_facts : Facts := mkFacts "" "" [].

(** [internal/slackroster/reconcile/reconcile.go:type Input] *)
Record Input := mkInput {
  n_Workspace : string; n_Workspaces : gmap string SlackWorkspace; n_Facts : gmap string Facts;
  n_People : gmap string (list string); n_Holders : gmap string (list Holder);
  n_Shared : list SharedChannel; n_Console : list ConsoleChannel; n_DefinedTwice : gmap string bool;
  n_DirHolders : gmap string (list Holder); n_DirUsers : gmap string Holder;
  n_DirNested : gmap string (list string); n_Bots : gmap string string; n_Observed : Observed }.

Definition facts_of (inp : Input) workspace : Facts := default no_facts (n_Facts inp !! workspace).

(** ** Errors of a record *)

Inductive record_error : Type :=
| RecordName | HostUndeclared (host : string) | WorkspaceUndeclared (workspace : string)
| NamedInGit | AdoptedInGit | RecordID (id : string) | SharedWithNobody
| WithUndeclared (other : string) | HostInWith | WithTwice (other : string)
| Unfed | MemberAddress (member : string) | MemberCase (member : string) | MemberTwice (member : string)
| GroupAndMember (member : string) | SourceAddress (group : string) | SourceCase (group : string) | SourceTwice (group : string)
| SideMissing (side : string) | SideUnknown (side : string)
| RecordStrict | RecordMode (mode : string) | RecordIgnore.

(** [" \t\r\n,"] *)
Definition is_separator_byte (c : ascii) : bool := is_blank_byte c || byte_eqb c ",".

(** An address as Slack and the directory spell one. *)
Definition plain_address address : bool :=
  match Domain address with Some _ => negb (str_any is_separator_byte address) | None => false end.

Definition member_entry (sources : list string) (seen : gset string) member : result record_error (gset string) :=
  check (plain_address member) (MemberAddress member) ;;
  check (bool_decide (member = ToLower member)) (MemberCase member) ;;
  check (negb (bool_decide (member ∈ seen))) (MemberTwice member) ;;
  check (negb (bool_decide (member ∈ sources))) (GroupAndMember member) ;;
  Ok ({[member]} ∪ seen).

Definition source_entry (seen : gset string) group : result record_error (gset string) :=
  check (plain_address group) (SourceAddress group) ;;
  check (bool_decide (group = ToLower group)) (SourceCase group) ;;
  check (negb (bool_decide (group ∈ seen))) (SourceTwice group) ;;
  Ok ({[group]} ∪ seen).

(** [internal/slackroster/reconcile/reconcile.go:validSources] *)
Definition validSources (sources members : list string) : result record_error unit :=
  check (negb (bool_decide (sources = []) && bool_decide (members = []))) Unfed ;;
  fold_m (member_entry sources) ∅ members ;;
  fold_m source_entry ∅ sources ;;
  Ok tt.

(** [internal/slackroster/reconcile/reconcile.go:policyChannelNamed] *)
Definition policyChannelNamed (ws : SlackWorkspace) name : bool := bool_decide (is_Some (w_Channels ws !! name)).

(** [internal/slackroster/reconcile/reconcile.go:policyChannelAdopts] *)
Definition policyChannelAdopts (ws : SlackWorkspace) id : bool :=
  existsb (λ b, negb (empty (ch_Adopt b)) && bool_decide (ch_Adopt b = id)) (map_to_list (w_Channels ws)).*2.

Definition with_entry (p : Policy) host (seen : gset string) (other : string) : result record_error (gset string) :=
  check (bool_decide (is_Some (Slack p !! other))) (WithUndeclared other) ;;
  check (negb (bool_decide (other = host))) HostInWith ;;
  check (negb (bool_decide (other ∈ seen))) (WithTwice other) ;;
  Ok ({[other]} ∪ seen).

(** [internal/slackroster/reconcile/reconcile.go:174-186 SharedChannel.Validate sides] *)
Definition check_sides (sides : list string) (privacy : Privacy) : result record_error unit :=
  match pv_PerSide privacy with
  | None => Ok tt
  | Some per =>
      for_each (λ side, check (bool_decide (is_Some (per !! side))) (SideMissing side)) sides ;;
      for_each (λ side, check (str_in side sides) (SideUnknown side)) (sorted_keys per)
  end.

(** [internal/slackroster/reconcile/reconcile.go:SharedChannel.Validate] *)
Definition SharedChannel_Validate (s : SharedChannel) (p : Policy) : result record_error unit :=
  check (slackChannelName (sc_Name s)) RecordName ;;
  match Slack p !! sc_Host s with
  | None => Err (HostUndeclared (sc_Host s))
  | Some host =>
      check (negb (policyChannelNamed host (sc_Name s))) NamedInGit ;;
      check (empty (sc_ChannelID s) || negb (policyChannelAdopts host (sc_ChannelID s))) AdoptedInGit ;;
      check (empty (sc_ChannelID s) || ValidSlackChannelID (sc_ChannelID s)) (RecordID (sc_ChannelID s)) ;;
      check (negb (bool_decide (sc_With s = []))) SharedWithNobody ;;
      fold_m (with_entry p (sc_Host s)) ∅ (sc_With s) ;;
      validSources (sc_Sources s) (sc_Members s) ;;
      check_sides (sc_Host s :: sc_With s) (sc_Private s)
  end.

(** [internal/slackroster/reconcile/reconcile.go:SharedChannel.NamesChannel] *)
Definition NamesChannel (s : SharedChannel) name (channelHost hostTeam : string) (reporterIsHost : bool) : bool :=
  if negb (bool_decide (sc_Name s = name)) then false
  else reporterIsHost || (negb (empty hostTeam) && bool_decide (channelHost = hostTeam)).

(** [internal/slackroster/reconcile/reconcile.go:ConsoleChannel.CoveredPolicy] *)
Definition CoveredPolicy (c : ConsoleChannel) (ws : SlackWorkspace) : list string :=
  sort_strings ((List.filter (λ nb : string * SlackChannel,
    bool_decide (nb.1 = cc_Name c) ||
    (negb (empty (cc_ChannelID c)) && bool_decide (ch_Adopt nb.2 = cc_ChannelID c))) (map_to_list (w_Channels ws))).*1).

(** [internal/slackroster/reconcile/reconcile.go:ConsoleChannel.Validate] *)
Definition ConsoleChannel_Validate (c : ConsoleChannel) (p : Policy) : result record_error unit :=
  check (slackChannelName (cc_Name c)) RecordName ;;
  match Slack p !! cc_Workspace c with
  | None => Err (WorkspaceUndeclared (cc_Workspace c))
  | Some ws =>
      check (negb (policyChannelNamed ws (cc_Name c))) NamedInGit ;;
      check (empty (cc_ChannelID c) || ValidSlackChannelID (cc_ChannelID c)) (RecordID (cc_ChannelID c)) ;;
      check (empty (cc_ChannelID c) || negb (policyChannelAdopts ws (cc_ChannelID c))) AdoptedInGit ;;
      (if empty (cc_Mode c) || bool_decide (cc_Mode c = "extend") then Ok tt
       else if bool_decide (cc_Mode c = "strict") then check (cc_Private c) RecordStrict
       else Err (RecordMode (cc_Mode c))) ;;
      check (bool_decide (cc_Ignore c = []) || ConsoleChannel_Strict c) RecordIgnore ;;
      validSources (cc_Sources c) (cc_Members c)
  end.

(** ** Lemmas *)

(** What a source or a member of a record that loads looks like. *)
Definition good_address address : Prop := plain_address address = true ∧ address = ToLower address.

Lemma validSources_ok sources members u : validSources sources members = Ok u →
  sources ++ members ≠ [] ∧ NoDup (sources ++ members) ∧ Forall good_address (sources ++ members).
Proof.
  unfold validSources. intros H. step_ok H. apply negb_true_iff, andb_false_iff in H0.
  apply (fold_m_seen (λ m, good_address m ∧ m ∉ sources)) in H1 as (Hm&Hmall&_).
  2: { intros s x s' Hx. unfold member_entry in Hx. step_ok Hx. injection Hx as <-. read_bools. unfold good_address. auto. }
  apply (fold_m_seen good_address) in H2 as (Hs&Hsall&_).
  2: { intros s x s' Hx. unfold source_entry in Hx. step_ok Hx. injection Hx as <-. read_bools. unfold good_address. auto. }
  split; [|split].
  - intros Hnil. apply app_eq_nil in Hnil as [-> ->]. by rewrite !bool_decide_eq_true_2 in H0; destruct H0.
  - apply NoDup_app. split; [done|]. split; [|done]. intros x Hx Hin.
    rewrite Forall_forall in Hmall. by apply (Hmall x Hin).
  - apply Forall_app. split; [done|]. eapply Forall_impl; [exact Hmall|]. by intros x [? _].
Qed.

Lemma policyChannelNamed_false ws name : policyChannelNamed ws name = false ↔ w_Channels ws !! name = None.
Proof. unfold policyChannelNamed. by rewrite bool_decide_eq_false, <- eq_None_not_Some. Qed.

Lemma policyChannelAdopts_false ws id : id ≠ "" →
  policyChannelAdopts ws id = false ↔ ∀ name b, w_Channels ws !! name = Some b → ch_Adopt b ≠ id.
Proof.
  intros Hid. unfold policyChannelAdopts. rewrite <- not_true_iff_false, existsb_exists. split.
  - intros H name b Hb Heq. apply H. exists b. split; [apply list_elem_of_In, elem_of_values; eauto|].
    rewrite Heq, bool_decide_eq_true_2 by done. by destruct id.
  - intros H (b&Hb&Hx). apply list_elem_of_In, elem_of_values in Hb as [name Hb].
    apply andb_true_iff in Hx as [_ Hx]. apply bool_decide_eq_true in Hx. by eapply H.
Qed.

Lemma elem_of_CoveredPolicy c ws name :
  name ∈ CoveredPolicy c ws ↔ ∃ b, w_Channels ws !! name = Some b ∧
    (name = cc_Name c ∨ cc_ChannelID c ≠ "" ∧ ch_Adopt b = cc_ChannelID c).
Proof.
  unfold CoveredPolicy. rewrite elem_of_sort_strings, list_elem_of_fmap.
  setoid_rewrite elem_of_filter_bool. setoid_rewrite orb_true_iff. setoid_rewrite andb_true_iff.
  setoid_rewrite bool_decide_eq_true. setoid_rewrite negb_true_iff. setoid_rewrite empty_false. split.
  - intros ([n b]&->&Hin&H). apply elem_of_map_to_list in Hin. eauto.
  - intros (b&Hb&H). exists (name, b). by rewrite elem_of_map_to_list.
Qed.

Lemma with_entries_ok p host others seen seen' :
  fold_m (with_entry p host) seen others = Ok seen' →
  NoDup others ∧ Forall (λ w, is_Some (Slack p !! w) ∧ w ≠ host) others.
Proof.
  intros H. apply (fold_m_seen (λ w, is_Some (Slack p !! w) ∧ w ≠ host)) in H as (?&?&_); [done|].
  intros s x s' Hx. unfold with_entry in Hx. step_ok Hx. injection Hx as <-. read_bools. auto.
Qed.

Lemma check_sides_ok sides privacy per u : check_sides sides privacy = Ok u → pv_PerSide privacy = Some per →
  ∀ side, is_Some (per !! side) ↔ side ∈ sides.
Proof.
  unfold check_sides. intros H Hp. rewrite Hp in H. step_ok H. rewrite Forall_forall in *.
  intros side. split.
  - intros Hs. specialize (H side). rewrite check_ok, str_in_true in H. apply H. by apply elem_of_sorted_keys.
  - intros Hs. specialize (H0 side Hs). by rewrite check_ok, bool_decide_eq_true in H0.
Qed.

(** ** The properties *)

(** A console record that loads is a channel the policy says nothing about:
    nothing of the workspace's policy covers it, by name or by id.  It is fed by
    at least one address, each well formed and none listed twice, whether as a
    group or as a person; and only a private channel is strict. *)
Theorem ConsoleChannel_Validate_sound c p : ConsoleChannel_Validate c p = Ok tt →
  ∃ ws, Slack p !! cc_Workspace c = Some ws ∧ CoveredPolicy c ws = [] ∧ slackChannelName (cc_Name c) = true ∧
    (cc_ChannelID c ≠ "" → ValidSlackChannelID (cc_ChannelID c) = true) ∧
    (ConsoleChannel_Strict c = true → cc_Private c = true) ∧ (cc_Ignore c ≠ [] → ConsoleChannel_Strict c = true) ∧
    cc_Sources c ++ cc_Members c ≠ [] ∧ NoDup (cc_Sources c ++ cc_Members c) ∧
    Forall good_address (cc_Sources c ++ cc_Members c).
Proof.
  unfold ConsoleChannel_Validate. intros H. step_ok H. destruct (Slack p !! cc_Workspace c) as [ws|]; [|done].
  step_ok H. apply validSources_ok in H as (?&?&?). exists ws. split; [done|].
  apply negb_true_iff, policyChannelNamed_false in H1. apply orb_true_iff in H2, H3, H5.
  rewrite negb_true_iff in H3. rewrite bool_decide_eq_true in H5.
  assert (cc_ChannelID c ≠ "" → ∀ name b, w_Channels ws !! name = Some b → ch_Adopt b ≠ cc_ChannelID c) as Hadopt.
  { intros Hne. apply (policyChannelAdopts_false _ _ Hne). destruct H3 as [?%empty_true|]; done. }
  split; [|split; [done|]; split; [|split; [|split; [|done]]]].
  - destruct (CoveredPolicy c ws) as [|n l] eqn:Hc; [done|]. exfalso.
    destruct (proj1 (elem_of_CoveredPolicy c ws n)) as (b&Hb&[->|[Hne Heq]]); [rewrite Hc; by left|congruence|].
    by apply (Hadopt Hne n b).
  - intros Hne. destruct H2 as [?%empty_true|]; done.
  - unfold ConsoleChannel_Strict. rewrite bool_decide_eq_true. intros Hs.
    match goal with Hm : (if empty (cc_Mode c) || _ then _ else _) = Ok ?u |- _ =>
      rewrite Hs in Hm; change (check (cc_Private c) RecordStrict = Ok u) in Hm; by apply check_ok in Hm end.
  - intros Hne. by destruct H5.
Qed.

(** A shared record that loads names two or more declared workspaces, no one
    twice; its host's policy neither binds the name nor adopts the id; its sources
    are as a console record's; and a visibility given per side names exactly the
    workspaces that take part. *)
Theorem SharedChannel_Validate_sound s p : SharedChannel_Validate s p = Ok tt →
  ∃ host, Slack p !! sc_Host s = Some host ∧ w_Channels host !! sc_Name s = None ∧
    (sc_ChannelID s ≠ "" → ∀ name b, w_Channels host !! name = Some b → ch_Adopt b ≠ sc_ChannelID s) ∧
    sc_With s ≠ [] ∧ NoDup (sc_Host s :: sc_With s) ∧ Forall (λ w, is_Some (Slack p !! w)) (sc_Host s :: sc_With s) ∧
    NoDup (sc_Sources s ++ sc_Members s) ∧ Forall good_address (sc_Sources s ++ sc_Members s) ∧
    sc_Sources s ++ sc_Members s ≠ [] ∧
    (∀ per, pv_PerSide (sc_Private s) = Some per → ∀ side, is_Some (per !! side) ↔ side ∈ sc_Host s :: sc_With s).
Proof.
  unfold SharedChannel_Validate. intros H. step_ok H. destruct (Slack p !! sc_Host s) as [host|] eqn:Hhost; [|done].
  step_ok H. match goal with Hv : validSources _ _ = _ |- _ => apply validSources_ok in Hv as (?&?&?) end.
  match goal with Hw : fold_m (with_entry _ _) _ _ = _ |- _ => apply with_entries_ok in Hw as [Hnd Hall] end.
  apply negb_true_iff, policyChannelNamed_false in H1. apply orb_true_iff in H2. rewrite negb_true_iff in H2.
  apply negb_true_iff, bool_decide_eq_false in H4. rewrite Forall_forall in Hall.
  exists host. split_and!; auto.
  - intros Hne. apply (policyChannelAdopts_false _ _ Hne). destruct H2 as [?%empty_true|]; done.
  - constructor; [|done]. intros Hin. by destruct (Hall _ Hin).
  - constructor; [by eexists|]. apply Forall_forall. intros w Hw. by apply Hall.
  - intros per Hper. by eapply check_sides_ok.
Qed.

(** ** Witnesses *)

Definition sample_console : ConsoleChannel :=
  mkConsoleChannel "team" "oncall-eu" "C0999ABCD" true "strict" ["U0123ABCD"] ["sre@acme.test"] ["eve@acme.test"].
Definition sample_shared : SharedChannel :=
  mkSharedChannel "partners" "team" ["other"] ["sre@acme.test"] [] (mkPrivacy false (Some (<["team" := true]> {["other" := false]}))) "".
Definition sample_record_policy : Policy :=
  mkPolicy 1 None ∅ ∅ ∅ ∅ no_documents ∅ ∅ ∅ (<["team" := sample_workspace]> {["other" := mkSlackWorkspace ∅]}).

Lemma ConsoleChannel_Validate_sound_witness :
  ∃ ws, Slack sample_record_policy !! "team" = Some ws ∧ CoveredPolicy sample_console ws = [].
Proof.
  destruct (ConsoleChannel_Validate_sound sample_console sample_record_policy) as (ws&Hws&Hc&_);
    [vm_compute; reflexivity|]. by exists ws.
Defined.

Lemma SharedChannel_Validate_sound_witness :
  NoDup (sc_Host sample_shared :: sc_With sample_shared) ∧
  ∀ side, is_Some ((<["team" := true]> {["other" := false]} : gmap string bool) !! side) ↔ side ∈ ["team"; "other"].
Proof.
  destruct (SharedChannel_Validate_sound sample_shared sample_record_policy)
    as (host&_&_&_&_&Hnd&_&_&_&_&Hper); [vm_compute; reflexivity|].
  split; [exact Hnd|]. exact (Hper _ eq_refl).
Defined.
