(* ===== verification/SlackLayout.v ===== *)
(** * SlackLayout: who belongs in which channel of a workspace

    The second half of [internal/slackroster/reconcile/reconcile.go]: the
    resolver, which reads the directory's holders into people and finds the
    address a workspace knows a person by; the layout of every channel a
    workspace manages or takes part in; and the addresses it must look up.

    The theorems: somebody is wanted exactly when a live holder of one of the
    channel's groups, or a live listed address, is theirs; and the sides of a
    shared channel divide its people among them. *)

From S2P Require Import Prelude GoStrings Policy SlackPolicy Rails SlackData.

Implicit Types (workspace name address key group member : string).

Notation holders_map := (gmap string (list Holder)) (only parsing).

(** ** The resolver *)

(** [internal/slackroster/reconcile/reconcile.go:normalise] *)
Definition normalise address : string := ToLower (TrimSpace address).

(** [internal/slackroster/reconcile/reconcile.go:inDomains] *)
Definition inDomains address (domains : list string) : bool :=
  match Domain address with Some domain => str_in (ToLower domain) domains | None => false end.

(** [internal/slackroster/reconcile/reconcile.go:type person] *)
Record person := mkPerson { p_key : string; p_individual : bool; p_addrs : list string; p_groups : list string }.
(** [internal/slackroster/reconcile/reconcile.go:type slot] *)
Record slot := mkSlot { s_person : person; s_addr : string; s_reason : string }.
(** [internal/slackroster/reconcile/reconcile.go:type layoutChannel] *)
Record layoutChannel := mkLayoutChannel {
  lc_name : string; lc_shared : option SharedChannel; lc_binding : SlackChannel; lc_private : bool; lc_strict : bool;
  lc_groups : list string; lc_individual : bool; lc_belongs : list string; lc_console : bool;
  lc_all : list person; lc_slots : list slot }.

(** [internal/slackroster/reconcile/reconcile.go:type resolver] *)
Record resolver := mkResolver {
  r_in : Input; r_domains : gmap string (list string); r_byAddr : gmap string string; r_ofPerson : gmap string (list string) }.

(** [internal/slackroster/reconcile/reconcile.go:newResolver]; the people are
    read in key order, which decides only whose an address listed twice is. *)
Definition newResolver (inp : Input) : resolver :=
  mkResolver inp (fmap (λ f : Facts, List.map normalise (f_Domains f)) (n_Facts inp))
    (foldl (λ byAddr key, foldl (λ byAddr a, <[normalise a := key]> byAddr) byAddr (default [] (n_People inp !! key)))
       ∅ (sorted_keys (n_People inp)))
    (fmap (List.map normalise) (n_People inp)).

(** [slices.Contains] before an append. *)
Definition appendNew (l : list string) (x : string) : list string := if str_in x l then l else l ++ [x].

Section resolver.
Context (r : resolver).

(** [internal/slackroster/reconcile/reconcile.go:resolver.personKey] *)
Definition personKey address : string := default (normalise address) (r_byAddr r !! normalise address).

Definition person_addresses key : list string := default [] (r_ofPerson r !! key).

(** [internal/slackroster/reconcile/reconcile.go:resolver.addressesOf] *)
Definition addressesOf address : list string :=
  let address := normalise address in
  match r_byAddr r !! address with
  | Some key => foldl appendNew [address] (person_addresses key)
  | None => [address]
  end.

(** [internal/slackroster/reconcile/reconcile.go:resolver.belongsTo] *)
Definition belongsTo (sources : list string) : list string :=
  foldl (λ out g, foldl appendNew out (default [] (n_DirNested (r_in r) !! g))) sources sources.

(** [internal/slackroster/reconcile/reconcile.go:718-740 resolver.wantedFrom add] *)
Definition add_holder group (byKey : gmap string person) (h : Holder) : gmap string person :=
  let addr := normalise (hd_Email h) in
  if negb (hd_Live h) || empty addr then byKey
  else
    let key := personKey addr in
    let p := default (mkPerson key false [] []) (byKey !! key) in
    <[key := mkPerson (p_key p) (empty group || p_individual p) (appendNew (p_addrs p) addr)
               (if empty group then p_groups p else appendNew (p_groups p) group)]> byKey.

Definition no_holder : Holder := mkHolder "" false.

(** [internal/slackroster/reconcile/reconcile.go:resolver.wantedFrom]; an
    individual address is looked up among the directory's users and added with
    no group. *)
Definition wantedFrom (holders : holders_map) (groups members : list string) : list person :=
  let byKey := foldl (λ byKey group, foldl (add_holder group) byKey (default [] (holders !! group)))
                 ∅ (compact (sort_strings groups)) in
  let byKey := foldl (λ byKey m, add_holder "" byKey (default no_holder (n_DirUsers (r_in r) !! normalise m)))
                 byKey (compact (sort_strings members)) in
  omap (λ key, (λ p, mkPerson (p_key p) (p_individual p) (sort_strings (p_addrs p)) (p_groups p)) <$> byKey !! key)
    (sorted_keys byKey).

(** [internal/slackroster/reconcile/reconcile.go:resolver.wanted] *)
Definition wanted (groups : list string) : list person := wantedFrom (n_Holders (r_in r)) groups [].

Definition domains_of workspace : list string := default [] (r_domains r !! workspace).

(** [internal/slackroster/reconcile/reconcile.go:resolver.path] *)
Definition path workspace (p : person) : option string :=
  List.find (λ a, inDomains a (domains_of workspace)) (p_addrs p ++ person_addresses (p_key p)).

(** [internal/slackroster/reconcile/reconcile.go:775-780 noPath] *)
Definition noPath : string :=
  "no account path in this workspace: none of their addresses is in its owning directory's domains".
(** [internal/slackroster/reconcile/reconcile.go:775-780 NoOwner] *)
Definition NoOwner : string := "no owning directory: set the owner on the console".

(** [internal/slackroster/reconcile/reconcile.go:resolver.noPathIn] *)
Definition noPathIn workspace : string := if empty (f_Owner (facts_of (r_in r) workspace)) then NoOwner else noPath.

(** [internal/slackroster/reconcile/reconcile.go:resolver.owner] *)
Definition owner (s : SharedChannel) (p : person) : string * string :=
  match path (sc_Host s) p with
  | Some addr => (sc_Host s, addr)
  | None =>
      match List.find (λ g, bool_decide (is_Some (path g p))) (sc_With s) with
      | Some g => (g, default "" (path g p))
      | None => ("", "")
      end
  end.

(** [internal/slackroster/reconcile/reconcile.go:resolver.slotsOwn] *)
Definition slotsOwn (all : list person) : list slot :=
  let ws := n_Workspace (r_in r) in
  (λ p, match path ws p with Some addr => mkSlot p addr "" | None => mkSlot p "" (noPathIn ws) end) <$> all.

(** ** The layout *)

Definition workspace_channels : gmap string SlackChannel :=
  w_Channels (default (mkSlackWorkspace ∅) (n_Workspaces (r_in r) !! n_Workspace (r_in r))).

(** [internal/slackroster/reconcile/reconcile.go:796-804 resolver.layout policy] *)
Definition layout_policy name : option layoutChannel :=
  match workspace_channels !! name with
  | None => None
  | Some b =>
      if default false (n_DefinedTwice (r_in r) !! name) then None
      else
        let all := wanted (ch_From b) in
        Some (mkLayoutChannel name None b (ch_Private b) (SlackChannel_Strict b) (ch_From b) false (ch_From b) false
                all (slotsOwn all))
  end.

(** [internal/slackroster/reconcile/reconcile.go:805-819 resolver.layout console] *)
Definition layout_console (c : ConsoleChannel) : option layoutChannel :=
  if negb (bool_decide (cc_Workspace c = n_Workspace (r_in r))) then None
  else if bool_decide (is_Some (workspace_channels !! cc_Name c)) then None
  else
    let all := wantedFrom (n_DirHolders (r_in r)) (cc_Sources c) (cc_Members c) in
    Some (mkLayoutChannel (cc_Name c) None (Binding c) (cc_Private c) (ConsoleChannel_Strict c) (cc_Sources c)
            (negb (bool_decide (cc_Members c = []))) (belongsTo (cc_Sources c)) true all (slotsOwn all)).

Definition no_binding : SlackChannel := mkSlackChannel false "" [] [] "".

(** [internal/slackroster/reconcile/reconcile.go:829-837 resolver.layout slots] *)
Definition shared_slot (s : SharedChannel) (p : person) : option slot :=
  let ws := n_Workspace (r_in r) in
  let '(side, addr) := owner s p in
  if bool_decide (side = ws) then Some (mkSlot p addr "")
  else if empty side && bool_decide (ws = sc_Host s)
       then Some (mkSlot p "" "no account path in any workspace of this shared channel")
  else None.

(** [internal/slackroster/reconcile/reconcile.go:820-839 resolver.layout shared] *)
Definition layout_shared (s : SharedChannel) : option layoutChannel :=
  let ws := n_Workspace (r_in r) in
  if negb (bool_decide (sc_Host s = ws)) && negb (str_in ws (sc_With s)) then None
  else
    let all := wantedFrom (n_DirHolders (r_in r)) (sc_Sources s) (sc_Members s) in
    Some (mkLayoutChannel (sc_Name s) (Some s) no_binding (IsPrivate (sc_Private s) ws) false (sc_Sources s)
            (negb (bool_decide (sc_Members s = []))) (belongsTo (sc_Sources s)) false all (omap (shared_slot s) all)).

(** [internal/slackroster/reconcile/reconcile.go:resolver.layout] *)
Definition layout : list layoutChannel :=
  omap layout_policy (sorted_keys workspace_channels) ++
  omap layout_console (sort_stable cc_Name (n_Console (r_in r))) ++
  omap layout_shared (sort_stable sc_Name (n_Shared (r_in r))).
End resolver.

(** [internal/slackroster/reconcile/reconcile.go:Lookups] *)
Definition Lookups (inp : Input) : list string :=
  sort_strings (elements (list_to_set (List.filter (λ a, negb (empty a))
    (mjoin ((λ lc, s_addr <$> lc_slots lc) <$> layout (newResolver inp)))) : gset string)).

(** ** Lemmas: addresses *)

Lemma elem_of_appendNew l x y : y ∈ appendNew l x ↔ y ∈ l ∨ y = x.
Proof.
  unfold appendNew. destruct (str_in x l) eqn:H.
  - apply str_in_true in H. split; [by left|]. by intros [?| ->].
  - by rewrite elem_of_app, list_elem_of_singleton.
Qed.

Lemma elem_of_foldl_appendNew xs l y : y ∈ foldl appendNew l xs ↔ y ∈ l ∨ y ∈ xs.
Proof.
  revert l. induction xs as [|x xs IH]; intros l; simpl; [rewrite elem_of_nil; tauto|].
  rewrite IH, elem_of_appendNew, elem_of_cons. tauto.
Qed.

Lemma appendNew_nonempty l x : appendNew l x ≠ [].
Proof. unfold appendNew. destruct (str_in x l) eqn:H; [|by destruct l]. apply str_in_true in H. by destruct l; [apply elem_of_nil in H|]. Qed.

(** Filtering by a boolean test respects reordering. *)
#[local] Instance filter_bool_Permutation {A} (f : A → bool) : Proper ((≡ₚ) ==> (≡ₚ)) (List.filter f).
Proof.
  intros l1 l2 H. induction H as [|x a b _ IH|x y a|a b c _ IH1 _ IH2]; simpl; [done|..].
  - destruct (f x); [by constructor|done].
  - destruct (f x), (f y); try constructor; done.
  - by rewrite IH1.
Qed.

Section people.
Context (r : resolver).

Lemma addressesOf_self address : normalise address ∈ addressesOf r address.
Proof.
  unfold addressesOf. destruct (r_byAddr r !! normalise address); [|by left].
  apply elem_of_foldl_appendNew. left. by left.
Qed.

(** *** Who is wanted *)

(** A live answer of the directory about [addr], through [group]. *)
Definition counts (h : Holder) addr : Prop := hd_Live h = true ∧ normalise (hd_Email h) = addr ∧ addr ≠ "".

(** The listings of a holders table: each live holder of a group with the group,
    each live individual with no group. *)
Definition listing (holders : holders_map) (groups members : list string) group addr : Prop :=
  (group ∈ groups ∧ ∃ h, h ∈ default [] (holders !! group) ∧ counts h addr) ∨
  (group = "" ∧ ∃ m, m ∈ members ∧ counts (default no_holder (n_DirUsers (r_in r) !! normalise m)) addr).

(** What a table built from a set of listings knows. *)
Definition table_ok (L : string → string → Prop) (byKey : gmap string person) : Prop :=
  (∀ key p, byKey !! key = Some p → p_key p = key ∧ p_addrs p ≠ [] ∧
    (∀ a, a ∈ p_addrs p ↔ ∃ g, L g a ∧ personKey r a = key) ∧
    (∀ g, g ∈ p_groups p ↔ g ≠ "" ∧ ∃ a, L g a ∧ personKey r a = key) ∧
    (p_individual p = true ↔ ∃ a, L "" a ∧ personKey r a = key)) ∧
  (∀ g a, L g a → is_Some (byKey !! personKey r a)).

#[local] Instance table_ok_proper :
  Proper (pointwise_relation string (pointwise_relation string iff) ==> eq ==> iff) table_ok.
Proof.
  intros L L' H byKey ? <-. assert (∀ g a, L g a ↔ L' g a) as Heq by (intros g a; apply H).
  unfold table_ok. by setoid_rewrite Heq.
Qed.

Lemma table_ok_ext (L L' : string → string → Prop) byKey :
  (∀ g a, L g a ↔ L' g a) → table_ok L byKey → table_ok L' byKey.
Proof. intros H Ht. eapply table_ok_proper; [|done|exact Ht]. intros g a. by rewrite (H g a). Qed.

Lemma add_holder_ok L byKey group h : table_ok L byKey →
  table_ok (λ g a, L g a ∨ (g = group ∧ counts h a)) (add_holder r group byKey h).
Proof.
  intros [Hp Hs]. unfold add_holder. set (addr := normalise (hd_Email h)).
  destruct (negb (hd_Live h) || empty addr) eqn:Hskip.
  { assert (∀ a, ¬ counts h a) as Hno.
    { intros a (Hl&Ha&Hne). fold addr in Ha. rewrite Hl in Hskip. simpl in Hskip.
      apply empty_true in Hskip. congruence. }
    assert (∀ g a, L g a ∨ (g = group ∧ counts h a) ↔ L g a) as Heq by (intros g a; specialize (Hno a); tauto).
    split; [|intros g a Hl; apply Heq in Hl; by eapply Hs]. intros key p Hk.
    setoid_rewrite Heq. by apply Hp. }
  apply orb_false_iff in Hskip as [Hl He]. apply negb_false_iff in Hl. apply empty_false in He.
  assert (∀ a, counts h a ↔ a = addr) as Hc.
  { intros a. unfold counts. fold addr. split; [by intros (_&->&_)|]. by intros ->. }
  setoid_rewrite Hc. set (key0 := personKey r addr).
  set (p0 := default (mkPerson key0 false [] []) (byKey !! key0)).
  assert (p_key p0 = key0 ∧ (∀ a, a ∈ p_addrs p0 ↔ ∃ g, L g a ∧ personKey r a = key0) ∧
    (∀ g, g ∈ p_groups p0 ↔ g ≠ "" ∧ ∃ a, L g a ∧ personKey r a = key0) ∧
    (p_individual p0 = true ↔ ∃ a, L "" a ∧ personKey r a = key0)) as (Hk0&Ha0&Hg0&Hi0).
  { unfold p0. destruct (byKey !! key0) as [q|] eqn:Hq; simpl; [by destruct (Hp _ _ Hq) as (?&_&?)|].
    assert (∀ g a, L g a → personKey r a ≠ key0) as Hnone.
    { intros g a HL Heq. destruct (Hs g a HL) as [x Hx]. congruence. }
    split; [done|]. setoid_rewrite elem_of_nil. naive_solver. }
  split.
  - intros key p. destruct (decide (key = key0)) as [->|Hne].
    + rewrite lookup_insert_eq. intros [= <-]. cbn [p_key p_addrs p_groups p_individual].
      split; [done|]. split; [apply appendNew_nonempty|]. split; [|split].
      * intros a. rewrite elem_of_appendNew, Ha0. split.
        -- intros [(g&?&?)| ->]; [by eauto|]. exists group. auto.
        -- intros (g&[?|[-> ->]]&?); [left; eauto|by right].
      * intros g. destruct (empty group) eqn:Hg.
        -- apply empty_true in Hg as ->. rewrite Hg0. naive_solver.
        -- apply empty_false in Hg. rewrite elem_of_appendNew, Hg0. split.
           ++ intros [(?&a&?&?)| ->]; [split; [done|]; eauto|]. split; [done|]. exists addr. auto.
           ++ intros (?&a&[?|[-> ->]]&?); [left; split; [done|]; eauto|by right].
      * rewrite orb_true_iff, empty_true, Hi0. split.
        -- intros [->|(a&?&?)]; [exists addr; auto|eauto].
        -- intros (a&[?|[-> ->]]&?); [right; eauto|by left].
    + rewrite lookup_insert_ne by done. intros Hk. destruct (Hp _ _ Hk) as (H1&H2&H3&H4&H5).
      assert (∀ g a, (L g a ∨ g = group ∧ a = addr) ∧ personKey r a = key ↔ L g a ∧ personKey r a = key) as Heq.
      { intros g a. split; [|tauto]. intros [[?|[-> ->]] Hk']; [done|]. by destruct Hne. }
      setoid_rewrite Heq. done.
  - intros g a [HL|[-> ->]].
    + destruct (decide (personKey r a = key0)) as [->|Hne]; [by rewrite lookup_insert_eq|].
      rewrite lookup_insert_ne by done. by eapply Hs.
    + fold key0. by rewrite lookup_insert_eq.
Qed.

Lemma add_holders_ok L byKey group hs : table_ok L byKey →
  table_ok (λ g a, L g a ∨ (g = group ∧ ∃ h, h ∈ hs ∧ counts h a)) (foldl (add_holder r group) byKey hs).
Proof.
  revert L byKey. induction hs as [|h hs IH]; intros L byKey Ht; simpl.
  { eapply table_ok_ext; [|exact Ht]. intros g a. split; [by left|]. intros [?|(_&h&?%elem_of_nil&_)]; done. }
  eapply table_ok_ext; [|apply IH, add_holder_ok, Ht]. intros g a. simpl. setoid_rewrite elem_of_cons. naive_solver.
Qed.

Lemma wanted_table_ok holders groups members :
  table_ok (listing holders groups members)
    (foldl (λ byKey m, add_holder r "" byKey (default no_holder (n_DirUsers (r_in r) !! normalise m)))
       (foldl (λ byKey group, foldl (add_holder r group) byKey (default [] (holders !! group))) ∅ (compact (sort_strings groups)))
       (compact (sort_strings members))).
Proof.
  assert (∀ gs L byKey, table_ok L byKey →
    table_ok (λ g a, L g a ∨ (g ∈ gs ∧ ∃ h, h ∈ default [] (holders !! g) ∧ counts h a))
      (foldl (λ byKey group, foldl (add_holder r group) byKey (default [] (holders !! group))) byKey gs)) as Hgroups.
  { induction gs as [|g gs IH]; intros L byKey Ht; simpl.
    - eapply table_ok_ext; [|exact Ht]. intros g a. rewrite elem_of_nil. tauto.
    - eapply table_ok_ext; [|apply IH, add_holders_ok, Ht]. intros g' a. simpl. rewrite elem_of_cons. naive_solver. }
  assert (∀ ms L byKey, table_ok L byKey →
    table_ok (λ g a, L g a ∨ (g = "" ∧ ∃ m, m ∈ ms ∧ counts (default no_holder (n_DirUsers (r_in r) !! normalise m)) a))
      (foldl (λ byKey m, add_holder r "" byKey (default no_holder (n_DirUsers (r_in r) !! normalise m))) byKey ms)) as Hmembers.
  { induction ms as [|m ms IH]; intros L byKey Ht; simpl.
    - eapply table_ok_ext; [|exact Ht]. intros g a. setoid_rewrite elem_of_nil. naive_solver.
    - eapply table_ok_ext; [|apply IH, add_holder_ok, Ht]. intros g' a. simpl. setoid_rewrite elem_of_cons. naive_solver. }
  eapply table_ok_ext; [|apply Hmembers, (Hgroups _ (λ _ _, False))].
  - intros g a. unfold listing. cbn beta. rewrite elem_of_compact, elem_of_sort_strings.
    setoid_rewrite elem_of_compact. setoid_rewrite elem_of_sort_strings. tauto.
  - split; [intros key p Hk; by rewrite lookup_empty in Hk|done].
Qed.

(** The people wanted are the persons behind the listings, each once. *)
Lemma wantedFrom_spec holders groups members :
  let L := listing holders groups members in
  NoDup (p_key <$> wantedFrom r holders groups members) ∧
  (∀ p, p ∈ wantedFrom r holders groups members → p_addrs p ≠ [] ∧
    (∀ a, a ∈ p_addrs p ↔ ∃ g, L g a ∧ personKey r a = p_key p) ∧
    (∀ g, g ∈ p_groups p ↔ g ≠ "" ∧ ∃ a, L g a ∧ personKey r a = p_key p) ∧
    (p_individual p = true ↔ ∃ a, L "" a ∧ personKey r a = p_key p)) ∧
  (∀ g a, L g a → ∃ p, p ∈ wantedFrom r holders groups members ∧ p_key p = personKey r a).
Proof.
  intros L. pose proof (wanted_table_ok holders groups members) as [Hp Hs]. unfold wantedFrom. fold L in Hp, Hs.
  set (byKey := foldl _ (foldl _ _ _) _) in *. set (f := λ key : string, _).
  assert (∀ key p, f key = Some p → ∃ q, byKey !! key = Some q ∧ p = mkPerson (p_key q) (p_individual q) (sort_strings (p_addrs q)) (p_groups q)) as Hf.
  { intros key p. unfold f. destruct (byKey !! key) as [q|]; [|done]. intros [= <-]. eauto. }
  split; [|split].
  - assert (∀ l, NoDup l → NoDup (p_key <$> omap f l) ∧ ∀ k, k ∈ p_key <$> omap f l → k ∈ l) as H.
    { induction l as [|x l IH]; intros Hnd; [split; [constructor|done]|].
      apply NoDup_cons in Hnd as [Hx Hnd]. destruct (IH Hnd) as [IH1 IH2]. simpl. destruct (f x) as [p|] eqn:Hfx.
      - apply Hf in Hfx as (q&Hq&->). destruct (Hp _ _ Hq) as (Hkey&_). rewrite fmap_cons. simpl. rewrite Hkey.
        split; [constructor; [|done]; by intros ?%IH2|]. intros k [->|?]%elem_of_cons; [by left|right; by apply IH2].
      - split; [done|]. intros k ?%IH2. by right. }
    apply H, NoDup_sorted_keys.
  - intros p (key&_&Hk)%list_elem_of_omap. apply Hf in Hk as (q&Hq&->).
    destruct (Hp _ _ Hq) as (Hkey&Hne&Ha&Hg&Hi). simpl. rewrite Hkey. split; [|split; [|done]].
    + intros Hnil. apply Hne. pose proof (sort_strings_Permutation (p_addrs q)) as Hperm. rewrite Hnil in Hperm.
      by apply Permutation_nil in Hperm.
    + intros a. rewrite elem_of_sort_strings. apply Ha.
  - intros g a HL. destruct (Hs g a HL) as [q Hq]. destruct (Hp _ _ Hq) as (Hkey&_).
    exists (mkPerson (p_key q) (p_individual q) (sort_strings (p_addrs q)) (p_groups q)). split; [|done].
    apply list_elem_of_omap. exists (personKey r a). split; [apply elem_of_sorted_keys; by eexists|].
    unfold f. by rewrite Hq.
Qed.

Lemma path_spec workspace p a : path r workspace p = Some a →
  inDomains a (domains_of r workspace) = true ∧ (a ∈ p_addrs p ∨ a ∈ person_addresses r (p_key p)) ∧ a ≠ "".
Proof.
  unfold path. intros [Hin Hd]%find_some. apply list_elem_of_In, elem_of_app in Hin. split_and!; [done..|].
  intros ->. by vm_compute in Hd.
Qed.

Lemma owner_spec s p :
  match List.find (λ g, bool_decide (is_Some (path r g p))) (sc_Host s :: sc_With s) with
  | Some g => ∃ addr, path r g p = Some addr ∧ owner r s p = (g, addr)
  | None => owner r s p = ("", "")
  end.
Proof.
  unfold owner. simpl. destruct (path r (sc_Host s) p) as [addr|] eqn:Hh; simpl; [by exists addr|].
  destruct (List.find _ _) as [g|] eqn:Hg; [|done]. apply find_some in Hg as [_ Hg].
  apply bool_decide_eq_true in Hg as [addr Ha]. exists addr. by rewrite Ha.
Qed.

(** *** What is laid out *)

Lemma elem_of_layout lc : lc ∈ layout r ↔
  (∃ name, layout_policy r name = Some lc) ∨
  (∃ c, c ∈ n_Console (r_in r) ∧ layout_console r c = Some lc) ∨
  (∃ s, s ∈ n_Shared (r_in r) ∧ layout_shared r s = Some lc).
Proof.
  unfold layout. rewrite !elem_of_app, !list_elem_of_omap. setoid_rewrite elem_of_sort_stable.
  setoid_rewrite elem_of_sorted_keys. split.
  - intros [(n&?&?)|[?|?]]; eauto.
  - intros [(n&H)|[?|?]]; [|by auto..]. left. exists n. split; [|done].
    unfold layout_policy in H. destruct (workspace_channels r !! n); [by eexists|done].
Qed.

Lemma layout_policy_name name lc : layout_policy r name = Some lc →
  lc_name lc = name ∧ lc_shared lc = None ∧ is_Some (workspace_channels r !! name).
Proof.
  unfold layout_policy. destruct (workspace_channels r !! name); [|done]. destruct (default _ _); [done|].
  intros [= <-]. by repeat split.
Qed.

Lemma layout_console_name c lc : layout_console r c = Some lc →
  lc_name lc = cc_Name c ∧ lc_shared lc = None ∧ workspace_channels r !! cc_Name c = None ∧
  cc_Workspace c = n_Workspace (r_in r).
Proof.
  unfold layout_console. destruct (negb (bool_decide (cc_Workspace c = _))) eqn:Hw; [done|].
  destruct (bool_decide (is_Some _)) eqn:Hb; [done|]. apply bool_decide_eq_false in Hb. intros [= <-].
  apply negb_false_iff, bool_decide_eq_true in Hw. split_and!; auto. by apply eq_None_not_Some.
Qed.

Lemma layout_shared_shared s lc : layout_shared r s = Some lc →
  lc_shared lc = Some s ∧ lc_name lc = sc_Name s ∧ n_Workspace (r_in r) ∈ sc_Host s :: sc_With s ∧ lc_strict lc = false ∧
  lc_all lc = wantedFrom r (n_DirHolders (r_in r)) (sc_Sources s) (sc_Members s) ∧
  lc_slots lc = omap (shared_slot r s) (lc_all lc).
Proof.
  unfold layout_shared. destruct (negb _ && negb _) eqn:Hw; [done|]. intros [= <-].
  split_and!; try done. simpl. apply andb_false_iff in Hw. rewrite !negb_false_iff, bool_decide_eq_true, str_in_true in Hw.
  apply elem_of_cons. naive_solver.
Qed.

(** Where the people of a channel come from: the groups' holders and the
    individual addresses. *)
Definition fed_by (lc : layoutChannel) (holders : holders_map) (members : list string) : Prop :=
  (lc_shared lc = None ∧ lc_console lc = false ∧ holders = n_Holders (r_in r) ∧ members = []) ∨
  (lc_shared lc = None ∧ lc_console lc = true ∧ holders = n_DirHolders (r_in r) ∧
   ∃ c, c ∈ n_Console (r_in r) ∧ cc_Workspace c = n_Workspace (r_in r) ∧ cc_Name c = lc_name lc ∧
     cc_Sources c = lc_groups lc ∧ cc_Members c = members) ∨
  (holders = n_DirHolders (r_in r) ∧
   ∃ s, lc_shared lc = Some s ∧ s ∈ n_Shared (r_in r) ∧ sc_Sources s = lc_groups lc ∧ sc_Members s = members).

Lemma layout_fed lc : lc ∈ layout r →
  ∃ holders members, fed_by lc holders members ∧ lc_all lc = wantedFrom r holders (lc_groups lc) members.
Proof.
  unfold fed_by. intros [[n Hn]|[(c&Hc&Hn)|(s&Hs&Hn)]]%elem_of_layout.
  - exists (n_Holders (r_in r)), []. unfold layout_policy in Hn. destruct (workspace_channels r !! n); [|done].
    destruct (default _ _); [done|]. injection Hn as <-. split; [by left|done].
  - exists (n_DirHolders (r_in r)), (cc_Members c). pose proof (layout_console_name _ _ Hn) as (?&?&_&?).
    unfold layout_console in Hn. destruct (negb (bool_decide (cc_Workspace c = _))); [done|].
    destruct (bool_decide (is_Some _)); [done|]. injection Hn as <-. simpl. split; [right; left|done]. eauto 10.
  - exists (n_DirHolders (r_in r)), (sc_Members s). unfold layout_shared in Hn.
    destruct (negb (bool_decide _) && negb _); [done|]. injection Hn as <-. simpl. split; [right; right|done]. eauto 10.
Qed.

(** Whoever is looked up is wanted, by an address of theirs in this workspace's domains. *)
Lemma layout_slot lc s : lc ∈ layout r → s ∈ lc_slots lc → s_addr s ≠ "" →
  s_person s ∈ lc_all lc ∧ path r (n_Workspace (r_in r)) (s_person s) = Some (s_addr s).
Proof.
  assert (∀ all, s ∈ slotsOwn r all → s_addr s ≠ "" → s_person s ∈ all ∧ path r (n_Workspace (r_in r)) (s_person s) = Some (s_addr s)) as Hown.
  { intros all (p&->&Hp)%list_elem_of_fmap. destruct (path _ _ p) eqn:Hpath; simpl; [|done]. by rewrite Hpath. }
  intros [[n Hn]|[(c&Hc&Hn)|(sc&Hs&Hn)]]%elem_of_layout Hin Hne.
  - unfold layout_policy in Hn. destruct (workspace_channels r !! n); [|done].
    destruct (default _ _); [done|]. injection Hn as <-. by apply Hown.
  - unfold layout_console in Hn. destruct (negb (bool_decide (cc_Workspace c = _))); [done|].
    destruct (bool_decide (is_Some _)); [done|]. injection Hn as <-. by apply Hown.
  - apply layout_shared_shared in Hn as (_&_&_&_&_&Hslots). rewrite Hslots in Hin.
    apply list_elem_of_omap in Hin as (p&Hp&Hslot). pose proof (owner_spec sc p) as Ho. unfold shared_slot in Hslot.
    destruct (List.find _ _) as [g|].
    + destruct Ho as (addr&Hpath&Ho). rewrite Ho in Hslot. case_bool_decide; [|by destruct (_ && _); simplify_eq/=].
      injection Hslot as <-. simpl in *. by subst g.
    + rewrite Ho in Hslot. case_bool_decide; [by simplify_eq/=|]. by destruct (_ && _); simplify_eq/=.
Qed.

(** The ordinary channels of a workspace have different names, when its console
    records do. *)
Definition records_distinct : Prop :=
  NoDup (cc_Name <$> List.filter (λ c, bool_decide (cc_Workspace c = n_Workspace (r_in r))) (n_Console (r_in r))).

Lemma layout_names : records_distinct →
  NoDup (lc_name <$> List.filter (λ lc, bool_decide (lc_shared lc = None)) (layout r)).
Proof.
  intros Hd. unfold layout. rewrite !List.filter_app, !fmap_app.
  assert (∀ l, List.filter (λ lc, bool_decide (lc_shared lc = None)) (omap (layout_shared r) l) = []) as Hsh.
  { induction l as [|s l IH]; [done|]. simpl. destruct (layout_shared r s) as [lc|] eqn:Hs; [|done].
    apply layout_shared_shared in Hs as (Hs&_). simpl. by rewrite Hs, bool_decide_eq_false_2. }
  rewrite Hsh, app_nil_r. apply NoDup_app. split; [|split].
  - assert (∀ l, NoDup l →
      NoDup (lc_name <$> List.filter (λ lc, bool_decide (lc_shared lc = None)) (omap (layout_policy r) l)) ∧
      ∀ n, n ∈ lc_name <$> List.filter (λ lc, bool_decide (lc_shared lc = None)) (omap (layout_policy r) l) → n ∈ l) as H.
    { induction l as [|x l IH]; intros Hnd; [split; [constructor|done]|].
      apply NoDup_cons in Hnd as [Hx Hnd]. destruct (IH Hnd) as [IH1 IH2]. simpl.
      destruct (layout_policy r x) as [lc|] eqn:Hl; simpl.
      - apply layout_policy_name in Hl as (<-&Hs&_). rewrite bool_decide_eq_true_2 by done. rewrite fmap_cons.
        split; [constructor; [|done]; by intros ?%IH2|]. intros n [->|?]%elem_of_cons; [by left|right; auto].
      - split; [done|]. intros n ?%IH2. by right. }
    apply H, NoDup_sorted_keys.
  - intros n (lc&->&(Hin&_)%elem_of_filter_bool)%list_elem_of_fmap (lc'&Heq&(Hin'&_)%elem_of_filter_bool)%list_elem_of_fmap.
    apply list_elem_of_omap in Hin as (x&_&Hx). apply list_elem_of_omap in Hin' as (c&_&Hc).
    apply layout_policy_name in Hx as (<-&_&[b Hb]). apply layout_console_name in Hc as (Hn&_&Hnone&_). congruence.
  - assert (∀ l, NoDup (cc_Name <$> List.filter (λ c, bool_decide (cc_Workspace c = n_Workspace (r_in r))) l) →
      NoDup (lc_name <$> List.filter (λ lc, bool_decide (lc_shared lc = None)) (omap (layout_console r) l)) ∧
      ∀ n, n ∈ lc_name <$> List.filter (λ lc, bool_decide (lc_shared lc = None)) (omap (layout_console r) l) →
        n ∈ cc_Name <$> List.filter (λ c, bool_decide (cc_Workspace c = n_Workspace (r_in r))) l) as H.
    { induction l as [|c l IH]; intros Hnd; [split; [constructor|done]|].
      simpl in *. destruct (layout_console r c) as [lc|] eqn:Hl; simpl.
      - apply layout_console_name in Hl as (Hn&Hs&_&Hw). rewrite !(bool_decide_eq_true_2 _ Hw) in Hnd |- *.
        rewrite (bool_decide_eq_true_2 _ Hs), !fmap_cons. rewrite fmap_cons in Hnd. apply NoDup_cons in Hnd as [Hx Hnd].
        destruct (IH Hnd) as [IH1 IH2]. rewrite Hn. split; [constructor; [|done]; by intros ?%IH2|].
        intros n [->|?]%elem_of_cons; [by left|right; auto].
      - case_bool_decide; [|by apply IH]. rewrite fmap_cons in *. apply NoDup_cons in Hnd as [Hx Hnd].
        destruct (IH Hnd) as [IH1 IH2]. split; [done|]. intros n ?%IH2. by right. }
    apply H. unfold records_distinct in Hd. by rewrite sort_stable_Permutation.
Qed.
End people.

Lemma elem_of_Lookups inp a :
  a ∈ Lookups inp ↔ a ≠ "" ∧ ∃ lc s, lc ∈ layout (newResolver inp) ∧ s ∈ lc_slots lc ∧ s_addr s = a.
Proof.
  unfold Lookups. rewrite elem_of_sort_strings, elem_of_elements, elem_of_list_to_set, elem_of_filter_bool,
    negb_true_iff, empty_false, list_elem_of_join. split.
  - intros [(l&Ha&(lc&->&Hlc)%list_elem_of_fmap) Hne]. apply list_elem_of_fmap in Ha as (s&->&Hs). eauto 6.
  - intros (Hne&lc&s&Hlc&Hs&<-). split; [|done]. exists (s_addr <$> lc_slots lc). split; [by apply list_elem_of_fmap_2|]. apply list_elem_of_fmap. by exists lc.
Qed.

(** ** The properties *)

(** The same inputs, read for another workspace. *)
Definition at_workspace (inp : Input) workspace : Input :=
  mkInput workspace (n_Workspaces inp) (n_Facts inp) (n_People inp) (n_Holders inp) (n_Shared inp) (n_Console inp)
    (n_DefinedTwice inp) (n_DirHolders inp) (n_DirUsers inp) (n_DirNested inp) (n_Bots inp) (n_Observed inp).

(** The pass over [workspace] looks [p] up at [addr] for the shared channel [s]. *)
Definition handles (inp : Input) (s : SharedChannel) (p : person) workspace (sl : slot) : Prop :=
  ∃ lc, lc ∈ layout (newResolver (at_workspace inp workspace)) ∧ lc_shared lc = Some s ∧ sl ∈ lc_slots lc ∧ s_person sl = p.

Lemma handles_inv inp s p workspace sl : handles inp s p workspace sl →
  p ∈ wantedFrom (newResolver inp) (n_DirHolders inp) (sc_Sources s) (sc_Members s) ∧
  workspace ∈ sc_Host s :: sc_With s ∧ shared_slot (newResolver (at_workspace inp workspace)) s p = Some sl.
Proof.
  intros (lc&Hlc&Hs&Hin&<-). apply elem_of_layout in Hlc as [[n Hn]|[(c&_&Hc)|(s'&_&Hs')]].
  - by apply layout_policy_name in Hn as (_&?&_); congruence.
  - by apply layout_console_name in Hc as (_&?&_); congruence.
  - apply layout_shared_shared in Hs' as (Hs'&_&Hw&_&Hall&Hslots). assert (s' = s) as -> by congruence.
    rewrite Hslots in Hin. apply list_elem_of_omap in Hin as (q&Hq&Hslot). rewrite Hall in Hq.
    assert (s_person sl = q) as Hp.
    { unfold shared_slot in Hslot. destruct (owner _ _ _). repeat case_match; by simplify_eq/=. }
    rewrite Hp. done.
Qed.

(** The sides of a shared channel divide its people.  A wanted person is looked up
    by one workspace only: the host when they have an address in its domains,
    else the first of the others, in order, where they have one, and by an address
    of theirs in that workspace's domains; a person with no address in any side's
    domains is held by the host alone, and looked up by nobody. *)
Theorem shared_sides inp s p : s ∈ n_Shared inp → "" ∉ sc_Host s :: sc_With s →
  p ∈ wantedFrom (newResolver inp) (n_DirHolders inp) (sc_Sources s) (sc_Members s) →
  match List.find (λ g, bool_decide (is_Some (path (newResolver inp) g p))) (sc_Host s :: sc_With s) with
  | Some side =>
      ∃ addr, addr ≠ "" ∧ inDomains addr (domains_of (newResolver inp) side) = true ∧
        (addr ∈ p_addrs p ∨ addr ∈ person_addresses (newResolver inp) (p_key p)) ∧
        ∀ workspace sl, handles inp s p workspace sl ↔ workspace = side ∧ sl = mkSlot p addr ""
  | None =>
      ∀ workspace sl, handles inp s p workspace sl ↔
        workspace = sc_Host s ∧ sl = mkSlot p "" "no account path in any workspace of this shared channel"
  end.
Proof.
  intros Hs Hne Hp. pose proof (owner_spec (newResolver inp) s p) as Ho.
  assert (∀ workspace sl, workspace ∈ sc_Host s :: sc_With s →
    shared_slot (newResolver (at_workspace inp workspace)) s p = Some sl → s_person sl = p → handles inp s p workspace sl) as Hback.
  { intros workspace sl Hw Hslot Hperson.
    destruct (layout_shared (newResolver (at_workspace inp workspace)) s) as [lc|] eqn:Hlc.
    - pose proof (layout_shared_shared _ _ _ Hlc) as (Hs'&_&_&_&Hall&Hslots). exists lc. split_and!; [|done| |done].
      + apply elem_of_layout. right. right. by exists s.
      + rewrite Hslots, Hall. apply list_elem_of_omap. by exists p.
    - exfalso. unfold layout_shared in Hlc. simpl in Hlc.
      destruct (negb (bool_decide (sc_Host s = workspace)) && negb (str_in workspace (sc_With s))) eqn:Hno; [|done].
      apply andb_true_iff in Hno as [H1%negb_true_iff%bool_decide_eq_false H2%negb_true_iff%str_in_false].
      apply elem_of_cons in Hw as [->|?]; done. }
  destruct (List.find _ (sc_Host s :: sc_With s)) as [side|] eqn:Hfind.
  - destruct Ho as (addr&Hpath&Howner). destruct (path_spec _ _ _ _ Hpath) as (Hd&Hin&Haddr).
    apply find_some in Hfind as [Hside%list_elem_of_In _]. assert (side ≠ "") as Hside' by (by intros ->).
    exists addr. split_and!; [done..|]. intros workspace sl.
    assert (shared_slot (newResolver (at_workspace inp workspace)) s p =
      if bool_decide (side = workspace) then Some (mkSlot p addr "") else None) as Hslot.
    { unfold shared_slot. change (owner (newResolver (at_workspace inp workspace)) s p) with (owner (newResolver inp) s p).
      rewrite Howner. cbn. by destruct side. }
    split.
    + intros (_&Hw&Hsl)%handles_inv. rewrite Hslot in Hsl. case_bool_decide; by simplify_eq.
    + intros [-> ->]. apply Hback; [done| |done]. rewrite Hslot. by rewrite bool_decide_eq_true_2.
  - intros workspace sl.
    assert (workspace ≠ "" → shared_slot (newResolver (at_workspace inp workspace)) s p =
      if bool_decide (workspace = sc_Host s) then Some (mkSlot p "" "no account path in any workspace of this shared channel") else None) as Hslot.
    { intros Hw. unfold shared_slot. change (owner (newResolver (at_workspace inp workspace)) s p) with (owner (newResolver inp) s p).
      rewrite Ho. cbn [at_workspace newResolver r_in n_Workspace]. by rewrite bool_decide_eq_false_2. }
    split.
    + intros (_&Hw&Hsl)%handles_inv. rewrite Hslot in Hsl by (by intros ->). case_bool_decide; by simplify_eq.
    + intros [-> ->]. apply Hback; [by left| |done]. rewrite Hslot by (intros Heq; apply Hne; rewrite <- Heq; by left).
      by rewrite bool_decide_eq_true_2.
Qed.

(** Who a channel wants, in the directory's terms: each person once; of a person
    the addresses and groups are exactly those of live listings that are theirs;
    and every live listing with an address belongs to somebody wanted. *)
Theorem wantedFrom_correct inp holders groups members :
  let r := newResolver inp in
  let L := listing r holders groups members in
  NoDup (p_key <$> wantedFrom r holders groups members) ∧
  (∀ p, p ∈ wantedFrom r holders groups members → p_addrs p ≠ [] ∧
    (∀ a, a ∈ p_addrs p ↔ ∃ g, L g a ∧ personKey r a = p_key p) ∧
    (∀ g, g ∈ p_groups p ↔ g ≠ "" ∧ ∃ a, L g a ∧ personKey r a = p_key p) ∧
    (p_individual p = true ↔ ∃ a, L "" a ∧ personKey r a = p_key p)) ∧
  (∀ g a, L g a → ∃ p, p ∈ wantedFrom r holders groups members ∧ p_key p = personKey r a).
Proof. intros r. apply wantedFrom_spec. Qed.

(** ** Witness: two workspaces, and one person with an address in each *)

Definition sample_sides : Input :=
  mkInput "team" ∅ (<["team" := mkFacts "T1" "acme" ["acme.test"]]> {["other" := mkFacts "T2" "beta" ["beta.test"]]})
    {["eve" := ["eve@acme.test"; "eve@beta.test"]]} ∅ [sample_shared] [] ∅
    {["sre@acme.test" := [mkHolder "Eve@beta.test" true; mkHolder "zed@beta.test" true; mkHolder "out@gone.test" true]]}
    ∅ ∅ ∅ (mkObserved "T1" "UBOT" [] ∅ ∅ []).
Definition sample_eve : person := mkPerson "eve" false ["eve@beta.test"] ["sre@acme.test"].

Lemma shared_sides_witness :
  handles sample_sides sample_shared sample_eve "team" (mkSlot sample_eve "eve@acme.test" "") ∧
  ¬ handles sample_sides sample_shared sample_eve "other" (mkSlot sample_eve "eve@beta.test" "").
Proof.
  pose proof (shared_sides sample_sides sample_shared sample_eve ltac:(by left) ltac:(by apply (bool_decide_unpack _); vm_compute)
    ltac:(eapply (list_elem_of_lookup_2 _ 0); vm_compute; reflexivity)) as H.
  assert (List.find (λ g, bool_decide (is_Some (path (newResolver sample_sides) g sample_eve)))
    (sc_Host sample_shared :: sc_With sample_shared) = Some "team") as Hf by (vm_compute; reflexivity).
  rewrite Hf in H. destruct H as (addr&_&_&_&H).
  assert (handles sample_sides sample_shared sample_eve "team" (mkSlot sample_eve "eve@acme.test" "")) as Hc.
  { exists (default (mkLayoutChannel "" None no_binding false false [] false [] false [] [])
      (layout_shared (newResolver (at_workspace sample_sides "team")) sample_shared)).
    split_and!; [|by vm_compute| |done].
    - apply elem_of_layout. right. right. exists sample_shared. split; [by left|]. vm_compute. reflexivity.
    - eapply (list_elem_of_lookup_2 _ 0). vm_compute. reflexivity. }
  split; [done|]. intros Hother. by apply H in Hother as [? _].
Defined.
