(* ===== verification/SlackDerive.v ===== *)
(** * SlackDerive: what one workspace's inputs settle

    [internal/slackroster/reconcile/derive.go], with the rows and words of the
    report from [internal/slackroster/status/status.go].  For every channel of the
    layout: where it stands (to be created, joined, accepted, held, waited for), the
    changes and holds that follow, and the members nobody names; then the
    addresses the directory must be asked about before anybody is removed.

    The theorems: a derivation fails exactly when something it needs was not read,
    and its error names it; an existing channel is never converted, unarchived or
    duplicated; and everybody invited is wanted, by an account the workspace
    reported for an address of theirs in its domains. *)

From S2P Require Import Prelude GoStrings Policy SlackPolicy Rails SlackData SlackLayout.

Implicit Types (workspace name id address key reason : string).

(** ** The report's words *)

(** [internal/slackroster/status/status.go:228-239 Action] *)
Inductive Kind := ActionCreate | ActionAdopt | ActionInvite | ActionRemove | ActionShareInvite | ActionShareAccept.
(** [internal/slackroster/status/status.go:202-226 State] *)
Inductive RowState := StateOK | StateWillInvite | StateWillRemove | StateHeld | StateRetrying | StateReported | StateIgnored.
(** [internal/slackroster/status/status.go:165-185 ChannelState] *)
Inductive ChannelState := ChannelOK | ChannelWillCreate | ChannelWillAdopt | ChannelWillAccept | ChannelWaiting | ChannelHeld.

#[global] Instance Kind_eq_dec : EqDecision Kind.
Proof. solve_decision. Defined.
#[global] Instance RowState_eq_dec : EqDecision RowState.
Proof. solve_decision. Defined.
#[global] Instance ChannelState_eq_dec : EqDecision ChannelState.
Proof. solve_decision. Defined.

(** [internal/slackroster/status/status.go:type Member] *)
Record Row := mkRow {
  rw_Person : string; rw_Email : string; rw_UserID : string; rw_State : RowState; rw_Action : option Kind; rw_Reason : string }.

(** [internal/slackroster/reconcile/reconcile.go:type Action] *)
Record Action := mkAction {
  a_Kind : Kind; a_Channel : string; a_ChannelID : string; a_Private : bool; a_User : string; a_Person : string;
  a_Email : string; a_Groups : list string; a_Reason : string; a_Host : string; a_Guest : string;
  a_GuestBot : string; a_InviteID : string; a_Shared : bool }.

(** [internal/slackroster/reconcile/reconcile.go:type Held] *)
Record Held := mkHeld { h_Channel : string; h_Person : string; h_Email : string; h_Change : string; h_Reason : string }.

(** [internal/slackroster/reconcile/reconcile.go:Held.Key] *)
Definition Held_Key (h : Held) : string := Join [h_Channel h; h_Person h; h_Change h; h_Reason h] "|".

(** ** Where a channel stands *)

(** [internal/slackroster/reconcile/derive.go:11-20 resKind] *)
Inductive resKind := resOK | resCreate | resJoin | resAccept | resHeld | resWaiting.
#[global] Instance resKind_eq_dec : EqDecision resKind.
Proof. solve_decision. Defined.

(** [internal/slackroster/reconcile/derive.go:type resolved] *)
Record resolved := mkResolved {
  rs_kind : resKind; rs_reason : string; rs_adopted : bool; rs_change : string;
  rs_ch : option Channel; rs_invite : option Invite }.

(** [internal/slackroster/reconcile/derive.go:resolved.usable] *)
Definition usable (res : resolved) : bool :=
  match rs_kind res with resOK | resCreate | resJoin | resAccept => true | resHeld | resWaiting => false end.

(** [internal/slackroster/reconcile/derive.go:visibility] *)
Definition visibility (private : bool) : string := if private then "private" else "public".

Definition held_at (ch : option Channel) change reason : resolved := mkResolved resHeld reason false change ch None.

(** [internal/slackroster/reconcile/derive.go:ready] *)
Definition ready (ch : Channel) (private joinable : bool) : resolved :=
  if negb (bool_decide (sl_Private ch = private)) then
    held_at (Some ch) "adopt" ("the channel is " +:+ visibility (sl_Private ch) +:+ " in Slack but the policy says " +:+
      visibility private +:+ "; change one of them, the roster never changes visibility")
  else if negb (sl_BotIn ch) && sl_Private ch then
    held_at (Some ch) "adopt" "the bot is not in this private channel: invite the bot first"
  else if negb (sl_BotIn ch) && joinable then mkResolved resJoin "" false "" (Some ch) None
  else if negb (sl_BotIn ch) then held_at (Some ch) "adopt" "the bot is not in this channel"
  else mkResolved resOK "" false "" (Some ch) None.

Definition with_adopted (res : resolved) (adopted : bool) : resolved :=
  mkResolved (rs_kind res) (rs_reason res) adopted (rs_change res) (rs_ch res) (rs_invite res).

(** [internal/slackroster/reconcile/derive.go:archivedReason] *)
Definition archivedReason name id : string :=
  "the channel " +:+ name +:+ " (" +:+ id +:+ ") is archived: unarchive it in Slack or rename it; the roster never unarchives".

(** [internal/slackroster/reconcile/derive.go:type extra] *)
Record extra := mkExtra { e_member : Member; e_key : string; e_addrs : list string; e_inDomain : bool }.

(** [internal/slackroster/reconcile/derive.go:type plan]; [members] is [None]
    for a channel that does not exist or cannot be used. *)
Record plan := mkPlan {
  pl_lc : layoutChannel; pl_res : resolved; pl_notes : list string; pl_heldShare : bool; pl_rows : list Row;
  pl_chanActs : list Action; pl_shareActs : list Action; pl_inviteActs : list Action; pl_held : list Held;
  pl_members : option (gset string); pl_extras : list extra }.

(** [internal/slackroster/reconcile/derive.go:type Draft] *)
Record Draft := mkDraft { d_in : Input; d_r : resolver; d_plans : list plan }.

(** What was not read, and so must not be taken as absent. *)
Inductive derive_error : Type :=
| NotDeclared workspace
| MembersUnread name id
| NeverLookedUp address
| NotIdentified id name.

(** [internal/slackroster/reconcile/derive.go:joinGroups] *)
Definition joinGroups (groups : list string) : string := Join groups ", ".

(** [internal/slackroster/reconcile/derive.go:holdsReason] *)
Definition holdsReason (p : person) : string :=
  match p_groups p with
  | [] => "is listed individually"
  | groups =>
      if p_individual p then "holds " +:+ joinGroups groups +:+ " and is listed individually"
      else "holds " +:+ joinGroups groups
  end.

(** [internal/slackroster/reconcile/derive.go:rowEmail] *)
Definition rowEmail (s : slot) : string :=
  if negb (empty (s_addr s)) then s_addr s else match p_addrs (s_person s) with a :: _ => a | [] => "" end.

Section derive.
Context (inp : Input).
Notation obs := (n_Observed inp).
Notation r := (newResolver inp).

(** [internal/slackroster/reconcile/derive.go:Draft.byID] *)
Definition byID id : option Channel := List.find (λ ch, bool_decide (sl_ID ch = id)) (ob_Channels obs).
(** [internal/slackroster/reconcile/derive.go:Draft.byName] *)
Definition byName name : option Channel := List.find (λ ch, bool_decide (sl_Name ch = name)) (ob_Channels obs).

(** The end of [resolveBound], for a channel that is there and is not shared. *)
Definition bound_existing (lc : layoutChannel) (ch : Channel) : resolved :=
  if sl_Archived ch then held_at (Some ch) "adopt" (archivedReason (lc_name lc) (sl_ID ch))
  else
    let res := ready ch (lc_private lc) true in
    with_adopted res (usable res && negb (bool_decide (sl_Creator ch = ob_BotUserID obs))).

(** [internal/slackroster/reconcile/derive.go:Draft.resolveBound] *)
Definition resolveBound (lc : layoutChannel) : resolved :=
  let adopt := ch_Adopt (lc_binding lc) in
  if negb (empty adopt) then
    match byID adopt with
    | None =>
        held_at None "adopt" ("adopt " +:+ adopt +:+ ": the bot cannot see that channel; if it is private, invite the bot first, otherwise check the id")
    | Some ch =>
        if sl_Shared ch then
          held_at (Some ch) "adopt" ("adopt " +:+ adopt +:+ " is a Slack Connect channel; it is managed as a shared channel, not bound here")
        else bound_existing lc ch
    end
  else
    match byName (lc_name lc) with
    | None => mkResolved resCreate "" false "" None None
    | Some ch =>
        if sl_Shared ch then
          held_at (Some ch) "adopt" ("a channel named " +:+ lc_name lc +:+ " (" +:+ sl_ID ch +:+
            ") is a Slack Connect channel; it is managed as a shared channel, not bound here")
        else bound_existing lc ch
    end.

(** The end of [resolveHost], for a channel that is there. *)
Definition host_existing (s : SharedChannel) (lc : layoutChannel) (ch : Channel) : resolved :=
  if sl_Archived ch then held_at (Some ch) "create" (archivedReason (lc_name lc) (sl_ID ch))
  else
    let madeHere := bool_decide (sl_Creator ch = ob_BotUserID obs) in
    if empty (sc_ChannelID s) && negb madeHere && negb (sl_Shared ch) then
      held_at (Some ch) "create" ("a channel named " +:+ lc_name lc +:+ " already exists here (" +:+ sl_ID ch +:+
        ") and this roster did not create it")
    else
      let res := ready ch (lc_private lc) true in
      with_adopted res (usable res && negb madeHere).

(** [internal/slackroster/reconcile/derive.go:Draft.resolveHost] *)
Definition resolveHost (s : SharedChannel) (lc : layoutChannel) : resolved :=
  if negb (empty (sc_ChannelID s)) then
    match byID (sc_ChannelID s) with
    | None =>
        held_at None "adopt" ("the recorded channel " +:+ sc_ChannelID s +:+
          " is not visible to the bot; if it is private, invite the bot to it first, otherwise check the id")
    | Some ch => host_existing s lc ch
    end
  else
    match byName (lc_name lc) with
    | None => mkResolved resCreate "" false "" None None
    | Some ch => host_existing s lc ch
    end.

(** An invitation of this record's channel, from its host, to this workspace's bot. *)
Definition invites_here (s : SharedChannel) (lc : layoutChannel) (i : Invite) : bool :=
  let host := f_Team (facts_of inp (sc_Host s)) in
  negb (empty host) && i_Incoming i && bool_decide (i_HostTeamID i = host) &&
  bool_decide (i_RecipientUserID i = ob_BotUserID obs) &&
  (if empty (sc_ChannelID s) then bool_decide (i_ChannelName i = lc_name lc) else bool_decide (i_ChannelID i = sc_ChannelID s)).

(** [internal/slackroster/reconcile/derive.go:Draft.resolveGuest] *)
Definition resolveGuest (s : SharedChannel) (lc : layoutChannel) : resolved :=
  let id := sc_ChannelID s in
  match (if empty id then byName (lc_name lc) else byID id) with
  | Some ch =>
      if sl_Archived ch then held_at (Some ch) "share" (archivedReason (lc_name lc) (sl_ID ch))
      else if negb (sl_Shared ch) then
        held_at (Some ch) "share" ("a channel named " +:+ lc_name lc +:+ " already exists here and is not the shared channel")
      else
        let res := ready ch (lc_private lc) true in with_adopted res (bool_decide (rs_kind res = resJoin))
  | None =>
      match List.find (invites_here s lc) (ob_Invites obs) with
      | Some i => mkResolved resAccept "" false "" None (Some i)
      | None =>
          mkResolved resWaiting
            (if empty id then "waiting for " +:+ sc_Host s +:+ " to invite this workspace"
             else "the channel " +:+ id +:+ " is not visible to this workspace's bot: waiting for " +:+ sc_Host s +:+
                  " to invite this workspace, or, if it is already shared and private on this side, invite the bot to it")
            false "" None None
      end
  end.

(** [internal/slackroster/reconcile/derive.go:250-257 Draft.derive resolve] *)
Definition resolve (lc : layoutChannel) : resolved :=
  match lc_shared lc with
  | None => resolveBound lc
  | Some s => if bool_decide (sc_Host s = n_Workspace inp) then resolveHost s lc else resolveGuest s lc
  end.

(** ** The changes that follow *)

Definition channel_id (res : resolved) : string := match rs_ch res with Some ch => sl_ID ch | None => "" end.
Definition is_shared (lc : layoutChannel) : bool := match lc_shared lc with Some _ => true | None => false end.
Definition host_of (lc : layoutChannel) : string := match lc_shared lc with Some s => sc_Host s | None => "" end.

(** [internal/slackroster/reconcile/derive.go:258-271 Draft.derive channel] *)
Definition channel_actions (lc : layoutChannel) (res : resolved) : list Action * list Held :=
  match rs_kind res with
  | resCreate =>
      ([mkAction ActionCreate (lc_name lc) "" (lc_private lc) "" "" "" [] "the policy binds a channel that does not exist"
          "" "" "" "" (is_shared lc)], [])
  | resJoin =>
      ([mkAction ActionAdopt (lc_name lc) (channel_id res) (lc_private lc) "" "" "" [] "the bot joins a public channel to manage it"
          "" "" "" "" (is_shared lc)], [])
  | resAccept =>
      ([mkAction ActionShareAccept (lc_name lc) "" (lc_private lc) "" "" "" [] "the host invited this workspace"
          (host_of lc) (n_Workspace inp) "" (match rs_invite res with Some i => i_ID i | None => "" end) true], [])
  | resHeld => ([], [mkHeld (lc_name lc) "" "" (rs_change res) (rs_reason res)])
  | resOK | resWaiting => ([], [])
  end.

(** [internal/slackroster/reconcile/derive.go:322-352 Draft.shareActions guest]: one
    guest workspace; a note, a hold or an invitation. *)
Definition share_guest (lc : layoutChannel) (res : resolved) (g : string) : list string * list Held * list Action :=
  let team := f_Team (facts_of inp g) in
  let bot := default "" (n_Bots inp !! g) in
  let invite := mkAction ActionShareInvite (lc_name lc) (channel_id res) (lc_private lc) "" "" "" []
    ("the channel is shared with " +:+ g) (n_Workspace inp) g bot "" true in
  let no_bot : list string * list Held * list Action :=
    if empty bot then
      let reason := g +:+ " is not connected: its bot user id is unknown, so it cannot be invited" in
      ([reason], [mkHeld (lc_name lc) "" "" "share-invite" reason], [])
    else ([], [], [invite]) in
  match rs_ch res with
  | None => no_bot
  | Some ch =>
      if negb (empty team) && (str_in team (sl_SharedTeamIDs ch) || str_in team (sl_Teams ch)) then ([], [], [])
      else if existsb (λ i, negb (i_Incoming i) && bool_decide (i_ChannelID i = sl_ID ch) &&
                            bool_decide (i_RecipientUserID i = bot) && negb (empty bot)) (ob_Invites obs)
           then (["waiting for " +:+ g +:+ " to accept"], [], [])
      else no_bot
  end.

(** [internal/slackroster/reconcile/derive.go:Draft.shareActions], called for the
    host's side only. *)
Definition shareActions (lc : layoutChannel) (res : resolved) : list string * list Held * list Action :=
  match lc_shared lc with
  | Some s =>
      if bool_decide (sc_Host s = n_Workspace inp) && usable res then
        let guests := share_guest lc res <$> sc_With s in
        (mjoin ((λ g, g.1.1) <$> guests), mjoin ((λ g, g.1.2) <$> guests), mjoin ((λ g, g.2) <$> guests))
      else ([], [], [])
  | None => ([], [], [])
  end.

(** [internal/slackroster/reconcile/derive.go:Draft.people]: one wanted person this
    workspace handles; [members] is [None] unless the channel exists. *)
Definition slot_row (lc : layoutChannel) (res : resolved) (members : option (gset string)) (s : slot)
    : result derive_error (Row * list Held * list Action) :=
  let p := s_person s in
  let row user state action reason := mkRow (p_key p) (rowEmail s) user state action reason in
  let hold user reason : result derive_error (Row * list Held * list Action) :=
    Ok (row user StateHeld None reason, [mkHeld (lc_name lc) (p_key p) (rowEmail s) "invite" reason], []) in
  if empty (s_addr s) then hold "" (s_reason s)
  else match ob_Accounts obs !! s_addr s with
  | None => Err (NeverLookedUp (s_addr s))
  | Some acct =>
      if negb (ac_Found acct) then hold "" "no Slack account yet"
      else if ac_Deleted acct then hold (ac_ID acct) "the Slack account is deactivated"
      else if ac_Bot acct then hold (ac_ID acct) "that address belongs to a bot"
      else if ac_Guest acct then
        Ok (row (ac_ID acct) StateReported None "a guest account: guests are never invited or removed", [], [])
      else if negb (empty (ac_TeamID acct)) && negb (empty (ob_TeamID obs)) && negb (bool_decide (ac_TeamID acct = ob_TeamID obs))
        then hold (ac_ID acct) "the account belongs to another workspace"
      else if bool_decide (ac_ID acct ∈ default ∅ members) then Ok (row (ac_ID acct) StateOK None "", [], [])
      else
        Ok (row (ac_ID acct) StateWillInvite (Some ActionInvite) "", [],
            [mkAction ActionInvite (lc_name lc) (channel_id res) (lc_private lc) (ac_ID acct) (p_key p) (s_addr s)
               (p_groups p) (holdsReason p) "" "" "" "" (is_shared lc)])
  end.

(** [internal/slackroster/reconcile/derive.go:288-296 Draft.derive people] *)
Definition people_rows (lc : layoutChannel) (res : resolved) (members : option (gset string))
    : result derive_error (list (Row * list Held * list Action)) :=
  if usable res then map_m (slot_row lc res members) (lc_slots lc)
  else if bool_decide (rs_kind res = resHeld) then
    Ok ((λ s, (mkRow (p_key (s_person s)) (rowEmail s) "" StateHeld None (rs_reason res), [], [])) <$> lc_slots lc)
  else Ok [].

(** The accounts of the people this workspace handles in the channel. *)
Definition wanted_ids (lc : layoutChannel) : gset string :=
  list_to_set (omap (λ s,
    if empty (s_addr s) then None
    else match ob_Accounts obs !! s_addr s with
         | Some a => if ac_Found a then Some (ac_ID a) else None
         | None => None
         end) (lc_slots lc)).

(** [internal/slackroster/reconcile/derive.go:Draft.findExtras]: one user of the
    channel; an extra, or nobody to say anything of. *)
Definition find_extra (lc : layoutChannel) id : result derive_error (option extra) :=
  if bool_decide (id = ob_BotUserID obs) || bool_decide (id ∈ wanted_ids lc) then Ok None
  else match ob_Members obs !! id with
  | None => Err (NotIdentified id (lc_name lc))
  | Some m =>
      if m_Bot m || m_Deleted m then Ok None
      else
        let e := if empty (m_Email m) then mkExtra m "" [] false
                 else mkExtra m (personKey r (m_Email m)) (addressesOf r (m_Email m))
                        (inDomains (normalise (m_Email m)) (domains_of r (n_Workspace inp))) in
        if negb (empty (e_key e)) && str_in (e_key e) (p_key <$> lc_all lc) then Ok None else Ok (Some e)
  end.

(** [internal/slackroster/reconcile/derive.go:Draft.derive] *)
Definition derive (lc : layoutChannel) : result derive_error plan :=
  let res := resolve lc in
  let '(chanActs, held) := channel_actions lc res in
  let existing := if usable res then rs_ch res else None in
  members ← match existing with
            | None => Ok None
            | Some ch =>
                if sl_MembersKnown ch then Ok (Some (list_to_set (sl_Members ch) : gset string))
                else Err (MembersUnread (lc_name lc) (sl_ID ch))
            end;
  let '(notes, share_held, shareActs) := shareActions lc res in
  people ← people_rows lc res members;
  extras ← match existing with None => Ok [] | Some ch => map_m (find_extra lc) (sl_Members ch) end;
  Ok (mkPlan lc res notes (negb (bool_decide (length share_held = 0))) ((λ p, p.1.1) <$> people)
        chanActs shareActs (mjoin ((λ p, p.2) <$> people))
        (held ++ share_held ++ mjoin ((λ p, p.1.2) <$> people)) members (omap id extras)).

(** [internal/slackroster/reconcile/derive.go:Derive] *)
Definition Derive : result derive_error Draft :=
  check (bool_decide (is_Some (n_Workspaces inp !! n_Workspace inp))) (NotDeclared (n_Workspace inp)) ;;
  plans ← map_m derive (layout r);
  Ok (mkDraft inp r plans).
End derive.

(** ** Who the directory is asked about *)

Section confirm.
Context (d : Draft).

(** [internal/slackroster/reconcile/derive.go:Draft.foreign] *)
Definition foreign (m : Member) : bool :=
  let team := ob_TeamID (n_Observed (d_in d)) in
  negb (empty (m_TeamID m)) && negb (empty team) && negb (bool_decide (m_TeamID m = team)).

(** A strict channel of this workspace alone. *)
Definition strict_own (p : plan) : bool := lc_strict (pl_lc p) && negb (is_shared (pl_lc p)).

(** [internal/slackroster/reconcile/derive.go:Draft.ignored] *)
Definition ignored (p : plan) (e : extra) : bool :=
  strict_own p &&
  existsb (λ entry, bool_decide (normalise entry = normalise (m_ID (e_member e))) || str_in (normalise entry) (e_addrs e))
    (ch_Ignore (lc_binding (pl_lc p))).

(** [internal/slackroster/reconcile/derive.go:Draft.strictRemovable] *)
Definition strictRemovable (p : plan) (e : extra) : bool :=
  strict_own p && negb (m_Guest (e_member e)) && negb (foreign (e_member e)) &&
  negb (empty (m_Email (e_member e))) && negb (ignored p e).

(** [internal/slackroster/reconcile/derive.go:Draft.leaverCandidate] *)
Definition leaverCandidate (e : extra) : bool :=
  negb (m_Guest (e_member e)) && negb (foreign (e_member e)) && negb (empty (m_Email (e_member e))) && e_inDomain e.

(** [internal/slackroster/reconcile/derive.go:Draft.Confirm] *)
Definition Draft_Confirm : list string :=
  sort_strings (elements (list_to_set (mjoin ((λ p, mjoin ((λ e,
    if strictRemovable p e || leaverCandidate e then e_addrs e else []) <$> pl_extras p)) <$> d_plans d)) : gset string)).
End confirm.

(** ** Lemmas: where a channel stands *)

Lemma find_In {A} (f : A → bool) l x : List.find f l = Some x → x ∈ l ∧ f x = true.
Proof. intros [Hin ?]%find_some. by rewrite list_elem_of_In. Qed.

Lemma find_nobody {A} (f : A → bool) l x : List.find f l = None → x ∈ l → f x = false.
Proof. intros H Hx. eapply find_none; [exact H|]. by apply list_elem_of_In. Qed.

Section resolved.
Context (inp : Input).
Notation obs := (n_Observed inp).

(** An existing channel taken as it is: seen, not archived, of the visibility
    asked for, the bot in it or about to join it. *)
Definition taken (lc : layoutChannel) (res : resolved) (ch : Channel) : Prop :=
  ch ∈ ob_Channels obs ∧ sl_Archived ch = false ∧ sl_Private ch = lc_private lc ∧
  (rs_kind res = resOK ∧ sl_BotIn ch = true ∨ rs_kind res = resJoin ∧ sl_BotIn ch = false ∧ sl_Private ch = false) ∧
  match lc_shared lc with
  | None => sl_Shared ch = false ∧
      (if empty (ch_Adopt (lc_binding lc)) then sl_Name ch = lc_name lc else sl_ID ch = ch_Adopt (lc_binding lc))
  | Some s =>
      (if empty (sc_ChannelID s) then sl_Name ch = lc_name lc else sl_ID ch = sc_ChannelID s) ∧
      (sc_ChannelID s = "" → sl_Creator ch = ob_BotUserID obs ∨ sl_Shared ch = true)
  end.

Lemma ready_inv ch private : let res := ready ch private true in
  rs_ch res = Some ch ∧
  (usable res = true → sl_Private ch = private ∧
    (rs_kind res = resOK ∧ sl_BotIn ch = true ∨ rs_kind res = resJoin ∧ sl_BotIn ch = false ∧ sl_Private ch = false)) ∧
  (usable res = false → rs_kind res = resHeld).
Proof.
  unfold ready. case_bool_decide as Hp; simpl; [|done].
  destruct (sl_BotIn ch) eqn:Hb, (sl_Private ch) eqn:Hpr; simpl; unfold usable; simpl; split_and!; auto 6; done.
Qed.

Lemma byID_inv id ch : byID inp id = Some ch → ch ∈ ob_Channels obs ∧ sl_ID ch = id.
Proof. intros [? ?%bool_decide_eq_true]%find_In. done. Qed.
Lemma byName_inv name ch : byName inp name = Some ch → ch ∈ ob_Channels obs ∧ sl_Name ch = name.
Proof. intros [? ?%bool_decide_eq_true]%find_In. done. Qed.
Lemma byName_none name ch : byName inp name = None → ch ∈ ob_Channels obs → sl_Name ch ≠ name.
Proof. intros H Hin. by apply (find_nobody _ _ _ H), bool_decide_eq_false in Hin. Qed.

(** What each way a channel can stand says. *)
Definition standing (lc : layoutChannel) (res : resolved) : Prop :=
  match rs_kind res with
  | resOK | resJoin => ∃ ch, rs_ch res = Some ch ∧ taken lc res ch
  | resCreate => rs_ch res = None ∧ (∀ ch, ch ∈ ob_Channels obs → sl_Name ch ≠ lc_name lc) ∧
      match lc_shared lc with None => ch_Adopt (lc_binding lc) = "" | Some s => sc_ChannelID s = "" ∧ sc_Host s = n_Workspace inp end
  | resAccept => rs_ch res = None ∧ ∃ s i, lc_shared lc = Some s ∧ sc_Host s ≠ n_Workspace inp ∧ rs_invite res = Some i ∧
      i ∈ ob_Invites obs ∧ invites_here inp s lc i = true
  | resHeld | resWaiting => True
  end.

Lemma bound_existing_standing lc ch : lc_shared lc = None → ch ∈ ob_Channels obs → sl_Shared ch = false →
  (if empty (ch_Adopt (lc_binding lc)) then sl_Name ch = lc_name lc else sl_ID ch = ch_Adopt (lc_binding lc)) →
  standing lc (bound_existing inp lc ch).
Proof.
  intros Hs Hin Hsh Hname. unfold bound_existing. destruct (sl_Archived ch) eqn:Ha; [done|].
  destruct (ready_inv ch (lc_private lc)) as (Hch&Hu&Hh). unfold standing.
  change (rs_kind (with_adopted ?x _)) with (rs_kind x). set (res := ready ch (lc_private lc) true) in *.
  unfold taken. rewrite Hs. unfold usable in Hu, Hh.
  destruct (rs_kind res) eqn:Hk; try (destruct (Hu eq_refl) as (?&[[? ?]|(?&?&?)]); try congruence); try done;
    exists ch; cbn [with_adopted rs_ch rs_kind]; rewrite Hk; auto 10.
Qed.

Lemma host_existing_standing s lc ch : lc_shared lc = Some s → ch ∈ ob_Channels obs →
  (if empty (sc_ChannelID s) then sl_Name ch = lc_name lc else sl_ID ch = sc_ChannelID s) →
  standing lc (host_existing inp s lc ch).
Proof.
  intros Hs Hin Hname. unfold host_existing. destruct (sl_Archived ch) eqn:Ha; [done|].
  destruct (empty (sc_ChannelID s) && negb _ && negb (sl_Shared ch)) eqn:Hmine; [done|].
  assert (sc_ChannelID s = "" → sl_Creator ch = ob_BotUserID obs ∨ sl_Shared ch = true) as Hown.
  { intros He. rewrite He in Hmine. simpl in Hmine. destruct (sl_Shared ch); [by right|left].
    apply andb_false_iff in Hmine as [Hm|Hm]; [|done]. by apply negb_false_iff, bool_decide_eq_true in Hm. }
  destruct (ready_inv ch (lc_private lc)) as (Hch&Hu&Hh). unfold standing.
  change (rs_kind (with_adopted ?x _)) with (rs_kind x). set (res := ready ch (lc_private lc) true) in *.
  unfold taken. rewrite Hs. unfold usable in Hu, Hh.
  destruct (rs_kind res) eqn:Hk; try (destruct (Hu eq_refl) as (?&[[? ?]|(?&?&?)]); try congruence); try done;
    exists ch; cbn [with_adopted rs_ch rs_kind]; rewrite Hk; auto 10.
Qed.

Lemma resolve_standing lc : standing lc (resolve inp lc).
Proof.
  unfold resolve. destruct (lc_shared lc) as [s|] eqn:Hs.
  - case_bool_decide as Hhost.
    + unfold resolveHost. destruct (empty (sc_ChannelID s)) eqn:He; simpl.
      * destruct (byName inp (lc_name lc)) as [ch|] eqn:Hn.
        -- apply byName_inv in Hn as [? ?]. apply host_existing_standing; [done..|]. by rewrite He.
        -- unfold standing. simpl. rewrite Hs. apply empty_true in He. split_and!; [done| |done|done].
           intros ch Hch. by apply byName_none.
      * destruct (byID inp (sc_ChannelID s)) as [ch|] eqn:Hn; [|done].
        apply byID_inv in Hn as [? ?]. apply host_existing_standing; [done..|]. by rewrite He.
    + unfold resolveGuest. destruct (if empty (sc_ChannelID s) then _ else _) as [ch|] eqn:Hn.
      * assert (ch ∈ ob_Channels obs ∧ (if empty (sc_ChannelID s) then sl_Name ch = lc_name lc else sl_ID ch = sc_ChannelID s)) as [Hin Hname].
        { destruct (empty (sc_ChannelID s)); [by apply byName_inv|by apply byID_inv]. }
        destruct (sl_Archived ch) eqn:Ha; [done|]. destruct (sl_Shared ch) eqn:Hsh; [|done]. simpl.
        destruct (ready_inv ch (lc_private lc)) as (Hch&Hu&Hh). unfold standing.
        change (rs_kind (with_adopted ?x _)) with (rs_kind x). set (res := ready ch (lc_private lc) true) in *.
        unfold taken. rewrite Hs. unfold usable in Hu, Hh.
        destruct (rs_kind res) eqn:Hk; try (destruct (Hu eq_refl) as (?&[[? ?]|(?&?&?)]); try congruence); try done;
          exists ch; cbn [with_adopted rs_ch rs_kind]; rewrite Hk; auto 10.
      * destruct (List.find _ _) as [i|] eqn:Hi; [|done]. apply find_In in Hi as [Hi Hh].
        unfold standing. simpl. split; [done|]. exists s, i. auto.
  - unfold resolveBound. destruct (empty (ch_Adopt (lc_binding lc))) eqn:He; simpl.
    + destruct (byName inp (lc_name lc)) as [ch|] eqn:Hn.
      * apply byName_inv in Hn as [? ?]. destruct (sl_Shared ch) eqn:?; [done|].
        apply bound_existing_standing; [done..|]. by rewrite He.
      * unfold standing. simpl. rewrite Hs. apply empty_true in He. split_and!; [done| |done].
        intros ch Hch. by apply byName_none.
    + destruct (byID inp _) as [ch|] eqn:Hn; [|done]. apply byID_inv in Hn as [? ?].
      destruct (sl_Shared ch) eqn:?; [done|]. apply bound_existing_standing; [done..|]. by rewrite He.
Qed.

(** The channel a plan acts in, when it exists. *)
Definition existing (res : resolved) : option Channel := if usable res then rs_ch res else None.

Lemma existing_taken lc ch : existing (resolve inp lc) = Some ch → taken lc (resolve inp lc) ch.
Proof.
  pose proof (resolve_standing lc) as H. unfold existing, usable, standing in *.
  destruct (rs_kind (resolve inp lc)); try done.
  - destruct H as (ch'&->&?). by intros [= <-].
  - by destruct H as [-> _].
  - destruct H as (ch'&->&?). by intros [= <-].
  - by destruct H as [-> _].
Qed.

(** ** Lemmas: one plan *)

(** The parts of a plan. *)
Lemma derive_inv lc p : derive inp lc = Ok p →
  pl_lc p = lc ∧ pl_res p = resolve inp lc ∧
  (∀ ch, existing (resolve inp lc) = Some ch → sl_MembersKnown ch = true) ∧
  pl_members p = (λ ch, list_to_set (sl_Members ch)) <$> existing (resolve inp lc) ∧
  pl_chanActs p = (channel_actions inp lc (resolve inp lc)).1 ∧
  pl_shareActs p = (shareActions inp lc (resolve inp lc)).2 ∧
  (∃ people, people_rows inp lc (resolve inp lc) (pl_members p) = Ok people ∧
    pl_rows p = (λ x, x.1.1) <$> people ∧ pl_inviteActs p = mjoin ((λ x, x.2) <$> people) ∧
    pl_held p = (channel_actions inp lc (resolve inp lc)).2 ++ (shareActions inp lc (resolve inp lc)).1.2 ++
                mjoin ((λ x, x.1.2) <$> people)) ∧
  (∃ extras, match existing (resolve inp lc) with
             | None => Ok [] | Some ch => map_m (find_extra inp lc) (sl_Members ch) end = Ok extras ∧
    pl_extras p = omap id extras).
Proof.
  unfold derive. fold (existing (resolve inp lc)). set (res := resolve inp lc).
  destruct (channel_actions inp lc res) as [acts held] eqn:Hacts.
  destruct (shareActions inp lc res) as [[notes sheld] sacts] eqn:Hshare. intros H.
  apply bind_ok in H as (members&Hm&H). apply bind_ok in H as (people&Hp&H). apply bind_ok in H as (extras&He&H).
  injection H as <-. simpl. split_and!; try done.
  - intros ch Hch. rewrite Hch in Hm. by destruct (sl_MembersKnown ch).
  - destruct (existing res) as [ch|]; [destruct (sl_MembersKnown ch); [|done]|]; by injection Hm as <-.
  - eauto.
  - eauto.
Qed.

(** The change to a channel itself. *)
Lemma channel_action_spec lc p a : derive inp lc = Ok p → a ∈ pl_chanActs p →
  a_Channel a = lc_name lc ∧ a_Private a = lc_private lc ∧ usable (resolve inp lc) = true ∧
  match a_Kind a with
  | ActionCreate => ∀ ch, ch ∈ ob_Channels obs → sl_Name ch ≠ a_Channel a
  | ActionAdopt => ∃ ch, rs_ch (resolve inp lc) = Some ch ∧ a_ChannelID a = sl_ID ch ∧ sl_Private ch = false ∧ sl_BotIn ch = false
  | ActionShareAccept => ∃ s i, lc_shared lc = Some s ∧ sc_Host s ≠ n_Workspace inp ∧ i ∈ ob_Invites obs ∧
      invites_here inp s lc i = true ∧ a_InviteID a = i_ID i
  | _ => False
  end.
Proof.
  intros (_&_&_&_&->&_)%derive_inv. pose proof (resolve_standing lc) as H. unfold channel_actions, standing, usable in *.
  destruct (rs_kind (resolve inp lc)) eqn:Hk; intros Ha; try (by apply elem_of_nil in Ha); apply list_elem_of_singleton in Ha as ->; simpl.
  - destruct H as (_&?&_). done.
  - destruct H as (ch&Hch&(_&_&_&[[? _]|(_&?&?)]&_)); [congruence|]. split_and!; [done..|]. exists ch.
    unfold channel_id. by rewrite Hch.
  - destruct H as (_&s&i&?&?&Hi&?&?). split_and!; [done..|]. exists s, i. by rewrite Hi.
Qed.

(** An invitation of a guest workspace's bot. *)
Lemma share_action_spec lc p a : derive inp lc = Ok p → a ∈ pl_shareActs p →
  a_Channel a = lc_name lc ∧ a_Private a = lc_private lc ∧ usable (resolve inp lc) = true ∧
  ∃ s, lc_shared lc = Some s ∧ sc_Host s = n_Workspace inp ∧ a_Guest a ∈ sc_With s ∧
    a_GuestBot a ≠ "" ∧ n_Bots inp !! a_Guest a = Some (a_GuestBot a) ∧
    ∀ ch, rs_ch (resolve inp lc) = Some ch →
      (f_Team (facts_of inp (a_Guest a)) ≠ "" →
         f_Team (facts_of inp (a_Guest a)) ∉ sl_SharedTeamIDs ch ∧ f_Team (facts_of inp (a_Guest a)) ∉ sl_Teams ch) ∧
      (∀ i, i ∈ ob_Invites obs → i_Incoming i = false → i_ChannelID i = sl_ID ch → i_RecipientUserID i ≠ a_GuestBot a).
Proof.
  intros (_&_&_&_&_&->&_)%derive_inv. unfold shareActions. destruct (lc_shared lc) as [s|]; [|by intros ?%elem_of_nil].
  destruct (bool_decide (sc_Host s = _) && usable _) eqn:Hhost; [|by intros ?%elem_of_nil]. simpl. read_bools.
  intros (l&Ha&(x&->&Hx)%list_elem_of_fmap)%list_elem_of_join. apply list_elem_of_fmap in Hx as (g&->&Hg).
  unfold share_guest in Ha. set (bot := default "" (n_Bots inp !! g)) in *. set (team := f_Team (facts_of inp g)) in *.
  assert (bot ≠ "" → n_Bots inp !! g = Some bot) as Hbot by (unfold bot; by destruct (n_Bots inp !! g)).
  destruct (rs_ch (resolve inp lc)) as [ch|] eqn:Hch.
  - destruct (negb (empty team) && _) eqn:Hteam; [by apply elem_of_nil in Ha|].
    destruct (existsb _ _) eqn:Hpend; [by apply elem_of_nil in Ha|].
    destruct (empty bot) eqn:He; [by apply elem_of_nil in Ha|]. apply empty_false in He.
    apply list_elem_of_singleton in Ha as ->. simpl. split_and!; [done..|]. exists s. fold team. split_and!; auto.
    intros ch' [= <-]. split.
    + intros Hne. apply empty_false in Hne. rewrite Hne in Hteam. simpl in Hteam. apply orb_false_iff in Hteam.
      by rewrite !str_in_false in Hteam.
    + intros i Hi Hinc Hid Hrec. apply not_true_iff_false in Hpend. apply Hpend. apply existsb_exists.
      exists i. split; [by apply list_elem_of_In|]. rewrite Hinc, Hid, Hrec, !bool_decide_eq_true_2 by done.
      done.
  - destruct (empty bot) eqn:He; [by apply elem_of_nil in Ha|]. apply empty_false in He.
    apply list_elem_of_singleton in Ha as ->. simpl. split_and!; [done..|]. exists s. split_and!; auto. done.
Qed.

(** Somebody a plan would invite. *)
Lemma derive_invite lc p a : derive inp lc = Ok p → a ∈ pl_inviteActs p →
  ∃ s acct, s ∈ lc_slots lc ∧ s_addr s ≠ "" ∧ ob_Accounts obs !! s_addr s = Some acct ∧
    ac_Found acct = true ∧ ac_Deleted acct = false ∧ ac_Bot acct = false ∧ ac_Guest acct = false ∧
    (ac_TeamID acct = "" ∨ ob_TeamID obs = "" ∨ ac_TeamID acct = ob_TeamID obs) ∧
    usable (resolve inp lc) = true ∧
    (∀ ch, existing (resolve inp lc) = Some ch → ac_ID acct ∉ sl_Members ch) ∧
    a = mkAction ActionInvite (lc_name lc) (channel_id (resolve inp lc)) (lc_private lc) (ac_ID acct) (p_key (s_person s)) (s_addr s)
          (p_groups (s_person s)) (holdsReason (s_person s)) "" "" "" "" (is_shared lc).
Proof.
  intros (_&_&_&Hmem&_&_&(people&Hp&_&->&_)&_)%derive_inv Ha. set (res := resolve inp lc) in *.
  apply list_elem_of_join in Ha as (l&Ha&(x&->&Hx)%list_elem_of_fmap). unfold people_rows in Hp.
  destruct (usable res) eqn:Hu.
  2: { destruct (bool_decide _); [|injection Hp as <-; by apply elem_of_nil in Hx]. injection Hp as <-.
       apply list_elem_of_fmap in Hx as (s&->&_). by apply elem_of_nil in Ha. }
  destruct (elem_of_map_m _ _ _ _ Hp Hx) as (s&Hs&Hrow). unfold slot_row in Hrow.
  destruct (empty (s_addr s)) eqn:He; [injection Hrow as <-; by apply elem_of_nil in Ha|]. apply empty_false in He.
  destruct (ob_Accounts obs !! s_addr s) as [acct|] eqn:Hacct; [|done].
  destruct (ac_Found acct) eqn:Hf; simpl in Hrow; [|injection Hrow as <-; by apply elem_of_nil in Ha].
  destruct (ac_Deleted acct) eqn:Hd; [injection Hrow as <-; by apply elem_of_nil in Ha|].
  destruct (ac_Bot acct) eqn:Hb; [injection Hrow as <-; by apply elem_of_nil in Ha|].
  destruct (ac_Guest acct) eqn:Hg; [injection Hrow as <-; by apply elem_of_nil in Ha|].
  destruct (negb (empty (ac_TeamID acct)) && _ && _) eqn:Ht; [injection Hrow as <-; by apply elem_of_nil in Ha|].
  case_bool_decide as Hin; injection Hrow as <-; [by apply elem_of_nil in Ha|].
  apply list_elem_of_singleton in Ha as ->. exists s, acct. split_and!; try done.
  - apply andb_false_iff in Ht. rewrite andb_false_iff, !negb_false_iff, !empty_true, bool_decide_eq_true in Ht. tauto.
  - intros ch Hch Hmember. apply Hin. rewrite Hmem, Hch. simpl. by apply elem_of_list_to_set.
Qed.

(** Somebody in the channel whom nobody names: a user Slack identified as neither
    a bot nor deactivated, none of whose addresses belongs to anybody wanted. *)
Lemma derive_extra lc p e : derive inp lc = Ok p → e ∈ pl_extras p →
  ∃ ch id, existing (resolve inp lc) = Some ch ∧ rs_ch (resolve inp lc) = Some ch ∧ id ∈ sl_Members ch ∧ id ≠ ob_BotUserID obs ∧
    id ∉ wanted_ids inp lc ∧ ob_Members obs !! id = Some (e_member e) ∧ m_Bot (e_member e) = false ∧ m_Deleted (e_member e) = false ∧
    (m_Email (e_member e) ≠ "" →
       e_key e = personKey (newResolver inp) (m_Email (e_member e)) ∧
       e_addrs e = addressesOf (newResolver inp) (m_Email (e_member e)) ∧
       (e_key e = "" ∨ e_key e ∉ p_key <$> lc_all lc)).
Proof.
  intros (_&_&_&_&_&_&_&extras&He&->)%derive_inv Hin. apply list_elem_of_omap in Hin as ([e'|]&Hin&[= ->]).
  destruct (existing (resolve inp lc)) as [ch|] eqn:Hch; [|injection He as <-; by apply elem_of_nil in Hin].
  destruct (elem_of_map_m _ _ _ _ He Hin) as (id&Hid&Hfind). unfold find_extra in Hfind.
  destruct (bool_decide (id = _) || bool_decide _) eqn:Hskip; [done|]. read_bools.
  destruct (ob_Members obs !! id) as [m|] eqn:Hm; [|done].
  destruct (m_Bot m || m_Deleted m) eqn:Hbd; [done|]. apply orb_false_iff in Hbd as [Hb Hd].
  destruct (negb (empty (e_key _)) && _) eqn:Hk; [done|]. injection Hfind as <-.
  exists ch, id. assert (rs_ch (resolve inp lc) = Some ch) as Hres by (unfold existing in Hch; by destruct (usable _)).
  destruct (empty (m_Email m)) eqn:Hmail; simpl in *; split_and!; try done.
  - apply empty_true in Hmail. congruence.
  - intros _. split_and!; [done..|]. apply andb_false_iff in Hk. rewrite negb_false_iff, empty_true, str_in_false in Hk. done.
Qed.
End resolved.

Lemma Derived inp d : Derive inp = Ok d →
  is_Some (n_Workspaces inp !! n_Workspace inp) ∧ d_in d = inp ∧ d_r d = newResolver inp ∧
  Forall2 (λ lc p, derive inp lc = Ok p) (layout (newResolver inp)) (d_plans d).
Proof.
  unfold Derive. intros H. step_ok H. read_bools. injection H as <-. simpl. split_and!; [done..|]. by apply map_m_ok.
Qed.

Lemma Derive_plan inp d p : Derive inp = Ok d → p ∈ d_plans d →
  pl_lc p ∈ layout (newResolver inp) ∧ derive inp (pl_lc p) = Ok p.
Proof.
  intros (_&_&_&Hall)%Derived (i&Hi)%list_elem_of_lookup_1.
  destruct (Forall2_lookup_r _ _ _ _ _ Hall Hi) as (lc&Hlc&Hp).
  destruct (derive_inv _ _ _ Hp) as (->&_). split; [by eapply list_elem_of_lookup_2|done].
Qed.

Lemma Derive_names inp d : Derive inp = Ok d → lc_name ∘ pl_lc <$> d_plans d = lc_name <$> layout (newResolver inp) ∧
  pl_lc <$> d_plans d = layout (newResolver inp).
Proof.
  intros (_&_&_&Hall)%Derived. assert (pl_lc <$> d_plans d = layout (newResolver inp)) as Heq.
  { induction Hall as [|lc p lcs ps Hp _ IH]; [done|]. destruct (derive_inv _ _ _ Hp) as (Hlc&_).
    rewrite fmap_cons. by rewrite Hlc, IH. }
  split; [|done]. by rewrite list_fmap_compose, Heq.
Qed.

Lemma people_rows_err inp lc res members e : people_rows inp lc res members = Err e →
  ∃ s, s ∈ lc_slots lc ∧ e = NeverLookedUp (s_addr s) ∧ s_addr s ≠ "" ∧ ob_Accounts (n_Observed inp) !! s_addr s = None.
Proof.
  unfold people_rows. destruct (usable res); [|by destruct (bool_decide _)].
  intros (s&Hs&Hrow)%map_m_err. unfold slot_row in Hrow.
  destruct (empty (s_addr s)) eqn:Hempty; [done|]. apply empty_false in Hempty.
  destruct (ob_Accounts (n_Observed inp) !! s_addr s) eqn:Hacct; [by repeat case_match|].
  injection Hrow as <-. by exists s.
Qed.

(** ** The properties *)

(** A read that is not whole is an error that names what is missing, never an
    absence.  A derivation stops when the workspace is not declared; when the
    members of a channel it can see were not read; when one of the addresses
    [Lookups] asks for has no answer; or when a user in such a channel, other than
    the bot, was not identified.  When it succeeds every one of those was there:
    the members of each channel it acts in are known, each identified unless it is
    the bot's or a wanted person's account, and each person there was looked up. *)
Theorem Derive_whole inp :
  match Derive inp with
  | Err (NotDeclared ws) => ws = n_Workspace inp ∧ n_Workspaces inp !! ws = None
  | Err (MembersUnread _ id) => ∃ ch, ch ∈ ob_Channels (n_Observed inp) ∧ sl_ID ch = id ∧ sl_MembersKnown ch = false
  | Err (NeverLookedUp address) => address ∈ Lookups inp ∧ ob_Accounts (n_Observed inp) !! address = None
  | Err (NotIdentified id _) => id ≠ ob_BotUserID (n_Observed inp) ∧ ob_Members (n_Observed inp) !! id = None ∧
      ∃ ch, ch ∈ ob_Channels (n_Observed inp) ∧ id ∈ sl_Members ch
  | Ok d =>
      is_Some (n_Workspaces inp !! n_Workspace inp) ∧ pl_lc <$> d_plans d = layout (newResolver inp) ∧
      ∀ p, p ∈ d_plans d →
        (usable (pl_res p) = true → ∀ s, s ∈ lc_slots (pl_lc p) → s_addr s ≠ "" →
           is_Some (ob_Accounts (n_Observed inp) !! s_addr s)) ∧
        (∀ ch, existing (pl_res p) = Some ch → sl_MembersKnown ch = true ∧ pl_members p = Some (list_to_set (sl_Members ch)) ∧
           ∀ id, id ∈ sl_Members ch → id = ob_BotUserID (n_Observed inp) ∨ id ∈ wanted_ids inp (pl_lc p) ∨
             is_Some (ob_Members (n_Observed inp) !! id))
  end.
Proof.
  destruct (Derive inp) as [d|e] eqn:Hd.
  - destruct (Derive_names _ _ Hd) as [_ Hnames]. split; [by apply Derived in Hd as [? _]|]. split; [done|].
    intros p Hp. destruct (Derive_plan _ _ _ Hd Hp) as [_ Hder].
    pose proof (derive_inv _ _ _ Hder) as (_&Hres&Hknown&Hmem&_&_&(people&Hpeople&_)&extras&Hext&_). rewrite Hres.
    split; [|intros ch Hch; split; [by apply Hknown|split; [by rewrite Hmem, Hch|]]].
    + intros Hu s Hs Hne. unfold people_rows in Hpeople. rewrite Hu in Hpeople. apply map_m_ok in Hpeople.
      apply list_elem_of_lookup_1 in Hs as [i Hi]. destruct (Forall2_lookup_l _ _ _ _ _ Hpeople Hi) as (x&_&Hrow).
      unfold slot_row in Hrow. apply empty_false in Hne. rewrite Hne in Hrow.
      destruct (ob_Accounts (n_Observed inp) !! s_addr s); [by eexists|done].
    + intros id Hid. rewrite Hch in Hext. apply map_m_ok in Hext. apply list_elem_of_lookup_1 in Hid as [i Hi].
      destruct (Forall2_lookup_l _ _ _ _ _ Hext Hi) as (x&_&Hfind). unfold find_extra in Hfind.
      destruct (decide (id = ob_BotUserID (n_Observed inp))) as [?|Hb]; [by left|].
      destruct (decide (id ∈ wanted_ids inp (pl_lc p))) as [?|Hw]; [right; by left|].
      rewrite !bool_decide_eq_false_2 in Hfind by done. simpl in Hfind.
      destruct (ob_Members (n_Observed inp) !! id); [right; right; by eexists|done].
  - unfold Derive in Hd. destruct (bool_decide _) eqn:Hdecl; simpl in Hd.
    2: { injection Hd as <-. split; [done|]. read_bools. by apply eq_None_not_Some. }
    destruct (map_m (derive inp) _) as [plans|e'] eqn:Hm; [done|]. simpl in Hd. injection Hd as ->.
    apply map_m_err in Hm as (lc&Hlc&He). unfold derive in He. fold (existing (resolve inp lc)) in He.
    destruct (channel_actions inp lc _) as [acts held]. destruct (shareActions inp lc _) as [[notes sheld] sacts].
    destruct (existing (resolve inp lc)) as [ch|] eqn:Hch.
    + destruct (existing_taken _ _ _ Hch) as (Hin&_). destruct (sl_MembersKnown ch) eqn:Hk.
      2: { injection He as <-. by exists ch. }
      simpl in He. destruct (people_rows _ _ _ _) as [people|e'] eqn:Hpeople; simpl in He.
      * destruct (map_m (find_extra inp lc) _) as [extras|e'] eqn:Hf; [done|]. simpl in He. injection He as ->.
        apply map_m_err in Hf as (id&Hid&Hf). unfold find_extra in Hf.
        destruct (bool_decide (id = _) || _) eqn:Hskip; [done|]. read_bools.
        destruct (ob_Members (n_Observed inp) !! id) as [m|] eqn:Hm; [destruct (m_Bot m || m_Deleted m); [done|]; by destruct (_ && _) in Hf|].
        injection Hf as <-. split_and!; [done..|]. by exists ch.
      * injection He as ->. apply people_rows_err in Hpeople as (s&Hs&->&Hne&?). split; [|done]. apply elem_of_Lookups. eauto 6.
    + simpl in He. destruct (people_rows _ _ _ _) as [people|e'] eqn:Hpeople; simpl in He; [done|].
      injection He as ->. apply people_rows_err in Hpeople as (s&Hs&->&Hne&?). split; [|done]. apply elem_of_Lookups. eauto 6.
Qed.
