(* ===== verification/SlackDecide.v ===== *)
(** * SlackDecide: the report and the changes of one Slack workspace's pass

    [internal/slackroster/reconcile/decide.go], with the report's shapes from
    [internal/slackroster/status/status.go]: with the directory's answers, which
    members are removed and which only reported, the two removal breakers, and the
    ordered changes.

    The theorems: a member leaves a channel only when it is strict and the
    directory vouches, for every address of theirs, that they hold none of its
    groups; bots, guests, accounts of other workspaces, ignored accounts and
    anybody wanted stay; a channel's removals, and the workspace's, are made all or
    none, and never over half unless confirmed; what the directory was asked about
    is all a decision depends on; and a decision is always reached. *)

From stdpp Require Import pretty.
From S2P Require Import Prelude GoStrings Policy SlackPolicy Rails SlackData SlackLayout SlackDerive.

Implicit Types (name id address key reason : string) (vouches : gmap string Vouch).

(** ** The report *)

(** [internal/slackroster/status/status.go:type Discovered] *)
Record Discovered := mkDiscovered {
  dc_ID : string; dc_Name : string; dc_Private : bool; dc_Members : Z; dc_HostTeam : string;
  dc_Teams : list string; dc_Managed : bool }.
(** [internal/slackroster/status/status.go:type Channel] *)
Record ChannelReport := mkChannelReport {
  cr_Name : string; cr_ID : string; cr_Private : bool; cr_Mode : string; cr_Shared : bool; cr_Host : string;
  cr_Console : bool; cr_State : ChannelState; cr_Reason : string; cr_Members : list Row; cr_Breaker : option Breaker }.
(** [internal/slackroster/status/status.go:type Leaver] *)
Record Leaver := mkLeaver { lv_Email : string; lv_UserID : string; lv_Channels : list string; lv_Reason : string }.
(** [internal/slackroster/status/status.go:type Workspace] The fields a decision sets. *)
Record Report := mkReport {
  rp_Workspace : string; rp_Team : string; rp_Tick : Tick; rp_Channels : list ChannelReport;
  rp_DiscoveredShared : list Discovered; rp_Discovered : list Discovered; rp_DiscoveredMore : nat;
  rp_Leavers : list Leaver; rp_Breaker : option Breaker }.

(** [internal/slackroster/reconcile/reconcile.go:type Adoption] *)
Record Adoption := mkAdoption { ad_Channel : string; ad_ID : string; ad_Private : bool; ad_Joins : bool }.
(** [internal/slackroster/reconcile/reconcile.go:type Decision] *)
Record Decision := mkDecision {
  dec_Report : Report; dec_Actions : list Action; dec_Held : list Held; dec_Adopted : list Adoption }.

(** [internal/slackroster/status/status.go:110-112 MaxDiscovered] *)
Definition MaxDiscovered : nat := 500.

(** [internal/slackroster/reconcile/decide.go:type removal] *)
Record removal := mkRemoval { rm_channel : string; rm_key : string; rm_member : Member; rm_email : string; rm_row : nat }.

(** [internal/slackroster/reconcile/decide.go:removal.line] *)
Definition line (r : removal) : string := rm_channel r +:+ "|" +:+ rm_key r.

(** [internal/slackroster/reconcile/decide.go:gone] *)
Definition gone (addrs : list string) vouches : bool :=
  negb (bool_decide (addrs = [])) &&
  forallb (λ a, match vouches !! a with Some v => Gone v | None => false end) addrs.

(** [internal/slackroster/reconcile/decide.go:type leaverAcc] *)
Record leaverAcc := mkLeaverAcc { la_email : string; la_channels : list string; la_reason : string }.

(** What stops Go: a row that is not there, or a plan or a channel that is nil. *)
Inductive panic : Type := IndexOutOfRange | NilDereference.

(** The cases of the switch over a channel's extra member. *)
Inductive verdict : Type :=
| IsIgnored | IsGuest | IsForeign | HasNoAddress | MayRemove | CannotVouch reason | StillHolds | HasLeft | NothingToSay.

Section decide.
Context (d : Draft).
Notation inp := (d_in d).
Notation obs := (n_Observed (d_in d)).

(** [internal/slackroster/reconcile/decide.go:59-94 Draft.Decide verdict] *)
Definition judge vouches (p : plan) (e : extra) : verdict :=
  if ignored p e then IsIgnored
  else if strict_own p && m_Guest (e_member e) then IsGuest
  else if strict_own p && foreign d (e_member e) then IsForeign
  else if strict_own p && empty (m_Email (e_member e)) then HasNoAddress
  else if strictRemovable d p e then
    let '(reason, remove) := Removal (e_addrs e) vouches (lc_belongs (pl_lc p)) in
    if remove then MayRemove else if negb (empty reason) then CannotVouch reason else StillHolds
  else if leaverCandidate d e && gone (e_addrs e) vouches then HasLeft
  else NothingToSay.

(** [internal/slackroster/reconcile/decide.go:59-94 Draft.Decide row] *)
Definition verdict_row (e : extra) (v : verdict) : option Row :=
  let row state action reason := Some (mkRow (e_key e) (m_Email (e_member e)) (m_ID (e_member e)) state action reason) in
  match v with
  | IsIgnored => row StateIgnored None "on the channel's ignore list; never removed"
  | IsGuest => row StateReported None "a guest account: guests are never invited or removed"
  | IsForeign => row StateReported None "an account of another workspace; never removed"
  | HasNoAddress =>
      Some (mkRow "" "" (m_ID (e_member e)) StateReported None
              "no address on the account, so the directory cannot vouch for it; never removed")
  | MayRemove => row StateWillRemove (Some ActionRemove) ""
  | CannotVouch reason => row StateRetrying None reason
  | StillHolds => row StateOK None ""
  | HasLeft => row StateReported None "no longer in the directory and still in this channel"
  | NothingToSay => None
  end.

(** One extra member: a row, and a candidate for removal. *)
Definition extra_step vouches (p : plan) (s : list Row * list removal) (e : extra) : list Row * list removal :=
  let v := judge vouches p e in
  match verdict_row e v with
  | None => s
  | Some row =>
      (s.1 ++ [row],
       match v with
       | MayRemove => s.2 ++ [mkRemoval (lc_name (pl_lc p)) (e_key e) (e_member e) (m_Email (e_member e)) (length s.1)]
       | _ => s.2
       end)
  end.

(** [internal/slackroster/reconcile/decide.go:56-97 Draft.Decide rows]: one channel's
    rows, and the removals that wait for the breakers. *)
Definition rows_of vouches (p : plan) : list Row * list removal := foldl (extra_step vouches p) (pl_rows p, []) (pl_extras p).

Definition decide_rows vouches : list (list Row * list removal) := rows_of vouches <$> d_plans d.

(** Whether an extra is reported as having left the directory. *)
Definition has_left vouches (p : plan) (e : extra) : bool :=
  match judge vouches p e with
  | IsIgnored => leaverCandidate d e && gone (e_addrs e) vouches
  | HasLeft => true
  | _ => false
  end.

(** [internal/slackroster/reconcile/decide.go:Draft.leaver] *)
Definition leaver (into : gmap string leaverAcc) (e : extra) channel : gmap string leaverAcc :=
  let l := default (mkLeaverAcc (m_Email (e_member e)) [] "no longer in the directory and still active in a managed channel")
             (into !! m_ID (e_member e)) in
  <[m_ID (e_member e) := mkLeaverAcc (la_email l) (appendNew (la_channels l) channel) (la_reason l)]> into.

Definition leavers_of vouches : gmap string leaverAcc :=
  foldl (λ into p, foldl (λ into e, if has_left vouches p e then leaver into e (lc_name (pl_lc p)) else into) into (pl_extras p))
    ∅ (d_plans d).

(** ** The breakers *)

(** [internal/slackroster/reconcile/decide.go:Draft.managedMembers] *)
Definition managedMembers (p : plan) : nat := size (default ∅ (pl_members p) ∖ {[ob_BotUserID obs]}).

(** [internal/slackroster/reconcile/decide.go:135-144 Draft.Decide managed] *)
Definition managed_users : gset string :=
  ⋃ ((λ p, match rs_ch (pl_res p), pl_members p with
           | Some _, Some members => members ∖ {[ob_BotUserID obs]}
           | _, _ => ∅
           end) <$> d_plans d).

Definition people_of (removals : list removal) : gset string := list_to_set (rm_key <$> removals).

(** The breaker over one set of removals. *)
Definition breaker_over (confirmed : Confirmed) (removals : list removal) (total : nat) : option Breaker :=
  CheckBreaker (size (people_of removals)) (line <$> removals) total (covers confirmed (Fingerprint (line <$> removals))).

Definition in_channel name (removals : list removal) : list removal :=
  List.filter (λ r, bool_decide (rm_channel r = name)) removals.

Definition blocks (b : option Breaker) : bool := match b with Some b => negb (b_Confirmed b) | None => false end.

(** What the loop over the channels' breakers builds. *)
Record breaker_state := mkBreakerState { br_held : list Held; br_breaker : gmap string (option Breaker); br_blocked : gset string }.

(** [internal/slackroster/reconcile/decide.go:108-125 Draft.Decide channel breaker] *)
Definition channel_breaker (confirmed : Confirmed) (removals : list removal) (s : breaker_state) (p : plan) : breaker_state :=
  let name := lc_name (pl_lc p) in
  let here := in_channel name removals in
  if bool_decide (length here = 0) || is_shared (pl_lc p) then s
  else
    let b := breaker_over confirmed here (managedMembers p) in
    let breakers := <[name := b]> (br_breaker s) in
    match b with
    | Some b' =>
        if b_Confirmed b' then mkBreakerState (br_held s) breakers (br_blocked s)
        else mkBreakerState
               (br_held s ++ [mkHeld name "" "" "remove" ("over the removal limit: " +:+ pretty (b_Affected b') +:+ " of " +:+
                  pretty (b_Total b') +:+ " members of " +:+ name +:+ "; an operator confirms this set")])
               breakers ({[name]} ∪ br_blocked s)
    | None => mkBreakerState (br_held s) breakers (br_blocked s)
    end.

Definition channel_breakers (confirmed : Confirmed) (removals : list removal) : breaker_state :=
  foldl (channel_breaker confirmed removals) (mkBreakerState [] ∅ ∅) (d_plans d).

(** [internal/slackroster/reconcile/decide.go:126-151 Draft.Decide workspace breaker] *)
Definition workspace_breaker (confirmed : Confirmed) (removals : list removal) : option Breaker :=
  if bool_decide (length removals = 0) then None else breaker_over confirmed removals (size managed_users).

Definition workspace_held (b : option Breaker) : list Held :=
  match b with
  | Some b' =>
      if b_Confirmed b' then []
      else [mkHeld "" "" "" "remove" ("over the removal limit: " +:+ pretty (b_Affected b') +:+ " of " +:+
              pretty (b_Total b') +:+ " managed members of the workspace; an operator confirms this set")]
  | None => []
  end.

(** ** Removals *)

(** [internal/slackroster/reconcile/decide.go:Draft.planNamed], with the plan's place. *)
Definition planNamed name : option (nat * plan) :=
  list_find (λ p, lc_name (pl_lc p) = name ∧ is_shared (pl_lc p) = false) (d_plans d).

(** [internal/slackroster/reconcile/decide.go:noLongerReason] *)
Definition noLongerReason (lc : layoutChannel) : string :=
  match lc_groups lc with
  | [] => "the directory vouches that they are no longer an active user listed in " +:+ lc_name lc
  | groups =>
      if lc_individual lc
      then "the directory vouches that they no longer hold " +:+ joinGroups groups +:+ " and are no longer an active listed user"
      else "the directory vouches that they no longer hold " +:+ joinGroups groups
  end.

Definition blocked_reason (channel_blocked : bool) : string :=
  if channel_blocked then "this channel's removals are over the limit and wait for an operator's confirmation"
  else "the workspace's removals are over the limit and wait for an operator's confirmation".

Definition remove_action (p : plan) (ch : Channel) (r : removal) : Action :=
  mkAction ActionRemove (rm_channel r) (sl_ID ch) (lc_private (pl_lc p)) (m_ID (rm_member r)) (rm_key r) (rm_email r)
    (lc_groups (pl_lc p)) (noLongerReason (pl_lc p)) "" "" "" "" false.

(** [internal/slackroster/reconcile/decide.go:155-171 Draft.Decide removals]: a
    blocked removal's row becomes held, the rest become changes. *)
Definition remove_step (blocked : gset string) (ws_blocked : bool) (s : list (list Row) * list Action) (r : removal)
    : result panic (list (list Row) * list Action) :=
  match planNamed (rm_channel r) with
  | None => Err NilDereference
  | Some (i, p) =>
      if bool_decide (rm_channel r ∈ blocked) || ws_blocked then
        match s.1 !! i ≫= (λ rows, rows !! rm_row r) with
        | None => Err IndexOutOfRange
        | Some _ =>
            Ok (alter (λ rows, <[rm_row r := mkRow (rm_key r) (rm_email r) (m_ID (rm_member r)) StateHeld None
                                   (blocked_reason (bool_decide (rm_channel r ∈ blocked)))]> rows) i s.1, s.2)
        end
      else match rs_ch (pl_res p) with
           | None => Err NilDereference
           | Some ch => Ok (s.1, s.2 ++ [remove_action p ch r])
           end
  end.

(** ** The report *)

(** [internal/slackroster/reconcile/decide.go:modeOf] *)
Definition modeOf (p : plan) : string := if strict_own p then "strict" else "extend".

(** [internal/slackroster/reconcile/decide.go:joinNotes] *)
Definition joinNotes (notes : list string) : string := Join notes "; ".

(** [internal/slackroster/reconcile/decide.go:channelState] *)
Definition channelState (p : plan) : ChannelState * string :=
  if bool_decide (rs_kind (pl_res p) = resHeld) then (ChannelHeld, rs_reason (pl_res p))
  else if pl_heldShare p then (ChannelHeld, joinNotes (pl_notes p))
  else match rs_kind (pl_res p) with
  | resCreate => (ChannelWillCreate, joinNotes (pl_notes p))
  | resJoin => (ChannelWillAdopt, joinNotes (pl_notes p))
  | resAccept => (ChannelWillAccept, joinNotes (pl_notes p))
  | resWaiting => (ChannelWaiting, rs_reason (pl_res p))
  | resOK | resHeld => match pl_notes p with [] => (ChannelOK, "") | notes => (ChannelWaiting, joinNotes notes) end
  end.

(** [internal/slackroster/reconcile/decide.go:177-185 Draft.Decide channel] *)
Definition channel_report (breakers : gmap string (option Breaker)) (p : plan) (rows : list Row) : ChannelReport :=
  let '(state, reason) := channelState p in
  mkChannelReport (lc_name (pl_lc p)) (channel_id (pl_res p))
    (match rs_ch (pl_res p) with Some ch => sl_Private ch | None => lc_private (pl_lc p) end)
    (modeOf p) (is_shared (pl_lc p)) (host_of (pl_lc p)) (lc_console (pl_lc p)) state reason rows
    (default None (breakers !! lc_name (pl_lc p))).

Definition adoption (p : plan) : option Adoption :=
  if rs_adopted (pl_res p) then
    (λ ch, mkAdoption (lc_name (pl_lc p)) (sl_ID ch) (sl_Private ch) (bool_decide (rs_kind (pl_res p) = resJoin))) <$> rs_ch (pl_res p)
  else None.

(** [internal/slackroster/reconcile/decide.go:Draft.managed] *)
Definition managed (ch : Channel) : bool :=
  existsb (λ rec,
    if negb (empty (sc_ChannelID rec)) then bool_decide (sc_ChannelID rec = sl_ID ch)
    else NamesChannel rec (sl_Name ch) (sl_HostTeamID ch) (f_Team (facts_of inp (sc_Host rec)))
           (bool_decide (sc_Host rec = n_Workspace inp))) (n_Shared inp).

(** [internal/slackroster/reconcile/decide.go:Draft.discovered] *)
Definition discovered : list Discovered :=
  (λ ch, mkDiscovered (sl_ID ch) (sl_Name ch) (sl_Private ch) (sl_NumMembers ch) (sl_HostTeamID ch) (sl_Teams ch) (managed ch))
    <$> List.filter (λ ch, sl_Shared ch && negb (sl_Archived ch)) (ob_Channels obs).

Definition nonempty (l : list string) : list string := List.filter (λ s, negb (empty s)) l.

(** Ids and names a binding or a record speaks for. *)
Definition taken_ids : gset string :=
  list_to_set (omap (λ p, if is_shared (pl_lc p) then None else sl_ID <$> rs_ch (pl_res p)) (d_plans d) ++
    nonempty (ch_Adopt <$> (map_to_list (workspace_channels (d_r d))).*2) ++
    nonempty (cc_ChannelID <$> List.filter (λ c, bool_decide (cc_Workspace c = n_Workspace inp)) (n_Console inp))).
Definition taken_names : gset string :=
  list_to_set (keys (workspace_channels (d_r d)) ++
    (cc_Name <$> List.filter (λ c, bool_decide (cc_Workspace c = n_Workspace inp)) (n_Console inp))).

(** [internal/slackroster/reconcile/decide.go:Draft.discoveredOrdinary] *)
Definition discoveredOrdinary : list Discovered * nat :=
  let free ch := negb (sl_Shared ch || sl_Archived ch || sl_General ch || bool_decide (sl_ID ch ∈ taken_ids) ||
                       bool_decide (sl_Name ch ∈ taken_names)) in
  let out := (λ ch, mkDiscovered (sl_ID ch) (sl_Name ch) (sl_Private ch) (sl_NumMembers ch) "" [] false)
               <$> List.filter free (ob_Channels obs) in
  let out := sort_stable dc_Name (sort_stable dc_ID out) in
  (take MaxDiscovered out, length out - MaxDiscovered).

Definition leaver_rows (leavers : gmap string leaverAcc) : list Leaver :=
  omap (λ key, (λ l, mkLeaver (la_email l) key (sort_strings (la_channels l)) (la_reason l)) <$> leavers !! key)
    (sorted_keys leavers).

Definition count_rows (state : RowState) (rows : list (list Row)) : nat :=
  length (List.filter (λ row, bool_decide (rw_State row = state)) (mjoin rows)).

(** Everything after the rows: the breakers, the removals, the report. *)
Definition finish (decided : list (list Row * list removal)) (leavers : gmap string leaverAcc) (confirmed : Confirmed)
    : result panic Decision :=
  let removals := mjoin decided.*2 in
  let breakers := channel_breakers confirmed removals in
  let ws_breaker := workspace_breaker confirmed removals in
  '(rows, removeActs) ← fold_m (remove_step (br_blocked breakers) (blocks ws_breaker)) (decided.*1, []) removals;
  let channels := zip_with (channel_report (br_breaker breakers)) (d_plans d) rows in
  let actions := mjoin (pl_chanActs <$> d_plans d) ++ mjoin (pl_shareActs <$> d_plans d) ++
                 mjoin (pl_inviteActs <$> d_plans d) ++ removeActs in
  let held := br_held breakers ++ workspace_held ws_breaker ++ mjoin (pl_held <$> d_plans d) in
  let '(found, more) := discoveredOrdinary in
  Ok (mkDecision
    (mkReport (n_Workspace inp) (ob_TeamID obs)
       (mkTick (length actions) (length held) (count_rows StateRetrying rows)
          (length (List.filter (λ c, bool_decide (cr_State c = ChannelWaiting)) channels)))
       channels discovered found more (leaver_rows leavers) ws_breaker)
    actions (sort_stable Held_Key held) (omap adoption (d_plans d))).

(** [internal/slackroster/reconcile/decide.go:Draft.Decide] *)
Definition Draft_Decide vouches (confirmed : Confirmed) : result panic Decision :=
  finish (decide_rows vouches) (leavers_of vouches) confirmed.
End decide.

(** ** Lemmas: rows and candidates *)

Section lemmas.
Context (d : Draft).

(** The candidates of one channel, each with the extra member it is about. *)
Lemma extras_candidates vouches p es s :
  let '(rows, rms) := foldl (extra_step d vouches p) s es in
  length s.1 ≤ length rows ∧
  ∃ news, rms = s.2 ++ news ∧
    Forall (λ r, rm_channel r = lc_name (pl_lc p) ∧ rm_row r < length rows ∧
      ∃ e, e ∈ es ∧ judge d vouches p e = MayRemove ∧ rm_key r = e_key e ∧ rm_member r = e_member e ∧
        rm_email r = m_Email (e_member e)) news.
Proof.
  revert s. induction es as [|e es IH]; intros s; simpl.
  { destruct s as [rows rms]. simpl. split; [done|]. exists []. by rewrite app_nil_r. }
  specialize (IH (extra_step d vouches p s e)). destruct (foldl _ _ es) as [rows rms] eqn:Hf.
  destruct IH as (Hlen&news&->&Hnews).
  assert (Forall (λ r, rm_channel r = lc_name (pl_lc p) ∧ rm_row r < length rows ∧
    ∃ e', e' ∈ e :: es ∧ judge d vouches p e' = MayRemove ∧ rm_key r = e_key e' ∧ rm_member r = e_member e' ∧
      rm_email r = m_Email (e_member e')) news) as Hnews'.
  { eapply Forall_impl; [exact Hnews|]. simpl. intros r (?&?&e'&?&?). split_and!; [done..|]. exists e'. split; [by right|done]. }
  unfold extra_step in Hlen |- *. destruct (verdict_row e (judge d vouches p e)) as [row|] eqn:Hrow; [|split; [done|]; by exists news].
  simpl in *. rewrite length_app in Hlen. simpl in Hlen. split; [lia|].
  destruct (judge d vouches p e) eqn:Hv; try (by exists news).
  exists (mkRemoval (lc_name (pl_lc p)) (e_key e) (e_member e) (m_Email (e_member e)) (length s.1) :: news).
  rewrite <- app_assoc. split; [done|]. constructor; [|done]. simpl. split_and!; [done|lia|].
  exists e. split_and!; [by left|done..].
Qed.

Lemma rows_of_candidates vouches p r : r ∈ (rows_of d vouches p).2 →
  rm_channel r = lc_name (pl_lc p) ∧ rm_row r < length (rows_of d vouches p).1 ∧
  ∃ e, e ∈ pl_extras p ∧ judge d vouches p e = MayRemove ∧ rm_key r = e_key e ∧ rm_member r = e_member e ∧
    rm_email r = m_Email (e_member e).
Proof.
  unfold rows_of. pose proof (extras_candidates vouches p (pl_extras p) (pl_rows p, [])) as H.
  destruct (foldl _ _ _) as [rows rms]. destruct H as (_&news&->&Hnews). simpl. intros Hr.
  rewrite Forall_forall in Hnews. by apply Hnews.
Qed.

(** Who may be removed. *)
Lemma judge_MayRemove vouches p e : judge d vouches p e = MayRemove →
  lc_strict (pl_lc p) = true ∧ is_shared (pl_lc p) = false ∧ ignored p e = false ∧ m_Guest (e_member e) = false ∧
  foreign d (e_member e) = false ∧ m_Email (e_member e) ≠ "" ∧
  Forall (settles vouches (lc_belongs (pl_lc p))) (e_addrs e).
Proof.
  unfold judge. destruct (ignored p e) eqn:Hi; [done|].
  destruct (strict_own p && m_Guest _); [done|]. destruct (strict_own p && foreign _ _); [done|].
  destruct (strict_own p && empty _); [done|]. destruct (strictRemovable d p e) eqn:Hs.
  - unfold strictRemovable in Hs. read_bools. intros Hjudge.
    destruct (Removal (e_addrs e) vouches (lc_belongs (pl_lc p))) as [reason remove] eqn:Hr.
    destruct remove; [|by destruct (negb (empty reason))].
    unfold strict_own in *. read_bools. split_and!; try done; [by apply empty_false|].
    apply Removal_true. by rewrite Hr.
  - by destruct (leaverCandidate d e && gone _ _).
Qed.

(** ** Lemmas: the plan a name finds *)

Definition plans_distinct : Prop :=
  NoDup (lc_name <$> List.filter (λ lc, bool_decide (lc_shared lc = None)) (pl_lc <$> d_plans d)).

Lemma is_shared_false lc : is_shared lc = false ↔ lc_shared lc = None.
Proof. unfold is_shared. by destruct (lc_shared lc). Qed.

Lemma distinct_places (l : list plan) i j p q :
  NoDup (lc_name <$> List.filter (λ lc, bool_decide (lc_shared lc = None)) (pl_lc <$> l)) →
  l !! i = Some p → l !! j = Some q → is_shared (pl_lc p) = false → is_shared (pl_lc q) = false →
  lc_name (pl_lc p) = lc_name (pl_lc q) → i = j.
Proof.
  rewrite !is_shared_false. revert i j. induction l as [|x l IH]; intros i j Hnd Hi Hj Hp Hq Heq; [done|].
  rewrite fmap_cons in Hnd. simpl in Hnd.
  assert (∀ k y, l !! k = Some y → lc_shared (pl_lc y) = None →
    lc_name (pl_lc y) ∈ lc_name <$> List.filter (λ lc, bool_decide (lc_shared lc = None)) (pl_lc <$> l)) as Hin.
  { intros k y Hk Hy. apply list_elem_of_fmap_2. apply elem_of_filter_bool. rewrite bool_decide_eq_true. split; [|done].
    by apply list_elem_of_fmap_2, (list_elem_of_lookup_2 _ k). }
  destruct i as [|i], j as [|j]; simplify_eq/=; [done|..].
  - rewrite bool_decide_eq_true_2 in Hnd by done. rewrite fmap_cons in Hnd. apply NoDup_cons in Hnd as [Hx _].
    destruct Hx. rewrite Heq. by eapply Hin.
  - rewrite bool_decide_eq_true_2 in Hnd by done. rewrite fmap_cons in Hnd. apply NoDup_cons in Hnd as [Hx _].
    destruct Hx. rewrite <- Heq. by eapply Hin.
  - f_equal. eapply IH; try done. case_bool_decide; [|done]. rewrite fmap_cons in Hnd. by apply NoDup_cons in Hnd as [_ ?].
Qed.

Lemma planNamed_self i p : plans_distinct → d_plans d !! i = Some p → is_shared (pl_lc p) = false →
  planNamed d (lc_name (pl_lc p)) = Some (i, p).
Proof.
  intros Hd Hi Hp. unfold planNamed. apply list_find_Some. split_and!; [done..|].
  intros j q Hj Hlt [Hn Hq]. assert (j = i); [|lia]. by eapply (distinct_places _ j i q p).
Qed.

Lemma planNamed_inv name i p : planNamed d name = Some (i, p) →
  d_plans d !! i = Some p ∧ lc_name (pl_lc p) = name ∧ is_shared (pl_lc p) = false.
Proof. unfold planNamed. intros (?&[? ?]&_)%list_find_Some. done. Qed.

(** ** Lemmas: the loop over the removals *)

Definition act_of (blocked : gset string) (ws_blocked : bool) (r : removal) : option Action :=
  if bool_decide (rm_channel r ∈ blocked) || ws_blocked then None
  else '(_, p) ← planNamed d (rm_channel r); ch ← rs_ch (pl_res p); Some (remove_action p ch r).

Lemma remove_fold blocked ws_blocked rms s s' :
  fold_m (remove_step d blocked ws_blocked) s rms = Ok s' →
  s'.2 = s.2 ++ omap (act_of blocked ws_blocked) rms ∧ length <$> s'.1 = length <$> s.1.
Proof.
  revert s. induction rms as [|r rms IH]; intros s; simpl.
  { intros [= <-]. by rewrite app_nil_r. }
  destruct (remove_step d blocked ws_blocked s r) as [s1|] eqn:Hs; [|done]. intros [H1 H2]%IH.
  unfold remove_step in Hs. unfold act_of at 1. destruct (planNamed d (rm_channel r)) as [[i p]|]; [|done].
  destruct (bool_decide _ || ws_blocked).
  - destruct (s.1 !! i ≫= _) as [row|]; [|done]. injection Hs as <-. simpl in *. split; [done|].
    rewrite H2. apply (list_eq _ _). intros k. rewrite !list_lookup_fmap.
    destruct (decide (k = i)) as [->|Hne]; [|by rewrite list_lookup_alter_ne].
    rewrite list_lookup_alter_eq. destruct (s.1 !! i); simpl; [|done]. by rewrite length_insert.
  - simpl. destruct (rs_ch (pl_res p)) as [ch|]; [|done]. simpl. injection Hs as <-. simpl in *. split; [|done].
    by rewrite H1, <- app_assoc.
Qed.

Lemma remove_fold_total blocked ws_blocked rms rows acts :
  (∀ r, r ∈ rms → ∃ i p n, planNamed d (rm_channel r) = Some (i, p) ∧ is_Some (rs_ch (pl_res p)) ∧
     (length <$> rows) !! i = Some n ∧ rm_row r < n) →
  ∃ s', fold_m (remove_step d blocked ws_blocked) (rows, acts) rms = Ok s'.
Proof.
  revert rows acts. induction rms as [|r rms IH]; intros rows acts Hall; simpl; [by eexists|].
  destruct (Hall r) as (i&p&n&Hp&[ch Hch]&Hn&Hlt); [by left|].
  destruct (remove_step d blocked ws_blocked (rows, acts) r) as [[rows1 acts1]|e] eqn:Hs.
  - apply IH. intros r' Hr'. destruct (remove_fold blocked ws_blocked [r] (rows, acts) (rows1, acts1)) as [_ Hlen];
      [simpl; by rewrite Hs|]. simpl in Hlen. rewrite Hlen. apply Hall. by right.
  - exfalso. unfold remove_step in Hs. rewrite Hp, Hch in Hs. simpl in Hs.
    rewrite list_lookup_fmap in Hn. destruct (rows !! i) as [l|] eqn:Hl; [|done]. simpl in Hn. injection Hn as <-.
    destruct (bool_decide _ || ws_blocked); [|done]. simpl in Hs.
    destruct (l !! rm_row r) eqn:Hrow; [done|]. apply lookup_ge_None in Hrow. lia.
Qed.

(** ** Lemmas: the breakers *)

Lemma breaker_state_spec confirmed removals ps s name :
  let s' := foldl (channel_breaker d confirmed removals) s ps in
  name ∈ br_blocked s' ↔ name ∈ br_blocked s ∨
    ∃ p, p ∈ ps ∧ lc_name (pl_lc p) = name ∧ is_shared (pl_lc p) = false ∧ in_channel name removals ≠ [] ∧
      blocks (breaker_over confirmed (in_channel name removals) (managedMembers d p)) = true.
Proof.
  revert s. induction ps as [|p ps IH]; intros s; simpl.
  { split; [by left|]. intros [?|(p&?%elem_of_nil&_)]; done. }
  rewrite IH. setoid_rewrite elem_of_cons.
  assert (name ∈ br_blocked (channel_breaker d confirmed removals s p) ↔ name ∈ br_blocked s ∨
    (lc_name (pl_lc p) = name ∧ is_shared (pl_lc p) = false ∧ in_channel name removals ≠ [] ∧
     blocks (breaker_over confirmed (in_channel name removals) (managedMembers d p)) = true)) as ->.
  { unfold channel_breaker. destruct (bool_decide (length _ = 0)) eqn:He; simpl.
    { read_bools. apply length_zero_iff_nil in He. split; [by left|]. intros [?|(<-&_&?&_)]; done. }
    read_bools. destruct (is_shared (pl_lc p)) eqn:Hs; [split; [by left|]; by intros [?|(_&?&_)]|].
    assert (in_channel (lc_name (pl_lc p)) removals ≠ []) as Hne by (by intros Hn; rewrite Hn in He).
    destruct (breaker_over _ _ _) as [b|] eqn:Hb; simpl.
    - destruct (b_Confirmed b) eqn:Hc; simpl.
      + split; [by left|]. intros [?|(<-&_&_&Hbl)]; [done|]. rewrite Hb in Hbl. simpl in Hbl. by rewrite Hc in Hbl.
      + rewrite elem_of_union, elem_of_singleton. split.
        * intros [->|?]; [right|by left]. split_and!; [done..|]. rewrite Hb. simpl. by rewrite Hc.
        * intros [?|(<-&_)]; auto.
    - split; [by left|]. intros [?|(<-&_&_&Hbl)]; [done|]. by rewrite Hb in Hbl. }
  naive_solver.
Qed.

(** What an operator confirmed, anywhere. *)
Definition confirms (confirmed : Confirmed) (fingerprint : string) : Prop :=
  fingerprint ≠ "" ∧ (cf_Workspace confirmed = fingerprint ∨ ∃ ch, cf_Channels confirmed !! ch = Some fingerprint).

Lemma covers_spec confirmed fp : covers confirmed fp ≠ "" ↔ confirms confirmed fp.
Proof.
  unfold covers, confirms. destruct (empty fp) eqn:He; [apply empty_true in He; naive_solver|]. apply empty_false in He.
  case_bool_decide as Hw; [naive_solver|]. case_bool_decide as Hc; rewrite elem_of_values in Hc; naive_solver.
Qed.

Lemma covers_same confirmed fp : covers confirmed fp ≠ "" → covers confirmed fp = fp.
Proof. unfold covers. by repeat case_match. Qed.

(** A set of removals the breaker lets through. *)
Definition allowed (confirmed : Confirmed) (removals : list removal) (total : nat) : Prop :=
  total = 0 ∨ size (people_of removals) * 2 ≤ total ∨ confirms confirmed (Fingerprint (line <$> removals)).

Lemma blocks_spec confirmed removals total :
  blocks (breaker_over confirmed removals total) = false ↔ allowed confirmed removals total.
Proof.
  unfold breaker_over, allowed. set (fp := Fingerprint _).
  destruct (CheckBreaker _ _ _ _) as [b|] eqn:Hb; simpl.
  - apply CheckBreaker_some in Hb as (Ht&_&_&_&Hc). rewrite negb_false_iff, Hc. rewrite <- covers_spec. fold fp. split.
    + intros [? _]. auto.
    + intros [?|[?|H]]; [lia..|]. split; [done|]. by apply covers_same.
  - apply CheckBreaker_none in Hb. naive_solver.
Qed.
End lemmas.

(** ** Lemmas: a whole decision *)

Definition removals_of (d : Draft) vouches : list removal := mjoin (decide_rows d vouches).*2.

Lemma Decide_inv d vouches confirmed dec : Draft_Decide d vouches confirmed = Ok dec →
  let rms := removals_of d vouches in
  dec_Actions dec = mjoin (pl_chanActs <$> d_plans d) ++ mjoin (pl_shareActs <$> d_plans d) ++
    mjoin (pl_inviteActs <$> d_plans d) ++
    omap (act_of d (br_blocked (channel_breakers d confirmed rms)) (blocks (workspace_breaker d confirmed rms))) rms.
Proof.
  intros H rms. unfold Draft_Decide, finish in H. fold (removals_of d vouches) in H. fold rms in H.
  apply bind_ok in H as ([rows acts]&Hf&H). apply remove_fold in Hf as [Hacts _]. simpl in Hacts.
  destruct (discoveredOrdinary d) as [found more]. injection H as <-. cbn [dec_Actions]. by rewrite Hacts.
Qed.

Lemma elem_of_removals d vouches r : r ∈ removals_of d vouches →
  ∃ i p e, d_plans d !! i = Some p ∧ e ∈ pl_extras p ∧ judge d vouches p e = MayRemove ∧
    rm_channel r = lc_name (pl_lc p) ∧ rm_key r = e_key e ∧ rm_member r = e_member e ∧ rm_email r = m_Email (e_member e) ∧
    rm_row r < length (rows_of d vouches p).1.
Proof.
  unfold removals_of, decide_rows. intros Hr. apply elem_of_mjoin_snd in Hr as (x&Hx&Hr).
  apply list_elem_of_fmap in Hx as (p&->&(i&Hi)%list_elem_of_lookup_1).
  apply rows_of_candidates in Hr as (?&?&e&?&?&?&?&?). exists i, p, e. auto 10.
Qed.

Definition kind_in (kinds : list Kind) (a : Action) : Prop := a_Kind a ∈ kinds.

Lemma plan_kinds inp lc p : derive inp lc = Ok p →
  Forall (kind_in [ActionCreate; ActionAdopt; ActionShareAccept]) (pl_chanActs p) ∧
  Forall (kind_in [ActionShareInvite]) (pl_shareActs p) ∧ Forall (kind_in [ActionInvite]) (pl_inviteActs p).
Proof.
  intros Hp. pose proof (derive_inv _ _ _ Hp) as (_&_&_&_&->&->&_). split; [|split].
  - unfold channel_actions, kind_in. destruct (rs_kind _); repeat constructor; apply (bool_decide_unpack _); vm_compute; exact I.
  - unfold shareActions. destruct (lc_shared lc) as [s|]; [|constructor]. destruct (_ && _); [|constructor]. simpl.
    apply Forall_forall. intros a Ha. apply list_elem_of_join in Ha as (l&Ha&(x&->&Hx)%list_elem_of_fmap).
    apply list_elem_of_fmap in Hx as (g&->&_). unfold share_guest in Ha.
    assert (∀ a, a ∈ (if empty (default "" (n_Bots inp !! g)) then [] else
      [mkAction ActionShareInvite (lc_name lc) (channel_id (resolve inp lc)) (lc_private lc) "" "" "" []
        ("the channel is shared with " +:+ g) (n_Workspace inp) g (default "" (n_Bots inp !! g)) "" true]) →
      kind_in [ActionShareInvite] a) as Hone.
    { intros b. destruct (empty (default "" _)); [by intros ?%elem_of_nil|]. intros ->%list_elem_of_singleton. by left. }
    destruct (rs_ch (resolve inp lc)) as [ch|]; [destruct (negb _ && _); [by apply elem_of_nil in Ha|];
      destruct (existsb _ _); [by apply elem_of_nil in Ha|]|]; apply Hone; by destruct (empty (default "" _)).
  - apply Forall_forall. intros a Ha. destruct (derive_invite _ _ _ _ Hp Ha) as (s&acct&_&_&_&_&_&_&_&_&_&_&->). by left.
Qed.

Section decided.
Context (inp : Input) (d : Draft) (Hd : Derive inp = Ok d).

Lemma decided_plan p : p ∈ d_plans d → pl_lc p ∈ layout (newResolver inp) ∧ derive inp (pl_lc p) = Ok p ∧ d_in d = inp.
Proof using Hd.
  intros Hp. destruct (Derive_plan _ _ _ Hd Hp) as [? ?]. by apply Derived in Hd as (_&?&_).
Qed.

Lemma decided_distinct : records_distinct (newResolver inp) → plans_distinct d.
Proof using Hd.
  intros H. unfold plans_distinct. destruct (Derive_names _ _ Hd) as [_ ->]. by apply layout_names.
Qed.

(** Each part of the changes has its own kinds. *)
Lemma decided_kind blocked ws (rms : list removal) a :
  a ∈ mjoin (pl_chanActs <$> d_plans d) ∨ a ∈ mjoin (pl_shareActs <$> d_plans d) ∨
  a ∈ mjoin (pl_inviteActs <$> d_plans d) ∨ a ∈ omap (act_of d blocked ws) rms →
  match a_Kind a with
  | ActionCreate | ActionAdopt | ActionShareAccept => ∃ p, p ∈ d_plans d ∧ a ∈ pl_chanActs p
  | ActionShareInvite => ∃ p, p ∈ d_plans d ∧ a ∈ pl_shareActs p
  | ActionInvite => ∃ p, p ∈ d_plans d ∧ a ∈ pl_inviteActs p
  | ActionRemove => a ∈ omap (act_of d blocked ws) rms
  end.
Proof using Hd.
  assert (∀ (f : plan → list Action) ks, (∀ p, p ∈ d_plans d → Forall (kind_in ks) (f p)) →
    a ∈ mjoin (f <$> d_plans d) → a_Kind a ∈ ks ∧ ∃ p, p ∈ d_plans d ∧ a ∈ f p) as Hpart.
  { intros f ks Hall Hin. apply list_elem_of_join in Hin as (l&Hl&(p&->&Hp)%list_elem_of_fmap).
    specialize (Hall p Hp). rewrite Forall_forall in Hall. split; [by apply Hall|eauto]. }
  assert (∀ p, p ∈ d_plans d → derive inp (pl_lc p) = Ok p) as Hder by (intros p Hp; by apply (decided_plan p Hp)).
  intros [Ha|[Ha|[Ha|Ha]]].
  - apply (Hpart pl_chanActs) with (ks := [ActionCreate; ActionAdopt; ActionShareAccept]) in Ha as [Hk He];
      [|intros p Hp; by apply (plan_kinds inp _ p (Hder p Hp))].
    apply elem_of_cons in Hk as [->|[->|[->|?%elem_of_nil]%elem_of_cons]%elem_of_cons]; done.
  - apply (Hpart pl_shareActs) with (ks := [ActionShareInvite]) in Ha as [->%list_elem_of_singleton He];
      [done|intros p Hp; by apply (plan_kinds inp _ p (Hder p Hp))].
  - apply (Hpart pl_inviteActs) with (ks := [ActionInvite]) in Ha as [->%list_elem_of_singleton He];
      [done|intros p Hp; by apply (plan_kinds inp _ p (Hder p Hp))].
  - pose proof Ha as (r&_&Hr)%list_elem_of_omap. unfold act_of in Hr. destruct (_ || _); [done|].
    destruct (planNamed d _) as [[i p]|]; [|done]. simpl in Hr. destruct (rs_ch _); [|done]. simpl in Hr.
    by injection Hr as <-.
Qed.

(** A candidate for removal is a member of a strict channel that exists. *)
Lemma decided_candidate vouches r : r ∈ removals_of d vouches → records_distinct (newResolver inp) →
  ∃ i p e ch id, d_plans d !! i = Some p ∧ p ∈ d_plans d ∧ planNamed d (rm_channel r) = Some (i, p) ∧
    e ∈ pl_extras p ∧ judge d vouches p e = MayRemove ∧ rm_channel r = lc_name (pl_lc p) ∧
    rm_key r = e_key e ∧ rm_member r = e_member e ∧ rm_email r = m_Email (e_member e) ∧
    rm_row r < length (rows_of d vouches p).1 ∧
    pl_res p = resolve inp (pl_lc p) ∧ existing (pl_res p) = Some ch ∧ rs_ch (pl_res p) = Some ch ∧
    id ∈ sl_Members ch ∧ id ≠ ob_BotUserID (n_Observed inp) ∧ ob_Members (n_Observed inp) !! id = Some (e_member e) ∧
    pl_members p = Some (list_to_set (sl_Members ch)).
Proof using Hd.
  intros Hr Hdist. apply elem_of_removals in Hr as (i&p&e&Hi&He&Hj&Hc&Hk&Hm&Hmail&Hrow).
  pose proof (list_elem_of_lookup_2 _ _ _ Hi) as Hp. destruct (decided_plan p Hp) as (_&Hder&_).
  pose proof (derive_inv _ _ _ Hder) as (_&Hres&_&Hmem&_).
  destruct (derive_extra _ _ _ _ Hder He) as (ch&id&Hex&Hch&Hid&Hbot&_&Hid'&_).
  destruct (judge_MayRemove _ _ _ _ Hj) as (_&Hs&_).
  exists i, p, e, ch, id. rewrite Hres, Hc. rewrite Hex in Hmem. split_and!; try done.
  apply planNamed_self; [by apply decided_distinct|done..].
Qed.
End decided.

(** The removals among the changes. *)
Lemma decided_removals inp d vouches confirmed dec name : Derive inp = Ok d → Draft_Decide d vouches confirmed = Ok dec →
  let rms := removals_of d vouches in
  List.filter (λ a, bool_decide (a_Kind a = ActionRemove ∧ a_Channel a = name)) (dec_Actions dec) =
  List.filter (λ a, bool_decide (a_Channel a = name))
    (omap (act_of d (br_blocked (channel_breakers d confirmed rms)) (blocks (workspace_breaker d confirmed rms))) rms).
Proof.
  intros Hd Hdec rms. rewrite (Decide_inv _ _ _ _ Hdec). fold rms. rewrite !List.filter_app.
  assert (∀ (f : plan → list Action) ks, (∀ q, q ∈ d_plans d → Forall (kind_in ks) (f q)) → ActionRemove ∉ ks →
    List.filter (λ a, bool_decide (a_Kind a = ActionRemove ∧ a_Channel a = name)) (mjoin (f <$> d_plans d)) = []) as Hnone.
  { intros f ks Hf Hks. apply filter_none. intros a (l&Ha&(q&->&Hq)%list_elem_of_fmap)%list_elem_of_join.
    apply bool_decide_eq_false. intros [Hk _]. specialize (Hf q Hq). rewrite Forall_forall in Hf.
    specialize (Hf a Ha). unfold kind_in in Hf. by rewrite Hk in Hf. }
  assert (∀ q, q ∈ d_plans d → derive inp (pl_lc q) = Ok q) as Hder by (intros q Hq; by apply (decided_plan inp d Hd q Hq)).
  rewrite (Hnone pl_chanActs [ActionCreate; ActionAdopt; ActionShareAccept]), (Hnone pl_shareActs [ActionShareInvite]),
    (Hnone pl_inviteActs [ActionInvite]);
    try (by apply (bool_decide_unpack _)); try (intros q Hq; by apply (plan_kinds inp _ q (Hder q Hq))).
  simpl. apply filter_agree_in. intros a (r&_&Hr)%list_elem_of_omap.
  assert (a_Kind a = ActionRemove) as Hk; [|by apply bool_decide_ext; naive_solver].
  unfold act_of in Hr. destruct (_ || _); [done|]. destruct (planNamed d _) as [[i q]|]; [|done]. simpl in Hr.
  destruct (rs_ch _); [|done]. by injection Hr as <-.
Qed.

(** One channel's removals, when it is not blocked. *)
Lemma acts_in_channel d blocked name rms :
  (∀ r, r ∈ rms → ∃ q ch, planNamed d (rm_channel r) = Some q ∧ rs_ch (pl_res q.2) = Some ch) → name ∉ blocked →
  (λ a, (a_Person a, a_User a)) <$> List.filter (λ a, bool_decide (a_Channel a = name)) (omap (act_of d blocked false) rms) =
  (λ r, (rm_key r, m_ID (rm_member r))) <$> in_channel name rms.
Proof.
  intros Hplan Hnb. unfold in_channel. induction rms as [|r rms IH]; [done|]. cbn [omap list_omap List.filter].
  destruct (Hplan r) as ([i q]&ch&Hq&Hch); [by left|].
  assert (IH' := IH (λ r' H, Hplan r' (proj2 (elem_of_cons _ _ _) (or_intror H)))). clear IH.
  unfold act_of at 1. rewrite Hq, orb_false_r. simpl in Hch. simpl. rewrite Hch.
  destruct (decide (rm_channel r = name)) as [Heq|Hne].
  - rewrite (bool_decide_eq_true_2 (rm_channel r = name)), Heq, (bool_decide_eq_false_2 (name ∈ blocked)) by done.
    simpl. rewrite ?Heq, (bool_decide_eq_true_2 (name = name)) by done. rewrite !fmap_cons. by f_equal.
  - rewrite (bool_decide_eq_false_2 (rm_channel r = name)) by done. case_bool_decide; [done|].
    simpl. by rewrite (bool_decide_eq_false_2 (rm_channel r = name)).
Qed.

(** A removal that is made is a candidate of its channel, which nothing blocks. *)
Lemma act_of_inv d blocked ws rms a :
  a ∈ omap (act_of d blocked ws) rms → ws = false ∧ a_Channel a ∉ blocked ∧ ∃ r, r ∈ in_channel (a_Channel a) rms.
Proof.
  intros (r&Hr&Hact)%list_elem_of_omap. unfold act_of in Hact. destruct (bool_decide _ || ws) eqn:Hb; [done|].
  apply orb_false_iff in Hb as [Hb%bool_decide_eq_false Hw]. destruct (planNamed d _) as [[i q]|]; [|done]. simpl in Hact.
  destruct (rs_ch _); [|done]. injection Hact as <-. simpl. split_and!; [done..|]. exists r.
  apply elem_of_filter_bool. by rewrite bool_decide_eq_true.
Qed.

(** When a channel's breaker blocks it. *)
Lemma channel_blocked inp d confirmed rms p : Derive inp = Ok d → records_distinct (newResolver inp) →
  p ∈ d_plans d → is_shared (pl_lc p) = false → in_channel (lc_name (pl_lc p)) rms ≠ [] →
  lc_name (pl_lc p) ∉ br_blocked (channel_breakers d confirmed rms) ↔
  allowed confirmed (in_channel (lc_name (pl_lc p)) rms) (managedMembers d p).
Proof.
  intros Hd Hdist Hp Hs Hne. rewrite <- blocks_spec. unfold channel_breakers.
  rewrite (breaker_state_spec d confirmed rms (d_plans d)). simpl. split.
  - intros Hno. apply not_true_iff_false. intros Hb. apply Hno. right. by exists p.
  - intros Hb [?%elem_of_empty|(q&Hq&Hn&Hqs&_&Hb')]; [done|].
    apply list_elem_of_lookup_1 in Hp as [i Hi]. apply list_elem_of_lookup_1 in Hq as [j Hj].
    assert (i = j) as -> by (eapply (distinct_places _ i j p q); [by apply decided_distinct with inp|done..]).
    assert (p = q) as -> by congruence. by rewrite Hb in Hb'.
Qed.

(** ** The properties *)

(** A decision is always reached.  From whatever a derivation yields, with any
    answers and any confirmations, the pass ends with a report: when no two console
    records of the workspace share a name, no row a removal points at is missing
    and no plan or channel it needs is nil. *)
Theorem Draft_Decide_reached inp d vouches confirmed :
  Derive inp = Ok d → records_distinct (newResolver inp) → ∃ dec, Draft_Decide d vouches confirmed = Ok dec.
Proof.
  intros Hd Hdist. unfold Draft_Decide, finish. fold (removals_of d vouches).
  set (rms := removals_of d vouches). set (blocked := br_blocked _). set (ws := blocks _).
  destruct (remove_fold_total d blocked ws rms (decide_rows d vouches).*1 []) as [[rows acts] Hf].
  - intros r Hr. destruct (decided_candidate _ _ Hd _ _ Hr Hdist) as (i&p&e&ch&id&Hi&_&Hp&_&_&_&_&_&_&Hrow&_&_&Hch&_).
    exists i, p, (length (rows_of d vouches p).1). split_and!; [done|by eexists| |done].
    unfold decide_rows. rewrite !list_lookup_fmap, Hi. done.
  - rewrite Hf. simpl. destruct (discoveredOrdinary d) as [found more]. by eexists.
Qed.

(** Nobody is removed who should stay.  A removal is from a strict channel of this
    workspace alone, one that exists, is not archived, is not a Slack Connect
    channel and is as private as asked.  The account is one Slack listed in the
    channel and identified; it is not the bot, a bot, deactivated, a guest or of
    another workspace, and it has an address.  The person is not among those the
    channel wants, nobody on its ignore list is them, by account or by any of
    their addresses, and the directory vouches, for every address known to be
    theirs, that it is not a live account in a group of the channel. *)
Lemma decided_removes inp d vouches confirmed dec a :
  Derive inp = Ok d → records_distinct (newResolver inp) → Draft_Decide d vouches confirmed = Ok dec →
  a ∈ dec_Actions dec → a_Kind a = ActionRemove →
  ∃ lc ch id m, lc ∈ layout (newResolver inp) ∧ lc_shared lc = None ∧ lc_strict lc = true ∧ a_Channel a = lc_name lc ∧
    taken inp lc (resolve inp lc) ch ∧ a_ChannelID a = sl_ID ch ∧
    id ∈ sl_Members ch ∧ id ≠ ob_BotUserID (n_Observed inp) ∧ id ∉ wanted_ids inp lc ∧
    ob_Members (n_Observed inp) !! id = Some m ∧ a_User a = m_ID m ∧ a_Email a = m_Email m ∧ m_Email m ≠ "" ∧
    m_Bot m = false ∧ m_Deleted m = false ∧ m_Guest m = false ∧
    (m_TeamID m = "" ∨ ob_TeamID (n_Observed inp) = "" ∨ m_TeamID m = ob_TeamID (n_Observed inp)) ∧
    a_Person a = personKey (newResolver inp) (m_Email m) ∧ (a_Person a = "" ∨ a_Person a ∉ p_key <$> lc_all lc) ∧
    (∀ entry, entry ∈ ch_Ignore (lc_binding lc) → normalise entry ≠ normalise (m_ID m) ∧
       normalise entry ∉ addressesOf (newResolver inp) (m_Email m)) ∧
    Forall (settles vouches (lc_belongs lc)) (addressesOf (newResolver inp) (m_Email m)).
Proof.
  intros Hd Hdist Hdec Ha Hkind. rewrite (Decide_inv _ _ _ _ Hdec) in Ha. rewrite !elem_of_app in Ha.
  apply (decided_kind inp d Hd) in Ha. rewrite Hkind in Ha.
  apply list_elem_of_omap in Ha as (r&Hr&Hact).
  destruct (decided_candidate _ _ Hd _ _ Hr Hdist) as (i&p&e&ch&id&_&Hp&Hplan&He&Hj&Hc&Hk&Hm&Hmail&_&Hres&Hex&Hch&_).
  unfold act_of in Hact. destruct (_ || _); [done|]. rewrite Hplan in Hact. simpl in Hact. rewrite Hch in Hact. injection Hact as <-.
  destruct (decided_plan inp d Hd p Hp) as (Hlc&Hderp&Hin).
  destruct (derive_extra _ _ _ _ Hderp He) as (ch'&id'&Hex'&_&Hid'&Hbot&Hw&Hmem&Hb&Hdel&Haddr).
  destruct (judge_MayRemove _ _ _ _ Hj) as (Hstrict&Hs&Hign&Hg&Hf&Hne&Hsettle).
  destruct (Haddr Hne) as (Hkey&Haddrs&Hwant). rewrite Hres in Hex. assert (ch' = ch) as -> by congruence.
  exists (pl_lc p), ch, id', (e_member e). cbn [remove_action a_Channel a_ChannelID a_User a_Email a_Person].
  rewrite Hm, Hk, Hmail, Hkey, <- Haddrs. rewrite Hkey in Hwant. split_and!; auto.
  - by apply is_shared_false.
  - by apply existing_taken.
  - unfold foreign in Hf. rewrite Hin, !andb_false_iff, !negb_false_iff, !empty_true, bool_decide_eq_true in Hf. tauto.
  - intros entry Hentry. unfold ignored, strict_own in Hign. rewrite Hstrict, Hs in Hign. simpl in Hign.
    assert (bool_decide (normalise entry = normalise (m_ID (e_member e))) || str_in (normalise entry) (e_addrs e) = false) as Hentry'.
    { apply not_true_iff_false. intros Ht. apply not_true_iff_false in Hign. apply Hign. apply existsb_exists.
      exists entry. split; [by apply list_elem_of_In|done]. }
    apply orb_false_iff in Hentry' as [H1%bool_decide_eq_false H2%str_in_false]. done.
Qed.

(** Removals are made all or none.  Those of a channel are exactly its candidates
    when the channel's breaker and the workspace's let them through, and none
    otherwise; a breaker lets a set through when it concerns at most half of the
    members other than the bot, each person counted once, or when an operator
    confirmed exactly that set, anywhere. *)
Theorem Draft_Decide_breakers inp d vouches confirmed dec p :
  Derive inp = Ok d → records_distinct (newResolver inp) → Draft_Decide d vouches confirmed = Ok dec →
  p ∈ d_plans d → is_shared (pl_lc p) = false →
  let candidates := removals_of d vouches in
  let here := in_channel (lc_name (pl_lc p)) candidates in
  let made := List.filter (λ a, bool_decide (a_Kind a = ActionRemove ∧ a_Channel a = lc_name (pl_lc p))) (dec_Actions dec) in
  let may := allowed confirmed here (managedMembers d p) ∧ allowed confirmed candidates (size (managed_users d)) in
  (may → (λ a, (a_Person a, a_User a)) <$> made = (λ r, (rm_key r, m_ID (rm_member r))) <$> here) ∧
  (¬ may → made = []).
Proof.
  intros Hd Hdist Hdec Hp Hs candidates here made may. set (name := lc_name (pl_lc p)) in *.
  assert (made = _) as Hmade by (by apply decided_removals with (1 := Hd)). fold candidates in Hmade.
  set (blocked := br_blocked (channel_breakers d confirmed candidates)) in Hmade.
  set (ws := blocks (workspace_breaker d confirmed candidates)) in Hmade.
  destruct (decide (here = [])) as [Hh|Hh].
  { assert (made = []) as ->; [|by rewrite Hh]. rewrite Hmade. apply filter_none.
    intros a (_&_&r&Hr)%act_of_inv. apply bool_decide_eq_false. intros Hc. rewrite Hc in Hr. fold here in Hr.
    rewrite Hh in Hr. by apply elem_of_nil in Hr. }
  assert (name ∉ blocked ↔ allowed confirmed here (managedMembers d p)) as Hblocked by (by apply (channel_blocked inp)).
  assert (ws = false ↔ allowed confirmed candidates (size (managed_users d))) as Hws.
  { rewrite <- blocks_spec. unfold ws, workspace_breaker. rewrite bool_decide_eq_false_2; [done|].
    intros Hl%length_zero_iff_nil. apply Hh. unfold here. by rewrite Hl. }
  split.
  - intros [Hb%Hblocked Hw%Hws]. rewrite Hmade, Hw. apply acts_in_channel; [|done]. intros r Hr.
    destruct (decided_candidate _ _ Hd _ _ Hr Hdist) as (i&q&e&ch&id&_&_&Hq&_&_&_&_&_&_&_&_&_&Hch&_). by exists (i, q), ch.
  - intros Hmay. rewrite Hmade. apply filter_none. intros a (Hw%Hws&Hb&_)%act_of_inv. apply bool_decide_eq_false.
    intros Hc. rewrite Hc in Hb. apply Hmay. split; [by apply Hblocked|done].
Qed.


(** What becomes of a channel.  One is created only when no channel of its name is
    visible, archived ones included; joined only when it is the public, active
    channel asked for; accepted only on the host's own invitation to this bot; and
    the host invites a guest's bot only when it knows it and the channel is neither
    shared with that workspace already nor offered to it.  Everything else is done
    in a channel that is being created or accepted, or that exists, active and of
    the declared visibility: never in one that is held. *)
Theorem Draft_Decide_channels inp d vouches confirmed dec a :
  Derive inp = Ok d → records_distinct (newResolver inp) → Draft_Decide d vouches confirmed = Ok dec → a ∈ dec_Actions dec →
  ∃ lc, lc ∈ layout (newResolver inp) ∧ a_Channel a = lc_name lc ∧ a_Private a = lc_private lc ∧ usable (resolve inp lc) = true ∧
    (∀ ch, rs_ch (resolve inp lc) = Some ch → taken inp lc (resolve inp lc) ch) ∧
    match a_Kind a with
    | ActionCreate => ∀ ch, ch ∈ ob_Channels (n_Observed inp) → sl_Name ch ≠ a_Channel a
    | ActionAdopt => ∃ ch, rs_ch (resolve inp lc) = Some ch ∧ a_ChannelID a = sl_ID ch ∧ sl_Private ch = false ∧ sl_BotIn ch = false
    | ActionShareAccept => ∃ s i, lc_shared lc = Some s ∧ sc_Host s ≠ n_Workspace inp ∧ i ∈ ob_Invites (n_Observed inp) ∧
        invites_here inp s lc i = true ∧ a_InviteID a = i_ID i
    | ActionShareInvite => ∃ s, lc_shared lc = Some s ∧ sc_Host s = n_Workspace inp ∧ a_Guest a ∈ sc_With s ∧
        a_GuestBot a ≠ "" ∧ n_Bots inp !! a_Guest a = Some (a_GuestBot a) ∧
        ∀ ch, rs_ch (resolve inp lc) = Some ch →
          (f_Team (facts_of inp (a_Guest a)) ≠ "" →
             f_Team (facts_of inp (a_Guest a)) ∉ sl_SharedTeamIDs ch ∧ f_Team (facts_of inp (a_Guest a)) ∉ sl_Teams ch) ∧
          (∀ i, i ∈ ob_Invites (n_Observed inp) → i_Incoming i = false → i_ChannelID i = sl_ID ch → i_RecipientUserID i ≠ a_GuestBot a)
    | ActionInvite | ActionRemove => True
    end.
Proof.
  intros Hd Hdist Hdec Ha. rewrite (Decide_inv _ _ _ _ Hdec), !elem_of_app in Ha.
  apply (decided_kind inp d Hd) in Ha.
  assert (∀ lc ch, usable (resolve inp lc) = true → rs_ch (resolve inp lc) = Some ch → taken inp lc (resolve inp lc) ch) as Htaken.
  { intros lc ch Hu Hch. apply existing_taken. unfold existing. by rewrite Hu. }
  destruct (a_Kind a) eqn:Hkind.
  - destruct Ha as (p&Hp&Ha). destruct (decided_plan inp d Hd p Hp) as (Hlc&Hder&_).
    by apply (channel_action_spec inp (pl_lc p) p a) in Ha as (?&?&?&H); [exists (pl_lc p); rewrite Hkind in H; split_and!; eauto|].
  - destruct Ha as (p&Hp&Ha). destruct (decided_plan inp d Hd p Hp) as (Hlc&Hder&_).
    by apply (channel_action_spec inp (pl_lc p) p a) in Ha as (?&?&?&H); [exists (pl_lc p); rewrite Hkind in H; split_and!; eauto|].
  - destruct Ha as (p&Hp&Ha). destruct (decided_plan inp d Hd p Hp) as (Hlc&Hder&_).
    destruct (derive_invite _ _ _ _ Hder Ha) as (s&acct&_&_&_&_&_&_&_&_&Hu&_&->). exists (pl_lc p). split_and!; eauto.
  - apply list_elem_of_omap in Ha as (r&Hr&Hact).
    destruct (decided_candidate _ _ Hd _ _ Hr Hdist) as (i&p&e&ch&id&_&Hp&Hplan&_&_&Hc&_&_&_&_&Hres&Hex&Hch&_).
    destruct (decided_plan inp d Hd p Hp) as (Hlc&_&_).
    unfold act_of in Hact. destruct (_ || _); [done|]. rewrite Hplan in Hact. simpl in Hact. rewrite Hch in Hact. injection Hact as <-.
    rewrite Hres in Hex. assert (usable (resolve inp (pl_lc p)) = true) as Hu by (unfold existing in Hex; by destruct (usable _)).
    exists (pl_lc p). split_and!; eauto.
  - destruct Ha as (p&Hp&Ha). destruct (decided_plan inp d Hd p Hp) as (Hlc&Hder&_).
    by apply (share_action_spec inp (pl_lc p) p a) in Ha as (?&?&?&H); [exists (pl_lc p); split_and!; eauto|].
  - destruct Ha as (p&Hp&Ha). destruct (decided_plan inp d Hd p Hp) as (Hlc&Hder&_).
    by apply (channel_action_spec inp (pl_lc p) p a) in Ha as (?&?&?&H); [exists (pl_lc p); rewrite Hkind in H; split_and!; eauto|].
Qed.

(** *** What the answers are needed for *)

Lemma elem_of_Confirm d p e address : p ∈ d_plans d → e ∈ pl_extras p →
  strictRemovable d p e || leaverCandidate d e = true → address ∈ e_addrs e → address ∈ Draft_Confirm d.
Proof.
  intros Hp He Hask Ha. unfold Draft_Confirm. rewrite elem_of_sort_strings, elem_of_elements, elem_of_list_to_set, list_elem_of_join.
  eexists. split; [|apply list_elem_of_fmap_2, Hp]. simpl. apply list_elem_of_join.
  eexists. split; [|apply list_elem_of_fmap_2, He]. simpl. by rewrite Hask.
Qed.

Lemma gone_agree addrs v1 v2 : (∀ a, a ∈ addrs → v1 !! a = v2 !! a) → gone addrs v1 = gone addrs v2.
Proof.
  intros H. unfold gone. f_equal. induction addrs as [|a addrs IH]; [done|]. simpl.
  rewrite (H a) by (by left). rewrite IH; [done|]. intros; apply H; by right.
Qed.

Lemma judge_agree d v1 v2 p e : (∀ a, a ∈ Draft_Confirm d → v1 !! a = v2 !! a) → p ∈ d_plans d → e ∈ pl_extras p →
  judge d v1 p e = judge d v2 p e ∧ has_left d v1 p e = has_left d v2 p e.
Proof.
  intros Hagree Hp He.
  assert (strictRemovable d p e || leaverCandidate d e = true → ∀ a, a ∈ e_addrs e → v1 !! a = v2 !! a) as Hall.
  { intros Hask a Ha. by eapply Hagree, elem_of_Confirm. }
  assert (judge d v1 p e = judge d v2 p e) as Hj.
  { unfold judge. destruct (strictRemovable d p e).
    - rewrite (Removal_agree (e_addrs e) v1 v2); [done|]. by apply Hall.
    - destruct (leaverCandidate d e); [|done]. rewrite (gone_agree (e_addrs e) v1 v2); [done|]. by apply Hall. }
  split; [done|]. unfold has_left. rewrite Hj. destruct (judge d v2 p e); [|done..].
  destruct (leaverCandidate d e) eqn:Hl; [|done]. simpl. apply gone_agree, Hall. by rewrite orb_true_r.
Qed.

Lemma foldl_agree {A B} (f g : A → B → A) l a : (∀ a b, b ∈ l → f a b = g a b) → foldl f a l = foldl g a l.
Proof.
  revert a. induction l as [|b l IH]; intros a H; [done|]. simpl. rewrite (H a b) by (by left).
  apply IH. intros. apply H. by right.
Qed.

(** Asking about the addresses [Confirm] names is enough: two sets of answers that
    agree on them lead to the same decision, report, changes and holds alike. *)
Theorem Draft_Decide_asked inp d v1 v2 confirmed : Derive inp = Ok d →
  (∀ address, address ∈ Draft_Confirm d → v1 !! address = v2 !! address) →
  Draft_Decide d v1 confirmed = Draft_Decide d v2 confirmed.
Proof.
  intros _ H. unfold Draft_Decide. f_equal.
  - apply fmap_agree. intros p Hp. unfold rows_of. apply foldl_agree. intros s e He. unfold extra_step.
    by destruct (judge_agree d v1 v2 p e H Hp He) as [-> _].
  - apply foldl_agree. intros into p Hp. apply foldl_agree. intros into' e He.
    by destruct (judge_agree d v1 v2 p e H Hp He) as [_ ->].
Qed.

(** ** Witnesses: a strict channel one member left, and one of the new people is not in *)

Definition sample_input : Input :=
  mkInput "team" {["team" := sample_workspace]} {["team" := mkFacts "T1" "acme" ["acme.test"]]}
    {["ann" := ["ann@acme.test"; "ann@old.test"]]}
    {["rung:sre" := [mkHolder "ann@old.test" true; mkHolder "dan@acme.test" true; mkHolder "eve@acme.test" true]]} [] [] ∅ ∅ ∅ ∅ ∅
    (mkObserved "T1" "UBOT"
       [mkChannel "C0123ABCD" "oncall" "UADMIN" true true false false false [] "" [] 5 ["UBOT"; "UANN"; "UBOB"; "UGUEST"; "UEVE"] true;
        mkChannel "C1" "general" "UADMIN" false false true false false [] "" [] 9 [] true]
       (<["ann@acme.test" := mkAccount "UANN" true false false false "T1"]>
          (<["eve@acme.test" := mkAccount "UEVE" true false false false "T1"]>
             {["dan@acme.test" := mkAccount "UDAN" true false false false "T1"]}))
       (<["UBOB" := mkMember "UBOB" "Bob@acme.test" "T1" false false false]>
          {["UGUEST" := mkMember "UGUEST" "guest@acme.test" "T1" false false true]}) []).

Definition sample_draft : Draft :=
  match Derive sample_input with Ok d => d | Err _ => mkDraft sample_input (newResolver sample_input) [] end.
Definition sample_vouches : gmap string Vouch := {["bob@acme.test" := mkVouch true true false ["other"] []]}.
Definition sample_decision : Decision :=
  match Draft_Decide sample_draft sample_vouches (mkConfirmed "" ∅) with
  | Ok dec => dec
  | Err _ => mkDecision (mkReport "" "" (mkTick 0 0 0 0) [] [] [] 0 [] None) [] [] []
  end.

Definition sample_removal : Action :=
  mkAction ActionRemove "oncall" "C0123ABCD" true "UBOB" "bob@acme.test" "Bob@acme.test" ["rung:sre"]
    "the directory vouches that they no longer hold rung:sre" "" "" "" "" false.
Definition sample_invite : Action :=
  mkAction ActionInvite "oncall" "C0123ABCD" true "UDAN" "dan@acme.test" "dan@acme.test" ["rung:sre"]
    "holds rung:sre" "" "" "" "" false.

Example sample_slack_changes : (λ a, (a_Kind a, a_Channel a, a_User a)) <$> dec_Actions sample_decision =
  [(ActionAdopt, "general", ""); (ActionInvite, "general", "UANN"); (ActionInvite, "general", "UDAN");
   (ActionInvite, "general", "UEVE"); (ActionInvite, "oncall", "UDAN"); (ActionRemove, "oncall", "UBOB")].
Proof. vm_compute. reflexivity. Qed.

Lemma sample_derived : Derive sample_input = Ok sample_draft.
Proof. vm_compute. reflexivity. Qed.
Lemma sample_distinct : records_distinct (newResolver sample_input).
Proof. constructor. Qed.
Lemma sample_decided : Draft_Decide sample_draft sample_vouches (mkConfirmed "" ∅) = Ok sample_decision.
Proof. vm_compute. reflexivity. Qed.

Lemma Draft_Decide_reached_witness : ∃ dec, Draft_Decide sample_draft ∅ (mkConfirmed "" ∅) = Ok dec.
Proof. exact (Draft_Decide_reached sample_input sample_draft ∅ (mkConfirmed "" ∅) sample_derived sample_distinct). Defined.

Lemma Draft_Decide_breakers_witness : allowed (mkConfirmed "" ∅) (removals_of sample_draft sample_vouches) 4 ∧
  ∃ p, p ∈ d_plans sample_draft ∧ lc_name (pl_lc p) = "oncall" ∧
    in_channel "oncall" (removals_of sample_draft sample_vouches) ≠ [].
Proof.
  assert (∃ p, d_plans sample_draft !! 1 = Some p) as [p Hp] by (eexists; vm_compute; reflexivity).
  assert (lc_name (pl_lc p) = "oncall" ∧ is_shared (pl_lc p) = false) as [Hn Hs] by (vm_compute in Hp; injection Hp as <-; done).
  pose proof (list_elem_of_lookup_2 _ _ _ Hp) as Hin.
  destruct (Draft_Decide_breakers sample_input sample_draft sample_vouches (mkConfirmed "" ∅) sample_decision p
    sample_derived sample_distinct sample_decided Hin Hs) as [_ _].
  split; [right; left; vm_compute; lia|]. exists p. split; [done|]. split; [done|]. vm_compute. done.
Defined.


Lemma Draft_Decide_channels_witness : ∃ lc, lc ∈ layout (newResolver sample_input) ∧ lc_name lc = "oncall" ∧
  usable (resolve sample_input lc) = true.
Proof.
  destruct (Draft_Decide_channels sample_input sample_draft sample_vouches (mkConfirmed "" ∅) sample_decision sample_invite
    sample_derived sample_distinct sample_decided) as (lc&Hlc&Hn&_&Hu&_);
    [eapply (list_elem_of_lookup_2 _ 4); vm_compute; reflexivity|]. exists lc. auto.
Defined.

Lemma Draft_Decide_asked_witness :
  Draft_Decide sample_draft sample_vouches (mkConfirmed "" ∅) =
  Draft_Decide sample_draft (<["ann@acme.test" := mkVouch true false false [] []]> sample_vouches) (mkConfirmed "" ∅).
Proof.
  apply (Draft_Decide_asked sample_input sample_draft _ _ _ sample_derived). intros address Hin.
  assert (Draft_Confirm sample_draft = ["bob@acme.test"]) as Heq by (vm_compute; reflexivity).
  rewrite Heq in Hin. apply list_elem_of_singleton in Hin as ->. vm_compute. reflexivity.
Defined.
