(* ===== verification/SlackApply.v ===== *)
(** * SlackApply: reading a Slack workspace whole, and carrying a decision out

    [internal/slackroster/apply]: observe.go reads everything a decision rests on, or fails;
    apply.go makes the changes of a decision, one after the other.  Slack, the cache of who a
    user is, the console and the store of reports are calls whose answers are anything
    ([slack_call]); what a pass does with both is [SlackPass].

    The theorems: what is read is all that [Derive] needs, so a workspace that could be read
    is never decided on a hole; and each action has one outcome, in order, with at most one
    call to Slack, none in a dry run.

    Metrics and log lines are left out; an audit record is what it is about. *)

From S2P Require Import Prelude GoStrings Runs Policy SlackPolicy Rails SlackData SlackLayout SlackDerive SlackDecide Journal.

Implicit Types (workspace name id address email user group : string).

(** ** What Slack answers with *)

(** [internal/slackapp/client.go:type User] *)
Record User := mkUser {
  us_ID : string; us_TeamID : string; us_Deleted : bool; us_IsBot : bool; us_IsRestricted : bool; us_IsUltraRestricted : bool;
  us_IsAppUser : bool; us_Email : string }.
(** [internal/slackapp/client.go:User.IsAutomated] *)
Definition IsAutomated (u : User) : bool := us_IsBot u || us_IsAppUser u.
(** [internal/slackapp/client.go:User.IsGuest] *)
Definition IsGuest (u : User) : bool := us_IsRestricted u || us_IsUltraRestricted u.

(** [internal/slackapp/client.go:type Channel]; its members are not listed with it. *)
Record ListedChannel := mkListedChannel {
  lch_ID : string; lch_Name : string; lch_IsPrivate : bool; lch_IsArchived : bool; lch_IsGeneral : bool; lch_IsMember : bool;
  lch_IsExtShared : bool; lch_SharedTeamIDs : list string; lch_ConnectedTeamIDs : list string; lch_PendingShared : list string;
  lch_PendingConnected : list string; lch_InternalTeamIDs : list string; lch_HostID : string; lch_NumMembers : Z; lch_Creator : string }.
(** [internal/slackapp/client.go:Channel.Teams] *)
Definition Teams (c : ListedChannel) : list string :=
  foldl (λ out id, if negb (empty id) then appendNew out id else out) []
    (lch_HostID c :: lch_SharedTeamIDs c ++ lch_ConnectedTeamIDs c ++ lch_PendingShared c ++ lch_PendingConnected c ++ lch_InternalTeamIDs c).

(** [internal/slackapp/client.go:type ConnectInvite] *)
Record ConnectInvite := mkConnectInvite {
  ci_Direction : string; ci_ID : string; ci_InvitingTeam : string; ci_ChannelID : string; ci_ChannelName : string; ci_Recipient : string }.

(** Why a channel was not created: its name is taken, or anything else. *)
Inductive create_error := NameTaken | NotCreated (why : string).

(** The console's word on a directory group, and on an address. *)
Record GroupAnswer := mkGroupAnswer {
  ga_Email : string; ga_Found : bool; ga_Truncated : bool; ga_Owner : string; ga_Nested : list string;
  ga_Members : list (string * bool * bool) }.
Record UserAnswer := mkUserAnswer { ua_Email : string; ua_Owner : string; ua_Found : bool; ua_Live : bool }.

(** [internal/slackroster/connection/connection.go:type Record]: what a pass reads of it. *)
Record SlackRecord := mkSlackRecord { sr_Workspace : string; sr_TeamID : string; sr_Owner : string; sr_BotUserID : string }.
(** [internal/slackroster/connection/connection.go:type Confirmation] *)
Record Confirmation := mkConfirmation { cn_Workspace : string; cn_Channel : string; cn_Fingerprint : string; cn_At : Z }.

(** What a pass asks; [string] is an error's words, [None] no error, an [option string] one. *)
Inductive slack_call : Type → Type :=
| AuthTest : slack_call (result string (string * string))
| LookupByEmail address : slack_call (result string (option User))
| AllChannels : slack_call (result string (list ListedChannel))
| MembersOf id : slack_call (result string (list string))
| CacheGet workspace user : slack_call (option Member)
| UserInfo user : slack_call (result string User)
| CachePut workspace (m : Member) : slack_call unit
| ConnectInvites : slack_call (result string (list ConnectInvite))
| CreateChannel name (private : bool) : slack_call (result create_error string)
| JoinChannel id : slack_call (option string)
| AcceptSharedInvite (invite : string) name (private : bool) : slack_call (result string string)
| InviteShared id user (limited : bool) : slack_call (result string string)
| InviteUser id user : slack_call (option string)
| Kick id user : slack_call (option string)
| ListHolders group : slack_call (result string (list Holder * string))
| ResolveGroups (groups : list string) : slack_call (result string (list GroupAnswer * string))
| ResolveUsers (users : list string) : slack_call (result string (list UserAnswer * string))
| ListServedDomains : slack_call (result string (list (string * list string)))
| Explain email : slack_call (result string (Vouch * string))
| ReadRecords : slack_call (option (list SlackRecord))
| ReadCredential workspace : slack_call (result string (option string))
| ReadShared : slack_call (option (list (string * SharedChannel * option string)))
| ReadChannels : slack_call (option (list (string * string * ConsoleChannel * option string)))
| ReadConfirmations : slack_call (option (gmap string Confirmation))
| OfferShare (host channel id guest invite : string) : slack_call bool
| ShareAccepted (host channel id guest : string) : slack_call bool
| Notify workspace : slack_call bool
| ProbeChannel workspace id : slack_call (result string ListedChannel)
| RecordsDigest : slack_call (option string)
| TakeLease workspace : slack_call (option bool)
| InJournal {B} (c : report_call B) : slack_call B.

(** ** Observing *)

Inductive observe_error := Undeclared workspace | ErrWrongWorkspace | Unread (why : string).
Definition reads_ {A} (c : slack_call (result string A)) : prog slack_call (result observe_error A) := ask_by Unread c.

(** [internal/slackroster/apply/observe.go:78-84 ObserveCached]: what an address is. *)
Definition account_of (u : User) : Account := mkAccount (us_ID u) true (us_Deleted u) (IsGuest u) (IsAutomated u) (us_TeamID u).
Definition no_account : Account := mkAccount "" false false false false "".
Definition member_of id email (u : User) : Member := mkMember id email (us_TeamID u) (IsAutomated u) (us_Deleted u) (IsGuest u).

Fixpoint look_up (addresses : list string) (accounts : gmap string Account) (members : gmap string Member) :
    prog slack_call (result observe_error (gmap string Account * gmap string Member)) :=
  match addresses with
  | [] => Ret (Ok (accounts, members))
  | address :: rest =>
      then_ (reads_ (LookupByEmail address)) (λ found,
      match found with
      | None => look_up rest (<[address := no_account]> accounts) members
      | Some u => look_up rest (<[address := account_of u]> accounts) (<[us_ID u := member_of (us_ID u) address u]> members)
      end)
  end.

Section observe.
Context (inp : Input).
Notation ws := (n_Workspace inp).

(** [internal/slackroster/apply/observe.go:named]: by name, and by id. *)
Definition named (cfg : SlackWorkspace) : gset string * gset string :=
  let policy := map_to_list (w_Channels cfg) in
  let console := List.filter (λ c, bool_decide (cc_Workspace c = ws)) (n_Console inp) in
  let shared := List.filter (λ s, bool_decide (sc_Host s = ws) || str_in ws (sc_With s)) (n_Shared inp) in
  (list_to_set ((List.filter (λ nb : string * SlackChannel, empty (ch_Adopt nb.2)) policy).*1 ++
     (cc_Name <$> List.filter (λ c, empty (cc_ChannelID c)) console) ++ (sc_Name <$> shared)),
   list_to_set ((ch_Adopt <$> (List.filter (λ nb : string * SlackChannel, negb (empty (ch_Adopt nb.2))) policy).*2) ++
     List.filter (λ id, negb (empty id)) (cc_ChannelID <$> console) ++ List.filter (λ id, negb (empty id)) (sc_ChannelID <$> shared))).

(** [internal/slackroster/apply/observe.go:involved] *)
Definition involved : bool := existsb (λ s, bool_decide (sc_Host s = ws) || str_in ws (sc_With s)) (n_Shared inp).

(** [internal/slackroster/apply/observe.go:100-104 ObserveCached] *)
Definition listed (c : ListedChannel) (members : list string) (known : bool) : Channel :=
  mkChannel (lch_ID c) (lch_Name c) (lch_Creator c) (lch_IsPrivate c) (lch_IsMember c) (lch_IsGeneral c) (lch_IsArchived c)
    (lch_IsExtShared c) (lch_SharedTeamIDs c) (lch_HostID c) (Teams c) (lch_NumMembers c) members known.

(** [internal/slackroster/apply/observe.go:105-105 ObserveCached]: a channel a decision may
    need the members of. *)
Definition wants_members (names ids : gset string) (c : ListedChannel) : bool :=
  negb (lch_IsArchived c) && (bool_decide (lch_Name c ∈ names) || bool_decide (lch_ID c ∈ ids)) && (lch_IsMember c || negb (lch_IsPrivate c)).

(** [internal/slackroster/apply/observe.go:98-113 ObserveCached] *)
Fixpoint read_channels (names ids : gset string) (channels : list ListedChannel) : prog slack_call (result observe_error (list Channel)) :=
  match channels with
  | [] => Ret (Ok [])
  | c :: rest =>
      then_ (if wants_members names ids c
             then then_ (reads_ (MembersOf (lch_ID c))) (λ members, Ret (Ok (listed c members true)))
             else Ret (Ok (listed c [] false))) (λ channel,
      then_ (read_channels names ids rest) (λ channels, Ret (Ok (channel :: channels))))
  end.

(** [internal/slackroster/apply/observe.go:116-142 ObserveCached]: who everyone else is, from
    the cache where there is one. *)
Fixpoint identify (cached : bool) (bot : string) (users : list string) (members : gmap string Member) :
    prog slack_call (result observe_error (gmap string Member)) :=
  match users with
  | [] => Ret (Ok members)
  | user :: rest =>
      if bool_decide (user = bot) || bool_decide (is_Some (members !! user)) then identify cached bot rest members
      else
        let ask :=
          then_ (reads_ (UserInfo user)) (λ u,
          let m := member_of user (normalise (us_Email u)) u in
          if cached then Do (CachePut ws m) (λ _, identify cached bot rest (<[user := m]> members))
          else identify cached bot rest (<[user := m]> members)) in
        if cached then
          Do (CacheGet ws user) (λ hit, match hit with Some m => identify cached bot rest (<[user := m]> members) | None => ask end)
        else ask
  end.

(** [internal/slackroster/apply/observe.go:152-155 ObserveCached] *)
Definition invite_of (i : ConnectInvite) : Invite :=
  mkInvite (ci_ID i) (bool_decide (ci_Direction i = "incoming")) (ci_InvitingTeam i) (ci_ChannelID i) (ci_ChannelName i) (ci_Recipient i).

(** [internal/slackroster/apply/observe.go:ObserveCached]; [Observe] is it with no cache. *)
Definition ObserveCached (cached : bool) : prog slack_call (result observe_error Observed) :=
  match n_Workspaces inp !! ws with
  | None => Ret (Err (Undeclared ws))
  | Some cfg =>
      then_ (reads_ AuthTest) (λ '(team, bot),
      let recorded := f_Team (facts_of inp ws) in
      if empty recorded || negb (bool_decide (team = recorded)) then Ret (Err ErrWrongWorkspace)
      else
        then_ (look_up (Lookups inp) ∅ ∅) (λ '(accounts, members),
        then_ (reads_ AllChannels) (λ listing,
        let '(names, ids) := named cfg in
        then_ (read_channels names ids listing) (λ channels,
        then_ (identify cached bot (mjoin (sl_Members <$> channels)) members) (λ members,
        then_ (if involved then reads_ ConnectInvites else Ret (Ok [])) (λ invites,
        Ret (Ok (mkObserved team bot channels accounts members (invite_of <$> invites)))))))))
  end.
End observe.

(** ** Applying *)

(** [internal/slackroster/apply/apply.go:type Outcome] *)
Record Outcome := mkOutcome {
  oc_Action : Action; oc_Done : bool; oc_Err : option string; oc_Skipped : string; oc_Held : string }.

(** An audit record of an action: what was done, in which channel, and what Slack refused. *)
Record applied := mkApplied { ap_Action : Action; ap_ID : string; ap_refused : option string }.

(** [internal/slackroster/apply/apply.go:TakenReason] *)
Definition TakenReason name : string :=
  "a private channel named " +:+ name +:+ " exists that the bot cannot see; invite the bot to it " +:+
  "(or, if it is archived, unarchive it in Slack or rename it): the roster never creates a second channel under another name".

(** [internal/slackroster/apply/apply.go:170-170 errNoChannel] *)
Definition errNoChannel : string := "apply: the channel this depends on does not exist".
Definition outcome (a : Action) (err : option string) : Outcome := mkOutcome a (bool_decide (err = None)) err "" "".
Definition no_channel (a : Action) : Outcome := mkOutcome a false (Some errNoChannel) "the channel was not made" "".

(** [internal/slackroster/apply/apply.go:103-165 Apply]: one action, with the ids of the
    channels made so far and its record. *)
Definition apply_one (limited : bool) (a : Action) (ids : gmap string string) : prog slack_call (Outcome * gmap string string * list applied) :=
  let id := if empty (a_ChannelID a) then default "" (ids !! a_Channel a) else a_ChannelID a in
  let ended err ids at_ := (outcome a err, ids, [mkApplied a at_ err]) in
  match a_Kind a with
  | ActionCreate =>
      Do (CreateChannel (a_Channel a) (a_Private a)) (λ r, Ret (
        match r with
        | Ok made => ended None (<[a_Channel a := made]> ids) made
        | Err NameTaken => (mkOutcome a false None "" (TakenReason (a_Channel a)), ids, [])
        | Err (NotCreated why) => ended (Some why) ids id
        end))
  | ActionAdopt =>
      Do (JoinChannel (a_ChannelID a)) (λ err, Ret (
        match err with None => ended None (<[a_Channel a := a_ChannelID a]> ids) id | Some why => ended (Some why) ids id end))
  | ActionShareAccept =>
      Do (AcceptSharedInvite (a_InviteID a) (a_Channel a) (a_Private a)) (λ r, Ret (
        match r with Ok accepted => ended None (<[a_Channel a := accepted]> ids) accepted | Err why => ended (Some why) ids "" end))
  | ActionShareInvite =>
      if empty id then Ret (no_channel a, ids, [])
      else Do (InviteShared id (a_GuestBot a) limited) (λ r, Ret (ended (match r with Ok _ => None | Err why => Some why end) ids id))
  | ActionInvite =>
      if empty id then Ret (no_channel a, ids, [])
      else Do (InviteUser id (a_User a)) (λ err, Ret (ended err ids id))
  | ActionRemove => Do (Kick id (a_User a)) (λ err, Ret (ended err ids id))
  end.

(** [internal/slackroster/apply/apply.go:Apply] *)
Fixpoint Apply (dry limited : bool) (actions : list Action) (ids : gmap string string) :
    prog slack_call (list Outcome * gmap string string * list applied) :=
  match actions with
  | [] => Ret ([], ids, [])
  | a :: rest =>
      if dry then prog_bind (Apply dry limited rest ids) (λ '(outcomes, ids, records), Ret (mkOutcome a false None "dry run" "" :: outcomes, ids, records))
      else
        prog_bind (apply_one limited a ids) (λ '(o, ids, made),
        prog_bind (Apply dry limited rest ids) (λ '(outcomes, ids, records), Ret (o :: outcomes, ids, made ++ records)))
  end.

(** [internal/slackroster/apply/apply.go:Result.Done] *)
Definition Done (outcomes : list Outcome) : nat := length (List.filter oc_Done outcomes).
(** [internal/slackroster/apply/apply.go:Result.Failed] *)
Definition Failed (outcomes : list Outcome) : nat := length (List.filter (λ o, negb (bool_decide (oc_Err o = None))) outcomes).

(** ** Runs *)

(** One change of Slack. *)
Inductive change :=
| Creates name (private : bool) | Joins id | Accepts (invite : string) name (private : bool) | Shares id user | Invites id user | Kicks id user.

(** A call with its answer, of those the theorems speak of. *)
Inductive seen :=
| SawLookup address (r : result string (option User))
| SawMembersOf id (r : result string (list string))
| SawUser user (r : result string User)
| SawCached user (m : Member)
| SawChange (c : change) (r : result create_error string)
| SawHolders group (r : result string (list Holder * string))
| SawGroups (groups : list string) (r : result string (list GroupAnswer * string))
| SawUsers (users : list string) (r : result string (list UserAnswer * string))
| SawExplained email (r : result string (Vouch * string))
| SawOther.
(** What Slack said of a change: the id of the channel it made, "" of a change that makes none. *)
Definition accepted (err : option string) : result create_error string := match err with None => Ok "" | Some why => Err (NotCreated why) end.
Definition made_as {A} (id : A → string) (r : result string A) : result create_error string :=
  match r with Ok a => Ok (id a) | Err why => Err (NotCreated why) end.
Definition See {B} (c : slack_call B) : B → seen :=
  match c in slack_call B return B → seen with
  | LookupByEmail address => SawLookup address
  | MembersOf id => SawMembersOf id
  | UserInfo user => SawUser user
  | CacheGet _ user => λ hit, match hit with Some m => SawCached user m | None => SawOther end
  | CreateChannel name private => SawChange (Creates name private)
  | JoinChannel id => λ err, SawChange (Joins id) (accepted err)
  | AcceptSharedInvite invite name private => λ r, SawChange (Accepts invite name private) (made_as id r)
  | InviteShared id user _ => λ r, SawChange (Shares id user) (made_as (λ _, "") r)
  | InviteUser id user => λ err, SawChange (Invites id user) (accepted err)
  | Kick id user => λ err, SawChange (Kicks id user) (accepted err)
  | ListHolders group => SawHolders group
  | ResolveGroups groups => SawGroups groups
  | ResolveUsers users => SawUsers users
  | Explain email => SawExplained email
  | _ => λ _, SawOther
  end.

Notation traced := (Runs.traced (@See)).

(** ** What is read is all there is to read *)

Lemma look_up_spec addresses accounts members t accounts' members' :
  traced (look_up addresses accounts members) t (Ok (accounts', members')) →
  (∀ a, a ∈ addresses ∨ is_Some (accounts !! a) → is_Some (accounts' !! a)) ∧
  ∀ a acct, accounts' !! a = Some acct → accounts !! a = Some acct ∨
    ∃ found, SawLookup a (Ok found) ∈ t ∧ acct = from_option account_of no_account found.
Proof.
  revert accounts members t. induction addresses as [|address addresses IH]; intros accounts members t; cbn [look_up].
  { intros [_ [= -> ->]]. split; [|by left]. intros a [Ha|?]; [by apply elem_of_nil in Ha|done]. }
  intros [(e&_&?)|(t1&t2&found&->&(x&->&Hx)%traced_ask&Ht)]%traced_then; [done|]. destruct x as [x|]; [|done]. injection Hx as ->.
  set (acct0 := from_option account_of no_account x).
  assert (∃ members1, traced (look_up addresses (<[address := acct0]> accounts) members1) t2 (Ok (accounts', members'))) as (members1&Ht').
  { by destruct x; eexists. }
  destruct (IH _ _ _ Ht') as [Hall Hwhere]. split.
  - intros a Ha. apply Hall. rewrite elem_of_cons in Ha. destruct (decide (a = address)) as [->|Hne].
    + right. rewrite lookup_insert_eq. by eexists.
    + rewrite lookup_insert_ne by done. tauto.
  - intros a acct Ha. apply Hwhere in Ha as [[[<- <-]|[_ Ha]]%lookup_insert_Some|(found&Hin&->)].
    + right. exists x. split; [by left|done].
    + by left.
    + right. exists found. split; [by right|done].
Qed.

(** How a channel is listed, its members read where they are wanted. *)
Definition read_as (names ids : gset string) (t : list seen) (c : ListedChannel) (ch : Channel) : Prop :=
  if wants_members names ids c
  then ∃ members, SawMembersOf (lch_ID c) (Ok members) ∈ t ∧ ch = listed c members true
  else ch = listed c [] false.

Lemma read_channels_spec names ids listing t channels :
  traced (read_channels names ids listing) t (Ok channels) → Forall2 (read_as names ids t) listing channels.
Proof.
  revert t channels. induction listing as [|c listing IH]; intros t channels; cbn [read_channels]; [intros [_ [= ->]]; constructor|].
  intros [(e&_&?)|(t1&t2&ch&->&H1&H2)]%traced_then; [done|].
  apply traced_then in H2 as [(e&_&?)|(t3&t4&chs&->&H3&[-> [= ->]])]; [done|]. rewrite app_nil_r.
  constructor.
  - unfold read_as. destruct (wants_members names ids c).
    + apply traced_then in H1 as [(e&_&?)|(t5&t6&members&->&(x&->&Hx)%traced_ask&[-> [= ->]])]; [done|].
      destruct x as [x|]; [|done]. injection Hx as ->. exists x. split; [by left|done].
    + by destruct H1 as [_ [= ->]].
  - eapply Forall2_impl; [by apply IH|]. unfold read_as. intros c' ch'. destruct (wants_members names ids c'); [|done].
    intros (members&Hin&->). exists members. split; [|done]. apply elem_of_app. by right.
Qed.

(** Who a member is: found by an address, asked for, or remembered. *)
Lemma identify_spec inp cached bot users members t members' :
  traced (identify inp cached bot users members) t (Ok members') →
  (∀ user, user ∈ users ∨ is_Some (members !! user) → user = bot ∨ is_Some (members' !! user)) ∧
  ∀ user m, members' !! user = Some m → members !! user = Some m ∨ cached = true ∧ SawCached user m ∈ t ∨
    ∃ u, SawUser user (Ok u) ∈ t ∧ m = member_of user (normalise (us_Email u)) u.
Proof.
  revert members t. induction users as [|user users IH]; intros members t; cbn [identify].
  { intros [_ [= ->]]. split; [|by left]. intros a [Ha|?]; [by apply elem_of_nil in Ha|by right]. }
  destruct (bool_decide (user = bot) || _) eqn:Hskip.
  { intros Ht. destruct (IH _ _ Ht) as [Hall Hwhere]. split; [|done]. intros a [[->|Ha]%elem_of_cons|Ha]; [|by auto..].
    apply orb_true_iff in Hskip as [?%bool_decide_eq_true|Hk%bool_decide_eq_true]; [by left|]. by apply Hall; right. }
  assert (∀ m t0, traced (identify inp cached bot users (<[user := m]> members)) t0 (Ok members') →
    (∀ e, e ∈ t0 → e ∈ t) → (cached = true ∧ SawCached user m ∈ t ∨ ∃ u, SawUser user (Ok u) ∈ t ∧ m = member_of user (normalise (us_Email u)) u) →
    (∀ user', user' ∈ user :: users ∨ is_Some (members !! user') → user' = bot ∨ is_Some (members' !! user')) ∧
    ∀ user' m', members' !! user' = Some m' → members !! user' = Some m' ∨ cached = true ∧ SawCached user' m' ∈ t ∨
      ∃ u, SawUser user' (Ok u) ∈ t ∧ m' = member_of user' (normalise (us_Email u)) u) as Hnext.
  { intros m t0 Ht0 Hin Hm. destruct (IH _ _ Ht0) as [Hall Hwhere]. split.
    - intros a Ha. apply Hall. rewrite elem_of_cons in Ha. destruct (decide (a = user)) as [->|Hne].
      + right. rewrite lookup_insert_eq. by eexists.
      + rewrite lookup_insert_ne by done. tauto.
    - intros a m' Ha. apply Hwhere in Ha as [[[<- <-]|[_ Ha]]%lookup_insert_Some|[[? Hs]|(u&Hs&->)]]; [by right|by left|..].
      + right. left. split; [done|]. by apply Hin.
      + right. right. exists u. split; [by apply Hin|done]. }
  assert (∀ t1, traced (then_ (reads_ (UserInfo user)) (λ u,
      let m := member_of user (normalise (us_Email u)) u in
      if cached then Do (CachePut (n_Workspace inp) m) (λ _, identify inp cached bot users (<[user := m]> members))
      else identify inp cached bot users (<[user := m]> members))) t1 (Ok members') → (∀ e, e ∈ t1 → e ∈ t) →
    (∀ user', user' ∈ user :: users ∨ is_Some (members !! user') → user' = bot ∨ is_Some (members' !! user')) ∧
    ∀ user' m', members' !! user' = Some m' → members !! user' = Some m' ∨ cached = true ∧ SawCached user' m' ∈ t ∨
      ∃ u, SawUser user' (Ok u) ∈ t ∧ m' = member_of user' (normalise (us_Email u)) u) as Hask.
  { intros t1 [(e&_&?)|(t2&t3&u&->&(x&->&Hx)%traced_ask&Ht)]%traced_then Hin; [done|]. destruct x as [x|]; [|done]. injection Hx as ->.
    destruct cached.
    - destruct Ht as (ok&t4&->&Ht). eapply (Hnext _ t4 Ht); [intros e He; apply Hin; by do 2 right|]. right. exists x.
      split; [apply Hin; by left|done].
    - eapply (Hnext _ t3 Ht); [intros e He; apply Hin; by right|]. right. exists x. split; [apply Hin; by left|done]. }
  destruct cached; [|intros Ht; by apply (Hask t Ht)].
  intros (hit&t1&->&Ht). destruct hit as [m|].
  - eapply (Hnext m t1 Ht); [by right|]. left. split; [done|by left].
  - eapply (Hask t1 Ht). by right.
Qed.

(** Where a member of the result came from: an address, the cache, or a question of their own. *)
Definition known_as (cached : bool) (t : list seen) id (m : Member) : Prop :=
  (∃ address u, SawLookup address (Ok (Some u)) ∈ t ∧ us_ID u = id ∧ m = member_of id address u) ∨
  (cached = true ∧ SawCached id m ∈ t) ∨
  ∃ u, SawUser id (Ok u) ∈ t ∧ m = member_of id (normalise (us_Email u)) u.

Lemma known_as_mono cached t t' id m : (∀ e, e ∈ t → e ∈ t') → known_as cached t id m → known_as cached t' id m.
Proof. intros Ht [(a&u&?&?)|[[??]|(u&?&?)]]; [left; exists a, u|right; left|right; right; exists u]; auto. Qed.

Lemma look_up_members cached addresses accounts members t accounts' members' :
  traced (look_up addresses accounts members) t (Ok (accounts', members')) →
  ∀ id m, members' !! id = Some m → members !! id = Some m ∨ known_as cached t id m.
Proof.
  revert accounts members t. induction addresses as [|address addresses IH]; intros accounts members t; cbn [look_up].
  { intros [_ [= -> ->]]. by left. }
  intros [(e&_&?)|(t1&t2&found&->&(x&->&Hx)%traced_ask&Ht)]%traced_then id m Hm; [done|]. destruct x as [x|]; [|done]. injection Hx as ->.
  destruct x as [u|]; destruct (IH _ _ _ Ht id m Hm) as [Hin|Hk]; [|right; eapply known_as_mono; [|exact Hk]; by right|by left|right; eapply known_as_mono; [|exact Hk]; by right].
  apply lookup_insert_Some in Hin as [[<- <-]|[_ ?]]; [|by left]. right. left. exists address, u. by split_and!; [left| |].
Qed.

(** What is read of Slack changes nothing, and ends well only when nothing it asked failed. *)
Definition unread (e : seen) : Prop :=
  match e with SawLookup _ (Err _) | SawMembersOf _ (Err _) | SawUser _ (Err _) => True | _ => False end.
Definition saw_change (e : seen) : option (change * result create_error string) := match e with SawChange c r => Some (c, r) | _ => None end.
Definition quiet (e : seen) : Prop := saw_change e = None.
Definition sound (e : seen) : Prop := quiet e ∧ ¬ unread e.

Lemma sound_is_quiet e : sound e → quiet e.
Proof. by intros []. Qed.
Lemma no_changes t : Forall quiet t → omap saw_change t = [].
Proof. induction 1 as [|e t He _ IH]; [done|]. cbn. by rewrite He. Qed.

Ltac sounds := intros; split; [reflexivity|intros []].
Ltac asks := apply whole_ask; [intros; reflexivity|sounds].

Lemma look_up_whole addresses accounts members : whole (@See) quiet sound (look_up addresses accounts members).
Proof.
  revert accounts members. induction addresses as [|a addresses IH]; intros accounts members; cbn [look_up]; [apply whole_ret|].
  apply whole_then; [asks|]. intros [u|]; apply IH.
Qed.

Lemma read_channels_whole names ids listing : whole (@See) quiet sound (read_channels names ids listing).
Proof.
  induction listing as [|c listing IH]; cbn [read_channels]; [apply whole_ret|].
  apply whole_then; [ |intros ch; apply whole_then; [done|intros; apply whole_ret]].
  destruct (wants_members names ids c); [|apply whole_ret]. apply whole_then; [asks|]. intros. apply whole_ret.
Qed.

Lemma identify_whole inp cached bot users members : whole (@See) quiet sound (identify inp cached bot users members).
Proof.
  revert members. induction users as [|user users IH]; intros members; cbn [identify]; [apply whole_ret|].
  destruct (_ || _); [apply IH|].
  assert (whole (@See) quiet sound (then_ (reads_ (UserInfo user)) (λ u,
      let m := member_of user (normalise (us_Email u)) u in
      if cached then Do (CachePut (n_Workspace inp) m) (λ _, identify inp cached bot users (<[user := m]> members))
      else identify inp cached bot users (<[user := m]> members)))) as Hask.
  { apply whole_then; [asks|]. intros u. destruct cached; [|apply IH].
    apply whole_do; [apply sound_is_quiet|sounds|]. intros _. apply IH. }
  destruct cached; [|exact Hask]. apply whole_do; [apply sound_is_quiet|intros []; sounds|]. intros [m|]; [apply IH|exact Hask].
Qed.

Lemma Observe_whole inp cached : whole (@See) quiet sound (ObserveCached inp cached).
Proof.
  unfold ObserveCached. destruct (n_Workspaces inp !! n_Workspace inp) as [cfg|]; [|apply whole_ret].
  apply whole_then; [asks|]. intros [team bot]. destruct (empty _ || _); [apply whole_ret|].
  apply whole_then; [apply look_up_whole|]. intros [accounts members].
  apply whole_then; [asks|]. intros listing. destruct (named inp cfg) as [names ids].
  apply whole_then; [apply read_channels_whole|]. intros channels.
  apply whole_then; [apply identify_whole|]. intros members'.
  apply whole_then; [ |intros; apply whole_ret]. destruct (involved inp); [asks|apply whole_ret].
Qed.

(** The input a decision is made on: what was read, and this workspace's own bot.
    [internal/slackroster/controller/controller.go:493-502 Controller.workspace] *)
Definition observed_input (inp : Input) (obs : Observed) : Input :=
  mkInput (n_Workspace inp) (n_Workspaces inp) (n_Facts inp) (n_People inp) (n_Holders inp) (n_Shared inp) (n_Console inp)
    (n_DefinedTwice inp) (n_DirHolders inp) (n_DirUsers inp) (n_DirNested inp) (<[n_Workspace inp := ob_BotUserID obs]> (n_Bots inp)) obs.

Lemma layout_observed inp obs : layout (newResolver (observed_input inp obs)) = layout (newResolver inp).
Proof. reflexivity. Qed.

Lemma Lookups_observed inp obs : Lookups (observed_input inp obs) = Lookups inp.
Proof. reflexivity. Qed.

(** Every channel of the layout is among those whose members are read, under the name or
    the id it is found by. *)
Lemma layout_named inp cfg lc : n_Workspaces inp !! n_Workspace inp = Some cfg → lc ∈ layout (newResolver inp) →
  match lc_shared lc with
  | None => if empty (ch_Adopt (lc_binding lc)) then lc_name lc ∈ (named inp cfg).1 else ch_Adopt (lc_binding lc) ∈ (named inp cfg).2
  | Some s => if empty (sc_ChannelID s) then lc_name lc ∈ (named inp cfg).1 else sc_ChannelID s ∈ (named inp cfg).2
  end.
Proof.
  intros Hcfg [[name Hn]|[(c&Hc&Hn)|(s&Hs&Hn)]]%elem_of_layout.
  - unfold layout_policy in Hn. destruct (workspace_channels _ !! name) as [b|] eqn:Hb; [|done]. destruct (default _ _); [done|].
    injection Hn as <-. cbn [lc_shared lc_binding lc_name]. unfold workspace_channels in Hb. cbn [r_in newResolver] in Hb. rewrite Hcfg in Hb.
    cbn [default from_option id] in Hb. unfold named. cbn [fst snd]. apply elem_of_map_to_list in Hb.
    destruct (empty (ch_Adopt b)) eqn:He; rewrite elem_of_list_to_set, !elem_of_app; left; apply list_elem_of_fmap.
    + exists (name, b). split; [done|]. by apply elem_of_filter_bool.
    + exists b. split; [done|]. apply list_elem_of_fmap. exists (name, b). split; [done|]. apply elem_of_filter_bool. cbn. by rewrite He.
  - unfold layout_console in Hn. destruct (bool_decide (cc_Workspace c = _)) eqn:Hw; [|done]. cbn [negb] in Hn.
    destruct (bool_decide (is_Some _)); [done|]. injection Hn as <-. cbn [lc_shared lc_binding lc_name Binding ch_Adopt].
    assert (c ∈ List.filter (λ c, bool_decide (cc_Workspace c = n_Workspace inp)) (n_Console inp)) as Hin by by apply elem_of_filter_bool.
    unfold named. cbn [fst snd]. destruct (empty (cc_ChannelID c)) eqn:He; rewrite elem_of_list_to_set, !elem_of_app; right; left.
    + apply list_elem_of_fmap. exists c. split; [done|]. by apply elem_of_filter_bool.
    + apply elem_of_filter_bool. split; [|by rewrite He]. apply list_elem_of_fmap. by exists c.
  - unfold layout_shared in Hn. destruct (negb (bool_decide (sc_Host s = _)) && negb (str_in _ (sc_With s))) eqn:Hw; [done|]. injection Hn as <-.
    cbn [lc_shared lc_name]. cbn [r_in newResolver] in Hw.
    assert (s ∈ List.filter (λ s, bool_decide (sc_Host s = n_Workspace inp) || str_in (n_Workspace inp) (sc_With s)) (n_Shared inp)) as Hin.
    { apply elem_of_filter_bool. split; [done|]. rewrite <- negb_orb in Hw. by apply negb_false_iff in Hw. }
    unfold named. cbn [fst snd]. destruct (empty (sc_ChannelID s)) eqn:He; rewrite elem_of_list_to_set, !elem_of_app; right; right.
    + apply list_elem_of_fmap. by exists s.
    + apply elem_of_filter_bool. split; [|by rewrite He]. apply list_elem_of_fmap. by exists s.
Qed.

(** What [Derive] needs is that nothing it looks at is missing. *)
Lemma Derive_total inp : is_Some (n_Workspaces inp !! n_Workspace inp) →
  (∀ lc ch, lc ∈ layout (newResolver inp) → existing (resolve inp lc) = Some ch → sl_MembersKnown ch = true ∧
     ∀ id, id ∈ sl_Members ch → id = ob_BotUserID (n_Observed inp) ∨ is_Some (ob_Members (n_Observed inp) !! id)) →
  (∀ a, a ∈ Lookups inp → is_Some (ob_Accounts (n_Observed inp) !! a)) → ∃ d, Derive inp = Ok d.
Proof.
  intros Hdecl Hch Hacc. unfold Derive. rewrite bool_decide_true by done. cbn [check mbind result_bind].
  destruct (map_m (derive inp) (layout (newResolver inp))) as [plans|e] eqn:Hm; [by eexists|]. exfalso.
  apply map_m_err in Hm as (lc&Hlc&He). unfold derive in He. fold (existing (resolve inp lc)) in He.
  destruct (channel_actions inp lc _) as [acts held]. destruct (shareActions inp lc _) as [[notes sheld] sacts].
  assert (∀ members e', people_rows inp lc (resolve inp lc) members = Err e' → False) as Hpeople.
  { intros members e' (s&Hs&_&Hne&Hnone)%people_rows_err. destruct (Hacc (s_addr s)) as [? ?]; [|congruence].
    apply elem_of_Lookups. split; [done|]. by exists lc, s. }
  destruct (existing (resolve inp lc)) as [ch|] eqn:Hex; cbn [mbind result_bind] in He.
  - destruct (Hch lc ch Hlc Hex) as [Hk Hmem]. rewrite Hk in He. cbn [mbind result_bind] in He.
    destruct (people_rows _ _ _ _) as [people|e'] eqn:Hp; [|by eapply Hpeople]. cbn [mbind result_bind] in He.
    destruct (map_m (find_extra inp lc) _) as [extras|e'] eqn:Hf; [done|]. apply map_m_err in Hf as (id&Hid&Hf). unfold find_extra in Hf.
    destruct (bool_decide (id = _)) eqn:Hb; [done|]. apply bool_decide_eq_false in Hb. cbn [orb] in Hf.
    destruct (bool_decide (id ∈ wanted_ids inp lc)); [done|].
    destruct (Hmem id Hid) as [?|[m Hm]]; [done|]. rewrite Hm in Hf. destruct (m_Bot m || m_Deleted m); [done|]. by destruct (_ && _) in Hf.
  - destruct (people_rows _ _ _ _) as [people|e'] eqn:Hp; [done|by eapply Hpeople].
Qed.

(** What a workspace that was read holds. *)
Lemma Observe_inv inp cached t obs : traced (ObserveCached inp cached) t (Ok obs) →
  ob_TeamID obs = f_Team (facts_of inp (n_Workspace inp)) ∧ ob_TeamID obs ≠ "" ∧ ∃ cfg listing,
    n_Workspaces inp !! n_Workspace inp = Some cfg ∧
    (∀ a, a ∈ Lookups inp → is_Some (ob_Accounts obs !! a)) ∧
    (∀ a acct, ob_Accounts obs !! a = Some acct → ∃ found, SawLookup a (Ok found) ∈ t ∧ acct = from_option account_of no_account found) ∧
    Forall2 (read_as (named inp cfg).1 (named inp cfg).2 t) listing (ob_Channels obs) ∧
    ∀ ch id, ch ∈ ob_Channels obs → id ∈ sl_Members ch → id = ob_BotUserID obs ∨ is_Some (ob_Members obs !! id).
Proof.
  unfold ObserveCached. destruct (n_Workspaces inp !! n_Workspace inp) as [cfg|]; [|by intros [_ ?]].
  intros [(e&_&?)|(t1&t2&[team bot]&->&_&Ht)]%traced_then; [done|].
  destruct (empty _ || negb _) eqn:Hteam; [by destruct Ht as [_ ?]|]. apply orb_false_iff in Hteam as [Hne%empty_false Heq%negb_false_iff%bool_decide_eq_true].
  apply traced_then in Ht as [(e&_&?)|(t3&t4&[accounts members]&->&[Hacc Hwhere]%look_up_spec&Ht)]; [done|].
  apply traced_then in Ht as [(e&_&?)|(t5&t6&listing&->&_&Ht)]; [done|]. destruct (named inp cfg) as [names ids] eqn:Hnamed.
  apply traced_then in Ht as [(e&_&?)|(t7&t8&channels&->&Hchs%read_channels_spec&Ht)]; [done|].
  apply traced_then in Ht as [(e&_&?)|(t9&t10&members'&->&[Hid _]%identify_spec&Ht)]; [done|].
  apply traced_then in Ht as [(e&_&?)|(t11&t12&invites&->&_&[-> [= ->]])]; [done|].
  cbn [ob_TeamID ob_BotUserID ob_Channels ob_Accounts ob_Members].
  split; [done|]. split; [by rewrite Heq|]. exists cfg, listing. rewrite Hnamed. cbn [fst snd]. split_and!.
  - done.
  - intros a Ha. apply Hacc. by left.
  - intros a acct Ha. apply Hwhere in Ha as [Ha|(found&Hin&->)]; [by rewrite lookup_empty in Ha|]. exists found.
    split; [|done]. rewrite !elem_of_app. by right; left.
  - eapply Forall2_impl; [exact Hchs|]. unfold read_as. intros c ch. destruct (wants_members names ids c); [|done].
    intros (ms&Hin&->). exists ms. split; [|done]. rewrite !elem_of_app. tauto.
  - intros ch id Hch Hin. apply Hid. left. apply list_elem_of_join. exists (sl_Members ch). split; [done|]. apply list_elem_of_fmap. by exists ch.
Qed.

(** Everybody a channel was read with came from an answer of the same pass, or the cache. *)
Lemma Observe_members inp cached t obs id m : traced (ObserveCached inp cached) t (Ok obs) →
  ob_Members obs !! id = Some m → known_as cached t id m.
Proof.
  unfold ObserveCached. destruct (n_Workspaces inp !! n_Workspace inp) as [cfg|]; [|by intros [_ ?]].
  intros [(e&_&?)|(t1&t2&[team bot]&->&_&Ht)]%traced_then; [done|]. destruct (empty _ || _); [by destruct Ht as [_ ?]|].
  apply traced_then in Ht as [(e&_&?)|(t3&t4&[accounts members]&->&Hlook&Ht)]; [done|].
  apply traced_then in Ht as [(e&_&?)|(t5&t6&listing&->&_&Ht)]; [done|]. destruct (named inp cfg) as [names ids].
  apply traced_then in Ht as [(e&_&?)|(t7&t8&channels&->&_&Ht)]; [done|].
  apply traced_then in Ht as [(e&_&?)|(t9&t10&members'&->&[_ Hid]%identify_spec&Ht)]; [done|].
  apply traced_then in Ht as [(e&_&?)|(t11&t12&invites&->&_&[-> [= ->]])]; [done|]. cbn [ob_Members]. intros Hm.
  apply Hid in Hm as [Hm|[[??]|(u&?&?)]].
  - destruct (look_up_members cached _ _ _ _ _ _ Hlook id m Hm) as [Hno|Hk]; [by rewrite lookup_empty in Hno|].
    eapply known_as_mono; [|exact Hk]. intros e. rewrite !elem_of_app. tauto.
  - right; left. split; [done|]. rewrite !elem_of_app. tauto.
  - right; right. exists u. split; [|done]. rewrite !elem_of_app. tauto.
Qed.

(** A channel a decision may touch had its members read. *)
Lemma taken_read inp cached t obs lc ch : traced (ObserveCached inp cached) t (Ok obs) →
  let inp' := observed_input inp obs in
  lc ∈ layout (newResolver inp') → taken inp' lc (resolve inp' lc) ch →
  sl_MembersKnown ch = true ∧ ch ∈ ob_Channels obs ∧ SawMembersOf (sl_ID ch) (Ok (sl_Members ch)) ∈ t.
Proof.
  intros (Hteam&Hne&cfg&listing&Hcfg&Hacc&Hwhere&Hchs&Hmem)%Observe_inv inp' Hlc (Hin&Har&Hpr&Hbot&Hname). cbn in Hin.
  apply list_elem_of_lookup_1 in Hin as [i Hi]. destruct (Forall2_lookup_r _ _ _ _ _ Hchs Hi) as (c&_&Hc).
  unfold inp' in Hlc. rewrite layout_observed in Hlc. pose proof (layout_named inp cfg lc Hcfg Hlc) as Hnamed.
  assert (lch_Name c = sl_Name ch ∧ lch_ID c = sl_ID ch ∧ lch_IsArchived c = sl_Archived ch ∧ lch_IsMember c = sl_BotIn ch ∧
    lch_IsPrivate c = sl_Private ch) as (En&Eid&Ear&Ebot&Epr).
  { unfold read_as in Hc. destruct (wants_members _ _ c); [by destruct Hc as (?&_&->)|by subst ch]. }
  assert (wants_members (named inp cfg).1 (named inp cfg).2 c = true) as Hw.
  { unfold wants_members. rewrite Ear, Har, Ebot, Epr, En, Eid. cbn [negb andb]. apply andb_true_iff. split.
    - apply orb_true_iff. rewrite !bool_decide_eq_true. destruct (lc_shared lc) as [s|].
      + destruct Hname as [Hname _]. destruct (empty (sc_ChannelID s)); rewrite Hname; [by left|by right].
      + destruct Hname as [_ Hname]. destruct (empty (ch_Adopt (lc_binding lc))); rewrite Hname; [by left|by right].
    - destruct Hbot as [[_ ->]|(_&_&->)]; [done|]. by rewrite orb_true_r. }
  unfold read_as in Hc. rewrite Hw in Hc. destruct Hc as (ms&Hms&->). split_and!; [done|by eapply list_elem_of_lookup_2|done].
Qed.

(** ** One outcome per action *)

(** The call an action is, into a channel of that id. *)
Definition call_for (a : Action) id : change :=
  match a_Kind a with
  | ActionCreate => Creates (a_Channel a) (a_Private a)
  | ActionAdopt => Joins (a_ChannelID a)
  | ActionShareAccept => Accepts (a_InviteID a) (a_Channel a) (a_Private a)
  | ActionShareInvite => Shares id (a_GuestBot a)
  | ActionInvite => Invites id (a_User a)
  | ActionRemove => Kicks id (a_User a)
  end.

(** An action with what was asked of Slack for it, and Slack's answer. *)
Definition asked_for : Type := Action * option (change * result create_error string).

(** The id under which an earlier action made, joined or accepted the channel of that name. *)
Definition made_under name (x : asked_for) : option string :=
  match x.2 with
  | Some (_, Ok made) =>
      if bool_decide (a_Channel x.1 = name) then
        match a_Kind x.1 with
        | ActionCreate | ActionShareAccept => Some made
        | ActionAdopt => Some (a_ChannelID x.1)
        | _ => None
        end
      else None
  | _ => None
  end.

(** The channel of an action: the one it names, or else the one made last under its name
    among the actions before it, "" where none was. *)
Definition channel_of (before : list asked_for) (a : Action) : string :=
  if empty (a_ChannelID a) then default "" (last (omap (made_under (a_Channel a)) before)) else a_ChannelID a.

(** What became of an action: skipped, in a dry run or for want of its channel; or asked of
    Slack once, in its own channel, and done, held or refused as Slack said. *)
Definition settled (dry : bool) (before : list asked_for) (o : Outcome) (asked : option (change * result create_error string)) : Prop :=
  let a := oc_Action o in
  let needs := a_Kind a = ActionInvite ∨ a_Kind a = ActionShareInvite in
  match asked with
  | None => oc_Done o = false ∧ oc_Held o = "" ∧
      (dry = true ∧ oc_Skipped o = "dry run" ∧ oc_Err o = None ∨
       dry = false ∧ oc_Skipped o = "the channel was not made" ∧ oc_Err o = Some errNoChannel ∧ channel_of before a = "" ∧ needs)
  | Some (c, r) =>
      dry = false ∧ oc_Skipped o = "" ∧ c = call_for a (channel_of before a) ∧ (needs → channel_of before a ≠ "") ∧
      match r with
      | Ok _ => oc_Done o = true ∧ oc_Held o = "" ∧ oc_Err o = None
      | Err NameTaken => oc_Done o = false ∧ oc_Held o = TakenReason (a_Channel a) ∧ oc_Err o = None ∧ a_Kind a = ActionCreate
      | Err (NotCreated why) => oc_Done o = false ∧ oc_Held o = "" ∧ oc_Err o = Some why
      end
  end.

(** Each outcome with what was asked for it, given those before it. *)
Fixpoint settles_each (dry : bool) (before : list asked_for) (outcomes : list Outcome) (asked : list (option (change * result create_error string))) : Prop :=
  match outcomes, asked with
  | [], [] => True
  | o :: outcomes, x :: asked => settled dry before o x ∧ settles_each dry (before ++ [(oc_Action o, x)]) outcomes asked
  | _, _ => False
  end.

(** The calls of a run are changes, one for each action that was not skipped. *)
Definition asks_ (t : list seen) (asked : list (option (change * result create_error string))) : Prop :=
  t = (λ x : change * result create_error string, SawChange x.1 x.2) <$> omap id asked.

(** The ids a run holds are those it made so far. *)
Definition holds_made (ids : gmap string string) (before : list asked_for) : Prop :=
  ∀ name, ids !! name = last (omap (made_under name) before).

Lemma holds_made_channel ids before a : holds_made ids before →
  (if empty (a_ChannelID a) then default "" (ids !! a_Channel a) else a_ChannelID a) = channel_of before a.
Proof. intros Hids. unfold channel_of. by rewrite Hids. Qed.

Lemma holds_made_same ids before x : holds_made ids before → (∀ name, made_under name x = None) → holds_made ids (before ++ [x]).
Proof. intros Hids Hx name. rewrite omap_app. cbn. rewrite Hx, app_nil_r. apply Hids. Qed.

Lemma holds_made_new ids before x made : holds_made ids before → made_under (a_Channel x.1) x = Some made →
  holds_made (<[a_Channel x.1 := made]> ids) (before ++ [x]).
Proof.
  intros Hids Hx name. rewrite omap_app. cbn. destruct (decide (a_Channel x.1 = name)) as [<-|Hne].
  - by rewrite lookup_insert_eq, Hx, last_snoc.
  - rewrite lookup_insert_ne by done. assert (made_under name x = None) as ->; [|rewrite app_nil_r; apply Hids].
    unfold made_under in *. destruct x.2 as [[c [id|]]|]; try done. by rewrite bool_decide_eq_false_2.
Qed.

Lemma not_made name a asked : (∀ c made, asked = Some (c, Ok made) → a_Kind a ≠ ActionCreate ∧ a_Kind a ≠ ActionShareAccept ∧ a_Kind a ≠ ActionAdopt) →
  made_under name (a, asked) = None.
Proof.
  intros Hk. unfold made_under. cbn. destruct asked as [[c [made|]]|]; try done. destruct (Hk _ _ eq_refl) as (?&?&?).
  case_bool_decide; [|done]. by destruct (a_Kind a).
Qed.

Lemma apply_one_settled limited a ids before t o ids' made : holds_made ids before →
  traced (apply_one limited a ids) t (o, ids', made) →
  oc_Action o = a ∧ ∃ asked, settled false before o asked ∧ asks_ t [asked] ∧ holds_made ids' (before ++ [(a, asked)]).
Proof.
  intros Hids. unfold apply_one. rewrite (holds_made_channel ids before a Hids). set (at_ := channel_of before a).
  assert (∀ c, c = call_for a at_ → (a_Kind a = ActionInvite ∨ a_Kind a = ActionShareInvite → at_ ≠ "") →
    (∀ made, settled false before (outcome a None) (Some (c, Ok made))) ∧
    (∀ why, settled false before (outcome a (Some why)) (Some (c, Err (NotCreated why))))) as Hdone.
  { intros c -> Hne. split; intros; split_and!; done. }
  assert (∀ c why, holds_made ids (before ++ [(a, Some (c, Err why))])) as Hrefused.
  { intros c why. apply holds_made_same; [done|]. intros name. by apply not_made. }
  assert (∀ asked, a_Kind a ≠ ActionCreate ∧ a_Kind a ≠ ActionShareAccept ∧ a_Kind a ≠ ActionAdopt → holds_made ids (before ++ [(a, asked)])) as Hsame.
  { intros asked Hk. apply holds_made_same; [done|]. intros name. by apply not_made. }
  assert (∀ c made id, (match a_Kind a with ActionCreate | ActionShareAccept => Some made | ActionAdopt => Some (a_ChannelID a) | _ => None end) = Some id →
    holds_made (<[a_Channel a := id]> ids) (before ++ [(a, Some (c, Ok made))])) as Hmade.
  { intros c id' id Hk. apply (holds_made_new ids before (a, Some (c, Ok id'))); [done|]. unfold made_under. cbn. by rewrite bool_decide_eq_true_2. }
  unfold asks_. destruct (a_Kind a) eqn:Hk; cbn [See].
  - intros (r&t'&->&->&Hr). assert (Creates (a_Channel a) (a_Private a) = call_for a at_) as Hc by (unfold call_for; by rewrite Hk).
    destruct (Hdone _ Hc) as [Hok Herr]; [naive_solver|].
    destruct r as [new|[|why]]; injection Hr as -> -> ->; (split; [done|]).
    + exists (Some (Creates (a_Channel a) (a_Private a), Ok new)). split; [apply Hok|]. split; [done|by apply Hmade].
    + exists (Some (Creates (a_Channel a) (a_Private a), Err NameTaken)). split; [|split; [done|apply Hrefused]].
      split_and!; try done. cbn. rewrite Hk. naive_solver.
    + exists (Some (Creates (a_Channel a) (a_Private a), Err (NotCreated why))). split; [apply Herr|]. split; [done|apply Hrefused].
  - intros (r&t'&->&->&Hr). assert (Joins (a_ChannelID a) = call_for a at_) as Hc by (unfold call_for; by rewrite Hk).
    destruct (Hdone _ Hc) as [Hok Herr]; [naive_solver|].
    destruct r as [why|]; injection Hr as -> -> ->; (split; [done|]).
    + exists (Some (Joins (a_ChannelID a), Err (NotCreated why))). split; [apply Herr|]. split; [done|apply Hrefused].
    + exists (Some (Joins (a_ChannelID a), Ok "")). split; [apply Hok|]. split; [done|by apply Hmade].
  - destruct (empty at_) eqn:He.
    { apply empty_true in He. intros [-> [= -> -> ->]]. split; [done|]. exists None. split; [|split; [done|by apply Hsame]].
      split_and!; [done..|]. right. split_and!; try done. cbn. auto. }
    apply empty_false in He. intros (r&t'&->&->&[= -> -> ->]). split; [done|]. exists (Some (Invites at_ (a_User a), accepted r)).
    destruct (Hdone (Invites at_ (a_User a))) as [Hok Herr]; [unfold call_for; by rewrite Hk|done|].
    split; [destruct r; [apply Herr|apply Hok]|]. split; [done|by apply Hsame].
  - intros (r&t'&->&->&[= -> -> ->]). split; [done|]. exists (Some (Kicks at_ (a_User a), accepted r)).
    destruct (Hdone (Kicks at_ (a_User a))) as [Hok Herr]; [unfold call_for; by rewrite Hk|naive_solver|].
    split; [destruct r; [apply Herr|apply Hok]|]. split; [done|by apply Hsame].
  - destruct (empty at_) eqn:He.
    { apply empty_true in He. intros [-> [= -> -> ->]]. split; [done|]. exists None. split; [|split; [done|by apply Hsame]].
      split_and!; [done..|]. right. split_and!; try done. cbn. auto. }
    apply empty_false in He. intros (r&t'&->&->&[= -> -> ->]). split; [done|]. exists (Some (Shares at_ (a_GuestBot a), made_as (λ _, "") r)).
    destruct (Hdone (Shares at_ (a_GuestBot a))) as [Hok Herr]; [unfold call_for; by rewrite Hk|done|].
    split; [destruct r; [apply Hok|apply Herr]|]. split; [done|by apply Hsame].
  - intros (r&t'&->&->&Hr). assert (Accepts (a_InviteID a) (a_Channel a) (a_Private a) = call_for a at_) as Hc by (unfold call_for; by rewrite Hk).
    destruct (Hdone _ Hc) as [Hok Herr]; [naive_solver|].
    destruct r as [id'|why]; injection Hr as -> -> ->; (split; [done|]).
    + exists (Some (Accepts (a_InviteID a) (a_Channel a) (a_Private a), Ok id')). split; [apply Hok|]. split; [done|by apply Hmade].
    + exists (Some (Accepts (a_InviteID a) (a_Channel a) (a_Private a), Err (NotCreated why))). split; [apply Herr|]. split; [done|apply Hrefused].
Qed.

Lemma Apply_settles_each dry limited actions ids before t outcomes ids' records : holds_made ids before →
  traced (Apply dry limited actions ids) t (outcomes, ids', records) →
  oc_Action <$> outcomes = actions ∧ (∃ asked, settles_each dry before outcomes asked ∧ asks_ t asked) ∧ (dry = true → t = [] ∧ records = []).
Proof.
  revert ids before t outcomes ids' records. induction actions as [|a actions IH]; intros ids before t outcomes ids' records Hids; cbn [Apply].
  { intros [-> [= -> -> ->]]. split; [done|]. split; [|done]. by exists []. }
  destruct dry.
  - intros (t1&t2&[[os is1] rs]&->&H1&[-> [= -> -> ->]])%traced_bind. assert (holds_made ids (before ++ [(a, None)])) as Hids'.
    { apply holds_made_same; [done|]. intros name. by apply not_made. }
    destruct (IH _ _ _ _ _ _ Hids' H1) as (<-&(asked&Hall&Ht)&Hdry). destruct (Hdry eq_refl) as [-> ->].
    split; [done|]. split; [|done]. exists (None :: asked). split; [|done]. split; [|done]. split_and!; [done..|by left].
  - intros (t1&t2&[[o is1] made]&->&H1&H2)%traced_bind. destruct (apply_one_settled _ _ _ _ _ _ _ _ Hids H1) as (<-&asked1&Hs&Ha1&Hids').
    apply traced_bind in H2 as (t3&t4&[[os is2] rs]&->&H3&[-> [= -> -> ->]]). destruct (IH _ _ _ _ _ _ Hids' H3) as (<-&(asked&Hall&Ha2)&_).
    split; [done|]. split; [|done]. exists (asked1 :: asked). split; [by split|]. unfold asks_ in *. rewrite app_nil_r, Ha1, Ha2.
    destruct asked1 as [[c r]|]; reflexivity.
Qed.

(** Each outcome by its place, with the actions and answers before it. *)
Lemma settles_each_lookup dry before outcomes asked : settles_each dry before outcomes asked →
  length asked = length outcomes ∧ ∀ i o x, outcomes !! i = Some o → asked !! i = Some x →
    settled dry (before ++ take i (zip (oc_Action <$> outcomes) asked)) o x.
Proof.
  revert before asked. induction outcomes as [|o outcomes IH]; intros before [|x asked]; cbn; try done.
  intros [Hs [Hl Hall]%IH]. split; [congruence|]. intros [|i] o' x'; cbn.
  - intros [= <-] [= <-]. by rewrite app_nil_r.
  - intros Ho Hx. specialize (Hall i o' x' Ho Hx). by rewrite <- app_assoc in Hall.
Qed.

Lemma Apply_inv dry limited actions t outcomes ids' records : traced (Apply dry limited actions ∅) t (outcomes, ids', records) →
  oc_Action <$> outcomes = actions ∧
  (∃ asked, length asked = length outcomes ∧ asks_ t asked ∧
    ∀ i o x, outcomes !! i = Some o → asked !! i = Some x → settled dry (take i (zip actions asked)) o x) ∧
  (dry = true → t = [] ∧ records = []).
Proof.
  intros Ht. destruct (Apply_settles_each dry limited actions ∅ [] _ _ _ _ (λ name, lookup_empty name) Ht) as (<-&(asked&Hall&Ha)&Hdry).
  split; [done|]. split; [|done]. exists asked. by apply settles_each_lookup in Hall as [? ?].
Qed.

(** A removal that was asked for is one of the actions', from the channel it names. *)
Lemma applied_kick dry limited actions t outcomes ids records id user r :
  traced (Apply dry limited actions ∅) t (outcomes, ids, records) → SawChange (Kicks id user) r ∈ t →
  ∃ a, a ∈ actions ∧ a_Kind a = ActionRemove ∧ user = a_User a ∧ (a_ChannelID a ≠ "" → id = a_ChannelID a).
Proof.
  intros (Hacts&(asked&Hl&->&Hset)&_)%Apply_inv Hk.
  apply list_elem_of_fmap in Hk as ([c r']&[= <- <-]&Hc). apply list_elem_of_omap in Hc as (x&Hx&Hid). cbn in Hid. subst x.
  apply list_elem_of_lookup_1 in Hx as [j Hj]. destruct (lookup_lt_is_Some_2 outcomes j) as [o Ho]; [by rewrite <- Hl; eapply lookup_lt_Some|].
  destruct (Hset j o _ Ho Hj) as (_&_&Hcall&_). exists (oc_Action o).
  split; [rewrite <- Hacts; apply list_elem_of_fmap_2; by eapply list_elem_of_lookup_2|].
  unfold call_for in Hcall. destruct (a_Kind (oc_Action o)); try done. injection Hcall as -> ->. split_and!; [done..|].
  intros Hne%empty_false. unfold channel_of. by rewrite Hne.
Qed.

(** ** Properties *)

(** C10: a workspace that could be read is never decided on a hole.  When reading it ends
    well, its bot is the recorded team's; every address a decision may name was looked up;
    every channel a decision may touch, found by its name or its id, had its members read in
    this very pass; everybody in them is known; and so [Derive] does not fail. *)
Theorem Observe_enough inp cached t obs : traced (ObserveCached inp cached) t (Ok obs) →
  let inp' := observed_input inp obs in
  (∃ d, Derive inp' = Ok d) ∧ ob_TeamID obs = f_Team (facts_of inp (n_Workspace inp)) ∧ ob_TeamID obs ≠ "" ∧
  (∀ a acct, ob_Accounts obs !! a = Some acct → ∃ found, SawLookup a (Ok found) ∈ t ∧ acct = from_option account_of no_account found) ∧
  ∀ lc ch, lc ∈ layout (newResolver inp') → existing (resolve inp' lc) = Some ch → SawMembersOf (sl_ID ch) (Ok (sl_Members ch)) ∈ t.
Proof.
  intros Ht inp'. pose proof Ht as (Hteam&Hne&cfg&listing&Hcfg&Hacc&Hwhere&Hchs&Hmem)%Observe_inv. split_and!; [|done..|].
  - apply Derive_total; [by eexists|..].
    + intros lc ch Hlc Hex%existing_taken. destruct (taken_read _ _ _ _ _ _ Ht Hlc Hex) as (Hk&Hin&_). split; [done|]. intros id. by apply Hmem.
    + unfold inp'. rewrite Lookups_observed. exact Hacc.
  - intros lc ch Hlc Hex%existing_taken. by destruct (taken_read _ _ _ _ _ _ Ht Hlc Hex) as (_&_&?).
Qed.

(** C11: what was decided is what is asked of Slack, once and in order, and each action is
    told what became of it.  A run has one outcome per action, in the decision's order; Slack
    is asked nothing but the changes of the actions not skipped, each once, and each in its own
    channel: the one the action names by id, or else the very id under which this run made,
    joined or accepted the channel of that name last before it.  An invitation with neither is
    not made, and says so; an outcome is done exactly when Slack accepted, and says what Slack
    refused - but a name that is taken, which is held; and a dry run asks nothing and records
    nothing. *)
Theorem Apply_settles dry limited actions t outcomes ids records :
  traced (Apply dry limited actions ∅) t (outcomes, ids, records) →
  oc_Action <$> outcomes = actions ∧
  (∃ asked, length asked = length outcomes ∧
    t = (λ x : change * result create_error string, SawChange x.1 x.2) <$> omap id asked ∧
    ∀ i o x, outcomes !! i = Some o → asked !! i = Some x → settled dry (take i (zip actions asked)) o x) ∧
  (dry = true → t = [] ∧ records = []).
Proof. apply Apply_inv. Qed.

(** ** Witnesses: a workspace read and changed *)

Definition sample_users : gmap string User :=
  {["ann@acme.test" := mkUser "UANN" "T1" false false false false false "ann@acme.test";
    "eve@acme.test" := mkUser "UEVE" "T1" false false false false false "eve@acme.test";
    "dan@acme.test" := mkUser "UDAN" "T1" false false false false false "dan@acme.test"]}.
Definition sample_channels : list ListedChannel :=
  [mkListedChannel "C0123ABCD" "oncall" true false false true false [] [] [] [] [] "" 5 "UADMIN";
   mkListedChannel "C1" "general" false false true false false [] [] [] [] [] "" 9 "UADMIN"].

(** A Slack that answers, a console, and a store of reports with nothing in it; [why] is what
    asking who a member is fails with, "" for an answer. *)
Definition sample_answers (why : string) {B} (c : slack_call B) : B :=
  match c in slack_call B return B with
  | AuthTest => Ok ("T1", "UBOT")
  | LookupByEmail address => Ok (sample_users !! address)
  | AllChannels => Ok sample_channels
  | MembersOf id => Ok (if bool_decide (id = "C1") then [] else ["UBOT"; "UANN"; "UBOB"; "UGUEST"; "UEVE"])
  | CacheGet _ user => if bool_decide (user = "UGUEST") then Some (mkMember "UGUEST" "guest@acme.test" "T1" false false true) else None
  | UserInfo user => if empty why then Ok (mkUser user "T1" false false false false false "Bob@acme.test") else Err why
  | CachePut _ _ => tt
  | ConnectInvites => Ok []
  | CreateChannel _ _ => Err NameTaken
  | JoinChannel _ => None
  | AcceptSharedInvite _ _ _ => Ok "C2"
  | InviteShared _ _ _ => Ok "I1"
  | InviteUser _ user => if bool_decide (user = "UEVE") then Some "cant_invite" else None
  | Kick _ _ => None
  | ListHolders group => Ok ([mkHolder "ann@old.test" true; mkHolder "dan@acme.test" true; mkHolder "eve@acme.test" true], "D")
  | ResolveGroups _ => Ok ([], "D")
  | ResolveUsers _ => Ok ([], "D")
  | ListServedDomains => Ok [("acme", ["acme.test"])]
  | Explain _ => Ok (mkVouch true true false ["other"] [], "D")
  | ReadRecords => Some [mkSlackRecord "team" "T1" "acme" "UBOT"]
  | ReadCredential _ => Ok (Some "xoxb")
  | ReadShared => Some []
  | ReadChannels => Some []
  | ReadConfirmations => Some ∅
  | OfferShare _ _ _ _ _ => true
  | ShareAccepted _ _ _ _ => true
  | Notify _ => true
  | ProbeChannel _ _ => Err "channel_not_found"
  | RecordsDigest => Some "records"
  | TakeLease _ => Some true
  | InJournal c => match c in report_call B return B with Replace _ => true | PutReport _ _ => true | RemoveReport _ => true | Reports => Some ∅ end
  end.

Definition observed_run := played (@See) (@sample_answers "") (ObserveCached sample_input true).
Definition observed_trace : list seen := Eval vm_compute in observed_run.1.
Definition sample_observed : Observed :=
  Eval vm_compute in match observed_run.2 with Ok obs => obs | Err _ => n_Observed sample_input end.
Lemma observed_traced : traced (ObserveCached sample_input true) observed_trace (Ok sample_observed).
Proof. apply (traced_played (@See) (@sample_answers "")). vm_compute. reflexivity. Qed.

Lemma Observe_enough_witness : ∃ d, Derive (observed_input sample_input sample_observed) = Ok d.
Proof. exact (proj1 (Observe_enough sample_input true observed_trace sample_observed observed_traced)). Defined.

Definition sample_actions : list Action :=
  [mkAction ActionCreate "new" "" false "" "" "" [] "" "" "" "" "" false;
   mkAction ActionInvite "new" "" false "UDAN" "dan" "dan@acme.test" ["rung:sre"] "" "" "" "" "" false;
   mkAction ActionInvite "oncall" "C0123ABCD" true "UEVE" "eve" "eve@acme.test" ["rung:sre"] "" "" "" "" "" false;
   sample_removal].
Definition applied_run := played (@See) (@sample_answers "") (Apply false false sample_actions ∅).
Definition applied_trace : list seen := Eval vm_compute in applied_run.1.
Definition applied_outcomes : list Outcome := Eval vm_compute in applied_run.2.1.1.
Definition applied_ids : gmap string string := Eval vm_compute in applied_run.2.1.2.
Definition applied_records : list applied := Eval vm_compute in applied_run.2.2.
Lemma applied_traced : traced (Apply false false sample_actions ∅) applied_trace (applied_outcomes, applied_ids, applied_records).
Proof. apply (traced_played (@See) (@sample_answers "")). vm_compute. reflexivity. Qed.

(** A name that is taken holds the channel; who was to be invited to it is skipped, and the
    rest goes on. *)
Example applied_example : (λ o, (oc_Done o, oc_Err o, oc_Skipped o)) <$> applied_outcomes =
  [(false, None, ""); (false, Some errNoChannel, "the channel was not made"); (false, Some "cant_invite", ""); (true, None, "")].
Proof. vm_compute. reflexivity. Qed.

Lemma Apply_settles_witness : oc_Action <$> applied_outcomes = sample_actions ∧
  ∃ asked, length asked = length applied_outcomes ∧
    applied_trace = (λ x : change * result create_error string, SawChange x.1 x.2) <$> omap id asked.
Proof.
  destruct (Apply_settles false false sample_actions applied_trace applied_outcomes applied_ids applied_records applied_traced)
    as (Ho&(asked&Hl&Ht&_)&_).
  split; [exact Ho|]. exists asked. exact (conj Hl Ht).
Defined.
