(* ===== verification/SlackInputs.v ===== *)
(** * SlackInputs: what the ticks of a sweep share

    [internal/slackroster/controller]: records.go (the console's records and credentials, and
    which of them the policy accepts), directory.go (the directory groups and listed users a
    record names) and inputs.go ([readInputs]): what is read once for every workspace, and
    what of it may be acted on.

    A part of the store that cannot be read is left empty, as the code leaves it; what that
    makes of a workspace is [SlackPass].  The cache of inputs is not modelled: a pass is given
    the inputs it starts from. *)

From S2P Require Import Prelude GoStrings Runs Policy SlackPolicy Rails Asking SlackData SlackLayout SlackDerive SlackDecide SlackApply.

Implicit Types (workspace name id email group owner why : string) (now : Z).

(** ** The store *)

(** Why a record is refused: it could not be read, the policy does not accept it, or its
    sources cannot be acted on. *)
Inductive refused_why := Unreadable why | Unacceptable (e : record_error) | BadSources why.

(** [internal/slackroster/controller/records.go:type store]; a credential is its bot token. *)
Record store := mkStore {
  st_credentials : gmap string (result string string); st_bots : gmap string string; st_recorded : gmap string (string * string);
  st_shared : list (string * SharedChannel * option string); st_console : list (string * string * ConsoleChannel * option string);
  st_confirmation : list Confirmation }.

(** [internal/slackroster/controller/records.go:179-192 readStoreFrom] *)
Fixpoint read_records (records : list SlackRecord) (s : store) : prog slack_call store :=
  match records with
  | [] => Ret s
  | rc :: rest =>
      let ws := sr_Workspace rc in
      let bots := if empty (sr_BotUserID rc) then st_bots s else <[ws := sr_BotUserID rc]> (st_bots s) in
      let recorded := <[ws := (sr_TeamID rc, sr_Owner rc)]> (st_recorded s) in
      Do (ReadCredential ws) (λ r,
        let credentials := match r with
          | Err why => <[ws := Err why]> (st_credentials s) | Ok (Some token) => <[ws := Ok token]> (st_credentials s) | Ok None => st_credentials s end in
        read_records rest (mkStore credentials bots recorded (st_shared s) (st_console s) (st_confirmation s)))
  end.

(** [internal/slackroster/controller/records.go:readStoreFrom] *)
Definition readStoreFrom : prog slack_call store :=
  Do ReadRecords (λ records,
  prog_bind (read_records (default [] records) (mkStore ∅ ∅ ∅ [] [] [])) (λ s,
  Do ReadShared (λ shared,
  Do ReadChannels (λ channels,
  Do ReadConfirmations (λ confirmations, Ret (
    let confirmations : gmap string Confirmation := default ∅ confirmations in
    mkStore (st_credentials s) (st_bots s) (st_recorded s) (default [] shared) (default [] channels)
      (omap (λ key, confirmations !! key) (sorted_keys confirmations)))))))).

(** [internal/slackroster/controller/records.go:store.sharedChannels]: one definition. *)
Definition shared_refused (p : Policy) (rec : string * SharedChannel * option string) : option refused_why :=
  match rec.2 with
  | Some why => Some (Unreadable why)
  | None => match SharedChannel_Validate rec.1.2 p with Ok _ => None | Err e => Some (Unacceptable e) end
  end.
(** [internal/slackroster/controller/records.go:store.sharedChannels]: the definitions accepted, and
    the others, each with its host and the reason. *)
Definition sharedChannels (s : store) (p : Policy) : list SharedChannel * list (string * SharedChannel * refused_why) :=
  (omap (λ rec, match shared_refused p rec with None => Some rec.1.2 | Some _ => None end) (st_shared s),
   omap (λ rec, match shared_refused p rec with None => None | Some why => Some (rec.1.1, rec.1.2, why) end) (st_shared s)).

(** [internal/slackroster/controller/records.go:store.consoleChannels]: one record. *)
Definition console_refused (p : Policy) (rec : string * string * ConsoleChannel * option string) : option refused_why :=
  match rec.2 with
  | Some why => Some (Unreadable why)
  | None => match ConsoleChannel_Validate rec.1.2 p with Ok _ => None | Err e => Some (Unacceptable e) end
  end.
(** [internal/slackroster/controller/records.go:store.consoleChannels]: a refused record is under the
    workspace its key names. *)
Definition consoleChannels (s : store) (p : Policy) : list ConsoleChannel * list (string * string * ConsoleChannel * refused_why) :=
  (omap (λ rec, match console_refused p rec with None => Some rec.1.2 | Some _ => None end) (st_console s),
   omap (λ rec, match console_refused p rec with None => None | Some why => Some (rec.1.1.1, rec.1.1.2, rec.1.2, why) end) (st_console s)).

(** [internal/slackroster/connection/connection.go:199-202 ConfirmationTTL]: a day. *)
Definition ConfirmationTTL : Z := 24 * 3600 * 1000000000.
(** [internal/slackroster/connection/connection.go:Confirmation.Current] *)
Definition Current (c : Confirmation) now : bool := negb (empty (cn_Fingerprint c)) && (now - cn_At c <? ConfirmationTTL)%Z.

(** [internal/slackroster/controller/records.go:store.confirmed] *)
Definition confirmed (s : store) workspace now : Confirmed :=
  foldl (λ out c,
    if negb (bool_decide (cn_Workspace c = workspace)) || negb (Current c now) then out
    else if empty (cn_Channel c) then mkConfirmed (cn_Fingerprint c) (cf_Channels out)
    else mkConfirmed (cf_Workspace out) (<[cn_Channel c := cn_Fingerprint c]> (cf_Channels out)))
    (mkConfirmed "" ∅) (st_confirmation s).

(** [internal/slackroster/controller/records.go:store.facts] *)
Definition facts (s : store) (declared : gmap string SlackWorkspace) (served : gmap string (list string)) : gmap string Facts :=
  map_imap (λ key _, let '(team, owner) := default ("", "") (st_recorded s !! key) in
    Some (mkFacts team owner (default [] (served !! owner)))) declared.

(** Why a workspace has no bot token. *)
Inductive token_error := NotConnected | NotInstalled | BadCredential why.
(** [internal/slackroster/controller/controller.go:store.token] *)
Definition token (s : store) workspace : result token_error string :=
  match st_credentials s !! workspace with
  | None => Err NotConnected
  | Some (Err why) => Err (BadCredential why)
  | Some (Ok "") => Err NotInstalled
  | Some (Ok bot) => Ok bot
  end.

(** ** The directory groups *)

(** [internal/slackroster/controller/directory.go:type dirGroup] *)
Record dirGroup := mkDirGroup { dg_found : bool; dg_truncated : bool; dg_owner : string; dg_nested : list string }.
(** [internal/slackroster/controller/directory.go:type dirUser] *)
Record dirUser := mkDirUser { du_owner : string; du_live : bool }.
(** [internal/slackroster/controller/directory.go:type directoryGroups] *)
Record directoryGroups := mkDirectoryGroups {
  dd_groups : gmap string dirGroup; dd_holders : gmap string (list Holder); dd_users : gmap string dirUser }.
Definition no_directory : directoryGroups := mkDirectoryGroups ∅ ∅ ∅.

(** [internal/slackroster/controller/directory.go:directoryGroups.holdersOf] *)
Definition holdersOf (d : directoryGroups) : gmap string Holder := map_imap (λ email u, Some (mkHolder email (du_live u))) (dd_users d).

(** [internal/slackroster/controller/directory.go:16-18 resolveBatch] *)
Definition resolveBatch : nat := 200.
Fixpoint batches (fuel : nat) (l : list string) : list (list string) :=
  match fuel, l with
  | _, [] => []
  | 0, _ => []
  | S fuel, _ => take resolveBatch l :: batches fuel (drop resolveBatch l)
  end.

(** [internal/slackroster/controller/directory.go:75-86 Controller.resolveDirectory]: one group. *)
Definition add_group (d : directoryGroups) (g : GroupAnswer) : directoryGroups :=
  let email := ToLower (ga_Email g) in
  mkDirectoryGroups (<[email := mkDirGroup (ga_Found g) (ga_Truncated g) (ga_Owner g) (ga_Nested g)]> (dd_groups d))
    (match ga_Members g with
     | [] => dd_holders d
     | ms => <[email := default [] (dd_holders d !! email) ++ ((λ m : string * bool * bool, mkHolder m.1.1 (m.1.2 && m.2)) <$> ms)]> (dd_holders d)
     end) (dd_users d).
(** [internal/slackroster/controller/directory.go:99-101 Controller.resolveDirectory]: one user. *)
Definition add_user (d : directoryGroups) (u : UserAnswer) : directoryGroups :=
  mkDirectoryGroups (dd_groups d) (dd_holders d) (<[ToLower (ua_Email u) := mkDirUser (ua_Owner u) (ua_Found u && ua_Live u)]> (dd_users d)).

Section inputs.
Context (guard : PolicyGuard).

(** [internal/slackroster/controller/directory.go:64-103 Controller.resolveDirectory]: every
    batch, or an error. *)
Fixpoint resolve_batches {A} (ask : list string → slack_call (result string (list A * string))) (add : directoryGroups → A → directoryGroups)
    (asked : list (list string)) (d : directoryGroups) : prog slack_call (result pass_error directoryGroups) :=
  match asked with
  | [] => Ret (Ok d)
  | batch :: rest =>
      then_ (ask_by PassFailed (ask batch)) (λ '(answers, digest),
        if PolicyGuard_Check guard digest then resolve_batches ask add rest (foldl add d answers) else Ret (Err (OtherPolicy "")))
  end.

(** [internal/slackroster/controller/directory.go:Controller.resolveDirectory] *)
Definition resolveDirectory (groups users : list string) : prog slack_call (result pass_error directoryGroups) :=
  let groups := compact (sort_strings groups) in
  let users := compact (sort_strings users) in
  then_ (resolve_batches ResolveGroups add_group (batches (length groups) groups) no_directory) (λ d,
  resolve_batches ResolveUsers add_user (batches (length users) users) d).

(** [internal/slackroster/controller/directory.go:113-122 directoryGroups.checkSources]: one
    listed member; "" is nothing wrong. *)
Definition check_member (d : directoryGroups) owner (ordinary : bool) member : string :=
  match dd_users d !! member with
  | None => "member " +:+ member +:+ " is not a user of a connected directory"
  | Some u =>
      if empty (du_owner u) then "member " +:+ member +:+ " is not a user of a connected directory"
      else if ordinary && empty owner then NoOwner
      else if ordinary && negb (bool_decide (du_owner u = owner)) then "member " +:+ member +:+ " belongs to another directory than the one that owns this workspace"
      else ""
  end.
(** [internal/slackroster/controller/directory.go:124-136 directoryGroups.checkSources]: one
    group. *)
Definition check_source (d : directoryGroups) owner (ordinary : bool) source : string :=
  match dd_groups d !! source with
  | None => "source " +:+ source +:+ " is not a group of a connected directory"
  | Some g =>
      if negb (dg_found g) then "source " +:+ source +:+ " is not a group of a connected directory"
      else if dg_truncated g then "source " +:+ source +:+ " nests too deeply to resolve whole, so nobody is added or removed on it"
      else if ordinary && empty owner then NoOwner
      else if ordinary && negb (bool_decide (dg_owner g = owner)) then "source " +:+ source +:+ " belongs to another directory than the one that owns this workspace"
      else ""
  end.
(** [internal/slackroster/controller/directory.go:directoryGroups.checkSources]: the first
    thing wrong. *)
Definition checkSources (d : directoryGroups) (sources members : list string) owner (ordinary : bool) : string :=
  default "" (List.find (λ why, negb (empty why)) ((check_member d owner ordinary <$> members) ++ (check_source d owner ordinary <$> sources))).

(** [internal/slackroster/controller/directory.go:directoryGroups.nestedOf] *)
Definition nestedOf (d : directoryGroups) (sources : list string) : gmap string (list string) :=
  foldl (λ out s, match dd_groups d !! s with Some g => if bool_decide (dg_nested g = []) then out else <[s := dg_nested g]> out | None => out end) ∅ sources.

(** ** The inputs *)

(** [internal/slackroster/controller/controller.go:type pass]; the answers so far are apart. *)
Record inputs := mkInputs {
  in_store : store; in_shared : list SharedChannel; in_console : list ConsoleChannel;
  in_refused : list (string * SharedChannel * refused_why); in_consoleRefused : list (string * string * ConsoleChannel * refused_why);
  in_dir : directoryGroups; in_dirErr : option pass_error; in_holders : result pass_error (gmap string (list Holder));
  in_served : result string (gmap string (list string)) }.

(** [internal/slackroster/controller/controller.go:Controller.groups] *)
Definition groups_of (p : Policy) : list string :=
  mjoin ((λ ws : SlackWorkspace, mjoin (ch_From <$> (map_to_list (w_Channels ws)).*2)) <$> (map_to_list (Slack p)).*2).

(** [internal/slackroster/controller/controller.go:394-402 Controller.resolveSources]: a
    console channel whose sources cannot be acted on. *)
Definition console_sources (s : store) (d : directoryGroups) (c : ConsoleChannel) : string :=
  checkSources d (cc_Sources c) (cc_Members c) (default ("", "") (st_recorded s !! cc_Workspace c)).2 true.
(** [internal/slackroster/controller/controller.go:404-412 Controller.resolveSources] *)
Definition shared_sources (d : directoryGroups) (s : SharedChannel) : string := checkSources d (sc_Sources s) (sc_Members s) "" false.

(** [internal/slackroster/controller/controller.go:Controller.resolveSources] *)
Definition resolveSources (i : inputs) : prog slack_call inputs :=
  let sources := mjoin (cc_Sources <$> in_console i) ++ mjoin (sc_Sources <$> in_shared i) in
  let members := mjoin (cc_Members <$> in_console i) ++ mjoin (sc_Members <$> in_shared i) in
  if bool_decide (sources = []) && bool_decide (members = []) then Ret i
  else
    prog_bind (resolveDirectory sources members) (λ r, Ret (
      match r with
      | Err e => mkInputs (in_store i) (in_shared i) (in_console i) (in_refused i) (in_consoleRefused i) no_directory (Some e) (in_holders i) (in_served i)
      | Ok d =>
          let bad_console := List.filter (λ c, negb (empty (console_sources (in_store i) d c))) (in_console i) in
          let bad_shared := List.filter (λ s, negb (empty (shared_sources d s))) (in_shared i) in
          mkInputs (in_store i) (List.filter (λ s, empty (shared_sources d s)) (in_shared i))
            (List.filter (λ c, empty (console_sources (in_store i) d c)) (in_console i))
            (in_refused i ++ ((λ s, (sc_Name s, s, BadSources (shared_sources d s))) <$> bad_shared))
            (in_consoleRefused i ++ ((λ c, (cc_Workspace c, cc_Name c, c, BadSources (console_sources (in_store i) d c))) <$> bad_console))
            d None (in_holders i) (in_served i)
      end)).

(** [internal/slackroster/controller/controller.go:Controller.servedDomains] *)
Definition servedDomains : prog slack_call (result string (gmap string (list string))) :=
  Do ListServedDomains (λ r, Ret (match r with Ok dirs => Ok (foldl (λ m d, <[d.1 := d.2]> m) ∅ dirs) | Err why => Err why end)).

(** [internal/slackroster/controller/inputs.go:Controller.readInputs] *)
Definition readInputs (p : Policy) : prog slack_call inputs :=
  prog_bind readStoreFrom (λ s,
  let '(shared, refused) := sharedChannels s p in
  let '(console, consoleRefused) := consoleChannels s p in
  prog_bind (ask_holders guard ListHolders (groups_of p)) (λ holders,
  prog_bind (resolveSources (mkInputs s shared console refused consoleRefused no_directory None holders (Err ""))) (λ i,
  prog_bind servedDomains (λ served, Ret (
    mkInputs (in_store i) (in_shared i) (in_console i) (in_refused i) (in_consoleRefused i) (in_dir i) (in_dirErr i) (in_holders i) served))))).

(** [internal/slackroster/controller/controller.go:pass.dependsOnDirectory] *)
Definition dependsOnDirectory (i : inputs) key : bool :=
  existsb (λ c, bool_decide (cc_Workspace c = key)) (in_console i) || existsb (λ s, bool_decide (sc_Host s = key) || str_in key (sc_With s)) (in_shared i).
End inputs.
