(* ===== verification/SlackReport.v ===== *)
(** * SlackReport: the report of a workspace's pass, and what is recorded of it

    [internal/slackroster/controller/controller.go], from the decision's report to the one
    that is published: the records refused, what Slack accepted and refused, the holds,
    leavers and adopted channels that are new since the last pass; and probe.go, the guests'
    sides of the channels a workspace hosts.

    The theorem: a report remembers what was recorded, so a process that starts from it
    records nothing again.

    How the words of a refused record read is a parameter; an audit record is what it is
    about. *)

From S2P Require Import Prelude GoStrings Runs Policy SlackPolicy Rails Asking SlackData SlackLayout SlackDerive SlackDecide SlackApply SlackInputs Journal.

Implicit Types (workspace key host name reason : string) (now : Z) (report : Report).

(** ** Reports *)

(** Why a pass over a workspace failed. *)
Inductive pass_problem :=
| Reading (e : pass_error) | NoToken (why : string) | DomainsUnread key (why : string) | OwnerNotConnected key (owner : string)
| NotObserved (e : observe_error) | NotDerived (e : derive_error).

(** [internal/slackroster/status/status.go:262-277 Outcome] *)
Inductive tick_outcome := Ended (o : Rails.Outcome) | OutcomeFailed.
#[global] Instance Outcome_eq_dec : EqDecision Rails.Outcome.
Proof. solve_decision. Defined.
#[global] Instance tick_outcome_eq_dec : EqDecision tick_outcome.
Proof. solve_decision. Defined.

(** [internal/slackroster/status/status.go:type Workspace]: what was decided ([Report], with
    the counts of its tick), and the rest of the document. *)
Record Status := mkStatus {
  ws_Report : Report; ws_Enabled : bool; ws_At : Z; ws_Outcome : tick_outcome; ws_Error : option pass_problem;
  ws_GuestSides : list (string * Discovered); ws_Recorded : list string }.

Definition empty_report workspace : Report := mkReport workspace "" (Rails.mkTick 0 0 0 0) [] [] [] 0 [] None.
(** The report of a workspace that has none. *)
Definition no_status : Status := mkStatus (empty_report "") false 0 (Ended OutcomeInSync) None [] [].

Definition set_channels report (channels : list ChannelReport) : Report :=
  mkReport (rp_Workspace report) (rp_Team report) (rp_Tick report) channels (rp_DiscoveredShared report) (rp_Discovered report)
    (rp_DiscoveredMore report) (rp_Leavers report) (rp_Breaker report).
Definition set_tick report (t : Tick) : Report :=
  mkReport (rp_Workspace report) (rp_Team report) t (rp_Channels report) (rp_DiscoveredShared report) (rp_Discovered report)
    (rp_DiscoveredMore report) (rp_Leavers report) (rp_Breaker report).
Definition set_state (c : ChannelReport) (s : ChannelState) reason : ChannelReport :=
  mkChannelReport (cr_Name c) (cr_ID c) (cr_Private c) (cr_Mode c) (cr_Shared c) (cr_Host c) (cr_Console c) s reason (cr_Members c) (cr_Breaker c).
Definition set_id (c : ChannelReport) (id : string) : ChannelReport :=
  mkChannelReport (cr_Name c) id (cr_Private c) (cr_Mode c) (cr_Shared c) (cr_Host c) (cr_Console c) (cr_State c) (cr_Reason c) (cr_Members c) (cr_Breaker c).
Definition set_members (c : ChannelReport) (ms : list Row) : ChannelReport :=
  mkChannelReport (cr_Name c) (cr_ID c) (cr_Private c) (cr_Mode c) (cr_Shared c) (cr_Host c) (cr_Console c) (cr_State c) (cr_Reason c) ms (cr_Breaker c).

(** ** The records refused *)

(** [internal/slackroster/reconcile/reconcile.go:209-212 DefinedTwice] *)
Definition DefinedTwice : string :=
  "defined in both git and the console: held and unchanged until one definition is removed " +:+
  "(remove it from git to manage it here, or delete the console record)".

Definition mode_or_extend (mode : string) : string := if empty mode then "extend" else mode.

(** A refusal that is [ErrDefinedInGit]. *)
Definition defined_in_git (why : refused_why) : bool :=
  match why with Unacceptable NamedInGit | Unacceptable AdoptedInGit => true | _ => false end.

Section refused.
Context (words : refused_why → string).

(** [internal/slackroster/controller/controller.go:Controller.reportRefused] *)
Definition refused_row key (r : string * SharedChannel * refused_why) : ChannelReport :=
  mkChannelReport r.1.1 "" (IsPrivate (sc_Private r.1.2) key) "extend" true key false ChannelHeld
    ("the shared channel's definition is refused and not acted on: " +:+ words r.2) [] None.

(** [internal/slackroster/controller/controller.go:Controller.reportConsoleRefused] *)
Definition console_refused_row (r : string * string * ConsoleChannel * refused_why) : ChannelReport :=
  let c := r.1.2 in
  mkChannelReport r.1.1.2 (cc_ChannelID c) (cc_Private c) (mode_or_extend (cc_Mode c)) false "" true ChannelHeld
    (if defined_in_git r.2 then DefinedTwice else "the console channel's record is refused and not acted on: " +:+ words r.2) [] None.

(** [internal/slackroster/controller/controller.go:definedTwice] *)
Definition definedTwice (ws : SlackWorkspace) (refused : list (string * string * ConsoleChannel * refused_why)) : gmap string bool :=
  foldl (λ m name, <[name := true]> m) ∅ (mjoin ((λ r, if defined_in_git r.2 then CoveredPolicy r.1.2 ws else []) <$> refused)).

(** [internal/slackroster/controller/controller.go:Controller.reportDefinedTwice] *)
Definition twice_row (bound : gmap string SlackChannel) name : ChannelReport :=
  let b := default (mkSlackChannel false "" [] [] "") (bound !! name) in
  mkChannelReport name (ch_Adopt b) (ch_Private b) (mode_or_extend (ch_Mode b)) false "" false ChannelHeld DefinedTwice [] None.

(** [internal/slackroster/controller/controller.go:512-514 Controller.workspace]: the report
    with everything refused. *)
Definition with_refused key (ws : SlackWorkspace) (i : inputs) (held : gmap string bool) report : Report :=
  set_channels report (rp_Channels report ++
    (refused_row key <$> List.filter (λ r, bool_decide (sc_Host r.1.2 = key)) (in_refused i)) ++
    (console_refused_row <$> List.filter (λ r, bool_decide (r.1.1.1 = key)) (in_consoleRefused i)) ++
    (twice_row (w_Channels ws) <$> sorted_keys held)).
End refused.

(** ** What Slack said *)

(** [internal/slackroster/controller/controller.go:channelOf]: the first channel an action
    concerns. *)
Definition channelOf report (a : Action) : option (nat * ChannelReport) :=
  list_find (λ c, cr_Name c = a_Channel a ∧ cr_Shared c = a_Shared a) (rp_Channels report).

(** [internal/slackroster/controller/controller.go:rowOf] *)
Definition rowOf (c : ChannelReport) (a : Action) : option (nat * Row) :=
  list_find (λ m, rw_UserID m = a_User a ∧ (rw_Action m = Some (a_Kind a) ∨ rw_State m = StateWillInvite ∨ rw_State m = StateWillRemove)) (cr_Members c).

Definition on_channel report (a : Action) (f : ChannelReport → ChannelReport) : Report :=
  match channelOf report a with Some (i, c) => set_channels report (<[i := f c]> (rp_Channels report)) | None => report end.
Definition on_row (c : ChannelReport) (a : Action) (f : Row → Row) : ChannelReport :=
  match rowOf c a with Some (i, m) => set_members c (<[i := f m]> (cr_Members c)) | None => c end.

(** [internal/slackroster/controller/controller.go:markDone] *)
Definition markDone report (a : Action) (ids : gmap string string) : Report :=
  on_channel report a (λ c,
    match a_Kind a with
    | ActionCreate | ActionAdopt | ActionShareAccept =>
        let c := set_state c ChannelOK "" in
        let id := default "" (ids !! a_Channel a) in if empty id then c else set_id c id
    | ActionShareInvite => set_state c ChannelWaiting ("waiting for " +:+ a_Guest a +:+ " to accept")
    | ActionInvite => on_row c a (λ m, mkRow (rw_Person m) (rw_Email m) (rw_UserID m) StateOK None "")
    | ActionRemove => match rowOf c a with Some (i, _) => set_members c (delete i (cr_Members c)) | None => c end
    end).

(** [internal/slackroster/controller/controller.go:markFailed] *)
Definition markFailed report (a : Action) (err : string) : Report :=
  let reason := "Slack refused: " +:+ TrimSpace err in
  on_channel report a (λ c,
    match a_Kind a with
    | ActionInvite | ActionRemove => on_row c a (λ m, mkRow (rw_Person m) (rw_Email m) (rw_UserID m) StateRetrying (rw_Action m) reason)
    | _ => set_state c ChannelHeld reason
    end).

(** [internal/slackroster/controller/controller.go:740-766 Controller.fold]: one outcome; the
    counts are of what was held, done and failed. *)
Definition fold_step (ids : gmap string string) (s : Report * list Held * (nat * nat * nat)) (o : SlackApply.Outcome) :
    Report * list Held * (nat * nat * nat) :=
  let '(report, found, (held, done, failed)) := s in
  let a := oc_Action o in
  if negb (empty (oc_Held o)) then
    (on_channel report a (λ c, set_state c ChannelHeld (oc_Held o)), found ++ [mkHeld (a_Channel a) "" "" "create" (oc_Held o)], (S held, done, failed))
  else match oc_Err o with
  | Some err => (markFailed report a err, found, (held, done, S failed))
  | None => (markDone report a ids, found, (held, S done, failed))
  end.

(** [internal/slackroster/controller/controller.go:Controller.fold] *)
Definition fold report (outcomes : list SlackApply.Outcome) (ids : gmap string string) : Report * list Held :=
  let '(report, found, (held, done, failed)) := foldl (fold_step ids) (report, [], (0, 0, 0)) outcomes in
  let t := rp_Tick report in
  (set_tick report (Rails.mkTick done (tk_Held t + held) (tk_Retrying t + failed) (tk_Waiting t)), found).

(** [internal/slackroster/controller/controller.go:countWaiting] *)
Definition countWaiting report : nat :=
  length (List.filter (λ c, bool_decide (cr_State c = ChannelWaiting)) (rp_Channels report)).

(** ** What is recorded once *)

(** An audit record of a pass that is not of a change. *)
Inductive noted := NowHeld (h : Held) | NowLeft (l : Leaver) | NowAdopted (a : Adoption).

(** What the controller remembers having recorded, by workspace. *)
Record ledgers := mkLedgers { lg_held : gmap string (gset string); lg_leavers : gmap string (gset string); lg_adopted : gmap string (gset string) }.

(** [internal/slackroster/controller/controller.go:819-823 holdPrefix] *)
Definition holdPrefix : string := "hold|".
(** [internal/slackroster/controller/controller.go:819-823 leaverPrefix] *)
Definition leaverPrefix : string := "leaver|".
(** [internal/slackroster/controller/controller.go:819-823 adoptedPrefix] *)
Definition adoptedPrefix : string := "adopted|".

(** [internal/slackroster/controller/controller.go:recordedOf] *)
Definition recordedOf (s : Status) prefix : list string := omap (λ k, CutPrefix k prefix) (ws_Recorded s).

Definition adopted_key (a : Adoption) : string := ad_Channel a +:+ "|" +:+ ad_ID a.

(** [internal/slackroster/controller/controller.go:Controller.emit]: those that are fresh. *)
Definition emit {A} (events : list A) (fresh : list bool) : list A := (List.filter snd (zip events fresh)).*1.

Section record.
Context (reads : bool) (Key : string → string) (Decode : string → option Status).

(** [internal/rails/journal.go:Journal.Previous], of this controller's reports. *)
Definition previous (last : gmap string Status) workspace : prog slack_call Status :=
  lift (@InJournal) (Previous reads no_status Key Decode last workspace).

(** [internal/rails/ledger.go:Ledger.Fresh], seeded with what the last report says was
    recorded. *)
Definition fresh_keys (l : gmap string (gset string)) workspace (now_ : list string) (last : gmap string Status) prefix :
    prog slack_call (list bool * gmap string (gset string)) :=
  prog_bind (match l !! workspace with Some _ => Ret [] | None => prog_bind (previous last workspace) (λ s, Ret (recordedOf s prefix)) end)
    (λ seed, Ret (Fresh l workspace now_ seed)).

(** [internal/slackroster/controller/controller.go:Controller.recordNew]: what is recorded,
    and the report's [Recorded]. *)
Definition recordNew workspace (dec : Decision) (found : list Held) report (last : gmap string Status) (lg : ledgers) :
    prog slack_call (list noted * list string * ledgers) :=
  let holds := dec_Held dec ++ found in
  let adopted := dec_Adopted dec in
  let leavers := rp_Leavers report in
  prog_bind (fresh_keys (lg_held lg) workspace (Held_Key <$> holds) last holdPrefix) (λ '(fresh_holds, held),
  prog_bind (fresh_keys (lg_leavers lg) workspace (lv_UserID <$> leavers) last leaverPrefix) (λ '(fresh_leavers, leaving),
  prog_bind (fresh_keys (lg_adopted lg) workspace (adopted_key <$> adopted) last adoptedPrefix) (λ '(fresh_adopted, known),
  Ret ((NowHeld <$> emit holds fresh_holds) ++ (NowLeft <$> emit leavers fresh_leavers) ++
         (NowAdopted <$> emit adopted (zip_with (λ a fresh, if ad_Joins a then false else fresh) adopted fresh_adopted)),
       (String.append adoptedPrefix ∘ adopted_key <$> adopted) ++ (String.append holdPrefix ∘ Held_Key <$> holds) ++
         (String.append leaverPrefix ∘ lv_UserID <$> leavers),
       mkLedgers held leaving known)))).
End record.

(** ** The guests' sides *)

Section probe.
Context (reads : bool) (Key : string → string) (Decode : string → option Status).
Context (declared : list string) (i : inputs) (host : string).

(** The reports the probe starts from: every declared workspace's, the host's own being the
    one just made. *)
Fixpoint reports_each (ks : list string) (last : gmap string Status) (out : gmap string Report) : prog slack_call (gmap string Report) :=
  match ks with
  | [] => Ret out
  | key :: rest =>
      if bool_decide (key = host) then reports_each rest last out
      else prog_bind (previous reads Key Decode last key) (λ s, reports_each rest last (<[key := ws_Report s]> out))
  end.

Section sightings.
Context (reports : gmap string Report).

(** Every channel shared with another organisation, by who listed it, in the order of the
    workspaces' names. *)
Definition sightings : list (string * Discovered) :=
  mjoin ((λ key, pair key <$> from_option rp_DiscoveredShared [] (reports !! key)) <$> sorted_keys reports).

Definition of_channel (id : string) : list (string * Discovered) := List.filter (λ s, bool_decide (dc_ID s.2 = id)) sightings.
(** [internal/slackroster/controller/probe.go:57-71 Controller.probeGuestSides] *)
Definition first_seen (id : string) : option Discovered := snd <$> head (of_channel id).
Definition managed_channel (id : string) : bool := existsb (λ s, dc_Managed s.2) (of_channel id).
Definition lists_it (id key : string) : bool := existsb (λ s, bool_decide (s.1 = key)) (of_channel id).
(** [internal/slackroster/controller/probe.go:73-86 Controller.probeGuestSides] *)
Definition in_channel_team (id team : string) : bool :=
  existsb (λ s, negb (empty (dc_HostTeam s.2)) && bool_decide (dc_HostTeam s.2 = team) || str_in team (dc_Teams s.2)) (of_channel id).
(** [internal/slackroster/controller/probe.go:89-95 Controller.probeGuestSides] *)
Definition team_of key : string :=
  if str_in key declared then
    let team := from_option rp_Team "" (reports !! key) in
    if empty team then (default ("", "") (st_recorded (in_store i) !! key)).1 else team
  else "".

(** [internal/slackroster/controller/probe.go:98-105 Controller.probeGuestSides] *)
Definition names_guest (id : string) (d : Discovered) : bool :=
  existsb (λ key, let team := team_of key in
    negb (empty team) && in_channel_team id team && negb (lists_it id key) && negb (bool_decide (team = dc_HostTeam d))) declared.

(** [internal/slackroster/controller/probe.go:108-135 Controller.probeGuestSides]: the records
    of a managed channel. *)
Definition records_of (id : string) (d : Discovered) : list SharedChannel :=
  if managed_channel id then
    List.filter (λ rec,
      if negb (empty (sc_ChannelID rec)) then bool_decide (sc_ChannelID rec = id)
      else NamesChannel rec (dc_Name d) (dc_HostTeam d) (team_of (sc_Host rec)) (lists_it id (sc_Host rec))) (in_shared i)
  else [].
Definition sides_of (id : string) (d : Discovered) : list string := mjoin ((λ rec, sc_Host rec :: sc_With rec) <$> records_of id d).
Definition hosted_here (id : string) (d : Discovered) : bool := existsb (λ rec, bool_decide (sc_Host rec = host)) (records_of id d).

(** [internal/slackroster/controller/probe.go:147-170 Controller.probeGuestSides]: whether a
    workspace is asked about a channel, which takes a bot. *)
Definition asks_side (id : string) (d : Discovered) key : bool :=
  negb (lists_it id key) && (if names_guest id d then in_channel_team id (team_of key) else str_in key (sides_of id d)) &&
  match token (in_store i) key with Ok _ => true | Err _ => false end.

(** [internal/slackroster/controller/probe.go:186-198 Controller.probeGuestSides] *)
Definition side (id : string) (d : Discovered) (info : ListedChannel) : Discovered :=
  mkDiscovered id (lch_Name info) (lch_IsPrivate info) (lch_NumMembers info)
    (if empty (lch_HostID info) then dc_HostTeam d else lch_HostID info) (Teams info) (managed_channel id).

(** The workspaces asked about one channel. *)
Fixpoint probe_sides (id : string) (d : Discovered) (ks : list string) : prog slack_call (list (string * Discovered)) :=
  match ks with
  | [] => Ret []
  | key :: rest =>
      if asks_side id d key then
        Do (ProbeChannel key id) (λ r,
          prog_bind (probe_sides id d rest) (λ found, Ret (
            match r with
            | Ok info => if bool_decide (lch_ID info = id) && lch_IsExtShared info && negb (lch_IsArchived info) then (key, side id d info) :: found else found
            | Err _ => found
            end)))
      else probe_sides id d rest
  end.

(** [internal/slackroster/controller/probe.go:142-205 Controller.probeGuestSides]: every channel this
    workspace hosts. *)
Fixpoint probe_channels (ids : list string) : prog slack_call (list (string * Discovered)) :=
  match ids with
  | [] => Ret []
  | id :: rest =>
      match first_seen id with
      | Some d =>
          if managed_channel id && hosted_here id d then
            prog_bind (probe_sides id d (sort_strings declared)) (λ found, prog_bind (probe_channels rest) (λ more, Ret (found ++ more)))
          else probe_channels rest
      | None => probe_channels rest
      end
  end.
End sightings.

(** [internal/slackroster/controller/probe.go:Controller.probeGuestSides] *)
Definition probeGuestSides (last : gmap string Status) (own : Status) : prog slack_call Status :=
  if bool_decide (ws_Outcome own = OutcomeFailed ∨ ws_Outcome own = Ended OutcomeWaiting) then Ret own
  else if negb (existsb (λ s, bool_decide (sc_Host s = host)) (in_shared i)) then
    Ret (mkStatus (ws_Report own) (ws_Enabled own) (ws_At own) (ws_Outcome own) (ws_Error own) [] (ws_Recorded own))
  else
    prog_bind (reports_each (sort_strings declared) last {[host := ws_Report own]}) (λ reports,
    prog_bind (probe_channels reports (compact (sort_strings (dc_ID ∘ snd <$> sightings reports)))) (λ found,
    let r := ws_Report own in
    let mine := snd <$> List.filter (λ f : string * Discovered, bool_decide (f.1 = host)) found in
    Ret (mkStatus
      (mkReport (rp_Workspace r) (rp_Team r) (rp_Tick r) (rp_Channels r) (rp_DiscoveredShared r ++ mine) (rp_Discovered r)
         (rp_DiscoveredMore r) (rp_Leavers r) (rp_Breaker r))
      (ws_Enabled own) (ws_At own) (ws_Outcome own) (ws_Error own)
      (List.filter (λ f : string * Discovered, negb (bool_decide (f.1 = host))) found) (ws_Recorded own)))).
End probe.

(** ** What a report remembers *)

Section ledger.
Context (Key : string → string) (Decode : string → option Status).

Lemma CutPrefix_app prefix s : CutPrefix (prefix +:+ s) prefix = Some s.
Proof. by apply CutPrefix_spec. Qed.

(** The keys of one kind, and of no other. *)
Lemma elem_of_recordedOf s prefix key : key ∈ recordedOf s prefix ↔ prefix +:+ key ∈ ws_Recorded s.
Proof.
  unfold recordedOf. rewrite list_elem_of_omap. split.
  - intros (k&Hk&Hcut). apply CutPrefix_spec in Hcut. by subst k.
  - intros Hk. exists (prefix +:+ key). split; [done|]. apply CutPrefix_app.
Qed.

(** What the last report says was recorded. *)
Definition kept_in (s : Status) prefix key : bool := bool_decide (prefix +:+ key ∈ ws_Recorded s).

Lemma kept_in_seed s prefix key : bool_decide (key ∈@{gset string} list_to_set (recordedOf s prefix)) = kept_in s prefix key.
Proof. apply bool_decide_ext. by rewrite elem_of_list_to_set, elem_of_recordedOf. Qed.

(** What is recorded of a list: what the last report did not say, some left out. *)
Lemma emit_fresh {A} (key : A → string) (skip : A → bool) (l : list A) (lg : gmap string (gset string)) workspace s prefix : lg !! workspace = None →
  emit l (zip_with (λ a fresh, if skip a then false else fresh) l (Fresh lg workspace (key <$> l) (recordedOf s prefix)).1) =
  List.filter (λ a, negb (skip a) && negb (kept_in s prefix (key a))) l.
Proof.
  intros Hlg. unfold Fresh, emit. rewrite Hlg. cbn [fst]. clear Hlg. induction l as [|a l IH]; [done|].
  cbn [fmap list_fmap zip zip_with List.filter snd]. rewrite kept_in_seed.
  destruct (skip a); cbn [negb andb]; [by rewrite <- IH|]. destruct (negb _); cbn [fmap list_fmap fst]; by rewrite <- IH.
Qed.
Lemma emit_all_fresh {A} (key : A → string) (l : list A) (lg : gmap string (gset string)) workspace s prefix : lg !! workspace = None →
  emit l (Fresh lg workspace (key <$> l) (recordedOf s prefix)).1 = List.filter (λ a, negb (kept_in s prefix (key a))) l.
Proof.
  intros Hlg. pose proof (emit_fresh key (λ _, false) l lg workspace s prefix Hlg) as He. cbn [negb andb] in He. rewrite <- He. clear He. f_equal.
  unfold Fresh. rewrite Hlg. cbn [fst]. clear Hlg. induction l as [|a l IH]; [done|]. cbn. by rewrite <- IH.
Qed.

(** A run whose store of reports answers with what was published. *)
Definition answers_with (answer : ∀ B, slack_call B → B) workspace (s : Status) : Prop :=
  ∃ documents document, answer _ (InJournal Reports) = Some documents ∧ documents !! Key workspace = Some document ∧ Decode document = Some s.

Lemma played_bind {E Ev A B} (see : ∀ B, E B → B → Ev) answer (p : prog E A) (k : A → prog E B) :
  (played see answer (prog_bind p k)).2 = (played see answer (k (played see answer p).2)).2.
Proof.
  induction p as [a|C c k' IH]; [done|]. cbn [prog_bind played]. specialize (IH (answer C c)).
  destruct (played see answer (prog_bind _ k)) as [t1 b]. destruct (played see answer (k' _)) as [t2 a]. cbn in *. done.
Qed.

(** A process that remembers nothing starts from the published report. *)
Lemma fresh_restart answer (lg : gmap string (gset string)) workspace ks s prefix : answers_with answer workspace s → lg !! workspace = None →
  (played (@See) answer (fresh_keys true Key Decode lg workspace ks ∅ prefix)).2 = Fresh lg workspace ks (recordedOf s prefix).
Proof.
  intros (documents&document&Hr&Hd&Hs) Hlg. unfold fresh_keys, previous, Previous. rewrite Hlg, lookup_empty.
  cbn [lift prog_bind played]. rewrite Hr. cbn. by rewrite Hd; cbn; rewrite Hs.
Qed.
End ledger.

(** What a report names under one of the prefixes, of a list that is a number of
    prefixed ones. *)
Lemma names_under {A} (key : A → string) prefix (l : list A) k :
  prefix +:+ k ∈ (String.append prefix ∘ key <$> l) ↔ ∃ a, a ∈ l ∧ key a = k.
Proof.
  rewrite list_elem_of_fmap. split.
  - intros (a&Heq&Ha). exists a. split; [done|]. by apply (inj (String.append prefix)) in Heq.
  - intros (a&Ha&<-). by exists a.
Qed.

Lemma names_other {A} (key : A → string) prefix other (l : list A) k :
  (∀ x y, prefix +:+ x ≠ other +:+ y) → prefix +:+ k ∉ (String.append other ∘ key <$> l).
Proof. intros Hne (a&Heq&_)%list_elem_of_fmap. by eapply Hne. Qed.

(** C12: what was recorded is recorded once, over restarts.  A controller that remembers
    nothing, whose store answers with the report the last process published, records of a
    pass exactly the holds, the leavers and the adopted channels that report does not name -
    but a channel it joins, which the join records.  Its own report, whatever the last one
    named, names exactly what stands now: a process that starts from it takes a hold, a leaver
    or an adopted channel for recorded exactly when this pass decided it; so a pass that
    starts from that report and decides the same records nothing. *)
Theorem recorded_once Key Decode answer workspace dec found report s : answers_with Key Decode answer workspace s →
  let holds := dec_Held dec ++ found in
  let run := (played (@See) answer (recordNew true Key Decode workspace dec found report ∅ (mkLedgers ∅ ∅ ∅))).2 in
  run.1.1 = (NowHeld <$> List.filter (λ h, negb (kept_in s holdPrefix (Held_Key h))) holds) ++
            (NowLeft <$> List.filter (λ l, negb (kept_in s leaverPrefix (lv_UserID l))) (rp_Leavers report)) ++
            (NowAdopted <$> List.filter (λ a, negb (ad_Joins a) && negb (kept_in s adoptedPrefix (adopted_key a))) (dec_Adopted dec)) ∧
  (∀ s', ws_Recorded s' = run.1.2 → ∀ k,
    (kept_in s' holdPrefix k = true ↔ ∃ h, h ∈ holds ∧ Held_Key h = k) ∧
    (kept_in s' leaverPrefix k = true ↔ ∃ l, l ∈ rp_Leavers report ∧ lv_UserID l = k) ∧
    (kept_in s' adoptedPrefix k = true ↔ ∃ a, a ∈ dec_Adopted dec ∧ adopted_key a = k)) ∧
  (∀ k, k ∈ run.1.2 → ∃ key, k ∈ [holdPrefix +:+ key; leaverPrefix +:+ key; adoptedPrefix +:+ key]) ∧
  (ws_Recorded s = run.1.2 → run.1.1 = []).
Proof.
  intros Ha. cbv zeta. unfold recordNew.
  rewrite !played_bind, (fresh_restart Key Decode answer _ _ _ s) by done.
  set (f1 := Fresh _ _ _ _). destruct f1 as [fresh_holds held] eqn:H1. subst f1.
  rewrite !played_bind, (fresh_restart Key Decode answer _ _ _ s) by done.
  set (f2 := Fresh _ _ _ _). destruct f2 as [fresh_leavers leaving] eqn:H2. subst f2.
  rewrite !played_bind, (fresh_restart Key Decode answer _ _ _ s) by done.
  set (f3 := Fresh _ _ _ _). destruct f3 as [fresh_adopted known] eqn:H3. subst f3. cbn [played snd fst].
  apply (f_equal fst) in H1, H2, H3. cbn [fst] in H1, H2, H3. subst fresh_holds fresh_leavers fresh_adopted.
  rewrite !emit_all_fresh, emit_fresh by done. split; [done|]. split.
  { intros s' Hs k. unfold kept_in. rewrite !bool_decide_eq_true, Hs, !elem_of_app, !names_under.
    split_and!; (split; [|tauto]); intros [Hk|[Hk|Hk]]; try done; by eapply names_other in Hk. }
  split.
  { intros k. rewrite !elem_of_app, !list_elem_of_fmap.
    intros [(a&->&_)|[(h&->&_)|(l&->&_)]]; eexists; rewrite !elem_of_cons; cbn; eauto. }
  intros Hs.
  assert (∀ {A} (key : A → string) (l : list A) prefix (other : A → bool), (∀ a, a ∈ l → prefix +:+ key a ∈ ws_Recorded s) →
    List.filter (λ a, other a && negb (kept_in s prefix (key a))) l = []) as Hnone.
  { intros A key l prefix other Hin. apply elem_of_nil_inv. intros a [Hal [_ Hno]%andb_true_iff]%elem_of_filter_bool.
    unfold kept_in in Hno. by rewrite bool_decide_true in Hno by auto. }
  rewrite (Hnone _ Held_Key _ holdPrefix (λ _, true)), (Hnone _ lv_UserID _ leaverPrefix (λ _, true)), (Hnone _ adopted_key _ adoptedPrefix); [done|..];
    intros a Hin; rewrite Hs, !elem_of_app, !list_elem_of_fmap; [left|right;right|right;left]; by exists a.
Qed.

(** ** Witness: a hold that the last process recorded *)

Definition sample_hold : Held := mkHeld "new" "" "" "create" "the name is taken".
Definition last_status : Status := mkStatus (empty_report "team") true 0 (Ended OutcomeHeld) None [] [holdPrefix +:+ Held_Key sample_hold].
Definition last_decode (document : string) : option Status := if bool_decide (document = "held") then Some last_status else None.
Definition last_answers {B} (c : slack_call B) : B :=
  match c in slack_call B return B with
  | InJournal c => match c in report_call B return B with Reports => Some {["team" := "held"]} | c => sample_answers "" (InJournal c) end
  | c => sample_answers "" c
  end.
Lemma last_answered : answers_with (λ workspace, workspace) last_decode (@last_answers) "team" last_status.
Proof. by exists {["team" := "held"]}, "held". Qed.

Lemma recorded_once_witness : (played (@See) (@last_answers) (recordNew true (λ workspace, workspace) last_decode "team"
  (mkDecision (empty_report "team") [] [] []) [sample_hold] (empty_report "team") ∅ (mkLedgers ∅ ∅ ∅))).2.1.1 = [].
Proof.
  exact (proj2 (proj2 (proj2 (recorded_once (λ workspace, workspace) last_decode (@last_answers) "team" (mkDecision (empty_report "team") [] [] []) [sample_hold]
    (empty_report "team") last_status last_answered))) eq_refl).
Defined.
