(* ===== verification/SlackPass.v ===== *)
(** * SlackPass: one pass over a Slack workspace, from its reads to its changes

    [internal/slackroster/controller]: controller.go ([workspace], [Tick], [RunTarget],
    [Pass]) and inputs.go.  What is read before Slack is asked is [SlackInputs]; reading Slack
    and acting is [SlackApply]; what is decided is [SlackDerive] and [SlackDecide]; the report
    is [SlackReport].  One tick runs at a time here, with one time of its own.

    The theorems: nobody is put out of a channel but by an enabled workspace, from a strict
    channel they were read in, with every address of theirs settled by the directory; and a
    pass that could not read, or may not act, changes nothing.

    Log lines, metrics and the question behind a log line (which shares wait) are left out. *)

From S2P Require Import Prelude GoStrings Sha256 Base64 Runs Policy SlackPolicy Rails Asking SlackData SlackLayout SlackDerive SlackDecide SlackApply SlackInputs SlackReport Journal.

Implicit Types (workspace key host guest email name id user : string) (now : Z).

(** An answer about an address, and whether it came under another policy. *)
(** [internal/slackroster/controller/controller.go:type answer] *)
Notation answered := (option Vouch * bool)%type.

(** What a pass records. *)
Inductive pass_event := Made (a : applied) | Noted (n : noted).

(** What a workspace's pass leaves. *)
Record after := mkAfter {
  af_Status : Status; af_Other : bool; af_answers : gmap string answered; af_last : gmap string Status; af_ledgers : ledgers;
  af_events : list pass_event }.

(** How a pass begins. *)
Inductive start := CannotStart (e : pass_problem) | NotYet | Starts (inp : Input).

Section pass.
Context (guard : PolicyGuard) (policy : Policy) (Enabled : string → bool).
(** There is a cache of members; shares are handed over by a record; the store of reports. *)
Context (cached handoff reads removes : bool) (Key : string → string) (Encode : Status → option string) (Decode : string → option Status).
Context (words : refused_why → string).

(** ** What Slack is asked about *)

(** [internal/slackroster/controller/controller.go:Controller.sharesWith] *)
Definition sharesWith (shared : list SharedChannel) (a b : string) : bool :=
  existsb (λ s, let sides := sc_Host s :: sc_With s in str_in a sides && str_in b sides) shared.

(** [internal/slackroster/controller/controller.go:478-492 Controller.workspace]: one
    workspace's owning directory. *)
Definition owner_problem (i : inputs) key (facts : gmap string Facts) (k : string) : option pass_problem :=
  if negb (bool_decide (k = key)) && negb (sharesWith (in_shared i) key k) then None
  else
    let owner := f_Owner (default no_facts (facts !! k)) in
    if empty owner then None
    else match in_served i with
    | Err why => Some (DomainsUnread k why)
    | Ok served => if bool_decide (is_Some (served !! owner)) then None else Some (OwnerNotConnected k owner)
    end.

(** [internal/slackroster/controller/controller.go:allSources] *)
Definition allSources (i : inputs) : list string := mjoin (cc_Sources <$> in_console i) ++ mjoin (sc_Sources <$> in_shared i).

Definition not_observed : Observed := mkObserved "" "" [] ∅ ∅ [].

(** [internal/slackroster/controller/controller.go:493-498 Controller.workspace] *)
Definition input_of (i : inputs) key (facts : gmap string Facts) (holders : gmap string (list Holder)) : Input :=
  mkInput key (Slack policy) facts (People policy) holders (in_shared i) (in_console i)
    (definedTwice (default (mkSlackWorkspace ∅) (Slack policy !! key)) (List.filter (λ r, bool_decide (r.1.1.1 = key)) (in_consoleRefused i)))
    (dd_holders (in_dir i)) (holdersOf (in_dir i)) (nestedOf (in_dir i) (allSources i)) (st_bots (in_store i)) not_observed.

(** [internal/slackroster/controller/controller.go:448-498 Controller.workspace]: whether a
    pass can begin. *)
Definition start_of (i : inputs) key : start :=
  match in_holders i, in_dirErr i with
  | Err e, _ => CannotStart (Reading e)
  | Ok holders, dirErr =>
      match (if dependsOnDirectory i key then dirErr else None) with
      | Some e => CannotStart (Reading e)
      | None =>
          match token (in_store i) key with
          | Err NotConnected | Err NotInstalled => NotYet
          | Err (BadCredential why) => CannotStart (NoToken why)
          | Ok _ =>
              let facts := facts (in_store i) (Slack policy) (match in_served i with Ok served => served | Err _ => ∅ end) in
              match head (omap (owner_problem i key facts) (sorted_keys facts)) with
              | Some e => CannotStart e
              | None => Starts (input_of i key facts holders)
              end
          end
      end
  end.

(** [internal/slackroster/controller/controller.go:499-506 Controller.workspace] *)
Definition observe (inp : Input) : prog slack_call (result pass_problem Draft) :=
  prog_bind (ObserveCached inp cached) (λ r, Ret (
    match r with
    | Err e => Err (NotObserved e)
    | Ok obs => match Derive (observed_input inp obs) with Ok d => Ok d | Err e => Err (NotDerived e) end
    end)).

(** [internal/slackroster/controller/controller.go:717-728 Controller.vouch]: one address. *)
Definition ask_vouch email : prog slack_call answered :=
  Do (Explain email) (λ r, Ret (
    match r with
    | Err _ => (None, false)
    | Ok (v, digest) => if PolicyGuard_Check guard digest then (Some v, false) else (None, true)
    end)).

(** [internal/slackroster/controller/controller.go:Controller.vouch] *)
Fixpoint vouch (emails : list string) (answers : gmap string answered) (out : gmap string Vouch) (differs : bool) :
    prog slack_call (gmap string Vouch * bool * gmap string answered) :=
  match emails with
  | [] => Ret (out, differs, answers)
  | email :: rest =>
      prog_bind (match answers !! email with
                 | Some a => Ret (a, answers)
                 | None => prog_bind (ask_vouch email) (λ a, Ret (a, <[email := a]> answers))
                 end) (λ '(a, answers),
        vouch rest answers (match a.1 with Some v => <[email := v]> out | None => out end) (differs || a.2))
  end.

(** ** Other workspaces *)

(** [internal/slackroster/controller/inputs.go:Controller.wake] *)
Definition wake host guest : prog slack_call unit :=
  if bool_decide (guest = host) || bool_decide (Slack policy !! guest = None) then Ret tt else Do (Notify guest) (λ _, Ret tt).

(** [internal/slackroster/controller/inputs.go:Controller.inviteGuests] *)
Fixpoint inviteGuests host (outcomes : list SlackApply.Outcome) (ids : gmap string string) : prog slack_call unit :=
  match outcomes with
  | [] => Ret tt
  | o :: rest =>
      let a := oc_Action o in
      if negb (bool_decide (a_Kind a = ActionShareInvite)) || negb (oc_Done o) || negb (bool_decide (oc_Err o = None)) || negb (empty (oc_Held o))
      then inviteGuests host rest ids
      else
        prog_bind
          (if negb handoff then wake host (a_Guest a)
           else
             let id := if empty (a_ChannelID a) then default "" (ids !! a_Channel a) else a_ChannelID a in
             Do (OfferShare host (a_Channel a) id (a_Guest a) (a_InviteID a)) (λ ok, if ok : bool then Ret tt else wake host (a_Guest a)))
          (λ _, inviteGuests host rest ids)
  end.

(** [internal/slackroster/controller/inputs.go:Controller.acceptedShares] *)
Fixpoint acceptedShares guest (outcomes : list SlackApply.Outcome) (ids : gmap string string) : prog slack_call unit :=
  if negb handoff then Ret tt
  else match outcomes with
  | [] => Ret tt
  | o :: rest =>
      let a := oc_Action o in
      if negb (bool_decide (a_Kind a = ActionShareAccept)) || negb (oc_Done o) || negb (bool_decide (oc_Err o = None))
      then acceptedShares guest rest ids
      else Do (ShareAccepted (a_Host a) (a_Channel a) (default "" (ids !! a_Channel a)) guest) (λ _, acceptedShares guest rest ids)
  end.

(** [internal/slackroster/controller/inputs.go:Controller.wakePendingGuests], the guests in
    the order of their names. *)
Fixpoint wakePendingGuests host (guests : list string) (bots : gmap string string) (invites : list Invite) : prog slack_call unit :=
  match guests with
  | [] => Ret tt
  | guest :: rest =>
      let bot := default "" (bots !! guest) in
      prog_bind
        (if bool_decide (guest = host) || empty bot then Ret tt
         else if existsb (λ inv, negb (i_Incoming inv) && bool_decide (i_RecipientUserID inv = bot)) invites then wake host guest
         else Ret tt)
        (λ _, wakePendingGuests host rest bots invites)
  end.

(** ** A workspace's pass *)

(** [internal/slackroster/controller/controller.go:518-524 Controller.workspace]: what an
    enabled workspace does; the report, what it says was recorded, and what is. *)
Definition act key (dec : Decision) (report : Report) (last : gmap string Status) (lg : ledgers) :
    prog slack_call (Report * list string * ledgers * list pass_event) :=
  prog_bind (Apply false false (dec_Actions dec) ∅) (λ '(outcomes, ids, made),
  let '(report, found) := fold report outcomes ids in
  prog_bind (recordNew reads Key Decode key dec found report last lg) (λ '(new, recorded, lg),
  prog_bind (inviteGuests key outcomes ids) (λ _,
  prog_bind (acceptedShares key outcomes ids) (λ _,
  Ret (report, recorded, lg, (Made <$> made) ++ (Noted <$> new)))))).

(** [internal/slackroster/controller/controller.go:440-446 Controller.workspace fail]: the
    failure over what was last known. *)
Definition failed key now (e : pass_problem) (s : Status) : Status :=
  let r := ws_Report s in
  mkStatus (mkReport key (rp_Team r) (Rails.mkTick 0 0 0 0) (rp_Channels r) (rp_DiscoveredShared r) (rp_Discovered r) (rp_DiscoveredMore r)
    (rp_Leavers r) (rp_Breaker r)) (Enabled key) now OutcomeFailed (Some e) (ws_GuestSides s) (ws_Recorded s).

Definition other_policy (e : pass_problem) : bool := match e with Reading e => is_other e | _ => false end.

(** [internal/slackroster/controller/controller.go:527-530 Controller.workspace] *)
Definition finished key now (report : Report) (recorded : list string) : Status :=
  let t := rp_Tick report in
  let t := Rails.mkTick (tk_Changes t) (tk_Held t) (tk_Retrying t) (countWaiting report) in
  mkStatus (set_tick report t) (Enabled key) now (Ended (Decide (Enabled key) t)) None [] recorded.

(** [internal/slackroster/controller/controller.go:Controller.workspace] *)
Definition workspace (i : inputs) key now (answers : gmap string answered) (last : gmap string Status) (lg : ledgers) :
    prog slack_call (result panic after) :=
  let fail e := prog_bind (previous reads Key Decode last key) (λ s, Ret (Ok (mkAfter (failed key now e s) (other_policy e) answers last lg []))) in
  match start_of i key with
  | CannotStart e => fail e
  | NotYet => Ret (Ok (mkAfter (mkStatus (empty_report key) (Enabled key) now (Ended OutcomeWaiting) None [] []) false answers last lg []))
  | Starts inp =>
      prog_bind (observe inp) (λ r,
      match r with
      | Err e => fail e
      | Ok draft =>
          prog_bind (vouch (Draft_Confirm draft) answers ∅ false) (λ '(vouches, other, answers),
          match Draft_Decide draft vouches (confirmed (in_store i) key now) with
          | Err stop => Ret (Err stop)
          | Ok dec =>
              let report := with_refused words key (default (mkSlackWorkspace ∅) (Slack policy !! key)) i (n_DefinedTwice inp) (dec_Report dec) in
              prog_bind (if Enabled key then act key dec report last lg else Ret (report, [], lg, [])) (λ '(report, recorded, lg, events),
              let obs := n_Observed (d_in draft) in
              let bots := n_Bots (d_in draft) in
              prog_bind (wakePendingGuests key (sorted_keys bots) bots (ob_Invites obs)) (λ _,
              let s := finished key now report recorded in
              Ret (Ok (mkAfter s other answers (Remember last key s) lg events))))
          end)
      end)
  end.

(** ** Ticks and passes *)

(** [internal/slackroster/controller/inputs.go:17-21 sharedTTL] *)
Definition sharedTTL : Z := 5 * 60 * 1000000000.
(** [internal/slackroster/controller/inputs.go:type sharedInputs], with the answers so far. *)
Record sharedInputs := mkSharedInputs { sh_key : list Z; sh_at : Z; sh_inputs : inputs; sh_answers : gmap string answered }.

(** What the controller remembers. *)
Record memory := mkMemory { sm_last : gmap string Status; sm_ledgers : ledgers; sm_shared : option sharedInputs }.

Context (show_time : Z → string).

(** [internal/slackroster/controller/inputs.go:Controller.inputKey], the records being in a
    store. *)
Definition inputKey now : prog slack_call (list Z) :=
  Do RecordsDigest (λ digest, Ret (Sum256 (Digest guard +:+ default (string_of_bytes (Sum256 (show_time now))) digest))).

(** [internal/slackroster/controller/inputs.go:Controller.inputs] *)
Definition get_inputs (fresh : bool) now (shared : option sharedInputs) : prog slack_call sharedInputs :=
  prog_bind (inputKey now) (λ k,
  let read := prog_bind (readInputs guard policy) (λ i, Ret (mkSharedInputs k now i ∅)) in
  match shared with
  | Some kept => if negb fresh && bool_decide (sh_key kept = k) && (now - sh_at kept <? sharedTTL)%Z then Ret kept else read
  | None => read
  end).

Inductive tick_error := ErrUnknownTarget | LeaseUnknown | Crashed (stop : panic).

(** [internal/slackroster/controller/controller.go:Controller.Tick] *)
Definition Tick target now (m : memory) : prog slack_call (result tick_error bool * memory * list pass_event) :=
  match Slack policy !! target with
  | None => Ret (Err ErrUnknownTarget, m, [])
  | Some _ =>
      prog_bind (get_inputs false now (sm_shared m)) (λ kept,
      let i := sh_inputs kept in
      prog_bind (workspace i target now (sh_answers kept) (sm_last m) (sm_ledgers m)) (λ r,
      match r with
      | Err stop => Ret (Err (Crashed stop), m, [])
      | Ok a =>
          prog_bind (probeGuestSides reads Key Decode (sorted_keys (Slack policy)) i target (af_last a) (af_Status a)) (λ report,
          prog_bind (lift (@InJournal) (PublishOne Key Encode target report)) (λ _,
          Ret (Ok (af_Other a), mkMemory (af_last a) (af_ledgers a) (Some (mkSharedInputs (sh_key kept) (sh_at kept) i (af_answers a))), af_events a)))
      end))
  end.

(** [internal/slackroster/controller/controller.go:Controller.RunTarget], with leases: whether
    it ran, and whether an answer came under another policy. *)
Definition RunTarget target now (m : memory) : prog slack_call (result tick_error (bool * bool) * memory * list pass_event) :=
  if bool_decide (Slack policy !! target = None) then Ret (Err ErrUnknownTarget, m, [])
  else
    Do (TakeLease target) (λ taken,
      match taken with
      | None => Ret (Err LeaseUnknown, m, [])
      | Some false => Ret (Ok (false, false), m, [])
      | Some true => prog_bind (Tick target now m) (λ '(r, m, events), Ret (match r with Ok differs => Ok (true, differs) | Err e => Err e end, m, events))
      end).

(** [internal/slackroster/controller/controller.go:Controller.Targets] *)
Definition Targets : list string := sorted_keys (Slack policy).

(** [internal/slackroster/controller/controller.go:273-279 Controller.Pass]; a panic ends it. *)
Fixpoint run_targets (targets : list string) (clock : nat → Z) (k : nat) (m : memory) : prog slack_call (result panic bool * memory * list pass_event) :=
  match targets with
  | [] => Ret (Ok false, m, [])
  | target :: rest =>
      prog_bind (RunTarget target (clock k) m) (λ '(r, m, events),
      match r with
      | Err (Crashed stop) => Ret (Err stop, m, events)
      | _ =>
          prog_bind (run_targets rest clock (S k) m) (λ '(differs, m, more),
            Ret (match differs with Ok differs => Ok (match r with Ok (_, other) => other | Err _ => false end || differs) | Err stop => Err stop end,
                 m, events ++ more))
      end)
  end.

(** [internal/slackroster/controller/controller.go:Controller.Pass] *)
Definition Pass (clock : nat → Z) (m : memory) : prog slack_call (result panic bool * memory * list pass_event) :=
  prog_bind (get_inputs true (clock 0) (sm_shared m)) (λ kept,
  prog_bind (run_targets Targets clock 1 (mkMemory (sm_last m) (sm_ledgers m) (Some kept))) (λ '(differs, m, events),
  match differs with
  | Err stop => Ret (Err stop, m, events)
  | Ok differs => prog_bind (lift (@InJournal) (Prune reads removes Key Targets)) (λ _, Ret (Ok differs, m, events))
  end)).
End pass.

(** ** What a pass asks, but for its changes *)

Section quiet.
Context (guard : PolicyGuard) (policy : Policy) (Enabled : string → bool).
Context (cached handoff reads : bool) (Key : string → string) (Decode : string → option Status) (words : refused_why → string).
Notation traced := (Runs.traced (@See)).

(** Nothing is changed, and nothing of Slack fails to be read. *)
Definition still {A} (p : prog slack_call A) : Prop := ∀ t a, traced p t a → Forall sound t.

Lemma still_ret {A} (a : A) : still (Ret a).
Proof. by intros t a' [-> _]. Qed.
Lemma still_bind {A B} (p : prog slack_call A) (k : A → prog slack_call B) : still p → (∀ a, still (k a)) → still (prog_bind p k).
Proof. intros Hp Hk t b. apply traced_bind_all; [exact Hp|]. intros a t' b'. apply Hk. Qed.
Lemma still_do {A B} (c : slack_call B) (k : B → prog slack_call A) : (∀ b, sound (See c b)) → (∀ b, still (k b)) → still (Do c k).
Proof. intros Hc Hk t a (b&t'&->&Ht). constructor; [apply Hc|by eapply Hk]. Qed.
Lemma still_journal {A} (p : prog report_call A) : still (lift (@InJournal) p).
Proof. induction p as [a|B c k IH]; cbn [lift]; [apply still_ret|]. by apply still_do; [sounds|]. Qed.

Lemma still_previous last key : still (previous reads Key Decode last key).
Proof. apply still_journal. Qed.

Lemma still_vouch emails answers out differs : still (vouch guard emails answers out differs).
Proof.
  revert answers out differs. induction emails as [|email emails IH]; intros answers out differs; cbn [vouch]; [apply still_ret|].
  apply still_bind; [|intros [a answers']; apply IH]. destruct (answers !! email); [apply still_ret|].
  apply still_bind; [|intros; apply still_ret]. apply still_do; [sounds|]. intros. apply still_ret.
Qed.

Lemma still_wake host guest : still (wake policy host guest).
Proof. unfold wake. destruct (_ || _); [apply still_ret|]. apply still_do; [sounds|]. intros. apply still_ret. Qed.

Lemma still_invites host outcomes ids : still (inviteGuests policy handoff host outcomes ids).
Proof.
  induction outcomes as [|o outcomes IH]; cbn [inviteGuests]; [apply still_ret|]. destruct (_ || _); [done|].
  apply still_bind; [|done]. destruct (negb handoff); [apply still_wake|]. apply still_do; [sounds|]. intros []; [apply still_ret|apply still_wake].
Qed.

Lemma still_accepted guest outcomes ids : still (acceptedShares handoff guest outcomes ids).
Proof.
  induction outcomes as [|o outcomes IH]; cbn [acceptedShares]; destruct (negb handoff); try apply still_ret.
  destruct (_ || _); [done|]. apply still_do; [sounds|]. done.
Qed.

Lemma still_pending host guests bots invites : still (wakePendingGuests policy host guests bots invites).
Proof.
  induction guests as [|guest guests IH]; cbn [wakePendingGuests]; [apply still_ret|]. apply still_bind; [|done].
  destruct (_ || _); [apply still_ret|]. destruct (existsb _ _); [apply still_wake|apply still_ret].
Qed.

Lemma still_fresh l workspace ks last prefix : still (fresh_keys reads Key Decode l workspace ks last prefix).
Proof.
  apply still_bind; [|intros; apply still_ret]. destruct (l !! workspace); [apply still_ret|].
  apply still_bind; [apply still_previous|intros; apply still_ret].
Qed.

Lemma still_record workspace dec found report last lg : still (recordNew reads Key Decode workspace dec found report last lg).
Proof. unfold recordNew. repeat (apply still_bind; [apply still_fresh|intros [? ?]]). apply still_ret. Qed.

(** Acting: the changes are the decision's, and the rest is still. *)
Lemma acting_inv key dec report last lg t r : traced (act policy handoff reads Key Decode key dec report last lg) t r →
  ∃ t1 t2 outcomes ids made, t = t1 ++ t2 ∧ traced (Apply false false (dec_Actions dec) ∅) t1 (outcomes, ids, made) ∧ Forall sound t2.
Proof.
  intros (t1&t2&[[outcomes ids] made]&->&Ha&Ht)%traced_bind. exists t1, t2, outcomes, ids, made. split_and!; [done..|].
  destruct (fold report outcomes ids) as [report' found].
  revert Ht. apply (still_bind (recordNew reads Key Decode key dec found report' last lg)); [apply still_record|]. intros [[new recorded] lg'].
  apply still_bind; [apply still_invites|]. intros _. apply still_bind; [apply still_accepted|]. intros _. apply still_ret.
Qed.

(** The vouches are answers given under the policy, in this pass or before. *)
Definition answer_of (t : list seen) (answers : gmap string answered) email (v : Vouch) : Prop :=
  (∃ differs, answers !! email = Some (Some v, differs)) ∨ ∃ digest, SawExplained email (Ok (v, digest)) ∈ t ∧ PolicyGuard_Check guard digest = true.

Lemma vouch_spec emails answers out differs t out' differs' answers' : traced (vouch guard emails answers out differs) t (out', differs', answers') →
  ∀ email v, out' !! email = Some v → out !! email = Some v ∨ answer_of t answers email v.
Proof.
  revert answers out differs t. induction emails as [|x emails IH]; intros answers out differs t; cbn [vouch].
  { intros [-> [= -> -> ->]]. by left. }
  intros (t1&t2&[a answers1]&->&Hask&Ht)%traced_bind email v Hv.
  assert ((∀ v, a.1 = Some v → answer_of t1 answers x v) ∧ ∀ y d, y ≠ x → answers1 !! y = Some d → answers !! y = Some d) as [Ha Hother].
  { destruct (answers !! x) as [[ov d]|] eqn:Hx.
    - destruct Hask as [-> [= -> ->]]. split; [|done]. intros w Hw. cbn in Hw. subst ov. left. by exists d.
    - apply traced_bind in Hask as (t3&t4&a1&->&(r&t5&->&[-> ->])&[-> [= -> ->]]). split; [|intros y d Hy; by rewrite lookup_insert_ne].
      destruct r as [[w digest]|]; [|done]. destruct (PolicyGuard_Check guard digest) eqn:Hc; [|done]. intros w' [= <-]. right.
      exists digest. by split; [left|]. }
  assert (answers1 !! x = Some a) as Hmine.
  { destruct (answers !! x) as [a0|] eqn:Hx; [by destruct Hask as [_ [= -> ->]]|].
    apply traced_bind in Hask as (t3&t4&a1&_&_&[_ [= -> ->]]). by rewrite lookup_insert_eq. }
  assert (∀ y w, y ≠ x ∨ a.1 = Some w → answer_of t2 answers1 y w → answer_of (t1 ++ t2) answers y w) as Hup.
  { intros y w Hy [[d Hd]|(digest&Hin&Hc)].
    - destruct (decide (y = x)) as [->|Hne].
      + rewrite Hmine in Hd. injection Hd as ->. destruct (Ha w eq_refl) as [?|(digest&Hin&?)]; [by left|right]. exists digest.
        split; [|done]. apply elem_of_app. by left.
      + left. exists d. by apply Hother.
    - right. exists digest. split; [|done]. apply elem_of_app. by right. }
  destruct (IH _ _ _ _ Ht email v Hv) as [Hin|Hin].
  - destruct a as [[w|] d]; cbn [fst] in *; [|by left]. apply lookup_insert_Some in Hin as [[<- <-]|[_ ?]]; [right|by left].
    destruct (Ha w eq_refl) as [?|(digest&?&?)]; [by left|right]. exists digest. split; [|done]. apply elem_of_app. by left.
  - right. destruct (decide (email = x)) as [->|Hne]; [|by apply Hup; [left|]].
    destruct Hin as [[d Hd]|(digest&Hs&Hc)].
    + apply Hup; [|by left; exists d]. rewrite Hmine in Hd. injection Hd as ->. by right.
    + right. exists digest. split; [|done]. apply elem_of_app. by right.
Qed.
End quiet.

(** ** The shape of a pass *)

Section shape.
Context (guard : PolicyGuard) (policy : Policy) (Enabled : string → bool).
Context (cached handoff reads : bool) (Key : string → string) (Decode : string → option Status) (words : refused_why → string).
Notation traced := (Runs.traced (@See)).
Notation pass := (workspace guard policy Enabled cached handoff reads Key Decode words).

Lemma observe_inv inp t d : traced (observe cached inp) t (Ok d) →
  ∃ obs, traced (ObserveCached inp cached) t (Ok obs) ∧ Derive (observed_input inp obs) = Ok d.
Proof.
  intros (t1&t2&[obs|e]&->&Ho&[-> Hd])%traced_bind; [|done]. exists obs. rewrite app_nil_r. split; [done|].
  by destruct (Derive _) as [d'|]; [injection Hd as ->|].
Qed.

Lemma observe_quiet inp t r : traced (observe cached inp) t r → Forall quiet t ∧ (∀ d, r = Ok d → Forall sound t).
Proof.
  intros (t1&t2&r1&->&Ho&[-> ->])%traced_bind. rewrite app_nil_r. destruct (Observe_whole inp cached t1 r1 Ho) as [Hq Hs].
  split; [done|]. intros d Hd. destruct r1 as [obs|e]; [|done]. by eapply Hs.
Qed.

(** How a pass ended: with a failure over what was last known, still waiting to be
    connected, or decided. *)
Inductive ending (i : inputs) key now (answers : gmap string answered) (last : gmap string Status) (lg : ledgers) (t : list seen) (a : after) : Prop :=
| Failing e s : Forall quiet t → (start_of policy i key = CannotStart e ∨ ∃ inp, start_of policy i key = Starts inp) →
    (last !! key = None ∨ last !! key = Some s) →
    a = mkAfter (failed Enabled key now e s) (other_policy e) answers last lg [] → ending i key now answers last lg t a
| Unconnected : t = [] → start_of policy i key = NotYet →
    a = mkAfter (mkStatus (empty_report key) (Enabled key) now (Ended OutcomeWaiting) None [] []) false answers last lg [] → ending i key now answers last lg t a
| Decided inp obs d t1 t2 t3 t4 vouches other answers' dec report recorded lg' events :
    t = t1 ++ t2 ++ t3 ++ t4 → start_of policy i key = Starts inp →
    traced (ObserveCached inp cached) t1 (Ok obs) → Derive (observed_input inp obs) = Ok d →
    traced (vouch guard (Draft_Confirm d) answers ∅ false) t2 (vouches, other, answers') →
    Draft_Decide d vouches (confirmed (in_store i) key now) = Ok dec →
    traced (let report := with_refused words key (default (mkSlackWorkspace ∅) (Slack policy !! key)) i (n_DefinedTwice inp) (dec_Report dec) in
            if Enabled key then act policy handoff reads Key Decode key dec report last lg else Ret (report, [], lg, [])) t3 (report, recorded, lg', events) →
    Forall sound t4 →
    a = mkAfter (finished Enabled key now report recorded) other answers' (Remember last key (finished Enabled key now report recorded)) lg' events →
    ending i key now answers last lg t a.

Lemma previous_inv last key t s : traced (previous reads Key Decode last key) t s → last !! key = None ∨ last !! key = Some s.
Proof. unfold previous, Previous. destruct (last !! key) as [kept|]; [|by left]. intros [_ ->]. by right. Qed.

Lemma sounds_quiet t : Forall sound t → Forall quiet t.
Proof. intros Ht. eapply Forall_impl; [exact Ht|apply sound_is_quiet]. Qed.

Lemma workspace_inv i key now answers last lg t a : traced (pass i key now answers last lg) t (Ok a) → ending i key now answers last lg t a.
Proof.
  unfold workspace.
  assert (∀ e t', traced (prog_bind (previous reads Key Decode last key) (λ s,
      Ret (Ok (mkAfter (failed Enabled key now e s) (other_policy e) answers last lg [])))) t' (@Ok panic _ a) →
    Forall quiet t' ∧ ∃ s, (last !! key = None ∨ last !! key = Some s) ∧ a = mkAfter (failed Enabled key now e s) (other_policy e) answers last lg []) as Hfail.
  { intros e t' (t1&t2&s&->&Hp&[-> [= ->]])%traced_bind. rewrite app_nil_r. split; [by eapply sounds_quiet, still_previous|].
    exists s. split; [by eapply previous_inv|done]. }
  destruct (start_of policy i key) as [e| |inp] eqn:Hstart.
  - intros (Hq&s&Hl&->)%Hfail. eapply Failing; [done|by left|done|done].
  - intros [-> [= ->]]. by eapply Unconnected.
  - intros (t1&t2&r&->&Ho&Ht)%traced_bind. destruct r as [d|e].
    + apply traced_bind in Ht as (t3&t4&[[vouches other] answers']&->&Hv&Ht).
      destruct (Draft_Decide d vouches _) as [dec|stop] eqn:Hdec; [|by destruct Ht as [_ ?]].
      apply traced_bind in Ht as (t5&t6&[[[report recorded] lg'] events]&->&Ha&Ht).
      apply traced_bind in Ht as (t7&t8&u&->&Hw&[-> [= ->]]). apply observe_inv in Ho as (obs&Ho&Hd). rewrite app_nil_r.
      eapply Decided; try done. by eapply still_pending.
    + apply Hfail in Ht as (Hq&s&Hl&->). eapply Failing; [|by right; exists inp|done|done].
      apply Forall_app. split; [|done]. by apply (observe_quiet inp t1 (Err e)).
Qed.

Definition console_distinct (i : inputs) key : Prop := NoDup (cc_Name <$> List.filter (λ c, bool_decide (cc_Workspace c = key)) (in_console i)).

Lemma starts_input i key inp : start_of policy i key = Starts inp →
  n_Workspace inp = key ∧ n_Console inp = in_console i ∧ ∃ holders, in_holders i = Ok holders ∧
  (in_dirErr i = None ∨ dependsOnDirectory i key = false) ∧ ∃ bot, token (in_store i) key = Ok bot.
Proof.
  unfold start_of. destruct (in_holders i) as [holders|]; [|done].
  destruct (if dependsOnDirectory i key then in_dirErr i else None) as [e|] eqn:Hdir; [done|].
  destruct (token (in_store i) key) as [bot|[]]; [|done..].
  destruct (head _); [done|]. intros [= <-]. split_and!; [done..|]. exists holders. split_and!; [done| |by exists bot].
  destruct (dependsOnDirectory i key); [by left|by right].
Qed.
End shape.

(** ** Properties *)

Section properties.
Context (guard : PolicyGuard) (policy : Policy) (Enabled : string → bool).
Context (cached handoff reads : bool) (Key : string → string) (Decode : string → option Status) (words : refused_why → string).
Notation traced := (Runs.traced (@See)).
Notation pass := (workspace guard policy Enabled cached handoff reads Key Decode words).

(** The directory's word, under the policy, that an address does not belong. *)
Definition settled_by (read : list seen) (answers : gmap string answered) (groups : list string) email : Prop :=
  ∃ v, answer_of guard read answers email v ∧ v_Authoritative v = true ∧
    (v_Found v = false ∨ v_Suspended v = true ∨ ∀ group, group ∈ groups → group ∉ v_Groups v ∧ group ∉ v_DirectoryGroups v).

(** C8: who a pass puts out of a channel.  Only an enabled workspace does; everything the
    removal rests on was read before the first change of the pass.  The channel is the one the
    pass resolved, in what it had just read of Slack, for a strict channel of the workspace's
    own: it has the configured name or adopted id, is not archived or shared, and, when Slack
    gave it an id, that is the id the removal names.  Its members, the removed one among them,
    were read from Slack in this very pass; who they are was answered by Slack, or remembered
    by the cache; they are not wanted there, not the bot itself, no bot, no guest, active, and
    have an address; and of each of the addresses of that person the directory said, under
    this policy, after Slack was read or in answer to an earlier pass over the same inputs,
    that it can vouch, and that the address is gone, suspended, or holds none of the groups that
    same channel is for. *)
Theorem pass_kicks i key now answers last lg t a id user r :
  traced (pass i key now answers last lg) t (Ok a) → console_distinct i key → (∀ user m, SawCached user m ∈ t → m_ID m = user) →
  SawChange (Kicks id user) r ∈ t →
  Enabled key = true ∧ ∃ inp obs lc ch m observed vouched rest,
    t = observed ++ vouched ++ rest ∧ omap saw_change (observed ++ vouched) = [] ∧ start_of policy i key = Starts inp ∧
    traced (ObserveCached inp cached) observed (Ok obs) ∧
    let inp' := observed_input inp obs in
    lc ∈ layout (newResolver inp') ∧ lc_shared lc = None ∧ lc_strict lc = true ∧
    taken inp' lc (resolve inp' lc) ch ∧ (sl_ID ch ≠ "" → id = sl_ID ch) ∧
    SawMembersOf (sl_ID ch) (Ok (sl_Members ch)) ∈ observed ∧ user ∈ sl_Members ch ∧ user ∉ wanted_ids inp' lc ∧ user ≠ ob_BotUserID obs ∧
    known_as cached observed user m ∧ m_Bot m = false ∧ m_Deleted m = false ∧ m_Guest m = false ∧ m_Email m ≠ "" ∧
    Forall (settled_by vouched answers (lc_belongs lc)) (addressesOf (newResolver inp') (m_Email m)).
Proof.
  intros Ht Hdist Hcache Hk. apply workspace_inv in Ht.
  assert (∀ t', Forall quiet t' → SawChange (Kicks id user) r ∉ t') as Hno.
  { intros t' Hq Hin. rewrite Forall_forall in Hq. by specialize (Hq _ Hin). }
  destruct Ht as [e s Hq _ _ ->| -> _ ->|inp obs d t1 t2 t3 t4 vouches other answers' dec report recorded lg' events -> Hstart Ho Hd Hv Hdec Hact Hstill ->];
    [by destruct (Hno t Hq)|by apply elem_of_nil in Hk|].
  pose proof (sounds_quiet _ (proj2 (Observe_whole inp cached t1 (Ok obs) Ho) obs eq_refl)) as Hq1.
  pose proof (sounds_quiet _ (still_vouch guard _ _ _ _ _ _ Hv)) as Hq2. pose proof (sounds_quiet _ Hstill) as Hq4.
  destruct (starts_input policy i key inp Hstart) as (Hws&Hcons&_).
  rewrite !elem_of_app in Hk. destruct Hk as [Hk|[Hk|[Hk|Hk]]]; [by destruct (Hno t1 Hq1)|by destruct (Hno t2 Hq2)| |by destruct (Hno t4 Hq4)].
  destruct (Enabled key) eqn:Hen; [|by destruct Hact as [-> _]; apply elem_of_nil in Hk]. split; [done|].
  apply acting_inv in Hact as (t5&t6&outcomes&ids&made&->&Happly&Hq6%sounds_quiet).
  apply elem_of_app in Hk as [Hk|Hk]; [|by destruct (Hno t6 Hq6)].
  destruct (applied_kick _ _ _ _ _ _ _ _ _ _ Happly Hk) as (act&Hin&Hkind&->&Hat).
  destruct (decided_removes _ d vouches _ dec act Hd ltac:(by unfold records_distinct; cbn; rewrite Hws, Hcons) Hdec Hin Hkind)
    as (lc&ch&id'&m&Hlc&Hsh&Hstrict&_&Htaken&Hchid&Hmem&Hbot&Hwant&Hm&Huser&_&Hne&Hb&Hdel&Hg&_&_&_&_&Hsettle).
  destruct (taken_read inp cached t1 obs lc ch Ho Hlc Htaken) as (_&_&Hsaw).
  pose proof (Observe_members inp cached t1 obs id' m Ho Hm) as Hknown.
  assert (m_ID m = id') as Hid.
  { destruct Hknown as [(x&u&_&_&->)|[[_ Hc]|(u&_&->)]]; [done| |done]. apply Hcache. apply elem_of_app. by left. }
  rewrite Huser, Hid. exists inp, obs, lc, ch, m, t1, t2, ((t5 ++ t6) ++ t4). cbv zeta. split_and!; try done.
  - by rewrite omap_app, (no_changes t1), (no_changes t2).
  - intros Hn. rewrite <- Hchid in Hn |- *. by apply Hat.
  - eapply Forall_impl; [exact Hsettle|]. intros email (v&Hlook&Hauth&Hwhy). exists v. split_and!; [|done|done].
    by destruct (vouch_spec guard _ _ _ _ _ _ _ _ Hv email v Hlook) as [Hnone|?]; [rewrite lookup_empty in Hnone|].
Qed.



End properties.

(** ** Witnesses: a pass that puts one person out, and one that cannot read *)

Definition sample_guard : PolicyGuard := mkPolicyGuard "D".
Definition sample_policy : Policy :=
  mkPolicy 1 None {["rung:sre" := mkGroup ["sre@example.com"] []]} ∅ ∅ ∅ no_documents ∅ ∅
    {["ann" := ["ann@acme.test"; "ann@old.test"]]} {["team" := sample_workspace]}.
Definition sample_inputs : inputs := Eval vm_compute in (played (@See) (@sample_answers "") (readInputs sample_guard sample_policy)).2.

Definition no_after : after := mkAfter no_status false ∅ ∅ (mkLedgers ∅ ∅ ∅) [].
(** A pass over the workspace, what asking who a member is fails with, and whether it is
    enabled. *)
Definition sample_pass (enabled : bool) : prog slack_call (result panic after) :=
  workspace sample_guard sample_policy (λ _, enabled) true true true (λ key, key) (λ _, None) (λ _, "refused") sample_inputs "team" 20 ∅ ∅ (mkLedgers ∅ ∅ ∅).
Definition pass_run (enabled : bool) (why : string) : list seen * after :=
  let '(t, r) := played (@See) (@sample_answers why) (sample_pass enabled) in (t, match r with Ok a => a | Err _ => no_after end).

Definition pass_trace : list seen := Eval vm_compute in (pass_run true "").1.
Definition pass_after : after := Eval vm_compute in (pass_run true "").2.
Lemma kick_pass_traced : Runs.traced (@See) (sample_pass true) pass_trace (Ok pass_after).
Proof. apply (traced_played (@See) (@sample_answers "")). vm_compute. reflexivity. Qed.

Example pass_example : omap saw_change pass_trace =
  [(Joins "C1", Ok ""); (Invites "C1" "UANN", Ok ""); (Invites "C1" "UDAN", Ok ""); (Invites "C1" "UEVE", Err (NotCreated "cant_invite"));
   (Invites "C0123ABCD" "UDAN", Ok ""); (Kicks "C0123ABCD" "UBOB", Ok "")].
Proof. vm_compute. reflexivity. Qed.
Example pass_outcome_example : ws_Outcome (af_Status pass_after) = Ended OutcomeApplied.
Proof. vm_compute. reflexivity. Qed.

Lemma sample_distinct_records : console_distinct sample_inputs "team".
Proof. constructor. Qed.
Lemma sample_cache user m : SawCached user m ∈ pass_trace → m_ID m = user.
Proof.
  assert (Forall (λ e, match e with SawCached user m => m_ID m = user | _ => True end) pass_trace) as Hall by (unfold pass_trace; repeat constructor).
  rewrite Forall_forall in Hall. apply Hall.
Qed.
Lemma bob_is_out : SawChange (Kicks "C0123ABCD" "UBOB") (Ok "") ∈ pass_trace.
Proof. unfold pass_trace. rewrite !elem_of_cons. tauto. Qed.

Lemma pass_kicks_witness : true = true ∧ ∃ ch observed vouched rest, pass_trace = observed ++ vouched ++ rest ∧
  omap saw_change (observed ++ vouched) = [] ∧ (sl_ID ch ≠ "" → "C0123ABCD" = sl_ID ch) ∧
  SawMembersOf (sl_ID ch) (Ok (sl_Members ch)) ∈ observed ∧ "UBOB" ∈ sl_Members ch.
Proof.
  destruct (pass_kicks sample_guard sample_policy (λ _, true) true true true (λ key, key) (λ _, None) (λ _, "refused") sample_inputs "team" 20 ∅ ∅
    (mkLedgers ∅ ∅ ∅) pass_trace pass_after "C0123ABCD" "UBOB" (Ok "") kick_pass_traced sample_distinct_records sample_cache bob_is_out)
    as (He&inp&obs&lc&ch&m&observed&vouched&rest&Ht&Hq&_&_&_&_&_&_&Hid&Hs&Hin&_).
  split; [exact He|]. exists ch, observed, vouched, rest. exact (conj Ht (conj Hq (conj Hid (conj Hs Hin)))).
Defined.



(** ** What modelling showed *)

(** Records that cannot be listed leave every workspace "not connected", which is reported as
    waiting, its last report and what it recorded dropped, and not as a failed pass. *)
Lemma unread_records_wait (answer : ∀ B, slack_call B → B) key : answer _ ReadRecords = None →
  token (played (@See) answer readStoreFrom).2 key = Err NotConnected.
Proof.
  intros Hn. unfold readStoreFrom. cbn [played]. rewrite Hn. cbn [default read_records prog_bind played].
  unfold token. cbn. by rewrite lookup_empty.
Qed.

(** An invitation skipped because its channel is held is counted as retrying, and its row says
    that Slack refused it. *)
Definition held_report : Report :=
  set_channels (empty_report "team") [mkChannelReport "new" "" false "extend" false "" false ChannelWillCreate ""
    [mkRow "dan" "dan@acme.test" "UDAN" StateWillInvite (Some ActionInvite) "holds rung:sre"] None].
Example skipped_is_refused :
  let '(report, found) := fold held_report (take 2 applied_outcomes) ∅ in
  tk_Retrying (rp_Tick report) = 1 ∧ (h_Change <$> found) = ["create"] ∧
  mjoin ((λ c, rw_Reason <$> cr_Members c) <$> rp_Channels report) = ["Slack refused: apply: the channel this depends on does not exist"].
Proof. vm_compute. done. Qed.

(** A pass that observed everything and only waits for a guest is not probed, and publishes no
    guests' sides: the previous ones do not stand. *)
Lemma waiting_loses_sides Enabled reads Key Decode declared i host last now report recorded :
  let s := finished Enabled host now report recorded in
  ws_Outcome s = Ended OutcomeWaiting → probeGuestSides reads Key Decode declared i host last s = Ret s ∧ ws_GuestSides s = [].
Proof. cbv zeta. intros Hw. split; [|reflexivity]. unfold probeGuestSides. by rewrite bool_decide_true by (by right). Qed.
