(* ===== verification/Catalogue.v ===== *)
(** * Catalogue: GitHub Apps declared as data

    [internal/githubapp/catalogue/catalogue.go]: the declared Apps, who may ask for how much
    of each, and the validation a catalogue passes at start.  Reading the file and decoding
    its YAML are left out: a catalogue is its decoded value, and what is wrong with it is a
    list, with a constructor per message. *)

From S2P Require Import Prelude GoStrings Glob Validate.

Implicit Types (id org name group repository level have want : string) (permissions : gmap string string).

(** [internal/githubapp/catalogue/catalogue.go:34-34 NameLimit] *)
Definition NameLimit : nat := 34.

(** [internal/githubapp/catalogue/catalogue.go:56-56 levels]; 0 is no level. *)
Definition levels level : nat :=
  if bool_decide (level = "read") then 1 else if bool_decide (level = "write") then 2
  else if bool_decide (level = "admin") then 3 else 0.

(** [internal/githubapp/catalogue/catalogue.go:Covers] *)
Definition Covers have want : bool := (0 <? levels have) && (0 <? levels want) && (levels want <=? levels have).

(** [internal/githubapp/catalogue/catalogue.go:type Grant] *)
Record AppGrant := mkAppGrant { ag_Group : string; ag_Repositories : list string; ag_Permissions : gmap string string }.

(** [internal/githubapp/catalogue/catalogue.go:type App]; the description is left out. *)
Record App := mkApp {
  ca_ID : string; ca_Org : string; ca_Name : string; ca_Public : bool; ca_Permissions : gmap string string;
  ca_Events : list string; ca_Installation : string; ca_Grants : list AppGrant }.

Definition id_char c : bool := is_lower c || is_digit c || byte_eqb c "-".
Fixpoint ends_with c (s : string) : bool :=
  match s with
  | EmptyString => false
  | String d EmptyString => byte_eqb c d
  | String _ s => ends_with c s
  end.

(** [internal/githubapp/catalogue/catalogue.go:ValidID], with [idPattern]. *)
Definition ValidID id : bool := negb (empty id) && str_all id_char id && negb (HasPrefix id "-") && negb (ends_with "-" id) && (String.length id <=? 32).

(** [internal/githubapp/catalogue/catalogue.go:111-112 permissionPattern], and [eventPattern]. *)
Definition permissionPattern name : bool :=
  match name with
  | String c s => is_lower c && str_all (λ c, is_lower c || is_digit c || byte_eqb c "_") s
  | EmptyString => false
  end.

(** [internal/githubapp/catalogue/catalogue.go:116-118 repositoryPattern] *)
Definition repositoryPattern repository : bool :=
  negb (empty repository) && str_all (λ c, is_letter c || is_digit c || contains_byte c "._*?[]^!-") repository.

Definition cut_to (n : nat) (s : string) : string := String.substring 0 n s.
Fixpoint trim_dashes (s : string) : string :=
  match s with
  | String c s => let s := trim_dashes s in if byte_eqb c "-" && empty s then "" else String c s
  | EmptyString => ""
  end.

(** [internal/githubapp/catalogue/catalogue.go:App.DisplayName] *)
Definition DisplayName (a : App) : string :=
  if negb (empty (ca_Name a)) then ca_Name a
  else
    let name := ca_Org a +:+ "-" +:+ ca_ID a in
    if NameLimit <? String.length name then trim_dashes (cut_to NameLimit name) else name.

(** [internal/githubapp/catalogue/catalogue.go:App.InstallationScope] *)
Definition InstallationScope (a : App) : string := if empty (ca_Installation a) then "selected" else ca_Installation a.

(** [internal/githubapp/catalogue/catalogue.go:Catalogue.Get] *)
Definition Catalogue_Get (apps : list App) id : option App := List.find (λ a, bool_decide (ca_ID a = id)) apps.

(** [internal/githubapp/catalogue/catalogue.go:Grant.Matches] *)
Definition Matches (g : AppGrant) repository : bool :=
  existsb (λ pattern, match Match pattern repository with Some ok => ok | None => false end) (ag_Repositories g).

(** ** Validation *)

(** What is wrong with an App. *)
Inductive app_error :=
| BadID id | BadOrg org | BadName name | BadInstallation (scope : string) | NoPermissions
| NotAPermission name | NotALevel name level | NotAnEvent name
| GrantNoGroup (i : nat) | GrantNoRepositories (i : nat) | GrantBadRepository (i : nat) repository
| GrantBadGlob (i : nat) repository | GrantNoPermissions (i : nat) | GrantNotAPermission (i : nat) name
| GrantNotALevel (i : nat) name level | GrantNotOfTheApp (i : nat) name | GrantAboveTheApp (i : nat) name level have.

Definition unless (ok : bool) (e : app_error) : list app_error := if ok then [] else [e].

(** [internal/githubapp/catalogue/catalogue.go:checkPermissions] *)
Definition checkPermissions (notAPermission : string → app_error) (notALevel : string → string → app_error) permissions : list app_error :=
  mjoin ((λ name, let level := default "" (permissions !! name) in
    unless (permissionPattern name) (notAPermission name) ++ unless (0 <? levels level) (notALevel name level)) <$> sorted_keys permissions).

(** [internal/githubapp/catalogue/catalogue.go:263-274 Grant.check]: one permission against
    the App's. *)
Definition check_within (i : nat) (app : gmap string string) permissions name : list app_error :=
  let level := default "" (permissions !! name) in
  if levels level =? 0 then []
  else match app !! name with
       | None => [GrantNotOfTheApp i name]
       | Some have => unless (Covers have level) (GrantAboveTheApp i name level have)
       end.

(** [internal/githubapp/catalogue/catalogue.go:Grant.check] *)
Definition Grant_check (app : gmap string string) (i : nat) (g : AppGrant) : list app_error :=
  unless (negb (empty (TrimSpace (ag_Group g)))) (GrantNoGroup i) ++
  unless (negb (bool_decide (ag_Repositories g = []))) (GrantNoRepositories i) ++
  mjoin ((λ repository,
    if negb (repositoryPattern repository) then [GrantBadRepository i repository]
    else unless (bool_decide (is_Some (Match repository ""))) (GrantBadGlob i repository)) <$> ag_Repositories g) ++
  unless (negb (bool_decide (ag_Permissions g = ∅))) (GrantNoPermissions i) ++
  checkPermissions (GrantNotAPermission i) (GrantNotALevel i) (ag_Permissions g) ++
  mjoin (check_within i app (ag_Permissions g) <$> sorted_keys (ag_Permissions g)).

(** [internal/githubapp/catalogue/catalogue.go:App.Validate] *)
Definition App_Validate (a : App) : list app_error :=
  unless (ValidID (ca_ID a)) (BadID (ca_ID a)) ++
  unless (ignoredLogin (ca_Org a)) (BadOrg (ca_Org a)) ++
  unless ((String.length (DisplayName a) <=? NameLimit) && negb (empty (TrimSpace (DisplayName a)))) (BadName (DisplayName a)) ++
  unless (str_in (ca_Installation a) [""; "all"; "selected"]) (BadInstallation (ca_Installation a)) ++
  unless (negb (bool_decide (ca_Permissions a = ∅))) NoPermissions ++
  checkPermissions NotAPermission NotALevel (ca_Permissions a) ++
  mjoin ((λ event, unless (permissionPattern event) (NotAnEvent event)) <$> ca_Events a) ++
  mjoin (imap (Grant_check (ca_Permissions a)) (ca_Grants a)).

(** What is wrong with a catalogue. *)
Inductive catalogue_error := DeclaredTwice (i : nat) id | BadApp (i : nat) id (e : app_error).

(** [internal/githubapp/catalogue/catalogue.go:194-203 Catalogue.Validate]: from the [i]-th App. *)
Fixpoint validate_apps (i : nat) (seen : list string) (apps : list App) : list catalogue_error :=
  match apps with
  | [] => []
  | a :: rest =>
      (if str_in (ca_ID a) seen then [DeclaredTwice i (ca_ID a)] else []) ++ (BadApp i (ca_ID a) <$> App_Validate a) ++
      validate_apps (S i) (ca_ID a :: seen) rest
  end.

(** [internal/githubapp/catalogue/catalogue.go:Catalogue.Validate] *)
Definition Catalogue_Validate (apps : list App) : list catalogue_error := validate_apps 0 [] apps.

(** ** Which groups are named *)

Definition add_new (out : list string) (x : string) : list string := if str_in x out then out else out ++ [x].

(** [internal/githubapp/catalogue/catalogue.go:Catalogue.UndeclaredGroups] *)
Definition UndeclaredGroups (declared : string → bool) (apps : list App) : list string :=
  foldl (λ out a, foldl (λ out g, if declared (ag_Group g) then out else add_new out (ca_ID a +:+ ": " +:+ ag_Group g)) out (ca_Grants a))
    [] apps.

(** [internal/githubapp/catalogue/catalogue.go:Catalogue.GrantGroups] *)
Definition Catalogue_GrantGroups (apps : list App) : list string :=
  foldl (λ out a, foldl (λ out g, add_new out (ag_Group g)) out (ca_Grants a)) [] apps.

(** ** What a catalogue that starts guarantees *)

Lemma unless_nil ok e : unless ok e = [] ↔ ok = true.
Proof. destruct ok; naive_solver. Qed.

Lemma mjoin_nil {A} (ls : list (list A)) : mjoin ls = [] ↔ Forall (λ l, l = []) ls.
Proof.
  induction ls as [|l ls IH]; [done|]. change (mjoin (l :: ls)) with (l ++ mjoin ls).
  rewrite app_nil, IH, Forall_cons. done.
Qed.

Lemma mjoin_fmap_nil {A B} (f : A → list B) l : mjoin (f <$> l) = [] ↔ ∀ x, x ∈ l → f x = [].
Proof. by rewrite mjoin_nil, Forall_fmap, Forall_forall. Qed.

Lemma Covers_trans have mid want : Covers have mid = true → Covers mid want = true → Covers have want = true.
Proof.
  unfold Covers. rewrite !andb_true_iff, !Nat.ltb_lt, !Nat.leb_le. lia.
Qed.

(** A grant of an App that starts names some permission, each within the App's own. *)
Lemma Grant_check_within app i g : Grant_check app i g = [] →
  ag_Permissions g ≠ ∅ ∧ ∀ name level, ag_Permissions g !! name = Some level →
    ∃ have, app !! name = Some have ∧ Covers have level = true.
Proof.
  unfold Grant_check. rewrite !app_nil. intros (_&_&_&Hsome%unless_nil&Hlevels&Hin). split.
  { intros Hnil. by rewrite bool_decide_true in Hsome. }
  intros name level Hl. assert (name ∈ sorted_keys (ag_Permissions g)) as Hk by (apply elem_of_sorted_keys; by eexists).
  unfold checkPermissions in Hlevels. rewrite mjoin_fmap_nil in Hlevels, Hin.
  specialize (Hlevels _ Hk). specialize (Hin _ Hk). cbv zeta in Hlevels. unfold check_within in Hin. rewrite Hl in Hlevels, Hin. cbn in *.
  apply app_nil in Hlevels as [_ Hlev%unless_nil]. destruct (levels level) as [|n]; [done|]. cbn in Hin.
  destruct (app !! name) as [have|] eqn:Ha; [|done]. apply unless_nil in Hin. by exists have.
Qed.

Lemma App_Validate_grants a : App_Validate a = [] → ∀ g, g ∈ ca_Grants a → ∃ i, Grant_check (ca_Permissions a) i g = [].
Proof.
  unfold App_Validate. rewrite !app_nil. intros (_&_&_&_&_&_&_&Hg) g [i Hi]%list_elem_of_lookup. exists i.
  rewrite mjoin_nil, Forall_lookup in Hg. apply (Hg i). by rewrite list_lookup_imap, Hi.
Qed.

Lemma validate_apps_nil i seen apps : validate_apps i seen apps = [] →
  Forall (λ a, App_Validate a = []) apps ∧ NoDup (ca_ID <$> apps) ∧ ∀ a, a ∈ apps → ca_ID a ∉ seen.
Proof.
  revert i seen. induction apps as [|a apps IH]; intros i seen; cbn [validate_apps].
  { intros _. split_and!; [constructor|constructor|]. intros a Ha. by apply elem_of_nil in Ha. }
  rewrite !app_nil. intros (Hs&Ha&Hrest). destruct (IH _ _ Hrest) as (Hall&Hnd&Hout).
  apply fmap_nil_inv in Ha. unfold str_in in Hs. case_bool_decide as Hin; [done|]. split_and!.
  - by constructor.
  - cbn. constructor; [|done]. intros (b&Hb&Hbin)%list_elem_of_fmap. apply (Hout b Hbin). rewrite <- Hb. by left.
  - intros b [->|Hb]%elem_of_cons; [done|]. intros Hbs. apply (Hout b Hb). by right.
Qed.

(** What a catalogue that starts says of an App it is asked for. *)
Lemma Catalogue_Get_valid apps id a : Catalogue_Validate apps = [] → Catalogue_Get apps id = Some a →
  ca_ID a = id ∧ a ∈ apps ∧ App_Validate a = [] ∧ ∀ b, b ∈ apps → ca_ID b = id → b = a.
Proof.
  intros (Hall&Hnd&_)%validate_apps_nil [Hin Hid%bool_decide_eq_true]%List.find_some. apply list_elem_of_In in Hin.
  split_and!; [done|done|by eapply Forall_forall in Hall|].
  intros b Hb Hbid. apply (NoDup_fmap_unique ca_ID apps); [done|done|done|congruence].
Qed.
