(* ===== verification/IssuerState.v ===== *)
(** * IssuerState: the store of logins in progress

    [internal/issuer/state.go]: the issuer's own store of values and sets with
    lifetimes, as an interface ([IState], the Go interface) with its laws
    ([IStateSpec]), and the in-memory store that meets them.  The store's clock is
    also the clock of its clients: both are [time.Now].

    A value is what a client stored: a JSON document is the value it encodes (see
    [IssuerData]).  A call may fail, and what was written before it stays written,
    so an operation is a function from a state to a result and a state. *)

From S2P Require Import Prelude GoStrings Port.

Implicit Types (key member : string) (ttl : Z).

(** Why an operation of the issuer's stores fails. *)
Inductive issuer_error : Type :=
| Unavailable
| Unreadable (key : string)
| AlreadyExpired (id : string)
| SubstringRevoke.

(** ** Operations over a store *)

Definition M (S A : Type) : Type := S → result issuer_error A * S.
#[global] Instance M_ret {S} : MRet (M S) := λ A a s, (Ok a, s).
#[global] Instance M_bind {S} : MBind (M S) := λ A B k m s,
  match m s with (Ok a, s') => k a s' | (Err e, s') => (Err e, s') end.
Definition fail {S A} (e : issuer_error) : M S A := λ s, (Err e, s).

(** [for _, x := range xs { if err := f(x); err != nil { return err } }]. *)
Fixpoint each {S A} (f : A → M S unit) (xs : list A) : M S unit :=
  match xs with [] => mret tt | x :: rest => f x ;; each f rest end.

(** [internal/issuer/state.go:type State] *)
Class IState (V S : Type) := {
  is_Get : string → M S (option V);
  is_Set : string → V → Z → M S unit;
  is_SetIfAbsent : string → V → Z → M S bool;
  is_Delete : string → M S unit;
  is_Add : string → string → Z → M S unit;
  is_Remove : string → string → M S unit;
  is_Members : string → M S (list string);
  is_now : S → Z;
  is_wait : S → Z → S }.

Definition expires_in (now ttl : Z) : option Z := if (ttl <=? 0)%Z then None else Some (now + ttl)%Z.

(** A table with one key replaced. *)
Definition upd {A} (f : string → A) key (x : A) : string → A := λ key', if decide (key' = key) then x else f key'.

Notation members_map := (gset string * option Z)%type (only parsing).
Definition members_in (held : option members_map) : gset string := match held with Some (ms, _) => ms | None => ∅ end.

(** What a store that answers promises: the values and the sets it shows at any
    moment are the live ones, each operation changes one key of one of them, and
    a set that is added to keeps what it showed (a store may bring back what had
    lapsed, as the in-memory one does). *)
Class IStateSpec (V S : Type) `{IState V S} := {
  iv_value : S → string → option (V * option Z);
  iv_set : S → string → option members_map;
  iv_live : ∀ s key v e, iv_value s key = Some (v, e) → alive (is_now s) e = true;
  iv_set_live : ∀ s key ms e, iv_set s key = Some (ms, e) → alive (is_now s) e = true;
  is_Get_spec : ∀ s key, ∃ s', is_Get key s = (Ok (fst <$> iv_value s key), s') ∧ is_now s' = is_now s ∧
    (∀ k, iv_value s' k = iv_value s k) ∧ (∀ k, iv_set s' k = iv_set s k);
  is_Set_spec : ∀ s key v ttl, ∃ s', is_Set key v ttl s = (Ok tt, s') ∧ is_now s' = is_now s ∧
    (∀ k, iv_value s' k = upd (iv_value s) key (Some (v, expires_in (is_now s) ttl)) k) ∧ (∀ k, iv_set s' k = iv_set s k);
  is_SetIfAbsent_spec : ∀ s key v ttl,
    ∃ s', is_SetIfAbsent key v ttl s = (Ok (bool_decide (iv_value s key = None)), s') ∧ is_now s' = is_now s ∧
    (∀ k, iv_value s' k = match iv_value s key with
       | Some _ => iv_value s k | None => upd (iv_value s) key (Some (v, expires_in (is_now s) ttl)) k end) ∧
    (∀ k, iv_set s' k = iv_set s k);
  is_Delete_spec : ∀ s key, ∃ s', is_Delete key s = (Ok tt, s') ∧ is_now s' = is_now s ∧
    (∀ k, iv_value s' k = upd (iv_value s) key None k) ∧ (∀ k, k ≠ key → iv_set s' k = iv_set s k);
  is_Add_spec : ∀ s key member ttl, (0 < ttl)%Z → ∃ s' ms, is_Add key member ttl s = (Ok tt, s') ∧ is_now s' = is_now s ∧
    (∀ k, iv_value s' k = iv_value s k) ∧
    iv_set s' key = Some (ms, Some (is_now s + ttl)%Z) ∧ {[member]} ∪ members_in (iv_set s key) ⊆ ms ∧
    (∀ k, k ≠ key → iv_set s' k = iv_set s k);
  is_Remove_spec : ∀ s key member, ∃ s', is_Remove key member s = (Ok tt, s') ∧ is_now s' = is_now s ∧
    (∀ k, iv_value s' k = iv_value s k) ∧
    (∀ k, k ≠ key → iv_set s' k = iv_set s k) ∧
    members_in (iv_set s' key) = members_in (iv_set s key) ∖ {[member]} ∧
    (∀ ms e, iv_set s' key = Some (ms, e) → ∃ ms', iv_set s key = Some (ms', e));
  is_Members_spec : ∀ s key, ∃ l s', is_Members key s = (Ok l, s') ∧ is_now s' = is_now s ∧
    l ≡ₚ elements (members_in (iv_set s key)) ∧
    (∀ k, iv_value s' k = iv_value s k) ∧ (∀ k, iv_set s' k = iv_set s k);
  is_wait_spec : ∀ s d, (0 <= d)%Z → let s' := is_wait s d in is_now s' = (is_now s + d)%Z ∧
    (∀ k, iv_value s' k = match iv_value s k with
       | Some (v, e) => if alive (is_now s') e then Some (v, e) else None | None => None end) ∧
    (∀ k, iv_set s' k = match iv_set s k with
       | Some (ms, e) => if alive (is_now s') e then Some (ms, e) else None | None => None end) }.
#[global] Hint Mode IStateSpec + + - : typeclass_instances.

(** ** The in-memory store *)

Section memory.
Context {V : Type}.

(** [internal/issuer/state.go:type MemoryState] *)
Record MemoryState := mkMemoryState {
  ms_now : Z; ms_values : gmap string (V * option Z); ms_sets : gmap string (gset string); ms_setExpiry : gmap string Z }.

(** [internal/issuer/state.go:NewMemoryState] *)
Definition NewMemoryState (now : Z) : MemoryState := mkMemoryState now ∅ ∅ ∅.

(** [internal/issuer/state.go:MemoryState.get] *)
Definition MemoryState_get key (m : MemoryState) : option V * MemoryState :=
  match ms_values m !! key with
  | None => (None, m)
  | Some (value, expires) =>
      if alive (ms_now m) expires then (Some value, m)
      else (None, mkMemoryState (ms_now m) (delete key (ms_values m)) (ms_sets m) (ms_setExpiry m))
  end.

(** [internal/issuer/state.go:MemoryState.Get] *)
Definition MemoryState_Get key : M MemoryState (option V) := λ m, let '(v, m) := MemoryState_get key m in (Ok v, m).

(** [internal/issuer/state.go:MemoryState.set] *)
Definition MemoryState_set key (value : V) ttl (m : MemoryState) : MemoryState :=
  mkMemoryState (ms_now m) (<[key := (value, expires_in (ms_now m) ttl)]> (ms_values m)) (ms_sets m) (ms_setExpiry m).

(** [internal/issuer/state.go:MemoryState.Set] *)
Definition MemoryState_Set key (value : V) ttl : M MemoryState unit := λ m, (Ok tt, MemoryState_set key value ttl m).

(** [internal/issuer/state.go:MemoryState.Add] *)
Definition MemoryState_Add key member ttl : M MemoryState unit := λ m,
  (Ok tt, mkMemoryState (ms_now m) (ms_values m) (<[key := {[member]} ∪ default ∅ (ms_sets m !! key)]> (ms_sets m))
     (if (0 <? ttl)%Z then <[key := (ms_now m + ttl)%Z]> (ms_setExpiry m) else ms_setExpiry m)).

(** [internal/issuer/state.go:MemoryState.Remove] *)
Definition MemoryState_Remove key member : M MemoryState unit := λ m,
  let held := default ∅ (ms_sets m !! key) ∖ {[member]} in
  (Ok tt,
   if bool_decide (held = ∅)
   then mkMemoryState (ms_now m) (ms_values m) (delete key (ms_sets m)) (delete key (ms_setExpiry m))
   else mkMemoryState (ms_now m) (ms_values m) (<[key := held]> (ms_sets m)) (ms_setExpiry m)).

(** [internal/issuer/state.go:MemoryState.Members] *)
Definition MemoryState_Members key : M MemoryState (list string) := λ m,
  match ms_setExpiry m !! key with
  | Some expires =>
      if (ms_now m <? expires)%Z then (Ok (elements (default ∅ (ms_sets m !! key))), m)
      else (Ok [], mkMemoryState (ms_now m) (ms_values m) (delete key (ms_sets m)) (delete key (ms_setExpiry m)))
  | None => (Ok (elements (default ∅ (ms_sets m !! key))), m)
  end.

(** [internal/issuer/state.go:MemoryState.SetIfAbsent] *)
Definition MemoryState_SetIfAbsent key (value : V) ttl : M MemoryState bool := λ m,
  let '(taken, m) := MemoryState_get key m in
  match taken with Some _ => (Ok false, m) | None => (Ok true, MemoryState_set key value ttl m) end.

(** [internal/issuer/state.go:MemoryState.Delete] *)
Definition MemoryState_Delete key : M MemoryState unit := λ m,
  (Ok tt, mkMemoryState (ms_now m) (delete key (ms_values m)) (ms_sets m) (ms_setExpiry m)).

(** Time passing. *)
Definition MemoryState_wait (m : MemoryState) (d : Z) : MemoryState :=
  mkMemoryState (ms_now m + d) (ms_values m) (ms_sets m) (ms_setExpiry m).

#[global] Instance MemoryState_IState : IState V MemoryState := {
  is_Get := MemoryState_Get; is_Set := MemoryState_Set; is_SetIfAbsent := MemoryState_SetIfAbsent;
  is_Delete := MemoryState_Delete; is_Add := MemoryState_Add; is_Remove := MemoryState_Remove;
  is_Members := MemoryState_Members; is_now := ms_now; is_wait := MemoryState_wait }.

(** What it shows: the values and the sets that have not expired. *)
Definition shown_value (m : MemoryState) key : option (V * option Z) :=
  match ms_values m !! key with
  | Some (v, e) => if alive (ms_now m) e then Some (v, e) else None
  | None => None
  end.
Definition shown_set (m : MemoryState) key : option members_map :=
  match ms_sets m !! key with
  | Some ms => if alive (ms_now m) (ms_setExpiry m !! key) then Some (ms, ms_setExpiry m !! key) else None
  | None => None
  end.

Lemma alive_in now ttl : alive now (expires_in now ttl) = true.
Proof. unfold expires_in. destruct (Z.leb_spec ttl 0); [done|]. simpl. apply Z.ltb_lt. lia. Qed.

Lemma alive_later now d e : (0 <= d)%Z → alive (now + d) e = true → alive now e = true.
Proof. intros Hd. destruct e as [t|]; [|done]. simpl. rewrite !Z.ltb_lt. lia. Qed.

Lemma get_shown key m : let '(v, m') := MemoryState_get key m in
  v = fst <$> shown_value m key ∧ ms_now m' = ms_now m ∧
  (∀ k, shown_value m' k = shown_value m k) ∧ (∀ k, shown_set m' k = shown_set m k).
Proof.
  unfold MemoryState_get, shown_value. destruct (ms_values m !! key) as [[v e]|] eqn:Hv; [|done].
  destruct (alive (ms_now m) e) eqn:Ha; simpl; [done|]. split_and!; [done..| |done].
  intros k. destruct (decide (k = key)) as [->|]; [by rewrite lookup_delete_eq, Hv, Ha|by rewrite lookup_delete_ne].
Qed.

Lemma set_shown key v ttl m k :
  shown_value (MemoryState_set key v ttl m) k = upd (shown_value m) key (Some (v, expires_in (ms_now m) ttl)) k.
Proof.
  unfold shown_value, MemoryState_set, upd. simpl. destruct (decide (k = key)) as [->|].
  - rewrite lookup_insert_eq. by rewrite alive_in.
  - by rewrite lookup_insert_ne.
Qed.

#[global] Program Instance MemoryState_IStateSpec : IStateSpec V MemoryState := {
  iv_value := shown_value; iv_set := shown_set }.
Next Obligation.
  intros m key v e. unfold shown_value. destruct (ms_values m !! key) as [[v' e']|]; [|done].
  destruct (alive _ e') eqn:Ha; [|done]. by intros [= <- <-].
Qed.
Next Obligation.
  intros m key ms e. unfold shown_set. destruct (ms_sets m !! key); [|done].
  destruct (alive _ _) eqn:Ha; [|done]. by intros [= <- <-].
Qed.
Next Obligation.
  intros m key. pose proof (get_shown key m) as H. simpl. unfold MemoryState_Get.
  destruct (MemoryState_get key m) as [v m']. destruct H as (->&?&?&?). by exists m'.
Qed.
Next Obligation.
  intros m key v ttl. simpl. eexists. split; [done|]. split; [done|]. split; [|done]. intros k. apply set_shown.
Qed.
Next Obligation.
  intros m key v ttl. simpl. unfold MemoryState_SetIfAbsent. pose proof (get_shown key m) as H.
  destruct (MemoryState_get key m) as [w m']. destruct H as (->&Hn&Hv&Hs).
  destruct (shown_value m key) as [[x e]|] eqn:Hx; simpl.
  - by exists m'.
  - eexists. split; [done|]. split; [done|]. split; [|done].
    intros k. rewrite set_shown. unfold upd. rewrite Hn. by destruct (decide _).
Qed.
Next Obligation.
  intros m key. simpl. eexists. split; [done|]. split; [done|]. split; [|done]. intros k.
  unfold shown_value, upd. simpl. destruct (decide (k = key)) as [->|]; [by rewrite lookup_delete_eq|by rewrite lookup_delete_ne].
Qed.
Next Obligation.
  intros m key member ttl Httl. simpl. do 2 eexists. split; [done|]. split; [done|]. split; [done|].
  unfold shown_set. simpl. rewrite (proj2 (Z.ltb_lt 0 ttl) Httl), !lookup_insert_eq. simpl.
  rewrite (proj2 (Z.ltb_lt _ _)) by lia. split; [done|]. split.
  - destruct (ms_sets m !! key); simpl; [destruct (alive _ _)|]; simpl; set_solver.
  - intros k Hk. by rewrite !lookup_insert_ne.
Qed.
Next Obligation.
  intros m key member. simpl. eexists. split; [done|]. case_bool_decide as Hheld; simpl.
  - split; [done|]. split; [done|]. unfold shown_set. simpl. split; [intros k Hk; by rewrite !lookup_delete_ne|].
    rewrite lookup_delete_eq. split; [|done].
    destruct (ms_sets m !! key); simpl in *; [destruct (alive _ _)|]; simpl; set_solver.
  - split; [done|]. split; [done|]. unfold shown_set. simpl. split; [intros k Hk; by rewrite !lookup_insert_ne|].
    rewrite lookup_insert_eq. destruct (ms_sets m !! key) as [ms|]; simpl in *; [|set_solver].
    destruct (alive _ _); simpl; split; [done|by intros ? ? [= _ <-]; eexists|set_solver|done].
Qed.
Next Obligation.
  intros m key. simpl. unfold MemoryState_Members, shown_set.
  destruct (ms_setExpiry m !! key) as [t|] eqn:Ht; simpl.
  - destruct (ms_now m <? t)%Z eqn:Hlt.
    + do 2 eexists. split; [done|]. split; [done|]. by destruct (ms_sets m !! key).
    + do 2 eexists. split; [done|]. split; [done|]. split; [|split; [done|]].
      * destruct (ms_sets m !! key); simpl; by rewrite ?elements_empty.
      * intros k. simpl. destruct (decide (k = key)) as [->|]; [|by rewrite !lookup_delete_ne].
        rewrite !lookup_delete_eq, Ht. simpl. rewrite Hlt. by destruct (ms_sets m !! key).
  - do 2 eexists. split; [done|]. split; [done|]. by destruct (ms_sets m !! key).
Qed.
Next Obligation.
  intros m d Hd. simpl. split; [done|]. unfold shown_value, shown_set. simpl. split; intros k.
  - destruct (ms_values m !! k) as [[v e]|]; [|done].
    destruct (alive (ms_now m + d) e) eqn:Ha; [by rewrite (alive_later _ d), Ha|].
    destruct (alive (ms_now m) e); [by rewrite Ha|done].
  - destruct (ms_sets m !! k) as [ms|]; [|done]. set (e := ms_setExpiry m !! k).
    destruct (alive (ms_now m + d) e) eqn:Ha; [by rewrite (alive_later _ d), Ha|].
    destruct (alive (ms_now m) e); [by rewrite Ha|done].
Qed.
End memory.

(** ** Reading and writing documents

    [encoding/json] as the store's clients rely on it: what was encoded decodes to
    the same value; and a string's bytes are stored as they are. *)

Class Value (V : Type) := { raw : string → V; text : V → string; text_raw : ∀ s, text (raw s) = s }.
Class Document (V T : Type) := { encode : T → V; decode : V → option T; decode_encode : ∀ x, decode (encode x) = Some x }.
#[global] Hint Mode Document + + : typeclass_instances.

(** Stores that hold text and documents of one or of two types. *)
#[export] Program Instance Value_sum {T} : Value (string + T) := {
  raw := inl; text := λ v, match v with inl s => s | inr _ => "" end }.
Solve All Obligations with done.
#[export] Program Instance Document_sum {T} : Document (string + T) T := {
  encode := inr; decode := λ v, match v with inl _ => None | inr x => Some x end }.
Solve All Obligations with done.

Section documents.
Context {V S T : Type} `{IState V S} `{Document V T}.

(** [internal/issuer/state.go:getJSON] *)
Definition getJSON key : M S (option T) :=
  found ← is_Get key;
  match found with
  | None => mret None
  | Some v => match decode v with Some x => mret (Some x) | None => fail (Unreadable key) end
  end.

(** [internal/issuer/state.go:setJSON]; the types stored all encode. *)
Definition setJSON key (value : T) ttl : M S unit := is_Set key (encode value) ttl.
End documents.

(** ** Running an operation *)

(** [m] answers, and what it answers and leaves is [Φ]. *)
Definition runs {S A} (m : M S A) (s : S) (Φ : A → S → Prop) : Prop := ∃ a s', m s = (Ok a, s') ∧ Φ a s'.

Section running.
Context {V S : Type} `{IStateSpec V S}.
Implicit Types (s : S).

(** Nothing a client can see has changed. *)
Definition same s s' : Prop :=
  is_now s' = is_now s ∧ (∀ k, iv_value s' k = iv_value s k) ∧ (∀ k, iv_set s' k = iv_set s k).

Lemma same_refl s : same s s.
Proof. done. Qed.
Lemma same_trans s1 s2 s3 : same s1 s2 → same s2 s3 → same s1 s3.
Proof. intros (a&b&c) (d&e&f). split_and!; [congruence|intros k; by rewrite e|intros k; by rewrite f]. Qed.

Lemma runs_ret {A} (a : A) s Φ : Φ a s → runs (mret a) s Φ.
Proof. intros HΦ. by exists a, s. Qed.

Lemma runs_bind {A B} (m : M S A) (k : A → M S B) s Φ : runs m s (λ a s', runs (k a) s' Φ) → runs (m ≫= k) s Φ.
Proof. intros (a&s'&Hm&b&s''&Hk&HΦ). exists b, s''. split; [|done]. unfold mbind, M_bind. by rewrite Hm. Qed.

Lemma runs_mono {A} (m : M S A) s (Φ Ψ : A → S → Prop) : (∀ a s', Φ a s' → Ψ a s') → runs m s Φ → runs m s Ψ.
Proof. intros HΦΨ (a&s'&Hm&HΦ). exists a, s'. eauto. Qed.

Lemma runs_Get key s Φ : (∀ s', same s s' → Φ (fst <$> iv_value s key) s') → runs (is_Get key) s Φ.
Proof. intros HΦ. destruct (is_Get_spec s key) as (s'&Hm&?&?&?). eexists _, s'. split; [done|]. by apply HΦ. Qed.

Lemma runs_Set key v ttl s Φ :
  (∀ s', is_now s' = is_now s → (∀ k, iv_value s' k = upd (iv_value s) key (Some (v, expires_in (is_now s) ttl)) k) →
    (∀ k, iv_set s' k = iv_set s k) → Φ tt s') → runs (is_Set key v ttl) s Φ.
Proof. intros HΦ. destruct (is_Set_spec s key v ttl) as (s'&Hm&?&?&?). eexists _, s'. split; [done|]. by apply HΦ. Qed.

Lemma runs_Delete key s Φ :
  (∀ s', is_now s' = is_now s → (∀ k, iv_value s' k = upd (iv_value s) key None k) →
    (∀ k, k ≠ key → iv_set s' k = iv_set s k) → Φ tt s') → runs (is_Delete key) s Φ.
Proof. intros HΦ. destruct (is_Delete_spec s key) as (s'&Hm&?&?&?). eexists _, s'. split; [done|]. by apply HΦ. Qed.

Lemma runs_Members key s Φ :
  (∀ l s', same s s' → l ≡ₚ elements (members_in (iv_set s key)) → Φ l s') → runs (is_Members key) s Φ.
Proof. intros HΦ. destruct (is_Members_spec s key) as (l&s'&Hm&?&?&?&?). eexists _, s'. split; [done|]. by apply HΦ. Qed.

(** A member added under each of some keys, for the same time. *)
Lemma runs_adds keys member ttl s Φ : (0 < ttl)%Z →
  (∀ s', is_now s' = is_now s → (∀ k, iv_value s' k = iv_value s k) →
    (∀ k, k ∉ keys → iv_set s' k = iv_set s k) →
    (∀ k, k ∈ keys → ∃ ms, iv_set s' k = Some (ms, Some (is_now s + ttl)%Z) ∧ {[member]} ∪ members_in (iv_set s k) ⊆ ms) →
    Φ tt s') → runs (each (λ key, is_Add key member ttl) keys) s Φ.
Proof.
  intros Httl. revert s. induction keys as [|key keys IH]; intros s HΦ.
  { apply runs_ret, HΦ; [done..|]. by intros k ?%elem_of_nil. }
  apply runs_bind. destruct (is_Add_spec s key member ttl Httl) as (s1&ms1&Hadd&Hn1&Hv1&Hk1&Hms1&Hs1).
  exists tt, s1. split; [done|]. apply IH. intros s2 Hn2 Hv2 Hout Hin. apply HΦ.
  - congruence.
  - intros k. by rewrite Hv2, Hv1.
  - intros k [? ?]%not_elem_of_cons. by rewrite Hout, Hs1.
  - intros k Hk. destruct (decide (k ∈ keys)) as [Hlater|Hlater].
    + destruct (Hin k Hlater) as (ms&Hms&Hsub). rewrite Hn1 in Hms. exists ms. split; [done|].
      destruct (decide (k = key)) as [->|]; [rewrite Hk1 in Hsub; simpl in Hsub; set_solver|by rewrite Hs1 in Hsub].
    + apply elem_of_cons in Hk as [->|]; [|done]. exists ms1. split; [by rewrite Hout|done].
Qed.

(** A member removed under each of some keys. *)
Lemma runs_removes keys member s Φ :
  (∀ s', is_now s' = is_now s → (∀ k, iv_value s' k = iv_value s k) →
    (∀ k, k ∉ keys → iv_set s' k = iv_set s k) →
    (∀ k, k ∈ keys → members_in (iv_set s' k) = members_in (iv_set s k) ∖ {[member]} ∧
       ∀ ms e, iv_set s' k = Some (ms, e) → ∃ ms', iv_set s k = Some (ms', e)) →
    Φ tt s') → runs (each (λ key, is_Remove key member) keys) s Φ.
Proof.
  revert s. induction keys as [|key keys IH]; intros s HΦ.
  { apply runs_ret, HΦ; [done..|]. by intros k ?%elem_of_nil. }
  apply runs_bind. destruct (is_Remove_spec s key member) as (s1&Hrem&Hn1&Hv1&Hs1&Hms1&He1).
  exists tt, s1. split; [done|]. apply IH. intros s2 Hn2 Hv2 Hout Hin. apply HΦ.
  - congruence.
  - intros k. by rewrite Hv2, Hv1.
  - intros k [? ?]%not_elem_of_cons. by rewrite Hout, Hs1.
  - intros k Hk. assert (members_in (iv_set s1 k) ∖ {[member]} = members_in (iv_set s k) ∖ {[member]} ∧
      ∀ ms e, iv_set s1 k = Some (ms, e) → ∃ ms', iv_set s k = Some (ms', e)) as [Hms He].
    { destruct (decide (k = key)) as [->|]; [|by rewrite Hs1; eauto]. split; [|done]. rewrite Hms1. set_solver. }
    destruct (decide (k ∈ keys)) as [Hlater|Hlater].
    + destruct (Hin k Hlater) as [Hms2 He2]. split; [by rewrite Hms2|].
      intros ms e H2. destruct (He2 ms e H2) as (ms'&H'). eauto.
    + apply elem_of_cons in Hk as [->|]; [|done]. rewrite Hout by done. by split.
Qed.

Context `{Document V T}.

Lemma runs_getJSON key s (Φ : option T → S → Prop) x :
  match iv_value s key with Some (v, _) => decode v = x ∧ x ≠ None | None => x = None end →
  (∀ s', same s s' → Φ x s') → runs (getJSON key) s Φ.
Proof.
  intros Hx HΦ. apply runs_bind, runs_Get. intros s' Hs. destruct (iv_value s key) as [[v e]|]; simpl.
  - destruct Hx as [Hx Hnone]. rewrite Hx. destruct x; [|done]. by apply runs_ret, HΦ.
  - subst x. by apply runs_ret, HΦ.
Qed.
End running.

(** The moment the client reads from its clock. *)
Definition moment {V S} `{IState V S} : M S Z := λ s, (Ok (is_now s), s).
Lemma runs_moment {V S} `{IState V S} s Φ : Φ (is_now s) s → runs moment s Φ.
Proof. intros HΦ. by exists (is_now s), s. Qed.
