(* ===== verification/Sessions.v ===== *)
(** * Sessions: the index beside the refresh tokens

    [internal/issuer/session.go]: the records of who is signed in to which client,
    the refresh tokens that name them, the sets that find them, and what ends them,
    over any store that keeps the promises of [IStateSpec].

    A zero [time.Time] is [None]; times and durations are nanoseconds.  An id is the
    argument a caller of [newID] got.  The index's clock is the store's, and does
    not move within a step; [Refreshed] is split in two where the clock or another
    request may come in between ([refresh_begin], [refresh_end]). *)

From S2P Require Import Prelude GoStrings Sha256 Port IssuerState.

Implicit Types (id token identity clientID : string).

(** ** The data *)

(** [internal/issuer/session.go:type Session] *)
Record Session := mkSession {
  se_ID : string; se_Identity : string; se_ClientID : string; se_How : string; se_Scopes : list string;
  se_Resource : string; se_SSO : string; se_AuthTime : option Z; se_IssuedAt : Z; se_ExpiresAt : Z;
  se_LastRefreshed : option Z }.

(** [internal/issuer/session.go:Session.Live] *)
Definition Session_Live (x : Session) (now : Z) : bool := (now <? se_ExpiresAt x)%Z.

(** [internal/issuer/session.go:type Sessions]; the state, the clock and the ids are arguments. *)
Record Sessions := mkSessions { ss_lifetime : Z; ss_absolute : Z; ss_resolve : option (list string → Z) }.

(** [internal/issuer/session.go:NewSessions] *)
Definition NewSessions (lifetime absolute : Z) : Sessions := mkSessions lifetime absolute None.

(** [internal/issuer/session.go:Sessions.SetAbsoluteResolver] *)
Definition SetAbsoluteResolver (c : Sessions) (resolve : list string → Z) : Sessions :=
  mkSessions (ss_lifetime c) (ss_absolute c) (Some resolve).

(** [internal/issuer/session.go:Sessions.absoluteOf] *)
Definition absoluteOf (c : Sessions) (touched : list string) : Z :=
  match ss_resolve c with None => ss_absolute c | Some resolve => resolve touched end.

(** [internal/issuer/session.go:Sessions.pastLimit] *)
Definition pastLimit (c : Sessions) (x : Session) (now : Z) : bool :=
  let absolute := absoluteOf c [se_Resource x] in
  match se_AuthTime x with
  | None => false
  | Some authTime => if (absolute <=? 0)%Z then false else negb (now <? authTime + absolute)%Z
  end.

(** [internal/issuer/session.go:sessionKey] *)
Definition sessionKey id : string := "issuer:session:" +:+ id.
(** [internal/issuer/session.go:sessionOfKey] *)
Definition sessionOfKey identity : string := "issuer:sessions-of:" +:+ ToLower identity.
(** [internal/issuer/session.go:sessionForKey] *)
Definition sessionForKey clientID : string := "issuer:sessions-for:" +:+ clientID.
(** [internal/issuer/session.go:sessionTokenKey] *)
Definition sessionTokenKey token : string := "issuer:session-token:" +:+ hex (Sum256 token).
(** [internal/issuer/session.go:sessionRotatedKey] *)
Definition sessionRotatedKey token : string := "issuer:session-rotated:" +:+ hex (Sum256 token).
(** [internal/issuer/session.go:219-222 sessionAllKey] *)
Definition sessionAllKey : string := "issuer:sessions".

(** [internal/issuer/session.go:capEnd] *)
Definition capEnd (now : Z) (authTime : option Z) (refresh absolute : Z) : Z :=
  let fin := (now + refresh)%Z in
  match authTime with
  | None => fin
  | Some t => if (absolute <=? 0)%Z then fin else let limit := (t + absolute)%Z in if (limit <? fin)%Z then limit else fin
  end.

(** [internal/issuer/session.go:212-217 refreshGrace]: thirty seconds. *)
Definition refreshGrace : Z := 30 * 1000000000.

(** [internal/issuer/session.go:type Opened] *)
Record Opened := mkOpened {
  op_Identity : string; op_ClientID : string; op_Resource : string; op_How : string; op_Token : string;
  op_Scopes : list string; op_SSO : string; op_AuthTime : option Z }.

(** [internal/issuer/session.go:type Query] *)
Record Query := mkQuery { q_Identity : string; q_ClientID : string; q_SSO : string; q_Contains : bool }.

(** [internal/issuer/session.go:Query.set] *)
Definition Query_set (q : Query) : string :=
  if q_Contains q then sessionAllKey
  else if negb (empty (q_Identity q)) then sessionOfKey (q_Identity q)
  else if negb (empty (q_ClientID q)) then sessionForKey (q_ClientID q)
  else sessionAllKey.

(** [internal/issuer/session.go:matches] *)
Definition matches (have want : string) (contains : bool) : bool :=
  if contains then Contains have want else bool_decide (have = want).

(** [internal/issuer/session.go:626-635 Sessions.collect]: what a listed session has to meet. *)
Definition selects (q : Query) (x : Session) : bool :=
  let identity := ToLower (TrimSpace (q_Identity q)) in
  if negb (empty identity) && negb (matches (se_Identity x) identity (q_Contains q)) then false
  else if negb (empty (q_ClientID q)) && negb (matches (se_ClientID x) (q_ClientID q) (q_Contains q)) then false
  else if negb (empty (q_SSO q)) && negb (bool_decide (se_SSO x = q_SSO q)) then false
  else true.

(** The sets a session is found by. *)
Definition indexes (x : Session) : list string :=
  [sessionAllKey; sessionOfKey (se_Identity x); sessionForKey (se_ClientID x)].

(** Newest first, then by id. *)
Definition newer (a b : Session) : Prop :=
  (se_IssuedAt b < se_IssuedAt a)%Z ∨ se_IssuedAt a = se_IssuedAt b ∧ String.le (se_ID a) (se_ID b).
#[export] Instance newer_dec a b : Decision (newer a b).
Proof. unfold newer. apply _. Defined.

(** ** The operations *)

Section operations.
Context {V S : Type} `{IState V S} `{Value V} `{Document V Session}.
Implicit Types (c : Sessions) (x : Session).

(** [internal/issuer/session.go:Sessions.put] *)
Definition put c x : M S unit :=
  now ← moment;
  if negb (now <? se_ExpiresAt x)%Z then fail (AlreadyExpired (se_ID x))
  else setJSON (sessionKey (se_ID x)) x (ss_lifetime c).

(** [internal/issuer/session.go:Sessions.byID] *)
Definition byID id : M S (option Session) :=
  found ← getJSON (sessionKey id);
  match found with
  | None => mret None
  | Some x => now ← moment; mret (if Session_Live x now then Some x else None)
  end.

(** [internal/issuer/session.go:Sessions.ByToken] *)
Definition ByToken token : M S (option Session) :=
  found ← is_Get (sessionTokenKey token);
  match found with None => mret None | Some v => byID (text v) end.

(** The record, the token's pointer, and the sets: the end of opening and of refreshing. *)
Definition file c x token : M S unit :=
  put c x ;;
  is_Set (sessionTokenKey token) (raw (se_ID x)) (ss_lifetime c) ;;
  each (λ key, is_Add key (se_ID x) (ss_lifetime c)) (indexes x).

(** [internal/issuer/session.go:Sessions.Record] *)
Definition Sessions_Record c (o : Opened) id : M S Session :=
  now ← moment;
  let session := mkSession id (ToLower (op_Identity o)) (op_ClientID o) (op_How o) (op_Scopes o) (op_Resource o) (op_SSO o)
    (op_AuthTime o) now (capEnd now (op_AuthTime o) (ss_lifetime c) (absoluteOf c [op_Resource o])) None in
  file c session (op_Token o) ;; mret session.

(** [internal/issuer/session.go:Sessions.deleteSession] *)
Definition deleteSession x : M S unit :=
  is_Delete (sessionKey (se_ID x)) ;; each (λ key, is_Remove key (se_ID x)) (indexes x).

(** [internal/issuer/session.go:Sessions.replayed] *)
Definition replayed oldToken : M S (option (Session * string)) :=
  found ← is_Get (sessionRotatedKey oldToken);
  match found with
  | None => mret None
  | Some v => live ← ByToken (text v); mret ((λ x, (x, text v)) <$> live)
  end.

(** [internal/issuer/session.go:306-315 Sessions.Refreshed]: the old token is spent. *)
Definition refresh_begin oldToken newToken : M S unit :=
  is_Delete (sessionTokenKey oldToken) ;; is_Set (sessionRotatedKey oldToken) (raw newToken) refreshGrace.

(** [internal/issuer/session.go:317-352 Sessions.Refreshed]: the session moves to the new one, or ends. *)
Definition refresh_end c x newToken : M S (option (Session * string)) :=
  now ← moment;
  let session := mkSession (se_ID x) (se_Identity x) (se_ClientID x) (se_How x) (se_Scopes x) (se_Resource x) (se_SSO x)
    (se_AuthTime x) (se_IssuedAt x) (capEnd now (se_AuthTime x) (ss_lifetime c) (absoluteOf c [se_Resource x])) (Some now) in
  if negb (now <? se_ExpiresAt session)%Z then deleteSession session ;; mret None
  else file c session newToken ;; mret (Some (session, newToken)).

(** [internal/issuer/session.go:306-352 Sessions.Refreshed]: what is done with the session the old token named. *)
Definition refresh_from c x oldToken newToken : M S (option (Session * string)) :=
  refresh_begin oldToken newToken ;; refresh_end c x newToken.

(** [internal/issuer/session.go:Sessions.Refreshed] *)
Definition Refreshed c oldToken newToken : M S (option (Session * string)) :=
  found ← ByToken oldToken;
  match found with
  | None => replayed oldToken
  | Some x => refresh_from c x oldToken newToken
  end.

(** [internal/issuer/session.go:Sessions.ByRefreshToken] *)
Definition ByRefreshToken token : M S (option Session) :=
  found ← ByToken token;
  match found with Some x => mret (Some x) | None => r ← replayed token; mret (fst <$> r) end.

(** [internal/issuer/session.go:609-638 Sessions.collect]: the ids one by one. *)
Fixpoint collect_ids (q : Query) (ids : list string) : M S (list Session) :=
  match ids with
  | [] => mret []
  | id :: rest =>
      found ← byID id;
      match found with
      | None => is_Remove (Query_set q) id ;; collect_ids q rest
      | Some x => out ← collect_ids q rest; mret (if selects q x then x :: out else out)
      end
  end.

(** [internal/issuer/session.go:Sessions.collect] *)
Definition collect (q : Query) : M S (list Session) := ids ← is_Members (Query_set q); collect_ids q ids.

(** [internal/issuer/session.go:Sessions.List] *)
Definition Sessions_List (q : Query) : M S (list Session) := out ← collect q; mret (merge_sort newer out).

(** [internal/issuer/session.go:Sessions.RevokeID] *)
Definition RevokeID id : M S bool :=
  found ← byID id;
  match found with None => mret false | Some x => deleteSession x ;; mret true end.

(** [internal/issuer/session.go:498-513 Sessions.Revoke]: one by one, counting. *)
Fixpoint revoke_all (ids : list string) (ended : nat) : M S nat :=
  match ids with
  | [] => mret ended
  | id :: rest => gone ← RevokeID id; revoke_all rest (if gone : bool then Datatypes.S ended else ended)
  end.

(** [internal/issuer/session.go:Sessions.Revoke] *)
Definition Revoke (q : Query) : M S nat :=
  if q_Contains q then fail SubstringRevoke else found ← collect q; revoke_all (se_ID <$> found) 0.

(** [internal/issuer/session.go:Sessions.RevokeToken] *)
Definition RevokeToken token : M S bool :=
  found ← is_Get (sessionTokenKey token);
  match found with
  | None => mret false
  | Some v => is_Delete (sessionTokenKey token) ;; RevokeID (text v)
  end.

(** [internal/issuer/session.go:584-594 Sessions.Sweep]: the ids one by one. *)
Fixpoint sweep_ids (ids : list string) (gone : nat) : M S nat :=
  match ids with
  | [] => mret gone
  | id :: rest => found ← byID id; sweep_ids rest (match found with None => Datatypes.S gone | Some _ => gone end)
  end.

(** [internal/issuer/session.go:Sessions.Sweep] *)
Definition Sweep : M S nat := ids ← is_Members sessionAllKey; sweep_ids ids 0.

(** [internal/issuer/session.go:Sessions.endedByAbsoluteLimit] *)
Definition endedByAbsoluteLimit token : M S (option Session) :=
  found ← is_Get (sessionTokenKey token);
  match found with
  | None => mret None
  | Some v =>
      held ← getJSON (sessionKey (text v));
      match held with
      | None => mret None
      | Some x => now ← moment; mret (if Session_Live x now then None else Some x)
      end
  end.
End operations.
