(* ===== verification/SessionsSpec.v ===== *)
(** * SessionsSpec: what the session index promises

    The specification of [Sessions] is a [book]: one table of the sessions, one of
    the tokens and one of the tokens just spent, with no index sets and no scan that
    could miss anything.  The index over a store refines it request by request
    ([perform_agrees]); what follows for sign-ins — rotation, the grace window, the
    absolute limit, revocation — is proved of the code through the book. *)

From S2P Require Import Prelude GoStrings Sha256 Port IssuerState Sessions.

Implicit Types (id token identity clientID : string) (c : Sessions).

(** ** The book *)

Definition digest token : string := hex (Sum256 token).

Record book := mkBook {
  bk_now : Z; bk_records : gmap string (Session * Z); bk_tokens : gmap string (string * Z); bk_spent : gmap string (string * Z) }.
Implicit Types (b : book).

Definition book_session b id : option Session :=
  match bk_records b !! id with
  | Some (x, _) => if Session_Live x (bk_now b) then Some x else None
  | None => None
  end.
Definition book_holder b token : option Session :=
  match bk_tokens b !! digest token with Some (id, _) => book_session b id | None => None end.
Definition book_file c (x : Session) token b : book :=
  let until := (bk_now b + ss_lifetime c)%Z in
  mkBook (bk_now b) (<[se_ID x := (x, until)]> (bk_records b)) (<[digest token := (se_ID x, until)]> (bk_tokens b)) (bk_spent b).
Definition book_end id b : book := mkBook (bk_now b) (delete id (bk_records b)) (bk_tokens b) (bk_spent b).

Definition book_end_all (ids : gset string) b : book :=
  mkBook (bk_now b) (filter (λ kv, kv.1 ∉ ids) (bk_records b)) (bk_tokens b) (bk_spent b).

Definition opened c (o : Opened) id (now : Z) : Session :=
  mkSession id (ToLower (op_Identity o)) (op_ClientID o) (op_How o) (op_Scopes o) (op_Resource o) (op_SSO o) (op_AuthTime o) now
    (capEnd now (op_AuthTime o) (ss_lifetime c) (absoluteOf c [op_Resource o])) None.
Definition book_record c (o : Opened) id b : result issuer_error Session * book :=
  let x := opened c o id (bk_now b) in
  if Session_Live x (bk_now b) then (Ok x, book_file c x (op_Token o) b) else (Err (AlreadyExpired id), b).

Definition moved c (x : Session) (now : Z) : Session :=
  mkSession (se_ID x) (se_Identity x) (se_ClientID x) (se_How x) (se_Scopes x) (se_Resource x) (se_SSO x) (se_AuthTime x)
    (se_IssuedAt x) (capEnd now (se_AuthTime x) (ss_lifetime c) (absoluteOf c [se_Resource x])) (Some now).
Definition book_replayed b token : option (Session * string) :=
  match bk_spent b !! digest token with
  | Some (successor, _) => (λ x, (x, successor)) <$> book_holder b successor
  | None => None
  end.
Definition book_spend oldToken newToken b : book :=
  mkBook (bk_now b) (bk_records b) (delete (digest oldToken) (bk_tokens b))
    (<[digest oldToken := (newToken, bk_now b + refreshGrace)%Z]> (bk_spent b)).
Definition book_move c (x : Session) newToken b : option (Session * string) * book :=
  let x' := moved c x (bk_now b) in
  if Session_Live x' (bk_now b) then (Some (x', newToken), book_file c x' newToken b) else (None, book_end (se_ID x) b).
Definition book_refreshed c oldToken newToken b : option (Session * string) * book :=
  match book_holder b oldToken with
  | None => (book_replayed b oldToken, b)
  | Some x => book_move c x newToken (book_spend oldToken newToken b)
  end.
Definition book_by_refresh b token : option Session :=
  match book_holder b token with Some x => Some x | None => fst <$> book_replayed b token end.

(** The live sessions a query selects, in no order. *)
Definition book_found (q : Query) b : list Session :=
  List.filter (selects q) (omap (λ kv, book_session b kv.1) (map_to_list (bk_records b))).
Definition book_revoke (q : Query) b : result issuer_error nat * book :=
  if q_Contains q then (Err SubstringRevoke, b)
  else let found := book_found q b in (Ok (length found), book_end_all (list_to_set (se_ID <$> found)) b).
Definition book_revoke_id id b : bool * book :=
  match book_session b id with Some _ => (true, book_end id b) | None => (false, b) end.
Definition book_untoken token b : book := mkBook (bk_now b) (bk_records b) (delete (digest token) (bk_tokens b)) (bk_spent b).
Definition book_revoke_token token b : bool * book :=
  match bk_tokens b !! digest token with
  | None => (false, b)
  | Some (id, _) => book_revoke_id id (book_untoken token b)
  end.
Definition book_limited b token : option Session :=
  match bk_tokens b !! digest token with
  | Some (id, _) => match bk_records b !! id with
                    | Some (x, _) => if Session_Live x (bk_now b) then None else Some x | None => None end
  | None => None
  end.
Definition book_wait (d : Z) b : book :=
  let now := (bk_now b + d)%Z in
  let kept {A} (m : gmap string (A * Z)) := filter (λ kv, (now < kv.2.2)%Z) m in
  mkBook now (kept (bk_records b)) (kept (bk_tokens b)) (kept (bk_spent b)).

(** ** The requests *)

Inductive request : Type :=
| RqRecord (o : Opened) id | RqRefreshed (oldToken newToken : string) | RqByToken token | RqByRefreshToken token
| RqByID id | RqList (q : Query) | RqRevoke (q : Query) | RqRevokeID id | RqRevokeToken token | RqEnded token.
Inductive answer : Type :=
| AnSession (x : Session) | AnFound (x : option Session) | AnRefreshed (r : option (Session * string))
| AnList (l : list Session) | AnCount (n : nat) | AnGone (gone : bool).

Definition perform {V S} `{IState V S} `{Value V} `{Document V Session} c (r : request) : M S answer :=
  match r with
  | RqRecord o id => x ← Sessions_Record c o id; mret (AnSession x)
  | RqRefreshed old new => a ← Refreshed c old new; mret (AnRefreshed a)
  | RqByToken token => a ← ByToken token; mret (AnFound a)
  | RqByRefreshToken token => a ← ByRefreshToken token; mret (AnFound a)
  | RqByID id => a ← byID id; mret (AnFound a)
  | RqList q => a ← Sessions_List q; mret (AnList a)
  | RqRevoke q => a ← Revoke q; mret (AnCount a)
  | RqRevokeID id => a ← RevokeID id; mret (AnGone a)
  | RqRevokeToken token => a ← RevokeToken token; mret (AnGone a)
  | RqEnded token => a ← endedByAbsoluteLimit token; mret (AnFound a)
  end.

Definition answered {A} (f : A → answer) (p : A * book) : result issuer_error answer * book := (Ok (f p.1), p.2).
Definition attempted {A} (f : A → answer) (p : result issuer_error A * book) : result issuer_error answer * book :=
  (match p.1 with Ok a => Ok (f a) | Err e => Err e end, p.2).

Definition book_perform c (r : request) b : result issuer_error answer * book :=
  match r with
  | RqRecord o id => attempted AnSession (book_record c o id b)
  | RqRefreshed old new => answered AnRefreshed (book_refreshed c old new b)
  | RqByToken token => answered AnFound (book_holder b token, b)
  | RqByRefreshToken token => answered AnFound (book_by_refresh b token, b)
  | RqByID id => answered AnFound (book_session b id, b)
  | RqList q => answered AnList (merge_sort newer (book_found q b), b)
  | RqRevoke q => attempted AnCount (book_revoke q b)
  | RqRevokeID id => answered AnGone (book_revoke_id id b)
  | RqRevokeToken token => answered AnGone (book_revoke_token token b)
  | RqEnded token => answered AnFound (book_limited b token, b)
  end.

(** A query whose identity is written without spaces around it, or looked for as a substring. *)
Definition tidy_query (q : Query) : Prop := q_Contains q = true ∨ TrimSpace (q_Identity q) = q_Identity q.
Definition tidy (r : request) : Prop := match r with RqList q | RqRevoke q => tidy_query q | _ => True end.

(** ** The index over a store and the book *)

(** The limit a session ends by. *)
Definition limited c (x : Session) : Prop :=
  ∀ a, se_AuthTime x = Some a → (0 < absoluteOf c [se_Resource x])%Z → (se_ExpiresAt x <= a + absoluteOf c [se_Resource x])%Z.
(** A record's end is its keeping, or the limit. *)
Definition ends c (x : Session) (until : Z) : Prop :=
  se_ExpiresAt x = until ∨
  ∃ a, se_AuthTime x = Some a ∧ (0 < absoluteOf c [se_Resource x])%Z ∧
    se_ExpiresAt x = (a + absoluteOf c [se_Resource x])%Z ∧ (se_ExpiresAt x < until)%Z.

Record sound_record c (now : Z) id (x : Session) (until : Z) : Prop := {
  sr_id : se_ID x = id; sr_lower : ToLower (se_Identity x) = se_Identity x;
  sr_kept : (now < until <= now + ss_lifetime c)%Z; sr_ends : ends c x until; sr_limited : limited c x }.

Definition consistent c b : Prop := ∀ id x until, bk_records b !! id = Some (x, until) → sound_record c (bk_now b) id x until.

Section index.
Context {V S : Type} `{IStateSpec V S} `{Value V} `{Document V Session}.
Context (c : Sessions).
Implicit Types (s : S).

(** A set that shows a member until some time. *)
Definition shows s key id (until : Z) : Prop := ∃ ms t, iv_set s key = Some (ms, Some t) ∧ id ∈ ms ∧ (until <= t)%Z.

Record agrees s b : Prop := {
  ag_now : is_now s = bk_now b;
  ag_records : ∀ id, iv_value s (sessionKey id) = (λ p, (encode p.1, Some p.2)) <$> bk_records b !! id;
  ag_tokens : ∀ token, iv_value s (sessionTokenKey token) = (λ p, (raw p.1, Some p.2)) <$> bk_tokens b !! digest token;
  ag_spent : ∀ token, iv_value s (sessionRotatedKey token) = (λ p, (raw p.1, Some p.2)) <$> bk_spent b !! digest token;
  ag_shown : ∀ id x until, bk_records b !! id = Some (x, until) → Session_Live x (bk_now b) = true →
    Forall (λ key, shows s key id until) (indexes x);
  ag_consistent : consistent c b }.

(** The keys of different kinds are different. *)
Lemma token_not_session token id : sessionTokenKey token ≠ sessionKey id.
Proof. done. Qed.
Lemma sessionKey_inj id id' : sessionKey id = sessionKey id' → id = id'.
Proof. apply (inj (String.append _)). Qed.
Lemma token_key_digest t t' : sessionTokenKey t = sessionTokenKey t' ↔ digest t = digest t'.
Proof. unfold sessionTokenKey, digest. split; [apply (inj (String.append _))|by intros ->]. Qed.
Lemma rotated_key_digest t t' : sessionRotatedKey t = sessionRotatedKey t' ↔ digest t = digest t'.
Proof. unfold sessionRotatedKey, digest. split; [apply (inj (String.append _))|by intros ->]. Qed.
Lemma index_not_session (x : Session) key id : key ∈ indexes x → key ≠ sessionKey id.
Proof. unfold indexes. rewrite !elem_of_cons, elem_of_nil. by intros [->|[->|[->|[]]]]. Qed.
Lemma index_not_token (x : Session) key token : key ∈ indexes x → key ≠ sessionTokenKey token.
Proof. unfold indexes. rewrite !elem_of_cons, elem_of_nil. by intros [->|[->|[->|[]]]]. Qed.

(** The steps of a store as steps of the book. *)
Lemma shows_kept s s' key id until : iv_set s' key = iv_set s key → shows s key id until → shows s' key id until.
Proof. unfold shows. by intros ->. Qed.

Lemma agrees_same s s' b : same s s' → agrees s b → agrees s' b.
Proof.
  intros (Hn&Hv&Hs) []. split; [by rewrite Hn|intros; by rewrite Hv..| |done].
  intros id x until Hx Hl. specialize (ag_shown0 id x until Hx Hl). eapply Forall_impl; [done|].
  intros key. by apply shows_kept.
Qed.

Lemma run_byID s b id Φ : agrees s b → (∀ s', agrees s' b → Φ (book_session b id) s') → runs (byID id) s Φ.
Proof.
  intros Ha HΦ. apply runs_bind. apply (runs_getJSON _ _ _ (fst <$> bk_records b !! id)).
  - rewrite (ag_records _ _ Ha). destruct (bk_records b !! id) as [[x u]|]; simpl; [by rewrite decode_encode|done].
  - intros s' Hs. pose proof (agrees_same _ _ _ Hs Ha) as Ha'. revert HΦ. unfold book_session.
    destruct (bk_records b !! id) as [[x u]|]; simpl; intros HΦ; [|by apply runs_ret, HΦ].
    apply runs_bind, runs_moment, runs_ret. rewrite (ag_now _ _ Ha'). by apply HΦ.
Qed.

Lemma run_token s b token Φ : agrees s b → (∀ v s', agrees s' b → v = (λ p, raw p.1) <$> bk_tokens b !! digest token → Φ v s') →
  runs (is_Get (sessionTokenKey token)) s Φ.
Proof.
  intros Ha HΦ. apply runs_Get. intros s' Hs. apply HΦ; [by eapply agrees_same|].
  rewrite (ag_tokens _ _ Ha). by destruct (bk_tokens b !! digest token).
Qed.

Lemma run_ByToken s b token Φ : agrees s b → (∀ s', agrees s' b → Φ (book_holder b token) s') → runs (ByToken token) s Φ.
Proof.
  intros Ha HΦ. apply runs_bind, (run_token _ b); [done|]. intros v s' Ha' ->. revert HΦ. unfold book_holder.
  destruct (bk_tokens b !! digest token) as [[id u]|]; simpl; intros HΦ; [|by apply runs_ret, HΦ].
  rewrite text_raw. by apply (run_byID _ b).
Qed.

Lemma run_replayed s b token Φ : agrees s b → (∀ s', agrees s' b → Φ (book_replayed b token) s') → runs (replayed token) s Φ.
Proof.
  intros Ha HΦ. apply runs_bind, runs_Get. intros s' Hs. pose proof (agrees_same _ _ _ Hs Ha) as Ha'.
  rewrite (ag_spent _ _ Ha). revert HΦ. unfold book_replayed.
  destruct (bk_spent b !! digest token) as [[t u]|]; simpl; intros HΦ; [|by apply runs_ret, HΦ].
  rewrite text_raw. apply runs_bind, (run_ByToken _ b); [done|]. intros s'' Ha''. by apply runs_ret, HΦ.
Qed.

(** A token pointed somewhere else, or nowhere, and what it became. *)
Lemma run_spend s b old new Φ : agrees s b → (∀ s', agrees s' (book_spend old new b) → Φ tt s') → runs (refresh_begin old new) s Φ.
Proof.
  intros Ha HΦ. apply runs_bind, runs_Delete. intros s1 Hn1 Hv1 Hs1. apply runs_Set. intros s2 Hn2 Hv2 Hs2. apply HΦ.
  assert (∀ k, iv_value s2 k = upd (upd (iv_value s) (sessionTokenKey old) None) (sessionRotatedKey old)
    (Some (raw new, Some (is_now s + refreshGrace)%Z)) k) as Hv.
  { intros k. rewrite Hv2. unfold upd. case_decide; [by rewrite Hn1|]. by rewrite Hv1. }
  pose proof (ag_now _ _ Ha) as Hn. split; simpl.
  - congruence.
  - intros id. rewrite Hv. unfold upd. rewrite !decide_False by done. by apply ag_records.
  - intros t. rewrite Hv. unfold upd. rewrite decide_False by done. destruct (decide (digest t = digest old)) as [Heq|Hne].
    + rewrite decide_True by by apply token_key_digest. by rewrite Heq, lookup_delete_eq.
    + rewrite decide_False by by rewrite token_key_digest. rewrite lookup_delete_ne by done. by apply ag_tokens.
  - intros t. rewrite Hv. unfold upd. destruct (decide (digest t = digest old)) as [Heq|Hne].
    + rewrite decide_True by by apply rotated_key_digest. by rewrite Heq, lookup_insert_eq, <- Hn.
    + rewrite !decide_False by (done || by rewrite rotated_key_digest). rewrite lookup_insert_ne by done. by apply ag_spent.
  - intros id x until Hx Hl. pose proof (ag_shown _ _ Ha id x until Hx Hl) as Hk. rewrite Forall_forall in Hk |- *.
    intros key Hkey. apply (shows_kept s); [|by apply Hk]. rewrite Hs2, Hs1; [done|]. by eapply index_not_token.
  - apply Ha.
Qed.

Lemma run_untoken s b token Φ : agrees s b → (∀ s', agrees s' (book_untoken token b) → Φ tt s') →
  runs (is_Delete (sessionTokenKey token)) s Φ.
Proof.
  intros Ha HΦ. apply runs_Delete. intros s1 Hn1 Hv1 Hs1. apply HΦ. split; simpl.
  - rewrite Hn1. apply Ha.
  - intros id. rewrite Hv1. unfold upd. rewrite !decide_False by done. by apply ag_records.
  - intros t. rewrite Hv1. unfold upd. destruct (decide (digest t = digest token)) as [Heq|Hne].
    + rewrite decide_True by by apply token_key_digest. by rewrite Heq, lookup_delete_eq.
    + rewrite decide_False by by rewrite token_key_digest. rewrite lookup_delete_ne by done. by apply ag_tokens.
  - intros t. rewrite Hv1. unfold upd. rewrite !decide_False by done. by apply ag_spent.
  - intros id x until Hx Hl. pose proof (ag_shown _ _ Ha id x until Hx Hl) as Hk. rewrite Forall_forall in Hk |- *.
    intros key Hkey. apply (shows_kept s); [|by apply Hk]. rewrite Hs1; [done|]. by eapply index_not_token.
  - apply Ha.
Qed.
Lemma run_file s b (x : Session) token Φ : agrees s b → Session_Live x (bk_now b) = true →
  sound_record c (bk_now b) (se_ID x) x (bk_now b + ss_lifetime c) →
  (∀ s', agrees s' (book_file c x token b) → Φ tt s') → runs (file c x token) s Φ.
Proof.
  intros Ha Hlive Hx HΦ. pose proof (ag_now _ _ Ha) as Hn. pose proof (sr_kept _ _ _ _ _ Hx) as Hlife.
  assert (∀ now, expires_in now (ss_lifetime c) = Some (now + ss_lifetime c)%Z) as Hexp.
  { intros now. unfold expires_in. by rewrite (proj2 (Z.leb_gt _ _)) by lia. }
  apply runs_bind, runs_bind, runs_moment. rewrite Hn. unfold Session_Live in Hlive. rewrite Hlive. simpl.
  apply runs_Set. intros s1 Hn1 Hv1 Hs1. apply runs_bind, runs_Set. intros s2 Hn2 Hv2 Hs2.
  apply (runs_adds (indexes x) (se_ID x)); [lia|]. intros s3 Hn3 Hv3 Hout Hin. apply HΦ.
  rewrite Hexp in Hv1, Hv2.
  assert (∀ k, iv_value s3 k = upd (upd (iv_value s) (sessionKey (se_ID x)) (Some (encode x, Some (bk_now b + ss_lifetime c)%Z)))
    (sessionTokenKey token) (Some (raw (se_ID x), Some (bk_now b + ss_lifetime c)%Z)) k) as Hv.
  { intros k. rewrite Hv3, Hv2. unfold upd. case_decide; [by rewrite Hn1, Hn|]. rewrite Hv1. unfold upd. by rewrite Hn. }
  assert (∀ key id until, (until <= bk_now b + ss_lifetime c)%Z → shows s key id until → shows s3 key id until) as Hshown.
  { intros key id until Hu (ms&t&Hk&Hid&Ht). destruct (decide (key ∈ indexes x)) as [Hkey|Hkey].
    - destruct (Hin key Hkey) as (ms'&Hk'&Hsub). exists ms'. eexists. split; [exact Hk'|].
      rewrite Hs2, Hs1, Hk in Hsub. simpl in Hsub. split; [set_solver|lia].
    - exists ms, t. by rewrite Hout, Hs2, Hs1. }
  split; simpl.
  - congruence.
  - intros id. rewrite Hv. unfold upd. rewrite decide_False by done. destruct (decide (id = se_ID x)) as [->|Hne].
    + by rewrite decide_True, lookup_insert_eq.
    + rewrite decide_False by (intros Heq; by apply sessionKey_inj in Heq). rewrite lookup_insert_ne by done. by apply ag_records.
  - intros t. rewrite Hv. unfold upd. destruct (decide (digest t = digest token)) as [Heq|Hne].
    + rewrite decide_True by by apply token_key_digest. by rewrite Heq, lookup_insert_eq.
    + rewrite !decide_False by (done || by rewrite token_key_digest). rewrite lookup_insert_ne by done. by apply ag_tokens.
  - intros t. rewrite Hv. unfold upd. rewrite !decide_False by done. by apply ag_spent.
  - intros id y until. rewrite lookup_insert_Some. intros [[<- [= <- <-]]|[Hne Hy]] Hl.
    + rewrite Forall_forall. intros key Hkey. destruct (Hin key Hkey) as (ms&Hk&Hsub). eexists ms, _. split; [exact Hk|].
      split; [set_solver|lia].
    + pose proof (ag_shown _ _ Ha id y until Hy Hl) as Hk. eapply Forall_impl; [exact Hk|]. intros key. apply Hshown.
      pose proof (sr_kept _ _ _ _ _ (ag_consistent _ _ Ha id y until Hy)). lia.
  - intros id y until. simpl. rewrite lookup_insert_Some. intros [[<- [= <- <-]]|[_ Hy]]; [done|]. by apply (ag_consistent _ _ Ha).
Qed.

(** A member taken out of some sets hides only that member. *)
Lemma shows_removed s s' (keys : list string) member key id until : id ≠ member →
  (∀ k, k ∉ keys → iv_set s' k = iv_set s k) →
  (∀ k, k ∈ keys → members_in (iv_set s' k) = members_in (iv_set s k) ∖ {[member]} ∧
     ∀ ms e, iv_set s' k = Some (ms, e) → ∃ ms', iv_set s k = Some (ms', e)) →
  shows s key id until → shows s' key id until.
Proof.
  intros Hne Hout Hin (ms&t&Hk&Hid&Ht). destruct (decide (key ∈ keys)) as [Hkey|Hkey].
  - destruct (Hin key Hkey) as [Hms He]. rewrite Hk in Hms. simpl in Hms.
    destruct (iv_set s' key) as [[ms' e]|] eqn:Hk'; simpl in Hms; [|set_solver].
    destruct (He ms' e eq_refl) as (ms''&Hk''). rewrite Hk in Hk''. injection Hk'' as <- <-.
    exists ms', t. split; [done|]. split; [set_solver|done].
  - exists ms, t. by rewrite Hout.
Qed.

Lemma run_deleteSession s b (x : Session) Φ : agrees s b → (∀ s', agrees s' (book_end (se_ID x) b) → Φ tt s') →
  runs (deleteSession x) s Φ.
Proof.
  intros Ha HΦ. apply runs_bind, runs_Delete. intros s1 Hn1 Hv1 Hs1.
  apply (runs_removes (indexes x) (se_ID x)). intros s2 Hn2 Hv2 Hout Hin. apply HΦ.
  assert (∀ k, iv_value s2 k = upd (iv_value s) (sessionKey (se_ID x)) None k) as Hv by (intros k; by rewrite Hv2, Hv1).
  split; simpl.
  - rewrite Hn2, Hn1. apply Ha.
  - intros id. rewrite Hv. unfold upd. destruct (decide (id = se_ID x)) as [->|Hne]; [by rewrite decide_True, lookup_delete_eq|].
    rewrite decide_False by (intros Heq; by apply sessionKey_inj in Heq). rewrite lookup_delete_ne by done. by apply ag_records.
  - intros t. rewrite Hv. unfold upd. rewrite decide_False by done. by apply ag_tokens.
  - intros t. rewrite Hv. unfold upd. rewrite decide_False by done. by apply ag_spent.
  - intros id y until. rewrite lookup_delete_Some. intros [Hne Hy] Hl.
    pose proof (ag_shown _ _ Ha id y until Hy Hl) as Hk. rewrite Forall_forall in Hk |- *. intros key Hkey.
    apply (shows_removed s1 s2 (indexes x) (se_ID x)); [congruence|done..|]. apply (shows_kept s); [|by apply Hk].
    apply Hs1. by eapply index_not_session.
  - intros id y until. simpl. rewrite lookup_delete_Some. intros [_ Hy]. by apply (ag_consistent _ _ Ha).
Qed.

Lemma run_forget s b key id Φ : agrees s b → book_session b id = None → (∀ s', agrees s' b → Φ tt s') →
  runs (is_Remove key id) s Φ.
Proof.
  intros Ha Hnone HΦ. pose proof (runs_removes [key] id s (λ _ s', Φ tt s')) as Hrem.
  destruct Hrem as ([]&s'&Hm&HΦ').
  - intros s' Hn Hv Hout Hin. apply HΦ. destruct Ha as [an ar at_ asp ash ac]. split; [by rewrite Hn|intros; by rewrite Hv..| |done].
    intros id' y until Hy Hl. eapply Forall_impl; [by apply ash|]. intros k Hk.
    eapply (shows_removed s s' [key] id); [|done..]. intros ->. unfold book_session in Hnone. by rewrite Hy, Hl in Hnone.
  - revert Hm. simpl. unfold mbind, M_bind. destruct (is_Remove key id s) as [[[]|e] s1] eqn:Hr; [|done].
    intros [= <-]. exists tt, s1. by split.
Qed.

Lemma agrees_wait s b d : (0 <= d)%Z → agrees s b → agrees (is_wait s d) (book_wait d b).
Proof.
  intros Hd [an ar at_ asp ash ac]. destruct (is_wait_spec s d Hd) as (Hn&Hv&Hs). rewrite an in Hn.
  assert (∀ (A : Type) (f : A → V) (m : gmap string (A * Z)) key k,
    iv_value s key = (λ p, (f p.1, Some p.2)) <$> m !! k →
    iv_value (is_wait s d) key =
      (λ p, (f p.1, Some p.2)) <$> filter (λ kv : string * (A * Z), (bk_now b + d < kv.2.2)%Z) m !! k) as Hmap.
  { intros A f m key k Hk. rewrite Hv, Hk, Hn, map_lookup_filter. destruct (m !! k) as [[a u]|]; simpl; [|done].
    destruct (Z.ltb_spec (bk_now b + d) u); [by rewrite option_guard_True|by rewrite option_guard_False by lia]. }
  assert (∀ id x u, filter (λ kv : string * (Session * Z), (bk_now b + d < kv.2.2)%Z) (bk_records b) !! id = Some (x, u) →
    bk_records b !! id = Some (x, u) ∧ (bk_now b + d < u)%Z) as Hkept.
  { intros id x u. rewrite map_lookup_filter_Some. done. }
  split; simpl.
  - done.
  - intros id. by apply (Hmap _ encode), ar.
  - intros t. by apply (Hmap _ raw), at_.
  - intros t. by apply (Hmap _ raw), asp.
  - intros id x until [Hx Hu]%Hkept Hl.
    assert (Session_Live x (bk_now b) = true) as Hl' by (revert Hl; unfold Session_Live; rewrite !Z.ltb_lt; lia).
    eapply Forall_impl; [by apply ash|]. intros key (ms&t&Hk&Hid&Ht). exists ms, t.
    rewrite Hs, Hk, Hn. simpl. by rewrite (proj2 (Z.ltb_lt _ _)) by lia.
  - intros id x until [Hx Hu]%Hkept. destruct (ac id x until Hx) as [? ? ? ? ?]. split; [done..| |done|done]. simpl. lia.
Qed.

Lemma capEnd_sound (x : Session) now : (0 < ss_lifetime c)%Z →
  se_ExpiresAt x = capEnd now (se_AuthTime x) (ss_lifetime c) (absoluteOf c [se_Resource x]) →
  ends c x (now + ss_lifetime c) ∧ limited c x.
Proof.
  intros Hlife Hend. unfold ends, limited. rewrite Hend. clear Hend. unfold capEnd.
  destruct (se_AuthTime x) as [a|]; [|by split; [left|]]. destruct (Z.leb_spec (absoluteOf c [se_Resource x]) 0); [split; [by left|intros; lia]|].
  destruct (Z.ltb_spec (a + absoluteOf c [se_Resource x]) (now + ss_lifetime c)).
  - split; [right; by exists a|]. by intros ? [= <-].
  - split; [by left|]. intros ? [= <-]. lia.
Qed.

Lemma opened_sound (o : Opened) id now : (0 < ss_lifetime c)%Z →
  sound_record c now id (opened c o id now) (now + ss_lifetime c).
Proof.
  intros Hlife. destruct (capEnd_sound (opened c o id now) now Hlife eq_refl). split; [done|apply ToLower_idem|lia|done..].
Qed.

Lemma moved_sound (x : Session) now id until : (0 < ss_lifetime c)%Z → sound_record c now id x until →
  sound_record c now id (moved c x now) (now + ss_lifetime c).
Proof.
  intros Hlife []. destruct (capEnd_sound (moved c x now) now Hlife eq_refl). split; [done|done|lia|done..].
Qed.

Lemma book_session_Some b id (x : Session) :
  book_session b id = Some x ↔ ∃ until, bk_records b !! id = Some (x, until) ∧ Session_Live x (bk_now b) = true.
Proof.
  unfold book_session. destruct (bk_records b !! id) as [[y u]|]; [|by split; [|intros (?&?&?)]].
  destruct (Session_Live y (bk_now b)) eqn:Hl; split.
  - intros [= ->]. eauto.
  - by intros (?&[= -> _]&?).
  - done.
  - intros (?&[= -> _]&?). congruence.
Qed.

Lemma session_id b id (x : Session) : consistent c b → book_session b id = Some x → se_ID x = id.
Proof. intros Hc (u&Hx&_)%book_session_Some. by eapply sr_id, Hc. Qed.

Lemma holder_sound b token (x : Session) : consistent c b → book_holder b token = Some x →
  ∃ id until, bk_records b !! id = Some (x, until) ∧ sound_record c (bk_now b) id x until.
Proof.
  intros Hc. unfold book_holder. destruct (bk_tokens b !! digest token) as [[id u]|]; [|done].
  intros (until&Hx&_)%book_session_Some. exists id, until. split; [done|]. by apply Hc.
Qed.

Context (Hlife : (0 < ss_lifetime c)%Z).

Lemma run_refresh_from s b (x : Session) old new Φ : agrees s b → sound_record c (bk_now b) (se_ID x) (moved c x (bk_now b)) (bk_now b + ss_lifetime c) →
  (∀ s', agrees s' (book_move c x new (book_spend old new b)).2 → Φ (book_move c x new (book_spend old new b)).1 s') →
  runs (refresh_from c x old new) s Φ.
Proof.
  intros Ha Hsound HΦ. apply runs_bind, (run_spend _ b); [done|]. intros s2 Ha2. apply runs_bind, runs_moment.
  rewrite (ag_now _ _ Ha2). change (bk_now (book_spend old new b)) with (bk_now b). revert HΦ Hsound. unfold book_move, moved.
  set (x' := mkSession _ _ _ _ _ _ _ _ _ _ _). fold (Session_Live x' (bk_now b)). cbn [bk_now book_spend].
  destruct (Session_Live x' (bk_now b)) eqn:Hl; simpl; intros HΦ Hsound; apply runs_bind.
  - apply (run_file _ (book_spend old new b)); [done..|]. intros s3 Ha3. by apply runs_ret, HΦ.
  - apply (run_deleteSession _ (book_spend old new b)); [done|]. intros s3 Ha3. by apply runs_ret, HΦ.
Qed.

Lemma run_Refreshed s b old new Φ : agrees s b → (∀ s', agrees s' (book_refreshed c old new b).2 → Φ (book_refreshed c old new b).1 s') →
  runs (Refreshed c old new) s Φ.
Proof.
  intros Ha HΦ. apply runs_bind, (run_ByToken _ b); [done|]. intros s1 Ha1. revert HΦ. unfold book_refreshed.
  destruct (book_holder b old) as [x|] eqn:Hx; intros HΦ; [|by apply (run_replayed _ b)].
  apply (holder_sound _ _ _ (ag_consistent _ _ Ha)) in Hx as (id&until&_&Hsound).
  apply (run_refresh_from _ b); [done| |done]. rewrite (sr_id _ _ _ _ _ Hsound). by eapply moved_sound.
Qed.

Lemma run_ByRefreshToken s b token Φ : agrees s b → (∀ s', agrees s' b → Φ (book_by_refresh b token) s') →
  runs (ByRefreshToken token) s Φ.
Proof.
  intros Ha HΦ. apply runs_bind, (run_ByToken _ b); [done|]. intros s1 Ha1. revert HΦ. unfold book_by_refresh.
  destruct (book_holder b token); intros HΦ; [by apply runs_ret, HΦ|].
  apply runs_bind, (run_replayed _ b); [done|]. intros s2 Ha2. by apply runs_ret, HΦ.
Qed.

Lemma run_RevokeID s b id Φ : agrees s b → (∀ s', agrees s' (book_revoke_id id b).2 → Φ (book_revoke_id id b).1 s') →
  runs (RevokeID id) s Φ.
Proof.
  intros Ha HΦ. apply runs_bind, (run_byID _ b); [done|]. intros s1 Ha1. revert HΦ. unfold book_revoke_id.
  destruct (book_session b id) as [x|] eqn:Hx; simpl; intros HΦ; [|by apply runs_ret, HΦ].
  apply (session_id _ _ _ (ag_consistent _ _ Ha)) in Hx. apply runs_bind, (run_deleteSession _ b); [done|].
  intros s2 Ha2. apply runs_ret, HΦ. by rewrite <- Hx.
Qed.

Lemma run_RevokeToken s b token Φ : agrees s b → (∀ s', agrees s' (book_revoke_token token b).2 → Φ (book_revoke_token token b).1 s') →
  runs (RevokeToken token) s Φ.
Proof.
  intros Ha HΦ. apply runs_bind, (run_token _ b); [done|]. intros v s1 Ha1 ->. revert HΦ. unfold book_revoke_token.
  destruct (bk_tokens b !! digest token) as [[id u]|]; simpl; intros HΦ; [|by apply runs_ret, HΦ].
  apply runs_bind, (run_untoken _ b); [done|]. intros s2 Ha2. rewrite text_raw. by apply (run_RevokeID _ (book_untoken token b)).
Qed.

Lemma run_endedByAbsoluteLimit s b token Φ : agrees s b → (∀ s', agrees s' b → Φ (book_limited b token) s') →
  runs (endedByAbsoluteLimit token) s Φ.
Proof.
  intros Ha HΦ. apply runs_bind, (run_token _ b); [done|]. intros v s1 Ha1 ->. revert HΦ. unfold book_limited.
  destruct (bk_tokens b !! digest token) as [[id u]|]; simpl; intros HΦ; [|by apply runs_ret, HΦ].
  rewrite text_raw. apply runs_bind, (runs_getJSON _ _ _ (fst <$> bk_records b !! id)).
  - rewrite (ag_records _ _ Ha1). destruct (bk_records b !! id) as [[x w]|]; simpl; [by rewrite decode_encode|done].
  - intros s2 Hs2. pose proof (agrees_same _ _ _ Hs2 Ha1) as Ha2. revert HΦ.
    destruct (bk_records b !! id) as [[x w]|]; simpl; intros HΦ; [|by apply runs_ret, HΦ].
    apply runs_bind, runs_moment, runs_ret. rewrite (ag_now _ _ Ha2). by apply HΦ.
Qed.

(** Reading a query's sessions, id by id, is a filter. *)
Definition picked (q : Query) b (ids : list string) : list Session := List.filter (selects q) (omap (book_session b) ids).

Lemma run_collect_ids s b q ids Φ : agrees s b → (∀ s', agrees s' b → Φ (picked q b ids) s') → runs (collect_ids q ids) s Φ.
Proof.
  revert s Φ. induction ids as [|id ids IH]; intros s Φ Ha HΦ; [by apply runs_ret, HΦ|].
  apply runs_bind, (run_byID _ b); [done|]. intros s1 Ha1. revert HΦ. unfold picked. simpl.
  destruct (book_session b id) as [x|] eqn:Hx; intros HΦ; apply runs_bind.
  - apply IH; [done|]. intros s2 Ha2. apply runs_ret. unfold picked. simpl in HΦ. destruct (selects q x); by apply HΦ.
  - apply (run_forget _ b); [done..|]. intros s2 Ha2. by apply IH.
Qed.

Lemma elem_of_picked b q ids (x : Session) : consistent c b →
  x ∈ picked q b ids ↔ selects q x = true ∧ book_session b (se_ID x) = Some x ∧ se_ID x ∈ ids.
Proof.
  intros Hc. unfold picked. rewrite elem_of_filter_bool, list_elem_of_omap. split.
  - intros ((id&Hid&Hx)&Hq). rewrite (session_id _ _ _ Hc Hx). auto.
  - intros (?&?&?). eauto.
Qed.

Lemma picked_ids b q ids : consistent c b → NoDup ids → NoDup (se_ID <$> picked q b ids).
Proof.
  intros Hc. induction 1 as [|id ids Hid Hdup IH]; [constructor|]. unfold picked. simpl.
  destruct (book_session b id) as [x|] eqn:Hx; [|done]. simpl. destruct (selects q x); [|done]. simpl. constructor; [|done].
  rewrite list_elem_of_fmap. intros (y&Hy&Hin). apply (elem_of_picked _ _ _ _ Hc) in Hin as (_&_&Hin).
  rewrite (session_id _ _ _ Hc Hx) in Hy. by rewrite <- Hy in Hin.
Qed.

Lemma book_found_picked b q : book_found q b = picked q b (keys (bk_records b)).
Proof.
  unfold book_found, picked, keys. f_equal. induction (map_to_list (bk_records b)) as [|[k p] l IH]; [done|]. simpl.
  destruct (book_session b k); [f_equal|]; apply IH.
Qed.

Lemma selects_index q (x : Session) : tidy_query q → ToLower (se_Identity x) = se_Identity x →
  selects q x = true → Query_set q ∈ indexes x.
Proof.
  unfold selects, Query_set, indexes. intros Htidy Hlow. rewrite !elem_of_cons.
  destruct (q_Contains q) eqn:Hcon; [by left|]. simpl. destruct Htidy as [Htidy|Htidy]; [congruence|]. rewrite Htidy.
  destruct (empty (q_Identity q)) eqn:Hi; simpl.
  - destruct (empty (q_ClientID q)) eqn:Hcl; simpl; [by left|].
    intros Hsel. right. right. left. do 2 case_bool_decide; simpl in *; try congruence; by destruct (empty (ToLower (q_Identity q))).
  - intros Hsel. right. left. assert (empty (ToLower (q_Identity q)) = false) as Hl by (by destruct (q_Identity q)).
    rewrite Hl in Hsel. simpl in Hsel. case_bool_decide as Heq; [|done]. unfold sessionOfKey. by rewrite Heq, ToLower_idem.
Qed.

Lemma run_collect s b q Φ : agrees s b → tidy_query q →
  (∀ l s', agrees s' b → l ≡ₚ book_found q b → NoDup (se_ID <$> l) → Φ l s') → runs (collect q) s Φ.
Proof.
  intros Ha Htidy HΦ. pose proof (ag_consistent _ _ Ha) as Hc. apply runs_bind, runs_Members. intros ids s1 Hs1 Hids.
  apply (run_collect_ids _ b); [by eapply agrees_same|]. intros s2 Ha2. apply HΦ; [done| |].
  - assert (NoDup ids) as Hdup by (rewrite Hids; apply NoDup_elements).
    rewrite book_found_picked. apply NoDup_Permutation.
    + by eapply NoDup_fmap_1, picked_ids.
    + eapply NoDup_fmap_1, picked_ids; [done|apply NoDup_keys].
    + intros x. rewrite !(elem_of_picked _ _ _ _ Hc). split; intros (Hq&Hx&_); split_and!; [done..| |done|done|].
      * apply book_session_Some in Hx as (u&Hx&_). apply elem_of_keys. eauto.
      * rewrite Hids, elem_of_elements. apply book_session_Some in Hx as (u&Hx&Hl).
        pose proof (ag_shown _ _ Ha _ _ _ Hx Hl) as Hall. rewrite Forall_forall in Hall.
        destruct (Hall (Query_set q)) as (ms&t&Hk&Hid&_); [|by rewrite Hk].
        apply selects_index; [done| |done]. by eapply sr_lower, Hc.
  - apply picked_ids; [done|]. rewrite Hids. apply NoDup_elements.
Qed.

Lemma book_end_all_app b (id : string) (ids : gset string) : book_end_all ids (book_end id b) = book_end_all ({[id]} ∪ ids) b.
Proof.
  unfold book_end_all, book_end. simpl. f_equal. apply map_eq. intros k. rewrite !map_lookup_filter.
  destruct (decide (k = id)) as [->|Hne].
  - rewrite lookup_delete_eq. destruct (bk_records b !! id); simpl; [|done]. by rewrite option_guard_False by set_solver.
  - rewrite lookup_delete_ne by done. destruct (bk_records b !! k); simpl; [|done].
    destruct (decide (k ∈ ids)); [by rewrite !option_guard_False by set_solver|by rewrite !option_guard_True by set_solver].
Qed.

Lemma book_end_all_none b : book_end_all ∅ b = b.
Proof. unfold book_end_all. destruct b. simpl. f_equal. by apply map_filter_id. Qed.

Lemma run_revoke_all s b (l : list Session) n Φ : agrees s b →
  Forall (λ x, book_session b (se_ID x) = Some x) l → NoDup (se_ID <$> l) →
  (∀ s', agrees s' (book_end_all (list_to_set (se_ID <$> l)) b) → Φ (length l + n) s') →
  runs (revoke_all (se_ID <$> l) n) s Φ.
Proof.
  revert s b n. induction l as [|x l IH]; intros s b n Ha Hall Hdup HΦ; simpl.
  { apply runs_ret, HΦ. simpl. by rewrite book_end_all_none. }
  apply Forall_cons in Hall as [Hx Hall]. apply NoDup_cons in Hdup as [Hnot Hdup].
  apply runs_bind, (run_RevokeID _ b); [done|]. unfold book_revoke_id. rewrite Hx. simpl. intros s1 Ha1.
  apply (IH _ (book_end (se_ID x) b)); [done| |done|].
  - rewrite Forall_forall in Hall |- *. intros y Hy. unfold book_session. simpl.
    rewrite lookup_delete_ne; [by apply Hall|]. intros Heq. apply Hnot. rewrite Heq. by apply list_elem_of_fmap_2.
  - intros s2 Ha2. rewrite book_end_all_app in Ha2. rewrite Nat.add_succ_r. by apply HΦ.
Qed.

Lemma newer_sort_unique (l l' : list Session) : NoDup (se_ID <$> l) → l ≡ₚ l' → merge_sort newer l = merge_sort newer l'.
Proof.
  intros Hdup Hperm. assert (Transitive newer) as Htrans.
  { intros x y z. unfold newer. intros [?|[? ?]] [?|[? ?]]; [left; lia..|]. right. split; [lia|]. by etrans. }
  assert (Total newer) as Htotal.
  { intros x y. unfold newer. destruct (Ztrichotomy (se_IssuedAt x) (se_IssuedAt y)) as [?|[?|?]]; [auto| |left; left; lia].
    destruct (total String.le (se_ID x) (se_ID y)); auto. }
  apply (StronglySorted_unique_strong newer); [|by apply StronglySorted_merge_sort..|by rewrite !merge_sort_Permutation].
  intros x y. rewrite !merge_sort_Permutation, <- Hperm. intros Hx Hy Hxy Hyx. eapply NoDup_fmap_unique; [exact Hdup|done..|].
  unfold newer in *. destruct Hxy as [?|[? Hxy]], Hyx as [?|[? Hyx]]; [lia..|]. by apply (anti_symm String.le).
Qed.

(** The index refines the book, request by request. *)
Lemma perform_agrees r s b : agrees s b → tidy r →
  ∃ s', perform c r s = ((book_perform c r b).1, s') ∧ agrees s' (book_perform c r b).2.
Proof.
  intros Ha Htidy.
  assert (∀ (A : Type) (m : M S A) (f : A → answer) a b', (∀ Φ, (∀ s', agrees s' b' → Φ a s') → runs m s Φ) →
    ∃ s', (x ← m; mret (f x)) s = (Ok (f a), s') ∧ agrees s' b') as Hok.
  { intros A m f a b' Hm. destruct (Hm (λ x s', x = a ∧ agrees s' b')) as (x&s'&Hrun&->&Ha'); [done|].
    exists s'. split; [|done]. unfold mbind, M_bind. by rewrite Hrun. }
  destruct r as [o id|old new|token|token|id|q|q|id|token|token]; simpl in Htidy |- *.
  - unfold attempted, book_record. destruct (Session_Live _ _) eqn:Hl; simpl.
    + apply Hok. intros Φ HΦ. apply runs_bind, runs_moment. rewrite (ag_now _ _ Ha). apply runs_bind.
      apply (run_file _ b); [done..|by apply opened_sound|]. intros s1 Ha1. apply runs_ret. by apply HΦ.
    + exists s. split; [|done]. unfold Sessions_Record, mbind, M_bind, moment. simpl. rewrite (ag_now _ _ Ha).
      unfold file, put, mbind, M_bind, moment. simpl. rewrite (ag_now _ _ Ha). unfold Session_Live, opened in Hl. simpl in Hl.
      by rewrite Hl.
  - apply Hok. intros Φ. by apply run_Refreshed.
  - apply Hok. intros Φ. by apply run_ByToken.
  - apply Hok. intros Φ. by apply run_ByRefreshToken.
  - apply Hok. intros Φ. by apply run_byID.
  - apply Hok. intros Φ HΦ. apply runs_bind, (run_collect _ b); [done..|]. intros l s1 Ha1 Hl Hdup. apply runs_ret.
    rewrite (newer_sort_unique _ _ Hdup Hl). by apply HΦ.
  - unfold attempted, Revoke, book_revoke. destruct (q_Contains q); [by exists s|]. simpl.
    apply Hok. intros Φ HΦ. apply runs_bind, (run_collect _ b); [done..|]. intros l s1 Ha1 Hl Hdup.
    apply (run_revoke_all _ b); [done| |done|].
    + apply Forall_forall. intros x. rewrite Hl, book_found_picked.
      intros Hx. by apply (elem_of_picked _ _ _ _ (ag_consistent _ _ Ha)) in Hx as (_&Hx&_).
    + intros s2 Ha2. rewrite Nat.add_0_r, Hl. apply HΦ. by rewrite <- Hl.
  - apply Hok. intros Φ. by apply run_RevokeID.
  - apply Hok. intros Φ. by apply run_RevokeToken.
  - apply Hok. intros Φ. by apply run_endedByAbsoluteLimit.
Qed.
End index.
