(* ===== verification/SessionsSafety.v ===== *)
(** * SessionsSafety: what holds of sign-ins over time

    Histories of requests and of time passing, over any store that keeps its
    promises and starts blank.  Every answer is the book's; and, for the code itself:
    how a refresh token rotates and for how long a spent one still answers, that no
    session outlives the absolute limit, that an ended session stays ended, what a
    revocation ends.  At the end, what two refreshes at once and a refresh half done
    show, and what a sweep does not do. *)

From S2P Require Import Prelude GoStrings Sha256 Port IssuerState Sessions SessionsSpec.

Implicit Types (id token : string) (c : Sessions) (b : book).

(** ** Histories *)

Inductive event : Type := Asked (r : request) | Waited (d : Z).
Definition event_ok (e : event) : Prop := match e with Asked r => tidy r | Waited d => (0 <= d)%Z end.

Definition book_event c (e : event) b : list (result issuer_error answer) * book :=
  match e with Asked r => let '(a, b) := book_perform c r b in ([a], b) | Waited d => ([], book_wait d b) end.
Fixpoint book_history c (es : list event) b : list (result issuer_error answer) * book :=
  match es with
  | [] => ([], b)
  | e :: es => let '(a, b) := book_event c e b in let '(l, b) := book_history c es b in (a ++ l, b)
  end.

(** Two refreshes with one token whose readings of it come first, as two replicas may interleave them. *)
Definition two_refreshes {V S} `{IState V S} `{Value V} `{Document V Session} c old new1 new2 : M S bool :=
  found1 ← ByToken old;
  found2 ← ByToken old;
  match found1, found2 with
  | Some x1, Some x2 =>
      r1 ← refresh_from c x1 old new1;
      r2 ← refresh_from c x2 old new2;
      mret (bool_decide (is_Some r1 ∧ is_Some r2))
  | _, _ => mret false
  end.

Section history.
Context {V S : Type} `{IStateSpec V S} `{Value V} `{Document V Session}.
Context (c : Sessions).
Implicit Types (s : S).

Definition index_event (e : event) s : list (result issuer_error answer) * S :=
  match e with Asked r => let '(a, s) := perform c r s in ([a], s) | Waited d => ([], is_wait s d) end.
Fixpoint index_history (es : list event) s : list (result issuer_error answer) * S :=
  match es with
  | [] => ([], s)
  | e :: es => let '(a, s) := index_event e s in let '(l, s) := index_history es s in (a ++ l, s)
  end.

(** A store nothing was written to, and what is reached from one. *)
Definition blank s : Prop := ∀ key, iv_value s key = None.
Definition reached s : Prop := ∃ s0 es, blank s0 ∧ Forall event_ok es ∧ s = (index_history es s0).2.
Definition empty_book (now : Z) : book := mkBook now ∅ ∅ ∅.

Lemma blank_agrees s : blank s → agrees c s (empty_book (is_now s)).
Proof. intros Hb. split; simpl; [done|intros; rewrite Hb; by rewrite lookup_empty..|by intros ? ? ? [=]|by intros ? ? ? [=]]. Qed.

Context (Hlife : (0 < ss_lifetime c)%Z).

Lemma history_agrees es s b : agrees c s b → Forall event_ok es →
  (index_history es s).1 = (book_history c es b).1 ∧ agrees c (index_history es s).2 (book_history c es b).2.
Proof.
  revert s b. induction es as [|e es IH]; intros s b Ha Hok; [done|]. apply Forall_cons in Hok as [He Hok]. simpl.
  assert ((index_event e s).1 = (book_event c e b).1 ∧ agrees c (index_event e s).2 (book_event c e b).2) as [Hans Ha'].
  { destruct e as [r|d]; simpl in He |- *; [|by split; [|apply agrees_wait]].
    destruct (perform_agrees c Hlife r s b Ha He) as (s'&->&Ha'). by destruct (book_perform c r b). }
  destruct (index_event e s) as [a s1], (book_event c e b) as [a' b1]. simpl in *. subst a'.
  destruct (IH s1 b1 Ha' Hok) as [Hl Ha2]. destruct (index_history es s1), (book_history c es b1). simpl in *. by subst.
Qed.

Lemma history_app es es' s : (index_history (es ++ es') s).2 = (index_history es' (index_history es s).2).2.
Proof.
  revert s. induction es as [|e es IH]; intros s; [done|]. simpl. destruct (index_event e s) as [a s1].
  specialize (IH s1). destruct (index_history (es ++ es') s1), (index_history es s1). done.
Qed.

Lemma reached_agrees s : reached s → ∃ b, agrees c s b.
Proof.
  intros (s0&es&Hblank&Hok&->). eexists. apply (history_agrees es s0 (empty_book (is_now s0))); [by apply blank_agrees|done].
Qed.

(** What the reads answer. *)
Lemma answer_is {A} (m : M S A) s a (P : S → Prop) : (∀ Φ, (∀ s', P s' → Φ a s') → runs m s Φ) → ∃ s', m s = (Ok a, s') ∧ P s'.
Proof. intros Hm. destruct (Hm (λ x s', x = a ∧ P s')) as (x&s'&Hr&->&HP); [done|]. eauto. Qed.

Lemma ByToken_is s b token : agrees c s b → ∃ s', ByToken token s = (Ok (book_holder b token), s') ∧ agrees c s' b.
Proof. intros Ha. apply answer_is. intros Φ. by apply run_ByToken. Qed.
Lemma byID_is s b id : agrees c s b → ∃ s', byID id s = (Ok (book_session b id), s') ∧ agrees c s' b.
Proof. intros Ha. apply answer_is. intros Φ. by apply run_byID. Qed.
Lemma ByRefreshToken_is s b token : agrees c s b → ∃ s', ByRefreshToken token s = (Ok (book_by_refresh b token), s') ∧ agrees c s' b.
Proof. intros Ha. apply answer_is. intros Φ. by apply run_ByRefreshToken. Qed.
Lemma Refreshed_is s b old new : agrees c s b →
  ∃ s', Refreshed c old new s = (Ok (book_refreshed c old new b).1, s') ∧ agrees c s' (book_refreshed c old new b).2.
Proof. intros Ha. apply answer_is. intros Φ. by apply run_Refreshed. Qed.
Lemma List_is s b q : agrees c s b → tidy_query q →
  ∃ s', Sessions_List q s = (Ok (merge_sort newer (book_found q b)), s') ∧ agrees c s' b.
Proof.
  intros Ha Hq. apply answer_is. intros Φ HΦ. apply runs_bind, (run_collect c s b); [done..|]. intros l s1 Ha1 Hl Hdup.
  apply runs_ret. rewrite (newer_sort_unique _ _ Hdup Hl). by apply HΦ.
Qed.

Lemma book_holder_expiry b token (x : Session) : consistent c b → book_holder b token = Some x →
  (bk_now b < se_ExpiresAt x)%Z ∧ limited c x.
Proof.
  intros Hc. unfold book_holder. destruct (bk_tokens b !! digest token) as [[id u]|]; [|done].
  intros (until&Hx&Hl)%book_session_Some. split; [by apply Z.ltb_lt|]. by eapply sr_limited, Hc.
Qed.

(** C14: Every answer the index gives, over any history that starts from a blank store and
    whose queries name identities without spaces around them (or look for a substring), is
    the answer of the book: the sets it is found by miss no live session and show no other,
    and nothing but the requests and time changes it.  A query with a space around the
    identity it names does miss live sessions: [spaced_query_misses]. *)
Theorem index_refines_book es s0 : blank s0 → Forall event_ok es →
  (index_history es s0).1 = (book_history c es (empty_book (is_now s0))).1.
Proof. intros Hb Hok. by apply history_agrees; [apply blank_agrees|]. Qed.

(** A refresh spends the old token: it stops naming a session at once, the new token
    names the same session of the same person and client, and the session's new
    end is neither past the refresh window nor past the absolute limit. *)
Theorem Refreshed_rotates s old new token (x x' : Session) : reached s →
  (ByToken old s).1 = Ok (Some x) → (Refreshed c old new s).1 = Ok (Some (x', token)) → digest old ≠ digest new →
  let after := (Refreshed c old new s).2 in
  token = new ∧ x' = moved c x (is_now s) ∧ (ByToken old after).1 = Ok None ∧ (ByToken new after).1 = Ok (Some x') ∧
  (is_now s < se_ExpiresAt x' <= is_now s + ss_lifetime c)%Z ∧ limited c x'.
Proof.
  intros [b Ha]%reached_agrees Hold Hnew Hne. destruct (ByToken_is _ _ old Ha) as (?&Hb&_). rewrite Hb in Hold.
  injection Hold as Hx. destruct (Refreshed_is _ _ old new Ha) as (s2&Hr&Ha2). rewrite Hr in *. simpl in *.
  injection Hnew as Hnew. revert Hnew Ha2. unfold book_refreshed. rewrite Hx. unfold book_move.
  destruct (holder_sound c _ _ _ (ag_consistent _ _ _ Ha) Hx) as (id&until&_&Hsound).
  destruct (Session_Live _ _) eqn:Hl; simpl; [|done]. intros [= <- <-] Ha2. rewrite (ag_now _ _ _ Ha).
  pose proof (moved_sound c x _ id until Hlife Hsound) as Hm. pose proof (sr_ends _ _ _ _ _ Hm) as Hends.
  pose proof (sr_limited _ _ _ _ _ Hm) as Hlim. apply Z.ltb_lt in Hl. simpl in Hl.
  assert (se_ExpiresAt (moved c x (bk_now b)) <= bk_now b + ss_lifetime c)%Z as Hcap.
  { destruct Hends as [->|(a&_&_&_&?)]; lia. }
  destruct (ByToken_is _ _ old Ha2) as (?&->&_), (ByToken_is _ _ new Ha2) as (?&->&_). simpl.
  unfold book_holder. simpl. rewrite lookup_insert_eq, lookup_insert_ne, lookup_delete_eq by done.
  unfold book_session. simpl. rewrite lookup_insert_eq. unfold Session_Live. simpl. rewrite (proj2 (Z.ltb_lt _ _)) by done.
  by split_and!.
Qed.

(** What a refresh leaves in the book. *)
Lemma rotated_book s b old new token (x' : Session) : agrees c s b → digest old ≠ digest new → is_Some (book_holder b old) →
  (book_refreshed c old new b).1 = Some (x', token) →
  let b' := (book_refreshed c old new b).2 in
  token = new ∧ bk_now b' = bk_now b ∧ bk_tokens b' !! digest old = None ∧
  bk_tokens b' !! digest new = Some (se_ID x', (bk_now b + ss_lifetime c)%Z) ∧
  bk_records b' !! se_ID x' = Some (x', (bk_now b + ss_lifetime c)%Z) ∧
  bk_spent b' !! digest old = Some (new, (bk_now b + refreshGrace)%Z) ∧ (se_ExpiresAt x' <= bk_now b + ss_lifetime c)%Z.
Proof.
  intros Ha Hne [x Hx]. unfold book_refreshed. rewrite Hx. unfold book_move.
  destruct (holder_sound c _ _ _ (ag_consistent _ _ _ Ha) Hx) as (id&until&_&Hsound).
  pose proof (sr_ends _ _ _ _ _ (moved_sound c x _ id until Hlife Hsound)) as Hends.
  destruct (Session_Live _ _) eqn:Hl; simpl; [|done]. intros [= <- <-].
  rewrite !lookup_insert_eq, lookup_insert_ne, lookup_delete_eq by done. split_and!; [done..|].
  destruct Hends as [->|(a&_&_&_&?)]; simpl in *; lia.
Qed.

(** A spent token answers for exactly [refreshGrace]: until then a refresh that
    presents it is handed the successor the first one got, and nothing new is
    issued; from then on it is refused. *)
Theorem Refreshed_grace s old new other token (x x' : Session) d : reached s →
  (ByToken old s).1 = Ok (Some x) → (Refreshed c old new s).1 = Ok (Some (x', token)) → digest old ≠ digest new →
  (0 <= d)%Z → (is_now s + d < se_ExpiresAt x')%Z →
  let later := is_wait (Refreshed c old new s).2 d in
  (Refreshed c old other later).1 = Ok (if (d <? refreshGrace)%Z then Some (x', new) else None) ∧
  (∀ t, (ByToken t (Refreshed c old other later).2).1 = (ByToken t later).1).
Proof.
  intros [b Ha]%reached_agrees Hold Hnew Hne Hd Hlater. destruct (ByToken_is _ _ old Ha) as (?&Hb&_). rewrite Hb in Hold.
  injection Hold as Hx. destruct (Refreshed_is _ _ old new Ha) as (s2&Hr&Ha2). rewrite Hr in *. simpl in *.
  injection Hnew as Hnew. destruct (rotated_book _ _ _ _ _ _ Ha Hne (mk_is_Some _ _ Hx) Hnew) as (_&Hn&Hold&Htok&Hrec&Hsp&Hend).
  set (b' := (book_refreshed c old new b).2) in *. rewrite (ag_now _ _ _ Ha) in Hlater.
  pose proof (agrees_wait c _ _ d Hd Ha2) as Haw. destruct (Refreshed_is _ _ old other Haw) as (s3&->&Ha3). simpl.
  assert (∀ (A : Type) (m : gmap string (A * Z)) k a u, m !! k = Some (a, u) →
    filter (λ kv : string * (A * Z), (bk_now b' + d < kv.2.2)%Z) m !! k = if (bk_now b + d <? u)%Z then Some (a, u) else None) as Hf.
  { intros A m k a u Hk. rewrite map_lookup_filter, Hk, Hn. simpl.
    destruct (Z.ltb_spec (bk_now b + d) u); [by rewrite option_guard_True|by rewrite option_guard_False by lia]. }
  assert (book_refreshed c old other (book_wait d b') =
    ((if (d <? refreshGrace)%Z then Some (x', new) else None), book_wait d b')) as Heq.
  { unfold book_refreshed, book_holder, book_replayed, book_session. simpl.
    rewrite (map_lookup_filter _ (bk_tokens b')), Hold. simpl. rewrite (Hf _ _ _ _ _ Hsp).
    replace (bk_now b + d <? bk_now b + refreshGrace)%Z with (d <? refreshGrace)%Z
      by (destruct (Z.ltb_spec d refreshGrace); symmetry; [apply Z.ltb_lt|apply Z.ltb_ge]; lia).
    destruct (d <? refreshGrace)%Z; [|done]. unfold book_holder, book_session. simpl.
    rewrite (Hf _ _ _ _ _ Htok), (proj2 (Z.ltb_lt _ _)) by lia. rewrite (Hf _ _ _ _ _ Hrec), (proj2 (Z.ltb_lt _ _)) by lia.
    unfold Session_Live. by rewrite Hn, (proj2 (Z.ltb_lt _ _)) by lia. }
  rewrite Heq in *. split; [done|]. intros t. destruct (ByToken_is _ _ t Ha3) as (?&->&_), (ByToken_is _ _ t Haw) as (?&->&_). done.
Qed.

(** C15: No session outlives the absolute limit: whatever was refreshed and however often,
    a session that any read still answers with is younger than the limit its
    resource allows, counted from when the person authenticated. *)
Theorem session_within_limit s id token (x : Session) a : reached s →
  (byID id s).1 = Ok (Some x) ∨ (ByToken token s).1 = Ok (Some x) ∨ (ByRefreshToken token s).1 = Ok (Some x) →
  se_AuthTime x = Some a → (0 < absoluteOf c [se_Resource x])%Z →
  (is_now s < se_ExpiresAt x <= a + absoluteOf c [se_Resource x])%Z.
Proof.
  intros [b Ha]%reached_agrees Hread Hauth Habs. rewrite (ag_now _ _ _ Ha). pose proof (ag_consistent _ _ _ Ha) as Hc.
  assert (∃ id', book_session b id' = Some x) as (id'&(u&Hx&Hl)%book_session_Some).
  { assert (∀ t y, book_holder b t = Some y → ∃ id', book_session b id' = Some y) as Hholder.
    { intros t y. unfold book_holder. destruct (bk_tokens b !! digest t) as [[id' u]|]; [|done]. eauto. }
    destruct Hread as [Hr|[Hr|Hr]].
    - destruct (byID_is _ _ id Ha) as (?&Hi&_). rewrite Hi in Hr. injection Hr as Hr. eauto.
    - destruct (ByToken_is _ _ token Ha) as (?&Hi&_). rewrite Hi in Hr. injection Hr as Hr. eauto.
    - destruct (ByRefreshToken_is _ _ token Ha) as (?&Hi&_). rewrite Hi in Hr. injection Hr as Hr. revert Hr.
      unfold book_by_refresh. destruct (book_holder b token) as [y|] eqn:Hy; [intros [= <-]; eauto|].
      unfold book_replayed. destruct (bk_spent b !! digest token) as [[t u]|]; [|done].
      destruct (book_holder b t) as [y|] eqn:Hy'; [|done]. intros [= <-]. eauto. }
  apply Z.ltb_lt in Hl. split; [done|]. by apply (sr_limited _ _ _ _ _ (Hc _ _ _ Hx)).
Qed.

(** A refresh refused because of the absolute limit is told apart: what
    [endedByAbsoluteLimit] answers with is a session whose end was the limit itself,
    and the limit has passed. *)
Theorem endedByAbsoluteLimit_means s token (x : Session) : reached s → (endedByAbsoluteLimit token s).1 = Ok (Some x) →
  ∃ a, se_AuthTime x = Some a ∧ (0 < absoluteOf c [se_Resource x])%Z ∧
    se_ExpiresAt x = (a + absoluteOf c [se_Resource x])%Z ∧ (a + absoluteOf c [se_Resource x] <= is_now s)%Z.
Proof.
  intros [b Ha]%reached_agrees. rewrite (ag_now _ _ _ Ha).
  assert (∃ s', endedByAbsoluteLimit token s = (Ok (book_limited b token), s') ∧ agrees c s' b) as (?&->&_).
  { apply answer_is. intros Φ. by apply run_endedByAbsoluteLimit. }
  unfold book_limited. intros [= Hl]. destruct (bk_tokens b !! digest token) as [[id u]|]; [|done].
  destruct (bk_records b !! id) as [[y w]|] eqn:Hy; [|done]. destruct (Session_Live y (bk_now b)) eqn:Hlive; [done|].
  injection Hl as ->. apply Z.ltb_ge in Hlive. destruct (ag_consistent _ _ _ Ha _ _ _ Hy) as [_ _ Hw [Heq|(a&?&?&?&?)] _].
  - lia.
  - exists a. split_and!; [done..|lia].
Qed.

(** A session no read answers with stays so. *)
Lemma dead_event e b id : consistent c b → event_ok e → (∀ o, e ≠ Asked (RqRecord o id)) →
  book_session b id = None → book_session (book_event c e b).2 id = None.
Proof.
  intros Hc He Hnew Hdead.
  assert (∀ b', bk_now b' = bk_now b → (∀ x, bk_records b' !! id = Some x → bk_records b !! id = Some x) →
    book_session b' id = None) as Hsub.
  { intros b' Hn Hr. unfold book_session in *. rewrite Hn. destruct (bk_records b' !! id) as [[x u]|]; [|done].
    by rewrite (Hr _ eq_refl) in Hdead. }
  destruct e as [r|d]; simpl.
  - destruct r as [o id'|old new|token|token|id'|q|q|id'|token|token]; simpl; try done.
    + unfold book_record. destruct (Session_Live _ _); simpl; [|done]. apply Hsub; [done|]. simpl. intros x.
      rewrite lookup_insert_ne; [done|]. simpl. intros ->. by apply (Hnew o).
    + unfold book_refreshed. destruct (book_holder b old) as [x|] eqn:Hx; [|done]. unfold book_move.
      assert (book_session b (se_ID x) = Some x) as Hx'.
      { revert Hx. unfold book_holder. destruct (bk_tokens b !! digest old) as [[id' u]|]; [|done]. intros Hx.
        by rewrite (session_id c _ _ _ Hc Hx). }
      destruct (Session_Live _ _); simpl; (apply Hsub; [done|]); simpl; intros y.
      * rewrite lookup_insert_ne; [done|]. intros Heq. by rewrite Heq, Hdead in Hx'.
      * rewrite lookup_delete_Some. by intros [_ ?].
    + unfold book_revoke. destruct (q_Contains q); [done|]. apply Hsub; [done|]. intros x. simpl.
      rewrite map_lookup_filter_Some. by intros [? _].
    + unfold book_revoke_id. destruct (book_session b id'); [|done]. apply Hsub; [done|]. intros x. simpl.
      rewrite lookup_delete_Some. by intros [_ ?].
    + unfold book_revoke_token. destruct (bk_tokens b !! digest token) as [[id' u]|]; [|done]. unfold book_revoke_id.
      destruct (book_session _ id'); apply Hsub; [done| |done|done]. intros x. simpl. rewrite lookup_delete_Some. by intros [_ ?].
  - simpl in He. revert Hdead. unfold book_session. simpl. rewrite map_lookup_filter.
    destruct (bk_records b !! id) as [[x u]|]; simpl; [|done]. destruct (decide (bk_now b + d < u)%Z).
    + rewrite option_guard_True by done. unfold Session_Live. destruct (Z.ltb_spec (bk_now b) (se_ExpiresAt x)); [done|].
      by rewrite (proj2 (Z.ltb_ge _ _)) by lia.
    + by rewrite option_guard_False.
Qed.

Lemma dead_history es s b id : agrees c s b → Forall event_ok es → (∀ o, Asked (RqRecord o id) ∉ es) →
  book_session b id = None → ∃ b', agrees c (index_history es s).2 b' ∧ book_session b' id = None.
Proof.
  revert s b. induction es as [|e es IH]; intros s b Ha Hok Hnew Hdead; [by exists b|].
  apply Forall_cons in Hok as [He Hok].
  assert (agrees c (index_event e s).2 (book_event c e b).2) as Ha1.
  { pose proof (history_agrees [e] s b Ha) as [_ H']; [by apply Forall_singleton|]. simpl in H'.
    by destruct (index_event e s), (book_event c e b). }
  destruct (IH _ _ Ha1 Hok) as (b'&Ha'&Hdead').
  - intros o Ho. apply (Hnew o). by right.
  - apply dead_event; [by apply Ha|done| |done]. intros o ->. apply (Hnew o). by left.
  - exists b'. split; [|done]. simpl. destruct (index_event e s) as [a s1]. simpl in Ha'. by destruct (index_history es s1).
Qed.

Lemma book_holder_session b t (x : Session) : book_holder b t = Some x → ∃ id, book_session b id = Some x.
Proof. unfold book_holder. destruct (bk_tokens b !! digest t) as [[id u]|]; [|done]. eauto. Qed.

Lemma by_refresh_session b t (x : Session) : book_by_refresh b t = Some x → ∃ id, book_session b id = Some x.
Proof.
  unfold book_by_refresh. destruct (book_holder b t) as [y|] eqn:Hy; [intros [= <-]; by eapply book_holder_session|].
  unfold book_replayed. destruct (bk_spent b !! digest t) as [[t' u]|]; [|done].
  destruct (book_holder b t') as [y|] eqn:Hy'; [|done]. intros [= <-]. by eapply book_holder_session.
Qed.

(** C16: A revoked session stays revoked: whatever is asked and however long is waited, as
    long as no session is opened under the same id, the id names no session and no
    token — spent, live or inside its grace window — refreshes it. *)
Theorem RevokeID_is_final s es id : reached s → Forall event_ok es → (∀ o, Asked (RqRecord o id) ∉ es) →
  let after := (index_history es (RevokeID id s).2).2 in
  (byID id after).1 = Ok None ∧ ∀ token x, (ByRefreshToken token after).1 = Ok (Some x) → se_ID x ≠ id.
Proof.
  intros [b Ha]%reached_agrees Hok Hnew.
  assert (∃ s', RevokeID id s = (Ok (book_revoke_id id b).1, s') ∧ agrees c s' (book_revoke_id id b).2) as (s1&->&Ha1).
  { apply answer_is. intros Φ. by apply run_RevokeID. }
  destruct (dead_history es _ _ id Ha1 Hok Hnew) as (b'&Ha'&Hdead).
  - unfold book_revoke_id. destruct (book_session b id) eqn:Hs; simpl; [|done]. unfold book_session. simpl.
    by rewrite lookup_delete_eq.
  - simpl. split; [destruct (byID_is _ _ id Ha') as (?&->&_); simpl; by rewrite Hdead|]. intros token x.
    destruct (ByRefreshToken_is _ _ token Ha') as (?&->&_). simpl. intros [= Hx] <-.
    apply by_refresh_session in Hx as (id'&Hx). by rewrite (session_id c _ _ _ (ag_consistent _ _ _ Ha') Hx), Hx in Hdead.
Qed.

Lemma elem_of_found b q (x : Session) : consistent c b → x ∈ book_found q b ↔ selects q x = true ∧ book_session b (se_ID x) = Some x.
Proof.
  intros Hc. rewrite book_found_picked, (elem_of_picked c) by done. split; [by intros (?&?&_)|]. intros [? Hx].
  split_and!; [done..|]. apply book_session_Some in Hx as (u&Hx&_). apply elem_of_keys. eauto.
Qed.

Lemma session_after_end b ids (x : Session) :
  book_session (book_end_all ids b) (se_ID x) = Some x ↔ book_session b (se_ID x) = Some x ∧ se_ID x ∉ ids.
Proof.
  rewrite !book_session_Some. simpl. setoid_rewrite map_lookup_filter_Some. simpl. naive_solver.
Qed.

(** A revocation by query ends what the query lists, all of it and nothing else, and
    says how many there were. *)
Theorem Revoke_ends_what_it_lists s q (every found : list Session) n : reached s → tidy_query q →
  (Sessions_List (mkQuery "" "" "" false) s).1 = Ok every → (Sessions_List q s).1 = Ok found →
  (Revoke q s).1 = Ok n →
  n = length found ∧
  ∃ rest, (Sessions_List (mkQuery "" "" "" false) (Revoke q s).2).1 = Ok rest ∧
    ∀ x, x ∈ rest ↔ x ∈ every ∧ x ∉ found.
Proof.
  intros [b Ha]%reached_agrees Htidy Hall Hfound Hn. pose proof (ag_consistent _ _ _ Ha) as Hc.
  destruct (List_is _ _ (mkQuery "" "" "" false) Ha (or_intror eq_refl)) as (?&HL&_). rewrite HL in Hall. injection Hall as <-. clear HL.
  destruct (List_is _ _ q Ha Htidy) as (?&HL&_). rewrite HL in Hfound. injection Hfound as <-. clear HL.
  pose proof (perform_agrees c Hlife (RqRevoke q) s b Ha Htidy) as (s2&Hp&Ha2). simpl in Hp, Ha2. unfold attempted, book_revoke in *.
  unfold mbind, M_bind in Hp. destruct (Revoke q s) as [[m|e] s1] eqn:HR; simpl in *; [|done]. injection Hn as ->.
  destruct (q_Contains q); [done|]. simpl in *. injection Hp as -> ->. split; [by rewrite merge_sort_Permutation|].
  destruct (List_is _ _ (mkQuery "" "" "" false) Ha2 (or_intror eq_refl)) as (?&->&_). eexists. split; [done|].
  intros z. rewrite !merge_sort_Permutation, !elem_of_found by first [done|apply Ha2].
  rewrite session_after_end, not_elem_of_list_to_set, list_elem_of_fmap. change (selects (mkQuery "" "" "" false) z) with true.
  split.
  - intros (_&Hz&Hnot). split; [done|]. intros [Hq _]. apply Hnot. exists z. split; [done|]. by apply elem_of_found.
  - intros ((_&Hz)&Hnot). split_and!; [done..|]. intros (y&Hy&[Hq Hy']%elem_of_found); [|done].
    apply Hnot. rewrite <- Hy, Hz in Hy'. by injection Hy' as ->.
Qed.

Lemma book_move_live b (x : Session) new : Session_Live (moved c x (bk_now b)) (bk_now b) = true →
  book_move c x new b = (Some (moved c x (bk_now b), new), book_file c (moved c x (bk_now b)) new b).
Proof. intros Hl. unfold book_move. by rewrite Hl. Qed.

(** Rotation is not one step: when two refreshes have both read the old token before
    either has spent it, each issues a token of its own, and both tokens work. *)
Theorem Refreshed_race s old new1 new2 (x : Session) : reached s → (ByToken old s).1 = Ok (Some x) →
  Session_Live (moved c x (is_now s)) (is_now s) = true → NoDup [digest old; digest new1; digest new2] →
  (two_refreshes c old new1 new2 s).1 = Ok true ∧
  let after := (two_refreshes c old new1 new2 s).2 in
  (ByToken new1 after).1 = Ok (Some (moved c x (is_now s))) ∧ (ByToken new2 after).1 = Ok (Some (moved c x (is_now s))).
Proof.
  intros [b Ha]%reached_agrees Hold Hlive Hdistinct. destruct (ByToken_is _ _ old Ha) as (?&Hb&_). rewrite Hb in Hold.
  injection Hold as Hx. rewrite (ag_now _ _ _ Ha) in Hlive |- *. set (x' := moved c x (bk_now b)) in *.
  destruct (holder_sound c _ _ _ (ag_consistent _ _ _ Ha) Hx) as (id&until&_&Hsound).
  assert (sound_record c (bk_now b) (se_ID x) x' (bk_now b + ss_lifetime c)) as Hm.
  { rewrite (sr_id _ _ _ _ _ Hsound). by eapply moved_sound. }
  set (b1 := book_file c x' new1 (book_spend old new1 b)). set (b2 := book_file c x' new2 (book_spend old new2 b1)).
  assert (∃ s', two_refreshes c old new1 new2 s = (Ok true, s') ∧ agrees c s' b2) as (s'&->&Ha2).
  { apply answer_is. intros Φ HΦ. apply runs_bind, (run_ByToken c _ b); [done|]. intros s1 Ha1.
    apply runs_bind, (run_ByToken c _ b); [done|]. intros s2 Ha2. rewrite Hx.
    apply runs_bind, (run_refresh_from c _ b); [done..|]. rewrite (book_move_live (book_spend old new1 b)) by done. intros s3 Ha3.
    apply runs_bind, (run_refresh_from c _ b1); [done..|]. rewrite (book_move_live (book_spend old new2 b1)) by done. intros s4 Ha4.
    apply runs_ret. rewrite bool_decide_true by eauto. by apply HΦ. }
  rewrite !NoDup_cons, !not_elem_of_cons in Hdistinct. destruct Hdistinct as ((Ho1&Ho2&_)&(H12&_)&_).
  split; [done|]. simpl. destruct (ByToken_is _ _ new1 Ha2) as (?&->&_), (ByToken_is _ _ new2 Ha2) as (?&->&_). simpl.
  unfold book_holder. simpl. rewrite lookup_insert_eq, lookup_insert_ne, lookup_delete_ne, lookup_insert_eq by done.
  unfold book_session. simpl. rewrite lookup_insert_eq. by rewrite Hlive.
Qed.

(** Between spending the old token and writing the new one, a replay finds the
    successor and cannot resolve it: it is refused, inside the grace window. *)
Theorem refresh_gap s old new (x : Session) : reached s → (ByToken old s).1 = Ok (Some x) → (ByToken new s).1 = Ok None →
  digest old ≠ digest new → (ByRefreshToken old (refresh_begin old new s).2).1 = Ok None.
Proof.
  intros [b Ha]%reached_agrees Hold Hnew Hne. destruct (ByToken_is _ _ new Ha) as (?&Hb&_). rewrite Hb in Hnew. injection Hnew as Hn.
  assert (∃ s', refresh_begin old new s = (Ok tt, s') ∧ agrees c s' (book_spend old new b)) as (s'&->&Ha').
  { apply answer_is. intros Φ. by apply run_spend. }
  simpl. destruct (ByRefreshToken_is _ _ old Ha') as (?&->&_). simpl. unfold book_by_refresh, book_replayed, book_holder in *. simpl.
  rewrite lookup_delete_eq, lookup_insert_eq. rewrite lookup_delete_ne by done.
  destruct (bk_tokens b !! digest new) as [[id u]|]; [|done]. unfold book_session in *. simpl. by rewrite Hn.
Qed.

(** A sweep drops nothing from anywhere: it counts. *)
Theorem Sweep_changes_nothing s : reached s → ∃ n s', Sweep s = (Ok n, s') ∧ same s s'.
Proof.
  intros [b Ha]%reached_agrees.
  assert (∀ ids n s1 s2, same s1 s2 → agrees c s2 b → runs (sweep_ids ids n) s2 (λ _ s', same s1 s')) as Hids.
  { induction ids as [|id ids IH]; intros n s1 s2 Hs Hb; [by apply runs_ret|].
    apply runs_bind, runs_bind, (runs_getJSON _ _ _ (fst <$> bk_records b !! id)).
    - rewrite (ag_records _ _ _ Hb). destruct (bk_records b !! id) as [[y u]|]; simpl; [by rewrite decode_encode|done].
    - intros s3 Hs3. pose proof (agrees_same c _ _ _ Hs3 Hb) as Hb3. pose proof (same_trans _ _ _ Hs Hs3) as H13.
      destruct (bk_records b !! id) as [[y u]|]; simpl; [|by apply runs_ret, IH].
      apply runs_bind, runs_moment, runs_ret. by apply IH. }
  assert (runs Sweep s (λ _ s', same s s')) as (n&s'&Hrun&Hs).
  { apply runs_bind, runs_Members. intros l s1 Hs1 _. apply Hids; [done|]. by eapply agrees_same. }
  by exists n, s'.
Qed.
End history.

(** ** At a concrete store *)

Notation store := (@MemoryState (string + Session)) (only parsing).

Definition sample : Sessions := mkSessions 3600000000000 90000000000 None.
Definition ada : Opened := mkOpened "Ada@example.org" "argocd" "" "code" "t1" ["openid"] "" (Some 5%Z).
Definition a_machine : Opened := mkOpened "ci" "kubectl" "" "exchange" "t9" [] "" None.
Definition sample_history : list event := [Asked (RqRecord ada "s1"); Asked (RqRecord a_machine "s2"); Waited 20].
Definition sample_start : store := NewMemoryState 10.
Definition sample_state : store := (index_history sample sample_history sample_start).2.
Definition ada_session : Session :=
  mkSession "s1" "ada@example.org" "argocd" "code" ["openid"] "" "" (Some 5%Z) 10 90000000005 None.
Definition ci_session : Session := mkSession "s2" "ci" "kubectl" "exchange" [] "" "" None 10 3600000000010 None.

Lemma sample_start_blank : blank sample_start.
Proof. intros key. unfold sample_start, NewMemoryState. simpl. unfold shown_value. simpl. by rewrite lookup_empty. Qed.

Lemma sample_reached : reached sample sample_state.
Proof. exists sample_start, sample_history. split; [apply sample_start_blank|]. split; [by repeat constructor|done]. Qed.

Lemma index_refines_book_witness :
  (index_history sample (sample_history ++ [Asked (RqRefreshed "t1" "t2"); Asked (RqRevoke (mkQuery "ADA@example.org" "" "" false));
     Asked (RqByToken "t2"); Asked (RqList (mkQuery "" "" "" false))]) sample_start).1 =
    [Ok (AnSession ada_session); Ok (AnSession ci_session); Ok (AnRefreshed (Some (moved sample ada_session 30, "t2")));
     Ok (AnCount 1); Ok (AnFound None); Ok (AnList [ci_session])].
Proof.
  rewrite (index_refines_book (S := store) sample); [vm_compute; reflexivity|reflexivity|apply sample_start_blank|].
  unfold sample_history. cbn [app]. repeat (apply Forall_cons; split); [exact I|exact I|by vm_compute|exact I|by right|exact I|by right|by apply Forall_nil].
Defined.

(** With a space around it, the identity names no set: the session that is live, and that a
    listing of everything, one by its name, or one by a substring with the same space shows,
    is not found, and a revocation ends nothing. *)
Example spaced_query_misses :
  let listed identity contains := (Sessions_List (mkQuery identity "" "" contains) sample_state).1 in
  listed "" false = Ok [ada_session; ci_session] ∧ listed "ada@example.org" false = Ok [ada_session] ∧
  listed " ada@example.org" true = Ok [ada_session] ∧ listed " ada@example.org" false = Ok [] ∧
  (Revoke (mkQuery " ada@example.org" "" "" false) sample_state).1 = Ok 0 ∧
  selects (mkQuery " ada@example.org" "" "" false) ada_session = true.
Proof. cbv zeta. split_and!; by vm_compute. Qed.

Lemma Refreshed_rotates_witness :
  let after := (Refreshed sample "t1" "t2" sample_state).2 in
  (ByToken "t1" after).1 = Ok None ∧ (ByToken "t2" after).1 = Ok (Some (moved sample ada_session 30)).
Proof.
  destruct (Refreshed_rotates (S := store) sample eq_refl sample_state "t1" "t2" "t2" ada_session (moved sample ada_session 30))
    as (_&_&H1&H2&_); [apply sample_reached|vm_compute; reflexivity..|by vm_compute|]. split; [exact H1|exact H2].
Defined.

Lemma Refreshed_grace_witness :
  let rotated := (Refreshed sample "t1" "t2" sample_state).2 in
  (Refreshed sample "t1" "t3" (is_wait rotated (refreshGrace - 1))).1 = Ok (Some (moved sample ada_session 30, "t2")) ∧
  (Refreshed sample "t1" "t3" (is_wait rotated refreshGrace)).1 = Ok None.
Proof.
  split.
  - apply (Refreshed_grace (S := store) sample eq_refl sample_state "t1" "t2" "t3" "t2" ada_session (moved sample ada_session 30) (refreshGrace - 1));
      [apply sample_reached|vm_compute; reflexivity..|by vm_compute|by vm_compute|by vm_compute].
  - apply (Refreshed_grace (S := store) sample eq_refl sample_state "t1" "t2" "t3" "t2" ada_session (moved sample ada_session 30) refreshGrace);
      [apply sample_reached|vm_compute; reflexivity..|by vm_compute|by vm_compute|by vm_compute].
Defined.

Lemma session_within_limit_witness : (byID "s1" sample_state).1 = Ok (Some ada_session) ∧
  (is_now sample_state < se_ExpiresAt ada_session <= 5 + 90000000000)%Z.
Proof.
  split; [vm_compute; reflexivity|].
  apply (session_within_limit (S := store) sample eq_refl sample_state "s1" "" ada_session 5);
    [apply sample_reached|left; vm_compute; reflexivity|reflexivity|reflexivity].
Defined.

Definition after_limit : store := (index_history sample (sample_history ++ [Waited 90000000000]) sample_start).2.
Lemma after_limit_reached : reached sample after_limit.
Proof. exists sample_start, (sample_history ++ [Waited 90000000000]). split; [apply sample_start_blank|]. split; [by repeat constructor|done]. Qed.

Lemma endedByAbsoluteLimit_means_witness : (endedByAbsoluteLimit "t1" after_limit).1 = Ok (Some ada_session) ∧
  ∃ a, se_AuthTime ada_session = Some a ∧ (a + 90000000000 <= is_now after_limit)%Z.
Proof.
  split; [vm_compute; reflexivity|].
  destruct (endedByAbsoluteLimit_means (S := store) sample eq_refl after_limit "t1" ada_session) as (a&Ha&_&_&Hle);
    [apply after_limit_reached|vm_compute; reflexivity|]. exists a. split; [exact Ha|exact Hle].
Defined.

Lemma RevokeID_is_final_witness :
  (byID "s1" (index_history sample [Asked (RqRefreshed "t1" "t2"); Waited 1] (RevokeID "s1" sample_state).2).2).1 = Ok None.
Proof.
  apply (RevokeID_is_final (S := store) sample eq_refl sample_state [Asked (RqRefreshed "t1" "t2"); Waited 1] "s1");
    [apply sample_reached|by repeat constructor|]. intros o. rewrite !elem_of_cons, elem_of_nil. by intros [[=]|[[=]|[]]].
Defined.

Lemma Revoke_ends_what_it_lists_witness :
  ∃ rest, (Sessions_List (mkQuery "" "" "" false) (Revoke (mkQuery "ada@example.org" "argocd" "" false) sample_state).2).1 = Ok rest ∧
    ∀ x, x ∈ rest ↔ x ∈ [ada_session; ci_session] ∧ x ∉ [ada_session].
Proof.
  destruct (Revoke_ends_what_it_lists (S := store) sample eq_refl sample_state (mkQuery "ada@example.org" "argocd" "" false)
    [ada_session; ci_session] [ada_session] 1) as (_&rest&Hrest&Hin);
    [apply sample_reached|right; vm_compute; reflexivity|vm_compute; reflexivity..|]. exists rest. split; [exact Hrest|exact Hin].
Defined.

Lemma Refreshed_race_witness :
  let after := (two_refreshes sample "t1" "t2" "t3" sample_state).2 in
  (ByToken "t2" after).1 = Ok (Some (moved sample ada_session 30)) ∧ (ByToken "t3" after).1 = Ok (Some (moved sample ada_session 30)).
Proof.
  destruct (Refreshed_race (S := store) sample eq_refl sample_state "t1" "t2" "t3" ada_session) as [_ Hboth];
    [apply sample_reached|vm_compute; reflexivity..|apply (bool_decide_unpack _); vm_compute; exact I|exact Hboth].
Defined.

Lemma refresh_gap_witness : (ByRefreshToken "t1" (refresh_begin "t1" "t2" sample_state).2).1 = Ok None.
Proof.
  apply (refresh_gap (S := store) sample eq_refl sample_state "t1" "t2" ada_session);
    [apply sample_reached|vm_compute; reflexivity..|by vm_compute].
Defined.

Lemma Sweep_changes_nothing_witness : ∃ n s', Sweep sample_state = (Ok n, s') ∧ same sample_state s'.
Proof. apply (Sweep_changes_nothing (S := store) sample eq_refl). apply sample_reached. Defined.
