(* ===== verification/KeyRing.v ===== *)
(** * KeyRing: live rotation of the signing keys

    [internal/issuer/keyring.go] and [keyrings.go]: one ring per algorithm, the
    schedule every replica shares through the store, and what a replica publishes
    and signs with.  A store that fails is not an error here: the ring logs and goes
    on, so a call is [attempt]ed and its failure is a value.

    A key's private half is the [SigningKey] a replica read from its own file; what
    is recorded of a key ([stamp]) has the public half only.  Go ranges over the map
    of entries in no order: entries are read in key order, and the schedule is stated
    over any order that is sorted by activation ([schedule_of]).  Logs and metrics are
    left out. *)

From S2P Require Import Prelude GoStrings Port IssuerState.

Implicit Types (id alg : string) (now : Z).

(** ** The data *)

Definition minute : Z := 60 * 1000000000.

(** [internal/issuer/keyring.go:type KeyRingConfig] *)
Record KeyRingConfig := mkKeyRingConfig { kc_ActivationDelay : Z; kc_Overlap : Z }.

(** [internal/issuer/keyring.go:48-57 DefaultKeyActivationDelay] *)
Definition DefaultKeyActivationDelay : Z := 15 * minute.
(** [internal/issuer/keyring.go:59-71 DefaultKeyOverlap]; a token lives an hour by default. *)
Definition KeyOverlapSkew : Z := 5 * minute.
Definition DefaultTokenLifetime : Z := 60 * minute.
Definition DefaultKeyOverlap : Z := DefaultTokenLifetime + KeyOverlapSkew.

(** [internal/issuer/keyring.go:KeyRingConfig.withDefaults] *)
Definition withDefaults (c : KeyRingConfig) : KeyRingConfig :=
  mkKeyRingConfig (if (kc_ActivationDelay c <=? 0)%Z then DefaultKeyActivationDelay else kc_ActivationDelay c)
    (if (kc_Overlap c <=? 0)%Z then DefaultKeyOverlap else kc_Overlap c).

(** [internal/issuer/keyring.go:keyRingIndexKey] *)
Definition keyRingIndexKey alg : string := "issuer:keyring:index:" +:+ alg.
(** [internal/issuer/keyring.go:keyRingEntryKey] *)
Definition keyRingEntryKey alg id : string := "issuer:keyring:entry:" +:+ alg +:+ ":" +:+ id.
(** [internal/issuer/keyring.go:111-117 keyRingEntryTTL]: thirty days. *)
Definition keyRingEntryTTL : Z := 30 * 24 * 60 * minute.

(** [internal/issuer/keys.go:type SigningKey]: its id, its algorithm, its public half; the private one is never read. *)
Record SigningKey := mkSigningKey { sk_id : string; sk_alg : string; sk_public : string }.

(** [internal/issuer/keyring.go:type ringEntry]: what is recorded of a key, and the private half a replica holds. *)
Record stamp := mkStamp { st_ID : string; st_JWK : string; st_Algorithm : string; st_SeenAt : Z; st_ActivateAt : Z }.
Record ringEntry := mkEntry { en_stamp : stamp; en_signer : option SigningKey }.

Definition ActivateAt (e : ringEntry) : Z := st_ActivateAt (en_stamp e).
Definition entry_ID (e : ringEntry) : string := st_ID (en_stamp e).

(** [internal/issuer/keyring.go:type KeyRing]; the state and the clock are arguments. *)
Record KeyRing := mkKeyRing {
  kr_alg : string; kr_cfg : KeyRingConfig; kr_entries : gmap string ringEntry; kr_activeID : string; kr_published : gset string }.

Inductive ring_error : Type := NoSigningKey | WrongAlgorithm (ring key : string) | NoRing alg | TwoKeys alg | NoPrimary.

(** [internal/issuer/keyring.go:NewKeyRing] *)
Definition NewKeyRing alg (c : KeyRingConfig) : KeyRing := mkKeyRing alg (withDefaults c) ∅ "" ∅.

(** [internal/issuer/keyring.go:KeyRing.Configure] *)
Definition KeyRing_Configure (r : KeyRing) (c : KeyRingConfig) : KeyRing :=
  mkKeyRing (kr_alg r) (withDefaults c) (kr_entries r) (kr_activeID r) (kr_published r).

Definition with_entries (r : KeyRing) entries : KeyRing :=
  mkKeyRing (kr_alg r) (kr_cfg r) entries (kr_activeID r) (kr_published r).

(** ** The schedule *)

Definition sooner (a b : ringEntry) : Prop := (ActivateAt a <= ActivateAt b)%Z.
#[export] Instance sooner_dec a b : Decision (sooner a b).
Proof. unfold sooner. apply _. Defined.

(** The entries, by the time they activate. *)
Definition by_activation (entries : gmap string ringEntry) : list ringEntry := merge_sort sooner (map_to_list entries).*2.

(** [internal/issuer/keyring.go:422-430 KeyRing.recompute] *)
Definition activated now (all : list ringEntry) : list ringEntry := List.filter (λ e, negb (now <? ActivateAt e)%Z) all.
Definition waiting now (all : list ringEntry) : list ringEntry := List.filter (λ e, (now <? ActivateAt e)%Z) all.

(** [internal/issuer/keyring.go:433-449 KeyRing.recompute]: each activated key but the last, retired or not. *)
Fixpoint retiring now (overlap : Z) (activated : list ringEntry) : gset string * gset string :=
  match activated with
  | e :: (e' :: _) as rest =>
      let '(published, retired) := retiring now overlap rest in
      if (ActivateAt e' + overlap <? now)%Z then (published, {[entry_ID e]} ∪ retired) else ({[entry_ID e]} ∪ published, retired)
  | [e] => ({[entry_ID e]}, ∅)
  | [] => (∅, ∅)
  end.

Record outcome := mkOutcome { oc_active : string; oc_published : gset string; oc_retired : gset string }.

(** [internal/issuer/keyring.go:411-449 KeyRing.recompute]: the schedule, of entries sorted by activation. *)
Definition schedule_of now (overlap : Z) (all : list ringEntry) : outcome :=
  let active := activated now all in
  let '(published, retired) := retiring now overlap active in
  mkOutcome (from_option entry_ID "" (last active)) (list_to_set (entry_ID <$> waiting now all) ∪ published) retired.

(** ** The operations *)

Section operations.
Context {V S : Type} `{IState V S} `{Document V stamp}.

Definition attempt {A} (m : M S A) (s : S) : option A * S :=
  match m s with (Ok a, s') => (Some a, s') | (Err _, s') => (None, s') end.

(** [internal/issuer/keyring.go:KeyRing.record] *)
Definition record (r : KeyRing) now (key : SigningKey) (s : S) : ringEntry * S :=
  let '(members, s) := attempt (is_Members (keyRingIndexKey (kr_alg r))) s in
  let immediate := match members with None => bool_decide (kr_entries r = ∅) | Some l => bool_decide (l = []) end in
  let activateAt := if immediate : bool then now else (now + kc_ActivationDelay (kr_cfg r))%Z in
  let own := mkStamp (sk_id key) (sk_public key) (sk_alg key) now activateAt in
  let entryKey := keyRingEntryKey (kr_alg r) (sk_id key) in
  let '(won, s) := attempt (is_SetIfAbsent entryKey (encode own) keyRingEntryTTL) s in
  let '(entry, s) :=
    match won with
    | Some false => let '(stored, s) := attempt (getJSON entryKey) s in
                    (match stored with Some (Some st) => st | _ => own end, s)
    | _ => (own, s)
    end in
  let '(_, s) := attempt (is_Add (keyRingIndexKey (kr_alg r)) (sk_id key) keyRingEntryTTL) s in
  (mkEntry entry (Some key), s).

(** [internal/issuer/keyring.go:361-384 KeyRing.absorb]: the indexed ids one by one. *)
Fixpoint absorb_ids alg (ids : list string) (entries : gmap string ringEntry) (s : S) : gmap string ringEntry * S :=
  match ids with
  | [] => (entries, s)
  | id :: rest =>
      match entries !! id with
      | Some _ => absorb_ids alg rest entries s
      | None =>
          let '(stored, s) := attempt (getJSON (keyRingEntryKey alg id)) s in
          absorb_ids alg rest (match stored with Some (Some st) => <[id := mkEntry st None]> entries | _ => entries end) s
      end
  end.

(** [internal/issuer/keyring.go:KeyRing.absorb] *)
Definition absorb (r : KeyRing) (s : S) : KeyRing * S :=
  let '(ids, s) := attempt (is_Members (keyRingIndexKey (kr_alg r))) s in
  match ids with
  | None => (r, s)
  | Some ids => let '(entries, s) := absorb_ids (kr_alg r) ids (kr_entries r) s in (with_entries r entries, s)
  end.

(** [internal/issuer/keyring.go:KeyRing.refresh] *)
Definition refresh (r : KeyRing) (s : S) : S :=
  foldl (λ s (kv : string * ringEntry),
    let '(_, s) := attempt (is_Set (keyRingEntryKey (kr_alg r) kv.1) (encode (en_stamp kv.2)) keyRingEntryTTL) s in
    let '(_, s) := attempt (is_Add (keyRingIndexKey (kr_alg r)) kv.1 keyRingEntryTTL) s in s) s (map_to_list (kr_entries r)).

(** [internal/issuer/keyring.go:KeyRing.recompute] *)
Definition recompute (r : KeyRing) now (s : S) : KeyRing * S :=
  let o := schedule_of now (kc_Overlap (kr_cfg r)) (by_activation (kr_entries r)) in
  let gone := List.filter (λ id, bool_decide (id ∈ oc_retired o)) (sorted_keys (kr_entries r)) in
  let s := foldl (λ s id,
    let '(_, s) := attempt (is_Delete (keyRingEntryKey (kr_alg r) id)) s in
    let '(_, s) := attempt (is_Remove (keyRingIndexKey (kr_alg r)) id) s in s) s gone in
  (mkKeyRing (kr_alg r) (kr_cfg r) (filter (λ kv, kv.1 ∉ oc_retired o) (kr_entries r)) (oc_active o) (oc_published o), s).

(** [internal/issuer/keyring.go:KeyRing.Observe] *)
Definition Observe (r : KeyRing) (key : option SigningKey) (s : S) : result ring_error KeyRing * S :=
  match key with
  | None => (Err NoSigningKey, s)
  | Some key =>
      if negb (bool_decide (sk_alg key = kr_alg r)) then (Err (WrongAlgorithm (kr_alg r) (sk_alg key)), s)
      else
        let now := is_now s in
        let '(r, s) :=
          match kr_entries r !! sk_id key with
          | Some existing => (with_entries r (<[sk_id key := mkEntry (en_stamp existing) (Some key)]> (kr_entries r)), s)
          | None => let '(e, s) := record r now key s in (with_entries r (<[sk_id key := e]> (kr_entries r)), s)
          end in
        let '(r, s) := absorb r s in
        let s := refresh r s in
        let '(r, s) := recompute r now s in
        (Ok r, s)
  end.
End operations.

(** [internal/issuer/keyring.go:502-513 KeyRing.Active]: the newest key this replica can sign with. *)
Definition newest_own (entries : gmap string ringEntry) : option ringEntry :=
  foldl (λ best id,
    match entries !! id with
    | Some e => match en_signer e, best with
                | None, _ => best
                | Some _, None => Some e
                | Some _, Some b => if (ActivateAt b <? ActivateAt e)%Z then Some e else best
                end
    | None => best
    end) None (sorted_keys entries).

(** [internal/issuer/keyring.go:KeyRing.Active] *)
Definition Active (r : KeyRing) : option SigningKey :=
  match kr_entries r !! kr_activeID r ≫= en_signer with
  | Some signer => Some signer
  | None => newest_own (kr_entries r) ≫= en_signer
  end.

(** [internal/issuer/keyring.go:KeyRing.Published] *)
Definition Published (r : KeyRing) : list stamp :=
  omap (λ id, en_stamp <$> kr_entries r !! id) (elements (kr_published r)).

(** [internal/issuer/keyring.go:KeyRing.Algorithms] *)
Definition KeyRing_Algorithms (r : KeyRing) : list string := remove_dups (st_Algorithm <$> Published r).

(** [internal/issuer/keyring.go:KeyRing.Status]: the active key and how many are published. *)
Definition KeyRing_Status (r : KeyRing) : string * nat := (kr_activeID r, size (kr_published r)).

(** ** Every algorithm's ring *)

(** [internal/issuer/keyrings.go:type KeyRings] *)
Record KeyRings := mkKeyRings { ks_rings : gmap string KeyRing; ks_primary : string }.

(** [internal/issuer/keyrings.go:KeyRings.Default] *)
Definition KeyRings_Default (k : KeyRings) : string := ks_primary k.

(** [internal/issuer/keyrings.go:KeyRings.Has] *)
Definition KeyRings_Has (k : KeyRings) alg : bool := bool_decide (is_Some (ks_rings k !! alg)).

(** [internal/issuer/keyrings.go:KeyRings.Configured] *)
Definition KeyRings_Configured (k : KeyRings) : list string := sorted_keys (ks_rings k).

(** [internal/issuer/keyrings.go:KeyRings.Active] *)
Definition KeyRings_Active (k : KeyRings) alg : option SigningKey := ks_rings k !! alg ≫= Active.

(** [internal/issuer/keyrings.go:KeyRings.Configure] *)
Definition KeyRings_Configure (k : KeyRings) (c : KeyRingConfig) : KeyRings :=
  mkKeyRings ((λ r, KeyRing_Configure r c) <$> ks_rings k) (ks_primary k).

(** [internal/issuer/keyrings.go:KeyRings.Published] *)
Definition KeyRings_Published (k : KeyRings) : list stamp := mjoin (Published <$> (map_to_list (ks_rings k)).*2).

(** [internal/issuer/keyrings.go:KeyRings.Algorithms] *)
Definition KeyRings_Algorithms (k : KeyRings) : list string :=
  sort_strings (remove_dups (mjoin (KeyRing_Algorithms <$> (map_to_list (ks_rings k)).*2))).

(** [internal/issuer/keyrings.go:KeyRings.Status] *)
Definition KeyRings_Status (k : KeyRings) : gmap string (string * nat) := KeyRing_Status <$> ks_rings k.

Section rings.
Context {V S : Type} `{IState V S} `{Document V stamp}.

(** [internal/issuer/keyrings.go:62-76 NewKeyRings]: a ring for each key; the nil ones are passed over. *)
Fixpoint add_rings (c : KeyRingConfig) (keys : list (option SigningKey)) (rings : gmap string KeyRing) (s : S) :
    result ring_error (gmap string KeyRing) * S :=
  match keys with
  | [] => (Ok rings, s)
  | None :: rest => add_rings c rest rings s
  | Some key :: rest =>
      let alg := sk_alg key in
      match rings !! alg with
      | Some _ => (Err (TwoKeys alg), s)
      | None =>
          let '(r, s) := Observe (NewKeyRing alg c) (Some key) s in
          match r with Ok ring => add_rings c rest (<[alg := ring]> rings) s | Err e => (Err e, s) end
      end
  end.

(** [internal/issuer/keyrings.go:NewKeyRings] *)
Definition NewKeyRings (primary : option SigningKey) (additional : list (option SigningKey)) (c : KeyRingConfig) (s : S) :
    result ring_error KeyRings * S :=
  match primary with
  | None => (Err NoPrimary, s)
  | Some key =>
      let '(r, s) := add_rings c (Some key :: additional) ∅ s in
      (rings ← r; Ok (mkKeyRings rings (sk_alg key)), s)
  end.

(** [internal/issuer/keyrings.go:KeyRings.Rotate] *)
Definition KeyRings_Rotate (k : KeyRings) (key : SigningKey) (s : S) : result ring_error KeyRings * S :=
  match ks_rings k !! sk_alg key with
  | None => (Err (NoRing (sk_alg key)), s)
  | Some ring =>
      let '(r, s) := Observe ring (Some key) s in
      (ring ← r; Ok (mkKeyRings (<[sk_alg key := ring]> (ks_rings k)) (ks_primary k)), s)
  end.
End rings.
