(* ===== verification/KeyRingSafety.v ===== *)
(** * KeyRingSafety: what rotation guarantees

    Of the schedule: which keys are published and retired, that the active key is
    never among the retired, that what was signed at a moment verifies for the
    whole overlap, that it does not depend on the order the entries are read in.  Of
    a ring over any store, failing or not: it never signs with a key it does not
    publish, and the scheduled key is one whose time has come.  Of replicas over a
    store that keeps its promises: a key's schedule is decided once while its record
    is kept.  The last part is three runs that show what the schedule does not
    guarantee. *)

From S2P Require Import Prelude GoStrings Port IssuerState KeyRing.

Implicit Types (id alg : string) (now : Z) (all : list ringEntry).

(** ** Lists sorted by activation *)

Lemma elem_of_activated now all e : e ∈ activated now all ↔ e ∈ all ∧ (ActivateAt e <= now)%Z.
Proof. unfold activated. rewrite elem_of_filter_bool, negb_true_iff, Z.ltb_ge. done. Qed.
Lemma elem_of_waiting now all e : e ∈ waiting now all ↔ e ∈ all ∧ (now < ActivateAt e)%Z.
Proof. unfold waiting. by rewrite elem_of_filter_bool, Z.ltb_lt. Qed.

Lemma StronglySorted_lookup {A} (R : A → A → Prop) (l : list A) i j x y :
  StronglySorted R l → l !! i = Some x → l !! j = Some y → i < j → R x y.
Proof.
  intros Hs. revert i j. induction Hs as [|z l Hs IH Hz]; intros i j; [by rewrite lookup_nil|].
  destruct j as [|j]; [lia|]. destruct i as [|i]; simpl; intros Hx Hy Hij; [|by eapply (IH i j); [..|lia]].
  injection Hx as ->. rewrite Forall_forall in Hz. apply Hz. by eapply list_elem_of_lookup_2.
Qed.

(** Whether the key after the one at a place came long enough ago. *)
Definition superseded now overlap (l : list ringEntry) (i : nat) : bool :=
  match l !! S i with Some e' => (ActivateAt e' + overlap <? now)%Z | None => false end.

Lemma retiring_spec now overlap (l : list ringEntry) id :
  (id ∈ (retiring now overlap l).1 ↔ ∃ i e, l !! i = Some e ∧ entry_ID e = id ∧ superseded now overlap l i = false) ∧
  (id ∈ (retiring now overlap l).2 ↔ ∃ i e, l !! i = Some e ∧ entry_ID e = id ∧ superseded now overlap l i = true).
Proof.
  assert (∀ e rest (b : bool), (∃ i x, (e :: rest) !! i = Some x ∧ entry_ID x = id ∧ superseded now overlap (e :: rest) i = b) ↔
    (entry_ID e = id ∧ superseded now overlap (e :: rest) 0 = b) ∨
    ∃ i x, rest !! i = Some x ∧ entry_ID x = id ∧ superseded now overlap rest i = b) as Hcons.
  { intros e rest b. split.
    - intros ([|i]&x&Hx&Hid&Hb); simpl in Hx; [injection Hx as ->; by left|right; by exists i, x].
    - intros [[? ?]|(i&x&?&?&?)]; [by exists 0, e|by exists (S i), x]. }
  induction l as [|e rest IH].
  { split; (split; [set_solver|by intros (i&x&?&_)]). }
  rewrite !Hcons. destruct IH as [IH1 IH2]. rewrite <- IH1, <- IH2. clear IH1 IH2 Hcons.
  destruct rest as [|e' rest]; [simpl; unfold superseded; simpl; set_solver|].
  change (retiring now overlap (e :: e' :: rest)) with
    (let '(published, retired) := retiring now overlap (e' :: rest) in
     if (ActivateAt e' + overlap <? now)%Z then (published, {[entry_ID e]} ∪ retired) else ({[entry_ID e]} ∪ published, retired)).
  destruct (retiring now overlap (e' :: rest)) as [P R]. unfold superseded. simpl.
  destruct (ActivateAt e' + overlap <? now)%Z; simpl; set_solver.
Qed.

(** ** The schedule *)

Section schedule.
Context (overlap : Z) (all : list ringEntry) (Hsorted : StronglySorted sooner all).

Lemma activated_sorted now : StronglySorted sooner (activated now all).
Proof. by apply StronglySorted_filter. Qed.

Lemma published_or_retired now id :
  (id ∈ oc_published (schedule_of now overlap all) ∨ id ∈ oc_retired (schedule_of now overlap all)) ↔ ∃ e, e ∈ all ∧ entry_ID e = id.
Proof.
  unfold schedule_of. destruct (retiring now overlap (activated now all)) as [P R] eqn:Hr. simpl.
  pose proof (retiring_spec now overlap (activated now all) id) as [HP HR]. rewrite Hr in HP, HR. simpl in HP, HR.
  rewrite elem_of_union, elem_of_list_to_set, list_elem_of_fmap, HP, HR. split.
  - intros [[(e&?&He%elem_of_waiting)|(i&e&He&?&_)]|(i&e&He&?&_)]; [naive_solver|..].
    + exists e. apply list_elem_of_lookup_2, elem_of_activated in He. naive_solver.
    + exists e. apply list_elem_of_lookup_2, elem_of_activated in He. naive_solver.
  - intros (e&He&Hid). destruct (Z.lt_ge_cases now (ActivateAt e)) as [Hlt|Hge].
    + left; left. exists e. split; [done|]. by apply elem_of_waiting.
    + assert (e ∈ activated now all) as (i&Hi)%list_elem_of_lookup_1 by by apply elem_of_activated.
      destruct (superseded now overlap (activated now all) i) eqn:Hs; [right|left; right]; eauto.
Qed.

(** A retired key was superseded, and more than the overlap ago. *)
Lemma retired_superseded now id : id ∈ oc_retired (schedule_of now overlap all) →
  ∃ e e', e ∈ all ∧ e' ∈ all ∧ entry_ID e = id ∧ (ActivateAt e <= ActivateAt e')%Z ∧ (ActivateAt e' + overlap < now)%Z.
Proof.
  unfold schedule_of. destruct (retiring now overlap (activated now all)) as [P R] eqn:Hr. simpl.
  pose proof (retiring_spec now overlap (activated now all) id) as [_ HR]. rewrite Hr in HR. simpl in HR. rewrite HR.
  intros (i&e&He&Hid&Hs). unfold superseded in Hs. destruct (activated now all !! S i) as [e'|] eqn:He'; [|done].
  exists e, e'. pose proof (StronglySorted_lookup _ _ _ _ _ _ (activated_sorted now) He He' (Nat.lt_succ_diag_r i)).
  apply list_elem_of_lookup_2, elem_of_activated in He as [? _], He' as [? _]. apply Z.ltb_lt in Hs. by split_and!.
Qed.

Lemma active_last now : oc_active (schedule_of now overlap all) = from_option entry_ID "" (last (activated now all)).
Proof. unfold schedule_of. by destruct (retiring now overlap (activated now all)). Qed.

Lemma last_latest now e : last (activated now all) = Some e → e ∈ all ∧ (ActivateAt e <= now)%Z ∧
  ∀ x, x ∈ all → (ActivateAt x <= now)%Z → (ActivateAt x <= ActivateAt e)%Z.
Proof.
  intros Hl. rewrite last_lookup in Hl. pose proof (list_elem_of_lookup_2 _ _ _ Hl) as [? ?]%elem_of_activated.
  split_and!; [done..|]. intros x Hx Hxn. assert (x ∈ activated now all) as (i&Hi)%list_elem_of_lookup_1 by by apply elem_of_activated.
  pose proof (lookup_lt_Some _ _ _ Hi). destruct (decide (i = pred (length (activated now all)))) as [->|Hne].
  - rewrite Hi in Hl. injection Hl as ->. done.
  - apply (StronglySorted_lookup _ _ _ _ _ _ (activated_sorted now) Hi Hl). lia.
Qed.
End schedule.

Lemma by_activation_sorted entries : StronglySorted sooner (by_activation entries).
Proof.
  apply StronglySorted_merge_sort; unfold sooner; [intros x y z; lia|]. intros x y. unfold Total. lia.
Qed.

Lemma elem_of_by_activation entries e : e ∈ by_activation entries ↔ ∃ id, entries !! id = Some e.
Proof.
  unfold by_activation. rewrite merge_sort_Permutation, list_elem_of_fmap. split.
  - intros ([id x]&->&Hx%elem_of_map_to_list). eauto.
  - intros (id&Hid). exists (id, e). split; [done|]. by apply elem_of_map_to_list.
Qed.

(** C17: What is signed at a moment can be verified for the whole overlap: the key active
    at [now] is published at every [later] up to [now + overlap], whatever keys that were
    not yet active were added and whichever were dropped, in whatever order the replica
    reads its entries, as long as no other key activates at the very moment that key does;
    where one does, the order a replica reads them in decides: [tied_keys_part]. *)
Theorem active_key_stays_published now later overlap all all' e :
  StronglySorted sooner all → StronglySorted sooner all' → NoDup all' →
  (∀ x, x ∈ all' → ActivateAt x = ActivateAt e → x = e) →
  last (activated now all) = Some e → e ∈ all' → (∀ x, x ∈ all' → x ∈ all ∨ (now < ActivateAt x)%Z) →
  (now <= later <= now + overlap)%Z →
  oc_active (schedule_of now overlap all) = entry_ID e ∧ entry_ID e ∈ oc_published (schedule_of later overlap all').
Proof.
  intros Hs Hs' Hnd Hdistinct Hlast He Hnew Hlater. split; [by rewrite active_last, Hlast|].
  destruct (last_latest all Hs now e Hlast) as (_&Hle&Hmax).
  unfold schedule_of. destruct (retiring later overlap (activated later all')) as [P R] eqn:Hr. simpl.
  pose proof (retiring_spec later overlap (activated later all') (entry_ID e)) as [HP _]. rewrite Hr in HP. simpl in HP.
  apply elem_of_union_r, HP. assert (e ∈ activated later all') as (i&Hi)%list_elem_of_lookup_1.
  { apply elem_of_activated. split; [done|lia]. }
  exists i, e. split_and!; [done..|]. unfold superseded. destruct (activated later all' !! S i) as [e'|] eqn:He'; [|done].
  pose proof (StronglySorted_lookup _ _ _ _ _ _ (activated_sorted all' Hs' later) Hi He' (Nat.lt_succ_diag_r i)) as Hsoon.
  unfold sooner in Hsoon. apply Z.ltb_ge. apply list_elem_of_lookup_2 in He' as Hin. apply elem_of_activated in Hin as [Hin _].
  destruct (Hnew e' Hin) as [Hold|Hlt]; [|lia]. destruct (Z.lt_ge_cases now (ActivateAt e')) as [|Hact]; [lia|].
  specialize (Hmax e' Hold Hact). exfalso. assert (e' = e) as -> by (apply Hdistinct; [done|lia]).
  assert (NoDup (activated later all')) as Hdup by by apply NoDup_ListNoDup, List.NoDup_filter, NoDup_ListNoDup.
  pose proof (NoDup_lookup _ _ _ _ Hdup Hi He'). lia.
Qed.

(** ** Replicas reading one store *)

(** The schedule reads what is recorded of the keys, not the private halves. *)
Definition public (e : ringEntry) : ringEntry := mkEntry (en_stamp e) None.

Lemma retiring_public now overlap l : retiring now overlap (public <$> l) = retiring now overlap l.
Proof.
  induction l as [|e [|e' l] IH]; [done..|]. rewrite !fmap_cons in *.
  change (retiring now overlap (public e :: public e' :: (public <$> l))) with
    (let '(published, retired) := retiring now overlap (public e' :: (public <$> l)) in
     if (ActivateAt e' + overlap <? now)%Z then (published, {[entry_ID e]} ∪ retired) else ({[entry_ID e]} ∪ published, retired)).
  by rewrite IH.
Qed.

Lemma filter_public (f : ringEntry → bool) l : (∀ e, f (public e) = f e) → List.filter f (public <$> l) = public <$> List.filter f l.
Proof. intros Hf. induction l as [|e l IH]; [done|]. rewrite fmap_cons. cbn [List.filter]. rewrite Hf, IH. by destruct (f e). Qed.

Lemma schedule_public now overlap l : schedule_of now overlap (public <$> l) = schedule_of now overlap l.
Proof.
  unfold schedule_of, activated, waiting. rewrite !filter_public by done. rewrite retiring_public, fmap_last, <- list_fmap_compose.
  destruct (retiring _ _ _) as [P R]. f_equal. by destruct (last _).
Qed.

(** Replicas that know of the same keys, with the same recorded schedules, compute the
    same answer at the same moment, whichever private halves each of them holds. *)
Theorem replicas_agree now overlap (entries entries' : gmap string ringEntry) :
  (∀ id, en_stamp <$> entries !! id = en_stamp <$> entries' !! id) → NoDup (ActivateAt <$> by_activation entries) →
  schedule_of now overlap (by_activation entries) = schedule_of now overlap (by_activation entries').
Proof.
  intros Hsame Hdistinct. rewrite <- (schedule_public _ _ (by_activation entries)), <- (schedule_public _ _ (by_activation entries')).
  f_equal. assert (∀ l, StronglySorted sooner l → StronglySorted sooner (public <$> l)) as Hpub.
  { induction 1 as [|x l Hl IH Hx]; [constructor|]. rewrite fmap_cons. constructor; [done|]. rewrite Forall_fmap. done. }
  assert ((public <$> (map_to_list entries).*2) ≡ₚ (public <$> (map_to_list entries').*2)) as Hperm.
  { rewrite <- !list_fmap_compose. assert (∀ m : gmap string ringEntry,
      (public ∘ snd) <$> map_to_list m = snd <$> map_to_list (public <$> m)) as Hm.
    { intros m. rewrite map_to_list_fmap, <- list_fmap_compose. by apply list_fmap_ext; intros ? [? ?]. }
    rewrite !Hm. f_equiv. f_equiv. apply map_eq. intros id. rewrite !lookup_fmap. specialize (Hsame id).
    destruct (entries !! id) as [[st sg]|], (entries' !! id) as [[st' sg']|]; simpl in *; unfold public; simpl; congruence. }
  apply (StronglySorted_unique_strong sooner).
  - intros x y (x'&->&Hx)%list_elem_of_fmap. unfold by_activation at 1.
    rewrite merge_sort_Permutation, <- Hperm. rewrite list_elem_of_fmap. intros (y'&->&Hy).
    rewrite <- (merge_sort_Permutation sooner) in Hy. fold (by_activation entries) in Hy. unfold sooner, ActivateAt. simpl.
    intros ? ?. assert (x' = y') as ->; [|done]. eapply (NoDup_fmap_unique ActivateAt); [exact Hdistinct|done..|].
    unfold ActivateAt. lia.
  - apply Hpub, by_activation_sorted.
  - apply Hpub, by_activation_sorted.
  - unfold by_activation. by rewrite !merge_sort_Permutation.
Qed.

(** ** Recording a key, over a store that keeps its promises *)

Section recording.
Context {V S : Type} `{IStateSpec V S} `{Document V stamp}.
Implicit Types (s : S).

Lemma attempt_runs {A} (m : M S A) s (Φ : A → S → Prop) : runs m s Φ → ∃ a s', attempt m s = (Some a, s') ∧ Φ a s'.
Proof. intros (a&s'&Hm&HΦ). exists a, s'. unfold attempt. by rewrite Hm. Qed.

Lemma entry_not_index alg alg' id : keyRingEntryKey alg id ≠ keyRingIndexKey alg'.
Proof. done. Qed.

(** What recording a key answers and leaves. *)
Lemma record_spec (r : KeyRing) now (key : SigningKey) s : 
  let entryKey := keyRingEntryKey (kr_alg r) (sk_id key) in
  (∀ v e, iv_value s entryKey = Some (v, e) → ∃ st : stamp, v = encode st) →
  ∃ st s', record r now key s = (mkEntry st (Some key), s') ∧ is_now s' = is_now s ∧
    match iv_value s entryKey with
    | Some (v, e) => v = encode st ∧ iv_value s' entryKey = Some (v, e)
    | None => iv_value s' entryKey = Some (encode st, Some (is_now s + keyRingEntryTTL)%Z) ∧
        st = mkStamp (sk_id key) (sk_public key) (sk_alg key) now
          (if bool_decide (members_in (iv_set s (keyRingIndexKey (kr_alg r))) = ∅) then now
           else (now + kc_ActivationDelay (kr_cfg r))%Z)
    end.
Proof.
  intros entryKey Hstored. unfold record. fold entryKey.
  destruct (attempt_runs (is_Members (keyRingIndexKey (kr_alg r))) s
    (λ l s1, same s s1 ∧ l ≡ₚ elements (members_in (iv_set s (keyRingIndexKey (kr_alg r))))))
    as (l&s1&->&(Hn1&Hv1&Hs1)&Hl); [by apply runs_Members|].
  set (activateAt := if bool_decide (l = []) then now else (now + kc_ActivationDelay (kr_cfg r))%Z). cbv zeta.
  assert (activateAt = if bool_decide (members_in (iv_set s (keyRingIndexKey (kr_alg r))) = ∅) then now
           else (now + kc_ActivationDelay (kr_cfg r))%Z) as Hact.
  { unfold activateAt. assert (bool_decide (l = []) = bool_decide (members_in (iv_set s (keyRingIndexKey (kr_alg r))) = ∅)) as ->; [|done].
    apply bool_decide_ext. rewrite <- leibniz_equiv_iff, <- elements_empty_iff. split.
    - intros ->. by apply Permutation_nil.
    - intros Hnil. rewrite Hnil in Hl. by apply Permutation_nil. }
  set (own := mkStamp _ _ _ now activateAt). destruct (is_SetIfAbsent_spec s1 entryKey (encode own) keyRingEntryTTL) as (s2&Hset&Hn2&Hv2&_).
  unfold attempt at 1. rewrite Hset. rewrite Hv1 in Hv2 |- *. specialize (Hv2 entryKey) as Hv2k. unfold upd in Hv2k. rewrite decide_True in Hv2k by done.
  assert (∀ st s3, is_now s3 = is_now s2 → (∀ k, iv_value s3 k = iv_value s2 k) →
    ∃ s', (let '(_, s4) := attempt (is_Add (keyRingIndexKey (kr_alg r)) (sk_id key) keyRingEntryTTL) s3 in (mkEntry st (Some key), s4)) =
      (mkEntry st (Some key), s') ∧ is_now s' = is_now s ∧ iv_value s' entryKey = iv_value s2 entryKey) as Hadd.
  { intros st s3 Hn3 Hv3. destruct (is_Add_spec s3 (keyRingIndexKey (kr_alg r)) (sk_id key) keyRingEntryTTL) as (s4&ms&Ha&Hn4&Hv4&_); [done|].
    unfold attempt. rewrite Ha. exists s4. split; [done|]. split; [congruence|]. by rewrite Hv4, Hv3. }
  destruct (iv_value s entryKey) as [[v e]|] eqn:Hv.
  - rewrite bool_decide_eq_false_2 by done. destruct (Hstored v e eq_refl) as (st&->).
    destruct (attempt_runs (getJSON entryKey) s2 (λ x s3, x = Some st ∧ same s2 s3)) as (x&s3&->&->&Hn3&Hv3&_).
    { apply (runs_getJSON _ _ _ (Some st)); [|done]. rewrite Hv2k, Hv1, Hv. by rewrite decode_encode. }
    destruct (Hadd st s3 Hn3 Hv3) as (s'&->&Hn'&Hv'). exists st, s'. split; [done|]. split; [done|]. split; [done|].
    by rewrite Hv', Hv2k, Hv1, Hv.
  - rewrite bool_decide_eq_true_2 by done. destruct (Hadd own s2 eq_refl (λ _, eq_refl)) as (s'&->&Hn'&Hv').
    exists own, s'. split; [done|]. split; [done|]. split; [|unfold own; by rewrite Hact].
    rewrite Hv', Hv2k. unfold expires_in. simpl. by rewrite Hn1.
Qed.

(** A key's schedule is decided once: the replica that records it first sets when it
    activates — at once for the installation's first key, after that replica's
    delay for any other — and every replica that records it while the record is kept
    gets that time, whatever its own clock and its own delay say. *)
Theorem record_first_writer (r1 r2 : KeyRing) (key key' : SigningKey) d s :
  kr_alg r1 = kr_alg r2 → sk_id key = sk_id key' → iv_value s (keyRingEntryKey (kr_alg r1) (sk_id key)) = None →
  (0 <= d < keyRingEntryTTL)%Z →
  let '(e1, s1) := record r1 (is_now s) key s in
  en_stamp (record r2 (is_now s1 + d) key' (is_wait s1 d)).1 = en_stamp e1 ∧
  ActivateAt e1 = if bool_decide (members_in (iv_set s (keyRingIndexKey (kr_alg r1))) = ∅) then is_now s
                  else (is_now s + kc_ActivationDelay (kr_cfg r1))%Z.
Proof.
  intros Halg Hid Hnone Hd. destruct (record_spec r1 (is_now s) key s) as (st&s1&->&Hn&Hst); [by rewrite Hnone|].
  rewrite Hnone in Hst. destruct Hst as [Hv1 Hst]. split; [|by rewrite Hst]. simpl.
  destruct (is_wait_spec s1 d) as (Hnw&Hvw&_); [lia|]. specialize (Hvw (keyRingEntryKey (kr_alg r1) (sk_id key))).
  rewrite Hv1, Hnw, Hn in Hvw. simpl in Hvw. rewrite (proj2 (Z.ltb_lt _ _)) in Hvw by lia.
  destruct (record_spec r2 (is_now s1 + d) key' (is_wait s1 d)) as (st'&s2&->&_&Hst').
  - rewrite <- Halg, <- Hid, Hvw. intros v e [= <- <-]. by exists st.
  - rewrite <- Halg, <- Hid, Hvw in Hst'. destruct Hst' as [Henc _]. simpl. apply (f_equal (decode (T := stamp))) in Henc.
    rewrite !decode_encode in Henc. congruence.
Qed.
End recording.

(** ** A ring over a store that fails *)

(** What becomes of each call: it works, it fails before it did anything, or after. *)
Inductive weather : Type := Fine | FailsBefore | FailsAfter.

Section flaky.
Context {V S : Type} `{IStateSpec V S} `{Document V stamp}.
Implicit Types (s : S).

Definition flaky {A} (m : M S A) : M (S * list weather) A := λ sw,
  let '(s, w) := sw in
  match w with
  | FailsBefore :: w => (Err Unavailable, (s, w))
  | FailsAfter :: w => (Err Unavailable, ((m s).2, w))
  | _ => ((m s).1, ((m s).2, tail w))
  end.

#[global] Instance Flaky_IState : IState V (S * list weather) := {
  is_Get key := flaky (is_Get key); is_Set key v ttl := flaky (is_Set key v ttl);
  is_SetIfAbsent key v ttl := flaky (is_SetIfAbsent key v ttl); is_Delete key := flaky (is_Delete key);
  is_Add key member ttl := flaky (is_Add key member ttl); is_Remove key member := flaky (is_Remove key member);
  is_Members key := flaky (is_Members key); is_now sw := is_now sw.1; is_wait sw d := (is_wait sw.1 d, sw.2) }.

(** The records a ring put there are records of the keys they are under. *)
Definition recorded s : Prop :=
  ∀ alg id v e st, contains_byte ":" alg = false → iv_value s (keyRingEntryKey alg id) = Some (v, e) → decode v = Some st → st_ID st = id.

Lemma recorded_same s s' : (∀ k, iv_value s' k = iv_value s k) → recorded s → recorded s'.
Proof. intros Hv Hr alg id v e st. rewrite Hv. apply Hr. Qed.

Lemma attempt_flaky {A} (m : M S A) s w (Q : A → Prop) : runs m s (λ a s', recorded s' ∧ Q a) → recorded s →
  ∃ o s' w', attempt (flaky m) (s, w) = (o, (s', w')) ∧ recorded s' ∧ ∀ a, o = Some a → Q a.
Proof.
  intros (a&s'&Hm&Hrec&HQ) Hs. unfold attempt, flaky. rewrite Hm. simpl.
  destruct w as [|[| |] w]; simpl; eexists _, _, _; (split; [done|]); split; try done; by intros ? [= <-].
Qed.

Definition ring_ok (r : KeyRing) : Prop := map_Forall (λ id e, entry_ID e = id ∧
  ∀ key, en_signer e = Some key → sk_id key = id ∧ sk_alg key = kr_alg r) (kr_entries r).

(** The entry key tells its id: no algorithm's name holds a colon. *)
Lemma entry_key_inj alg alg' id id' : contains_byte ":" alg = false → contains_byte ":" alg' = false →
  keyRingEntryKey alg id = keyRingEntryKey alg' id' → id = id'.
Proof.
  unfold keyRingEntryKey. intros Ha Ha' Heq. apply (inj (String.append _)) in Heq.
  pose proof (cut_on_app ":" alg id Ha) as H1'. pose proof (cut_on_app ":" alg' id' Ha') as H2'.
  change (":" +:+ id) with (String ":" id) in Heq. change (":" +:+ id') with (String ":" id') in Heq.
  rewrite Heq, H2' in H1'. congruence.
Qed.

Lemma recorded_put s s' alg id (st : stamp) e : contains_byte ":" alg = false → recorded s → st_ID st = id →
  (∀ k, iv_value s' k = upd (iv_value s) (keyRingEntryKey alg id) (Some (encode st, e)) k) → recorded s'.
Proof.
  intros Ha Hr Hid Hv alg' id' v e' st' Ha'. rewrite Hv. unfold upd. case_decide as Heq; [|by apply Hr].
  apply entry_key_inj in Heq as ->; [|done..]. intros [= <- <-]. rewrite decode_encode. by intros [= <-].
Qed.

Lemma recorded_dropped s s' key : recorded s → (∀ k, iv_value s' k = upd (iv_value s) key None k) → recorded s'.
Proof. intros Hr Hv alg id v e st Ha. rewrite Hv. unfold upd. case_decide; [done|]. by apply Hr. Qed.

(** Every call the ring makes leaves such records, whether it works or not. *)
Definition harmless {A} (m : M S A) : Prop := ∀ s, recorded s → runs m s (λ _ s', recorded s').

Lemma attempt_harmless {A} (m : M S A) s w : harmless m → recorded s →
  ∃ o s' w', attempt (flaky m) (s, w) = (o, (s', w')) ∧ recorded s'.
Proof.
  intros Hm Hs. destruct (attempt_flaky m s w (λ _, True)) as (o&s'&w'&?&?&_); [|done|by eauto].
  eapply runs_mono; [|by apply Hm]. done.
Qed.

Lemma harmless_Members key : harmless (is_Members key).
Proof. intros s Hs. apply runs_Members. intros l s' (_&Hv&_) _. by eapply recorded_same. Qed.
Lemma harmless_Add key member : harmless (is_Add key member keyRingEntryTTL).
Proof.
  intros s Hs. destruct (is_Add_spec s key member keyRingEntryTTL) as (s'&ms&Hrun&_&Hv&_); [done|].
  exists tt, s'. split; [done|]. by eapply recorded_same.
Qed.
Lemma harmless_Remove key member : harmless (is_Remove key member).
Proof.
  intros s Hs. destruct (is_Remove_spec s key member) as (s'&Hrun&_&Hv&_). exists tt, s'. split; [done|]. by eapply recorded_same.
Qed.
Lemma harmless_Delete key : harmless (is_Delete key).
Proof. intros s Hs. apply runs_Delete. intros s' _ Hv _. by eapply recorded_dropped. Qed.
Lemma harmless_Set alg id (st : stamp) : contains_byte ":" alg = false → st_ID st = id →
  harmless (is_Set (keyRingEntryKey alg id) (encode st) keyRingEntryTTL).
Proof. intros Ha Hid s Hs. apply runs_Set. intros s' _ Hv _. by eapply recorded_put. Qed.
Lemma harmless_SetIfAbsent alg id (st : stamp) : contains_byte ":" alg = false → st_ID st = id →
  harmless (is_SetIfAbsent (keyRingEntryKey alg id) (encode st) keyRingEntryTTL).
Proof.
  intros Ha Hid s Hs. destruct (is_SetIfAbsent_spec s (keyRingEntryKey alg id) (encode st) keyRingEntryTTL) as (s'&Hrun&_&Hv&_).
  eexists _, s'. split; [exact Hrun|]. revert Hv. destruct (iv_value s _); intros Hv; [by eapply recorded_same|by eapply recorded_put].
Qed.

Lemma flaky_getJSON s w alg id : recorded s → contains_byte ":" alg = false →
  ∃ o s' w', attempt (getJSON (keyRingEntryKey alg id)) (s, w) = (o, (s', w')) ∧ recorded s' ∧
    ∀ st : stamp, o = Some (Some st) → st_ID st = id.
Proof.
  intros Hr Ha. destruct (attempt_flaky (is_Get (keyRingEntryKey alg id)) s w
    (λ v, v = fst <$> iv_value s (keyRingEntryKey alg id))) as (o&s'&w'&Hm&Hr'&Hv); [|done|].
  { apply runs_Get. intros s' (_&Hs&_). split; [by eapply recorded_same|done]. }
  unfold attempt in *. unfold getJSON, mbind, M_bind. change (is_Get (keyRingEntryKey alg id)) with (flaky (is_Get (keyRingEntryKey alg id))).
  destruct (flaky (is_Get (keyRingEntryKey alg id)) (s, w)) as [[v|e] [s1 w1]]; injection Hm as <- <- <-; [|by eexists _, _, _].
  specialize (Hv v eq_refl). destruct v as [v|]; [|by eexists _, _, _]. destruct (decode v) as [st|] eqn:Hd; [|by eexists _, _, _].
  eexists _, _, _. split; [done|]. split; [done|]. intros st' [= <-].
  destruct (iv_value s (keyRingEntryKey alg id)) as [[v' e]|] eqn:Hs; [|done]. injection Hv as ->. by eapply Hr.
Qed.

Lemma record_flaky (r : KeyRing) now (key : SigningKey) s w : contains_byte ":" (kr_alg r) = false → recorded s →
  ∃ st s' w', record r now key (s, w) = (mkEntry st (Some key), (s', w')) ∧ recorded s' ∧ st_ID st = sk_id key.
Proof.
  intros Ha Hr. unfold record. cbn [is_Members is_SetIfAbsent is_Add Flaky_IState].
  destruct (attempt_harmless _ s w (harmless_Members (keyRingIndexKey (kr_alg r))) Hr) as (o1&s1&w1&->&Hr1). cbv zeta.
  set (own := mkStamp _ _ _ _ _).
  destruct (attempt_harmless _ s1 w1 (harmless_SetIfAbsent (kr_alg r) (sk_id key) own Ha eq_refl) Hr1) as (o2&s2&w2&->&Hr2).
  assert (∃ st s3 w3, match o2 with
    | Some false => let '(stored, s) := attempt (getJSON (keyRingEntryKey (kr_alg r) (sk_id key))) (s2, w2) in
                    (match stored with Some (Some st) => st | _ => own end, s)
    | _ => (own, (s2, w2)) end = (st, (s3, w3)) ∧ recorded s3 ∧ st_ID st = sk_id key) as (st&s3&w3&Hstored&Hr3&Hid).
  { destruct o2 as [[]|]; [by exists own, s2, w2| |by exists own, s2, w2].
    destruct (flaky_getJSON s2 w2 (kr_alg r) (sk_id key) Hr2 Ha) as (o3&s3&w3&->&Hr3&Hst).
    eexists _, s3, w3. split; [done|]. split; [done|]. destruct o3 as [[st'|]|]; [by apply Hst|done..]. }
  rewrite Hstored. destruct (attempt_harmless _ s3 w3 (harmless_Add (keyRingIndexKey (kr_alg r)) (sk_id key)) Hr3) as (o4&s4&w4&->&Hr4).
  by exists st, s4, w4.
Qed.

Lemma absorb_flaky (r : KeyRing) s w : contains_byte ":" (kr_alg r) = false → recorded s → ring_ok r →
  ∃ r' s' w', absorb r (s, w) = (r', (s', w')) ∧ recorded s' ∧ ring_ok r' ∧ kr_alg r' = kr_alg r ∧ kr_cfg r' = kr_cfg r.
Proof.
  intros Ha Hr Hok. unfold absorb. cbn [is_Members Flaky_IState].
  destruct (attempt_harmless _ s w (harmless_Members (keyRingIndexKey (kr_alg r))) Hr) as (o1&s1&w1&->&Hr1).
  destruct o1 as [ids|]; [|by exists r, s1, w1]. clear s w Hr. unfold ring_ok in Hok. revert Hok Hr1. generalize (kr_entries r) as entries.
  revert s1 w1. induction ids as [|id ids IH]; intros s1 w1 entries Hok Hr1; simpl; [by eexists _, _, _|].
  destruct (entries !! id) eqn:Hid; [by apply IH|].
  destruct (flaky_getJSON s1 w1 (kr_alg r) id Hr1 Ha) as (o&s2&w2&->&Hr2&Hst). apply IH; [|done].
  destruct o as [[st|]|]; [|done..]. apply map_Forall_insert_2; [|done]. split; [by apply Hst|done].
Qed.

Lemma refresh_flaky (r : KeyRing) s w : contains_byte ":" (kr_alg r) = false → recorded s → ring_ok r →
  ∃ s' w', refresh r (s, w) = (s', w') ∧ recorded s'.
Proof.
  intros Ha Hr Hok. unfold refresh. cbn [is_Set is_Add Flaky_IState].
  assert (Forall (λ kv : string * ringEntry, entry_ID kv.2 = kv.1) (map_to_list (kr_entries r))) as Hids.
  { apply Forall_forall. intros [id e] He%elem_of_map_to_list. by apply (Hok _ _ He). }
  revert s w Hr. induction Hids as [|[id e] l Hid Hl IH]; intros s w Hr; simpl in *; [by eexists _, _|].
  destruct (attempt_harmless _ s w (harmless_Set _ _ (en_stamp e) Ha Hid) Hr) as (o1&s1&w1&->&Hr1).
  destruct (attempt_harmless _ s1 w1 (harmless_Add (keyRingIndexKey (kr_alg r)) id) Hr1) as (o2&s2&w2&->&Hr2). by apply IH.
Qed.

(** What a pass over the entries decides: the published are those kept. *)
Lemma recompute_flaky (r : KeyRing) now s w : recorded s → ring_ok r →
  ∃ r' s' w', recompute r now (s, w) = (r', (s', w')) ∧ recorded s' ∧ ring_ok r' ∧ kr_alg r' = kr_alg r ∧ kr_cfg r' = kr_cfg r ∧
    (∀ id e, kr_entries r' !! id = Some e → id ∈ kr_published r') ∧
    (∀ e, kr_activeID r' ≠ "" → kr_entries r' !! kr_activeID r' = Some e → (ActivateAt e <= now)%Z).
Proof.
  intros Hr Hok. unfold recompute. cbn [is_Delete is_Remove Flaky_IState].
  set (all := by_activation (kr_entries r)). set (o := schedule_of _ _ _).
  match goal with |- context [foldl ?f (s, w) ?l] => assert (∃ s' w', foldl f (s, w) l = (s', w') ∧ recorded s') as (s'&w'&->&Hr') end.
  { generalize (List.filter (λ id, bool_decide (id ∈ oc_retired o)) (sorted_keys (kr_entries r))) as gone. intros gone.
    revert s w Hr. induction gone as [|id gone IH]; intros s w Hr; simpl; [by eexists _, _|].
    destruct (attempt_harmless _ s w (harmless_Delete (keyRingEntryKey (kr_alg r) id)) Hr) as (o1&s1&w1&->&Hr1).
    destruct (attempt_harmless _ s1 w1 (harmless_Remove (keyRingIndexKey (kr_alg r)) id) Hr1) as (o2&s2&w2&->&Hr2). by apply IH. }
  eexists _, s', w'. split; [done|]. split; [done|]. unfold ring_ok. simpl. split_and!; [|done|done|..].
  - intros id e [He _]%map_lookup_filter_Some. by apply (Hok _ _ He).
  - intros id e [He Hkept]%map_lookup_filter_Some. simpl in Hkept.
    destruct (proj2 (published_or_retired (kc_Overlap (kr_cfg r)) all now id)) as [Hp|Hp]; [|done..].
    exists e. split; [|by apply (Hok _ _ He)]. apply elem_of_by_activation. eauto.
  - intros e Hsome [He _]%map_lookup_filter_Some. unfold o in He, Hsome. rewrite active_last in He, Hsome.
    destruct (last (activated now all)) as [x|] eqn:Hx; simpl in He, Hsome; [|done].
    destruct (last_latest all (by_activation_sorted _) now x Hx) as (Hin&Hle&_).
    apply elem_of_by_activation in Hin as (id&Hid). pose proof (proj1 (Hok _ _ Hid)) as Heq. rewrite Heq, Hid in He. by injection He as ->.
Qed.

(** What a ring is between two observations. *)
Record settled (r : KeyRing) : Prop := {
  se_ok : ring_ok r; se_alg : contains_byte ":" (kr_alg r) = false;
  se_published : ∀ id e, kr_entries r !! id = Some e → id ∈ kr_published r }.

Lemma Observe_settled (r r' : KeyRing) key sw sw' : settled r → recorded sw.1 → Observe r key sw = (Ok r', sw') →
  settled r' ∧ recorded sw'.1 ∧ kr_alg r' = kr_alg r ∧ kr_cfg r' = kr_cfg r ∧
  (∀ e, kr_activeID r' ≠ "" → kr_entries r' !! kr_activeID r' = Some e → (ActivateAt e <= is_now sw)%Z).
Proof.
  destruct sw as [s w]. intros [Hok Ha Hpub] Hr. simpl in Hr. unfold Observe. destruct key as [key|]; [|done].
  case_bool_decide as Halg; cbn [negb]; [|done]. cbv zeta. change (is_now (s, w)) with (is_now s).
  assert (∃ r1 s1 w1, match kr_entries r !! sk_id key with
    | Some existing => (with_entries r (<[sk_id key := mkEntry (en_stamp existing) (Some key)]> (kr_entries r)), (s, w))
    | None => let '(e, sw) := record r (is_now s) key (s, w) in (with_entries r (<[sk_id key := e]> (kr_entries r)), sw)
    end = (r1, (s1, w1)) ∧ recorded s1 ∧ ring_ok r1 ∧ kr_alg r1 = kr_alg r ∧ kr_cfg r1 = kr_cfg r) as (r1&s1&w1&->&Hr1&Hok1&Ha1&Hc1).
  { destruct (kr_entries r !! sk_id key) as [e|] eqn:He.
    - eexists _, s, w. split; [done|]. split_and!; [done| |done..]. apply map_Forall_insert_2; [|done].
      split; [by apply (Hok _ _ He)|]. by intros ? [= <-].
    - destruct (record_flaky r (is_now s) key s w Ha Hr) as (st&s1&w1&->&Hr1&Hid). eexists _, s1, w1. split; [done|].
      split_and!; [done| |done..]. apply map_Forall_insert_2; [|done]. split; [done|]. by intros ? [= <-]. }
  destruct (absorb_flaky r1 s1 w1) as (r2&s2&w2&->&Hr2&Hok2&Ha2&Hc2); [by rewrite Ha1|done..|].
  destruct (refresh_flaky r2 s2 w2) as (s3&w3&->&Hr3); [by rewrite Ha2, Ha1|done..|].
  destruct (recompute_flaky r2 (is_now s) s3 w3 Hr3 Hok2) as (r4&s4&w4&->&Hr4&Hok4&Ha4&Hc4&Hpub4&Hact4).
  intros [= <- <-]. split_and!; [split; [done|congruence|done]|done|congruence|congruence|done].
Qed.
End flaky.

Lemma newest_own_holds (entries : gmap string ringEntry) e : newest_own entries = Some e →
  ∃ id key, entries !! id = Some e ∧ en_signer e = Some key.
Proof.
  unfold newest_own. assert (∀ l best, (∀ b, best = Some b → ∃ id key, entries !! id = Some b ∧ en_signer b = Some key) →
    ∀ b, foldl (λ best id, match entries !! id with
      | Some e => match en_signer e, best with None, _ => best | Some _, None => Some e
                  | Some _, Some b => if (ActivateAt b <? ActivateAt e)%Z then Some e else best end
      | None => best end) best l = Some b → ∃ id key, entries !! id = Some b ∧ en_signer b = Some key) as Hl; [|by apply Hl].
  induction l as [|id l IH]; intros best Hbest; simpl; [done|]. apply IH.
  destruct (entries !! id) as [x|] eqn:Hx; [|done]. destruct (en_signer x) as [key|] eqn:Hk; [|done].
  assert (∃ id key, entries !! id = Some x ∧ en_signer x = Some key) by eauto.
  destruct best as [b'|]; [destruct (ActivateAt b' <? ActivateAt x)%Z|]; intros b; [intros [= <-]|by apply Hbest|intros [= <-]]; done.
Qed.

(** What happens to a ring: observations, settings, time. *)
Inductive ring_run {V S} `{IState V S} `{Document V stamp} : KeyRing → S → KeyRing → S → Prop :=
| run_here r s : ring_run r s r s
| run_observe r s r1 s1 r2 s2 key : ring_run r s r1 s1 → Observe r1 key s1 = (Ok r2, s2) → ring_run r s r2 s2
| run_configure r s r1 s1 c : ring_run r s r1 s1 → ring_run r s (KeyRing_Configure r1 c) s1
| run_wait r s r1 s1 d : (0 <= d)%Z → ring_run r s r1 s1 → ring_run r s r1 (is_wait s1 d).

Section invariant.
Context {V S : Type} `{IStateSpec V S} `{Document V stamp}.

Lemma recorded_wait (s : S) d : (0 <= d)%Z → recorded s → recorded (is_wait s d).
Proof.
  intros Hd Hr alg id v e st Ha. destruct (is_wait_spec s d Hd) as (_&Hv&_). rewrite Hv.
  destruct (iv_value s (keyRingEntryKey alg id)) as [[v' e']|] eqn:Hk; [|done]. destruct (alive _ e'); [|done].
  intros [= <- <-]. by eapply Hr.
Qed.

(** A replica never signs with a key it does not publish: whatever fails on the way,
    after any observations the key [Active] answers is one of the published, and it
    is a key of the ring's algorithm. *)
Theorem Active_is_published alg c (r : KeyRing) (sw sw' : S * list weather) key : contains_byte ":" alg = false →
  (∀ k, iv_value sw.1 k = None) → ring_run (NewKeyRing alg c) sw r sw' → Active r = Some key →
  sk_id key ∈ kr_published r ∧ sk_alg key = alg.
Proof.
  intros Ha Hblank Hrun. assert (settled r ∧ recorded sw'.1 ∧ kr_alg r = alg) as (Hs&_&Halg).
  { remember (NewKeyRing alg c) as r0. induction Hrun as [|r0 s r1 s1 r2 s2 k Hrun IH HO|r0 s r1 s1 c' Hrun IH|r0 s r1 s1 d Hd Hrun IH]; subst.
    - split; [|split; [|done]].
      + split; [apply map_Forall_empty|done|]. simpl. intros id e. by rewrite lookup_empty.
      + intros alg' id v e st _. by rewrite Hblank.
    - destruct (IH Hblank eq_refl) as (Hs&Hr&Halg). destruct (Observe_settled _ _ _ _ _ Hs Hr HO) as (?&?&?&_). split_and!; [done..|congruence].
    - destruct (IH Hblank eq_refl) as ([Hok Hc Hp]&Hr&Halg). by split; [split|].
    - destruct (IH Hblank eq_refl) as (Hs&Hr&Halg). split_and!; [done|by apply recorded_wait|done]. }
  destruct Hs as [Hok _ Hpub]. unfold Active. destruct (kr_entries r !! kr_activeID r) as [e|] eqn:He; simpl.
  - destruct (en_signer e) as [k|] eqn:Hk.
    + intros [= <-]. destruct (proj2 (Hok _ _ He) k Hk) as [-> ->]. split; [by eapply Hpub|done].
    + destruct (newest_own (kr_entries r)) as [b|] eqn:Hb; simpl; [|done]. apply newest_own_holds in Hb as (id&k&Hid&Hk').
      rewrite Hk'. intros [= <-]. destruct (proj2 (Hok _ _ Hid) k Hk') as [-> ->]. split; [by eapply Hpub|done].
  - destruct (newest_own (kr_entries r)) as [b|] eqn:Hb; simpl; [|done]. apply newest_own_holds in Hb as (id&k&Hid&Hk').
    rewrite Hk'. intros [= <-]. destruct (proj2 (Hok _ _ Hid) k Hk') as [-> ->]. split; [by eapply Hpub|done].
Qed.
End invariant.

(** ** One ring per algorithm, over any store *)

Section rings.
Context {V S : Type} `{IState V S} `{Document V stamp}.
Implicit Types (s : S).

Lemma Observe_answers (r : KeyRing) (key : SigningKey) s : sk_alg key = kr_alg r →
  ∃ r' s', Observe r (Some key) s = (Ok r', s') ∧ kr_alg r' = kr_alg r.
Proof.
  intros Halg. unfold Observe. rewrite bool_decide_eq_true_2 by done. cbn [negb]. cbv zeta.
  assert (∃ r1 s1, match kr_entries r !! sk_id key with
    | Some existing => (with_entries r (<[sk_id key := mkEntry (en_stamp existing) (Some key)]> (kr_entries r)), s)
    | None => let '(e, s) := record r (is_now s) key s in (with_entries r (<[sk_id key := e]> (kr_entries r)), s)
    end = (r1, s1) ∧ kr_alg r1 = kr_alg r) as (r1&s1&->&Ha1).
  { destruct (kr_entries r !! sk_id key); [by eexists _, _|]. destruct (record r _ key s). by eexists _, _. }
  destruct (absorb r1 s1) as [r2 s2] eqn:Hab. assert (kr_alg r2 = kr_alg r1) as Ha2.
  { revert Hab. unfold absorb. destruct (attempt _ s1) as [[ids|] s']; [|by intros [= <- _]].
    destruct (absorb_ids _ ids _ s') as [entries s'']. by intros [= <- _]. }
  unfold recompute. eexists _, _. split; [done|]. simpl. congruence.
Qed.

Definition algorithms (keys : list (option SigningKey)) : list string := sk_alg <$> omap id keys.

Lemma add_rings_spec c keys rings s :
  match (add_rings c keys rings s).1 with
  | Ok rings' => NoDup (algorithms keys) ∧ (∀ alg, alg ∈ algorithms keys → rings !! alg = None) ∧
      (∀ alg, is_Some (rings' !! alg) ↔ is_Some (rings !! alg) ∨ alg ∈ algorithms keys) ∧
      ((∀ alg r, rings !! alg = Some r → kr_alg r = alg) → ∀ alg r, rings' !! alg = Some r → kr_alg r = alg)
  | Err e => ∃ alg, e = TwoKeys alg ∧ alg ∈ algorithms keys ∧ (¬ NoDup (algorithms keys) ∨ is_Some (rings !! alg))
  end.
Proof.
  revert rings s. induction keys as [|[key|] keys IH]; intros rings s; cbn [add_rings]; [..|by apply IH].
  { simpl. split_and!; [constructor|by intros ? ?%elem_of_nil| |done]. intros alg. rewrite elem_of_nil. naive_solver. }
  change (algorithms (Some key :: keys)) with (sk_alg key :: algorithms keys).
  cbv zeta. destruct (rings !! sk_alg key) as [r|] eqn:Hr.
  { exists (sk_alg key). split; [done|]. split; [left|]. right. eauto. }
  destruct (Observe_answers (NewKeyRing (sk_alg key) c) key s eq_refl) as (r'&s'&->&Halg). simpl in Halg.
  specialize (IH (<[sk_alg key := r']> rings) s'). destruct (add_rings c keys _ s') as [[rings'|e] s2]; simpl in *.
  - destruct IH as (Hdup&Hfree&Hdom&Hok). split_and!.
    + constructor; [|done]. intros Hin. specialize (Hfree _ Hin). by rewrite lookup_insert_eq in Hfree.
    + intros alg [->|Hin]%elem_of_cons; [done|]. specialize (Hfree _ Hin). apply lookup_insert_None in Hfree as [? _]. done.
    + intros alg. rewrite Hdom, elem_of_cons, lookup_insert_is_Some'. naive_solver.
    + intros Hold. apply Hok. intros alg r. rewrite lookup_insert_Some. intros [[<- <-]|[_ ?]]; [done|by apply Hold].
  - destruct IH as (alg&->&Hin&Hwhy). exists alg. split; [done|]. split; [by right|].
    destruct Hwhy as [Hdup|Hsome]; [left; by intros [_ ?]%NoDup_cons|]. rewrite lookup_insert_is_Some' in Hsome.
    destruct Hsome as [->|?]; [left; by intros [? _]%NoDup_cons|by right].
Qed.

(** An installation has one ring for each algorithm among its keys, and is refused when
    two keys share one: what is refused is exactly that. *)
Theorem NewKeyRings_one_per_algorithm primary additional c s :
  match (NewKeyRings (Some primary) additional c s).1 with
  | Ok k => NoDup (algorithms (Some primary :: additional)) ∧ KeyRings_Default k = sk_alg primary ∧
      (∀ alg, KeyRings_Has k alg = true ↔ alg ∈ algorithms (Some primary :: additional)) ∧
      (∀ alg r, ks_rings k !! alg = Some r → kr_alg r = alg)
  | Err e => ∃ alg, e = TwoKeys alg ∧ ¬ NoDup (algorithms (Some primary :: additional))
  end.
Proof.
  unfold NewKeyRings. pose proof (add_rings_spec c (Some primary :: additional) ∅ s) as Hspec.
  destruct (add_rings c (Some primary :: additional) ∅ s) as [[rings|e] s']; simpl in *.
  - destruct Hspec as (Hdup&_&Hdom&Hok). split; [done|]. split; [done|]. split; [|by apply Hok; intros ? ? ?%lookup_empty_Some].
    intros alg. unfold KeyRings_Has. rewrite bool_decide_eq_true, Hdom, lookup_empty. rewrite is_Some_alt. naive_solver.
  - destruct Hspec as (alg&->&_&[Hdup|[? Hsome]]); [by exists alg|]. by rewrite lookup_empty in Hsome.
Qed.
End rings.

(** ** Three runs, and witnesses *)

Notation store := (@MemoryState (string + stamp)) (only parsing).

Definition key1 : SigningKey := mkSigningKey "k1" "RS256" "public1".
Definition key2 : SigningKey := mkSigningKey "k2" "RS256" "public2".
Definition ring0 : KeyRing := NewKeyRing "RS256" (mkKeyRingConfig 0 0).
Definition observed (r : KeyRing) (key : SigningKey) (s : store) : KeyRing * store :=
  match Observe r (Some key) s with (Ok r', s') => (r', s') | (Err _, s') => (r, s') end.

(** Replica A has the installation's first key; an hour later its file has the second. *)
Definition first_hour : KeyRing * store := observed ring0 key1 (NewMemoryState 1).
Definition rotated : KeyRing * store := observed first_hour.1 key2 (is_wait first_hour.2 (60 * minute)).

(** A replica that restarts with the new file alone signs with the new key before the
    key's activation time: it holds no other. *)
Theorem restarted_replica_signs_early :
  let '(a, s) := rotated in let '(b, s) := observed ring0 key2 s in
  Active a = Some key1 ∧ Active b = Some key2 ∧ kr_activeID b = "k1" ∧
  option_map ActivateAt (kr_entries b !! "k2") = Some (is_now s + DefaultKeyActivationDelay)%Z.
Proof. vm_compute. split_and!; reflexivity. Qed.

(** A replica whose file is a key that was superseded longer ago than the overlap has
    nothing to sign with after it observed it. *)
Theorem superseded_file_leaves_no_key :
  let s := is_wait rotated.2 (DefaultKeyActivationDelay + DefaultKeyOverlap + 1) in
  match Observe ring0 (Some key1) s with (Ok b, _) => Active b = None ∧ kr_activeID b = "k2" | _ => False end.
Proof. vm_compute. split; reflexivity. Qed.

(** A retired key that a replica still reads from its file is recorded anew, with a new
    activation time, and supersedes the key that superseded it. *)
Theorem retired_key_comes_back :
  let '(a, s) := rotated in
  let '(a, s) := observed a key2 (is_wait s (DefaultKeyActivationDelay + DefaultKeyOverlap + 1)) in
  let '(b, s) := observed ring0 key1 s in
  let '(a', s) := observed a key2 (is_wait s DefaultKeyActivationDelay) in
  kr_activeID a = "k2" ∧ kr_entries a !! "k1" = None ∧ kr_activeID a' = "k1".
Proof. vm_compute. split_and!; reflexivity. Qed.

Definition waiting_entry : ringEntry := mkEntry (mkStamp "k2" "public2" "RS256" 5 20) None.
Definition old_entry : ringEntry := mkEntry (mkStamp "k1" "public1" "RS256" 0 0) None.
Definition twin_entry : ringEntry := mkEntry (mkStamp "k2" "public2" "RS256" 0 0) None.

(** Two keys that activate at one moment are sorted by that moment alone, from a map that is
    read in any order: one replica signs with the second and retires the first, and one that
    reads them the other way signs with the first and, an overlap later, publishes no second. *)
Example tied_keys_part :
  StronglySorted sooner [old_entry; twin_entry] ∧ StronglySorted sooner [twin_entry; old_entry] ∧
  oc_active (schedule_of 100 50 [old_entry; twin_entry]) = "k2" ∧ oc_active (schedule_of 100 50 [twin_entry; old_entry]) = "k1" ∧
  "k2" ∉ oc_published (schedule_of 100 50 [twin_entry; old_entry]).
Proof.
  split_and!; [repeat constructor; unfold sooner; vm_compute; discriminate..|reflexivity|reflexivity|].
  apply (bool_decide_unpack _). vm_compute. exact I.
Qed.

Lemma active_key_stays_published_witness :
  entry_ID old_entry ∈ oc_published (schedule_of (10 + 40) 40 [old_entry; waiting_entry]).
Proof.
  apply (active_key_stays_published 10 (10 + 40) 40 [old_entry] [old_entry; waiting_entry] old_entry).
  - repeat constructor.
  - apply Sorted_StronglySorted; [intros ? ? ?; unfold sooner; lia|]. repeat constructor. unfold sooner. vm_compute. discriminate.
  - apply (NoDup_fmap_1 ActivateAt), (bool_decide_unpack _). vm_compute. exact I.
  - intros x [->|Hx]%elem_of_cons Hat; [reflexivity|]. apply list_elem_of_singleton in Hx as ->. vm_compute in Hat. discriminate.
  - reflexivity.
  - left.
  - intros x Hx. apply elem_of_cons in Hx as [->|Hx]; [left; left|right]. apply list_elem_of_singleton in Hx as ->. reflexivity.
  - lia.
Defined.

Lemma replicas_agree_witness :
  schedule_of 30 40 (by_activation {["k1" := old_entry; "k2" := waiting_entry]}) =
  schedule_of 30 40 (by_activation {["k1" := old_entry; "k2" := mkEntry (en_stamp waiting_entry) (Some key2)]}).
Proof.
  apply replicas_agree.
  - intros id. destruct (decide (id = "k1")) as [->|]; [reflexivity|]. destruct (decide (id = "k2")) as [->|]; [reflexivity|].
    rewrite !lookup_insert_ne, !lookup_singleton_ne by congruence. reflexivity.
  - apply (bool_decide_unpack _). vm_compute. exact I.
Defined.

Lemma record_first_writer_witness :
  let '(e1, s1) := record first_hour.1 (is_now first_hour.2) key2 first_hour.2 in
  en_stamp (record (NewKeyRing "RS256" (mkKeyRingConfig 7 7)) (is_now s1 + 1) key2 (is_wait s1 1)).1 = en_stamp e1 ∧
  ActivateAt e1 = (is_now first_hour.2 + DefaultKeyActivationDelay)%Z.
Proof.
  pose proof (record_first_writer (S := store) first_hour.1 (NewKeyRing "RS256" (mkKeyRingConfig 7 7)) key2 key2 1 first_hour.2
    eq_refl eq_refl eq_refl (conj (Z.le_0_1 : (0 <= 1)%Z) eq_refl)) as Hfirst.
  destruct (record first_hour.1 (is_now first_hour.2) key2 first_hour.2) as [e1 s1]. destruct Hfirst as [Hsame Hact].
  split; [exact Hsame|rewrite Hact; vm_compute; reflexivity].
Defined.

Lemma Active_is_published_witness :
  match Observe ring0 (Some key1) (NewMemoryState 1 : store, [FailsBefore; FailsAfter]) with
  | (Ok r, _) => "k1" ∈ kr_published r ∧ Active r = Some key1 | _ => False end.
Proof.
  destruct (Observe ring0 (Some key1) (NewMemoryState 1 : store, [FailsBefore; FailsAfter])) as [[r|e] sw] eqn:HO;
    [|vm_compute in HO; discriminate HO].
  assert (Active r = Some key1) as Hact by (vm_compute in HO; injection HO as <- <-; vm_compute; reflexivity).
  split; [|exact Hact].
  apply (Active_is_published (S := store) "RS256" (mkKeyRingConfig 0 0) r (NewMemoryState 1, [FailsBefore; FailsAfter]) sw key1);
    [reflexivity| |eapply run_observe; [apply run_here|exact HO]|exact Hact].
  intros k. unfold iv_value. simpl. unfold shown_value. simpl. rewrite lookup_empty. reflexivity.
Defined.
