(* ===== verification/SSO.v ===== *)
(** * SSO: the browser's sign-in with the issuer

    [internal/issuer/sso.go]: the records of who authenticated in which browser and
    when, the sets that find them, the clients each was used at, and what ends them,
    over any store that keeps the promises of [IStateSpec].  The cookie is left out:
    a browser presents an id.

    The theorems: a sign-in answers for exactly its lifetime; an ended one answers
    no more; signing a person out everywhere leaves no sign-in of theirs; a listing
    misses none.  The last one shows what the in-memory store keeps of an ended
    sign-in. *)

From S2P Require Import Prelude GoStrings Port IssuerState.

Implicit Types (id identity clientID how : string) (now : Z).

(** [internal/issuer/sso.go:type SSOSession] *)
Record SSOSession := mkSSO { so_ID : string; so_Identity : string; so_How : string; so_AuthTime : Z; so_ExpiresAt : Z }.

(** [internal/issuer/sso.go:SSOSession.Live] *)
Definition SSOSession_Live (x : SSOSession) now : bool := (now <? so_ExpiresAt x)%Z.

(** [internal/issuer/sso.go:SSOSession.Fresh] *)
Definition Fresh (x : SSOSession) now (within : Z) : bool := (within <=? 0)%Z || (now - so_AuthTime x <=? within)%Z.

(** [internal/issuer/sso.go:NewSSO]: how long a browser stays signed in. *)
Definition NewSSO (lifetime : Z) : Z := if (lifetime <=? 0)%Z then 12 * 3600 * 1000000000 else lifetime.

(** [internal/issuer/sso.go:ssoKey] *)
Definition ssoKey id : string := "issuer:sso:" +:+ id.
(** [internal/issuer/sso.go:ssoClientsKey] *)
Definition ssoClientsKey id : string := "issuer:sso-clients:" +:+ id.
(** [internal/issuer/sso.go:ssoOfKey] *)
Definition ssoOfKey identity : string := "issuer:sso-of:" +:+ ToLower identity.
(** [internal/issuer/sso.go:98-101 ssoAllKey] *)
Definition ssoAllKey : string := "issuer:sso".

Definition sso_indexes (x : SSOSession) : list string := [ssoAllKey; ssoOfKey (so_Identity x)].
Definition later_authenticated (a b : SSOSession) : Prop := (so_AuthTime b <= so_AuthTime a)%Z.
#[export] Instance later_authenticated_dec a b : Decision (later_authenticated a b).
Proof. unfold later_authenticated. apply _. Defined.

Section operations.
Context {V S : Type} `{IState V S} `{Document V SSOSession}.
Context (lifetime : Z).

(** [internal/issuer/sso.go:SSO.Involve] *)
Definition Involve id clientID : M S unit :=
  if empty id || empty clientID then mret tt else is_Add (ssoClientsKey id) clientID lifetime.

(** [internal/issuer/sso.go:SSO.Involved] *)
Definition Involved id : M S (list string) := is_Members (ssoClientsKey id).

(** [internal/issuer/sso.go:SSO.Begin]; [id] is what [newID] gives. *)
Definition Begin identity how id : M S SSOSession :=
  now ← moment;
  let session := mkSSO id (ToLower (TrimSpace identity)) how now (now + lifetime) in
  setJSON (ssoKey id) session lifetime ;;
  each (λ key, is_Add key id lifetime) (sso_indexes session) ;;
  mret session.

(** [internal/issuer/sso.go:SSO.Get] *)
Definition SSO_Get id : M S (option SSOSession) :=
  if empty id then mret None
  else
    found ← getJSON (ssoKey id);
    match found with
    | None => mret None
    | Some x => now ← moment; mret (if SSOSession_Live x now then Some x else None)
    end.

(** [internal/issuer/sso.go:SSO.End] *)
Definition End_ id : M S unit :=
  found ← SSO_Get id;
  match found with Some x => each (λ key, is_Remove key id) (sso_indexes x) | None => mret tt end ;;
  is_Delete (ssoClientsKey id) ;;
  is_Delete (ssoKey id).

(** [internal/issuer/sso.go:257-273 SSO.EndFor]: one by one, counting. *)
Fixpoint end_all (key : string) (ids : list string) (ended : nat) : M S nat :=
  match ids with
  | [] => mret ended
  | id :: rest =>
      is_Delete (ssoClientsKey id) ;; is_Delete (ssoKey id) ;; is_Remove key id ;; end_all key rest (Datatypes.S ended)
  end.

(** [internal/issuer/sso.go:SSO.EndFor] *)
Definition EndFor identity : M S nat := ids ← is_Members (ssoOfKey identity); end_all (ssoOfKey identity) ids 0.

(** [internal/issuer/sso.go:132-157 SSO.list]: the ids one by one. *)
Fixpoint list_ids (key identity : string) (contains : bool) (ids : list string) : M S (list SSOSession) :=
  match ids with
  | [] => mret []
  | id :: rest =>
      found ← SSO_Get id;
      match found with
      | None => is_Remove key id ;; list_ids key identity contains rest
      | Some x =>
          out ← list_ids key identity contains rest;
          mret (if contains && negb (Contains (ToLower (so_Identity x)) identity) then out else x :: out)
      end
  end.

(** [internal/issuer/sso.go:SSO.list] *)
Definition SSO_list identity (contains : bool) : M S (list SSOSession) :=
  let identity := ToLower (TrimSpace identity) in
  let key := if negb (empty identity) && negb contains then ssoOfKey identity else ssoAllKey in
  ids ← is_Members key;
  out ← list_ids key identity contains ids;
  mret (merge_sort later_authenticated out).

(** [internal/issuer/sso.go:SSO.List] *)
Definition SSO_List identity : M S (list SSOSession) := SSO_list identity false.

(** [internal/issuer/sso.go:SSO.Like] *)
Definition SSO_Like part : M S (list SSOSession) := SSO_list part true.
End operations.

(** ** What holds of a store of sign-ins *)

Section sign_ins.
Context {V S : Type} `{IStateSpec V S} `{Document V SSOSession}.
Context (lifetime : Z) (Hlife : (0 < lifetime)%Z).
Implicit Types (s : S).

Definition sign_in_at s id (x : SSOSession) : Prop :=
  iv_value s (ssoKey id) = Some (encode x, Some (so_ExpiresAt x)) ∧ so_ID x = id ∧
  ToLower (so_Identity x) = so_Identity x ∧ (is_now s < so_ExpiresAt x <= is_now s + lifetime)%Z ∧
  Forall (λ key, ∃ ms t, iv_set s key = Some (ms, Some t) ∧ id ∈ ms ∧ (so_ExpiresAt x <= t)%Z) (sso_indexes x).

(** Every record is a sign-in that every set it is found by shows. *)
Definition indexed s : Prop := ∀ id v e, iv_value s (ssoKey id) = Some (v, e) → id ≠ "" ∧ ∃ x, sign_in_at s id x.

Lemma ssoKey_inj id id' : ssoKey id = ssoKey id' → id = id'.
Proof. apply (inj (String.append _)). Qed.
Lemma sso_index_not_record (x : SSOSession) key id : key ∈ sso_indexes x → key ≠ ssoKey id ∧ key ≠ ssoClientsKey id.
Proof. unfold sso_indexes. rewrite !elem_of_cons, elem_of_nil. by intros [->|[->|[]]]. Qed.

Lemma sign_in_same s s' id (x : SSOSession) : same s s' → sign_in_at s id x → sign_in_at s' id x.
Proof.
  intros (Hn&Hv&Hs) (?&?&?&?&Hsets). unfold sign_in_at. rewrite Hv, Hn. split_and!; try (done || lia).
  eapply Forall_impl; [exact Hsets|]. intros key (ms&t&?&?&?). exists ms, t. by rewrite Hs.
Qed.

Lemma indexed_same s s' : same s s' → indexed s → indexed s'.
Proof.
  intros Hs Hi id v e Hx. pose proof Hs as (_&Hv&_). rewrite Hv in Hx. destruct (Hi id v e Hx) as (Hid&x&Hx').
  split; [done|]. exists x. by eapply sign_in_same.
Qed.

Lemma sign_in_unique s id (x y : SSOSession) : sign_in_at s id x → sign_in_at s id y → x = y.
Proof. intros (Hx&_) (Hy&_). rewrite Hx in Hy. injection Hy as Heq _. apply (f_equal (decode (T := SSOSession))) in Heq. rewrite !decode_encode in Heq. congruence. Qed.

(** What reading an id answers. *)
Lemma run_Get s id Φ : indexed s →
  (∀ o s', same s s' → (∀ x, o = Some x ↔ sign_in_at s id x) → (o = None ↔ iv_value s (ssoKey id) = None) → Φ o s') →
  runs (SSO_Get id) s Φ.
Proof.
  intros Hi HΦ. unfold SSO_Get. destruct (empty id) eqn:Hid.
  { apply empty_true in Hid. subst id. assert (iv_value s (ssoKey "") = None) as Hv.
    { destruct (iv_value s (ssoKey "")) as [[v e]|] eqn:Hv; [|done]. by destruct (Hi "" v e Hv). }
    apply runs_ret, HΦ; [done| |done]. intros x. split; [done|]. intros (Hx&_). congruence. }
  apply runs_bind.
  destruct (iv_value s (ssoKey id)) as [[v e]|] eqn:Hv.
  - destruct (Hi id v e Hv) as (_&x&Hx). pose proof Hx as (Hx1&_&_&Hx2&_). apply (runs_getJSON _ _ _ (Some x)).
    { rewrite Hx1. by rewrite decode_encode. }
    intros s' Hs. apply runs_bind, runs_moment, runs_ret. unfold SSOSession_Live. rewrite (proj1 Hs), (proj2 (Z.ltb_lt _ _)) by lia.
    apply HΦ; [done| |done]. intros y. split; [by intros [= <-]|]. intros Hy. f_equal. by eapply sign_in_unique.
  - apply (runs_getJSON _ _ _ None); [by rewrite Hv|]. intros s' Hs. apply runs_ret, HΦ; [done| |done].
    intros y. split; [done|]. intros (Hy&_). congruence.
Qed.

(** A sign-in answers for exactly its lifetime, with the moment it authenticated, and
    the sets show it for as long. *)
Theorem Begin_lives_its_lifetime s identity how id d : indexed s → id ≠ "" → (0 <= d)%Z →
  let x := mkSSO id (ToLower (TrimSpace identity)) how (is_now s) (is_now s + lifetime) in
  (Begin lifetime identity how id s).1 = Ok x ∧
  let later := is_wait (Begin lifetime identity how id s).2 d in
  indexed later ∧ (SSO_Get id later).1 = Ok (if (d <? lifetime)%Z then Some x else None).
Proof.
  intros Hi Hid Hd x.
  assert (runs (Begin lifetime identity how id) s (λ y s', y = x ∧ is_now s' = is_now s ∧ indexed s' ∧ sign_in_at s' id x)) as
    (y&s'&Hrun&->&Hn'&Hi'&Hx').
  { apply runs_bind, runs_moment, runs_bind, runs_Set. intros s1 Hn1 Hv1 Hs1. apply runs_bind.
    apply (runs_adds (sso_indexes x) id); [done|]. intros s2 Hn2 Hv2 Hout Hin. apply runs_ret.
    assert (∀ k, iv_value s2 k = upd (iv_value s) (ssoKey id) (Some (encode x, Some (is_now s + lifetime)%Z)) k) as Hv.
    { intros k. rewrite Hv2, Hv1. unfold expires_in. by rewrite (proj2 (Z.leb_gt _ _)). }
    assert (is_now s2 = is_now s) as Hn by congruence.
    assert (sign_in_at s2 id x) as Hx.
    { unfold sign_in_at. rewrite Hv, Hn. unfold upd. rewrite decide_True by done. simpl. split_and!; [done|done|apply ToLower_idem|lia..|].
      apply Forall_forall. intros key Hkey. destruct (Hin key Hkey) as (ms&Hk&Hsub). eexists ms, _. split; [exact Hk|].
      rewrite Hn1. split; [set_solver|lia]. }
    split; [done|]. split; [done|]. split; [|done]. intros id' v e. rewrite Hv. unfold upd. case_decide as Heq; [apply ssoKey_inj in Heq as ->; eauto|].
    intros Hold. destruct (Hi id' v e Hold) as (Hne&y&Hy&?&?&?&Hsets). split; [done|]. exists y. unfold sign_in_at. rewrite Hv, Hn. unfold upd. rewrite decide_False by done.
    split_and!; try (done || lia). eapply Forall_impl; [exact Hsets|]. intros key (ms&t&Hk&Hm&Ht).
    destruct (decide (key ∈ sso_indexes x)) as [Hkey|Hkey].
    - destruct (Hin key Hkey) as (ms'&Hk'&Hsub). rewrite Hs1, Hk in Hsub. simpl in Hsub. eexists ms', _. split; [exact Hk'|].
      rewrite Hn1. split; [set_solver|lia].
    - exists ms, t. by rewrite Hout, Hs1. }
  rewrite Hrun. split; [done|]. simpl. destruct (is_wait_spec s' d Hd) as (Hnw&Hvw&Hsw).
  assert (indexed (is_wait s' d)) as Hiw.
  { intros id' v e. rewrite Hvw. destruct (iv_value s' (ssoKey id')) as [[v' e']|] eqn:Hv'; [|done]. destruct (alive _ e') eqn:Ha; [|done].
    intros [= <- <-]. destruct (Hi' id' v' e' Hv') as (Hne&y&Hy&?&?&Hend&Hsets). rewrite Hy in Hv'. injection Hv' as <- <-. apply Z.ltb_lt in Ha.
    split; [done|]. exists y. unfold sign_in_at. rewrite Hvw, Hy, Hnw. rewrite Hnw in Ha. simpl. rewrite (proj2 (Z.ltb_lt _ _)) by done. split_and!; try (done || lia).
    eapply Forall_impl; [exact Hsets|]. intros key (ms&t&Hk&Hm&Ht). exists ms, t. rewrite Hsw, Hk, Hnw. simpl. by rewrite (proj2 (Z.ltb_lt _ _)) by lia. }
  split; [done|]. destruct (run_Get (is_wait s' d) id (λ o _, o = if (d <? lifetime)%Z then Some x else None) Hiw) as (o&s''&->&->); [|done].
  intros o s'' _ Hsome Hnone. specialize (Hvw (ssoKey id)). destruct Hx' as (Hx&?&?&?&Hsets). rewrite Hx, Hnw, Hn' in Hvw. simpl in Hvw.
  replace (is_now s + d <? is_now s + lifetime)%Z with (d <? lifetime)%Z in Hvw
    by (destruct (Z.ltb_spec d lifetime); symmetry; [apply Z.ltb_lt|apply Z.ltb_ge]; lia).
  destruct (d <? lifetime)%Z; [|by apply Hnone]. destruct (Hiw id _ _ Hvw) as (_&y&Hy). apply Hsome.
  pose proof Hy as (Hy1&_). rewrite Hvw in Hy1. injection Hy1 as Hy1 _. apply (f_equal (decode (T := SSOSession))) in Hy1.
  rewrite !decode_encode in Hy1. by injection Hy1 as <-.
Qed.

Lemma Get_is s id : indexed s → ∃ o s', SSO_Get id s = (Ok o, s') ∧ same s s' ∧ (∀ x, o = Some x ↔ sign_in_at s id x).
Proof.
  intros Hi. destruct (run_Get s id (λ o s', same s s' ∧ ∀ x, o = Some x ↔ sign_in_at s id x) Hi) as (o&s'&?&?&?); [done|].
  by exists o, s'.
Qed.

(** A record deleted, and its id taken out of some sets, leaves the others as they were. *)
Lemma drop_sign_in s s' id (keys : list string) : indexed s → is_now s' = is_now s →
  (∀ id', iv_value s' (ssoKey id') = if decide (id' = id) then None else iv_value s (ssoKey id')) →
  (∀ x k, k ∈ sso_indexes x → k ∉ keys → iv_set s' k = iv_set s k) →
  (∀ k, k ∈ keys → members_in (iv_set s' k) = members_in (iv_set s k) ∖ {[id]} ∧
     ∀ ms e, iv_set s' k = Some (ms, e) → ∃ ms', iv_set s k = Some (ms', e)) →
  indexed s' ∧ ∀ id' x, id' ≠ id → sign_in_at s' id' x ↔ sign_in_at s id' x.
Proof.
  intros Hi Hn Hv Hout Hin.
  assert (∀ id' x, id' ≠ id → sign_in_at s id' x → sign_in_at s' id' x) as Hkeep.
  { intros id' x Hne (Hx&?&?&?&Hsets). unfold sign_in_at. rewrite Hv, decide_False, Hn by done. split_and!; try (done || lia).
    rewrite Forall_forall in Hsets |- *. intros key Hkey. destruct (Hsets key Hkey) as (ms&t&Hk&Hm&Ht).
    destruct (decide (key ∈ keys)) as [Hk'|Hk']; [|exists ms, t; by rewrite (Hout x)].
    destruct (Hin key Hk') as [Hms He]. rewrite Hk in Hms. simpl in Hms.
    destruct (iv_set s' key) as [[ms' e]|] eqn:Hs'; simpl in Hms; [|set_solver].
    destruct (He ms' e eq_refl) as (ms''&Hk''). rewrite Hk in Hk''. injection Hk'' as <- <-. exists ms', t. split; [done|]. split; [set_solver|done]. }
  split.
  - intros id' v e. rewrite Hv. case_decide as Hne; [done|]. intros Hx'. destruct (Hi id' v e Hx') as (Hid&x&Hx). split; [done|]. exists x. by apply Hkeep.
  - intros id' x Hne. split; [|by apply Hkeep]. intros Hx. pose proof Hx as (Hx1&_). rewrite Hv, decide_False in Hx1 by done.
    destruct (Hi id' _ _ Hx1) as (_&y&Hy). assert (x = y) as -> by (eapply sign_in_unique; [exact Hx|by apply Hkeep]). done.
Qed.

(** An ended sign-in answers no more, in this browser or any other, and ending it
    touches nobody else's. *)
Theorem End_ends s id : indexed s → let after := (End_ id s).2 in
  (End_ id s).1 = Ok tt ∧ indexed after ∧ (SSO_Get id after).1 = Ok None ∧
  ∀ id', id' ≠ id → (SSO_Get id' after).1 = (SSO_Get id' s).1.
Proof.
  intros Hi.
  assert (runs (End_ id) s (λ _ s', indexed s' ∧ iv_value s' (ssoKey id) = None ∧
    ∀ id' x, id' ≠ id → sign_in_at s' id' x ↔ sign_in_at s id' x)) as ([]&s'&->&Hi'&Hgone&Hkeep).
  { apply runs_bind, run_Get; [done..|]. intros o s1 Hs1 Hsome _. apply runs_bind.
    assert (runs (match o with Some x => each (λ key, is_Remove key id) (sso_indexes x) | None => mret tt end) s1 (λ _ s2,
      is_now s2 = is_now s ∧ (∀ k, iv_value s2 k = iv_value s k) ∧ ∃ keys : list string,
      (∀ k, k ∉ keys → iv_set s2 k = iv_set s k) ∧
      (∀ k, k ∈ keys → members_in (iv_set s2 k) = members_in (iv_set s k) ∖ {[id]} ∧
         ∀ ms e, iv_set s2 k = Some (ms, e) → ∃ ms', iv_set s k = Some (ms', e)))) as Hrem.
    { destruct Hs1 as (Hn1&Hv1&Hs1). destruct o as [x|].
      - apply (runs_removes (sso_indexes x) id). intros s2 Hn2 Hv2 Hout Hin. split; [congruence|]. split; [intros k; by rewrite Hv2|].
        exists (sso_indexes x). split; [intros k Hk; by rewrite Hout|]. intros k Hk. destruct (Hin k Hk) as [Hms He]. by rewrite Hms, Hs1 in *.
      - apply runs_ret. split; [done|]. split; [done|]. exists []. split; [done|]. by intros k ?%elem_of_nil. }
    eapply runs_mono; [|exact Hrem]. intros _ s2 (Hn2&Hv2&keys&Hout&Hin). apply runs_bind, runs_Delete. intros s3 Hn3 Hv3 Hs3.
    apply runs_Delete. intros s4 Hn4 Hv4 Hs4.
    assert (∀ x k, k ∈ sso_indexes x → iv_set s4 k = iv_set s2 k) as Hsets.
    { intros x k Hk. destruct (sso_index_not_record x k id Hk). by rewrite Hs4, Hs3. }
    assert (∀ id', iv_value s4 (ssoKey id') = if decide (id' = id) then None else iv_value s (ssoKey id')) as Hv.
    { intros id'. rewrite Hv4. unfold upd. destruct (decide (id' = id)) as [->|Hne]; [by rewrite decide_True|].
      rewrite decide_False by (intros Heq; by apply ssoKey_inj in Heq). rewrite Hv3. unfold upd. rewrite decide_False by done. apply Hv2. }
    destruct (drop_sign_in s s4 id (List.filter (λ k, bool_decide (k = ssoAllKey) || HasPrefix k "issuer:sso-of:") keys)) as [? ?]; [done|congruence|done|..].
    - intros y k Hk Hnot. rewrite (Hsets y) by done. apply Hout. intros Hin'. apply Hnot, elem_of_filter_bool. split; [done|].
      revert Hk. unfold sso_indexes. rewrite !elem_of_cons, elem_of_nil. intros [->|[->|[]]]; [done|].
      apply orb_true_iff. right. apply HasPrefix_spec. by exists (ToLower (so_Identity y)).
    - intros k [Hk Hwhich]%elem_of_filter_bool. rewrite Hs4, Hs3; [by apply Hin| |]; intros ->; simpl in Hwhich; vm_compute in Hwhich; done.
    - split; [done|]. split; [|done]. by rewrite Hv, decide_True. }
  split; [done|]. split; [done|]. simpl. split.
  - destruct (run_Get s' id (λ o _, o = None) Hi') as (o&?&->&->); [|done]. intros o s'' _ _ Hnone. by apply Hnone.
  - intros id' Hne. destruct (Get_is s' id' Hi') as (o&?&->&_&Ho), (Get_is s id' Hi) as (o'&?&->&_&Ho'). simpl. f_equal.
    destruct o as [y|].
    + symmetry. apply Ho', Hkeep; [done|]. by apply Ho.
    + destruct o' as [y|]; [|done]. apply Ho, Hkeep; [done|]. by apply Ho'.
Qed.

Lemma run_end_all identity ids n s Φ : indexed s →
  (∀ m s', indexed s' → (∀ id, iv_value s' (ssoKey id) = if decide (id ∈ ids) then None else iv_value s (ssoKey id)) →
     (∀ id x, sign_in_at s' id x → sign_in_at s id x) → Φ m s') →
  runs (end_all (ssoOfKey identity) ids n) s Φ.
Proof.
  revert s n Φ. induction ids as [|id ids IH]; intros s n Φ Hi HΦ.
  { apply runs_ret, HΦ; [done| |done]. intros id. by rewrite decide_False by by intros ?%elem_of_nil. }
  apply runs_bind, runs_Delete. intros s1 Hn1 Hv1 Hs1. apply runs_bind, runs_Delete. intros s2 Hn2 Hv2 Hs2.
  apply runs_bind. destruct (is_Remove_spec s2 (ssoOfKey identity) id) as (s3&Hrun&Hn3&Hv3&Hs3&Hms3&He3). exists tt, s3. split; [done|].
  assert (∀ id', iv_value s3 (ssoKey id') = if decide (id' = id) then None else iv_value s (ssoKey id')) as Hv.
  { intros id'. rewrite Hv3, Hv2. unfold upd. destruct (decide (id' = id)) as [->|Hne]; [by rewrite decide_True|].
    rewrite decide_False by (intros Heq; by apply ssoKey_inj in Heq). rewrite Hv1. unfold upd. by rewrite decide_False. }
  assert (∀ (x : SSOSession) k, k ∈ sso_indexes x → iv_set s2 k = iv_set s k) as Hsets.
  { intros x k Hk. destruct (sso_index_not_record x k id Hk). by rewrite Hs2, Hs1. }
  assert (∀ k, k = ssoOfKey identity → iv_set s2 k = iv_set s k) as Hkey by (intros k ->; by rewrite Hs2, Hs1).
  destruct (drop_sign_in s s3 id [ssoOfKey identity]) as [Hi3 Hkeep]; [done|congruence|done|..].
  - intros x k Hk Hnot. rewrite list_elem_of_singleton in Hnot. by rewrite Hs3, (Hsets x).
  - intros k Hk%list_elem_of_singleton. rewrite Hk in *. rewrite Hms3. rewrite (Hkey _ eq_refl) in *. split; [done|]. intros ms e Hs. by apply He3 in Hs.
  - apply IH; [done|]. intros m s' Hi' Hv' Hsub. apply HΦ; [done|..].
    + intros id'. rewrite Hv', Hv. destruct (decide (id' ∈ ids)); [by rewrite decide_True by by right|].
      destruct (decide (id' = id)) as [->|]; [by rewrite decide_True by by left|]. rewrite decide_False; [done|]. by intros [?|?]%elem_of_cons.
    + intros id' x Hx. destruct (decide (id' = id)) as [->|Hne]; [|by apply Hkeep, Hsub].
      apply Hsub in Hx as (Hx&_). rewrite Hv, decide_True in Hx by done. done.
Qed.

(** Signing a person out everywhere leaves no sign-in of theirs: whatever browser it was
    in, the next silent sign-in finds nobody. *)
Theorem EndFor_leaves_none s identity id (x : SSOSession) : indexed s →
  (SSO_Get id (EndFor identity s).2).1 = Ok (Some x) → so_Identity x ≠ ToLower identity.
Proof.
  intros Hi.
  assert (runs (EndFor identity) s (λ _ s', indexed s' ∧ ∀ id x, sign_in_at s' id x → so_Identity x ≠ ToLower identity)) as (n&s'&->&Hi'&Hnone).
  { apply runs_bind, runs_Members. intros ids s1 Hs1 Hids. apply run_end_all; [by eapply indexed_same|]. intros m s' Hi' Hv Hsub.
    split; [done|]. intros id' y Hy Heq. pose proof Hy as (Hv'&_). rewrite Hv in Hv'. case_decide as Hin; [done|]. apply Hin.
    apply Hsub in Hy as (_&_&_&_&Hsets). apply Forall_cons in Hsets as [_ Hsets]. apply Forall_cons in Hsets as [(ms&t&Hk&Hm&_) _].
    rewrite Hids, elem_of_elements. destruct Hs1 as (_&_&Hs1). rewrite <- Hs1. unfold ssoOfKey in Hk |- *. rewrite Heq, ToLower_idem in Hk.
    by rewrite Hk. }
  simpl. destruct (Get_is s' id Hi') as (o&?&->&_&Ho). simpl. intros [= Ho']. by eapply Hnone, Ho.
Qed.

Lemma run_list_ids key identity contains ids s Φ : indexed s →
  (∀ l s', indexed s' → (∀ x, x ∈ l ↔ so_ID x ∈ ids ∧ sign_in_at s (so_ID x) x ∧
     (contains = true → Contains (ToLower (so_Identity x)) identity = true)) → Φ l s') →
  key = ssoAllKey ∨ (∃ i, key = ssoOfKey i) → runs (list_ids key identity contains ids) s Φ.
Proof.
  intros Hi HΦ Hkey. revert s Φ Hi HΦ. induction ids as [|id ids IH]; intros s Φ Hi HΦ; simpl.
  { apply runs_ret, HΦ; [done|]. intros x. split; [by intros ?%elem_of_nil|by intros (?%elem_of_nil&_)]. }
  apply runs_bind, run_Get; [done..|]. intros o s1 Hs1 Hsome Hnone. pose proof (indexed_same _ _ Hs1 Hi) as Hi1.
  assert (∀ id' x, sign_in_at s1 id' x ↔ sign_in_at s id' x) as Hback.
  { intros id' x. split; apply sign_in_same; [|done]. destruct Hs1 as (Hn&Hv&Hs). split_and!; [done|intros; by rewrite Hv|intros; by rewrite Hs]. }
  destruct o as [x|]; apply runs_bind.
  - apply IH; [done|]. intros l s2 Hi2 Hl. apply runs_ret, HΦ; [done|]. pose proof (proj1 (Hsome x) eq_refl) as Hx.
    pose proof Hx as (_&Hxid&_). intros y. rewrite elem_of_cons.
    assert (sign_in_at s id y → y = x) as Huniq by (intros Hy; by eapply sign_in_unique).
    destruct (contains && negb (Contains (ToLower (so_Identity x)) identity)) eqn:Hc; [|rewrite elem_of_cons]; rewrite Hl, Hback.
    + apply andb_true_iff in Hc as [Hc1 Hc2%negb_true_iff]. split; [by intros (?&?&?); split_and!; [right|..]|].
      intros ([Heq|Hin]&Hy&Hcy); [|done]. rewrite Heq in Hy. rewrite (Huniq Hy) in Hcy. specialize (Hcy Hc1). congruence.
    + apply andb_false_iff in Hc. split.
      * intros [->|(?&?&?)]; [|split_and!; [by right|done..]]. split; [by left|]. rewrite Hxid. split; [done|]. intros ->.
        destruct Hc as [Hc|Hc]; [done|]. by apply negb_false_iff in Hc.
      * intros ([Heq|Hin]&Hy&Hcy); [left; rewrite Heq in Hy; by apply Huniq|right; done].
  - assert (runs (is_Remove key id) s1 (λ _ s2, indexed s2 ∧
      iv_value s2 (ssoKey id) = None ∧ ∀ id' x, id' ≠ id → sign_in_at s2 id' x ↔ sign_in_at s id' x)) as Hrem.
    { destruct (is_Remove_spec s1 key id) as (s2&Hrun&Hn2&Hv2&Hs2&Hms2&He2). exists tt, s2. split; [done|].
      destruct (drop_sign_in s1 s2 id [key] Hi1) as [Hi2 Hkeep]; [done|..].
      - intros id'. rewrite Hv2. case_decide as Heq; [|done]. rewrite Heq, (proj1 (proj2 Hs1)). by apply Hnone.
      - intros x k _ Hk. apply Hs2. by rewrite list_elem_of_singleton in Hk.
      - intros k ->%list_elem_of_singleton. done.
      - split; [done|]. split; [rewrite Hv2, (proj1 (proj2 Hs1)); by apply Hnone|]. intros id' x Hne. by rewrite (Hkeep id' x Hne). }
    eapply runs_mono; [|exact Hrem]. intros _ s2 (Hi2&Hgone&Hkeep). apply IH; [done|]. intros l s3 Hi3 Hl. apply HΦ; [done|].
    intros x. rewrite Hl, elem_of_cons. destruct (decide (so_ID x = id)) as [Heq|Hne]; [|rewrite (Hkeep _ _ Hne)].
    2: { split; [intros (?&?&?); split_and!; [by right|done..]|intros ([?|?]&?&?); [congruence|done]]. }
    split; [|intros (_&Hx&_); rewrite Heq in Hx; by apply Hsome in Hx].
    intros (_&(Hv&_)&_). rewrite Heq in Hv. congruence.
Qed.

(** A listing of sign-ins shows every one that is open — of one person, or of everybody —
    and shows none that is over. *)
Theorem SSO_List_complete s identity : indexed s →
  ∃ l, (SSO_List identity s).1 = Ok l ∧
    (∀ x, x ∈ l → (SSO_Get (so_ID x) s).1 = Ok (Some x)) ∧
    (∀ id x, (SSO_Get id s).1 = Ok (Some x) →
       ToLower (TrimSpace identity) = "" ∨ so_Identity x = ToLower (TrimSpace identity) → x ∈ l).
Proof.
  intros Hi. set (wanted := ToLower (TrimSpace identity)).
  set (key := if negb (empty wanted) && negb false then ssoOfKey wanted else ssoAllKey).
  assert (runs (SSO_List identity) s (λ l _, ∀ x, x ∈ l ↔ so_ID x ∈ members_in (iv_set s key) ∧ sign_in_at s (so_ID x) x)) as (l&s'&Hrun&Hl).
  { apply runs_bind. fold wanted. fold key. apply runs_Members. intros ids s1 Hs1 Hids. apply runs_bind.
    apply run_list_ids; [by eapply indexed_same| |].
    - intros l s2 _ Hl. apply runs_ret. intros x. rewrite merge_sort_Permutation, Hl, Hids, elem_of_elements.
      assert (sign_in_at s1 (so_ID x) x ↔ sign_in_at s (so_ID x) x) as ->; [|naive_solver].
      split; apply sign_in_same; [|done]. destruct Hs1 as (Hn&Hv&Hs). split_and!; [done|intros; by rewrite Hv|intros; by rewrite Hs].
    - unfold key. destruct (negb (empty wanted) && negb false); [right; by exists wanted|by left]. }
  exists l. rewrite Hrun. split; [done|]. split.
  - intros x [_ Hx]%Hl. destruct (Get_is s (so_ID x) Hi) as (o&?&->&_&Ho). simpl. f_equal. by apply Ho.
  - intros id x. destruct (Get_is s id Hi) as (o&?&->&_&Ho). simpl. intros [= Hx%Ho] Hwho. apply Hl.
    pose proof Hx as (_&Hid&Hlow&_&Hsets). rewrite Hid. split; [|done]. rewrite Forall_forall in Hsets.
    destruct (Hsets key) as (ms&t&Hk&Hm&_); [|by rewrite Hk]. unfold sso_indexes, key. rewrite elem_of_cons, list_elem_of_singleton.
    destruct Hwho as [->|Heq]; [by left|]. destruct (empty wanted) eqn:He; simpl; [by left|]. right. unfold ssoOfKey. by rewrite Heq.
Qed.
End sign_ins.

(** ** At a concrete store *)

Notation store := (@MemoryState (string + SSOSession)) (only parsing).

Definition sample_start : store := NewMemoryState 10.
Definition after_begin : store := (Begin 100 " Ada@example.org" "google" "b1" sample_start).2.
Definition ada_browser : SSOSession := mkSSO "b1" "ada@example.org" "google" 10 110.

Lemma sample_indexed : indexed 100 sample_start.
Proof. intros id v e. unfold iv_value. simpl. unfold shown_value. simpl. by rewrite lookup_empty. Qed.

Lemma after_begin_indexed : indexed 100 after_begin.
Proof.
  assert (after_begin = is_wait after_begin 0) as -> by reflexivity.
  by apply (Begin_lives_its_lifetime 100 eq_refl sample_start " Ada@example.org" "google" "b1" 0 sample_indexed).
Qed.

Lemma Begin_lives_its_lifetime_witness :
  (SSO_Get "b1" (is_wait after_begin 99)).1 = Ok (Some ada_browser) ∧ (SSO_Get "b1" (is_wait after_begin 100)).1 = Ok None.
Proof.
  split.
  - destruct (Begin_lives_its_lifetime (S := store) 100 eq_refl sample_start " Ada@example.org" "google" "b1" 99) as (_&_&Hget);
      [apply sample_indexed|discriminate|lia|exact Hget].
  - destruct (Begin_lives_its_lifetime (S := store) 100 eq_refl sample_start " Ada@example.org" "google" "b1" 100) as (_&_&Hget);
      [apply sample_indexed|discriminate|lia|exact Hget].
Defined.

Lemma End_ends_witness : (SSO_Get "b1" (End_ "b1" after_begin).2).1 = Ok None.
Proof. apply (End_ends (S := store) 100 eq_refl after_begin "b1"). apply after_begin_indexed. Defined.

Lemma EndFor_leaves_none_witness :
  (EndFor "ADA@example.org" (Begin 100 "bob@example.org" "google" "b2" after_begin).2).1 = Ok 1 ∧
  ∃ x, (SSO_Get "b2" (EndFor "ADA@example.org" (Begin 100 "bob@example.org" "google" "b2" after_begin).2).2).1 = Ok (Some x) ∧
    so_Identity x ≠ "ada@example.org".
Proof.
  split; [vm_compute; reflexivity|]. exists (mkSSO "b2" "bob@example.org" "google" 10 110). split; [vm_compute; reflexivity|].
  apply (EndFor_leaves_none (S := store) 100 eq_refl (Begin 100 "bob@example.org" "google" "b2" after_begin).2 "ADA@example.org" "b2");
    [|vm_compute; reflexivity].
  assert ((Begin 100 "bob@example.org" "google" "b2" after_begin).2 = is_wait (Begin 100 "bob@example.org" "google" "b2" after_begin).2 0) as ->
    by (vm_compute; reflexivity).
  apply (Begin_lives_its_lifetime (S := store) 100 eq_refl after_begin "bob@example.org" "google" "b2" 0);
    [apply after_begin_indexed|discriminate|lia].
Defined.

Lemma SSO_List_complete_witness : ∃ l, (SSO_List "ada@example.org " after_begin).1 = Ok l ∧ ada_browser ∈ l.
Proof.
  destruct (SSO_List_complete (S := store) 100 eq_refl after_begin "ada@example.org ") as (l&Hl&_&Hin); [apply after_begin_indexed|].
  exists l. split; [exact Hl|]. apply (Hin "b1"); [vm_compute; reflexivity|right; vm_compute; reflexivity].
Defined.

(** What the in-memory store keeps of an ended sign-in: the clients it was used at,
    which its deletion does not reach. *)
Theorem End_keeps_the_clients :
  let used := (Involve 100 "b1" "argocd" after_begin).2 in
  (Involved "b1" (End_ "b1" used).2).1 = Ok ["argocd"].
Proof. vm_compute. reflexivity. Qed.
