(* ===== verification/Issuer.v ===== *)
(** * Issuer: the decisions behind a token

    [internal/issuer]: the issuer's configuration (issuer.go), who the directory says
    somebody is and for how long that is remembered (resolve.go), what a proof may
    be exchanged for (exchange.go), and what a token's claims say at an audience
    (claims.go, scoping_enforce.go, groups_delimiter.go), over the policy of
    [Evaluate] and [Scope].

    The directory's answer is an argument; the audit trail is what was recorded.  A
    Go map of claims is a list sorted by key ([Claims]).

    The theorems: for how long a remembered answer stands in for the directory and
    that nothing else does; what an exchange grants; what a token's groups claim is
    in each mode. *)

From S2P Require Import Prelude GoStrings Names Vocabulary Claims Policy Validate Evaluate Scope PolicySet Port IssuerState Sessions.

Implicit Types (email audience subject : string) (now : Z) (p : Policy).

(** ** Configuration *)

(** [internal/issuer/issuer.go:type GroupsScopingMode] *)
Inductive GroupsScopingMode : Type := ScopingUnset | ScopingOff | ScopingReport | ScopingEnforce.

(** [internal/issuer/issuer.go:CheckGroupsScopingMode] *)
Definition CheckGroupsScopingMode (m : string) : option GroupsScopingMode :=
  if bool_decide (m = "off") then Some ScopingOff
  else if bool_decide (m = "report") then Some ScopingReport
  else if bool_decide (m = "enforce") then Some ScopingEnforce
  else None.

(** [internal/issuer/issuer.go:type Config]; durations in nanoseconds. *)
Record Config := mkConfig {
  cf_URL : string; cf_TokenLifetime : Z; cf_RefreshLifetime : Z; cf_AbsoluteLifetime : Z; cf_HoldWindow : Z;
  cf_GroupsScoping : GroupsScopingMode }.

Definition hour : Z := 3600 * 1000000000.

(** [internal/issuer/issuer.go:Config.withDefaults] *)
Definition Config_withDefaults (c : Config) : Config :=
  let or_default (d default : Z) := if (d <=? 0)%Z then default else d in
  mkConfig (cf_URL c) (or_default (cf_TokenLifetime c) hour) (or_default (cf_RefreshLifetime c) (12 * hour)%Z)
    (or_default (cf_AbsoluteLifetime c) (24 * hour)%Z) (or_default (cf_HoldWindow c) (4 * hour)%Z)
    (match cf_GroupsScoping c with ScopingUnset => ScopingReport | m => m end).

(** [internal/issuer/issuer.go:type Issuer]: what does not change while it runs. *)
Record Issuer := mkIssuer { is_cfg : Config; is_policy : Policy }.

(** [internal/issuer/issuer.go:Issuer.absoluteForResources] *)
Definition absoluteForResources (i : Issuer) (touched : list string) : Z :=
  Set_EffectiveAbsolute (is_policy i) (cf_AbsoluteLifetime (is_cfg i)) touched.

(** [internal/issuer/issuer.go:Issuer.AbsoluteFor] *)
Definition Issuer_AbsoluteFor (i : Issuer) (resource : string) : Z := absoluteForResources i [resource].

(** [internal/issuer/issuer.go:New]: the settings of its session index. *)
Definition issuer_sessions (i : Issuer) : Sessions :=
  SetAbsoluteResolver (NewSessions (cf_RefreshLifetime (is_cfg i)) (cf_AbsoluteLifetime (is_cfg i))) (absoluteForResources i).

(** ** Who the directory says somebody is *)

(** [internal/issuer/resolve.go:type Standing] *)
Record Standing := mkStanding {
  sd_Found : bool; sd_Suspended : bool; sd_Groups : list string; sd_Authoritative : bool; sd_GivenName : string; sd_FamilyName : string }.

(** [internal/issuer/resolve.go:type lastKnown] *)
Record lastKnown := mkLastKnown { lk_groups : list string; lk_at : Z }.

(** [internal/issuer/resolve.go:type Resolution] *)
Record Resolution := mkResolution { rn_Groups : list string; rn_Held : bool; rn_GivenName : string; rn_FamilyName : string }.

(** [internal/issuer/resolve.go:type Refused]; and the directory's own failure. *)
Inductive refusal : Type := NotLive | NoRecentAnswer | DirectoryFailed (e : string).

Definition address email : string := ToLower (TrimSpace email).

(** [internal/issuer/resolve.go:Resolver.Resolve], given the directory's answer. *)
Definition Resolve (window : Z) (seen : gmap string lastKnown) email (answer : result string Standing) now :
    result refusal Resolution * gmap string lastKnown :=
  let email := address email in
  let held (e : refusal) :=
    match seen !! email with
    | Some known => if (window <? now - lk_at known)%Z then Err e else Ok (mkResolution (lk_groups known) true "" "")
    | None => Err e
    end in
  match answer with
  | Ok standing =>
      if sd_Authoritative standing then
        if negb (sd_Found standing) || sd_Suspended standing then (Err NotLive, delete email seen)
        else (Ok (mkResolution (sd_Groups standing) false (sd_GivenName standing) (sd_FamilyName standing)),
              <[email := mkLastKnown (sd_Groups standing) now]> seen)
      else (held NoRecentAnswer, seen)
  | Err e => (held (DirectoryFailed e), seen)
  end.

(** [internal/issuer/resolve.go:Resolver.Forget] *)
Definition Forget (seen : gmap string lastKnown) email : gmap string lastKnown := delete (address email) seen.

(** [internal/issuer/resolve.go:Resolution.Input] *)
Definition Resolution_Input (r : Resolution) email : Input := mkInput email (rn_Groups r) true None None None.

(** ** Claims at an audience *)

(** [internal/issuer/claims.go:Claims]; a result's claims are already plain. *)
Definition Claims (r : Result) : list (string * value) := res_Claims r.

Definition assoc_delete {A} (key : string) (m : list (string * A)) : list (string * A) :=
  List.filter (λ kv, negb (bool_decide (kv.1 = key))) m.

(** [internal/issuer/scoping_enforce.go:scopeClaims] *)
Definition scopeClaims (mode : GroupsScopingMode) p (claims : list (string * value)) audience (held : list string) : list (string * value) :=
  match mode with
  | ScopingEnforce =>
      if empty audience || bool_decide (held = []) then claims
      else let kept := (ScopeGroups p audience held).1 in
           match kept with [] => assoc_delete "groups" claims | _ => assoc_set "groups" (VList (VStr <$> kept)) claims end
  | _ => claims
  end.

(** [internal/issuer/groups_delimiter.go:groupsDelimiterFor] *)
Definition groupsDelimiterFor p (id : string) : string :=
  if empty id then ""
  else
    let of_client := match Set_Client p id with Some c => c_GroupsDelimiter c | None => "" end in
    match Set_Resource p id with
    | Some r => if negb (empty (r_GroupsDelimiter r)) then r_GroupsDelimiter r else of_client
    | None => of_client
    end.

(** [internal/issuer/groups_delimiter.go:applyGroupsDelimiter] *)
Definition applyGroupsDelimiter p (claims : list (string * value)) audience : list (string * value) :=
  let delimiter := groupsDelimiterFor p audience in
  if empty delimiter then claims
  else match assoc "groups" claims with
       | Some (VList (g :: gs)) =>
           assoc_set "groups" (VList ((λ g, match g with VStr name => VStr (RewriteGroupsDelimiter name delimiter) | _ => g end) <$> g :: gs)) claims
       | _ => claims
       end.

(** ** The exchange *)

(** [internal/issuer/exchange.go:type Proof] *)
Record Proof := mkProof {
  pf_Email : string; pf_GitHub : option GitHubClaims; pf_ServiceAccount : option ServiceAccountRef; pf_AWS : option AWSRole }.

(** [internal/issuer/exchange.go:Proof.Subject] *)
Definition Proof_Subject (x : Proof) : string :=
  if negb (empty (pf_Email x)) then pf_Email x
  else match pf_GitHub x, pf_ServiceAccount x, pf_AWS x with
       | Some c, _, _ => "github:" +:+ gc_Repository c
       | None, Some a, _ => ServiceAccountRef_Subject a
       | None, None, Some r => AWSRole_Subject r
       | None, None, None => ""
       end.

(** [internal/issuer/exchange.go:type Grant] *)
Record Grant := mkGrant {
  gr_Subject : string; gr_Audience : string; gr_Result : Result; gr_Claims : list (string * value); gr_Held : bool }.

(** [internal/issuer/exchange.go:57-74 ErrNoTarget] *)
Inductive exchange_error : Type :=
| ErrNoTarget | ErrUnknownTarget (audience : string) | ErrRefused (audience : string) (requires holds : list string)
| ErrResolve (e : refusal).

(** What was recorded of an exchange. *)
Inductive exchange_record : Type := Exchanged (proof : Proof) audience (succeeded : bool).

Section exchange.
Context (i : Issuer) (directory : string → result string Standing).
Let window := cf_HoldWindow (is_cfg i).

(** [internal/issuer/exchange.go:Issuer.evaluate] *)
Definition evaluate (seen : gmap string lastKnown) (x : Proof) now : result refusal (Result * bool) * gmap string lastKnown :=
  if negb (empty (pf_Email x)) then
    let '(r, seen) := Resolve window seen (pf_Email x) (directory (address (pf_Email x))) now in
    (resolved ← r;
     Ok (Evaluate (is_policy i)
           (mkInput (pf_Email x) (rn_Groups resolved) true (pf_GitHub x) (pf_ServiceAccount x) (pf_AWS x)), rn_Held resolved), seen)
  else (Ok (Evaluate (is_policy i) (mkInput "" [] false (pf_GitHub x) (pf_ServiceAccount x) (pf_AWS x)), false), seen).

(** [internal/issuer/exchange.go:Issuer.Exchange]; what it records comes with the answer. *)
Definition Exchange (seen : gmap string lastKnown) (x : Proof) audience now :
    result exchange_error Grant * list exchange_record * gmap string lastKnown :=
  let audience := TrimSpace audience in
  if empty audience then (Err ErrNoTarget, [], seen)
  else match Set_Client (is_policy i) audience with
  | None => (Err (ErrUnknownTarget audience), [], seen)
  | Some client =>
      let '(r, seen) := evaluate seen x now in
      match r with
      | Err e => (Err (ErrResolve e), [], seen)
      | Ok (res, held) =>
          if negb (Client_Admits client res)
          then (Err (ErrRefused audience (c_Requires client) (res_Groups res)), [Exchanged x audience false], seen)
          else
            let claims := scopeClaims (cf_GroupsScoping (is_cfg i)) (is_policy i) (Claims res) audience (res_Groups res) in
            let claims := applyGroupsDelimiter (is_policy i) claims audience in
            (Ok (mkGrant (Proof_Subject x) audience res claims held), [Exchanged x audience true], seen)
      end
  end.

(** [internal/issuer/exchange.go:Issuer.Lifetime] *)
Definition Issuer_Lifetime (g : Grant) : Z :=
  match Set_Client (is_policy i) (gr_Audience g) with
  | None => res_Lifetime (gr_Result g)
  | Some client => Cap client (res_Lifetime (gr_Result g))
  end.

(** [internal/issuer/mint.go:52-57 Storage.MintFor]: how long a token minted for the console lives. *)
Definition mint_lifetime (g : Grant) (lifetime : Z) : Z :=
  let capped := Issuer_Lifetime g in
  let lifetime := if ((0 <? capped) && (capped <? lifetime))%Z then capped else lifetime in
  if ((lifetime <=? 0) || (cf_TokenLifetime (is_cfg i) <? lifetime))%Z then cf_TokenLifetime (is_cfg i) else lifetime.
End exchange.

(** ** The directory's word, and for how long it is remembered *)

(** What happens to a resolver, in order. *)
Inductive resolver_event : Type := Asked email (answer : result string Standing) now | Forgot email.

Definition resolver_step (window : Z) (seen : gmap string lastKnown) (e : resolver_event) : gmap string lastKnown :=
  match e with Asked email answer now => (Resolve window seen email answer now).2 | Forgot email => Forget seen email end.
Definition resolver_after (window : Z) (es : list resolver_event) : gmap string lastKnown := foldl (resolver_step window) ∅ es.

(** The directory vouched for a live account at this address. *)
Definition vouched (a : string) (groups : list string) (at_ : Z) (e : resolver_event) : Prop :=
  match e with
  | Asked email (Ok st) now => address email = a ∧ sd_Authoritative st = true ∧ sd_Found st = true ∧ sd_Suspended st = false ∧
      sd_Groups st = groups ∧ now = at_
  | _ => False
  end.
(** What settles an address: an authoritative answer about it, or forgetting it. *)
Definition settles (a : string) (e : resolver_event) : Prop :=
  match e with
  | Asked email (Ok st) _ => address email = a ∧ sd_Authoritative st = true
  | Asked _ (Err _) _ => False
  | Forgot email => address email = a
  end.

Lemma resolver_step_seen window seen e a k : resolver_step window seen e !! a = Some k →
  vouched a (lk_groups k) (lk_at k) e ∨ (seen !! a = Some k ∧ ¬ settles a e).
Proof.
  destruct e as [email [st|er] now|email]; simpl; unfold Resolve, Forget.
  2: naive_solver.
  - destruct (sd_Authoritative st) eqn:Hauth; simpl; [|intros ?; right; naive_solver].
    destruct (sd_Found st) eqn:Hf, (sd_Suspended st) eqn:Hs; simpl.
    2: { rewrite lookup_insert_Some. intros [[<- <-]|[Hne ?]]; [left; by split_and!|right; naive_solver]. }
    all: rewrite lookup_delete_Some; intros [Hne ?]; right; naive_solver.
  - rewrite lookup_delete_Some. intros [Hne ?]. by right.
Qed.

Lemma resolver_after_seen window es a k : resolver_after window es !! a = Some k →
  ∃ before e since, es = before ++ e :: since ∧ vouched a (lk_groups k) (lk_at k) e ∧ Forall (λ e', ¬ settles a e') since.
Proof.
  unfold resolver_after. revert k. induction es as [|e es IH] using rev_ind; intros k; [simpl; by rewrite lookup_empty|].
  rewrite foldl_snoc. intros [Hv|[Hold Hnot]]%resolver_step_seen.
  - exists es, e, []. by split_and!.
  - destruct (IH k Hold) as (before&e'&since&->&Hv&Hsince). exists before, e', (since ++ [e]).
    rewrite <- app_assoc. split_and!; [done..|]. apply Forall_app. by split; [|repeat constructor].
Qed.

(** C18: Nobody is resolved on less than the directory's word with authority: either it
    vouches now for a live account, or it now gives no authoritative answer and gave one, for a
    live account, at most the hold window ago, and since then it has said nothing else about
    the address with authority, nor has the address been forgotten — and the groups are the
    ones it said.  An answer without authority settles nothing, even one that says suspended:
    [suspended_yet_held]. *)
Theorem Resolve_needs_the_directory window es email answer now (r : Resolution) :
  (Resolve window (resolver_after window es) email answer now).1 = Ok r →
  if rn_Held r then
    (∀ st, answer = Ok st → sd_Authoritative st = false) ∧
    ∃ before e since at_, es = before ++ e :: since ∧ vouched (address email) (rn_Groups r) at_ e ∧
      Forall (λ e', ¬ settles (address email) e') since ∧ (now - at_ <= window)%Z ∧ rn_GivenName r = "" ∧ rn_FamilyName r = ""
  else vouched (address email) (rn_Groups r) now (Asked email answer now).
Proof.
  assert (∀ e : refusal, match resolver_after window es !! address email with
    | Some known => if (window <? now - lk_at known)%Z then Err e else Ok (mkResolution (lk_groups known) true "" "")
    | None => Err e end = Ok r → rn_Held r = true ∧ ∃ before e since at_, es = before ++ e :: since ∧
      vouched (address email) (rn_Groups r) at_ e ∧ Forall (λ e', ¬ settles (address email) e') since ∧ (now - at_ <= window)%Z ∧
      rn_GivenName r = "" ∧ rn_FamilyName r = "") as Hheld.
  { intros e. destruct (resolver_after window es !! address email) as [k|] eqn:Hk; [|done].
    destruct (Z.ltb_spec window (now - lk_at k)); [done|]. intros [= <-]. split; [done|].
    apply resolver_after_seen in Hk as (before&e'&since&->&Hv&Hs). exists before, e', since, (lk_at k). by split_and!. }
  unfold Resolve. destruct answer as [st|e]; simpl.
  2: { intros Hr. apply Hheld in Hr as [-> Hr]. by split. }
  - destruct (sd_Authoritative st) eqn:Hauth; simpl.
    + destruct (sd_Found st) eqn:Hf, (sd_Suspended st) eqn:Hs; simpl; try done. intros [= <-]. simpl. by split_and!.
    + intros Hr. apply Hheld in Hr as [-> Hr]. split; [by intros st' [= <-]|exact Hr].
Qed.

(** ** What an exchange grants *)

Lemma evaluate_spec i directory seen x now r held seen' : evaluate i directory seen x now = (Ok (r, held), seen') →
  ∃ groups, r = Evaluate (is_policy i)
    (mkInput (pf_Email x) groups (negb (empty (pf_Email x))) (pf_GitHub x) (pf_ServiceAccount x) (pf_AWS x)) ∧
    (groups ≠ [] → ∃ res, Resolve (cf_HoldWindow (is_cfg i)) seen (pf_Email x) (directory (address (pf_Email x))) now = (Ok res, seen') ∧
       rn_Groups res = groups ∧ rn_Held res = held).
Proof.
  unfold evaluate. destruct (empty (pf_Email x)) eqn:He; simpl.
  - intros [= <- <- <-]. exists []. split; [|done]. apply empty_true in He. by rewrite He.
  - destruct (Resolve _ seen (pf_Email x) _ now) as [[res|e] seen1] eqn:Hr; simpl; [|done]. intros [= <- <- <-].
    exists (rn_Groups res). split; [done|]. intros _. exists res. by split_and!.
Qed.

(** An exchange is granted only at a declared audience, in the name the proof proves, to a
    proof that holds one of the groups the audience requires — by the policy, from
    the proof's own facts and what the directory's word is worth for its address —
    and it is recorded; one that is refused for want of a group is recorded too. *)
Theorem Exchange_grants i directory seen x audience now g records seen' :
  Exchange i directory seen x audience now = (Ok g, records, seen') →
  ∃ client name groups, Set_Client (is_policy i) (TrimSpace audience) = Some client ∧ gr_Audience g = TrimSpace audience ∧
    gr_Subject g = Proof_Subject x ∧ name ∈ c_Requires client ∧
    holds (is_policy i) (mkInput (pf_Email x) groups (negb (empty (pf_Email x))) (pf_GitHub x) (pf_ServiceAccount x) (pf_AWS x)) name ∧
    (groups ≠ [] → ∃ res, Resolve (cf_HoldWindow (is_cfg i)) seen (pf_Email x) (directory (address (pf_Email x))) now = (Ok res, seen') ∧
       rn_Groups res = groups) ∧
    records = [Exchanged x (TrimSpace audience) true].
Proof.
  unfold Exchange. destruct (empty (TrimSpace audience)); [done|]. destruct (Set_Client _ _) as [client|] eqn:Hc; [|done].
  destruct (evaluate i directory seen x now) as [[[r held]|e] seen1] eqn:Hev; [|done].
  destruct (Client_Admits client r) eqn:Hadm; simpl; [|done]. intros [= <- <- <-].
  apply evaluate_spec in Hev as (groups&->&Hgroups). unfold Client_Admits in Hadm. apply existsb_exists in Hadm as (name&Hin&Hhas).
  apply list_elem_of_In in Hin. unfold Has in Hhas. rewrite str_in_true in Hhas. apply elem_of_Evaluate in Hhas.
  exists client, name, groups. split_and!; try done. intros Hne. destruct (Hgroups Hne) as (res&?&?&_). by exists res.
Qed.

(** ** What a token's groups claim says *)

Lemma assoc_delete_ne {A} key key' (m : list (string * A)) : key ≠ key' → assoc key' (assoc_delete key m) = assoc key' m.
Proof.
  intros Hne. induction m as [|[k v] m IH]; simpl; [done|]. case_bool_decide as Hk; simpl.
  - rewrite IH. by rewrite bool_decide_eq_false_2 by congruence.
  - case_bool_decide; [done|apply IH].
Qed.

Lemma assoc_delete_eq {A} key (m : list (string * A)) : assoc key (assoc_delete key m) = None.
Proof.
  induction m as [|[k v] m IH]; simpl; [done|]. case_bool_decide as Hk; simpl; [done|]. by rewrite bool_decide_eq_false_2.
Qed.

Definition delimited p audience (name : string) : string := RewriteGroupsDelimiter name (groupsDelimiterFor p audience).

(** At an audience, where scoping is enforced, the groups claim of a token is exactly the
    held groups that the audience's own gate and override keep, each written with
    the audience's delimiter, and absent when none is kept; no other claim changes. *)
Theorem token_groups_at_audience p claims audience held :
  audience ≠ "" → held ≠ [] →
  let out := applyGroupsDelimiter p (scopeClaims ScopingEnforce p claims audience held) audience in
  let kept := (ScopeGroups p audience held).1 in
  (assoc "groups" out = match kept with [] => None | _ => Some (VList (VStr <$> (delimited p audience <$> kept))) end) ∧
  (∀ key, key ≠ "groups" → assoc key out = assoc key claims).
Proof.
  intros Ha Hh out kept. unfold out, scopeClaims. apply empty_false in Ha. rewrite Ha, bool_decide_eq_false_2 by done. simpl. fold kept.
  assert (∀ gs : list string, VStr <$> (delimited p audience <$> gs) =
    (λ g, match g with VStr name => VStr (RewriteGroupsDelimiter name (groupsDelimiterFor p audience)) | _ => g end) <$> (VStr <$> gs)) as Hmap.
  { intros gs. rewrite <- !list_fmap_compose. done. }
  unfold applyGroupsDelimiter. destruct kept as [|g gs].
  - rewrite assoc_delete_eq. destruct (empty (groupsDelimiterFor p audience)).
    + split; [apply assoc_delete_eq|]. intros key Hne. by apply assoc_delete_ne.
    + split; [apply assoc_delete_eq|]. intros key Hne. by apply assoc_delete_ne.
  - rewrite Hmap, assoc_set_eq. destruct (empty (groupsDelimiterFor p audience)) eqn:He.
    + split; [|intros key Hne; by apply assoc_set_ne]. rewrite assoc_set_eq, <- Hmap. do 3 f_equal.
      apply empty_true in He. unfold delimited. rewrite He. symmetry. apply (list_fmap_id (g :: gs)).
    + rewrite !fmap_cons. split; [by rewrite assoc_set_eq|]. intros key Hne. by rewrite !assoc_set_ne.
Qed.

(** ** How long a minted token lives *)

(** A token minted for the console never outlives the deployment's token lifetime, nor —
    when a lifetime was asked for — what was asked, the shortest lifetime of the groups
    held, or the audience's own cap. *)
Theorem mint_lifetime_bounds i g lifetime : (0 < cf_TokenLifetime (is_cfg i))%Z →
  (0 < mint_lifetime i g lifetime <= cf_TokenLifetime (is_cfg i))%Z ∧
  ((0 < lifetime)%Z → (mint_lifetime i g lifetime <= lifetime)%Z ∧
     ((0 < Issuer_Lifetime i g)%Z → (mint_lifetime i g lifetime <= Issuer_Lifetime i g)%Z)).
Proof.
  intros Ht. unfold mint_lifetime. generalize (Issuer_Lifetime i g) as capped. intros capped. cbv zeta.
  assert (∃ l, (if (0 <? capped)%Z && (capped <? lifetime)%Z then capped else lifetime) = l ∧ (l <= lifetime)%Z ∧
    ((0 < lifetime)%Z → (0 < l)%Z ∧ ((0 < capped)%Z → (l <= capped)%Z))) as (l&->&Hle&Hl).
  { eexists. split; [done|]. destruct (Z.ltb_spec 0 capped), (Z.ltb_spec capped lifetime); simpl; lia. }
  destruct (Z.leb_spec l 0), (Z.ltb_spec (cf_TokenLifetime (is_cfg i)) l); simpl; lia.
Qed.

(** ** Two runs, and witnesses *)

Definition sample_issuer : Issuer :=
  mkIssuer (Config_withDefaults (mkConfig "https://access.example" 0 0 0 0 ScopingEnforce)) sample_policy.
Definition ada_standing : Standing := mkStanding true false ["sre@example.com"] true "Ada" "Lovelace".
Definition ada_directory (email : string) : result string Standing :=
  if bool_decide (email = "ada@example.com") then Ok ada_standing else Err "unreachable".

(** A directory that says, without vouching for it, that an account is suspended is not
    obeyed: the groups last vouched for are handed out. *)
Theorem suspended_yet_held :
  let seen := resolver_after (4 * hour) [Asked "ada@example.com" (Ok ada_standing) 0] in
  Resolve (4 * hour) seen "ada@example.com" (Ok (mkStanding true true [] false "" "")) 1 =
    (Ok (mkResolution ["sre@example.com"] true "" ""), seen).
Proof. vm_compute. reflexivity. Qed.

(** A token minted with no lifetime asked for is not bounded by the groups held nor by the
    audience's cap. *)
Theorem mint_without_a_lifetime_is_uncapped :
  let g := mkGrant "ada@example.com" "k8s:prod" (mkResult ["prod:k8s:admin"] [] [] 3600) [] false in
  (Issuer_Lifetime sample_issuer g, mint_lifetime sample_issuer g 0) = (1800, hour)%Z.
Proof. vm_compute. reflexivity. Qed.

Lemma Resolve_needs_the_directory_witness :
  ∃ before e since at_, [Asked "Ada@example.com" (Ok ada_standing) 5; Asked "bob@example.com" (Err "down") 6] = before ++ e :: since ∧
    vouched "ada@example.com" ["sre@example.com"] at_ e ∧ (105 - at_ <= 100)%Z.
Proof.
  destruct (Resolve_needs_the_directory 100 [Asked "Ada@example.com" (Ok ada_standing) 5; Asked "bob@example.com" (Err "down") 6]
    " ada@example.com" (Err "down") 105 (mkResolution ["sre@example.com"] true "" "")) as (_&before&e&since&at_&H1&H2&_&H3&_);
    [vm_compute; reflexivity|]. exists before, e, since, at_. split; [exact H1|split; [exact H2|exact H3]].
Defined.

Definition ada_grant : Grant :=
  match (Exchange sample_issuer ada_directory ∅ (mkProof "ada@example.com" None None None) "k8s:prod" 7).1.1 with
  | Ok g => g | Err _ => mkGrant "" "" (mkResult [] [] [] 0) [] true end.

Lemma Exchange_grants_witness : gr_Subject ada_grant = "ada@example.com" ∧
  ∃ name groups, holds (is_policy sample_issuer) (mkInput "ada@example.com" groups true None None None) name ∧
    (groups ≠ [] → groups = ["sre@example.com"]).
Proof.
  destruct (Exchange_grants sample_issuer ada_directory ∅ (mkProof "ada@example.com" None None None) "k8s:prod" 7 ada_grant
    [Exchanged (mkProof "ada@example.com" None None None) "k8s:prod" true] {["ada@example.com" := mkLastKnown ["sre@example.com"] 7]})
    as (client&name&groups&_&_&Hs&_&Hholds&Hdir&_); [vm_compute; reflexivity|].
  split; [exact Hs|]. exists name, groups. split; [exact Hholds|]. intros Hne. destruct (Hdir Hne) as (res&Hres&<-).
  apply (f_equal fst) in Hres. vm_compute in Hres. injection Hres as <-. reflexivity.
Defined.

Lemma token_groups_at_audience_witness :
  assoc "groups" (applyGroupsDelimiter sample_policy (scopeClaims ScopingEnforce sample_policy [("tier", VStr "gold")] "k8s:prod"
    ["prod:k8s:admin"; "prod:k8s:viewer"; "rung:sre"]) "k8s:prod") = Some (VList [VStr "prod.k8s.admin"; VStr "prod.k8s.viewer"]).
Proof.
  destruct (token_groups_at_audience sample_policy [("tier", VStr "gold")] "k8s:prod" ["prod:k8s:admin"; "prod:k8s:viewer"; "rung:sre"]) as [Hg _];
    [discriminate..|]. rewrite Hg. vm_compute. reflexivity.
Defined.

Lemma mint_lifetime_bounds_witness : (mint_lifetime sample_issuer ada_grant (2 * hour) <= 1800)%Z.
Proof. apply (mint_lifetime_bounds sample_issuer ada_grant (2 * hour)); vm_compute; reflexivity. Defined.
