(* ===== verification/ClientDoc.v ===== *)
(** * ClientDoc: clients that describe themselves

    [internal/issuer/clientdoc.go]: a client whose id is a URL serving a document
    about it — which ids are fetched, what a document must say, and for how long a
    copy is served.

    What a fetch brought is an argument ([answer]: the library's outcome, with the
    decoded fields of the document); the allow-list is the policy's.  The clock does
    not move within a step, the wait before the one retry apart, which nothing reads.

    The theorems: a client is answered only for an id the allow-list permits, from a
    document that named its own address and was fetched at most ten minutes ago — or
    at most an hour longer, while the origin cannot be reached; it is public and
    gated by the allow-list whatever the document says. *)

From S2P Require Import Prelude GoStrings NetUrl Policy Validate.

Implicit Types (clientID id : string) (now : Z) (allow : ClientDocuments).

(** ** URLs, written back *)

(** [url.escape] in the modes used: a byte that is not kept becomes its hexadecimal form. *)
Definition upper_hex_digit (n : nat) : ascii := ascii_of_nat (if n <? 10 then n + 48 else n + 55).
Fixpoint escape (keep : ascii → bool) (s : string) : string :=
  match s with
  | EmptyString => EmptyString
  | String c rest =>
      if keep c then String c (escape keep rest)
      else String "%" (String (upper_hex_digit (code c / 16)) (String (upper_hex_digit (code c mod 16)) (escape keep rest)))
  end.

Definition path_byte (c : ascii) : bool := is_letter c || is_digit c || contains_byte c "-_.~$&+,/:;=@".
(** [url.validEncoded] for a path. *)
Definition encoded_path_byte (c : ascii) : bool := path_byte c || contains_byte c "!'()*[]%".

(** [URL.EscapedPath] of the path a URL was parsed from. *)
Definition escaped_path (path : string) : string :=
  if str_all encoded_path_byte path then path
  else match unescape EncodePath path with Some p => escape path_byte p | None => path end.

(** [URL.String] of an [https] URL that [documentURL] accepts. *)
Definition url_String (raw : string) (u : URL) : string :=
  let rest := TrimPrefix (match cut_on "#" raw with Some (before, _) => before | None => raw end) "https://" in
  let '(rest, query) := match cut_on "?" rest with Some (before, q) => (before, "?" +:+ q) | None => (rest, "") end in
  let path := match cut_on "/" rest with Some (_, p) => "/" +:+ p | None => "" end in
  "https://" +:+ escape host_byte (Host u) +:+ escaped_path path +:+ query.

(** ** The documents *)

(** [internal/issuer/clientdoc.go:300-308 documentClients.load]: the fields read of a document. *)
Record document := mkDocument { dc_ClientID : string; dc_ClientName : string; dc_RedirectURIs : list string }.

(** What asking the origin brought: no connection, a redirect, a status that is not 200, a
    body that broke off, or a body of some size and what it decodes to. *)
Inductive answer : Type :=
| Unreachable
| RedirectedTo (url : string)
| Status (code : Z)
| BrokenOff
| Body (bytes : Z) (doc : option document).

Inductive document_error : Type :=
| NotADocumentClient
| NotAURL clientID | NoHost clientID | HasCredentials | HasFragment | NotAdmitted (host : string)
| Transient (answered : answer)
| ErrRedirected (url : string) | ErrStatus (code : Z) | TooLarge | NotJSON
| CallsItself (name : string) | NoRedirects.

(** [internal/issuer/clientdoc.go:68-73 errTransient] *)
Definition is_transient (e : document_error) : bool := match e with Transient _ => true | _ => false end.

Definition second : Z := 1000000000.
(** [internal/issuer/clientdoc.go:32-37 documentMaxBytes] *)
Definition documentMaxBytes : Z := 64 * 1024.
(** [internal/issuer/clientdoc.go:49-51 documentStaleFor] *)
Definition documentStaleFor : Z := 3600 * second.
(** [internal/issuer/clientdoc.go:52-56 documentCacheFor] *)
Definition documentCacheFor : Z := 600 * second.
(** [internal/issuer/clientdoc.go:57-65 documentNameMax] *)
Definition documentNameMax : nat := 64.

(** [internal/issuer/clientdoc.go:documentURL] *)
Definition documentURL clientID : result document_error URL :=
  if negb (HasPrefix clientID "https://") then Err NotADocumentClient
  else match url_Parse clientID with
  | None => Err (NotAURL clientID)
  | Some target =>
      if empty (Host target) then Err (NoHost clientID)
      else if HasUser target then Err HasCredentials
      else if negb (empty (Fragment target)) then Err HasFragment
      else Ok target
  end.

(** [internal/issuer/clientdoc.go:documentName] *)
Definition documentName (name host : string) : string :=
  let name := replace_byte "009" " " (replace_byte "013" " " (replace_byte "010" " " (TrimSpace name))) in
  if empty name then host else String.substring 0 documentNameMax name.

(** [internal/issuer/clientdoc.go:documentClients.load], given what the fetch brought. *)
Definition load allow clientID (target : URL) (got : answer) : result document_error Client :=
  match got with
  | Unreachable | BrokenOff => Err (Transient got)
  | RedirectedTo url => Err (ErrRedirected url)
  | Status code => Err (if (500 <=? code)%Z then Transient got else ErrStatus code)
  | Body bytes doc =>
      if (documentMaxBytes <? bytes)%Z then Err TooLarge
      else match doc with
      | None => Err NotJSON
      | Some d =>
          if negb (bool_decide (dc_ClientID d = url_String clientID target)) then Err (CallsItself (dc_ClientID d))
          else if bool_decide (dc_RedirectURIs d = []) then Err NoRedirects
          else Ok (mkClient "public" (documentName (dc_ClientName d) (Host target))
                 "Registered by the document it serves at its own address." "" (dc_RedirectURIs d) []
                 (d_Requires allow) (d_TTLCap allow) false "" "" no_override "")
      end
  end.

(** What a resolution may find at the origin: the first answer, whether the caller has gone
    by the time it is retried, and the second answer. *)
Record origin := mkOrigin { og_first : answer; og_gone : bool; og_second : answer }.

(** [internal/issuer/clientdoc.go:documentClients.loadWithRetry] *)
Definition loadWithRetry allow clientID (target : URL) (og : origin) : result document_error Client :=
  match load allow clientID target (og_first og) with
  | Ok client => Ok client
  | Err e => if negb (is_transient e) || og_gone og then Err e else load allow clientID target (og_second og)
  end.

(** [internal/issuer/clientdoc.go:type cachedDocument] *)
Record cachedDocument := mkCached { ca_client : Client; ca_until : Z }.

(** [internal/issuer/clientdoc.go:documentClients.fromCache] *)
Definition fromCache (cached : gmap string cachedDocument) clientID now : option Client * gmap string cachedDocument :=
  match cached !! clientID with
  | None => (None, cached)
  | Some entry =>
      if (ca_until entry <? now)%Z
      then (None, if (ca_until entry + documentStaleFor <? now)%Z then delete clientID cached else cached)
      else (Some (ca_client entry), cached)
  end.

(** [internal/issuer/clientdoc.go:documentClients.fromStale] *)
Definition fromStale (cached : gmap string cachedDocument) clientID now : option Client :=
  match cached !! clientID with
  | None => None
  | Some entry => if (ca_until entry + documentStaleFor <? now)%Z then None else Some (ca_client entry)
  end.

(** [internal/issuer/clientdoc.go:documentClients.Resolve] *)
Definition documents_Resolve allow (cached : gmap string cachedDocument) clientID (og : origin) now :
    result document_error Client * gmap string cachedDocument :=
  if negb (Enabled allow) then (Err NotADocumentClient, cached)
  else match documentURL clientID with
  | Err e => (Err e, cached)
  | Ok target =>
      if negb (Permits allow target) then (Err (NotAdmitted (Host target)), cached)
      else match fromCache cached clientID now with
      | (Some client, cached) => (Ok client, cached)
      | (None, cached) =>
          match loadWithRetry allow clientID target og with
          | Ok client => (Ok client, <[clientID := mkCached client (now + documentCacheFor)]> cached)
          | Err e =>
              match fromStale cached clientID now with
              | Some stale => (if is_transient e then Ok stale else Err e, cached)
              | None => (Err e, cached)
              end
          end
      end
  end.

(** ** What a client that describes itself is vouched by *)

(** A resolution that happened: which id, what the origin answered, when. *)
Record fetched := mkFetched { fe_id : string; fe_origin : origin; fe_at : Z }.

Definition cache_after allow (es : list fetched) : gmap string cachedDocument :=
  foldl (λ cached e, (documents_Resolve allow cached (fe_id e) (fe_origin e) (fe_at e)).2) ∅ es.

(** A document served at its own address, with somewhere to send a person back to. *)
Definition documented allow clientID (target : URL) (client : Client) (got : answer) : Prop :=
  ∃ bytes d, got = Body bytes (Some d) ∧ (bytes <= documentMaxBytes)%Z ∧ dc_ClientID d = url_String clientID target ∧
    c_Redirects client = dc_RedirectURIs d ∧ dc_RedirectURIs d ≠ [] ∧
    c_Kind client = "public" ∧ c_Secret client = "" ∧ c_SignInExchange client = false ∧
    c_Requires client = d_Requires allow ∧ c_TTLCap client = d_TTLCap allow ∧
    c_DisplayName client = documentName (dc_ClientName d) (Host target).

Lemma load_documented allow clientID (target : URL) got client :
  load allow clientID target got = Ok client → documented allow clientID target client got.
Proof.
  unfold load. destruct got as [| |code| |bytes [d|]]; try done.
  - destruct (Z.ltb_spec documentMaxBytes bytes); [done|]. case_bool_decide as Hid; [|done]. case_bool_decide as Hr; [done|].
    intros [= <-]. exists bytes, d. by split_and!.
  - by destruct (Z.ltb_spec documentMaxBytes bytes).
Qed.

Lemma loadWithRetry_documented allow clientID (target : URL) og client : loadWithRetry allow clientID target og = Ok client →
  documented allow clientID target client (og_first og) ∨
  (∃ e, load allow clientID target (og_first og) = Err e ∧ is_transient e = true) ∧ og_gone og = false ∧
  documented allow clientID target client (og_second og).
Proof.
  unfold loadWithRetry. destruct (load allow clientID target (og_first og)) as [c|e] eqn:Hl.
  - intros [= <-]. left. by apply load_documented.
  - destruct (is_transient e) eqn:Ht, (og_gone og) eqn:Hg; simpl; try done. intros ?%load_documented. right. eauto.
Qed.

Lemma documents_Resolve_cached allow cached clientID og now k entry :
  (documents_Resolve allow cached clientID og now).2 !! k = Some entry →
  cached !! k = Some entry ∨
  k = clientID ∧ ca_until entry = (now + documentCacheFor)%Z ∧
  ∃ target, documentURL clientID = Ok target ∧ loadWithRetry allow clientID target og = Ok (ca_client entry).
Proof.
  unfold documents_Resolve. destruct (Enabled allow); simpl; [|by left].
  destruct (documentURL clientID) as [target|e] eqn:Hu; [|by left]. destruct (Permits allow target); simpl; [|by left].
  assert (∀ x, (fromCache cached clientID now).2 !! k = Some x → cached !! k = Some x) as Hsub.
  { intros x. unfold fromCache. destruct (cached !! clientID) as [y|]; [|done]. destruct (_ <? now)%Z; [|done].
    simpl. destruct (_ <? now)%Z; [|done]. by intros [_ ?]%lookup_delete_Some. }
  destruct (fromCache cached clientID now) as [[c|] cached']; simpl in *; [auto|].
  destruct (loadWithRetry allow clientID target og) as [c|e] eqn:Hl; simpl.
  - intros [[<- <-]|[_ ?]]%lookup_insert_Some; [right; eauto|auto].
  - destruct (fromStale cached' clientID now); simpl; auto.
Qed.

Lemma cache_after_fetched allow es k entry : cache_after allow es !! k = Some entry →
  ∃ e target, e ∈ es ∧ fe_id e = k ∧ ca_until entry = (fe_at e + documentCacheFor)%Z ∧
    documentURL k = Ok target ∧ loadWithRetry allow k target (fe_origin e) = Ok (ca_client entry).
Proof.
  unfold cache_after. revert entry. induction es as [|e es IH] using rev_ind; intros entry; [simpl; by rewrite lookup_empty|].
  rewrite foldl_snoc. intros [Hold|(->&Hu&target&?&?)]%documents_Resolve_cached.
  - destruct (IH entry Hold) as (e'&target&?&?). exists e', target. split; [apply elem_of_app; by left|done].
  - exists e, target. split_and!; try done. apply elem_of_app. right. by left.
Qed.

(** C23: A client that describes itself is answered only for an id that is a URL on an admitted
    origin, and is what a document fetched there said, ten minutes ago at most — or,
    while the origin cannot be reached, an hour more; in either case a document that
    was at its own address, made into a public client that holds no secret and that
    only the allow-list's groups are admitted to. *)
Theorem Resolve_vouched allow es clientID og now client :
  (documents_Resolve allow (cache_after allow es) clientID og now).1 = Ok client →
  ∃ target, documentURL clientID = Ok target ∧ Enabled allow = true ∧ Permits allow target = true ∧
  ∃ e, (e = mkFetched clientID og now ∨ e ∈ es ∧ fe_id e = clientID) ∧
    (documented allow clientID target client (og_first (fe_origin e)) ∨ documented allow clientID target client (og_second (fe_origin e))) ∧
    ((now - fe_at e <= documentCacheFor)%Z ∨
     (now - fe_at e <= documentCacheFor + documentStaleFor)%Z ∧
     ∃ err, loadWithRetry allow clientID target og = Err err ∧ is_transient err = true).
Proof.
  pose proof (cache_after_fetched allow es clientID) as Hcache. unfold documents_Resolve.
  destruct (Enabled allow); simpl; [|done]. destruct (documentURL clientID) as [target|e] eqn:Hu; [|done].
  destruct (Permits allow target) eqn:Hp; simpl; [|done]. unfold fromCache.
  assert (∀ entry, cache_after allow es !! clientID = Some entry → ∃ e, (e ∈ es ∧ fe_id e = clientID) ∧
    ca_until entry = (fe_at e + documentCacheFor)%Z ∧ (documented allow clientID target (ca_client entry) (og_first (fe_origin e)) ∨
    documented allow clientID target (ca_client entry) (og_second (fe_origin e)))) as Hentry.
  { intros entry (e&t&He&Hid&Hun&Ht&Hl)%Hcache. injection Ht as <-. exists e. split_and!; [done..|].
    apply loadWithRetry_documented in Hl as [?|(_&_&?)]; auto. }
  assert (∀ c (Hl : loadWithRetry allow clientID target og = Ok c), ∃ e, (e = mkFetched clientID og now ∨ e ∈ es ∧ fe_id e = clientID) ∧
    (documented allow clientID target c (og_first (fe_origin e)) ∨ documented allow clientID target c (og_second (fe_origin e))) ∧
    (now - fe_at e <= documentCacheFor)%Z) as Hnow.
  { intros c Hl. exists (mkFetched clientID og now). split; [by left|]. split; [|simpl; unfold documentCacheFor, second; lia].
    apply loadWithRetry_documented in Hl as [?|(_&_&?)]; auto. }
  destruct (cache_after allow es !! clientID) as [entry|] eqn:He; simpl.
  2: { destruct (loadWithRetry allow clientID target og) as [c|err] eqn:Hl; simpl; [|unfold fromStale; by rewrite He].
       intros [= <-]. exists target. split_and!; [done..|]. destruct (Hnow c eq_refl) as (e&?&?&?). exists e. auto. }
  destruct (Hentry entry eq_refl) as (e&Hin&Hun&Hdoc).
  destruct (Z.ltb_spec (ca_until entry) now) as [Hexp|Hfresh]; simpl.
  2: { intros [= <-]. exists target. split_and!; [done..|]. exists e. split_and!; [auto..|]. left. lia. }
  destruct (loadWithRetry allow clientID target og) as [c|err] eqn:Hl; simpl.
  { intros [= <-]. exists target. split_and!; [done..|]. destruct (Hnow c eq_refl) as (e'&?&?&?). exists e'. auto. }
  unfold fromStale. destruct (Z.ltb_spec (ca_until entry + documentStaleFor) now) as [|Hstale]; simpl; [by rewrite lookup_delete_eq|].
  rewrite He. destruct (Z.ltb_spec (ca_until entry + documentStaleFor) now); [lia|]. destruct (is_transient err) eqn:Ht; [|done].
  intros [= <-]. exists target. split_and!; [done..|]. exists e. split_and!; [auto..|]. right. split; [lia|eauto].
Qed.

(** What the origin itself says is obeyed at once: once the fresh copy has run out, an answer
    that is not a failure to reach it — a changed document that does not validate, a
    redirect, a refusal — is the resolution's answer, whatever is still held. *)
Theorem Resolve_obeys_the_origin allow cached clientID og now (target : URL) err :
  Enabled allow = true → documentURL clientID = Ok target → Permits allow target = true →
  (∀ entry, cached !! clientID = Some entry → (ca_until entry < now)%Z) →
  loadWithRetry allow clientID target og = Err err → is_transient err = false →
  (documents_Resolve allow cached clientID og now).1 = Err err.
Proof.
  intros Hen Hu Hp Hold Hl Ht. unfold documents_Resolve. rewrite Hen, Hu. simpl. rewrite Hp. simpl. unfold fromCache.
  destruct (cached !! clientID) as [entry|] eqn:He.
  - rewrite (proj2 (Z.ltb_lt _ _)) by auto. destruct (_ <? now)%Z; rewrite Hl; unfold fromStale.
    + by rewrite lookup_delete_eq.
    + rewrite He. destruct (_ <? now)%Z; simpl; [done|by rewrite Ht].
  - rewrite Hl. unfold fromStale. by rewrite He.
Qed.

(** ** Examples, and witnesses *)

Definition editors : ClientDocuments := mkClientDocuments ["claude.ai"] ["rung:sre"] (900 * second) no_override.
Definition editor_document : document := mkDocument "https://claude.ai/oauth" "An editor" ["https://claude.ai/back"].
Definition editor_up : origin := mkOrigin (Body 200 (Some editor_document)) false Unreachable.
Definition editor_down : origin := mkOrigin Unreachable false (Status 503).
Definition editor_gone : origin := mkOrigin (Status 404) false Unreachable.

Example url_String_samples :
  map (λ raw, url_String raw <$> match documentURL raw with Ok u => Some u | Err _ => None end)
    ["https://claude.ai/oauth"; "https://Claude.ai:443/a b/%41?q=1#"; "https://claude.ai"; "https://claude.ai/x?"] =
  [Some "https://claude.ai/oauth"; Some "https://Claude.ai:443/a%20b/A?q=1"; Some "https://claude.ai"; Some "https://claude.ai/x?"].
Proof. vm_compute. reflexivity. Qed.

(** A document names its own address, and the address is compared as the URL is written back,
    not with the id it was asked for by: several ids resolve to one document. *)
Theorem one_document_several_ids :
  let served := {[ "https://claude.ai/oauth"; "https://claude.ai/oauth#" ]} : gset string in
  set_Forall (λ clientID, match (documents_Resolve editors ∅ clientID editor_up 0).1 with
    | Ok client => c_DisplayName client = "An editor" | Err _ => False end) served.
Proof. apply set_Forall_union; apply set_Forall_singleton; vm_compute; reflexivity. Qed.

Lemma Resolve_vouched_witness : ∃ e, (e = mkFetched "https://claude.ai/oauth" editor_down (3000 * second) ∨
    e ∈ [mkFetched "https://claude.ai/oauth" editor_up 5] ∧ fe_id e = "https://claude.ai/oauth") ∧
  (3000 * second - fe_at e <= documentCacheFor + documentStaleFor)%Z.
Proof.
  destruct (Resolve_vouched editors [mkFetched "https://claude.ai/oauth" editor_up 5] "https://claude.ai/oauth" editor_down (3000 * second)
    (mkClient "public" "An editor" "Registered by the document it serves at its own address." "" ["https://claude.ai/back"] []
       ["rung:sre"] (900 * second) false "" "" no_override "")) as (u&_&_&_&e&He&_&Hage); [vm_compute; reflexivity|].
  exists e. split; [exact He|]. destruct Hage as [Hage|[Hage _]]; [unfold documentCacheFor, documentStaleFor, second in *; lia|exact Hage].
Defined.

Lemma Resolve_obeys_the_origin_witness :
  (documents_Resolve editors (cache_after editors [mkFetched "https://claude.ai/oauth" editor_up 5]) "https://claude.ai/oauth"
     editor_gone (3000 * second)).1 = Err (ErrStatus 404).
Proof.
  apply (Resolve_obeys_the_origin editors _ _ _ _ (mkURL "https" false "claude.ai" "")); [reflexivity..| |reflexivity|reflexivity].
  intros entry Hl.
  assert (ca_until <$> cache_after editors [mkFetched "https://claude.ai/oauth" editor_up 5] !! "https://claude.ai/oauth" =
    Some (600 * second + 5)%Z) as Hu by (vm_compute; reflexivity).
  rewrite Hl in Hu. injection Hu as ->. reflexivity.
Defined.
