(* ===== verification/Storage.v ===== *)
(** * Storage: requests in progress, codes and tokens

    [internal/issuer/storage.go]: what the OpenID library calls — requests and the codes
    they are redeemed by, tokens with their claims and their ends, refreshes, what an
    exchange proves and is granted — over the session index ([Sessions]), the browser
    sign-ins ([SSO]) and the decisions ([Issuer]); with signing_audience.go, recovery.go,
    grants.go and the verifiers.

    The library's own values are read through the fields the source reads of them
    ([oidc_request], [exchange_request]).  A random id is an argument of the step that
    draws it; the directory's answers, what a document fetch brings, the clients'
    secrets and whether the audit trail takes a durable record are the section's
    parameters.  What is recorded is a list; logs and metrics are left out. *)

From S2P Require Import Prelude GoStrings Names Claims Policy Validate Evaluate PolicySet Port IssuerState Sessions KeyRing SSO Issuer ClientDoc.

Implicit Types (id token subject clientID audience resource : string) (now : Z).

(** ** The data *)

(** The fields read of the library's authorization request. *)
Record oidc_request := mkOidcRequest {
  oq_ClientID : string; oq_Scopes : list string; oq_RedirectURI : string; oq_State : string;
  oq_Prompt : list string; oq_MaxAge : option Z }.

(** [internal/issuer/storage.go:type authRequest], as it is stored: the session it opened is not. *)
Record authRequest := mkAuthRequest {
  ar_ID : string; ar_Req : oidc_request; ar_Subject : string; ar_AuthTime : option Z; ar_IsDone : bool;
  ar_How : string; ar_Resource : string; ar_SSO : string }.

(** [internal/issuer/storage.go:type token] *)
Record token_record := mkToken {
  tk_ID : string; tk_Subject : string; tk_ClientID : string; tk_Audience : list string; tk_Scopes : list string;
  tk_Claims : list (string * value); tk_Expires : Z; tk_GivenName : string; tk_FamilyName : string; tk_Session : string }.

(** [internal/issuer/signin.go:type Authenticated] *)
Record Authenticated := mkAuthenticated { au_Subject : string; au_AuthTime : option Z; au_SSO : string; au_How : string }.

(** [internal/issuer/signin.go:type Pending] *)
Record Pending := mkPending {
  pe_ForcesLogin : bool; pe_ForbidsUI : bool; pe_MaxAge : Z; pe_RedirectURI : string; pe_State : string;
  pe_ClientID : string; pe_Resource : string; pe_Client : option Client }.

(** The fields read of the library's exchange request: which request it is, who presents it
    and for what, the subject token as the library verified it, and the verifier's proof
    it carries, if one made it. *)
Record exchange_request := mkExchange {
  xr_key : string; xr_ClientID : string; xr_Audience : list string; xr_Subject : string; xr_Scopes : list string;
  xr_AuthTime : option Z; xr_TokenType : string; xr_Token : string; xr_Proof : option Proof; xr_Requested : string }.

(** A token request: an authorization with the session it opened, a live session presented for
    renewal with the scopes asked for, or an exchange. *)
Inductive token_request : Type :=
| ForCode (req : authRequest) (session : string)
| ForRefresh (session : Session) (scopes : option (list string))
| ForExchange (x : exchange_request).

(** [internal/issuer/recovery.go:type TokenRecovery] *)
Record TokenRecovery := mkTokenRecovery {
  tr_Review : option (string → string → option string); tr_Audience : string; tr_Subjects : list string; tr_Cluster : string }.

(** What is written to the audit trail. *)
Inductive outcome := Succeeded | Denied (reason : string) | Failed (reason : string).
Inductive event : Type :=
| SignedIn (who : Authenticated) clientID (o : outcome) (durably : bool)
| SessionRefreshRefused (identity : string) clientID (reason : string)
| TokenExchanged (r : exchange_record)
| SessionsEnded (identity : string) (ended : nat).

Inductive storage_error : Type :=
| StoreFailed (e : issuer_error)
| ErrNoClient (e : document_error) | ErrUnknownClient clientID
| NoSuchRequest | NoSuchCode | NoSuchToken | SessionEnded
| ErrNotEntitled subject (requires : list string) | ErrWithdrawn resource | ErrNotEntitledFor subject (requires : list string) resource
| ErrDirectory (e : refusal)
| ErrUnaudited (e : string)
| NotValidated
| RefreshTokenNotLive | ErrInvalidRefreshToken | AtAbsoluteLimit | NotAdmittedToClient
| ServerError (e : storage_error)
| SecretForDocument | SecretForPublic | SecretMismatch
| OneAudience | InvalidTarget (e : exchange_error) | InvalidGrant (e : exchange_error)
| NotAnAccessToken (type : string) | NoRecord | NotExchangeable clientID | AnotherClient clientID | NotAPerson subject
| NoSession | SessionNotLive
| NoSigningAlgorithm (what : string) (alg : string) | NoKeyYet
| ErrRecoveryRefused.

(** [internal/issuer/storage.go:1603-1610 ErrNotEntitled] *)
Definition is_not_entitled (e : storage_error) : bool :=
  match e with ErrNotEntitled _ _ | ErrWithdrawn _ | ErrNotEntitledFor _ _ _ => true | _ => false end.

(** [internal/issuer/storage.go:223-227 RecoveryHow] *)
Definition RecoveryHow : string := "recovery".
Definition ACRDirectory : string := "urn:truvity:access-roster:acr:directory".
Definition ACRRecovery : string := "urn:truvity:access-roster:acr:recovery".

(** [internal/issuer/storage.go:acrFor] *)
Definition acrFor (how : string) : string := if bool_decide (how = RecoveryHow) then ACRRecovery else ACRDirectory.
(** [internal/issuer/storage.go:amrFor] *)
Definition amrFor (how : string) : list string := if bool_decide (how = RecoveryHow) then ["swk"] else [].

(** [internal/issuer/storage.go:256-266 authRequestTTL] *)
Definition authRequestTTL : Z := 30 * minute.
Definition authCodeTTL : Z := 5 * minute.

(** [internal/issuer/storage.go:requestKey] *)
Definition requestKey id : string := "issuer:request:" +:+ id.
(** [internal/issuer/storage.go:codeKey] *)
Definition codeKey (code : string) : string := "issuer:code:" +:+ code.
(** [internal/issuer/storage.go:codeSessionKey] *)
Definition codeSessionKey (request : string) : string := "issuer:code-session:" +:+ request.
(** [internal/issuer/storage.go:tokenKey] *)
Definition tokenKey id : string := "issuer:token:" +:+ id.

(** ** What a token request says of itself *)

(** [internal/issuer/storage.go:authRequest.GetAudience] *)
Definition authRequest_GetAudience (a : authRequest) : list string :=
  if negb (empty (ar_Resource a)) then [ar_Resource a] else [oq_ClientID (ar_Req a)].

(** [internal/issuer/storage.go:refreshRequest.GetAudience] *)
Definition refreshRequest_GetAudience (x : Session) : list string :=
  if negb (empty (se_Resource x)) then [se_Resource x] else [se_ClientID x].

Definition GetAudience (r : token_request) : list string :=
  match r with
  | ForCode a _ => authRequest_GetAudience a | ForRefresh x _ => refreshRequest_GetAudience x | ForExchange x => xr_Audience x
  end.

Definition GetSubject (r : token_request) : string :=
  match r with ForCode a _ => ar_Subject a | ForRefresh x _ => se_Identity x | ForExchange x => xr_Subject x end.

(** [internal/issuer/storage.go:refreshRequest.GetScopes] *)
Definition refreshRequest_GetScopes (x : Session) (scopes : option (list string)) : list string := default (se_Scopes x) scopes.

Definition GetScopes (r : token_request) : list string :=
  match r with ForCode a _ => oq_Scopes (ar_Req a) | ForRefresh x s => refreshRequest_GetScopes x s | ForExchange x => xr_Scopes x end.

(** [internal/issuer/storage.go:clientOf] *)
Definition clientOf (r : token_request) : string :=
  match r with ForCode a _ => oq_ClientID (ar_Req a) | ForRefresh x _ => se_ClientID x | ForExchange x => xr_ClientID x end.

(** [internal/issuer/storage.go:refreshRequest.GetAuthTime] *)
Definition refreshRequest_GetAuthTime (x : Session) : option Z :=
  match se_AuthTime x with Some t => Some t | None => Some (se_IssuedAt x) end.

(** [internal/issuer/storage.go:authTimeOf] *)
Definition authTimeOf (r : token_request) : option Z :=
  match r with ForCode a _ => ar_AuthTime a | ForRefresh x _ => refreshRequest_GetAuthTime x | ForExchange x => xr_AuthTime x end.

(** [internal/issuer/storage.go:ssoOf] *)
Definition ssoOf (r : token_request) : string :=
  match r with ForCode a _ => ar_SSO a | ForRefresh x _ => se_SSO x | ForExchange _ => "" end.

(** [internal/issuer/storage.go:resourceOf] *)
Definition resourceOf (r : token_request) : string :=
  match r with ForCode a _ => ar_Resource a | ForRefresh x _ => se_Resource x | ForExchange _ => "" end.

(** [internal/issuer/storage.go:sessionOf] *)
Definition sessionOf (r : token_request) : string :=
  match r with ForCode _ session => session | ForRefresh x _ => se_ID x | ForExchange _ => "" end.

(** [internal/issuer/signing_audience.go:accessAudienceOf] *)
Definition accessAudienceOf (r : token_request) : string := default "" (head (GetAudience r)).

(** ** Names and claims *)

(** [internal/issuer/storage.go:displayName] *)
Definition displayName (given family : string) : string :=
  if negb (empty given) && negb (empty family) then given +:+ " " +:+ family
  else if negb (empty given) then given else family.

(** [internal/issuer/storage.go:withNames] *)
Definition withNames (claims : list (string * value)) (given family : string) : list (string * value) :=
  let name := displayName given family in
  if empty name then claims
  else
    let out := assoc_set "name" (VStr name) claims in
    let out := if negb (empty given) then assoc_set "given_name" (VStr given) out else out in
    if negb (empty family) then assoc_set "family_name" (VStr family) out else out.

(** What a userinfo answer says: the library's fields the source sets, and the claims appended. *)
Record userinfo := mkUserinfo {
  ui_Subject : string; ui_Email : string; ui_EmailVerified : bool; ui_PreferredUsername : string;
  ui_GivenName : string; ui_FamilyName : string; ui_Name : string; ui_Claims : list (string * value) }.

(** [internal/issuer/storage.go:Storage.fill] *)
Definition fill subject (claims : list (string * value)) (given family : string) : userinfo :=
  let mail := Contains subject "@" in
  mkUserinfo subject (if mail then subject else "") mail (if mail then subject else "") given family (displayName given family)
    (foldl (λ out kv, assoc_set kv.1 kv.2 out) [] claims).

(** ** The process, and its steps *)

Section world.
Context {S : Type}.

(** [internal/issuer/storage.go:type Storage]: what changes — the store every replica shares; and of
    this process, what the directory last said, the documents held, the decisions about
    exchanges, and the audience the request in hand is signed for; and the audit trail. *)
Record World := mkWorld {
  w_store : S; w_seen : gmap string lastKnown; w_cached : gmap string cachedDocument; w_grants : gmap string Grant;
  w_marked : option string; w_trail : list event }.

Definition with_store (w : World) s := mkWorld s (w_seen w) (w_cached w) (w_grants w) (w_marked w) (w_trail w).
Definition with_seen (w : World) seen := mkWorld (w_store w) seen (w_cached w) (w_grants w) (w_marked w) (w_trail w).
Definition with_cached (w : World) cached := mkWorld (w_store w) (w_seen w) cached (w_grants w) (w_marked w) (w_trail w).
Definition with_grants (w : World) grants := mkWorld (w_store w) (w_seen w) (w_cached w) grants (w_marked w) (w_trail w).
Definition with_marked (w : World) marked := mkWorld (w_store w) (w_seen w) (w_cached w) (w_grants w) marked (w_trail w).
Definition with_trail (w : World) trail := mkWorld (w_store w) (w_seen w) (w_cached w) (w_grants w) (w_marked w) trail.
End world.
Arguments World S : clear implicits.

Definition W (S A : Type) : Type := World S → result storage_error A * World S.
#[global] Instance W_ret {S} : MRet (W S) := λ A a w, (Ok a, w).
#[global] Instance W_bind {S} : MBind (W S) := λ A B k m w,
  match m w with (Ok a, w') => k a w' | (Err e, w') => (Err e, w') end.
Definition refuse {S A} (e : storage_error) : W S A := λ w, (Err e, w).
(** The error of a step is a value: what was done stays done. *)
Definition try_ {S A} (m : W S A) : W S (result storage_error A) := λ w, let '(r, w) := m w in (Ok r, w).
Definition of_result {S A} (r : result storage_error A) : W S A := λ w, (r, w).
(** [oidc.ErrServerError().WithDescription("%s", err)]. *)
Definition server_error {S A} (m : W S A) : W S A := λ w,
  let '(r, w) := m w in (match r with Ok a => Ok a | Err e => Err (ServerError e) end, w).

Section operations.
Context {V S : Type} `{IState V S} `{Value V} `{Document V Session} `{Document V token_record} `{Document V authRequest}.
Context (i : Issuer) (keys : KeyRings).
Context (directory : string → result string Standing) (documents : string → origin) (secrets : string → option string).
Context (durable : event → option string).

Definition stored {A} (m : M S A) : W S A := λ w,
  let '(r, s) := m (w_store w) in (match r with Ok a => Ok a | Err e => Err (StoreFailed e) end, with_store w s).
Definition now_ : W S Z := λ w, (Ok (is_now (w_store w)), w).

(** [internal/issuer/issuer.go:Issuer.record] *)
Definition record_event (e : event) : W S unit := λ w, (Ok tt, with_trail w (w_trail w ++ [e])).
(** [internal/issuer/issuer.go:Issuer.recordDurable] *)
Definition recordDurable (e : event) : W S unit := λ w,
  match durable e with None => (Ok tt, with_trail w (w_trail w ++ [e])) | Some err => (Err (ErrUnaudited err), w) end.

(** [internal/issuer/resolve.go:Resolver.Resolve], in this process. *)
Definition resolve subject : W S Resolution := λ w,
  let '(r, seen) := Resolve (cf_HoldWindow (is_cfg i)) (w_seen w) subject (directory (address subject)) (is_now (w_store w)) in
  (match r with Ok x => Ok x | Err e => Err (ErrDirectory e) end, with_seen w seen).

(** [internal/issuer/clientdoc.go:documentClients.Resolve], in this process. *)
Definition resolve_document clientID : W S Client := λ w,
  let '(r, cached) := documents_Resolve (p_ClientDocuments (is_policy i)) (w_cached w) clientID (documents clientID) (is_now (w_store w)) in
  (match r with Ok x => Ok x | Err e => Err (ErrNoClient e) end, with_cached w cached).

(** *** Keys *)

(** [internal/issuer/storage.go:checkSigningAlgorithms] *)
Definition checkSigningAlgorithms : result storage_error unit :=
  let check_row (what : string) (alg : string) := if empty alg || KeyRings_Has keys alg then Ok tt else Err (NoSigningAlgorithm what alg) in
  for_each (λ kc : string * Client, check_row kc.1 (c_SigningAlg kc.2)) (Set_Clients (is_policy i)) ;;
  for_each (λ kr : string * Policy.Resource, check_row kr.1 (r_SigningAlg kr.2)) (Set_Resources (is_policy i)).

(** [internal/issuer/storage.go:Storage.signingAlgorithmFor] *)
Definition signingAlgorithmFor id : string :=
  let default_alg := KeyRings_Default keys in
  if empty id then default_alg
  else
    let client_alg := match Set_Client (is_policy i) id with
      | Some c => if negb (empty (c_SigningAlg c)) then c_SigningAlg c else default_alg | None => default_alg end in
    match Set_Resource (is_policy i) id with
    | Some r => if negb (empty (r_SigningAlg r)) then r_SigningAlg r else client_alg
    | None => client_alg
    end.

(** [internal/issuer/storage.go:Storage.SigningKey] *)
Definition Storage_SigningKey : W S SigningKey := λ w,
  let alg := match w_marked w with Some id => signingAlgorithmFor id | None => KeyRings_Default keys end in
  match KeyRings_Active keys alg with
  | Some key => (Ok key, w)
  | None => match KeyRings_Active keys (KeyRings_Default keys) with Some key => (Ok key, w) | None => (Err NoKeyYet, w) end
  end.

(** [internal/issuer/signing_audience.go:signingAudience.mark] *)
Definition mark id : W S unit := λ w, (Ok tt, with_marked w (Some id)).

(** [internal/issuer/signing_audience.go:signingAudience.get] *)
Definition marked : W S (option string) := λ w, (Ok (w_marked w), w).

(** *** Clients *)

(** [internal/issuer/storage.go:Storage.tokenLifetime] *)
Definition tokenLifetime (declared : Client) : Z := Cap declared (cf_TokenLifetime (is_cfg i)).

(** [internal/issuer/storage.go:Storage.GetClientByClientID]: the client, and how long its ID tokens live. *)
Definition GetClientByClientID clientID : W S (Client * Z) :=
  match Set_Client (is_policy i) clientID with
  | Some declared => mret (declared, tokenLifetime declared)
  | None =>
      r ← try_ (resolve_document clientID);
      match r with
      | Ok resolved => mret (resolved, tokenLifetime resolved)
      | Err (ErrNoClient NotADocumentClient) => refuse (ErrUnknownClient clientID)
      | Err e => refuse e
      end
  end.

(** [internal/issuer/storage.go:Storage.AuthorizeClientIDSecret] *)
Definition AuthorizeClientIDSecret clientID (secret : string) : result storage_error unit :=
  match Set_Client (is_policy i) clientID with
  | None =>
      match documentURL clientID with
      | Ok target => if Permits (p_ClientDocuments (is_policy i)) target then Err SecretForDocument else Err (ErrUnknownClient clientID)
      | Err _ => Err (ErrUnknownClient clientID)
      end
  | Some declared =>
      if bool_decide (c_Kind declared = "public") || bool_decide (c_Kind declared = "exchange")
      then if negb (empty secret) then Err SecretForPublic else Ok tt
      else match secrets clientID with
           | Some want => if empty want || negb (bool_decide (want = secret)) then Err SecretMismatch else Ok tt
           | None => Err SecretMismatch
           end
  end.

(** *** Who somebody is, and what admits them *)

(** [internal/issuer/storage.go:Storage.resolveSubject] *)
Definition resolveSubject subject : W S (Result * string * string) :=
  match ParseServiceAccountSubject subject with
  | Some account => mret (Evaluate (is_policy i) (mkInput "" [] false None (Some account) None), "", "")
  | None =>
      resolved ← resolve subject;
      mret (Evaluate (is_policy i) (Resolution_Input resolved subject), rn_GivenName resolved, rn_FamilyName resolved)
  end.

(** [internal/issuer/storage.go:1638-1665 Storage.entitled]: the two gates. *)
Definition gates (declared : Client) resource subject : W S unit :=
  '(result, _, _) ← resolveSubject subject;
  if negb (Client_Admits declared result) then refuse (ErrNotEntitled subject (c_Requires declared))
  else if empty resource then mret tt
  else match Set_Resource (is_policy i) resource with
  | None => refuse (ErrWithdrawn resource)
  | Some wanted => if negb (Resource_Admits wanted result) then refuse (ErrNotEntitledFor subject (r_Requires wanted) resource)
                   else mret tt
  end.

(** [internal/issuer/storage.go:Storage.entitled] *)
Definition entitled clientID resource subject : W S unit :=
  declared ← match Set_Client (is_policy i) clientID with
    | Some c => mret (Some c)
    | None => r ← try_ (resolve_document clientID); mret (match r with Ok c => Some c | Err _ => None end)
    end;
  match declared with None => mret tt | Some declared => gates declared resource subject end.

(** [internal/issuer/storage.go:Storage.identityOf] *)
Definition identityOf subject : W S (list (string * value) * list string * string * string) :=
  '(result, given, family) ← resolveSubject subject;
  mret (Claims result, res_Groups result, given, family).

(** [internal/issuer/storage.go:Storage.namesOf] *)
Definition namesOf subject : W S (string * string) :=
  if negb (Contains subject "@") then mret ("", "")
  else r ← try_ (resolve subject);
       mret (match r with Ok resolved => (rn_GivenName resolved, rn_FamilyName resolved) | Err _ => ("", "") end).

(** *** Authorization requests *)

(** [internal/issuer/storage.go:Storage.CreateAuthRequest]; [resource] is what resource.go validated. *)
Definition CreateAuthRequest (req : oidc_request) subject resource id : W S authRequest :=
  now ← now_;
  let out := mkAuthRequest id req subject (Some now) false "" resource "" in
  stored (setJSON (requestKey id) out authRequestTTL) ;; mret out.

(** [internal/issuer/storage.go:Storage.request] *)
Definition request id : W S authRequest :=
  found ← stored (getJSON (requestKey id));
  match found with Some req => mret req | None => refuse NoSuchRequest end.

(** [internal/issuer/storage.go:Storage.AuthRequestByID] *)
Definition AuthRequestByID id : W S authRequest := request id.

(** [internal/issuer/storage.go:Storage.revokeCodeSession] *)
Definition revokeCodeSession (req : string) : W S unit :=
  found ← try_ (stored (is_Get (codeSessionKey req)));
  match found with
  | Ok (Some raw) =>
      gone ← try_ (stored (RevokeID (text raw)));
      match gone with
      | Ok _ => _ ← try_ (stored (is_Delete (codeSessionKey req))); mret tt
      | Err _ => mret tt
      end
  | _ => mret tt
  end.

(** [internal/issuer/storage.go:Storage.AuthRequestByCode] *)
Definition AuthRequestByCode (code : string) : W S authRequest :=
  found ← stored (is_Get (codeKey code));
  match found with
  | None => refuse NoSuchCode
  | Some raw =>
      r ← try_ (AuthRequestByID (text raw));
      match r with
      | Ok req => mret req
      | Err e => revokeCodeSession (text raw) ;; refuse e
      end
  end.

(** [internal/issuer/storage.go:Storage.SaveAuthCode] *)
Definition SaveAuthCode id (code : string) : W S unit :=
  request id ;; stored (is_Set (codeKey code) (raw id) authCodeTTL).

(** [internal/issuer/storage.go:Storage.DeleteAuthRequest] *)
Definition DeleteAuthRequest id : W S unit := stored (is_Delete (requestKey id)).

(** [internal/issuer/storage.go:Storage.Complete] *)
Definition Complete id (who : Authenticated) : W S unit :=
  req ← request id;
  now ← now_;
  let clientID := oq_ClientID (ar_Req req) in
  let authTime := match au_AuthTime who with Some t => t | None => now end in
  e ← try_ (entitled clientID (ar_Resource req) (au_Subject who));
  match e with
  | Err e =>
      (if is_not_entitled e
       then record_event (SignedIn who clientID (Denied "signed in, and admitted to no group this client requires") false)
       else mret tt) ;; refuse e
  | Ok _ =>
      let recovery := bool_decide (au_How who = RecoveryHow) in
      let req := mkAuthRequest (ar_ID req) (ar_Req req) (ToLower (au_Subject who)) (Some authTime) true (au_How who)
        (ar_Resource req) (au_SSO who) in
      audited ← (if recovery then try_ (recordDurable (SignedIn who clientID Succeeded true)) else mret (Ok tt));
      match audited with
      | Err e =>
          record_event (SignedIn who clientID (Denied "the audit trail could not be written") false) ;; refuse e
      | Ok _ =>
          saved ← try_ (stored (setJSON (requestKey id) req authRequestTTL));
          match saved with
          | Err e => (if recovery then record_event (SignedIn who clientID (Failed "the sign-in could not be saved") false) else mret tt) ;;
                     refuse e
          | Ok _ => if recovery then mret tt else record_event (SignedIn who clientID Succeeded false)
          end
      end
  end.

(** [internal/issuer/storage.go:Storage.Pending] *)
Definition Storage_Pending id : W S Pending :=
  req ← request id;
  let q := ar_Req req in
  let zero := bool_decide (oq_MaxAge q = Some 0%Z) in
  mret (mkPending (existsb (λ x, str_in x ["login"; "select_account"]) (oq_Prompt q) || zero)
          (str_in "none" (oq_Prompt q)) (from_option (λ a, wrap64 (a * 1000000000)) 0%Z (oq_MaxAge q))
          (oq_RedirectURI q) (oq_State q) (oq_ClientID q) (ar_Resource req) (Set_Client (is_policy i) (oq_ClientID q))).

(** *** Tokens *)

Definition grantFor (x : exchange_request) : W S (option Grant) := λ w, (Ok (w_grants w !! xr_key x), w).

(** [s.grants.Store(request, grant)]. *)
Definition hold_grant (x : exchange_request) (grant : Grant) : W S unit := λ w, (Ok tt, with_grants w (<[xr_key x := grant]> (w_grants w))).

(** [internal/issuer/storage.go:Storage.GetPrivateClaimsFromTokenExchangeRequest] *)
Definition GetPrivateClaimsFromTokenExchangeRequest (x : exchange_request) : W S (list (string * value)) :=
  found ← grantFor x; match found with Some grant => mret (gr_Claims grant) | None => refuse NotValidated end.

(** [internal/issuer/storage.go:Storage.claimsFor] *)
Definition claimsFor (r : token_request) : W S (list (string * value) * list string * string * string) :=
  match r with
  | ForExchange x =>
      claims ← GetPrivateClaimsFromTokenExchangeRequest x;
      found ← grantFor x;
      '(given, family) ← namesOf (xr_Subject x);
      mret (claims, from_option (λ g, res_Groups (gr_Result g)) [] found, given, family)
  | _ => identityOf (GetSubject r)
  end.

(** What a token's claims say at an audience: narrowed, and written with its delimiter. *)
Definition claims_at audience (claims : list (string * value)) (held : list string) : list (string * value) :=
  applyGroupsDelimiter (is_policy i) (scopeClaims (cf_GroupsScoping (is_cfg i)) (is_policy i) claims audience held) audience.

(** [internal/issuer/storage.go:1092-1113 Storage.issue]: how long a token for a request lives. *)
Definition token_lifetime (r : token_request) (grant : option Grant) : Z :=
  let lifetime := cf_TokenLifetime (is_cfg i) in
  let lifetime := match Set_Client (is_policy i) (clientOf r) with Some declared => Cap declared lifetime | None => lifetime end in
  let lifetime :=
    if empty (resourceOf r) then lifetime
    else match Set_Resource (is_policy i) (resourceOf r) with
         | Some wanted => let capped := r_TTLCap wanted in
             if ((0 <? capped) && ((lifetime =? 0) || (capped <? lifetime)))%Z then capped else lifetime
         | None => lifetime
         end in
  match r, grant with
  | ForExchange _, Some g => let capped := Issuer_Lifetime i g in
                             if ((0 <? capped) && (capped <? lifetime))%Z then capped else lifetime
  | _, _ => lifetime
  end.

(** [internal/issuer/storage.go:1115-1138 Storage.issue]: when it ends. *)
Definition token_end (r : token_request) (lifetime : Z) now : Z :=
  let expires := (now + lifetime)%Z in
  match authTimeOf r with
  | None => expires
  | Some authTime =>
      let absolute := Issuer_AbsoluteFor i (resourceOf r) in
      if ((0 <? absolute) && (authTime + absolute <? expires))%Z then (authTime + absolute)%Z else expires
  end.

(** [setJSON] of a token for as long as it has left. *)
Definition save_token (t : token_record) : W S unit :=
  now ← now_; stored (setJSON (tokenKey (tk_ID t)) t (tk_Expires t - now)).

(** [internal/issuer/storage.go:Storage.issue] *)
Definition issue (r : token_request) id : W S token_record :=
  mark (accessAudienceOf r) ;;
  '(claims, held, given, family) ← claimsFor r;
  let claims := claims_at (accessAudienceOf r) claims held in
  grant ← match r with ForExchange x => grantFor x | _ => mret None end;
  now ← now_;
  let issued := mkToken id (GetSubject r) (clientOf r) (GetAudience r) (GetScopes r) claims
    (token_end r (token_lifetime r grant) now) given family "" in
  save_token issued ;; mret issued.

(** [internal/issuer/storage.go:Storage.CreateAccessToken] *)
Definition CreateAccessToken (r : token_request) id : W S (string * Z) :=
  issued ← issue r id; mret (tk_ID issued, tk_Expires issued).

Definition in_session (t : token_record) session : token_record :=
  mkToken (tk_ID t) (tk_Subject t) (tk_ClientID t) (tk_Audience t) (tk_Scopes t) (tk_Claims t) (tk_Expires t)
    (tk_GivenName t) (tk_FamilyName t) session.

(** [internal/issuer/storage.go:895-898 Storage.CreateAccessAndRefreshTokens] *)
Definition how_of (r : token_request) : string := match r with ForExchange _ => "exchange" | _ => "code" end.

(** [internal/issuer/storage.go:870-893 Storage.CreateAccessAndRefreshTokens]: a refresh. *)
Definition renew (issued : token_record) (current refresh : string) : W S (string * string * Z) :=
  r ← server_error (stored (Refreshed (issuer_sessions i) current refresh));
  match r with
  | None => refuse RefreshTokenNotLive
  | Some (live, successor) =>
      server_error (save_token (in_session issued (se_ID live))) ;;
      mret (tk_ID issued, successor, tk_Expires issued)
  end.

(** [internal/issuer/storage.go:895-945 Storage.CreateAccessAndRefreshTokens]: a session is opened. *)
Definition open_session (r : token_request) (issued : token_record) (refresh sessionID : string) :
    W S (string * string * Z * token_request) :=
  session ← server_error (stored (Sessions_Record (issuer_sessions i)
    (mkOpened (tk_Subject issued) (clientOf r) (resourceOf r) (how_of r) refresh (GetScopes r) (ssoOf r) (authTimeOf r)) sessionID));
  server_error (save_token (in_session issued (se_ID session))) ;;
  match r with
  | ForCode a _ =>
      _ ← try_ (stored (is_Set (codeSessionKey (ar_ID a)) (raw (se_ID session)) authCodeTTL));
      mret (tk_ID issued, refresh, tk_Expires issued, ForCode a (se_ID session))
  | _ => mret (tk_ID issued, refresh, tk_Expires issued, r)
  end.

(** [internal/issuer/storage.go:Storage.CreateAccessAndRefreshTokens]: the access token's id, the
    refresh token, the end, and the request with the session it now belongs to. *)
Definition CreateAccessAndRefreshTokens (r : token_request) (current id refresh sessionID : string) :
    W S (string * string * Z * token_request) :=
  issued ← issue r id;
  if negb (empty current) then '(id, refresh, expires) ← renew issued current refresh; mret (id, refresh, expires, r)
  else open_session r issued refresh sessionID.

(** [internal/issuer/storage.go:Storage.SetUserinfoFromRequest]: what an ID token says; [None] for
    the browser sign-ins is an issuer that keeps none. *)
Definition SetUserinfoFromRequest (r : token_request) : W S userinfo :=
  let clientID := clientOf r in
  '(result, given, family) ← resolveSubject (GetSubject r);
  let info := fill (GetSubject r) (claims_at clientID (Claims result) (res_Groups result)) given family in
  let info := if empty (sessionOf r) then info
    else mkUserinfo (ui_Subject info) (ui_Email info) (ui_EmailVerified info) (ui_PreferredUsername info) (ui_GivenName info)
           (ui_FamilyName info) (ui_Name info) (assoc_set "sid" (VStr (sessionOf r)) (ui_Claims info)) in
  (if empty (ssoOf r) then mret tt else stored (Involve (NewSSO (cf_RefreshLifetime (is_cfg i))) (ssoOf r) clientID)) ;;
  mret info.

(** [internal/issuer/storage.go:Storage.refuseAtAbsoluteLimit] *)
Definition refuseAtAbsoluteLimit {A} (ended : Session) : W S A :=
  _ ← try_ (stored (deleteSession ended));
  record_event (SessionRefreshRefused (se_Identity ended) (se_ClientID ended) "the absolute session limit was reached") ;;
  refuse AtAbsoluteLimit.

(** [internal/issuer/storage.go:Storage.TokenRequestByRefreshToken] *)
Definition TokenRequestByRefreshToken (refreshToken : string) : W S token_request :=
  found ← server_error (stored (ByRefreshToken refreshToken));
  match found with
  | None =>
      ended ← try_ (stored (endedByAbsoluteLimit refreshToken));
      match ended with
      | Ok (Some x) => refuseAtAbsoluteLimit x
      | _ => refuse ErrInvalidRefreshToken
      end
  | Some session =>
      now ← now_;
      if pastLimit (issuer_sessions i) session now then refuseAtAbsoluteLimit session
      else
        e ← try_ (entitled (se_ClientID session) (se_Resource session) (se_Identity session));
        match e with
        | Ok _ => mret (ForRefresh session None)
        | Err e =>
            if is_not_entitled e
            then record_event (SessionRefreshRefused (se_Identity session) (se_ClientID session)
                   "no longer admitted to any group this client requires") ;; refuse NotAdmittedToClient
            else refuse (ServerError e)
        end
  end.

(** [internal/issuer/storage.go:Storage.GetRefreshTokenInfo] *)
Definition GetRefreshTokenInfo (tok : string) : W S (string * string) :=
  found ← server_error (stored (ByRefreshToken tok));
  match found with Some x => mret (se_Identity x, se_ID x) | None => refuse ErrInvalidRefreshToken end.

(** [internal/issuer/storage.go:Storage.RevokeToken] *)
Definition Storage_RevokeToken (tokenOrTokenID : string) : W S unit :=
  server_error (stored (RevokeToken tokenOrTokenID)) ;;
  server_error (stored (RevokeID tokenOrTokenID)) ;;
  server_error (stored (is_Delete (tokenKey tokenOrTokenID))).

(** [internal/issuer/issuer.go:Issuer.Revoke] *)
Definition Issuer_Revoke (identity : string) : W S nat := λ w,
  stored (Revoke (mkQuery identity "" "" false)) (with_seen w (Forget (w_seen w) identity)).

(** [internal/issuer/storage.go:Storage.SetUserinfoFromToken] *)
Definition SetUserinfoFromToken (tokenID : string) : W S userinfo :=
  found ← stored (getJSON (tokenKey tokenID));
  match found with
  | None => refuse NoSuchToken
  | Some issued =>
      live ← (if empty (tk_Session issued) then mret true
              else x ← stored (byID (tk_Session issued)); mret (bool_decide (is_Some x)));
      if live : bool then mret (fill (tk_Subject issued) (tk_Claims issued) (tk_GivenName issued) (tk_FamilyName issued))
      else refuse SessionEnded
  end.

(** [internal/issuer/storage.go:Storage.GetPrivateClaimsFromScopes]: what the access token itself says. *)
Definition GetPrivateClaimsFromScopes subject : W S (list (string * value)) :=
  '(claims, held, given, family) ← identityOf subject;
  audience ← marked;
  mret (withNames (match audience with Some audience => claims_at audience claims held | None => claims end) given family).

(** *** Exchanges *)

(** [internal/issuer/storage.go:Storage.signInProof] *)
Definition signInProof (x : exchange_request) : W S Proof :=
  if negb (bool_decide (xr_TokenType x = "urn:ietf:params:oauth:token-type:access_token")) then refuse (NotAnAccessToken (xr_TokenType x))
  else
    found ← server_error (stored (getJSON (tokenKey (xr_Token x))));
    match found with
    | None => refuse NoRecord
    | Some issued =>
        if negb (match Set_Client (is_policy i) (tk_ClientID issued) with Some declared => c_SignInExchange declared | None => false end)
        then refuse (NotExchangeable (tk_ClientID issued))
        else if negb (bool_decide (xr_ClientID x = tk_ClientID issued)) then refuse (AnotherClient (tk_ClientID issued))
        else if negb (Contains (tk_Subject issued) "@") then refuse (NotAPerson (tk_Subject issued))
        else if empty (tk_Session issued) then refuse NoSession
        else
          live ← server_error (stored (byID (tk_Session issued)));
          match live with
          | None => refuse SessionNotLive
          | Some _ => mret (mkProof (tk_Subject issued) None None None)
          end
    end.

(** [internal/issuer/storage.go:Storage.proofOf] *)
Definition proofOf (x : exchange_request) : W S Proof :=
  match xr_Proof x with Some proof => mret proof | None => signInProof x end.

(** [internal/issuer/exchange.go:Issuer.Exchange], in this process. *)
Definition exchange (proof : Proof) audience : W S (result exchange_error Grant) := λ w,
  let '(r, records, seen) := Exchange i directory (w_seen w) proof audience (is_now (w_store w)) in
  (Ok r, with_trail (with_seen w seen) (w_trail w ++ (TokenExchanged <$> records))).

(** [internal/issuer/storage.go:Storage.ValidateTokenExchangeRequest]: the request, as it was set. *)
Definition ValidateTokenExchangeRequest (x : exchange_request) : W S exchange_request :=
  match xr_Audience x with
  | [audience] =>
      proof ← proofOf x;
      r ← exchange proof audience;
      match r with
      | Err (ErrResolve _ as e) => refuse (InvalidGrant e)
      | Err e => refuse (InvalidTarget e)
      | Ok grant =>
          let x := mkExchange (xr_key x) (xr_ClientID x) (xr_Audience x) (gr_Subject grant) (xr_Scopes x) (xr_AuthTime x)
            (xr_TokenType x) (xr_Token x) (xr_Proof x) "urn:ietf:params:oauth:token-type:access_token" in
          hold_grant x grant ;; mret x
      end
  | _ => refuse OneAudience
  end.

(** [internal/issuer/storage.go:Storage.SetUserinfoFromTokenExchangeRequest] *)
Definition SetUserinfoFromTokenExchangeRequest (x : exchange_request) : W S userinfo :=
  found ← grantFor x;
  match found with
  | None => refuse NotValidated
  | Some grant => '(given, family) ← namesOf (gr_Subject grant); mret (fill (gr_Subject grant) (gr_Claims grant) given family)
  end.
End operations.

(** ** Proofs from elsewhere *)

(** A verifier's answer to a token of some type: a proof, a refusal of a token that is its own,
    or that the token is none of its own. *)
Inductive verdict : Type := Proved (proof : Proof) | Rejected (why : string) | NotMine.

(** [internal/issuer/storage.go:Verifiers.Verify] *)
Fixpoint Verifiers_Verify (verifiers : list (string → string → verdict)) (tok type : string) : verdict :=
  match verifiers with
  | [] => NotMine
  | one :: rest => match one tok type with NotMine => Verifiers_Verify rest tok type | v => v end
  end.

(** [internal/issuer/storage.go:Storage.VerifyExchangeSubjectToken] *)
Definition VerifyExchangeSubjectToken (verifiers : list (string → string → verdict)) (tok type : string) :
    result verdict (string * string * Proof) :=
  match Verifiers_Verify verifiers tok type with
  | Proved proof => if empty (Proof_Subject proof) then Err NotMine else Ok (tok, Proof_Subject proof, proof)
  | v => Err v
  end.

(** [internal/issuer/recovery.go:TokenRecovery.Verify] *)
Definition TokenRecovery_Verify (t : TokenRecovery) (proof : string) : result storage_error string :=
  let proof := TrimSpace proof in
  match tr_Review t with
  | None => Err ErrRecoveryRefused
  | Some review =>
      if empty proof || empty (tr_Audience t) || bool_decide (tr_Subjects t = []) then Err ErrRecoveryRefused
      else match review proof (tr_Audience t) with
      | None => Err ErrRecoveryRefused
      | Some subject =>
          if negb (str_in subject (tr_Subjects t)) then Err ErrRecoveryRefused
          else match ParseServiceAccountSubject subject with
          | Some account => Ok (ServiceAccountRef_Subject (mkServiceAccountRef (tr_Cluster t) (sa_Namespace account) (sa_Name account)))
          | None => Ok subject
          end
      end
  end.

(** ** What a caller's groups open *)

(** [internal/issuer/grants.go:type Opens] *)
Record Opens := mkOpens { gp_Audience : string; gp_Kind : string; gp_Through : list string }.

(** [internal/issuer/grants.go:intersect] *)
Definition intersect (requires held : list string) : list string := List.filter (λ name, str_in name held) requires.

(** [internal/issuer/grants.go:45-91 grantsHandler]: the answer to a bearer whose token was accepted. *)
Definition grants_of (p : Policy) (groups : list string) : list Opens :=
  let held := mkResult groups [] [] 0 in
  omap (λ kc : string * Client, if Client_Admits kc.2 held then Some (mkOpens kc.1 (c_Kind kc.2) (intersect (c_Requires kc.2) groups)) else None)
    (Set_Clients p).

(** [internal/issuer/grants.go:bearerFrom]: of the two headers it may be in. *)
Definition bearerFrom (forwarded authorization : string) : string :=
  let forwarded := TrimSpace forwarded in
  if negb (empty forwarded) then forwarded
  else
    let header := TrimSpace authorization in
    let scheme := "bearer " in
    if (String.length header <? String.length scheme)%nat || negb (EqualFold (String.substring 0 7 header) scheme) then ""
    else TrimSpace (String.substring 7 (String.length header - 7) header).
