(* ===== verification/StorageSafety.v ===== *)
(** * StorageSafety: what the storage keeps to

    Over any store that meets [IStateSpec]: a client authenticates only as the kind it
    is; a sign-in is completed only for somebody the client and the resource admit, and
    a recovery never without its durable record; a refresh meets the same gates and the
    limit as the policy states them now; no token outlives the caps on it; revoking
    ends a token whichever kind it was; a code presented twice ends what it opened; one
    of the issuer's own tokens proves a person only as the access token of a live
    session.  The last ones show where the code and its documents differ. *)

From stdpp Require Import pretty.
From S2P Require Import Prelude GoStrings Names Claims Policy Validate Evaluate PolicySet Sha256 Port IssuerState Sessions KeyRing SSO Issuer ClientDoc Storage.

Implicit Types (id token subject clientID audience resource : string) (now : Z).

#[local] Arguments sessionKey : simpl never.
#[local] Arguments sessionTokenKey : simpl never.
#[local] Arguments sessionRotatedKey : simpl never.
#[local] Arguments requestKey : simpl never.
#[local] Arguments codeKey : simpl never.
#[local] Arguments codeSessionKey : simpl never.
#[local] Arguments tokenKey : simpl never.

(** ** What a step of the store leaves alone *)

Section frames.
Context {V S : Type} `{IStateSpec V S} `{Value V}.
Implicit Types (P : string → Prop) (s : S).

(** A step that changes no value at the keys of [P], and does not move the clock. *)
Definition leaves {A} P (m : M S A) : Prop :=
  ∀ s, is_now (m s).2 = is_now s ∧ ∀ k, P k → iv_value (m s).2 k = iv_value s k.

Lemma leaves_ret {A} P (a : A) : leaves P (mret a).
Proof. done. Qed.
Lemma leaves_fail {A} P e : leaves P (fail e : M S A).
Proof. done. Qed.
Lemma leaves_moment P : leaves P moment.
Proof. done. Qed.
Lemma leaves_bind {A B} P (m : M S A) (k : A → M S B) : leaves P m → (∀ a, leaves P (k a)) → leaves P (m ≫= k).
Proof.
  intros Hm Hk s. unfold mbind, M_bind. destruct (Hm s) as [Hn Hv]. destruct (m s) as [[a|e] s']; simpl in *; [|done].
  destruct (Hk a s') as [Hn' Hv']. split; [congruence|]. intros k' Hk'. by rewrite Hv', Hv.
Qed.
Lemma leaves_Get P key : leaves P (is_Get key).
Proof. intros s. destruct (is_Get_spec s key) as (s'&->&?&Hv&_). by split. Qed.
Lemma leaves_Set P key v ttl : ¬ P key → leaves P (is_Set key v ttl).
Proof.
  intros HP s. destruct (is_Set_spec s key v ttl) as (s'&->&Hn&Hv&_). split; [done|]. intros k Hk. simpl. rewrite Hv. unfold upd.
  case_decide; [congruence|done].
Qed.
Lemma leaves_Delete P key : ¬ P key → leaves P (is_Delete key).
Proof.
  intros HP s. destruct (is_Delete_spec s key) as (s'&->&Hn&Hv&_). split; [done|]. intros k Hk. simpl. rewrite Hv. unfold upd.
  case_decide; [congruence|done].
Qed.
Lemma leaves_Add P key member ttl : (0 < ttl)%Z → leaves P (is_Add key member ttl).
Proof. intros Ht s. destruct (is_Add_spec s key member ttl Ht) as (s'&ms&->&?&Hv&_). by split. Qed.
Lemma leaves_Remove P key member : leaves P (is_Remove key member).
Proof. intros s. destruct (is_Remove_spec s key member) as (s'&->&?&Hv&_). by split. Qed.
Lemma leaves_each {A} P (f : A → M S unit) l : (∀ x, leaves P (f x)) → leaves P (each f l).
Proof. intros Hf. induction l as [|x l IH]; simpl; [apply leaves_ret|]. apply leaves_bind; [done|]. by intros _. Qed.
Lemma leaves_getJSON {T} `{Document V T} P key : leaves P (getJSON (T := T) key).
Proof. apply leaves_bind; [apply leaves_Get|]. intros [v|]; [|apply leaves_ret]. destruct (decode v); [apply leaves_ret|apply leaves_fail]. Qed.

Lemma leaves_if {A} P (b : bool) (m1 m2 : M S A) : leaves P m1 → leaves P m2 → leaves P (if b then m1 else m2).
Proof. by destruct b. Qed.

Context `{Document V Session}.

Lemma leaves_byID P id : leaves P (byID id).
Proof.
  apply leaves_bind; [apply leaves_getJSON|]. intros [x|]; [|apply leaves_ret]. apply leaves_bind; [apply leaves_moment|]. intros now. apply leaves_ret.
Qed.
Lemma leaves_ByToken P token : leaves P (ByToken token).
Proof. apply leaves_bind; [apply leaves_Get|]. intros [v|]; [apply leaves_byID|apply leaves_ret]. Qed.
Lemma leaves_ByRefreshToken P token : leaves P (ByRefreshToken token).
Proof.
  apply leaves_bind; [apply leaves_ByToken|]. intros [x|]; [apply leaves_ret|]. apply leaves_bind; [|intros r; apply leaves_ret].
  apply leaves_bind; [apply leaves_Get|]. intros [v|]; [|apply leaves_ret]. apply leaves_bind; [apply leaves_ByToken|]. intros r. apply leaves_ret.
Qed.
Lemma leaves_endedByAbsoluteLimit P token : leaves P (endedByAbsoluteLimit token).
Proof.
  apply leaves_bind; [apply leaves_Get|]. intros [v|]; [|apply leaves_ret]. apply leaves_bind; [apply leaves_getJSON|].
  intros [x|]; [|apply leaves_ret]. apply leaves_bind; [apply leaves_moment|]. intros now. apply leaves_ret.
Qed.
Lemma leaves_deleteSession P (x : Session) : ¬ P (sessionKey (se_ID x)) → leaves P (deleteSession x).
Proof. intros HP. apply leaves_bind; [by apply leaves_Delete|]. intros _. apply leaves_each. intros k. apply leaves_Remove. Qed.
Lemma leaves_Record P c (o : Opened) id : (0 < ss_lifetime c)%Z → ¬ P (sessionKey id) → ¬ P (sessionTokenKey (op_Token o)) →
  leaves P (Sessions_Record c o id).
Proof.
  intros Hc Hid Ht. apply leaves_bind; [apply leaves_moment|]. intros now. apply leaves_bind; [|intros []; apply leaves_ret].
  apply leaves_bind; [apply leaves_bind; [apply leaves_moment|]; intros t; apply leaves_if; [apply leaves_fail|by apply leaves_Set]|].
  intros []. apply leaves_bind; [by apply leaves_Set|]. intros []. apply leaves_each. intros k. by apply leaves_Add.
Qed.

(** What reading a session answers, of the value at its key. *)
Lemma byID_value s id : (byID id s).1 = match iv_value s (sessionKey id) with
  | None => Ok None
  | Some (v, _) => match decode v with
                   | None => Err (Unreadable (sessionKey id))
                   | Some x => Ok (if Session_Live x (is_now s) then Some x else None)
                   end
  end.
Proof.
  unfold byID, getJSON, moment, mbind, M_bind. destruct (is_Get_spec s (sessionKey id)) as (s'&->&Hn&_).
  destruct (iv_value s (sessionKey id)) as [[v e]|]; simpl; [|done]. destruct (decode v) as [y|]; simpl; [|done]. by rewrite Hn.
Qed.
Lemma byID_Some s id (x : Session) s' : byID id s = (Ok (Some x), s') →
  ∃ v e, iv_value s (sessionKey id) = Some (v, e) ∧ decode v = Some x.
Proof.
  intros Hb%(f_equal fst). rewrite byID_value in Hb. destruct (iv_value s (sessionKey id)) as [[v e]|]; [|done].
  destruct (decode v) as [y|] eqn:Hy; [|done]. simpl in Hb. destruct (Session_Live y (is_now s)); [|done].
  injection Hb as ->. eauto.
Qed.
Lemma byID_None s id : iv_value s (sessionKey id) = None → (byID id s).1 = Ok None.
Proof.
  intros Hv. unfold byID, getJSON, mbind, M_bind. destruct (is_Get_spec s (sessionKey id)) as (s'&->&_). by rewrite Hv.
Qed.

(** A session deleted is deleted whatever happens to the sets it was found by. *)
Lemma deleteSession_gone s (x : Session) : (deleteSession x s).1 = Ok tt ∧ iv_value (deleteSession x s).2 (sessionKey (se_ID x)) = None ∧
  is_now (deleteSession x s).2 = is_now s.
Proof.
  unfold deleteSession, mbind at 1 2 3, M_bind. destruct (is_Delete_spec s (sessionKey (se_ID x))) as (s1&->&Hn&Hv&_).
  assert (runs (each (λ key, is_Remove key (se_ID x)) (indexes x)) s1 (λ _ s2, is_now s2 = is_now s1 ∧ ∀ k, iv_value s2 k = iv_value s1 k)) as ([]&s2&->&Hn2&Hv2).
  { apply runs_removes. by intros. }
  simpl. rewrite Hv2, Hv. unfold upd. rewrite decide_True by done. split_and!; [done..|congruence].
Qed.

(** Revoking by id ends the session, unless its record cannot be read. *)
Lemma RevokeID_ends s id : (∀ v (x : Session) e, iv_value s (sessionKey id) = Some (v, e) → decode v = Some x → se_ID x = id) →
  match (RevokeID id s).1 with Ok _ => (byID id (RevokeID id s).2).1 = Ok None | Err _ => True end.
Proof.
  intros Hid. destruct (RevokeID id s) as [r s2] eqn:HR. simpl. revert HR. unfold RevokeID, mbind, M_bind.
  destruct (byID id s) as [[[x|]|e] s1] eqn:Hb; [..|by intros [= <- <-]].
  - pose proof (deleteSession_gone s1 x) as (Hd&Hv&_). destruct (deleteSession x s1) as [[[]|e] s3]; [|done].
    intros [= <- <-]. simpl in Hv. apply byID_None. destruct (byID_Some _ _ _ _ Hb) as (v&e&Hk&Hx). by rewrite <- (Hid v x e Hk Hx).
  - intros [= <- <-]. pose proof (leaves_byID (λ _, True) id s) as [Hn Hv]. rewrite Hb in Hn, Hv. simpl in *.
    apply (f_equal fst) in Hb. rewrite byID_value in Hb |- *. by rewrite Hv, Hn.
Qed.

(** What is left of a store after steps that only drop values. *)
Definition shrinks s s' : Prop := is_now s' = is_now s ∧ ∀ k, iv_value s' k = iv_value s k ∨ iv_value s' k = None.

Lemma byID_shrinks s s' id : shrinks s s' → (byID id s).1 = Ok None → (byID id s').1 = Ok None.
Proof. intros [Hn Hv]. rewrite !byID_value, Hn. by destruct (Hv (sessionKey id)) as [->| ->]. Qed.

Lemma deleteSession_shrinks s (x : Session) : shrinks s (deleteSession x s).2.
Proof.
  split; [apply deleteSession_gone|]. intros k. destruct (decide (k = sessionKey (se_ID x))) as [->|Hne].
  - right. apply deleteSession_gone.
  - left. apply (leaves_deleteSession (λ k, k ≠ sessionKey (se_ID x)) x); [naive_solver|done].
Qed.

Lemma RevokeID_shrinks s id : shrinks s (RevokeID id s).2.
Proof.
  pose proof (leaves_byID (λ _, True) id s) as [Hn Hv].
  unfold RevokeID, mbind, M_bind. destruct (byID id s) as [[[x|]|e] s1]; simpl in *; [|by split; auto..].
  pose proof (deleteSession_shrinks s1 x) as [Hn' Hv']. assert (shrinks s (deleteSession x s1).2) as Hs.
  { split; [congruence|]. intros k. rewrite <- (Hv k) by done. apply Hv'. }
  by destruct (deleteSession x s1) as [[[]|e] s2].
Qed.

Lemma RevokeID_leaves s id k : (∀ v (x : Session) e, iv_value s (sessionKey id) = Some (v, e) → decode v = Some x → se_ID x = id) →
  k ≠ sessionKey id → iv_value (RevokeID id s).2 k = iv_value s k.
Proof.
  intros Hid Hk. pose proof (leaves_byID (λ _, True) id s) as [Hn Hv].
  unfold RevokeID, mbind, M_bind. destruct (byID id s) as [[[x|]|e] s1] eqn:Hb; simpl in *; [|by apply Hv..].
  destruct (byID_Some _ _ _ _ Hb) as (v&e&Hx&Hd). pose proof (Hid v x e Hx Hd) as Heq.
  pose proof (leaves_deleteSession (λ k, k ≠ sessionKey id) x) as Hl. rewrite Heq in Hl. destruct (Hl ltac:(naive_solver) s1) as [_ Hv'].
  destruct (deleteSession x s1) as [[[]|er] s2]; simpl in *; by rewrite Hv', Hv.
Qed.
Lemma RevokeID_fails s id er : (RevokeID id s).1 = Err er → (∀ er', (byID id s).1 ≠ Err er') → False.
Proof.
  unfold RevokeID, mbind, M_bind. destruct (byID id s) as [[[x|]|e] s1]; simpl; [|done|naive_solver].
  pose proof (deleteSession_gone s1 x) as (Hd&_). by destruct (deleteSession x s1) as [[[]|e] s2].
Qed.

Lemma Sessions_Record_files c (o : Opened) id s (x : Session) : (0 < ss_lifetime c)%Z → (Sessions_Record c o id s).1 = Ok x →
  se_ID x = id ∧ iv_value (Sessions_Record c o id s).2 (sessionKey id) = Some (encode x, Some (is_now s + ss_lifetime c)%Z).
Proof.
  intros Hc. unfold Sessions_Record, file, put, moment, setJSON, mbind, M_bind.
  set (y := mkSession _ _ _ _ _ _ _ _ _ _ _). destruct (negb _); [done|]. change (se_ID y) with id.
  destruct (is_Set_spec s (sessionKey id) (encode y) (ss_lifetime c)) as (s1&->&Hn1&Hv1&_).
  destruct (is_Set_spec s1 (sessionTokenKey (op_Token o)) (raw id) (ss_lifetime c)) as (s2&->&Hn2&Hv2&_).
  assert (runs (each (λ key, is_Add key id (ss_lifetime c)) (indexes y)) s2 (λ _ s3, ∀ k, iv_value s3 k = iv_value s2 k)) as ([]&s3&->&Hv3).
  { by apply runs_adds. }
  simpl. intros [= <-]. split; [done|]. rewrite Hv3, Hv2. unfold upd. rewrite decide_False by (unfold sessionKey, sessionTokenKey; discriminate).
  rewrite Hv1. unfold upd. rewrite decide_True by done. unfold expires_in. by rewrite (proj2 (Z.leb_gt _ _)).
Qed.

Lemma shrinks_trans s1 s2 s3 : shrinks s1 s2 → shrinks s2 s3 → shrinks s1 s3.
Proof. intros [Hn Hv] [Hn' Hv']. split; [congruence|]. intros k. destruct (Hv' k) as [->| ->]; auto. Qed.
Lemma gone_shrinks s s' k : shrinks s s' → iv_value s k = None → iv_value s' k = None.
Proof. intros [_ Hv]. by destruct (Hv k) as [->| ->]. Qed.
Lemma same_shrinks s s' : same s s' → shrinks s s'.
Proof. intros (?&?&_). split; auto. Qed.
Lemma delete_shrinks s key : shrinks s (is_Delete key s).2.
Proof.
  destruct (is_Delete_spec s key) as (s'&->&?&Hv&_). split; [done|]. intros k. simpl. rewrite Hv. unfold upd. case_decide; auto.
Qed.

(** Every session is stored under its own id. *)
Definition filed s : Prop := ∀ id v (x : Session) e, iv_value s (sessionKey id) = Some (v, e) → decode v = Some x → se_ID x = id.

Lemma filed_shrinks s s' : shrinks s s' → filed s → filed s'.
Proof. intros [_ Hv] Hf id v x e. destruct (Hv (sessionKey id)) as [->| ->]; [apply Hf|done]. Qed.

Lemma RevokeToken_spec s tok : filed s → shrinks s (RevokeToken tok s).2 ∧
  match (RevokeToken tok s).1 with
  | Ok _ => iv_value (RevokeToken tok s).2 (sessionTokenKey tok) = None ∧
      ∀ v e, iv_value s (sessionTokenKey tok) = Some (v, e) → (byID (text v) (RevokeToken tok s).2).1 = Ok None
  | Err _ => True
  end.
Proof.
  intros Hf. destruct (RevokeToken tok s) as [r s2] eqn:Hr. simpl. revert Hr. unfold RevokeToken, mbind, M_bind.
  destruct (is_Get_spec s (sessionTokenKey tok)) as (s0&->&Hs0). pose proof (same_shrinks _ _ Hs0) as H0'.
  destruct (iv_value s (sessionTokenKey tok)) as [[v e]|] eqn:Hp; simpl.
  - pose proof (delete_shrinks s0 (sessionTokenKey tok)) as Hd.
    destruct (is_Delete_spec s0 (sessionTokenKey tok)) as (s1&Hdel&_&Hvd&_). rewrite Hdel in *. simpl in Hd. intros Hr.
    pose proof (shrinks_trans _ _ _ H0' Hd) as H01. pose proof (RevokeID_shrinks s1 (text v)) as H12.
    pose proof (RevokeID_ends s1 (text v) (filed_shrinks _ _ H01 Hf _)) as Hends. rewrite Hr in H12, Hends. simpl in *.
    split; [by eapply shrinks_trans|]. destruct r; [|done]. split; [|by intros ? ? [= <- _]].
    eapply gone_shrinks; [exact H12|]. rewrite Hvd. unfold upd. by rewrite decide_True.
  - intros [= <- <-]. split; [done|]. split; [|done]. by apply (gone_shrinks s).
Qed.
End frames.

(** ** Steps of the storage *)

Section steps.
Context {V S : Type} `{IStateSpec V S} `{Value V} `{Document V Session} `{Document V token_record} `{Document V authRequest}.
Context (i : Issuer) (directory : string → result string Standing) (documents : string → origin) (durable : event → option string).
Implicit Types (w : World S).

(** A step that changes neither the store nor the trail, nor what exchanges were granted. *)
Definition thinks {A} (m : W S A) : Prop :=
  ∀ w, w_store (m w).2 = w_store w ∧ w_trail (m w).2 = w_trail w ∧ w_grants (m w).2 = w_grants w.

Lemma thinks_bind {A B} (m : W S A) (k : A → W S B) : thinks m → (∀ a, thinks (k a)) → thinks (m ≫= k).
Proof.
  intros Hm Hk w. unfold mbind, W_bind. destruct (Hm w) as (Hs&Ht&Hg). destruct (m w) as [[a|e] w']; simpl in *; [|done].
  destruct (Hk a w') as (?&?&?). split_and!; congruence.
Qed.
Lemma thinks_ret {A} (a : A) : thinks (mret a : W S A).
Proof. done. Qed.
Lemma thinks_refuse {A} e : thinks (refuse e : W S A).
Proof. done. Qed.
Lemma thinks_try {A} (m : W S A) : thinks m → thinks (try_ m).
Proof. intros Hm w. unfold try_. pose proof (Hm w). by destruct (m w). Qed.
Lemma thinks_resolve subject : thinks (resolve i directory subject).
Proof. intros w. unfold resolve. by destruct (Resolve _ _ _ _ _). Qed.
Lemma thinks_document clientID : thinks (resolve_document i documents clientID).
Proof. intros w. unfold resolve_document. by destruct (documents_Resolve _ _ _ _ _). Qed.
Lemma thinks_resolveSubject subject : thinks (resolveSubject i directory subject).
Proof.
  unfold resolveSubject. destruct (ParseServiceAccountSubject subject); [apply thinks_ret|].
  apply thinks_bind; [apply thinks_resolve|]. intros r. apply thinks_ret.
Qed.

(** The client an id names now, by the policy or by its document; what the policy says of a
    subject now; and the two gates. *)
Definition client_of w clientID : option Client :=
  match Set_Client (is_policy i) clientID with
  | Some c => Some c
  | None => match (resolve_document i documents clientID w).1 with Ok c => Some c | Err _ => None end
  end.
Definition judged w subject : option Result :=
  match (resolveSubject i directory subject w).1 with Ok (r, _, _) => Some r | Err _ => None end.
Definition admitted w clientID resource subject : Prop :=
  ∃ declared r, client_of w clientID = Some declared ∧ judged w subject = Some r ∧ Client_Admits declared r = true ∧
    (resource = "" ∨ ∃ wanted, Set_Resource (is_policy i) resource = Some wanted ∧ Resource_Admits wanted r = true).

Lemma judged_agree w w' subject : is_now (w_store w') = is_now (w_store w) → w_seen w' = w_seen w → judged w' subject = judged w subject.
Proof.
  intros Hn Hs. unfold judged, resolveSubject. destruct (ParseServiceAccountSubject subject); [done|].
  unfold mbind, W_bind, resolve. rewrite Hn, Hs. by destruct (Resolve _ _ _ _ _) as [[r|e] seen].
Qed.
Lemma client_of_agree w w' clientID : is_now (w_store w') = is_now (w_store w) → w_cached w' = w_cached w →
  client_of w' clientID = client_of w clientID.
Proof. intros Hn Hc. unfold client_of, resolve_document. rewrite Hn, Hc. by destruct (documents_Resolve _ _ _ _ _). Qed.
Lemma admitted_agree w w' clientID resource subject : is_now (w_store w') = is_now (w_store w) → w_cached w' = w_cached w → w_seen w' = w_seen w →
  admitted w' clientID resource subject → admitted w clientID resource subject.
Proof. intros Hn Hc Hs. unfold admitted. by rewrite (client_of_agree w), (judged_agree w). Qed.

Lemma thinks_gates declared resource subject : thinks (gates i directory declared resource subject).
Proof.
  apply thinks_bind; [apply thinks_resolveSubject|]. intros [[result ?] ?].
  destruct (negb _); [apply thinks_refuse|]. destruct (empty resource); [apply thinks_ret|].
  destruct (Set_Resource _ _); [|apply thinks_refuse]. destruct (negb _); [apply thinks_refuse|apply thinks_ret].
Qed.
Lemma thinks_entitled clientID resource subject : thinks (entitled i directory documents clientID resource subject).
Proof.
  apply thinks_bind.
  - destruct (Set_Client _ _); [apply thinks_ret|]. apply thinks_bind; [apply thinks_try, thinks_document|]. intros r. apply thinks_ret.
  - intros [declared|]; [apply thinks_gates|apply thinks_ret].
Qed.

Lemma gates_spec w declared resource subject : (gates i directory declared resource subject w).1 = Ok tt ↔
  ∃ r, judged w subject = Some r ∧ Client_Admits declared r = true ∧
    (resource = "" ∨ ∃ wanted, Set_Resource (is_policy i) resource = Some wanted ∧ Resource_Admits wanted r = true).
Proof.
  unfold gates, judged, mbind, W_bind.
  destruct (resolveSubject i directory subject w) as [[[[r ?] ?]|e] w'']; simpl; [|naive_solver].
  destruct (Client_Admits declared r) eqn:Ha; simpl; [|split; [done|]; intros (?&[= <-]&?&_); congruence].
  destruct (empty resource) eqn:He; simpl.
  { apply empty_true in He. split; [|done]. intros _. exists r. auto. }
  apply empty_false in He. destruct (Set_Resource (is_policy i) resource) as [wanted|]; simpl.
  - destruct (Resource_Admits wanted r) eqn:Hr; simpl; split; try done.
    + intros _. exists r. split_and!; [done..|]. right. eauto.
    + intros (?&[= <-]&_&[?|(?&[= <-]&?)]); [done|congruence].
  - split; [done|]. intros (?&_&_&[?|(?&?&_)]); done.
Qed.

Lemma entitled_spec w clientID resource subject :
  (entitled i directory documents clientID resource subject w).1 = Ok tt ↔
  client_of w clientID = None ∨ admitted w clientID resource subject.
Proof.
  assert (∀ declared w', is_now (w_store w') = is_now (w_store w) → w_seen w' = w_seen w → client_of w clientID = Some declared →
    (gates i directory declared resource subject w').1 = Ok tt ↔ admitted w clientID resource subject) as Hgate.
  { intros declared w' Hn Hs Hc. rewrite gates_spec. unfold admitted. rewrite Hc, (judged_agree w w') by done. naive_solver. }
  unfold entitled, client_of in *. unfold mbind, W_bind.
  destruct (Set_Client (is_policy i) clientID) as [declared|]; simpl.
  { rewrite (Hgate declared) by done. split; [by right|]. by intros [?|?]. }
  unfold try_. unfold resolve_document in *. destruct (documents_Resolve _ _ _ _ _) as [[c|e] cached]; simpl in *.
  - rewrite (Hgate c) by done. split; [by right|]. by intros [?|?].
  - split; [by left|done].
Qed.

(** What running a step answers and leaves. *)
Definition wp {A} (m : W S A) w (Φ : result storage_error A → World S → Prop) : Prop := Φ (m w).1 (m w).2.

Lemma wp_bind {A B} (m : W S A) (k : A → W S B) w Φ :
  wp m w (λ r w', match r with Ok a => wp (k a) w' Φ | Err e => Φ (Err e) w' end) → wp (m ≫= k) w Φ.
Proof. unfold wp, mbind, W_bind. by destruct (m w) as [[a|e] w']. Qed.
Lemma wp_try {A} (m : W S A) w Φ : wp m w (λ r w', Φ (Ok r) w') → wp (try_ m) w Φ.
Proof. unfold wp, try_. by destruct (m w) as [r w']. Qed.
Lemma wp_server {A} (m : W S A) w Φ :
  wp m w (λ r w', Φ (match r with Ok a => Ok a | Err e => Err (ServerError e) end) w') → wp (server_error m) w Φ.
Proof. unfold wp, server_error. by destruct (m w) as [r w']. Qed.
Lemma wp_mono {A} (m : W S A) w (Φ Ψ : result storage_error A → World S → Prop) :
  (∀ r w', Φ r w' → Ψ r w') → wp m w Φ → wp m w Ψ.
Proof. unfold wp. auto. Qed.
Lemma wp_stored {A} (m : M S A) w Φ : runs m (w_store w) (λ a s', Φ (Ok a) (with_store w s')) → wp (stored m) w Φ.
Proof. intros (a&s'&Hm&HΦ). unfold wp, stored. by rewrite Hm. Qed.
(** A step that may fail, known by what it leaves. *)
Lemma wp_stored_any {A} (m : M S A) w Φ : (∀ r s', m (w_store w) = (r, s') →
  Φ (match r with Ok a => Ok a | Err e => Err (StoreFailed e) end) (with_store w s')) → wp (stored m) w Φ.
Proof. intros HΦ. unfold wp, stored. destruct (m (w_store w)) as [r s'] eqn:Hm. by apply HΦ. Qed.

(** What a token answers: its record, while the session behind it lives. *)
Lemma userinfo_value w id : (SetUserinfoFromToken id w).1 = match iv_value (w_store w) (tokenKey id) with
  | None => Err NoSuchToken
  | Some (v, _) => match decode v with
      | None => Err (StoreFailed (Unreadable (tokenKey id)))
      | Some t =>
          let answer := fill (tk_Subject t) (tk_Claims t) (tk_GivenName t) (tk_FamilyName t) in
          if empty (tk_Session t) then Ok answer
          else match (byID (tk_Session t) (w_store w)).1 with
               | Ok (Some _) => Ok answer | Ok None => Err SessionEnded | Err e => Err (StoreFailed e) end
      end
  end.
Proof.
  unfold SetUserinfoFromToken, stored, getJSON at 1, mbind, W_bind, M_bind.
  destruct (is_Get_spec (w_store w) (tokenKey id)) as (s'&->&Hn&Hv&_).
  destruct (iv_value (w_store w) (tokenKey id)) as [[v e]|]; simpl; [|done]. destruct (decode v) as [t|]; simpl; [|done].
  destruct (empty (tk_Session t)); simpl; [done|].
  assert ((byID (tk_Session t) s').1 = (byID (tk_Session t) (w_store w)).1) as <- by (by rewrite !byID_value, Hv, Hn).
  by destruct (byID (tk_Session t) s') as [[[x|]|err] s2].
Qed.

(** The request stored under an id. *)
Definition pending_request w id : option (result storage_error authRequest) :=
  match iv_value (w_store w) (requestKey id) with
  | None => None
  | Some (v, _) => Some (match decode v with Some req => Ok req | None => Err (StoreFailed (Unreadable (requestKey id))) end)
  end.

Lemma request_value w id : (request id w).1 = default (Err NoSuchRequest) (pending_request w id) ∧
  ∃ s', (request id w).2 = with_store w s' ∧ same (w_store w) s'.
Proof.
  unfold request, pending_request, stored, getJSON, mbind, W_bind, M_bind.
  destruct (is_Get_spec (w_store w) (requestKey id)) as (s'&->&Hs). destruct (iv_value _ _) as [[v e]|]; simpl; [|eauto].
  destruct (decode v); simpl; eauto.
Qed.

Lemma wp_request w id Φ : (∀ s', same (w_store w) s' → Φ (default (Err NoSuchRequest) (pending_request w id)) (with_store w s')) →
  wp (request id) w Φ.
Proof. intros HΦ. unfold wp. destruct (request_value w id) as (->&s'&->&Hs). by apply HΦ. Qed.

Definition signed_in (req : authRequest) (who : Authenticated) now : authRequest :=
  mkAuthRequest (ar_ID req) (ar_Req req) (ToLower (au_Subject who)) (Some (default now (au_AuthTime who))) true (au_How who)
    (ar_Resource req) (au_SSO who).

Lemma wp_Complete id who w : wp (Complete i directory documents durable id who) w (λ r w',
  let open req := client_of w (oq_ClientID (ar_Req req)) = None ∨ admitted w (oq_ClientID (ar_Req req)) (ar_Resource req) (au_Subject who) in
  match r with
  | Ok _ => ∃ req, pending_request w id = Some (Ok req) ∧ open req ∧
      pending_request w' id = Some (Ok (signed_in req who (is_now (w_store w)))) ∧
      w_trail w' = w_trail w ++ [SignedIn who (oq_ClientID (ar_Req req)) Succeeded (bool_decide (au_How who = RecoveryHow))] ∧
      (au_How who = RecoveryHow → durable (SignedIn who (oq_ClientID (ar_Req req)) Succeeded true) = None)
  | Err e => pending_request w' id = pending_request w id ∧
      ∀ req, pending_request w id = Some (Ok req) →
        ¬ open req ∨ au_How who = RecoveryHow ∧ durable (SignedIn who (oq_ClientID (ar_Req req)) Succeeded true) ≠ None
  end).
Proof.
  apply wp_bind, wp_request. intros s1 (Hn1&Hv1&_).
  assert (∀ w', w_store w' = s1 → pending_request w' id = pending_request w id) as Hkeep.
  { intros w' Hw'. unfold pending_request. by rewrite Hw', Hv1. }
  destruct (pending_request w id) as [[req|e]|] eqn:Hp; simpl; [|by split; [apply Hkeep|]..].
  apply wp_bind. unfold wp at 1. simpl. apply wp_bind, wp_try. unfold wp at 1. set (c := oq_ClientID (ar_Req req)).
  pose proof (entitled_spec (with_store w s1) c (ar_Resource req) (au_Subject who)) as He.
  pose proof (thinks_entitled c (ar_Resource req) (au_Subject who) (with_store w s1)) as (Hst&Htr&_).
  unfold admitted in He. rewrite (client_of_agree w), (judged_agree w) in He by done. simpl in Hst, Htr.
  destruct (entitled i directory documents c (ar_Resource req) (au_Subject who) (with_store w s1)) as [[[]|e] w2]; simpl in *.
  2: { assert (¬ (client_of w c = None ∨ admitted w c (ar_Resource req) (au_Subject who))) as Hclosed by (intros Ho; by apply He in Ho).
       destruct (is_not_entitled e); (split; [by apply Hkeep|]); intros req' [= <-]; by left. }
  assert (client_of w c = None ∨ admitted w c (ar_Resource req) (au_Subject who)) as Ho by (by apply He).
  set (req' := mkAuthRequest _ _ _ _ _ _ _ _).
  assert (req' = signed_in req who (is_now (w_store w))) as Hreq'.
  { unfold req', signed_in. rewrite Hn1. by destruct (au_AuthTime who). }
  assert (∀ w3 Φ, w_store w3 = w_store w2 → (∀ w4, pending_request w4 id = Some (Ok req') → w_trail w4 = w_trail w3 → Φ (Ok (Ok tt)) w4) →
    wp (try_ (stored (setJSON (requestKey id) req' authRequestTTL))) w3 Φ) as Hsave.
  { intros w3 Φ Hw3 HΦ. apply wp_try, wp_stored. rewrite Hw3. apply runs_Set. intros s4 _ Hv4 _. apply HΦ; [|done].
    unfold pending_request. simpl. rewrite Hv4. unfold upd. rewrite decide_True by done. by rewrite decode_encode. }
  apply wp_bind. case_bool_decide as Hrec.
  - apply wp_try. unfold wp at 1, recordDurable. destruct (durable _) as [err|] eqn:Hd; simpl.
    + split; [by apply Hkeep|]. intros req0 [= <-]. right. split; [done|]. fold c. by rewrite Hd.
    + apply wp_bind, Hsave; [done|]. intros w4 Hp4 Ht4. unfold wp. simpl. exists req. rewrite <- Hreq'.
      split_and!; [done..| |done]. by rewrite Ht4, <- Htr.
  - unfold wp at 1. simpl. apply wp_bind, Hsave; [done|]. intros w4 Hp4 Ht4. unfold wp. simpl. exists req. rewrite <- Hreq'.
    split_and!; [done..| |done]. by rewrite Ht4, <- Htr.
Qed.

(** C19: A request is marked done only by a sign-in that the client and the resource it names
    admit, as the policy and the directory stand at that moment, and never by a recovery
    whose record could not be written durably; then it says who signed in, how, and
    when they authenticated, and the sign-in is on the trail.  Refused, it is as it was.
    One case is not asked for admission: a client that is not declared and whose document
    cannot be resolved at that moment ([unresolved_client_admits_anybody]). *)
Theorem Complete_marks id who w (req : authRequest) : (request id w).1 = Ok req → ar_IsDone req = false →
  let c := oq_ClientID (ar_Req req) in
  let open := client_of w c = None ∨ admitted w c (ar_Resource req) (au_Subject who) in
  let recovery := bool_decide (au_How who = RecoveryHow) in
  let done := Complete i directory documents durable id who w in
  ∃ req', (request id done.2).1 = Ok req' ∧
    if ar_IsDone req'
    then done.1 = Ok tt ∧ req' = signed_in req who (is_now (w_store w)) ∧ open ∧
      w_trail done.2 = w_trail w ++ [SignedIn who c Succeeded recovery] ∧
      (au_How who = RecoveryHow → durable (SignedIn who c Succeeded true) = None)
    else req' = req ∧ done.1 ≠ Ok tt ∧
      (¬ open ∨ au_How who = RecoveryHow ∧ durable (SignedIn who c Succeeded true) ≠ None).
Proof.
  intros Hreq Hnot c open recovery done. rewrite (proj1 (request_value w id)) in Hreq.
  assert (pending_request w id = Some (Ok req)) as Hp by (destruct (pending_request w id); [by f_equal|done]).
  assert (∀ w' req', pending_request w' id = Some (Ok req') → (request id w').1 = Ok req') as Hread.
  { intros w' req' Hp'. by rewrite (proj1 (request_value w' id)), Hp'. }
  pose proof (wp_Complete id who w) as Hdone. unfold wp in Hdone. fold done in Hdone. rewrite Hp in Hdone.
  destruct (done.1) as [[]|e].
  - destruct Hdone as (req0&[= <-]&Ho&Hp'&Htr&Haud). eexists. split; [by apply Hread|]. by split_and!.
  - destruct Hdone as [Hp' Hclosed]. exists req. split; [by apply Hread|]. rewrite Hnot. split_and!; [done..|]. by apply Hclosed.
Qed.

Lemma wp_limit {A} (x : Session) w (Φ : result storage_error A → World S → Prop) :
  (∀ w', w_trail w' = w_trail w ++ [SessionRefreshRefused (se_Identity x) (se_ClientID x) "the absolute session limit was reached"] →
    (byID (se_ID x) (w_store w')).1 = Ok None → Φ (Err AtAbsoluteLimit) w') → wp (refuseAtAbsoluteLimit x) w Φ.
Proof.
  intros HΦ. apply wp_bind, wp_try, wp_stored. pose proof (deleteSession_gone (w_store w) x) as (Hd&Hv&_).
  destruct (deleteSession x (w_store w)) as [r s'] eqn:Hx. simpl in Hd, Hv. subst r. exists tt, s'. split; [done|].
  unfold wp. simpl. apply HΦ; simpl; [done|by apply byID_None].
Qed.

(** The session a token still names in the store, which has run out. *)
Definition expired_under token w (x : Session) : Prop :=
  ∃ v e v' e', iv_value (w_store w) (sessionTokenKey token) = Some (v, e) ∧
    iv_value (w_store w) (sessionKey (text v)) = Some (v', e') ∧ decode v' = Some x ∧ Session_Live x (is_now (w_store w)) = false.

Lemma endedByAbsoluteLimit_under token w s x : is_now s = is_now (w_store w) → (∀ k, iv_value s k = iv_value (w_store w) k) →
  (endedByAbsoluteLimit token s).1 = Ok (Some x) → expired_under token w x.
Proof.
  intros Hn Hv. unfold endedByAbsoluteLimit, getJSON, moment, mbind, M_bind.
  destruct (is_Get_spec s (sessionTokenKey token)) as (s1&->&Hn1&Hv1&_). rewrite Hv.
  destruct (iv_value (w_store w) (sessionTokenKey token)) as [[v e]|] eqn:Htok; cbn; [|done].
  destruct (is_Get_spec s1 (sessionKey (text v))) as (s2&->&Hn2&Hv2&_). rewrite Hv1, Hv.
  destruct (iv_value (w_store w) (sessionKey (text v))) as [[v' e']|] eqn:Hrec; cbn; [|done].
  destruct (decode v') as [y|] eqn:Hdec; cbn; [|done]. rewrite Hn2, Hn1, Hn.
  destruct (Session_Live y (is_now (w_store w))) eqn:Hl; [done|]. intros [= <-]. by exists v, e, v', e'.
Qed.

(** C20: A refresh is answered only for a session that is live under the token, inside the
    absolute limit as the policy states it now, and whose client and resource still
    admit the person.  One refused at the limit names the session under that token, live but
    past the limit, or run out and still in the store: it is ended and the refusal is
    recorded.  One refused for admission is of a person the client, or the resource, does not
    admit now.  One case is not asked for admission: a client that is not declared and whose
    document cannot be resolved at that moment ([unresolved_client_admits_anybody]). *)
Theorem refresh_gate token w :
  let asked := TokenRequestByRefreshToken i directory documents token w in
  let found := (ByRefreshToken token (w_store w)).1 in
  let past x := pastLimit (issuer_sessions i) x (is_now (w_store w)) in
  let open x := client_of w (se_ClientID x) = None ∨ admitted w (se_ClientID x) (se_Resource x) (se_Identity x) in
  match asked.1 with
  | Ok r => ∃ x, r = ForRefresh x None ∧ found = Ok (Some x) ∧ past x = false ∧ open x
  | Err AtAbsoluteLimit => ∃ x, (found = Ok (Some x) ∧ past x = true ∨ found = Ok None ∧ expired_under token w x) ∧
      w_trail asked.2 = w_trail w ++ [SessionRefreshRefused (se_Identity x) (se_ClientID x) "the absolute session limit was reached"] ∧
      (byID (se_ID x) (w_store asked.2)).1 = Ok None
  | Err NotAdmittedToClient => ∃ x, found = Ok (Some x) ∧ past x = false ∧ ¬ open x
  | Err _ => True
  end.
Proof.
  intros asked found past open. enough (wp (TokenRequestByRefreshToken i directory documents token) w (λ r w', match r with
    | Ok r => ∃ x, r = ForRefresh x None ∧ found = Ok (Some x) ∧ past x = false ∧ open x
    | Err AtAbsoluteLimit => ∃ x, (found = Ok (Some x) ∧ past x = true ∨ found = Ok None ∧ expired_under token w x) ∧
        w_trail w' = w_trail w ++ [SessionRefreshRefused (se_Identity x) (se_ClientID x) "the absolute session limit was reached"] ∧
        (byID (se_ID x) (w_store w')).1 = Ok None
    | Err NotAdmittedToClient => ∃ x, found = Ok (Some x) ∧ past x = false ∧ ¬ open x
    | Err _ => True end)) as H'; [exact H'|].
  apply wp_bind, wp_server, wp_stored_any. intros r s1 Hr. assert (found = r) as Hfound by (unfold found; by rewrite Hr).
  pose proof (leaves_ByRefreshToken (λ _, True) token (w_store w)) as [Hn Hv]. rewrite Hr in Hn, Hv. cbn in Hn, Hv.
  destruct r as [[x|]|e]; cbn; [..|done].
  - apply wp_bind. unfold wp at 1. cbn. rewrite Hn. destruct (pastLimit _ x _) eqn:Hp.
    { apply wp_limit. intros w' Htr Hb. exists x. by split_and!; [left|..]. }
    apply wp_bind, wp_try. unfold wp at 1.
    pose proof (entitled_spec (with_store w s1) (se_ClientID x) (se_Resource x) (se_Identity x)) as He. unfold admitted in He.
    rewrite (client_of_agree w), (judged_agree w) in He by done.
    destruct (entitled i directory documents _ _ _ _) as [[[]|e] w2]; cbn in *.
    + unfold wp. cbn. exists x. split_and!; try done. by apply He.
    + destruct (is_not_entitled e); unfold wp; cbn; [|done]. exists x. split_and!; try done. intros Ho. by apply He in Ho.
  - apply wp_bind, wp_try, wp_stored_any. intros [[x|]|e] s2 Hs2; cbn; [|done..].
    apply wp_limit. intros w' Htr Hb. exists x. split; [|done]. right. split; [done|].
    cbn in Hs2. eapply (endedByAbsoluteLimit_under token w s1); [done| |by rewrite Hs2]. intros k. by apply Hv.
Qed.

(** ** How long a token lives *)


Lemma thinks_grantFor x : thinks (grantFor x : W S (option Grant)).
Proof. done. Qed.
Lemma thinks_namesOf subject : thinks (namesOf i directory subject).
Proof.
  unfold namesOf. destruct (negb _); [apply thinks_ret|]. apply thinks_bind; [apply thinks_try, thinks_resolve|]. intros r. apply thinks_ret.
Qed.
Lemma thinks_claimsFor (r : token_request) : thinks (claimsFor i directory r).
Proof.
  assert (∀ subject, thinks (identityOf i directory subject)) as Hid.
  { intros subject. apply thinks_bind; [apply thinks_resolveSubject|]. intros [[? ?] ?]. apply thinks_ret. }
  destruct r as [a sid|x sc|x]; [apply Hid..|]. apply thinks_bind.
  - apply thinks_bind; [apply thinks_grantFor|]. intros [g|]; [apply thinks_ret|apply thinks_refuse].
  - intros claims. apply thinks_bind; [apply thinks_grantFor|]. intros found. apply thinks_bind; [apply thinks_namesOf|].
    intros [given family]. apply thinks_ret.
Qed.

(** What a request was granted, if it is an exchange. *)
Definition granted w (r : token_request) : option Grant :=
  match r with ForExchange x => w_grants w !! xr_key x | _ => None end.

Lemma wp_issue (r : token_request) id w (Φ : result storage_error token_record → World S → Prop) :
  (∀ e w', w_store w' = w_store w → Φ (Err e) w') →
  (∀ t s' w', tk_ID t = id → tk_Subject t = GetSubject r → tk_ClientID t = clientOf r → tk_Audience t = GetAudience r →
    tk_Session t = "" → tk_Expires t = token_end i r (token_lifetime i r (granted w r)) (is_now (w_store w)) →
    is_now s' = is_now (w_store w) →
    (∀ k, iv_value s' k = upd (iv_value (w_store w)) (tokenKey id)
       (Some (encode t, expires_in (is_now (w_store w)) (tk_Expires t - is_now (w_store w)))) k) →
    w_store w' = s' → w_trail w' = w_trail w → Φ (Ok t) w') → wp (issue i directory r id) w Φ.
Proof.
  intros Herr Hok. apply wp_bind. unfold wp at 1. simpl. apply wp_bind. unfold wp at 1.
  pose proof (thinks_claimsFor r (with_marked w (Some (accessAudienceOf r)))) as (Hs&Ht&Hg).
  destruct (claimsFor i directory r _) as [[[[[claims held] given] family]|e] w2]; simpl in *; [|by apply Herr].
  apply wp_bind. assert (∀ Ψ, Ψ (Ok (granted w r)) w2 → wp (match r with ForExchange x => grantFor x | _ => mret None end) w2 Ψ) as Hgr.
  { intros Ψ. unfold wp, granted. by destruct r; simpl; rewrite ?Hg. }
  apply Hgr. apply wp_bind. unfold wp at 1. simpl. apply wp_bind, wp_bind. unfold wp at 1. simpl.
  apply wp_stored, runs_Set. intros s' Hn Hv _. unfold wp. simpl. rewrite Hs in *. eapply (Hok _ s'); simpl; done.
Qed.


(** ** Revoking *)

(** Revoking a token ends all it may stand for: the session it is the id of, the session it
    is the refresh token of, and the access token it is the id of. *)
Theorem RevokeToken_ends (tok : string) w : filed (w_store w) → (Storage_RevokeToken tok w).1 = Ok tt →
  let after := (Storage_RevokeToken tok w).2 in
  (byID tok (w_store after)).1 = Ok None ∧ (ByToken tok (w_store after)).1 = Ok None ∧
  (∀ v e, iv_value (w_store w) (sessionTokenKey tok) = Some (v, e) → (byID (text v) (w_store after)).1 = Ok None) ∧
  (SetUserinfoFromToken tok after).1 = Err NoSuchToken.
Proof.
  intros Hf. enough (wp (Storage_RevokeToken tok) w (λ r w', r = Ok tt → (byID tok (w_store w')).1 = Ok None ∧
    iv_value (w_store w') (sessionTokenKey tok) = None ∧
    (∀ v e, iv_value (w_store w) (sessionTokenKey tok) = Some (v, e) → (byID (text v) (w_store w')).1 = Ok None) ∧
    iv_value (w_store w') (tokenKey tok) = None)) as Hw.
  { intros Hr after. destruct (Hw Hr) as (Hid&Htok&Hheld&Hgone). split_and!; [done| |done|].
    - unfold ByToken, mbind, M_bind. destruct (is_Get_spec (w_store after) (sessionTokenKey tok)) as (s'&->&_).
      unfold after. by rewrite Htok.
    - unfold after. by rewrite userinfo_value, Hgone. }
  apply wp_bind, wp_server, wp_stored_any. intros r1 s1 Hr1. pose proof (RevokeToken_spec (w_store w) tok Hf) as [Hsh1 Hok1].
  rewrite Hr1 in Hsh1, Hok1. simpl in *. destruct r1 as [b1|e1]; simpl; [|done]. destruct Hok1 as [Htok1 Hheld1].
  apply wp_bind, wp_server, wp_stored_any. intros r2 s2 Hr2. simpl in Hr2. pose proof (RevokeID_shrinks s1 tok) as Hsh2.
  pose proof (RevokeID_ends s1 tok (filed_shrinks _ _ Hsh1 Hf tok)) as Hends. rewrite Hr2 in Hsh2, Hends. simpl in *.
  destruct r2 as [b2|e2]; simpl; [|done]. apply wp_server, wp_stored, runs_Delete. intros s3 Hn3 Hv3 _ _. simpl in *.
  assert (shrinks s2 s3) as Hsh3 by (split; [done|]; intros k; rewrite Hv3; unfold upd; case_decide; auto).
  split_and!.
  - by eapply byID_shrinks.
  - apply (gone_shrinks s2); [done|]. by apply (gone_shrinks s1).
  - intros v e Hv. eapply byID_shrinks; [exact Hsh3|]. eapply byID_shrinks; [exact Hsh2|]. by eapply Hheld1.
  - rewrite Hv3. unfold upd. by rewrite decide_True.
Qed.

(** ** Codes *)

Lemma wp_code_gone (code : string) w id e ids t Φ :
  iv_value (w_store w) (codeKey code) = Some (raw id, e) → iv_value (w_store w) (requestKey id) = None →
  iv_value (w_store w) (codeSessionKey id) = Some (raw ids, t) →
  (∀ v (x : Session) e', iv_value (w_store w) (sessionKey ids) = Some (v, e') → decode v = Some x → se_ID x = ids) →
  (∀ w', (byID ids (w_store w')).1 = Ok None → is_now (w_store w') = is_now (w_store w) →
     (∀ k, k ≠ sessionKey ids → k ≠ codeSessionKey id → iv_value (w_store w') k = iv_value (w_store w) k) → Φ (Err NoSuchRequest) w') →
  (∀ er, (byID ids (w_store w)).1 ≠ Err er) →
  wp (AuthRequestByCode code) w Φ.
Proof.
  intros Hcode Hreq Hnote Hid HΦ Hread. apply wp_bind, wp_stored, runs_Get. intros s1 (Hn1&Hv1&_). rewrite Hcode. simpl. rewrite text_raw.
  apply wp_bind, wp_try, wp_request. intros s2 (Hn2&Hv2&_). simpl in *. unfold pending_request. simpl. rewrite Hv1, Hreq. simpl.
  apply wp_bind, wp_bind, wp_try, wp_stored, runs_Get. intros s3 (Hn3&Hv3&_). simpl in *. rewrite Hv2, Hv1, Hnote. simpl. rewrite text_raw.
  assert (∀ k, iv_value s3 k = iv_value (w_store w) k) as Hv by (intros k; by rewrite Hv3, Hv2, Hv1).
  assert (is_now s3 = is_now (w_store w)) as Hn by congruence.
  apply wp_bind, wp_try, wp_stored_any. intros r s4 Hr. simpl in Hr.
  pose proof (RevokeID_shrinks s3 ids) as [Hn4 _]. pose proof (RevokeID_ends s3 ids) as Hends. pose proof (RevokeID_leaves s3 ids) as Hkeep.
  rewrite Hr in Hn4, Hends, Hkeep. simpl in *.
  assert (∃ b, r = Ok b) as [b ->].
  { destruct r as [b|er]; [eauto|]. exfalso. apply (RevokeID_fails s3 ids er); [by rewrite Hr|]. rewrite byID_value, Hv, Hn, <- byID_value. apply Hread. }
  apply wp_bind, wp_try, wp_stored, runs_Delete. intros s5 Hn5 Hv5 _. unfold wp. simpl in *. apply HΦ; simpl.
  - rewrite byID_value, Hv5, Hn5. unfold upd. rewrite decide_False by (unfold sessionKey, codeSessionKey; discriminate).
    rewrite <- byID_value. apply Hends. intros v x e'. rewrite Hv. apply Hid.
  - congruence.
  - intros k Hk1 Hk2. rewrite Hv5. unfold upd. rewrite decide_False by done. rewrite Hkeep; [apply Hv| |done].
    intros v x e'. rewrite Hv. apply Hid.
Qed.

Ltac apart := unfold requestKey, codeKey, codeSessionKey, tokenKey, sessionKey, sessionTokenKey; discriminate.
Ltac at_key Hv := rewrite Hv; unfold upd; first [rewrite decide_True by done | rewrite decide_False by apart].

(** What redeeming a code leaves: the session under its id, the access token naming it, and
    the note of which session the code opened. *)
Lemma redeemed (a : authRequest) id refresh sid w got w1 (code : string) : (0 < cf_RefreshLifetime (is_cfg i))%Z →
  CreateAccessAndRefreshTokens i directory (ForCode a "") "" id refresh sid w = (Ok got, w1) →
  is_now (w_store w1) = is_now (w_store w) ∧
  iv_value (w_store w1) (codeKey code) = iv_value (w_store w) (codeKey code) ∧
  iv_value (w_store w1) (codeSessionKey (ar_ID a)) = Some (raw sid, Some (is_now (w_store w) + authCodeTTL)%Z) ∧
  (∃ x e, iv_value (w_store w1) (sessionKey sid) = Some (encode (x : Session), e) ∧ se_ID x = sid) ∧
  (∃ t e, iv_value (w_store w1) (tokenKey id) = Some (encode (t : token_record), e) ∧ tk_Session t = sid).
Proof.
  clear documents durable. intros Hlife. enough (wp (CreateAccessAndRefreshTokens i directory (ForCode a "") "" id refresh sid) w (λ r w1, ∀ got, r = Ok got →
    is_now (w_store w1) = is_now (w_store w) ∧
    iv_value (w_store w1) (codeKey code) = iv_value (w_store w) (codeKey code) ∧
    iv_value (w_store w1) (codeSessionKey (ar_ID a)) = Some (raw sid, Some (is_now (w_store w) + authCodeTTL)%Z) ∧
    (∃ x e, iv_value (w_store w1) (sessionKey sid) = Some (encode (x : Session), e) ∧ se_ID x = sid) ∧
    (∃ t e, iv_value (w_store w1) (tokenKey id) = Some (encode (t : token_record), e) ∧ tk_Session t = sid))) as Hw.
  { intros Hr. unfold wp in Hw. rewrite Hr in Hw. by apply (Hw got). }
  apply wp_bind, wp_issue; [done|]. intros t s1 w2 Hid Hsub Hcl Haud Hsess Hend Hn1 Hv1 Hw2 _. simpl.
  apply wp_bind, wp_server, wp_stored_any. rewrite Hw2. intros r s2 Hr.
  set (o := mkOpened _ _ _ _ _ _ _ _) in Hr.
  pose proof (leaves_Record (λ k, k ≠ sessionKey sid ∧ k ≠ sessionTokenKey refresh) (issuer_sessions i) o sid Hlife
    ltac:(naive_solver) ltac:(naive_solver) s1) as [Hn2 Hv2].
  pose proof (Sessions_Record_files (issuer_sessions i) o sid s1) as Hfiles. rewrite Hr in Hn2, Hv2, Hfiles. simpl in Hn2, Hv2, Hfiles.
  destruct r as [x|e]; simpl; [|done]. destruct (Hfiles x Hlife eq_refl) as [Hx Hs2].
  apply wp_bind, wp_server, wp_bind. unfold wp at 1. simpl. apply wp_stored, runs_Set. simpl. intros s3 Hn3 Hv3 _.
  apply wp_bind, wp_try, wp_stored, runs_Set. simpl. intros s4 Hn4 Hv4 _. unfold wp. simpl. intros got' _.
  assert (is_now s3 = is_now (w_store w)) as Hn by congruence. split; [congruence|].
  split; [at_key Hv4; at_key Hv3; rewrite Hv2 by (split; apart); by at_key Hv1|].
  split; [at_key Hv4; unfold expires_in, authCodeTTL, minute; simpl; by rewrite Hx, Hn|]. split.
  - exists x. eexists. split; [|done]. at_key Hv4. at_key Hv3. exact Hs2.
  - eexists (in_session t (se_ID x)), _. split; [|simpl; exact Hx]. at_key Hv4. rewrite Hv3. unfold upd. rewrite Hid. by rewrite decide_True.
Qed.

(** What may happen between two redemptions of a code: anything that leaves the code and the
    note of its session where they are and its request gone; the session may have been
    refreshed, or have ended, and the access token may have run out. *)
Definition goes_on (code : string) (a : authRequest) id sid w w' : Prop :=
  iv_value (w_store w') (codeKey code) = iv_value (w_store w) (codeKey code) ∧
  iv_value (w_store w') (codeSessionKey (ar_ID a)) = iv_value (w_store w) (codeSessionKey (ar_ID a)) ∧
  iv_value (w_store w') (requestKey (ar_ID a)) = iv_value (w_store w) (requestKey (ar_ID a)) ∧
  (iv_value (w_store w') (tokenKey id) = iv_value (w_store w) (tokenKey id) ∨ iv_value (w_store w') (tokenKey id) = None) ∧
  (iv_value (w_store w') (sessionKey sid) = None ∨
   ∃ (x : Session) e, iv_value (w_store w') (sessionKey sid) = Some (encode x, e) ∧ se_ID x = sid).

(** C22: A code that was redeemed with a refresh token, and is presented again while it and the
    note of its session are kept, is refused, and ends what it opened the first time, whatever
    happened in between, refreshes included: the session is gone, and the access token from
    the first redemption answers no more.  A code redeemed without one (no offline access)
    opens no session: presented again it is refused, and its access token goes on answering
    ([code_without_session]). *)
Theorem reused_code_ends_session (a : authRequest) (code : string) id refresh sid w got t w' :
  (0 < cf_RefreshLifetime (is_cfg i))%Z → sid ≠ "" →
  iv_value (w_store w) (codeKey code) = Some (raw (ar_ID a), Some t) →
  (CreateAccessAndRefreshTokens i directory (ForCode a "") "" id refresh sid w).1 = Ok got →
  let w1 := (CreateAccessAndRefreshTokens i directory (ForCode a "") "" id refresh sid w).2 in
  let w2 := (DeleteAuthRequest (ar_ID a) w1).2 in
  goes_on code a id sid w2 w' →
  let again := AuthRequestByCode code w' in
  again.1 = Err NoSuchRequest ∧ (byID sid (w_store again.2)).1 = Ok None ∧
  (SetUserinfoFromToken id again.2).1 ∈ [Err SessionEnded; Err NoSuchToken].
Proof.
  clear documents durable. intros Hlife Hsid Hcode Hgot w1.
  destruct (CreateAccessAndRefreshTokens _ _ _ _ _ _ _ w) as [r w''] eqn:Hr. simpl in Hgot, w1. subst w1 r. rename w'' into w1.
  destruct (redeemed a id refresh sid w got w1 code Hlife Hr) as (Hn1&Hc1&Hnote&_&(tk&et&Htk&Htks)).
  intros w2. unfold w2, DeleteAuthRequest, stored. destruct (is_Delete_spec (w_store w1) (requestKey (ar_ID a))) as (s2&->&Hn2&Hv2&_). simpl.
  intros (Hcode'&Hnote'&Hreq'&Htok'&Hsess').
  assert (∀ k, k ≠ requestKey (ar_ID a) → iv_value s2 k = iv_value (w_store w1) k) as Hs2.
  { intros k Hk. rewrite Hv2. unfold upd. by rewrite decide_False. }
  cbn [w_store with_store] in Hcode', Hnote', Hreq', Htok'. rewrite Hs2 in Hcode', Hnote', Htok' by apart.
  enough (wp (AuthRequestByCode code) w' (λ r w', r = Err NoSuchRequest ∧ (byID sid (w_store w')).1 = Ok None ∧
    (SetUserinfoFromToken id w').1 ∈ [Err SessionEnded; Err NoSuchToken])) as Hw by exact Hw.
  eapply (wp_code_gone code w' (ar_ID a) (Some t) sid).
  - by rewrite Hcode', Hc1.
  - rewrite Hreq', Hv2. unfold upd. by rewrite decide_True.
  - by rewrite Hnote', Hnote.
  - intros v y e'. destruct Hsess' as [->|(x&e&->&Hxid)]; [done|]. intros [= <- _]. rewrite decode_encode. by intros [= <-].
  - intros w3 Hgone Hnw Hkeep. split; [done|]. split; [done|]. rewrite userinfo_value, Hkeep by apart.
    destruct Htok' as [->| ->]; [|set_solver]. rewrite Htk, decode_encode, Htks.
    rewrite (proj2 (empty_false sid)) by done. rewrite Hgone. set_solver.
  - intros er. rewrite byID_value. destruct Hsess' as [->|(x&e&->&_)]; [done|]. by rewrite decode_encode.
Qed.

(** ** Proofs *)

(** One of the issuer's own tokens proves a person only as an access token on record, whose
    client may exchange sign-ins and is the one presenting it, of a person, with a live
    session behind it. *)
Theorem signInProof_proves (x : exchange_request) w proof : (signInProof i x w).1 = Ok proof →
  ∃ (t : token_record) c s e v, iv_value (w_store w) (tokenKey (xr_Token x)) = Some (v, e) ∧ decode v = Some t ∧
    xr_TokenType x = "urn:ietf:params:oauth:token-type:access_token" ∧
    Set_Client (is_policy i) (tk_ClientID t) = Some c ∧ c_SignInExchange c = true ∧ xr_ClientID x = tk_ClientID t ∧
    tk_Session t ≠ "" ∧ (byID (tk_Session t) (w_store w)).1 = Ok (Some s) ∧
    Contains (tk_Subject t) "@" = true ∧ proof = mkProof (tk_Subject t) None None None.
Proof.
  unfold signInProof. case_bool_decide as Htype; simpl; [|done]. unfold mbind, W_bind, server_error, stored, getJSON at 1, mbind at 1, M_bind.
  destruct (is_Get_spec (w_store w) (tokenKey (xr_Token x))) as (s1&->&Hn&Hv&_).
  destruct (iv_value (w_store w) (tokenKey (xr_Token x))) as [[v e]|]; simpl; [|done]. destruct (decode v) as [t|] eqn:Ht; simpl; [|done].
  destruct (Set_Client (is_policy i) (tk_ClientID t)) as [c|] eqn:Hc; simpl; [|done]. destruct (c_SignInExchange c) eqn:Hs; simpl; [|done].
  case_bool_decide as Hcl; simpl; [|done]. destruct (Contains (tk_Subject t) "@") eqn:Hp; simpl; [|done].
  destruct (empty (tk_Session t)) eqn:He; simpl; [done|].
  assert ((byID (tk_Session t) s1).1 = (byID (tk_Session t) (w_store w)).1) as Hb by (by rewrite !byID_value, Hv, Hn).
  destruct (byID (tk_Session t) s1) as [[[y|]|er] s2]; simpl in *; [|done..]. intros [= <-].
  apply empty_false in He. exists t, c, y, e, v. by split_and!.
Qed.
End steps.

(** ** Clients at the token endpoint *)

(** A caller is taken for a client only as the client is declared: a public or an exchange one
    with no secret at all, a confidential one with exactly the secret it has, and nobody
    for a client that is not declared. *)
Theorem AuthorizeClientIDSecret_spec (i : Issuer) (secrets : string → option string) clientID (secret : string) :
  AuthorizeClientIDSecret i secrets clientID secret = Ok tt ↔
  ∃ c, Set_Client (is_policy i) clientID = Some c ∧
    if bool_decide (c_Kind c = "public") || bool_decide (c_Kind c = "exchange") then secret = ""
    else secret ≠ "" ∧ secrets clientID = Some secret.
Proof.
  unfold AuthorizeClientIDSecret. destruct (Set_Client (is_policy i) clientID) as [c|].
  2: { split; [|by intros (?&?&_)]. destruct (documentURL clientID); [destruct (Permits _ _)|]; done. }
  destruct (bool_decide (c_Kind c = "public") || bool_decide (c_Kind c = "exchange")) eqn:Hk.
  - destruct (empty secret) eqn:He; simpl.
    + apply empty_true in He. split; [|done]. intros _. exists c. by rewrite Hk.
    + apply empty_false in He. split; [done|]. intros (?&[= <-]&Hs). by rewrite Hk in Hs.
  - split.
    + destruct (secrets clientID) as [want|] eqn:Hw; [|done]. destruct (empty want) eqn:He; [done|].
      destruct (bool_decide_reflect (want = secret)) as [<-|]; [|done]. intros _. exists c. split; [done|]. rewrite Hk. split; [by apply empty_false|done].
    + intros (?&[= <-]&Hs). rewrite Hk in Hs. destruct Hs as [Hne Hw]. rewrite Hw. apply empty_false in Hne. rewrite Hne. simpl.
      by rewrite bool_decide_true.
Qed.

(** ** Runs *)

Inductive kept : Type := KText (s : string) | KSession (x : Session) | KToken (t : token_record) | KRequest (r : authRequest) | KSignIn (x : SSOSession).
#[export] Program Instance kept_text : Value kept := { raw := KText; text := λ v, match v with KText s => s | _ => "" end }.
Solve All Obligations with done.
#[export] Program Instance kept_session : Document kept Session := { encode := KSession; decode := λ v, match v with KSession x => Some x | _ => None end }.
Solve All Obligations with done.
#[export] Program Instance kept_token : Document kept token_record := { encode := KToken; decode := λ v, match v with KToken x => Some x | _ => None end }.
Solve All Obligations with done.
#[export] Program Instance kept_request : Document kept authRequest := { encode := KRequest; decode := λ v, match v with KRequest x => Some x | _ => None end }.
Solve All Obligations with done.

#[export] Program Instance kept_sign_in : Document kept SSOSession := { encode := KSignIn; decode := λ v, match v with KSignIn x => Some x | _ => None end }.
Solve All Obligations with done.

Definition kept_store := MemoryState (V := kept).
Definition origin_down (clientID : string) : origin := mkOrigin (Status 404) false Unreachable.
Definition audit_up (e : event) : option string := None.
Definition audit_down (e : event) : option string := Some "the writer is not up".
Definition blank_world : World kept_store := mkWorld (NewMemoryState 5) ∅ ∅ ∅ None [].
Definition asked_for (clientID : string) : oidc_request := mkOidcRequest clientID ["openid"] "http://localhost:8000" "xyz" [] None.
Definition ada_signs_in : Authenticated := mkAuthenticated "Ada@example.com" None "b1" "google".
Definition asked_world (clientID : string) : World kept_store := (CreateAuthRequest (asked_for clientID) "" "" "r1" blank_world).2.
Definition ada_asked (clientID : string) : authRequest := mkAuthRequest "r1" (asked_for clientID) "" (Some 5%Z) false "" "" "".
Definition signed_in_world (clientID : string) : result storage_error unit * World kept_store :=
  Complete sample_issuer ada_directory origin_down audit_up "r1" ada_signs_in (asked_world clientID).
Definition ada_request : authRequest := signed_in (ada_asked "k8s:prod") ada_signs_in 5.
Definition coded_world : World kept_store := (SaveAuthCode "r1" "c1" (signed_in_world "k8s:prod").2).2.
Definition redeemed_world := CreateAccessAndRefreshTokens sample_issuer ada_directory (ForCode ada_request "") "" "a1" "f1" "s1" coded_world.
Definition got_tokens : string * string * Z * token_request := ("a1", "f1", 1805%Z, ForCode ada_request "s1").

Lemma redeemed_got : redeemed_world.1 = Ok got_tokens.
Proof. vm_compute. reflexivity. Qed.

(** A client that is not declared and whose document cannot be fetched at that moment passes both
    gates: somebody the client's groups do not admit, whom the directory does not even
    answer for, is signed in to it. *)
Theorem unresolved_client_admits_anybody :
  let nobody := mkAuthenticated "mallory@example.com" None "b9" "google" in
  let done := Complete sample_issuer ada_directory origin_down audit_up "r1" nobody (asked_world "https://claude.ai/oauth") in
  done.1 = Ok tt ∧ (ar_IsDone <$> match (request "r1" done.2).1 with Ok r => Some r | Err _ => None end) = Some true.
Proof. vm_compute. by split. Qed.

(** The cap of the documents block bounds what a document client is told its ID tokens live, and
    not the access tokens it gets. *)
Theorem document_cap_on_no_access_token :
  let client := mkClient "public" "An editor" "" "" [] [] ["rung:sre"] 900 false "" "" no_override "" in
  let x := mkSession "s" "ada@example.com" "https://claude.ai/oauth" "code" [] "" "" None 0 hour None in
  tokenLifetime sample_issuer client = 900%Z ∧ token_lifetime sample_issuer (ForRefresh x None) None = hour.
Proof. vm_compute. by split. Qed.

(** What the groups held allow bounds an exchanged token and no other: a sign-in's token lives as
    long as the deployment and the client let it, whatever the groups say. *)
Theorem group_lifetimes_bound_exchanges_only (i : Issuer) (r : token_request) g : (∀ x, r ≠ ForExchange x) →
  token_lifetime i r (Some g) = token_lifetime i r None.
Proof. intros Hr. destruct r as [| |x]; [done..|]. by destruct (Hr x). Qed.

(** The decision about an exchange is held for the life of the process: nothing that uses it, or
    comes after, drops it. *)
Theorem grants_are_kept {V S : Type} `{IStateSpec V S} `{Document V token_record} (i : Issuer) (directory : string → result string Standing)
    (r : token_request) id (w : World S) key g :
  w_grants w !! key = Some g → w_grants (CreateAccessToken i directory r id w).2 !! key = Some g.
Proof.
  intros Hg. unfold CreateAccessToken, mbind, W_bind. enough (w_grants (issue i directory r id w).2 = w_grants w) as Hi.
  { destruct (issue i directory r id w) as [[t|e] w']; simpl in *; by rewrite Hi. }
  unfold issue. unfold mbind at 1, W_bind, mark. unfold mbind at 1, W_bind.
  pose proof (thinks_claimsFor i directory r (with_marked w (Some (accessAudienceOf r)))) as (_&_&Hc).
  destruct (claimsFor i directory r _) as [[[[[claims held] given] family]|e] w2]; simpl in *; [|done].
  assert ((match r with ForExchange x => grantFor x | _ => mret None end : W S (option Grant)) w2 = (Ok (granted w2 r), w2)) as Hgr by (by destruct r).
  unfold mbind at 1, W_bind. rewrite Hgr. unfold save_token, now_, stored, mbind, W_bind. simpl.
  unfold setJSON. by destruct (is_Set_spec (w_store w2) (tokenKey id) (encode (mkToken id (GetSubject r) (clientOf r) (GetAudience r) (GetScopes r)
    (claims_at i (accessAudienceOf r) claims held) (token_end i r (token_lifetime i r (granted w2 r)) (is_now (w_store w2))) given family ""))
    (token_end i r (token_lifetime i r (granted w2 r)) (is_now (w_store w2)) - is_now (w_store w2))) as (s'&->&_).
Qed.

(** ** Witnesses *)

Definition opened_world : World kept_store := redeemed_world.2.

Lemma Complete_marks_witness : ∃ req', (request "r1" (signed_in_world "k8s:prod").2).1 = Ok req' ∧ ar_IsDone req' = true ∧ req' = ada_request.
Proof.
  destruct (Complete_marks sample_issuer ada_directory origin_down audit_up "r1" ada_signs_in (asked_world "k8s:prod") (ada_asked "k8s:prod"))
    as (req'&Hr&Hdone); [vm_compute; reflexivity|reflexivity|].
  exists req'. split; [exact Hr|]. destruct (ar_IsDone req') eqn:He.
  - destruct Hdone as (_&Hreq&_). split; [reflexivity|]. rewrite Hreq. vm_compute. reflexivity.
  - destruct Hdone as (_&Hne&_). destruct Hne. vm_compute. reflexivity.
Defined.

Lemma refresh_gate_witness : ∃ x, (TokenRequestByRefreshToken sample_issuer ada_directory origin_down "f1" opened_world).1 = Ok (ForRefresh x None) ∧
  se_ID x = "s1" ∧ (client_of sample_issuer origin_down opened_world "k8s:prod" = None ∨
    admitted sample_issuer ada_directory origin_down opened_world "k8s:prod" "" "ada@example.com").
Proof.
  pose proof (refresh_gate sample_issuer ada_directory origin_down "f1" opened_world) as Hg. cbv zeta in Hg.
  assert ((TokenRequestByRefreshToken sample_issuer ada_directory origin_down "f1" opened_world).1 =
    Ok (ForRefresh (mkSession "s1" "ada@example.com" "k8s:prod" "code" ["openid"] "" "b1" (Some 5%Z) 5 43200000000005 None) None)) as He
    by (vm_compute; reflexivity).
  rewrite He in Hg. destruct Hg as (x&Hx&_&_&Hadm). injection Hx as <-. eexists. split; [exact He|]. split; [reflexivity|exact Hadm].
Defined.


Definition kept_filed (k : string) (ve : kept * option Z) : Prop := match ve.1 with KSession x => k = sessionKey (se_ID x) | _ => True end.
#[export] Instance kept_filed_dec k ve : Decision (kept_filed k ve).
Proof. unfold kept_filed. destruct ve.1; apply _. Defined.

Lemma filed_checked (m : kept_store) : map_Forall kept_filed (ms_values m) → filed m.
Proof.
  intros Hm id v x e. simpl. unfold shown_value. destruct (ms_values m !! sessionKey id) as [[v0 e0]|] eqn:Hk; [|done].
  destruct (alive _ e0); [|done]. intros [= <- <-]. specialize (Hm _ _ Hk). unfold kept_filed in Hm. simpl in Hm.
  destruct v0; try done. intros [= <-]. by apply (inj (String.append "issuer:session:")) in Hm.
Qed.
Lemma opened_filed : filed (w_store opened_world).
Proof. apply filed_checked, (bool_decide_unpack _). vm_compute. exact I. Qed.

Lemma RevokeToken_ends_witness : (ByToken "f1" (w_store (Storage_RevokeToken "f1" opened_world).2)).1 = Ok None ∧
  (byID "s1" (w_store (Storage_RevokeToken "f1" opened_world).2)).1 = Ok None.
Proof.
  destruct (RevokeToken_ends "f1" opened_world opened_filed) as (_&Htok&Hheld&_); [vm_compute; reflexivity|].
  split; [exact Htok|]. eapply (Hheld (KText "s1")). vm_compute. reflexivity.
Defined.

(** A little after the redemption its refresh token is spent; then the code is presented again. *)
Definition refreshed_world : World kept_store :=
  let w2 := (DeleteAuthRequest "r1" opened_world).2 in
  let w3 := with_store w2 (is_wait (w_store w2) 100) in
  with_store w3 (Refreshed (issuer_sessions sample_issuer) "f1" "f2" (w_store w3)).2.

Lemma reused_code_ends_session_witness :
  let again := AuthRequestByCode "c1" refreshed_world in
  is_Some (match (byID "s1" (w_store refreshed_world)).1 with Ok o => o | Err _ => None end) ∧
  again.1 = Err NoSuchRequest ∧ (byID "s1" (w_store again.2)).1 = Ok None.
Proof.
  destruct (reused_code_ends_session sample_issuer ada_directory ada_request "c1" "a1" "f1" "s1" coded_world got_tokens (5 + authCodeTTL) refreshed_world)
    as (H1&H2&_); [vm_compute; reflexivity|discriminate|vm_compute; reflexivity|exact redeemed_got| |].
  - split; [vm_compute; reflexivity|]. split; [vm_compute; reflexivity|]. split; [vm_compute; reflexivity|].
    split; [left; vm_compute; reflexivity|]. right. eexists _, _. split; vm_compute; reflexivity.
  - split; [vm_compute; by eexists|]. split; [exact H1|exact H2].
Defined.

(** A code redeemed for an access token alone leaves no note: presented again it is refused,
    and the token it was redeemed for still answers who the person is. *)
Example code_without_session :
  let redeemed := CreateAccessToken sample_issuer ada_directory (ForCode ada_request "") "a1" coded_world in
  let w := (DeleteAuthRequest "r1" redeemed.2).2 in
  let again := AuthRequestByCode "c1" w in
  again.1 = Err NoSuchRequest ∧ (SetUserinfoFromToken "a1" again.2).1 = (SetUserinfoFromToken "a1" w).1 ∧
  match (SetUserinfoFromToken "a1" again.2).1 with Ok _ => True | Err _ => False end.
Proof. vm_compute. by split_and!. Qed.

(** The sample policy, its client trusted to exchange a sign-in. *)
Definition exchanging_issuer : Issuer :=
  mkIssuer (is_cfg sample_issuer) (mkPolicy 1 (p_Vocabulary sample_policy) (Groups sample_policy) (p_Claims sample_policy) (Lifetimes sample_policy)
    (Resources sample_policy) (p_ClientDocuments sample_policy)
    {["k8s:prod" := mkClient "public" "Production" "" "" ["http://localhost:8000"] [] ["prod:k8s:admin"] 1800 true "" "" no_override "."]}
    (GitHub sample_policy) (People sample_policy) (Slack sample_policy)).
Definition ada_exchange : exchange_request :=
  mkExchange "x1" "k8s:prod" ["k8s:prod"] "" [] (Some 5%Z) "urn:ietf:params:oauth:token-type:access_token" "a1" None "".

Lemma signInProof_proves_witness : ∃ (t : token_record) s, tk_Subject t = "ada@example.com" ∧ (byID (tk_Session t) (w_store opened_world)).1 = Ok (Some s).
Proof.
  destruct (signInProof_proves exchanging_issuer ada_exchange opened_world (mkProof "ada@example.com" None None None))
    as (t&c&s&e&v&_&_&_&_&_&_&_&Hs&_&Hp); [vm_compute; reflexivity|].
  exists t, s. split; [injection Hp as ->; reflexivity|exact Hs].
Defined.

Lemma group_lifetimes_bound_exchanges_only_witness :
  token_lifetime sample_issuer (ForCode ada_request "") (Some ada_grant) = token_lifetime sample_issuer (ForCode ada_request "") None.
Proof. apply (group_lifetimes_bound_exchanges_only sample_issuer (ForCode ada_request "") ada_grant). discriminate. Defined.

Definition exchanged_world : World kept_store := (ValidateTokenExchangeRequest exchanging_issuer ada_directory ada_exchange opened_world).2.

Lemma grants_are_kept_witness : is_Some (w_grants (CreateAccessToken exchanging_issuer ada_directory (ForExchange ada_exchange) "a2" exchanged_world).2 !! "x1").
Proof.
  destruct (w_grants exchanged_world !! "x1") as [g|] eqn:Hg; [|apply (f_equal (λ o, bool_decide (is_Some o))) in Hg; vm_compute in Hg; discriminate].
  exists g. apply (grants_are_kept exchanging_issuer ada_directory (ForExchange ada_exchange) "a2" exchanged_world "x1" g Hg).
Defined.
