(* ===== verification/GitHubTokens.v ===== *)
(** * GitHubTokens: installation tokens minted for a proof

    [internal/issuer/githubtoken.go]: which grant of a declared App a request is minted
    under, what GitHub is asked for, and how a request is spelled;
    [internal/issuer/githubtoken_http.go]: the exchange that serves one, over the proofs and
    the evaluation every exchange uses ([Storage], [Issuer]).

    GitHub, the store of keys, the signing of an App's token and the OpenID library's
    reading of a subject token are parameters, and answer as they like.  The HTTP around
    the handler, logs and the ring of recent requests are left out. *)

From S2P Require Import Prelude GoStrings Names Claims Glob Policy Validate Evaluate PolicySet Port IssuerState Sessions KeyRing SSO Issuer.
From S2P Require Import ClientDoc Storage StorageSafety Catalogue.

Implicit Types (id group repository name level : string) (groups repositories : list string) (permissions : gmap string string) (now : Z).

(** ** The grant *)

(** [internal/githubapp/githubapp.go:type Narrowing] *)
Record Narrowing := mkNarrowing { nw_Repositories : list string; nw_Permissions : gmap string string }.

(** Why no token is minted. *)
Inductive mint_error :=
| ErrUnavailable (why : string)
| ErrNoGitHubGrant
| ErrGitHubScope (why : string)
| ErrGitHubUpstream.

(** [internal/issuer/githubtoken.go:coversAll] *)
Definition coversAll (have want : gmap string string) : bool :=
  forallb (λ name, Covers (default "" (have !! name)) (default "" (want !! name))) (keys want).

(** [internal/issuer/githubtoken.go:123-151 DecideGitHubGrant]: the grants held that cover the
    repositories. *)
Definition covering (held : list AppGrant) repositories : result mint_error (list AppGrant) :=
  match repositories with
  | [] =>
      match List.filter (λ g, str_in "*" (ag_Repositories g)) held with
      | [] => Err (ErrGitHubScope "name the repositories: no grant covers every repository")
      | l => Ok l
      end
  | _ =>
      match List.find (λ r, negb (existsb (λ g, Matches g r) held)) repositories with
      | Some r => Err (ErrGitHubScope ("a repository is in no grant this proof holds: " +:+ r))
      | None =>
          match List.filter (λ g, negb (existsb (λ r, negb (Matches g r)) repositories)) held with
          | [] => Err (ErrGitHubScope "no one grant covers all of them: ask for them in separate tokens")
          | l => Ok l
          end
      end
  end.

(** [internal/issuer/githubtoken.go:DecideGitHubGrant] *)
Definition DecideGitHubGrant (app : App) groups repositories permissions : result mint_error (AppGrant * Narrowing) :=
  match List.filter (λ g, str_in (ag_Group g) groups) (ca_Grants app) with
  | [] => Err ErrNoGitHubGrant
  | held =>
      cover ← covering held repositories;
      if bool_decide (permissions = ∅) then
        match cover with
        | chosen :: _ => Ok (chosen, mkNarrowing repositories (ag_Permissions chosen))
        | [] => Err (ErrGitHubScope "")
        end
      else
        match List.find (λ g, coversAll (ag_Permissions g) permissions) cover with
        | Some g => Ok (g, mkNarrowing repositories permissions)
        | None => Err (ErrGitHubScope "the permissions are more than any grant covering those repositories allows")
        end
  end.

(** ** Minting *)

(** [internal/issuer/githubtoken.go:type GitHubTokenRequest] *)
Record GitHubTokenRequest := mkTokenRequest { tq_App : string; tq_Repositories : list string; tq_Permissions : gmap string string }.

(** [internal/githubapp/githubapp.go:type MintedToken] *)
Record MintedToken := mkMintedToken {
  mt_Token : string; mt_ExpiresAt : Z; mt_Repositories : list string; mt_Permissions : gmap string string }.

(** [internal/issuer/githubtoken.go:type GitHubToken]; what is not decided yet is [None]. *)
Record GitHubToken := mkGitHubToken {
  gt_Minted : option MintedToken; gt_Org : string; gt_Grant : option AppGrant; gt_Installation : Z }.
Definition no_token : GitHubToken := mkGitHubToken None "" None 0.

(** [internal/githubroster/catalogueapp/catalogueapp.go:type Record]: what minting reads of it. *)
Record AppRecord := mkAppRecord { rc_AppID : Z; rc_InstallationID : Z }.
(** [internal/githubroster/catalogueapp/catalogueapp.go:Record.Installed] *)
Definition Installed (r : AppRecord) : bool := negb (bool_decide (rc_InstallationID r = 0%Z)).

(** Why GitHub did not mint: a status it answered with, or anything else. *)
Inductive github_error := StatusError (code : Z) | NoAnswer.

Section minting.
(** The catalogue, the store of Apps and their keys, the App's own token and GitHub. *)
Context (apps : option (list App)) (store : option (string → result string (option (AppRecord * string)))).
Context (AppToken : Z → string → Z → option string) (InstallationTokenFor : string → Z → Narrowing → result github_error MintedToken).

(** [internal/issuer/githubtoken.go:208-247 Issuer.MintGitHubToken]: once the grant is decided. *)
Definition mint (app : App) (grant : AppGrant) (narrowing : Narrowing) now : GitHubToken * option mint_error :=
  let out := mkGitHubToken None (ca_Org app) (Some grant) 0 in
  match store with
  | None => (out, Some (ErrUnavailable "this deployment keeps no catalogue Apps"))
  | Some get =>
      match get (ca_ID app) with
      | Err _ => (out, Some ErrGitHubUpstream)
      | Ok None => (out, Some (ErrUnavailable "declared and has not been created"))
      | Ok (Some (record, key)) =>
          if negb (Installed record) || empty key then (out, Some (ErrUnavailable "created and not installed"))
          else
            let out := mkGitHubToken None (ca_Org app) (Some grant) (rc_InstallationID record) in
            match AppToken (rc_AppID record) key now with
            | None => (out, Some ErrGitHubUpstream)
            | Some token =>
                match InstallationTokenFor token (rc_InstallationID record) narrowing with
                | Ok minted => (mkGitHubToken (Some minted) (ca_Org app) (Some grant) (rc_InstallationID record), None)
                | Err (StatusError 404) => (out, Some (ErrUnavailable "GitHub no longer knows the installation"))
                | Err (StatusError 422) => (out, Some (ErrGitHubScope "outside the installation"))
                | Err _ => (out, Some ErrGitHubUpstream)
                end
            end
      end
  end.

(** [internal/issuer/githubtoken.go:Issuer.MintGitHubToken] *)
Definition MintGitHubToken groups (request : GitHubTokenRequest) now : GitHubToken * option mint_error :=
  match apps with
  | None => (no_token, Some (ErrUnavailable "this deployment declares no GitHub Apps"))
  | Some apps =>
      match Catalogue_Get apps (tq_App request) with
      | None => (no_token, Some (ErrUnavailable "the catalogue declares no such App"))
      | Some app =>
          match DecideGitHubGrant app groups (tq_Repositories request) (tq_Permissions request) with
          | Err e => (mkGitHubToken None (ca_Org app) None 0, Some e)
          | Ok (grant, narrowing) => mint app grant narrowing now
          end
      end
  end.
End minting.

(** ** How a request is spelled *)

(** [internal/issuer/githubtoken.go:FormatPermissions] *)
Definition FormatPermissions permissions : string :=
  Join ((λ name, name +:+ ":" +:+ default "" (permissions !! name)) <$> sorted_keys permissions) " ".

(** [strings.Fields], from the field it is in. *)
Fixpoint fields_from (field s : string) : list string :=
  match s with
  | EmptyString => if empty field then [] else [field]
  | String c s =>
      if is_space c then (if empty field then fields_from "" s else field :: fields_from "" s)
      else fields_from (field +:+ String c "") s
  end.
Definition Fields (s : string) : list string := fields_from "" s.

(** What a request may get wrong. *)
Inductive request_error :=
| NotARepository name | TooManyRepositories (n : nat) | NotAScope (field : string) | TwoLevels name (previous level : string).

(** [internal/issuer/githubtoken.go:260-263 requestedRepository], and [requestedPermission]. *)
Definition requestedRepository name : bool :=
  negb (empty name) && (String.length name <=? 100) && str_all (λ c, is_letter c || is_digit c || contains_byte c "._-") name.

(** [internal/issuer/githubtoken.go:265-266 maxRepositories] *)
Definition maxRepositories : nat := 500.

(** [internal/issuer/githubtoken.go:273-280 ParseGitHubTokenRequest]: one name. *)
Definition ask_repository (out : list string) name : result request_error (list string) :=
  if negb (requestedRepository name) then Err (NotARepository name) else Ok (add_new out name).

(** [internal/issuer/githubtoken.go:284-296 ParseGitHubTokenRequest]: one permission. *)
Definition ask_permission permissions (field : string) : result request_error (gmap string string) :=
  match cut_on ":" field with
  | None => Err (NotAScope field)
  | Some (name, level) =>
      if negb (permissionPattern name) || negb (Covers level level) then Err (NotAScope field)
      else
        match permissions !! name with
        | Some previous => if bool_decide (previous = level) then Ok (<[name := level]> permissions) else Err (TwoLevels name previous level)
        | None => Ok (<[name := level]> permissions)
        end
  end.

(** [internal/issuer/githubtoken.go:ParseGitHubTokenRequest] *)
Definition ParseGitHubTokenRequest (app : string) (repositories scope : string) : result request_error GitHubTokenRequest :=
  names ← fold_m ask_repository [] (Fields repositories);
  check (length names <=? maxRepositories) (TooManyRepositories (length names)) ;;
  asked ← fold_m ask_permission ∅ (Fields scope);
  Ok (mkTokenRequest app names asked).

(** ** What is written down of a request *)

(** [internal/issuer/exchange.go:Proof.kind] *)
Definition Proof_kind (p : Proof) : string :=
  if bool_decide (is_Some (pf_GitHub p)) then "ci"
  else if bool_decide (is_Some (pf_ServiceAccount p)) || bool_decide (is_Some (pf_AWS p)) then "workload"
  else if negb (empty (pf_Email p)) then "person" else "".

(** [internal/audit/events.go:type GitHubToken] *)
Record minted_record := mkMintedRecord {
  tr_Proof : string; tr_Org : string; tr_Grant : string; tr_Installation : Z;
  tr_Repositories : list string; tr_Permissions : string; tr_ExpiresAt : Z }.

(** [internal/issuer/githubtoken.go:githubTokenOf]: what was asked for when it was refused, what
    was granted when it was minted; never the token. *)
Definition githubTokenOf (proof : option Proof) (request : GitHubTokenRequest) (minted : GitHubToken) : minted_record :=
  let kind := match proof with Some p => Proof_kind p | None => "" end in
  let group := match gt_Grant minted with Some g => ag_Group g | None => "" end in
  match gt_Minted minted with
  | Some m => mkMintedRecord kind (gt_Org minted) group (gt_Installation minted) (mt_Repositories m) (FormatPermissions (mt_Permissions m)) (mt_ExpiresAt m)
  | None => mkMintedRecord kind (gt_Org minted) group (gt_Installation minted) (tq_Repositories request) (FormatPermissions (tq_Permissions request)) 0
  end.

(** ** The exchange *)

(** [tokens/tokens.go:38-45 GitHubAppAudiencePrefix] *)
Definition GitHubAppAudiencePrefix : string := "github-app:".
Definition TypeGitHubInstallationToken : string := "urn:access-roster:params:oauth:token-type:github-installation-token".

(** A token request's form, and the client it names in its header: [None] is a header that
    does not unescape. *)
Record token_form := mkTokenForm {
  tf_GrantType : string; tf_Requested : string; tf_Audience : list string; tf_Actor : string; tf_ActorType : string;
  tf_Subject : string; tf_SubjectType : string; tf_Repositories : string; tf_Scope : string; tf_Basic : option (string * string) }.

(** [internal/issuer/githubtoken_http.go:claimsGitHubToken] *)
Definition claimsGitHubToken (f : token_form) : bool :=
  bool_decide (tf_GrantType f = "urn:ietf:params:oauth:grant-type:token-exchange") &&
  bool_decide (tf_Requested f = TypeGitHubInstallationToken) &&
  existsb (λ a, HasPrefix a GitHubAppAudiencePrefix) (tf_Audience f).

(** How a request is refused. *)
Inductive refusal_kind :=
| InvalidRequest (why : string) | InvalidTarget | InvalidClient | InvalidGrant | Refused (e : storage_error) | InvalidScope | ServerFailed.

(** [internal/issuer/githubtoken_http.go:githubTokenError] *)
Definition githubTokenError (e : mint_error) : refusal_kind :=
  match e with
  | ErrUnavailable _ | ErrNoGitHubGrant => InvalidTarget
  | ErrGitHubScope _ => InvalidScope
  | ErrGitHubUpstream => ServerFailed
  end.

(** An answer with the one record made of it, and whether the record says it failed. *)
Record served := mkServed { sv_answer : result refusal_kind MintedToken; sv_App : string; sv_record : minted_record; sv_failed : bool }.

Section exchange.
Context {V S : Type} `{IState V S} `{Value V} `{Document V Session} `{Document V Storage.token_record} `{Document V authRequest}.
Context (i : Issuer) (directory : string → result string Standing) (secrets : string → option string).
Context (apps : option (list App)) (store : option (string → result string (option (AppRecord * string)))).
Context (AppToken : Z → string → Z → option string) (InstallationTokenFor : string → Z → Narrowing → result github_error MintedToken).
(** The library: which subject token types it knows, and what it reads of a token of one: the
    token's id, and the proof a verifier made of it. *)
Context (supported : string → bool) (subject_of : string → string → option (string * option Proof)).

(** [internal/issuer/exchange.go:Issuer.evaluate], in this process. *)
Definition evaluated (proof : Proof) : W S (result refusal (Result * bool)) := λ w,
  let '(r, seen) := evaluate i directory (w_seen w) proof (is_now (w_store w)) in (Ok r, with_seen w seen).

(** [internal/issuer/githubtoken_http.go:176-180 serveGitHubToken], from the proof on. *)
Definition serve_proof (request : GitHubTokenRequest) (proof : Proof) : W S served :=
  let done minted failed answer := mret (mkServed answer (tq_App request) (githubTokenOf (Some proof) request minted) failed) in
  e ← evaluated proof;
  match e with
  | Err _ => done no_token true (Err InvalidGrant)
  | Ok (result, _) =>
      now ← now_;
      let '(minted, failure) := MintGitHubToken apps store AppToken InstallationTokenFor (res_Groups result) request now in
      match failure, gt_Minted minted with
      | Some e, _ => done minted (match e with ErrGitHubUpstream => true | _ => false end) (Err (githubTokenError e))
      | None, Some m => done minted false (Ok m)
      | None, None => done minted true (Err ServerFailed)
      end
  end.

(** [internal/issuer/githubtoken_http.go:serveGitHubToken]: one answer, with its one record. *)
Definition serveGitHubToken (f : token_form) : W S served :=
  let audience := default "" (head (tf_Audience f)) in
  let app := TrimPrefix audience GitHubAppAudiencePrefix in
  let refuse request e := mret (mkServed (Err e) app (githubTokenOf None request no_token) false) in
  let asked := mkTokenRequest app [] ∅ in
  if negb (empty (tf_Actor f)) || negb (empty (tf_ActorType f)) then
    refuse asked (InvalidRequest "actor_token: acting for another party is not served by this issuer")
  else if negb (length (tf_Audience f) =? 1) then refuse asked InvalidTarget
  else if empty (tf_Subject f) || empty (tf_SubjectType f) then
    refuse asked (InvalidRequest "subject_token and subject_token_type are required")
  else if negb (supported (tf_SubjectType f)) then refuse asked (InvalidRequest "subject_token_type is not supported")
  else match ParseGitHubTokenRequest app (tf_Repositories f) (tf_Scope f) with
  | Err _ => refuse asked (InvalidRequest "repositories or scope")
  | Ok request =>
      match tf_Basic f with
      | None => refuse request InvalidClient
      | Some (client, secret) =>
          if negb (empty client) && negb (bool_decide (client = audience)) && negb (is_ok (AuthorizeClientIDSecret i secrets client secret))
          then refuse request InvalidClient
          else match subject_of (tf_Subject f) (tf_SubjectType f) with
          | None => refuse request InvalidGrant
          | Some (id, carried) =>
              r ← try_ (proofOf i (mkExchange "" client [] "" [] None (tf_SubjectType f) id carried ""));
              match r with
              | Err e => refuse request (Refused e)
              | Ok proof => serve_proof request proof
              end
          end
      end
  end.
End exchange.

(** ** Deciding *)

(** What a grant must be for a request, all of it: held, for every repository named - or
    for every one there is - and for every permission named. *)
Definition fits groups repositories permissions (g : AppGrant) : bool :=
  str_in (ag_Group g) groups &&
  (match repositories with [] => str_in "*" (ag_Repositories g) | _ => forallb (Matches g) repositories end) &&
  (bool_decide (permissions = ∅) || coversAll (ag_Permissions g) permissions).

Lemma find_filter {A} (f g : A → bool) (l : list A) : List.find g (List.filter f l) = List.find (λ x, f x && g x) l.
Proof. induction l as [|x l IH]; [done|]. cbn. destruct (f x); cbn; [|done]. by destruct (g x). Qed.

Lemma find_ext {A} (f g : A → bool) (l : list A) : (∀ x, x ∈ l → f x = g x) → List.find f l = List.find g l.
Proof.
  induction l as [|x l IH]; intros Heq; [done|]. cbn. rewrite Heq by by left. destruct (g x); [done|]. apply IH. intros y Hy. apply Heq. by right.
Qed.

Lemma find_head {A} (l : list A) : List.find (λ _, true) l = head l.
Proof. by destruct l. Qed.

Lemma find_nothing {A} (f : A → bool) (l : list A) : (∀ x, x ∈ l → f x = false) → List.find f l = None.
Proof.
  induction l as [|x l IH]; intros Hf; [done|]. cbn. rewrite Hf by by left. apply IH. intros y Hy. apply Hf. by right.
Qed.

(** Which of the grants held cover the repositories. *)
Definition covers_repositories repositories (g : AppGrant) : bool :=
  match repositories with [] => str_in "*" (ag_Repositories g) | _ => forallb (Matches g) repositories end.

Lemma covering_spec held repositories :
  match covering held repositories with
  | Ok l => l = List.filter (covers_repositories repositories) held ∧ l ≠ []
  | Err e => (∃ why, e = ErrGitHubScope why) ∧ List.filter (covers_repositories repositories) held = []
  end.
Proof.
  unfold covering, covers_repositories. destruct repositories as [|r0 rs]; cbn [covering].
  { destruct (List.filter _ held) eqn:Hf; [|done]. split; [by eexists|done]. }
  assert (∀ g, negb (existsb (λ r, negb (Matches g r)) (r0 :: rs)) = forallb (Matches g) (r0 :: rs)) as Heq.
  { intros g. induction (r0 :: rs) as [|r l IH]; [done|]. cbn. rewrite negb_orb, negb_involutive. by rewrite IH. }
  destruct (List.find _ (r0 :: rs)) as [r|] eqn:Hr.
  - split; [by eexists|]. apply List.find_some in Hr as [Hr Hno%negb_true_iff]. apply list_elem_of_In in Hr.
    apply filter_none. intros g Hg. destruct (forallb (Matches g) (r0 :: rs)) eqn:Hall; [|done].
    rewrite forallb_forall in Hall. apply list_elem_of_In in Hr. specialize (Hall r Hr).
    assert (existsb (λ g, Matches g r) held = true); [|congruence]. apply existsb_exists. exists g. by rewrite <- list_elem_of_In.
  - rewrite (filter_agree _ (λ g, forallb (Matches g) (r0 :: rs)) held Heq).
    destruct (List.filter _ held) eqn:Hf; [|done]. split; [by eexists|done].
Qed.

(** The grants held that cover the repositories, in the catalogue's order. *)
Definition held_covering (app : App) groups repositories : list AppGrant :=
  List.filter (covers_repositories repositories) (List.filter (λ g, str_in (ag_Group g) groups) (ca_Grants app)).

Lemma find_covering (app : App) groups repositories f : List.find f (held_covering app groups repositories) =
  List.find (λ g, str_in (ag_Group g) groups && (covers_repositories repositories g && f g)) (ca_Grants app).
Proof. unfold held_covering. by rewrite !find_filter. Qed.

Lemma elem_of_held_covering (app : App) groups repositories g : g ∈ held_covering app groups repositories ↔
  g ∈ ca_Grants app ∧ ag_Group g ∈ groups ∧ covers_repositories repositories g = true.
Proof.
  unfold held_covering. rewrite !elem_of_filter_bool. unfold str_in. rewrite bool_decide_eq_true. tauto.
Qed.

(** [DecideGitHubGrant] in two steps: the grants that cover, and the first that fits. *)
Lemma decided (app : App) groups repositories permissions :
  let cover := held_covering app groups repositories in
  DecideGitHubGrant app groups repositories permissions =
    match List.filter (λ g, str_in (ag_Group g) groups) (ca_Grants app) with
    | [] => Err ErrNoGitHubGrant
    | held =>
        match covering held repositories with
        | Err e => Err e
        | Ok _ =>
            match List.find (fits groups repositories permissions) (ca_Grants app) with
            | Some g => Ok (g, mkNarrowing repositories (if bool_decide (permissions = ∅) then ag_Permissions g else permissions))
            | None => Err (ErrGitHubScope "the permissions are more than any grant covering those repositories allows")
            end
        end
    end.
Proof.
  cbv zeta. unfold DecideGitHubGrant. destruct (List.filter _ (ca_Grants app)) as [|g0 held'] eqn:Hheld; [done|].
  rewrite <- Hheld. pose proof (covering_spec (List.filter (λ g, str_in (ag_Group g) groups) (ca_Grants app)) repositories) as Hc.
  destruct (covering _ repositories) as [cover|e]; [|done]. cbn [mbind result_bind]. destruct Hc as [Hcover Hne].
  fold (held_covering app groups repositories) in Hcover.
  case_bool_decide as Hp.
  - assert (List.find (fits groups repositories permissions) (ca_Grants app) = head cover) as ->; [|by destruct cover].
    rewrite <- find_head, Hcover, find_covering. apply find_ext. intros g _. unfold fits.
    by rewrite bool_decide_true, orb_true_l, !andb_true_r by done.
  - rewrite Hcover, find_covering, (find_ext _ (fits groups repositories permissions)); [by destruct (List.find _ _)|].
    intros g _. unfold fits. by rewrite bool_decide_false, orb_false_l, andb_assoc by done.
Qed.

Lemma decided_ok (app : App) groups repositories permissions g n : DecideGitHubGrant app groups repositories permissions = Ok (g, n) →
  List.find (fits groups repositories permissions) (ca_Grants app) = Some g ∧
  n = mkNarrowing repositories (if bool_decide (permissions = ∅) then ag_Permissions g else permissions).
Proof.
  rewrite decided. destruct (List.filter _ _); [done|]. destruct (covering _ _); [|done].
  destruct (List.find _ _); [|done]. by intros [= <- <-].
Qed.

(** ** Minting *)

(** A narrowing that stays within one grant of an App: some permission, each within the
    grant's and so within the App's, and only repositories the grant covers. *)
Definition within (app : App) (g : AppGrant) (n : Narrowing) : Prop :=
  nw_Permissions n ≠ ∅ ∧
  (∀ name level, nw_Permissions n !! name = Some level → ∃ have top,
    ag_Permissions g !! name = Some have ∧ ca_Permissions app !! name = Some top ∧ Covers have level = true ∧ Covers top level = true) ∧
  (nw_Repositories n = [] → "*" ∈ ag_Repositories g) ∧ ∀ r, r ∈ nw_Repositories n → Matches g r = true.

Lemma Covers_refl_of have want : Covers have want = true → Covers have have = true.
Proof. unfold Covers. rewrite !andb_true_iff, !Nat.ltb_lt, !Nat.leb_le. lia. Qed.

Lemma Covers_some have want : Covers (default "" have) want = true → ∃ h, have = Some h ∧ Covers h want = true.
Proof. destruct have as [h|]; [by exists h|done]. Qed.

Lemma coversAll_spec (have want : gmap string string) : coversAll have want = true →
  ∀ name level, want !! name = Some level → ∃ h, have !! name = Some h ∧ Covers h level = true.
Proof.
  unfold coversAll. rewrite forallb_forall. intros Hall name level Hl.
  assert (name ∈ keys want) as Hk by (apply elem_of_keys; by eexists). apply list_elem_of_In, Hall in Hk.
  rewrite Hl in Hk. by apply Covers_some in Hk.
Qed.

Lemma Decide_within (app : App) groups repositories permissions g n : App_Validate app = [] →
  DecideGitHubGrant app groups repositories permissions = Ok (g, n) →
  g ∈ ca_Grants app ∧ ag_Group g ∈ groups ∧ nw_Repositories n = repositories ∧ within app g n.
Proof.
  intros Hvalid [[Hin Hfits]%List.find_some ->]%decided_ok. apply list_elem_of_In in Hin. split; [done|].
  unfold fits in Hfits. apply andb_true_iff in Hfits as [[Hg Hr]%andb_true_iff Hp]. apply bool_decide_eq_true in Hg.
  destruct (App_Validate_grants app Hvalid g Hin) as (i&[Hne Hwithin]%Grant_check_within). split_and!; [done|done|]. split; [by cbn; case_bool_decide|split].
  - intros name level. cbn. case_bool_decide as Hnil.
    + intros Hl. destruct (Hwithin name level Hl) as (top&Htop&Hc). exists level, top. split_and!; [done|done| |done].
      revert Hc. unfold Covers. rewrite !andb_true_iff, !Nat.ltb_lt, !Nat.leb_le. lia.
    + intros Hl. destruct (coversAll_spec _ _ Hp name level Hl) as (have&Hhave&Hc).
      destruct (Hwithin name have Hhave) as (top&Htop&Hc'). exists have, top. split_and!; [done..|]. by eapply Covers_trans.
  - destruct repositories as [|r rs]; cbn [nw_Repositories].
    + split; [intros _; by apply bool_decide_eq_true in Hr|]. intros r Hin'. by apply elem_of_nil in Hin'.
    + split; [done|]. intros r' Hr'. rewrite forallb_forall in Hr. by apply Hr, list_elem_of_In.
Qed.

(** What a mint that succeeded rests on. *)
Lemma MintGitHubToken_ok apps store AppToken InstallationTokenFor groups request now out :
  MintGitHubToken apps store AppToken InstallationTokenFor groups request now = (out, None) →
  ∃ catalogue app g n record key token m get, apps = Some catalogue ∧ Catalogue_Get catalogue (tq_App request) = Some app ∧
    DecideGitHubGrant app groups (tq_Repositories request) (tq_Permissions request) = Ok (g, n) ∧
    store = Some get ∧ get (ca_ID app) = Ok (Some (record, key)) ∧ Installed record = true ∧
    AppToken (rc_AppID record) key now = Some token ∧ InstallationTokenFor token (rc_InstallationID record) n = Ok m ∧
    out = mkGitHubToken (Some m) (ca_Org app) (Some g) (rc_InstallationID record).
Proof.
  unfold MintGitHubToken. destruct apps as [catalogue|]; [|done]. destruct (Catalogue_Get _ _) as [app|] eqn:Happ; [|done].
  destruct (DecideGitHubGrant _ _ _ _) as [[g n]|e] eqn:Hd; [|done]. unfold mint. destruct store as [get|]; [|done].
  destruct (get (ca_ID app)) as [[[record key]|]|e] eqn:Hget; [|done|done].
  destruct (negb (Installed record) || empty key) eqn:Hinst; [done|]. apply orb_false_iff in Hinst as [Hinst%negb_false_iff _].
  destruct (AppToken _ key now) as [token|] eqn:Htok; [|done].
  destruct (InstallationTokenFor token _ n) as [m|e] eqn:Hm.
  - intros [= <-]. by exists catalogue, app, g, n, record, key, token, m, get.
  - intros Heq. exfalso. destruct e as [code|]; [|done]. by repeat (destruct code as [|code|]; try done; try destruct code).
Qed.

Lemma parsed_App app (names scope : string) request : ParseGitHubTokenRequest app names scope = Ok request → tq_App request = app.
Proof.
  unfold ParseGitHubTokenRequest. intros (repos&_&(?&_&(asked&_&[= <-])%bind_ok)%bind_ok)%bind_ok. done.
Qed.

Lemma TrimPrefix_app p s : TrimPrefix (p +:+ s) p = s.
Proof. unfold TrimPrefix. by rewrite (proj2 (CutPrefix_spec _ _ _) eq_refl). Qed.

Section served.
Context {V S : Type} `{IState V S} `{Value V} `{Document V Session} `{Document V Storage.token_record} `{Document V authRequest}.
Context (i : Issuer) (directory : string → result string Standing) (secrets : string → option string).
Context (store : option (string → result string (option (AppRecord * string)))).
Context (AppToken : Z → string → Z → option string) (InstallationTokenFor : string → Z → Narrowing → result github_error MintedToken).
Context (supported : string → bool) (subject_of : string → string → option (string * option Proof)).
Implicit Types (w : World S) (f : token_form).

(** Who a served request was minted for: one audience, the subject token the library read,
    the proof made of it, and what the policy gives that proof. *)
Definition proven f w id (proof : Proof) groups : Prop :=
  tf_Audience f = [GitHubAppAudiencePrefix +:+ id] ∧ tf_Actor f = "" ∧
  ∃ client token carried w1 held seen result,
    subject_of (tf_Subject f) (tf_SubjectType f) = Some (token, carried) ∧
    proofOf i (mkExchange "" client [] "" [] None (tf_SubjectType f) token carried "") w = (Ok proof, w1) ∧
    evaluate i directory (w_seen w1) proof (is_now (w_store w1)) = (Ok (result, held), seen) ∧ groups = res_Groups result.

(** Served a token: the proof, and the mint for its groups. *)
Lemma serve_proof_ok apps request proof w s w' m :
  serve_proof i directory apps store AppToken InstallationTokenFor request proof w = (Ok s, w') → sv_answer s = Ok m →
  ∃ result held seen now out, evaluate i directory (w_seen w) proof (is_now (w_store w)) = (Ok (result, held), seen) ∧
    MintGitHubToken apps store AppToken InstallationTokenFor (res_Groups result) request now = (out, None) ∧ gt_Minted out = Some m.
Proof.
  unfold serve_proof, evaluated, now_, mbind, W_bind. destruct (evaluate i directory (w_seen w) proof _) as [r seen] eqn:He.
  destruct r as [[result held]|e]; cbn [with_seen w_store].
  - destruct (MintGitHubToken _ _ _ _ _ _ _) as [out failure] eqn:Hmint.
    destruct failure as [e|]; [by intros [= <- _]|]. destruct (gt_Minted out) as [m'|] eqn:Hm'; [|by intros [= <- _]].
    intros [= <- _] [= ->]. exists result, held, seen, (is_now (w_store w)), out. done.
  - by intros [= <- _].
Qed.
End served.

(** ** Properties *)

(** C31: a request is minted under the first grant that fits it whole - held, for every
    repository and at every level it names - and asks for no more than it names, or, where it
    names no permission, exactly that grant's; two grants are never added together. It is
    refused as ungranted where no group held is in a grant, and as too wide where no one
    grant held fits. *)
Theorem DecideGitHubGrant_first (app : App) groups repositories permissions :
  match DecideGitHubGrant app groups repositories permissions with
  | Ok (g, n) => List.find (fits groups repositories permissions) (ca_Grants app) = Some g ∧
      n = mkNarrowing repositories (if bool_decide (permissions = ∅) then ag_Permissions g else permissions)
  | Err ErrNoGitHubGrant => ∀ g, g ∈ ca_Grants app → ag_Group g ∉ groups
  | Err (ErrGitHubScope _) => (∃ g, g ∈ ca_Grants app ∧ ag_Group g ∈ groups) ∧
      ∀ g, g ∈ ca_Grants app → fits groups repositories permissions g = false
  | Err _ => False
  end.
Proof.
  rewrite decided. destruct (List.filter _ _) as [|g0 held] eqn:Hheld.
  { intros g Hg Hgr. eapply filter_nil_none in Hheld; [|exact Hg]. unfold str_in in Hheld. by rewrite bool_decide_true in Hheld. }
  assert (∃ g, g ∈ ca_Grants app ∧ ag_Group g ∈ groups) as Hsome.
  { exists g0. assert (g0 ∈ g0 :: held) as Hg by by left. rewrite <- Hheld in Hg. apply elem_of_filter_bool in Hg as [? ?%bool_decide_eq_true]. done. }
  rewrite <- Hheld. pose proof (covering_spec (List.filter (λ g, str_in (ag_Group g) groups) (ca_Grants app)) repositories) as Hc.
  destruct (covering _ repositories) as [cover|e].
  - destruct (List.find _ (ca_Grants app)) as [g|] eqn:Hg; [done|]. split; [done|]. intros g Hg'. by apply (List.find_none _ _ Hg), list_elem_of_In.
  - destruct Hc as [[why ->] Hnone]. split; [done|]. fold (held_covering app groups repositories) in Hnone. intros g Hg.
    destruct (fits _ _ _ g) eqn:Hf; [|done]. apply andb_true_iff in Hf as [[Hgr%bool_decide_eq_true Hr]%andb_true_iff _].
    assert (g ∈ held_covering app groups repositories) as Hin by by apply elem_of_held_covering.
    rewrite Hnone in Hin. by apply elem_of_nil in Hin.
Qed.

(** C30: a token served is within one grant: the request names one App and acts for nobody
    else; what the library read of the subject token was proven under the rules of every
    exchange; a group the policy gives that proof is in a grant of that App, and GitHub was
    asked for some permissions, each within that grant's and the App's, on no repository that
    grant does not cover. *)
Theorem served_within_a_grant {V S : Type} `{IState V S} `{Value V} `{Document V Session} `{Document V Storage.token_record} `{Document V authRequest}
    (i : Issuer) directory secrets catalogue store AppToken InstallationTokenFor supported subject_of f (w : World S) s w' m
    (Hv : Catalogue_Validate catalogue = []) (Hclaims : claimsGitHubToken f = true)
    (Hs : serveGitHubToken i directory secrets (Some catalogue) store AppToken InstallationTokenFor supported subject_of f w = (Ok s, w'))
    (Hm : sv_answer s = Ok m) :
  ∃ id proof groups app g n token installation, proven i directory subject_of f w id proof groups ∧
    Catalogue_Get catalogue id = Some app ∧ g ∈ ca_Grants app ∧ ag_Group g ∈ groups ∧ within app g n ∧
    InstallationTokenFor token installation n = Ok m.
Proof.
  unfold serveGitHubToken in Hs. cbv zeta in Hs.
  destruct (negb (empty (tf_Actor f)) || negb (empty (tf_ActorType f))) eqn:Hactor; [injection Hs as <- _; done|].
  apply orb_false_iff in Hactor as [Hactor%negb_false_iff%empty_true _].
  destruct (length (tf_Audience f) =? 1) eqn:Hlen; cbn [negb] in Hs; [|injection Hs as <- _; done]. apply Nat.eqb_eq in Hlen.
  destruct (tf_Audience f) as [|audience [|]] eqn:Haud; try done. cbn [head default from_option id] in Hs.
  assert (∃ app, audience = GitHubAppAudiencePrefix +:+ app) as [name ->].
  { unfold claimsGitHubToken in Hclaims. rewrite Haud in Hclaims. cbn in Hclaims. rewrite orb_false_r in Hclaims.
    apply andb_true_iff in Hclaims as [_ Hp]. by apply HasPrefix_spec. }
  destruct (empty (tf_Subject f) || empty (tf_SubjectType f)); [injection Hs as <- _; done|].
  destruct (negb (supported (tf_SubjectType f))); [injection Hs as <- _; done|].
  destruct (ParseGitHubTokenRequest _ _ _) as [request|e] eqn:Hparse; [|injection Hs as <- _; done].
  destruct (tf_Basic f) as [[client secret]|]; [|injection Hs as <- _; done].
  destruct (_ && negb (is_ok _)); [injection Hs as <- _; done|].
  destruct (subject_of _ _) as [[token carried]|] eqn:Hsub; [|injection Hs as <- _; done].
  unfold mbind, W_bind, try_ in Hs. destruct (proofOf i _ w) as [[proof|e] w1] eqn:Hproof; [|injection Hs as <- _; done].
  destruct (serve_proof_ok i directory store AppToken InstallationTokenFor (Some catalogue) request proof w1 s w' m Hs Hm)
    as (result&held&seen&now&out&He&Hmint&Hout).
  apply MintGitHubToken_ok in Hmint as (cat&app&g&n&record&key&tok&m'&get&[= <-]&Happ&Hd&_&_&_&_&Hgh&->).
  injection Hout as ->. apply parsed_App in Hparse. rewrite Hparse, TrimPrefix_app in Happ.
  destruct (Catalogue_Get_valid _ _ _ Hv Happ) as (_&_&Hvalid&_).
  destruct (Decide_within app _ _ _ _ _ Hvalid Hd) as (Hg&Hgroup&_&Hwithin).
  exists name, proof, (res_Groups result), app, g, n, tok, (rc_InstallationID record). split_and!; try done.
  split_and!; [done|done|]. by exists client, token, carried, w1, held, seen, result.
Qed.

(** ** Spelling *)

(** A field: something, and no space in it. *)
Definition is_field (s : string) : Prop := s ≠ "" ∧ str_all (λ c, negb (is_space c)) s = true.

Lemma fields_from_app field part rest : str_all (λ c, negb (is_space c)) part = true →
  fields_from field (part +:+ rest) = fields_from (field +:+ part) rest.
Proof.
  revert field. induction part as [|c part IH]; intros field Hp; [by rewrite app_empty_r|]. cbn in Hp.
  apply andb_true_iff in Hp as [Hc%negb_true_iff Hp]. cbn [fields_from]. change (String c part +:+ rest) with (String c (part +:+ rest)).
  cbn [fields_from]. rewrite Hc, IH by done. by rewrite <- str_app_assoc.
Qed.

(** What was joined with spaces reads back. *)
Lemma Fields_Join parts : Forall is_field parts → Fields (Join parts " ") = parts.
Proof.
  unfold Fields. intros Hall. induction Hall as [|p parts [Hne Hp] Hall IH]; [done|]. apply empty_false in Hne.
  destruct parts as [|q parts].
  - cbn [Join]. rewrite <- (app_empty_r p) at 1. rewrite fields_from_app by done. cbn [fields_from]. change ("" +:+ p) with p. by rewrite Hne.
  - change (Join (p :: q :: parts) " ") with (p +:+ " " +:+ Join (q :: parts) " ").
    rewrite fields_from_app by done. change (" " +:+ Join (q :: parts) " ") with (String " " (Join (q :: parts) " ")).
    cbn [fields_from]. change (is_space " ") with true. cbn iota. change ("" +:+ p) with p. by rewrite Hne, IH.
Qed.

Lemma str_all_impl (p q : ascii → bool) s : (∀ c, p c = true → q c = true) → str_all p s = true → str_all q s = true.
Proof. intros Hpq. induction s as [|c s IH]; [done|]. cbn. rewrite !andb_true_iff. intros [? ?]. auto. Qed.

Lemma str_all_app p s t : str_all p (s +:+ t) = str_all p s && str_all p t.
Proof. induction s as [|c s IH]; [done|]. rewrite app_cons. cbn. by rewrite IH, andb_assoc. Qed.

(** Every byte a request may spell, by computation. *)
Definition bytes : list ascii := ascii_of_nat <$> seq 0 256.
Lemma bytes_imply (p q : ascii → bool) : forallb (λ c, implb (p c) (q c)) bytes = true → ∀ c, p c = true → q c = true.
Proof.
  rewrite forallb_forall. intros Hall c Hp. assert (c ∈ bytes) as Hc%list_elem_of_In%Hall; [|by rewrite Hp in Hc].
  apply list_elem_of_fmap. exists (nat_of_ascii c). split; [by rewrite ascii_nat_embedding|].
  apply elem_of_seq. pose proof (nat_ascii_bounded c). lia.
Qed.

Lemma repository_is_field name : requestedRepository name = true → is_field name.
Proof.
  unfold requestedRepository. rewrite !andb_true_iff. intros [[Hne%negb_true_iff%empty_false _] Hall]. split; [done|].
  revert Hall. apply str_all_impl, bytes_imply. vm_compute. reflexivity.
Qed.

Definition permission_char c : bool := is_lower c || is_digit c || byte_eqb c "_".

Lemma permission_chars name : permissionPattern name = true → name ≠ "" ∧ str_all permission_char name = true.
Proof.
  destruct name as [|c s]; [done|]. cbn [permissionPattern str_all]. rewrite !andb_true_iff. intros [Hc Hs].
  split_and!; [done|unfold permission_char; by rewrite Hc|exact Hs].
Qed.

Lemma str_all_none c s : str_all (λ d, negb (byte_eqb c d)) s = true → contains_byte c s = false.
Proof.
  induction s as [|d s IH]; [done|]. cbn [str_all]. rewrite andb_true_iff, contains_byte_cons, negb_true_iff. intros [-> Hs]. by apply IH.
Qed.

Lemma permission_no_colon name : permissionPattern name = true → contains_byte ":" name = false ∧ is_field name.
Proof.
  intros [Hne Hs]%permission_chars. split; [apply str_all_none|split; [done|]]; revert Hs; apply str_all_impl, bytes_imply; vm_compute; reflexivity.
Qed.

Lemma level_is_field level : 0 < levels level → is_field level.
Proof. unfold levels. intros Hl. repeat case_bool_decide; subst; try done; lia. Qed.

(** Permissions as they are formatted read back, added to what was asked so far. *)
Lemma ask_permissions permissions : map_Forall (λ name level, permissionPattern name = true ∧ 0 < levels level) permissions →
  ∀ names asked, NoDup names → (∀ name, name ∈ names → is_Some (permissions !! name) ∧ asked !! name = None) →
  ∃ asked', fold_m ask_permission asked ((λ name, name +:+ ":" +:+ default "" (permissions !! name)) <$> names) = Ok asked' ∧
    ∀ name, asked' !! name = if bool_decide (name ∈ names) then permissions !! name else asked !! name.
Proof.
  intros Hall. induction names as [|name names IH]; intros asked Hnd Hin.
  { exists asked. split; [done|]. intros name. by rewrite bool_decide_false by apply not_elem_of_nil. }
  apply NoDup_cons in Hnd as [Hnew Hnd]. destruct (Hin name) as [[level Hl] Hnone]; [by left|].
  destruct (Hall name level Hl) as [Hp Hlev]. destruct (permission_no_colon name Hp) as [Hcolon _].
  cbn [fmap list_fmap fold_m]. unfold ask_permission at 1. rewrite Hl. cbn [default from_option id].
  change (":" +:+ level) with (String ":" level). rewrite cut_on_first, Hp, Hnone by done. cbn [negb].
  assert (Covers level level = true) as -> by (unfold Covers; rewrite !andb_true_iff, Nat.ltb_lt, Nat.leb_le; lia). cbn [negb orb].
  destruct (IH (<[name := level]> asked)) as (asked'&Hf&Hval); [done| |].
  { intros n Hn. destruct (Hin n) as [Hs Hno]; [by right|]. split; [done|]. rewrite lookup_insert_ne; [done|]. by intros ->. }
  exists asked'. split; [done|]. intros n. rewrite Hval. destruct (decide (n = name)) as [->|Hne].
  - rewrite bool_decide_false, bool_decide_true by (done || by left). by rewrite lookup_insert_eq, Hl.
  - rewrite lookup_insert_ne by done. rewrite (bool_decide_ext (n ∈ name :: names) (n ∈ names)); [done|]. by rewrite elem_of_cons; naive_solver.
Qed.

Lemma ask_repositories names out : Forall (λ name, requestedRepository name = true) names → NoDup (out ++ names) →
  fold_m ask_repository out names = Ok (out ++ names).
Proof.
  intros Hall. revert out. induction Hall as [|name names Hname Hall IH]; intros out Hnd; [by rewrite app_nil_r|].
  cbn [fold_m]. unfold ask_repository, add_new, str_in. rewrite Hname. cbn [negb]. apply NoDup_app in Hnd as Hsplit.
  destruct Hsplit as (_&Hout&_). rewrite bool_decide_false; [|intros Hin; apply (Hout name Hin); by left].
  cbn [mbind result_bind]. rewrite IH; rewrite <- app_assoc; done.
Qed.

(** C32: a request reads back as it was spelled: distinct repository names, at most 500, and
    permissions at known levels, joined as a request joins them, are parsed to just those. *)
Theorem request_roundtrip app repositories permissions (Hnames : Forall (λ name, requestedRepository name = true) repositories)
    (Hnd : NoDup repositories) (Hmany : length repositories <= maxRepositories)
    (Hperm : map_Forall (λ name level, permissionPattern name = true ∧ 0 < levels level) permissions) :
  ParseGitHubTokenRequest app (Join repositories " ") (FormatPermissions permissions) = Ok (mkTokenRequest app repositories permissions).
Proof.
  unfold ParseGitHubTokenRequest, FormatPermissions. rewrite !Fields_Join.
  - rewrite ask_repositories by done. cbn [mbind result_bind List.app]. apply Nat.leb_le in Hmany. rewrite Hmany. cbn [check mbind result_bind].
    destruct (ask_permissions permissions Hperm (sorted_keys permissions) ∅) as (asked&->&Hval); [apply NoDup_sorted_keys| |].
    { intros name Hn. by apply elem_of_sorted_keys in Hn. }
    cbn. do 2 f_equal. apply map_eq. intros name. rewrite Hval. case_bool_decide as Hn; [done|].
    rewrite elem_of_sorted_keys in Hn. rewrite lookup_empty. by destruct (permissions !! name); [destruct Hn|].
  - eapply Forall_impl; [exact Hnames|]. apply repository_is_field.
  - apply Forall_fmap, Forall_forall. intros name [level Hl]%elem_of_sorted_keys. cbn. rewrite Hl. cbn.
    destruct (Hperm name level Hl) as [Hp Hlev]. destruct (permission_no_colon name Hp) as [_ [Hne Hs]]. destruct (level_is_field level Hlev) as [_ Hls].
    split; [by destruct name|]. rewrite !str_all_app, Hs, Hls. done.
Qed.

(** ** Evaluated *)

(** A catalogue with one App, and ada's sign-in exchanged for a token of it. *)
Definition renovate : App := mkApp "renovate" "acme" "" false {["contents" := "write"; "issues" := "read"]} [] ""
  [mkAppGrant "prod:k8s:admin" ["infra-*"] {["contents" := "read"]}; mkAppGrant "nobody" ["*"] {["contents" := "write"]}].
Definition renovate_key : option (string → result string (option (AppRecord * string))) := Some (λ _, Ok (Some (mkAppRecord 12 34, "key"))).
Definition github_mints (token : string) (installation : Z) (n : Narrowing) : result github_error MintedToken :=
  Ok (mkMintedToken "ghs" 3600 (nw_Repositories n) (nw_Permissions n)).
Definition ada_form (repositories : string) : token_form :=
  mkTokenForm "urn:ietf:params:oauth:grant-type:token-exchange" TypeGitHubInstallationToken ["github-app:renovate"] "" ""
    "opaque" "urn:ietf:params:oauth:token-type:access_token" repositories "" (Some ("k8s:prod", "")).
Definition ada_serves (repositories : string) : result storage_error served * World kept_store :=
  serveGitHubToken exchanging_issuer ada_directory (λ _, None) (Some [renovate]) renovate_key (λ _ _ _, Some "jwt") github_mints
    (λ _, true) (λ _ _, Some ("a1", None)) (ada_form repositories) opened_world.
Definition ada_served : served := match (ada_serves "infra-live").1 with Ok s => s | Err _ => mkServed (Err InvalidGrant) "" (mkMintedRecord "" "" "" 0 [] "" 0) true end.
Definition ada_minted : MintedToken := mkMintedToken "ghs" 3600 ["infra-live"] {["contents" := "read"]}.

Example ada_is_served : sv_answer ada_served = Ok ada_minted ∧ tr_Grant (sv_record ada_served) = "prod:k8s:admin".
Proof. split; vm_compute; reflexivity. Qed.
Example ada_asks_wider : (λ s, sv_answer s) <$> (ada_serves "infra-live console").1 = Ok (Err InvalidScope).
Proof. vm_compute. reflexivity. Qed.

Lemma ada_serves_ok : ada_serves "infra-live" = (Ok ada_served, (ada_serves "infra-live").2).
Proof. vm_compute. reflexivity. Qed.

Lemma served_within_a_grant_witness : ∃ id proof groups app g n token installation,
  proven exchanging_issuer ada_directory (λ _ _, Some ("a1", None)) (ada_form "infra-live") opened_world id proof groups ∧
  Catalogue_Get [renovate] id = Some app ∧ g ∈ ca_Grants app ∧ ag_Group g ∈ groups ∧ within app g n ∧
  github_mints token installation n = Ok ada_minted.
Proof.
  exact (served_within_a_grant exchanging_issuer ada_directory (λ _, None) [renovate] renovate_key (λ _ _ _, Some "jwt") github_mints
    (λ _, true) (λ _ _, Some ("a1", None)) (ada_form "infra-live") opened_world ada_served (ada_serves "infra-live").2 ada_minted
    eq_refl eq_refl ada_serves_ok (proj1 ada_is_served)).
Defined.

Lemma request_roundtrip_witness : ParseGitHubTokenRequest "renovate" (Join ["infra-live"; "console"] " ") (FormatPermissions {["contents" := "read"; "issues" := "write"]}) =
  Ok (mkTokenRequest "renovate" ["infra-live"; "console"] {["contents" := "read"; "issues" := "write"]}).
Proof.
  apply (request_roundtrip "renovate" ["infra-live"; "console"] {["contents" := "read"; "issues" := "write"]}).
  - by repeat constructor.
  - apply (bool_decide_unpack _). vm_compute. exact I.
  - apply Nat.leb_le. vm_compute. reflexivity.
  - apply (bool_decide_unpack _). vm_compute. exact I.
Defined.
