(* ===== verification/Snapshot.v ===== *)
(** * Snapshot: the hub's copy of one directory

    [internal/hub/snapshot.go] and the wire form of [internal/hub/blobsnapshots.go]: the
    accounts, the groups and the reverse index of a full read; narrowing it to the domains
    and groups an installation serves; patching one account in; and storing it.  The gzip
    and the JSON around the wire form are left out. *)

From S2P Require Import Prelude GoStrings Policy.

Implicit Types (email address workspace domain m k e : string) (serve sync : list string) (now : Z).

(** [backend/backend.go:type Account] *)
Record dirAccount := mkAccount { da_Email : string; da_Live : bool; da_GivenName : string; da_FamilyName : string }.

(** [backend/backend.go:type Group] *)
Record dirGroup := mkDirGroup { dg_Email : string; dg_Members : list string }.

(** [internal/hub/snapshot.go:type Snapshot] *)
Record Snapshot := mkSnapshot {
  sn_Workspace : string; sn_TakenAt : Z; sn_Accounts : gmap string dirAccount; sn_Groups : gmap string dirGroup;
  sn_MemberOf : gmap string (list string); sn_Discovered : list string }.

(** Both are lower-cased, trimmed and sorted, each once: [normaliseDomains] is the same code. *)
Definition seen_step (seen : gmap string unit) (g : string) : gmap string unit :=
  let g := ToLower (TrimSpace g) in if empty g then seen else <[g := tt]> seen.

(** [internal/hub/snapshot.go:normaliseGroups] *)
Definition normaliseGroups (l : list string) : list string := sorted_keys (foldl seen_step ∅ l).

(** [internal/hub/workspace.go:normaliseDomains] *)
Definition normaliseDomains (l : list string) : list string := sorted_keys (foldl seen_step ∅ l).

(** [internal/hub/snapshot.go:61-64 NewSnapshot]: the address lower-cased, and filed. *)
Definition file_account (accounts : gmap string dirAccount) (a : dirAccount) : gmap string dirAccount :=
  let email := ToLower (da_Email a) in <[email := mkAccount email (da_Live a) (da_GivenName a) (da_FamilyName a)]> accounts.

(** [internal/hub/snapshot.go:69-72 NewSnapshot]: one member of one group. *)
Definition file_member email (memberOf : gmap string (list string)) m : gmap string (list string) :=
  let m := ToLower m in <[m := default [] (memberOf !! m) ++ [email]]> memberOf.

(** [internal/hub/snapshot.go:65-73 NewSnapshot]: one group. *)
Definition file_group (s : gmap string dirGroup * gmap string (list string)) (g : dirGroup) :
    gmap string dirGroup * gmap string (list string) :=
  let email := ToLower (dg_Email g) in
  (<[email := mkDirGroup email (dg_Members g)]> s.1, foldl (file_member email) s.2 (dg_Members g)).

(** [internal/hub/snapshot.go:NewSnapshot] *)
Definition NewSnapshot workspace (takenAt : Z) (accounts : list dirAccount) (groups : list dirGroup) (discovered : list string) : Snapshot :=
  let found := normaliseGroups discovered in
  let '(filed, memberOf) := foldl file_group (∅, ∅) groups in
  mkSnapshot workspace takenAt (foldl file_account ∅ accounts) filed (sort_strings <$> memberOf)
    (match found with [] => normaliseGroups (dg_Email <$> groups) | _ => found end).

(** [internal/hub/snapshot.go:123-135 restrict] *)
Definition in_served serve address : bool :=
  match cut_last "@" address with
  | None => false
  | Some (_, domain) => str_in (ToLower domain) (ToLower <$> serve)
  end.

(** [internal/hub/snapshot.go:143-152 restrict] *)
Definition keeps_group serve (g : dirGroup) : bool := in_served serve (dg_Email g) || existsb (in_served serve) (dg_Members g).

(** [internal/hub/snapshot.go:156-168 restrict] *)
Definition syncs sync (g : dirGroup) : bool := str_in (ToLower (dg_Email g)) ((λ g, ToLower (TrimSpace g)) <$> sync).

(** [internal/hub/snapshot.go:restrict] *)
Definition restrict (accounts : list dirAccount) (groups : list dirGroup) serve sync : list dirAccount * list dirGroup :=
  let '(accounts, groups) := match serve with
    | [] => (accounts, groups)
    | _ => (List.filter (λ a, in_served serve (da_Email a)) accounts, List.filter (keeps_group serve) groups)
    end in
  (accounts, match sync with [] => groups | _ => List.filter (syncs sync) groups end).

(** The values of a map, in the order of its keys. *)
Definition in_order {V} (m : gmap string V) : list V := omap (λ k, m !! k) (sorted_keys m).

(** [internal/hub/snapshot.go:Snapshot.narrow] *)
Definition narrow (s : Snapshot) serve : Snapshot :=
  match serve with
  | [] => s
  | _ =>
      let '(accounts, groups) := restrict (in_order (sn_Accounts s)) (in_order (sn_Groups s)) serve [] in
      NewSnapshot (sn_Workspace s) (sn_TakenAt s) accounts groups (sn_Discovered s)
  end.

(** [internal/hub/snapshot.go:Snapshot.narrowGroups] *)
Definition narrowGroups (s : Snapshot) sync : Snapshot :=
  match sync with
  | [] => s
  | _ =>
      let '(_, groups) := restrict (in_order (sn_Accounts s)) (in_order (sn_Groups s)) [] sync in
      NewSnapshot (sn_Workspace s) (sn_TakenAt s) (in_order (sn_Accounts s)) groups (sn_Discovered s)
  end.

(** [internal/hub/snapshot.go:Snapshot.Age] *)
Definition Age (s : Snapshot) now : Z := (now - sn_TakenAt s)%Z.

(** [internal/hub/snapshot.go:Snapshot.GroupsOf] *)
Definition GroupsOf (s : Snapshot) email : list string := default [] (sn_MemberOf s !! ToLower email).

(** [internal/hub/snapshot.go:255-260 Snapshot.patchAccount]: one group the address was in. *)
Definition leave_group email (groups : gmap string dirGroup) (g : string) : gmap string dirGroup :=
  match groups !! g with
  | Some grp => <[g := mkDirGroup (dg_Email grp) (List.filter (λ m, negb (bool_decide (m = email))) (dg_Members grp))]> groups
  | None => groups
  end.

(** [internal/hub/snapshot.go:266-278 Snapshot.patchAccount]: one group the address is in. *)
Definition join_group email (groups : gmap string dirGroup) (g : string) : gmap string dirGroup :=
  let grp := default (mkDirGroup g []) (groups !! g) in
  <[g := if str_in email (dg_Members grp) then grp else mkDirGroup (dg_Email grp) (sort_strings (dg_Members grp ++ [email]))]> groups.

(** [internal/hub/snapshot.go:Snapshot.patchAccount]; [account] is [None] where none was found. *)
Definition patchAccount (s : Snapshot) email (account : option dirAccount) (groups : list string) : Snapshot :=
  let email := ToLower email in
  let accounts := match account with
    | Some a => <[email := mkAccount email (da_Live a) (da_GivenName a) (da_FamilyName a)]> (sn_Accounts s)
    | None => delete email (sn_Accounts s)
    end in
  let left := foldl (leave_group email) (sn_Groups s) (default [] (sn_MemberOf s !! email)) in
  let memberOf := delete email (sn_MemberOf s) in
  match account with
  | None => mkSnapshot (sn_Workspace s) (sn_TakenAt s) accounts left memberOf (sn_Discovered s)
  | Some _ =>
      let lowered := ToLower <$> groups in
      mkSnapshot (sn_Workspace s) (sn_TakenAt s) accounts (foldl (join_group email) left lowered)
        (match lowered with [] => memberOf | _ => <[email := sort_strings lowered]> memberOf end) (sn_Discovered s)
  end.

(** [internal/hub/snapshot.go:Snapshot.isGroup]; the list is sorted, so the search finds what is there. *)
Definition isGroup (s : Snapshot) email : bool := bool_decide (is_Some (sn_Groups s !! email)) || str_in email (sn_Discovered s).

(** ** The wire form *)

(** [internal/hub/blobsnapshots.go:type wire] *)
Record wire := mkWire {
  wr_Workspace : string; wr_TakenAt : Z; wr_Accounts : list dirAccount; wr_Groups : list dirGroup; wr_Discovered : list string }.

(** [internal/hub/blobsnapshots.go:EncodeSnapshot] *)
Definition EncodeSnapshot (s : Snapshot) : wire :=
  mkWire (sn_Workspace s) (sn_TakenAt s) (in_order (sn_Accounts s)) (in_order (sn_Groups s)) (sn_Discovered s).

(** [internal/hub/blobsnapshots.go:DecodeSnapshot] *)
Definition DecodeSnapshot (w : wire) : Snapshot :=
  NewSnapshot (wr_Workspace w) (wr_TakenAt w) (wr_Accounts w) (wr_Groups w) (wr_Discovered w).

(** ** Sorted lists of addresses *)

Lemma sort_strings_id (l : list string) : StronglySorted String.le l → sort_strings l = l.
Proof.
  intros Hl. apply (StronglySorted_unique String.le); [apply sort_strings_sorted|done|apply sort_strings_Permutation].
Qed.

(** Two sorted lists without repeats that hold the same are the same. *)
Lemma sorted_same (l1 l2 : list string) : StronglySorted String.le l1 → StronglySorted String.le l2 → NoDup l1 → NoDup l2 →
  (∀ x, x ∈ l1 ↔ x ∈ l2) → l1 = l2.
Proof. intros ???? H. rewrite <- (sort_strings_id l1), <- (sort_strings_id l2) by done. by apply sort_strings_proper, NoDup_Permutation. Qed.

(** A list without repeats, sorted, is the sorted list of what it holds. *)
Lemma sorted_of (l1 l2 : list string) : StronglySorted String.le l2 → NoDup l1 → NoDup l2 → (∀ x, x ∈ l1 ↔ x ∈ l2) → sort_strings l1 = l2.
Proof. intros. rewrite <- (sort_strings_id l2) by done. by apply sort_strings_proper, NoDup_Permutation. Qed.

Lemma elem_of_in_order {V} (m : gmap string V) (x : V) : x ∈ in_order m ↔ ∃ k, m !! k = Some x.
Proof.
  unfold in_order. rewrite list_elem_of_omap. split; [intros (k&_&?); eauto|]. intros [k Hk]. exists k.
  split; [|done]. apply elem_of_sorted_keys. by eexists.
Qed.

Lemma in_order_keys {V} (m : gmap string V) (key : V → string) : (∀ k x, m !! k = Some x → key x = k) → key <$> in_order m = sorted_keys m.
Proof.
  intros Hk. unfold in_order. assert (∀ k, k ∈ sorted_keys m → is_Some (m !! k)) as Hin by (intros k; apply elem_of_sorted_keys).
  revert Hin. induction (sorted_keys m) as [|k l IH]; intros Hin; [done|]. csimpl.
  destruct (Hin k) as [x Hx]; [by left|]. rewrite Hx. csimpl. rewrite (Hk _ _ Hx). f_equal. apply IH. intros. apply Hin. by right.
Qed.

Lemma elem_of_normaliseGroups (l : list string) x : x ∈ normaliseGroups l ↔ x ≠ "" ∧ ∃ g, g ∈ l ∧ x = ToLower (TrimSpace g).
Proof.
  unfold normaliseGroups. rewrite elem_of_sorted_keys.
  assert (∀ seen, is_Some (foldl seen_step seen l !! x) ↔ is_Some (seen !! x) ∨ x ≠ "" ∧ ∃ g, g ∈ l ∧ x = ToLower (TrimSpace g)) as ->.
  2: { rewrite lookup_empty. split; [intros [[? [=]]|?]; done|auto]. }
  induction l as [|g l IH]; intros seen; simpl; [set_solver|]. rewrite IH. unfold seen_step. destruct (empty _) eqn:He.
  - apply empty_true in He. setoid_rewrite elem_of_cons. split; [naive_solver|]. intros [?|(Hx&g'&[->|Hg]&->)]; [by left|done|right; eauto].
  - apply empty_false in He. rewrite lookup_insert_is_Some'. setoid_rewrite elem_of_cons. split; [|naive_solver].
    intros [[<-|?]|(Hx&g'&Hg&->)]; [right; eauto|by left|right; eauto].
Qed.
Lemma normaliseGroups_sorted (l : list string) : StronglySorted String.le (normaliseGroups l) ∧ NoDup (normaliseGroups l).
Proof. split; [apply sorted_keys_sorted|apply NoDup_sorted_keys]. Qed.

(** ** What a full read becomes *)

(** What a directory promises of a full read: addresses lower-cased, each account, group and
    member once. *)
Record whole_read (accounts : list dirAccount) (groups : list dirGroup) : Prop := {
  rd_accounts : NoDup (da_Email <$> accounts);
  rd_account : ∀ a, a ∈ accounts → ToLower (da_Email a) = da_Email a;
  rd_groups : NoDup (dg_Email <$> groups);
  rd_group : ∀ g, g ∈ groups → ToLower (dg_Email g) = dg_Email g;
  rd_member : ∀ g m, g ∈ groups → m ∈ dg_Members g → ToLower m = m;
  rd_members : ∀ g, g ∈ groups → NoDup (dg_Members g) }.

Lemma whole_groups accounts groups : whole_read accounts groups → whole_read [] groups.
Proof. intros [_ _ ????]. constructor; (done || constructor || by intros ? ?%elem_of_nil). Qed.

(** The groups an address is in, as the memberships say. *)
Definition members_of (groups : gmap string dirGroup) e : list string :=
  List.filter (λ k, match groups !! k with Some g => str_in e (dg_Members g) | None => false end) (sorted_keys groups).

(** A snapshot that keeps its promises: what is filed is filed under its own address, and the
    reverse index is that of the memberships. *)
Record sound (s : Snapshot) : Prop := {
  sd_account : ∀ k a, sn_Accounts s !! k = Some a → da_Email a = k ∧ ToLower k = k;
  sd_group : ∀ k g, sn_Groups s !! k = Some g → dg_Email g = k ∧ ToLower k = k ∧ NoDup (dg_Members g) ∧ ∀ m, m ∈ dg_Members g → ToLower m = m;
  sd_index : ∀ e, sn_MemberOf s !! e = match members_of (sn_Groups s) e with [] => None | l => Some l end }.

Lemma elem_of_members_of groups e k : k ∈ members_of groups e ↔ ∃ g, groups !! k = Some g ∧ e ∈ dg_Members g.
Proof.
  unfold members_of. rewrite elem_of_filter_bool, elem_of_sorted_keys. split.
  - intros [[g Hg] H]. rewrite Hg in H. exists g. by apply str_in_true in H.
  - intros (g&Hg&He). rewrite Hg. split; [by eexists|by apply str_in_true].
Qed.
Lemma members_of_sorted groups e : StronglySorted String.le (members_of groups e) ∧ NoDup (members_of groups e).
Proof. split; [apply StronglySorted_filter, sorted_keys_sorted|]. apply NoDup_ListNoDup, List.NoDup_filter, NoDup_ListNoDup, NoDup_sorted_keys. Qed.

Lemma file_accounts_lookup accounts k a : NoDup (da_Email <$> accounts) → (∀ a, a ∈ accounts → ToLower (da_Email a) = da_Email a) →
  foldl file_account ∅ accounts !! k = Some a ↔ a ∈ accounts ∧ da_Email a = k.
Proof.
  revert k a. induction accounts as [|a' l IH] using rev_ind; intros k a Hnd Hlow; [cbn [foldl]; rewrite lookup_empty; set_solver|].
  rewrite foldl_snoc. unfold file_account at 1. rewrite Hlow by set_solver.
  assert (mkAccount (da_Email a') (da_Live a') (da_GivenName a') (da_FamilyName a') = a') as -> by (by destruct a').
  rewrite fmap_app in Hnd. apply NoDup_app in Hnd as (Hl&Hd&_).
  destruct (decide (da_Email a' = k)) as [<-|Hne].
  - rewrite lookup_insert_eq. split; [intros [= <-]; set_solver|]. intros [Hin He]. f_equal. apply elem_of_app in Hin as [Hin|Hin]; [|set_solver].
    exfalso. apply (Hd (da_Email a)); [by apply list_elem_of_fmap_2|]. rewrite He. set_solver.
  - rewrite lookup_insert_ne by done. rewrite IH by set_solver. set_solver.
Qed.

Lemma file_members_lookup email members M e : NoDup members → (∀ m, m ∈ members → ToLower m = m) →
  foldl (file_member email) M members !! e = if str_in e members then Some (default [] (M !! e) ++ [email]) else M !! e.
Proof.
  revert M. induction members as [|m l IH]; intros M Hnd Hlow; [done|]. apply NoDup_cons in Hnd as [Hm Hnd]. cbn [foldl].
  rewrite IH by set_solver. unfold file_member. rewrite Hlow by set_solver. unfold str_in.
  destruct (decide (e = m)) as [->|Hne].
  - rewrite (bool_decide_false (m ∈ l)), (bool_decide_true (m ∈ m :: l)) by set_solver. by rewrite lookup_insert_eq.
  - rewrite lookup_insert_ne by done. case_bool_decide; case_bool_decide; set_solver.
Qed.

Lemma file_groups_lookup groups : whole_read [] groups → let filed := foldl file_group (∅, ∅) groups in
  (∀ k g, filed.1 !! k = Some g ↔ g ∈ groups ∧ dg_Email g = k) ∧
  ∀ e, filed.2 !! e = match dg_Email <$> List.filter (λ g, str_in e (dg_Members g)) groups with [] => None | l => Some l end.
Proof.
  induction groups as [|g l IH] using rev_ind; intros Hr; [split; intros; simpl; rewrite ?lookup_empty; [set_solver|done]|].
  pose proof (rd_groups _ _ Hr) as Hnd. rewrite fmap_app in Hnd. apply NoDup_app in Hnd as (Hl&Hd&_).
  destruct IH as [IH1 IH2]. { destruct Hr. constructor; set_solver. }
  assert (g ∈ l ++ [g]) as Hg by set_solver. cbn zeta. rewrite foldl_snoc. cbn zeta in IH1, IH2. set (filed := foldl file_group (∅, ∅) l) in *.
  unfold file_group. cbn zeta. cbn [fst snd]. rewrite (rd_group _ _ Hr _ Hg). split.
  - intros k g'. assert (mkDirGroup (dg_Email g) (dg_Members g) = g) as -> by (by destruct g). destruct (decide (dg_Email g = k)) as [<-|Hne].
    + rewrite lookup_insert_eq. split; [intros [= <-]; set_solver|]. intros [Hin He]. f_equal. apply elem_of_app in Hin as [Hin|Hin]; [|set_solver].
      exfalso. apply (Hd (dg_Email g')); [by apply list_elem_of_fmap_2|]. rewrite He. set_solver.
    + rewrite lookup_insert_ne by done. rewrite IH1. set_solver.
  - intros e. rewrite file_members_lookup by (first [by apply (rd_members _ _ Hr)|intros m; by apply (rd_member _ _ Hr)]).
    rewrite IH2, List.filter_app, fmap_app. simpl. destruct (str_in e (dg_Members g)); simpl; [|by rewrite app_nil_r].
    match goal with |- context [dg_Email <$> ?x] => by destruct (dg_Email <$> x) end.
Qed.

(** A full read is kept whole: each account and each group as read, and the index is that of
    the memberships. *)
Lemma NewSnapshot_sound workspace at_ accounts groups discovered : whole_read accounts groups →
  let s := NewSnapshot workspace at_ accounts groups discovered in
  sound s ∧ (∀ k a, sn_Accounts s !! k = Some a ↔ a ∈ accounts ∧ da_Email a = k) ∧ (∀ k g, sn_Groups s !! k = Some g ↔ g ∈ groups ∧ dg_Email g = k).
Proof.
  intros Hr. unfold NewSnapshot. destruct (file_groups_lookup groups (whole_groups _ _ Hr)) as [Hg Hm].
  destruct (foldl file_group (∅, ∅) groups) as [filed memberOf]. simpl in *.
  assert (∀ k a, foldl file_account ∅ accounts !! k = Some a ↔ a ∈ accounts ∧ da_Email a = k) as Ha
    by (intros; apply file_accounts_lookup; [apply (rd_accounts _ _ Hr)|apply (rd_account _ _ Hr)]).
  split; [|done]. constructor; simpl.
  - intros k a [Hin <-]%Ha. split; [done|by apply (rd_account _ _ Hr)].
  - intros k g [Hin <-]%Hg. split_and!; [done|by apply (rd_group _ _ Hr)|by apply (rd_members _ _ Hr)|intros m; by apply (rd_member _ _ Hr)].
  - intros e. rewrite lookup_fmap, Hm. set (held := dg_Email <$> _).
    assert (sort_strings held = members_of filed e) as <-.
    { destruct (members_of_sorted filed e) as [Hs Hn]. apply sorted_of; [done| |done|].
      - subst held. pose proof (rd_groups _ _ Hr) as Hnd. revert Hnd. clear. induction groups as [|g l IH]; [by intros|]. csimpl. intros [Hg Hl]%NoDup_cons.
        destruct (str_in e _); csimpl; [|by apply IH]. apply NoDup_cons. split; [|by apply IH]. intros (g'&Heq&[Hin _]%elem_of_filter_bool)%list_elem_of_fmap.
        apply Hg. rewrite Heq. by apply list_elem_of_fmap_2.
      - intros k. rewrite elem_of_members_of. subst held. rewrite list_elem_of_fmap. split.
        + intros (g&->&[Hin He]%elem_of_filter_bool). exists g. split; [by apply Hg|by apply str_in_true].
        + intros (g&[Hin <-]%Hg&He). exists g. split; [done|]. apply elem_of_filter_bool. split; [done|by apply str_in_true]. }
    destruct held as [|x l] eqn:Hh; [done|]. simpl. pose proof (sort_strings_Permutation (x :: l)) as Hp.
    destruct (sort_strings (x :: l)) eqn:Hs; [by apply Permutation_nil in Hp|done].
Qed.

Lemma NewSnapshot_fields workspace at_ accounts groups discovered : let s := NewSnapshot workspace at_ accounts groups discovered in
  sn_Workspace s = workspace ∧ sn_TakenAt s = at_ ∧
  sn_Discovered s = match normaliseGroups discovered with [] => normaliseGroups (dg_Email <$> groups) | l => l end.
Proof. cbn zeta. unfold NewSnapshot. destruct (foldl file_group _ _). split; [reflexivity|]. split; [reflexivity|]. simpl. by destruct (normaliseGroups discovered). Qed.

(** Snapshots that keep their promises and hold the same are the same. *)
Lemma sound_ext s1 s2 : sound s1 → sound s2 → sn_Workspace s1 = sn_Workspace s2 → sn_TakenAt s1 = sn_TakenAt s2 →
  (∀ k, sn_Accounts s1 !! k = sn_Accounts s2 !! k) → (∀ k, sn_Groups s1 !! k = sn_Groups s2 !! k) → sn_Discovered s1 = sn_Discovered s2 → s1 = s2.
Proof.
  intros H1 H2 Hw Ht Ha%map_eq Hg%map_eq Hd. pose proof (sd_index _ H1) as Hi1. pose proof (sd_index _ H2) as Hi2.
  rewrite <- Hg in Hi2. assert (sn_MemberOf s1 = sn_MemberOf s2) by (apply map_eq; intros e; by rewrite Hi1, Hi2).
  destruct s1, s2. simpl in *. congruence.
Qed.

(** What a sound snapshot holds, listed, is a whole read of it. *)
Lemma sound_whole s : sound s → whole_read (in_order (sn_Accounts s)) (in_order (sn_Groups s)).
Proof.
  intros Hs. pose proof (sd_account _ Hs) as Ha. pose proof (sd_group _ Hs) as Hg. constructor.
  - rewrite (in_order_keys _ da_Email) by (intros k a ?; by apply Ha). apply NoDup_sorted_keys.
  - intros a [k Hk]%elem_of_in_order. by destruct (Ha k a Hk) as [-> ?].
  - rewrite (in_order_keys _ dg_Email) by (intros k g ?; by apply Hg). apply NoDup_sorted_keys.
  - intros g [k Hk]%elem_of_in_order. by destruct (Hg k g Hk) as (->&?&_).
  - intros g m [k Hk]%elem_of_in_order. destruct (Hg k g Hk) as (_&_&_&Hm). apply Hm.
  - intros g [k Hk]%elem_of_in_order. by destruct (Hg k g Hk) as (_&_&?&_).
Qed.

Lemma NoDup_fmap_filter {A} (key : A → string) (f : A → bool) (l : list A) : NoDup (key <$> l) → NoDup (key <$> List.filter f l).
Proof.
  induction l as [|x l IH]; [done|]. csimpl. intros [Hx Hl]%NoDup_cons. destruct (f x); csimpl; [|by apply IH].
  apply NoDup_cons. split; [|by apply IH]. intros (y&Heq&[Hy _]%elem_of_filter_bool)%list_elem_of_fmap. apply Hx. rewrite Heq. by apply list_elem_of_fmap_2.
Qed.
Lemma whole_filter accounts groups f g : whole_read accounts groups → whole_read (List.filter f accounts) (List.filter g groups).
Proof.
  intros [Ha Hal Hg Hgl Hm Hmd]. constructor.
  - by apply NoDup_fmap_filter.
  - intros a [? _]%elem_of_filter_bool. auto.
  - by apply NoDup_fmap_filter.
  - intros x [? _]%elem_of_filter_bool. auto.
  - intros x m [? _]%elem_of_filter_bool. eauto.
  - intros x [? _]%elem_of_filter_bool. auto.
Qed.

(** What [restrict] keeps, as two tests. *)
Definition keeps_account serve (a : dirAccount) : bool := match serve with [] => true | _ => in_served serve (da_Email a) end.
Definition keeps serve sync (g : dirGroup) : bool :=
  match serve with [] => true | _ => keeps_group serve g end && match sync with [] => true | _ => syncs sync g end.
Lemma restrict_filters accounts groups serve sync :
  restrict accounts groups serve sync = (List.filter (keeps_account serve) accounts, List.filter (keeps serve sync) groups).
Proof.
  unfold restrict, keeps_account, keeps. destruct serve as [|d serve]; destruct sync as [|g sync];
    rewrite ?filter_filter; f_equal; try (symmetry; apply filter_all; done); apply filter_agree; intros x; by rewrite ?andb_true_r, 1?andb_comm.
Qed.

Lemma in_served_mono serve serve' address : (∀ d, d ∈ serve' → d ∈ serve) → in_served serve' address = true → in_served serve address = true.
Proof.
  unfold in_served. intros Hsub. destruct (cut_last _ _) as [[? d]|]; [|done]. intros (d'&Hd&Hin)%str_in_true%list_elem_of_fmap.
  apply str_in_true, list_elem_of_fmap. eauto.
Qed.
Lemma keeps_group_mono serve serve' g : (∀ d, d ∈ serve' → d ∈ serve) → keeps_group serve' g = true → keeps_group serve g = true.
Proof.
  unfold keeps_group. intros Hsub [H|H]%orb_true_iff; apply orb_true_iff; [left; by eapply in_served_mono|right].
  apply existsb_exists in H as (m&Hm&H). apply existsb_exists. exists m. split; [done|by eapply in_served_mono].
Qed.

Lemma normaliseGroups_fixed (l : list string) : normaliseGroups (normaliseGroups l) = normaliseGroups l.
Proof.
  apply sorted_same; try apply normaliseGroups_sorted. intros x. rewrite elem_of_normaliseGroups. split.
  - intros (Hx&g&Hg&->). pose proof Hg as (Hg'&y&Hy&->)%elem_of_normaliseGroups. rewrite elem_of_normaliseGroups.
    split; [done|]. exists y. split; [done|]. apply normalise_idem.
  - intros Hin. pose proof Hin as (Hx&y&Hy&->)%elem_of_normaliseGroups. split; [done|]. eexists. split; [exact Hin|]. symmetry. apply normalise_idem.
Qed.

(** ** Patching one account in *)

Lemma leave_groups_lookup email groups l k :
  foldl (leave_group email) groups l !! k =
    if str_in k l then (λ g, mkDirGroup (dg_Email g) (List.filter (λ m, negb (bool_decide (m = email))) (dg_Members g))) <$> groups !! k else groups !! k.
Proof.
  revert groups. induction l as [|g l IH]; intros groups; [done|]. cbn [foldl]. rewrite IH. unfold leave_group, str_in.
  destruct (decide (k = g)) as [->|Hne].
  - rewrite (bool_decide_true (g ∈ g :: l)) by by left. destruct (groups !! g) as [x|] eqn:Hg; [rewrite lookup_insert_eq|rewrite Hg; by case_bool_decide].
    case_bool_decide; [|done]. simpl. rewrite filter_filter. do 2 f_equal. apply filter_agree. intros m. by destruct (negb _).
  - assert (bool_decide (k ∈ g :: l) = bool_decide (k ∈ l)) as -> by (apply bool_decide_ext; rewrite elem_of_cons; naive_solver).
    destruct (groups !! g); [by rewrite lookup_insert_ne|done].
Qed.
Definition joined email (g : dirGroup) : dirGroup :=
  if str_in email (dg_Members g) then g else mkDirGroup (dg_Email g) (sort_strings (dg_Members g ++ [email])).
Lemma join_groups_lookup email groups l k : NoDup l →
  foldl (join_group email) groups l !! k = if str_in k l then Some (joined email (default (mkDirGroup k []) (groups !! k))) else groups !! k.
Proof.
  revert groups. induction l as [|g l IH]; intros groups Hnd; [done|]. apply NoDup_cons in Hnd as [Hg Hnd]. cbn [foldl]. rewrite IH by done.
  unfold join_group, str_in. destruct (decide (k = g)) as [->|Hne].
  - rewrite (bool_decide_true (g ∈ g :: l)), (bool_decide_false (g ∈ l)) by (done || by left). by rewrite lookup_insert_eq.
  - assert (bool_decide (k ∈ g :: l) = bool_decide (k ∈ l)) as -> by (apply bool_decide_ext; rewrite elem_of_cons; naive_solver).
    by rewrite lookup_insert_ne.
Qed.
Lemma elem_of_joined email g m : m ∈ dg_Members (joined email g) ↔ m ∈ dg_Members g ∨ m = email.
Proof.
  unfold joined. destruct (str_in _ _) eqn:H; simpl; [apply str_in_true in H; naive_solver|].
  rewrite elem_of_sort_strings, elem_of_app, list_elem_of_singleton. done.
Qed.

(** What a live read says of one address, as the groups it is in. *)
Definition live_groups (account : option dirAccount) (groups : list string) : list string :=
  match account with Some _ => ToLower <$> groups | None => [] end.

Lemma patched_group s email account groups k : sound s → NoDup (ToLower <$> groups) → let e := ToLower email in
  sn_Groups (patchAccount s email account groups) !! k =
    let left := (λ g, mkDirGroup k (List.filter (λ m, negb (bool_decide (m = e))) (dg_Members g))) <$> sn_Groups s !! k in
    if str_in k (live_groups account groups) then Some (joined e (default (mkDirGroup k []) left)) else left.
Proof.
  intros Hs Hnd e. unfold patchAccount. fold e. cbn zeta.
  assert (foldl (leave_group e) (sn_Groups s) (default [] (sn_MemberOf s !! e)) !! k =
    (λ g, mkDirGroup k (List.filter (λ m, negb (bool_decide (m = e))) (dg_Members g))) <$> sn_Groups s !! k) as Hleft.
  { rewrite leave_groups_lookup. destruct (sn_Groups s !! k) as [g|] eqn:Hk; [|by destruct (str_in _ _)].
    destruct (sd_group _ Hs _ _ Hk) as (Hgk&_). destruct (str_in k _) eqn:Hin; [simpl; by rewrite Hgk|]. simpl. f_equal. destruct g as [gk ms]. simpl in *. subst gk. f_equal.
    symmetry. apply filter_all. intros m Hm. apply negb_true_iff, bool_decide_eq_false. intros ->. apply str_in_false in Hin. apply Hin.
    rewrite (sd_index _ Hs). destruct (members_of (sn_Groups s) e) as [|x l] eqn:Hmo; simpl; [|rewrite <- Hmo; apply elem_of_members_of; eauto].
    exfalso. assert (k ∈ members_of (sn_Groups s) e) as Hc by (apply elem_of_members_of; eauto). rewrite Hmo in Hc. set_solver. }
  destruct account as [a|]; simpl; [|exact Hleft]. rewrite join_groups_lookup by done. by rewrite Hleft.
Qed.

Lemma patched_members s email account groups m : sound s → NoDup (ToLower <$> groups) → let e := ToLower email in
  members_of (sn_Groups (patchAccount s email account groups)) m =
    if decide (m = e) then sort_strings (live_groups account groups) else members_of (sn_Groups s) m.
Proof.
  intros Hs Hnd e.
  assert (∀ k, k ∈ members_of (sn_Groups (patchAccount s email account groups)) m ↔
    if decide (m = e) then k ∈ live_groups account groups else k ∈ members_of (sn_Groups s) m) as Hin.
  { intros k. rewrite elem_of_members_of, patched_group by done. cbn zeta. fold e.
    destruct (str_in k (live_groups account groups)) eqn:Hk.
    - apply str_in_true in Hk. split.
      + intros (g&[= <-]&Hm%elem_of_joined). case_decide as Hme; [done|]. destruct Hm as [Hm|]; [|done]. apply elem_of_members_of.
        destruct (sn_Groups s !! k) as [g|]; simpl in Hm; [|set_solver]. apply elem_of_filter_bool in Hm as [Hm _]. eauto.
      + intros H. eexists. split; [reflexivity|]. apply elem_of_joined. case_decide as Hme; [by right|]. left. apply elem_of_members_of in H as (g&->&Hm).
        simpl. apply elem_of_filter_bool. split; [done|]. by apply negb_true_iff, bool_decide_eq_false.
    - apply str_in_false in Hk. destruct (sn_Groups s !! k) as [g|] eqn:Hg; simpl.
      + split.
        * intros (g'&[= <-]&[Hm Hne]%elem_of_filter_bool). apply negb_true_iff, bool_decide_eq_false in Hne. rewrite decide_False by done. apply elem_of_members_of. eauto.
        * case_decide as Hme; [done|]. intros (g'&Hg'&Hm)%elem_of_members_of. simplify_eq. eexists. split; [done|]. apply elem_of_filter_bool.
          split; [done|]. by apply negb_true_iff, bool_decide_eq_false.
      + split; [by intros (?&[=]&_)|]. case_decide; [done|]. intros (?&?&_)%elem_of_members_of. congruence. }
  destruct (members_of_sorted (sn_Groups (patchAccount s email account groups)) m) as [Hs1 Hn1].
  assert (NoDup (live_groups account groups)) by (destruct account; [done|constructor]).
  case_decide as Hme.
  - symmetry. apply sorted_of; [done..|]. intros k. by rewrite Hin.
  - destruct (members_of_sorted (sn_Groups s) m). by apply sorted_same.
Qed.

Lemma joined_fields e g : dg_Email (joined e g) = dg_Email g ∧ (NoDup (dg_Members g) → NoDup (dg_Members (joined e g))).
Proof.
  unfold joined. destruct (str_in _ _) eqn:He; [done|]. apply str_in_false in He. split; [done|]. intros Hn. simpl. apply NoDup_sort_strings.
  apply NoDup_app. split; [done|]. split; [set_solver|apply NoDup_singleton].
Qed.

Lemma patched_accounts s email account groups : sn_Accounts (patchAccount s email account groups) = match account with
  | Some a => <[ToLower email := mkAccount (ToLower email) (da_Live a) (da_GivenName a) (da_FamilyName a)]> (sn_Accounts s)
  | None => delete (ToLower email) (sn_Accounts s)
  end.
Proof. by destruct account. Qed.

Lemma patched_index s email account groups e : sound s → NoDup (ToLower <$> groups) → let patched := patchAccount s email account groups in
  sn_MemberOf patched !! e = match members_of (sn_Groups patched) e with [] => None | l => Some l end.
Proof.
  intros Hs Hnd patched. unfold patched. rewrite patched_members by done. cbn zeta. pose proof (sd_index _ Hs e) as Hi. unfold patchAccount.
  destruct account as [a|]; cbn [sn_MemberOf live_groups]; case_decide as He.
  - subst e. pose proof (sort_strings_Permutation (ToLower <$> groups)) as Hp. destruct (ToLower <$> groups) as [|g l].
    + by rewrite lookup_delete_eq.
    + rewrite lookup_insert_eq. destruct (sort_strings (g :: l)); [by apply Permutation_nil in Hp|done].
  - destruct (ToLower <$> groups); rewrite ?lookup_insert_ne, lookup_delete_ne by done; exact Hi.
  - subst e. by rewrite lookup_delete_eq.
  - rewrite lookup_delete_ne by done. exact Hi.
Qed.

Lemma patched_sound s email account groups : sound s → NoDup (ToLower <$> groups) → sound (patchAccount s email account groups).
Proof.
  intros Hs Hnd. constructor; [| |intros e; by apply patched_index].
  - intros k a. rewrite patched_accounts. intros Hk. pose proof (sd_account _ Hs) as Hacc. destruct account as [x|].
    + apply lookup_insert_Some in Hk as [[<- <-]|[_ ?]]; [split; [done|apply ToLower_idem]|by apply Hacc].
    + apply lookup_delete_Some in Hk as [_ ?]. by apply Hacc.
  - intros k g. rewrite patched_group by done. cbn zeta. intros Hk. pose proof (sd_group _ Hs k) as Hg.
    assert (∀ left, (λ g, mkDirGroup k (List.filter (λ m, negb (bool_decide (m = ToLower email))) (dg_Members g))) <$> sn_Groups s !! k = Some left →
      dg_Email left = k ∧ ToLower k = k ∧ NoDup (dg_Members left) ∧ ∀ m, m ∈ dg_Members left → ToLower m = m) as Hleft.
    { intros left (g'&Hg'&->)%fmap_Some. destruct (Hg _ Hg') as (_&?&?&?). simpl. split_and!; [done..| |].
      - by apply NoDup_ListNoDup, List.NoDup_filter, NoDup_ListNoDup.
      - intros m [? _]%elem_of_filter_bool. auto. }
    destruct (str_in k _) eqn:Hin; [|by apply Hleft]. injection Hk as <-.
    match goal with |- context [joined _ (default _ ?l)] => set (left := l) in * end.
    assert (ToLower k = k) as Hlow.
    { apply str_in_true in Hin. destruct account; [|by apply elem_of_nil in Hin]. apply list_elem_of_fmap in Hin as (x&->&_). apply ToLower_idem. }
    assert (dg_Email (default (mkDirGroup k []) left) = k ∧ NoDup (dg_Members (default (mkDirGroup k []) left)) ∧
      ∀ m, m ∈ dg_Members (default (mkDirGroup k []) left) → ToLower m = m) as (H1&H2&H3).
    { destruct left as [l|]; simpl; [destruct (Hleft l eq_refl) as (?&?&?&?); done|]. split_and!; [done|constructor|by intros ? ?%elem_of_nil]. }
    destruct (joined_fields (ToLower email) (default (mkDirGroup k []) left)) as [Hje Hjn]. split_and!; [congruence|done|by apply Hjn|].
    intros m [?| ->]%elem_of_joined; [by apply H3|apply ToLower_idem].
Qed.

(** ** The properties *)

(** A live read patched into a snapshot is what the snapshot says of that address from then
    on, and changes what it says of nobody else; the index stays that of the memberships,
    and the snapshot is no younger for it. *)
Theorem patchAccount_answers s email (account : option dirAccount) (groups : list string) :
  sound s → NoDup (ToLower <$> groups) →
  let patched := patchAccount s email account groups in
  sound patched ∧ sn_TakenAt patched = sn_TakenAt s ∧
  ∀ other, let e := ToLower other in
    if decide (e = ToLower email)
    then sn_Accounts patched !! e = (λ a, mkAccount e (da_Live a) (da_GivenName a) (da_FamilyName a)) <$> account ∧
         GroupsOf patched other = sort_strings (match account with Some _ => ToLower <$> groups | None => [] end)
    else sn_Accounts patched !! e = sn_Accounts s !! e ∧ GroupsOf patched other = GroupsOf s other.
Proof.
  intros Hs Hnd patched. split; [by apply patched_sound|]. split; [by destruct account|]. intros other e. unfold GroupsOf. fold e.
  pose proof (patched_index s email account groups e Hs Hnd) as Hindex. cbn zeta in Hindex. fold patched in Hindex. rewrite Hindex, (sd_index _ Hs e).
  pose proof (patched_members s email account groups e Hs Hnd) as Hm. cbn zeta in Hm. fold patched in Hm. rewrite Hm. unfold patched at 1 2. rewrite patched_accounts.
  case_decide as He.
  - rewrite He. split; [destruct account; [by rewrite lookup_insert_eq|by rewrite lookup_delete_eq]|]. unfold live_groups.
    by destruct (sort_strings _).
  - split; [destruct account; [by rewrite lookup_insert_ne|by rewrite lookup_delete_ne]|done].
Qed.

(** Writing a snapshot and reading it back gives the snapshot: the index that is not written
    is rebuilt as it was. *)
Theorem Snapshot_wire_roundtrip s : sound s → sn_Discovered s ≠ [] → normaliseGroups (sn_Discovered s) = sn_Discovered s →
  DecodeSnapshot (EncodeSnapshot s) = s.
Proof.
  intros Hs Hne Hd. unfold DecodeSnapshot, EncodeSnapshot. simpl.
  destruct (NewSnapshot_sound (sn_Workspace s) (sn_TakenAt s) _ _ (sn_Discovered s) (sound_whole s Hs)) as (Hs'&Ha&Hg).
  destruct (NewSnapshot_fields (sn_Workspace s) (sn_TakenAt s) (in_order (sn_Accounts s)) (in_order (sn_Groups s)) (sn_Discovered s)) as (Hw&Ht&Hdd).
  apply sound_ext; [done..| | |].
  - intros k. apply option_eq. intros a. rewrite Ha, elem_of_in_order. split.
    + intros [[k' Hk'] <-]. destruct (sd_account _ Hs _ _ Hk') as [-> _]. done.
    + intros Hk. split; [by exists k|]. by apply (sd_account _ Hs).
  - intros k. apply option_eq. intros g. rewrite Hg, elem_of_in_order. split.
    + intros [[k' Hk'] <-]. destruct (sd_group _ Hs _ _ Hk') as [-> _]. done.
    + intros Hk. split; [by exists k|]. by apply (sd_group _ Hs).
  - rewrite Hdd, Hd. by destruct (sn_Discovered s).
Qed.

Lemma keeps_account_served serve a : serve ≠ [] → keeps_account serve a = in_served serve (da_Email a).
Proof. by destruct serve. Qed.
Lemma keeps_served serve sync g : serve ≠ [] → keeps serve sync g = keeps_group serve g && match sync with [] => true | _ => syncs sync g end.
Proof. by destruct serve. Qed.
Lemma keeps_synced serve sync g : sync ≠ [] → keeps serve sync g = match serve with [] => true | _ => keeps_group serve g end && syncs sync g.
Proof. by destruct sync. Qed.
Lemma syncs_mono sync sync' g : (∀ x, x ∈ sync' → x ∈ sync) → syncs sync' g = true → syncs sync g = true.
Proof. unfold syncs. intros Hsub (x&Hx&Hin)%str_in_true%list_elem_of_fmap. apply str_in_true, list_elem_of_fmap. exists x. auto. Qed.

(** What a pass stores of a read: what the workspace keeps, and the names of all the groups. *)
Definition taken workspace at_ (accounts : list dirAccount) (groups : list dirGroup) serve sync : Snapshot :=
  let kept := restrict accounts groups serve sync in NewSnapshot workspace at_ kept.1 kept.2 (dg_Email <$> groups).

Lemma taken_spec workspace at_ accounts groups serve sync : whole_read accounts groups →
  let s := taken workspace at_ accounts groups serve sync in
  sound s ∧ sn_Workspace s = workspace ∧ sn_TakenAt s = at_ ∧ sn_Discovered s = normaliseGroups (dg_Email <$> groups) ∧
  (∀ k a, sn_Accounts s !! k = Some a ↔ (a ∈ accounts ∧ keeps_account serve a = true) ∧ da_Email a = k) ∧
  (∀ k g, sn_Groups s !! k = Some g ↔ (g ∈ groups ∧ keeps serve sync g = true) ∧ dg_Email g = k).
Proof.
  intros Hr. unfold taken. rewrite restrict_filters. cbn [fst snd].
  destruct (NewSnapshot_sound workspace at_ _ _ (dg_Email <$> groups) (whole_filter _ _ (keeps_account serve) (keeps serve sync) Hr)) as (Hs&Ha&Hg).
  destruct (NewSnapshot_fields workspace at_ (List.filter (keeps_account serve) accounts) (List.filter (keeps serve sync) groups) (dg_Email <$> groups)) as (?&?&Hd).
  split_and!; [done..| | |].
  - rewrite Hd. destruct (normaliseGroups (dg_Email <$> groups)) eqn:Hn; [|done].
    assert (∀ x, x ∉ normaliseGroups (dg_Email <$> List.filter (keeps serve sync) groups)) as Hno.
    { intros x (Hx&e&Hin&->)%elem_of_normaliseGroups. apply list_elem_of_fmap in Hin as (g&->&[Hg' _]%elem_of_filter_bool).
      apply (not_elem_of_nil (ToLower (TrimSpace (dg_Email g)))). rewrite <- Hn. apply elem_of_normaliseGroups. split; [done|]. eexists. split; [by apply list_elem_of_fmap_2|done]. }
    by apply elem_of_nil_inv.
  - intros k a. by rewrite Ha, elem_of_filter_bool.
  - intros k g. by rewrite Hg, elem_of_filter_bool.
Qed.

(** C38: A kept snapshot narrowed is the snapshot that a read under the smaller list would have
    stored, of the same moment. *)
Theorem narrow_is_a_smaller_read workspace at_ accounts groups serve sync : whole_read accounts groups →
  (∀ serve', serve' ≠ [] → (serve = [] ∨ ∀ d, d ∈ serve' → d ∈ serve) →
     narrow (taken workspace at_ accounts groups serve sync) serve' = taken workspace at_ accounts groups serve' sync) ∧
  (∀ sync', sync' ≠ [] → (sync = [] ∨ ∀ g, g ∈ sync' → g ∈ sync) →
     narrowGroups (taken workspace at_ accounts groups serve sync) sync' = taken workspace at_ accounts groups serve sync').
Proof.
  intros Hr. destruct (taken_spec workspace at_ accounts groups serve sync Hr) as (Hs&Hw&Ht&Hd&Ha&Hg). set (s := taken _ _ _ _ serve sync) in *.
  assert (∀ serve1 sync1 serve2 sync2,
    (∀ x, keeps_account serve1 x && keeps_account serve x = keeps_account serve2 x) →
    (∀ x, keeps serve1 sync1 x && keeps serve sync x = keeps serve2 sync2 x) →
    NewSnapshot (sn_Workspace s) (sn_TakenAt s) (List.filter (keeps_account serve1) (in_order (sn_Accounts s)))
      (List.filter (keeps serve1 sync1) (in_order (sn_Groups s))) (sn_Discovered s) = taken workspace at_ accounts groups serve2 sync2) as Hsame.
  { intros serve1 sync1 serve2 sync2 Hka Hkg.
    destruct (taken_spec workspace at_ accounts groups serve2 sync2 Hr) as (Hs2&Hw2&Ht2&Hd2&Ha2&Hg2).
    pose proof (whole_filter _ _ (keeps_account serve1) (keeps serve1 sync1) (sound_whole s Hs)) as Hr1.
    destruct (NewSnapshot_sound (sn_Workspace s) (sn_TakenAt s) _ _ (sn_Discovered s) Hr1) as (Hs1&Ha1&Hg1).
    destruct (NewSnapshot_fields (sn_Workspace s) (sn_TakenAt s) (List.filter (keeps_account serve1) (in_order (sn_Accounts s)))
      (List.filter (keeps serve1 sync1) (in_order (sn_Groups s))) (sn_Discovered s)) as (Hw1&Ht1&Hd1).
    apply sound_ext; [done|done|congruence|congruence| | |].
    - intros k. apply option_eq. intros a. rewrite Ha1, Ha2, elem_of_filter_bool, elem_of_in_order, <- Hka, andb_true_iff. setoid_rewrite Ha. naive_solver.
    - intros k. apply option_eq. intros g. rewrite Hg1, Hg2, elem_of_filter_bool, elem_of_in_order, <- Hkg, andb_true_iff. setoid_rewrite Hg. naive_solver.
    - rewrite Hd1, Hd2, Hd, normaliseGroups_fixed. destruct (normaliseGroups (dg_Email <$> groups)) as [|x l] eqn:Hn; [|done].
      assert (∀ x, x ∉ normaliseGroups (dg_Email <$> List.filter (keeps serve1 sync1) (in_order (sn_Groups s)))) as Hno.
      { intros x (Hx&e&Hin&->)%elem_of_normaliseGroups. apply list_elem_of_fmap in Hin as (g&->&[[k [[Hg' _] _]%Hg]%elem_of_in_order _]%elem_of_filter_bool).
        apply (not_elem_of_nil (ToLower (TrimSpace (dg_Email g)))). rewrite <- Hn. apply elem_of_normaliseGroups. split; [done|]. eexists. split; [by apply list_elem_of_fmap_2|done]. }
      by apply elem_of_nil_inv. }
  split.
  - intros serve' Hne Hsub. assert (narrow s serve' = let kept := restrict (in_order (sn_Accounts s)) (in_order (sn_Groups s)) serve' [] in
      NewSnapshot (sn_Workspace s) (sn_TakenAt s) kept.1 kept.2 (sn_Discovered s)) as -> by (unfold narrow; destruct serve'; [done|]; by destruct (restrict _ _ _ _)).
    rewrite restrict_filters. apply Hsame; [intros a|intros g].
    + rewrite (keeps_account_served serve') by done. destruct (in_served serve' (da_Email a)) eqn:H; [|done]. unfold keeps_account. destruct serve; [done|].
      destruct Hsub as [|Hsub]; [done|]. simpl. by eapply in_served_mono.
    + rewrite !(keeps_served serve') by done. rewrite andb_true_r. destruct (keeps_group serve' g) eqn:H; [|done]. unfold keeps. destruct serve; [done|].
      destruct Hsub as [|Hsub]; [done|]. simpl. by rewrite (keeps_group_mono (s0 :: serve) serve' g Hsub H).
  - intros sync' Hne Hsub. assert (narrowGroups s sync' = let kept := restrict (in_order (sn_Accounts s)) (in_order (sn_Groups s)) [] sync' in
      NewSnapshot (sn_Workspace s) (sn_TakenAt s) kept.1 kept.2 (sn_Discovered s)) as -> by (unfold narrowGroups; by destruct sync').
    rewrite restrict_filters. apply Hsame; [done|]. intros g. rewrite !(keeps_synced _ sync') by done. simpl.
    destruct (syncs sync' g) eqn:H; [|by rewrite andb_false_r]. rewrite andb_true_r. unfold keeps. simpl. destruct sync; [by rewrite andb_true_r|].
    destruct Hsub as [|Hsub]; [done|]. rewrite (syncs_mono _ _ _ Hsub H). by rewrite andb_true_r.
Qed.

(** Narrowed to its domains, a read says of a person there exactly what the whole read says —
    every group they are in, wherever it lives — and every group kept is as it was read. *)
Theorem restricted_read_is_whole workspace at_ accounts groups serve : whole_read accounts groups →
  let whole := taken workspace at_ accounts groups [] [] in let s := taken workspace at_ accounts groups serve [] in
  (∀ email, in_served serve email = true → ToLower email = email →
     sn_Accounts s !! email = sn_Accounts whole !! email ∧ GroupsOf s email = GroupsOf whole email) ∧
  (∀ k g, sn_Groups s !! k = Some g → sn_Groups whole !! k = Some g) ∧
  (∀ k, in_served serve k = true → sn_Groups s !! k = sn_Groups whole !! k).
Proof.
  intros Hr whole s. destruct (taken_spec workspace at_ accounts groups [] [] Hr) as (Hs0&_&_&_&Ha0&Hg0).
  destruct (taken_spec workspace at_ accounts groups serve [] Hr) as (Hs1&_&_&_&Ha1&Hg1). fold whole in Hs0, Ha0, Hg0. fold s in Hs1, Ha1, Hg1. split_and!.
  - intros email He Hlow. split.
    + apply option_eq. intros a. rewrite Ha0, Ha1. unfold keeps_account. destruct serve; [done|]. split; [naive_solver|]. intros [[? _] <-]. done.
    + unfold GroupsOf. rewrite Hlow, (sd_index _ Hs0), (sd_index _ Hs1). assert (members_of (sn_Groups s) email = members_of (sn_Groups whole) email) as ->; [|done].
      destruct (members_of_sorted (sn_Groups s) email), (members_of_sorted (sn_Groups whole) email). apply sorted_same; [done..|]. intros k. rewrite !elem_of_members_of.
      setoid_rewrite Hg0. setoid_rewrite Hg1. unfold keeps. rewrite andb_true_r. split; [naive_solver|]. intros (g&[[Hin _] <-]&Hm). exists g. split_and!; [done| |done|done].
      rewrite andb_true_r. destruct serve; [done|]. unfold keeps_group. apply orb_true_iff. right. apply existsb_exists. exists email. split; [by apply list_elem_of_In|done].
  - intros k g [[? _] ?]%Hg1. by apply Hg0.
  - intros k Hk. apply option_eq. intros g. rewrite Hg0, Hg1. unfold keeps. rewrite !andb_true_r. destruct serve; [done|]. split; [naive_solver|].
    intros [[? _] <-]. split_and!; [done| |done]. unfold keeps_group. by rewrite Hk.
Qed.
