(* ===== verification/Hub.v ===== *)
(** * Hub: the directory hub

    [internal/hub/hub.go], [workspace.go], [resolve.go], [background.go] and [hublocal]: the
    workspaces a deployment reads, the routing from an address to the workspace that serves
    it, the freshness policy that says whether an answer may be acted on, and the operations
    that probe, read, adopt, narrow and drop a workspace.

    A handler is a step of one process over what the replicas share — the records, the
    snapshots ([Snapshot]) and the credentials — any call of which may fail ([fails]).  A
    directory is what it answers ([Backend]); work the code detaches from its request is
    recorded as started, and is a step of its own ([detached]). *)

From S2P Require Import Prelude GoStrings Policy Snapshot.

Implicit Types (email address domain id text : string) (now : Z) (maxAge : option Z).

(** ** Workspaces *)

(** [backend/backend.go:20-36 ErrUnsupported]: how a call to a directory fails. *)
Inductive directory_failure : Type := Unsupported | Unavailable (why : string) | Refused (why : string).
#[global] Instance directory_failure_eq_dec : EqDecision directory_failure.
Proof. solve_decision. Defined.

(** [internal/hub/hub.go:922-944 Hub.probeOne]: why a probe failed. *)
Inductive health_error : Type := NoBackend | ProbeRefused (e : directory_failure) | ReadDomains (e : directory_failure).

(** [internal/hub/workspace.go:type Health]; the error is [None] where there is none. *)
Record Health := mkHealth { he_ProbedAt : option Z; he_OK : bool; he_Error : option health_error }.

(** [internal/hub/workspace.go:26-37 CredentialType] *)
Inductive CredentialType : Type := CredentialNone | CredentialOAuth | CredentialServiceAccountKey.

(** [internal/hub/workspace.go:type Workspace] *)
Record Workspace := mkWorkspace {
  ws_ID : string; ws_Backend : string; ws_Domains : list string; ws_Serve : list string; ws_SyncGroups : list string;
  ws_Admin : string; ws_Credential : CredentialType; ws_ConnectedBy : string; ws_ConnectedAt : option Z;
  ws_Health : Health; ws_Declared : bool }.

Definition with_probe (ws : Workspace) (domains : list string) (h : Health) : Workspace :=
  mkWorkspace (ws_ID ws) (ws_Backend ws) domains (ws_Serve ws) (ws_SyncGroups ws) (ws_Admin ws) (ws_Credential ws)
    (ws_ConnectedBy ws) (ws_ConnectedAt ws) h (ws_Declared ws).
Definition with_serve (ws : Workspace) (serve : list string) : Workspace :=
  mkWorkspace (ws_ID ws) (ws_Backend ws) (ws_Domains ws) serve (ws_SyncGroups ws) (ws_Admin ws) (ws_Credential ws)
    (ws_ConnectedBy ws) (ws_ConnectedAt ws) (ws_Health ws) (ws_Declared ws).
Definition with_sync (ws : Workspace) (sync : list string) : Workspace :=
  mkWorkspace (ws_ID ws) (ws_Backend ws) (ws_Domains ws) (ws_Serve ws) sync (ws_Admin ws) (ws_Credential ws)
    (ws_ConnectedBy ws) (ws_ConnectedAt ws) (ws_Health ws) (ws_Declared ws).

(** [internal/hub/workspace.go:Workspace.Served] *)
Definition Served (w : Workspace) : list string :=
  match ws_Serve w with [] => ws_Domains w | _ => List.filter (λ d, str_in d (ws_Serve w)) (ws_Domains w) end.

(** [internal/hub/workspace.go:Workspace.SyncesGroup] *)
Definition SyncesGroup (w : Workspace) address : bool :=
  match ws_SyncGroups w with [] => true | _ => existsb (λ g, bool_decide (ToLower g = ToLower address)) (ws_SyncGroups w) end.

(** [internal/hub/workspace.go:Workspace.Unowned] *)
Definition Unowned (w : Workspace) : list string := List.filter (λ d, negb (str_in d (ws_Domains w))) (ws_Serve w).

(** [backend/backend.go:type Credential] *)
Record Credential := mkCredential { cr_Type : string; cr_Admin : string; cr_Data : string }.

(** [backend/backend.go:type Backend]: what a directory answers; the probe and the tenant by
    the attempt, and the credential where it can be written down ([Portable]). *)
Record Backend := mkBackend {
  bk_Kind : string; bk_Tenant : nat → result directory_failure (string * list string); bk_Probe : nat → result directory_failure unit;
  bk_Accounts : result directory_failure (list dirAccount); bk_Groups : result directory_failure (list dirGroup);
  bk_Account : string → result directory_failure (option dirAccount); bk_GroupsOf : string → result directory_failure (list string);
  bk_Revoke : result directory_failure unit; bk_Credential : option Credential }.

(** ** Routing *)

(** [internal/hub/hub.go:type resolution] *)
Record resolution := mkResolution { re_workspace : string; re_conflict : bool }.

(** [internal/hub/hub.go:325-327 routingOf]: one claim of a domain. *)
Definition claim_domain id (claims : gmap string (list string)) domain : gmap string (list string) :=
  <[domain := default [] (claims !! domain) ++ [id]]> claims.

(** [internal/hub/hub.go:316-328 routingOf]: one workspace *)
Definition claim_workspace (s : gmap string (list string) * gmap string bool) (ws : Workspace) : gmap string (list string) * gmap string bool :=
  (foldl (claim_domain (ws_ID ws)) s.1 (Served ws), <[ws_ID ws := ws_Declared ws]> s.2).

(** [internal/hub/hub.go:331-352 routingOf]: whose a domain with these claims is. *)
Definition settle (declared : gmap string bool) (ids : list string) : option resolution :=
  match sort_strings ids with
  | [] => None
  | [id] => Some (mkResolution id false)
  | first :: _ =>
      match List.filter (λ id, default false (declared !! id)) (sort_strings ids) with
      | [id] => Some (mkResolution id false)
      | _ => Some (mkResolution first true)
      end
  end.

(** [internal/hub/hub.go:routingOf] *)
Definition routingOf (workspaces : list Workspace) : gmap string resolution :=
  let '(claims, declared) := foldl claim_workspace (∅, ∅) workspaces in omap (settle declared) claims.

(** [internal/hub/hub.go:type view] *)
Record view := mkView { vw_workspaces : gmap string Workspace; vw_routing : gmap string resolution }.

(** [internal/hub/hub.go:type Config] *)
Record Config := mkConfig { cg_RefreshInterval : Z; cg_FreshnessWindow : Z; cg_ProbeInterval : Z }.

(** [internal/hub/hub.go:Config.withDefaults] *)
Definition withDefaults (c : Config) : Config :=
  let minute := (60 * 1000000000)%Z in
  mkConfig (if (cg_RefreshInterval c <=? 0)%Z then 15 * minute else cg_RefreshInterval c)
    (if (cg_FreshnessWindow c <=? 0)%Z then 30 * minute else cg_FreshnessWindow c)
    (if (cg_ProbeInterval c <=? 0)%Z then 5 * minute else cg_ProbeInterval c).

(** ** The state of a replica, and what it shares *)

(** [internal/hub/workspace.go:type Store], [internal/hub/snapshot.go:type SnapshotStore] and the
    credential store: their calls. *)
Inductive hub_call : Type :=
| StoreList | StoreGet (id : string) | StorePut (id : string) | StoreDelete (id : string)
| SnapGet (id : string) | SnapPut (id : string) | SnapDelete (id : string)
| CredLoad (id : string) | CredSave (id : string) | CredDelete (id : string).

(** [internal/hub/hub.go:type Hub]: the readers of this replica and the workspaces it is
    refreshing; the records, snapshots and credentials are shared.  [hw_revoked] are the
    workspaces whose directory was asked to revoke its credential. *)
Record HubWorld := mkHubWorld {
  hw_workspaces : gmap string Workspace; hw_snapshots : gmap string Snapshot; hw_credentials : gmap string Credential;
  hw_backends : gmap string Backend; hw_refreshing : gset string; hw_revoked : list string; hw_now : Z }.

(** [internal/hub/hub.go:21-38 ErrInvalidAddress], and the failures the messages wrap. *)
Inductive hub_error : Type :=
| ErrInvalidAddress (email : string) | ErrDeclared (id : string) | ErrTenantMismatch (declared found : string)
| ErrUnknownDomain (id domain : string) | ErrUnknownGroup (id group : string) | GroupsNotRead (id : string)
| ErrHubNotFound (id : string) | StoreFailed (call : hub_call) (why : string)
| ReadTenant (e : directory_failure) | NoWorkspaceID
| ReadAccounts (e : directory_failure) | ReadGroups (e : directory_failure)
| NoCredential (id : string) | NotOpened (why : string).

Definition Hub (A : Type) : Type := HubWorld → result hub_error A * HubWorld.
#[global] Instance Hub_ret : MRet Hub := λ A a w, (Ok a, w).
#[global] Instance Hub_bind : MBind Hub := λ A B k m w, match m w with (Ok a, w) => k a w | (Err e, w) => (Err e, w) end.
Definition hub_fail {A} (e : hub_error) : Hub A := λ w, (Err e, w).
Definition hub_try {A} (m : Hub A) : Hub (result hub_error A) := λ w, let '(r, w) := m w in (Ok r, w).
Definition hub_read {A} (f : HubWorld → A) : Hub A := λ w, (Ok (f w), w).

Definition set_workspaces (m : gmap string Workspace) (w : HubWorld) : HubWorld :=
  mkHubWorld m (hw_snapshots w) (hw_credentials w) (hw_backends w) (hw_refreshing w) (hw_revoked w) (hw_now w).
Definition set_snapshots (m : gmap string Snapshot) (w : HubWorld) : HubWorld :=
  mkHubWorld (hw_workspaces w) m (hw_credentials w) (hw_backends w) (hw_refreshing w) (hw_revoked w) (hw_now w).
Definition set_credentials (m : gmap string Credential) (w : HubWorld) : HubWorld :=
  mkHubWorld (hw_workspaces w) (hw_snapshots w) m (hw_backends w) (hw_refreshing w) (hw_revoked w) (hw_now w).
Definition set_backends (m : gmap string Backend) (w : HubWorld) : HubWorld :=
  mkHubWorld (hw_workspaces w) (hw_snapshots w) (hw_credentials w) m (hw_refreshing w) (hw_revoked w) (hw_now w).
Definition set_refreshing (r : gset string) (w : HubWorld) : HubWorld :=
  mkHubWorld (hw_workspaces w) (hw_snapshots w) (hw_credentials w) (hw_backends w) r (hw_revoked w) (hw_now w).
Definition set_revoked id (w : HubWorld) : HubWorld :=
  mkHubWorld (hw_workspaces w) (hw_snapshots w) (hw_credentials w) (hw_backends w) (hw_refreshing w) (hw_revoked w ++ [id]) (hw_now w).
Definition hub_set (f : HubWorld → HubWorld) : Hub unit := λ w, (Ok tt, f w).

(** ** What is answered *)

(** [internal/hub/hub.go:type ServedDomain] *)
Record ServedDomain := mkServedDomain { sv_Name : string; sv_Authoritative : bool; sv_Workspace : string; sv_Backend : string; sv_SnapshotAt : option Z }.

(** [internal/hub/hub.go:type AccountResult] *)
Record AccountResult := mkAccountResult {
  acr_Email : string; acr_InDomain : bool; acr_Found : bool; acr_Live : bool; acr_GivenName : string; acr_FamilyName : string;
  acr_Authoritative : bool; acr_SnapshotAt : option Z }.

(** [internal/hub/hub.go:type UserResult] *)
Record UserResult := mkUserResult {
  us_Email : string; us_Workspace : string; us_InDomain : bool; us_Found : bool; us_Suspended : bool; us_Groups : list string;
  us_GivenName : string; us_FamilyName : string; us_Authoritative : bool; us_SnapshotAt : option Z }.

(** [internal/hub/hub.go:type GroupResult] *)
Record GroupResult := mkGroupResult {
  gr_Email : string; gr_Domain : string; gr_Members : list string; gr_Found : bool; gr_Authoritative : bool; gr_SnapshotAt : option Z }.

(** [internal/hub/hub.go:type WorkspaceHealth] *)
Record WorkspaceHealth := mkWorkspaceHealth { wh_Workspace : string; wh_OK : bool; wh_Detail : option health_error; wh_ProbedAt : option Z }.

(** [internal/hub/hub.go:type DomainReason] *)
Inductive DomainReason : Type :=
| ReasonNone | ReasonContested | ReasonFirstSnapshotPending | ReasonProbeFailed | ReasonSnapshotStale.
#[global] Instance DomainReason_eq_dec : EqDecision DomainReason.
Proof. solve_decision. Defined.

(** [internal/hub/hub.go:type DomainStanding] *)
Record DomainStanding := mkDomainStanding {
  do_Name : string; do_Authoritative : bool; do_Reason : DomainReason; do_Conflict : bool; do_Served : bool; do_Owned : bool }.

(** [internal/hub/hub.go:type WorkspaceView] *)
Record WorkspaceView := mkWorkspaceView {
  wv_Workspace : Workspace; wv_Domains : list DomainStanding; wv_SnapshotAt : option Z; wv_Discovered : list string }.

(** [internal/hub/hub.go:type Person] *)
Record Person := mkPerson {
  pn_Email : string; pn_GivenName : string; pn_FamilyName : string; pn_Workspace : string; pn_Live : bool; pn_Authoritative : bool;
  pn_DirectoryGroups : list string; pn_GitHubLogin : string }.

(** [internal/hub/hub.go:type PeopleQuery]; a set of workspaces that is empty is none of them. *)
Record PeopleQuery := mkPeopleQuery {
  pq_Text : string; pq_Workspace : string; pq_Workspaces : option (list string); pq_Live : option bool; pq_Domain : string;
  pq_GitHubLogins : gmap string string; pq_GitHubLinked : option bool }.

(** [internal/hub/hub.go:type GroupMember] *)
Record GroupMember := mkGroupMember { gm_Email : string; gm_GivenName : string; gm_FamilyName : string; gm_Known : bool; gm_Live : bool }.

(** [internal/hub/hub.go:type DirectoryGroup] *)
Record DirectoryGroup := mkDirectoryGroup { dy_Group : GroupResult; dy_Workspace : string; dy_Members : list GroupMember }.

(** [internal/hub/resolve.go:type ResolvedGroup] *)
Record ResolvedGroup := mkResolvedGroup { rg_Group : DirectoryGroup; rg_Nested : list string; rg_Truncated : bool }.

(** [internal/hub/hub.go:type pointResult] *)
Record pointResult := mkPointResult {
  pt_inDomain : bool; pt_found : bool; pt_account : dirAccount; pt_groups : list string; pt_authoritative : bool; pt_snapshotAt : option Z }.

Definition no_account : dirAccount := mkAccount "" false "" "".
Definition no_point : pointResult := mkPointResult false false no_account [] false None.

(** A loop whose body is a step. *)
Fixpoint hub_fold {S A} (f : S → A → Hub S) (s : S) (l : list A) : Hub S :=
  match l with [] => mret s | x :: rest => s ← f s x; hub_fold f s rest end.

Section hub.
Context (fails : hub_call → option string) (cfg : Config) (credentials : bool) (reopener : option (Workspace → Credential → result string Backend)).

(** *** The stores *)

Definition call (c : hub_call) : Hub unit := λ w, (match fails c with Some why => Err (StoreFailed c why) | None => Ok tt end, w).

(** [internal/hub/workspace.go:MemoryStore.List] *)
Definition store_List : Hub (list Workspace) := call StoreList ;; hub_read (λ w, in_order (hw_workspaces w)).

(** [internal/hub/workspace.go:MemoryStore.Get] *)
Definition store_Get id : Hub Workspace :=
  call (StoreGet id) ;;
  found ← hub_read (λ w, hw_workspaces w !! id);
  match found with Some ws => mret ws | None => hub_fail (ErrHubNotFound id) end.

(** [internal/hub/workspace.go:MemoryStore.Put] *)
Definition store_Put (ws : Workspace) : Hub unit :=
  if empty (ws_ID ws) then hub_fail NoWorkspaceID
  else call (StorePut (ws_ID ws)) ;; hub_set (λ w, set_workspaces (<[ws_ID ws := ws]> (hw_workspaces w)) w).

(** [internal/hub/workspace.go:MemoryStore.Delete] *)
Definition store_Delete id : Hub unit := call (StoreDelete id) ;; hub_set (λ w, set_workspaces (delete id (hw_workspaces w)) w).

(** [internal/hub/snapshot.go:MemorySnapshots.Get] *)
Definition snap_Get id : Hub (option Snapshot) := call (SnapGet id) ;; hub_read (λ w, hw_snapshots w !! id).

(** [internal/hub/snapshot.go:MemorySnapshots.Put] *)
Definition snap_Put (s : Snapshot) : Hub unit :=
  call (SnapPut (sn_Workspace s)) ;; hub_set (λ w, set_snapshots (<[sn_Workspace s := s]> (hw_snapshots w)) w).

(** [internal/hub/snapshot.go:MemorySnapshots.Delete] *)
Definition snap_Delete id : Hub unit := call (SnapDelete id) ;; hub_set (λ w, set_snapshots (delete id (hw_snapshots w)) w).

(** A snapshot that cannot be read is as one that is not there. *)
Definition snap_or_none id : Hub (option Snapshot) :=
  r ← hub_try (snap_Get id); mret (match r with Ok s => s | Err _ => None end).

(** *** Routing and authority *)

(** [internal/hub/hub.go:Hub.view] *)
Definition hub_view : Hub view :=
  list ← store_List; mret (mkView (list_to_map ((λ ws, (ws_ID ws, ws)) <$> list)) (routingOf list)).

(** [internal/hub/hub.go:Hub.authoritative] *)
Definition authoritative (ws : Workspace) (res : resolution) (snap : option Snapshot) now : bool :=
  match snap with
  | None => false
  | Some s => if re_conflict res || negb (he_OK (ws_Health ws)) then false else (Age s now <? cg_FreshnessWindow cfg)%Z
  end.

(** [internal/hub/hub.go:snapshotAt] *)
Definition snapshotAt (snap : option Snapshot) : option Z := sn_TakenAt <$> snap.

(** [internal/hub/hub.go:409-438 Hub.reopen] *)
Definition open_reader id : Hub Backend :=
  ws ← store_Get id;
  call (CredLoad id) ;;
  cred ← hub_read (λ w, hw_credentials w !! id);
  match cred, reopener with
  | Some cred, Some open =>
      match open ws cred with
      | Ok reader => hub_set (λ w, set_backends (<[id := reader]> (hw_backends w)) w) ;; mret reader
      | Err why => hub_fail (NotOpened why)
      end
  | _, _ => hub_fail (NoCredential id)
  end.

(** [internal/hub/hub.go:Hub.reopen] *)
Definition reopen id : Hub (option Backend) :=
  if negb (credentials && bool_decide (is_Some reopener)) then mret None
  else r ← hub_try (open_reader id); mret (match r with Ok b => Some b | Err _ => None end).

(** [internal/hub/hub.go:Hub.backendFor] *)
Definition backendFor id : Hub (option Backend) :=
  b ← hub_read (λ w, hw_backends w !! id); match b with Some b => mret (Some b) | None => reopen id end.

(** *** Reading the directory whole *)

(** [internal/hub/hub.go:Hub.Refresh]: the reads, and what is to be stored. *)
Definition refresh_read id : Hub Snapshot :=
  b ← backendFor id;
  match b with
  | None => hub_fail (ErrHubNotFound id)
  | Some b =>
      ws ← store_Get id;
      match bk_Accounts b, bk_Groups b with
      | Err e, _ => hub_fail (ReadAccounts e)
      | _, Err e => hub_fail (ReadGroups e)
      | Ok accounts, Ok groups =>
          now ← hub_read hw_now;
          let kept := restrict accounts groups (ws_Serve ws) (ws_SyncGroups ws) in
          mret (NewSnapshot id now kept.1 kept.2 (dg_Email <$> groups))
      end
  end.

(** [internal/hub/hub.go:Hub.Refresh] *)
Definition Refresh id : Hub Z := snap ← refresh_read id; snap_Put snap ;; mret (sn_TakenAt snap).

(** [internal/hub/hub.go:Hub.refreshSoon]: a refresh of the workspace is under way. *)
Definition refreshSoon id : Hub unit := hub_set (λ w, set_refreshing ({[id]} ∪ hw_refreshing w) w).

(** [internal/hub/hub.go:219-228 Hub.refreshSoon]: the work itself, once nobody waits on it. *)
Definition detached id : Hub unit :=
  _ ← hub_try (Refresh id); hub_set (λ w, set_refreshing (hw_refreshing w ∖ {[id]}) w).

(** [internal/hub/hub.go:Hub.ensureFresh] *)
Definition ensureFresh id maxAge : Hub (option Snapshot) :=
  snap ← snap_or_none id;
  now ← hub_read hw_now;
  match maxAge with
  | None => match snap with None => refreshSoon id ;; mret None | Some _ => mret snap end
  | Some maxAge =>
      if match snap with Some s => (Age s now <=? maxAge)%Z | None => false end then mret snap
      else
        r ← hub_try (Refresh id);
        match r with
        | Err _ => mret snap
        | Ok _ => fresh ← snap_or_none id; mret (match fresh with Some s => Some s | None => snap end)
        end
  end.

(** *** One address *)

(** [internal/hub/hub.go:Hub.pointLive]; [None] sends the caller back to the snapshot. *)
Definition pointLive (ws : Workspace) (res : resolution) email (snap : option Snapshot) (wantGroups : bool) : Hub (option pointResult) :=
  b ← backendFor (ws_ID ws);
  match b with
  | None => mret None
  | Some b =>
      match (account ← bk_Account b email;
             match account with Some _ => (λ groups, (account, groups)) <$> bk_GroupsOf b email | None => Ok (None, []) end) with
      | Err _ => mret None
      | Ok (account, groups) =>
          _ ← match snap with Some s => hub_try (snap_Put (patchAccount s email account groups)) | None => mret (Ok tt) end;
          now ← hub_read hw_now;
          mret (Some (mkPointResult true (bool_decide (is_Some account)) (default no_account account) (if wantGroups then groups else [])
            (negb (re_conflict res) && he_OK (ws_Health ws)) (Some now)))
      end
  end.

(** [internal/hub/hub.go:535-547 Hub.point]: whether the snapshot is enough. *)
Definition needs_live (snap : option Snapshot) email maxAge now : bool :=
  match snap with
  | None => true
  | Some s =>
      if match maxAge with Some maxAge => (maxAge <? Age s now)%Z | None => false end then true
      else if bool_decide (is_Some (sn_Accounts s !! email)) then false else negb (isGroup s email)
  end.

(** [internal/hub/hub.go:560-573 Hub.point]: what the snapshot says. *)
Definition point_stored (snap : option Snapshot) email (wantGroups authoritative : bool) : pointResult :=
  match snap with
  | None => mkPointResult true false no_account [] authoritative None
  | Some s =>
      let account := sn_Accounts s !! email in
      mkPointResult true (bool_decide (is_Some account)) (default no_account account)
        (if wantGroups && bool_decide (is_Some account) then GroupsOf s email else []) authoritative (Some (sn_TakenAt s))
  end.

Definition no_workspace : Workspace := mkWorkspace "" "" [] [] [] "" CredentialNone "" None (mkHealth None false None) false.

(** [internal/hub/hub.go:Hub.point] *)
Definition point (v : view) email maxAge (wantGroups : bool) : Hub pointResult :=
  match Domain email with
  | None => mret no_point
  | Some domain =>
      match vw_routing v !! domain with
      | None => mret no_point
      | Some res =>
          let ws := default no_workspace (vw_workspaces v !! re_workspace res) in
          let lower := ToLower (TrimSpace email) in
          snap ← snap_or_none (ws_ID ws);
          now ← hub_read hw_now;
          if needs_live snap lower maxAge now then
            live ← pointLive ws res lower snap wantGroups;
            mret (match live with Some answer => answer | None => point_stored snap lower wantGroups false end)
          else mret (point_stored snap lower wantGroups (authoritative ws res snap now))
      end
  end.

(** [internal/hub/hub.go:Hub.ResolveUser] *)
Definition ResolveUser email maxAge : Hub UserResult :=
  match Domain email with
  | None => hub_fail (ErrInvalidAddress email)
  | Some domain =>
      v ← hub_view;
      p ← point v email maxAge true;
      mret (mkUserResult email (default "" (re_workspace <$> vw_routing v !! domain)) (pt_inDomain p) (pt_found p)
        (pt_found p && negb (da_Live (pt_account p))) (pt_groups p) (da_GivenName (pt_account p)) (da_FamilyName (pt_account p))
        (pt_authoritative p) (pt_snapshotAt p))
  end.

(** [internal/hub/hub.go:accountResult] *)
Definition accountResult email (p : pointResult) : AccountResult :=
  mkAccountResult email (pt_inDomain p) (pt_found p) (pt_found p && da_Live (pt_account p)) (da_GivenName (pt_account p))
    (da_FamilyName (pt_account p)) (pt_authoritative p) (pt_snapshotAt p).

(** [internal/hub/hub.go:Hub.Account] *)
Definition Hub_Account email maxAge : Hub AccountResult :=
  match Domain email with
  | None => hub_fail (ErrInvalidAddress email)
  | Some _ => v ← hub_view; p ← point v email maxAge false; mret (accountResult email p)
  end.

(** [internal/hub/hub.go:677-680 Hub.Accounts]: the older of two moments, where there are two. *)
Definition older (oldest at_ : option Z) : option Z :=
  match at_, oldest with
  | None, _ => oldest
  | Some _, None => at_
  | Some t, Some o => if (t <? o)%Z then at_ else oldest
  end.

(** [internal/hub/hub.go:Hub.Accounts] *)
Definition Hub_Accounts (emails : list string) maxAge : Hub (list AccountResult * option Z) :=
  v ← hub_view;
  hub_fold (λ s email,
    match Domain email with
    | None => hub_fail (ErrInvalidAddress email)
    | Some _ =>
        p ← point v email maxAge false;
        mret (s.1 ++ [accountResult email p], older s.2 (pt_snapshotAt p))
    end) ([], None) emails.

(** *** Groups *)

(** [internal/hub/hub.go:Hub.Group] *)
Definition Hub_Group email maxAge : Hub GroupResult :=
  match Domain email with
  | None => hub_fail (ErrInvalidAddress email)
  | Some domain =>
      v ← hub_view;
      match vw_routing v !! domain with
      | None => mret (mkGroupResult email domain [] false false None)
      | Some res =>
          let ws := default no_workspace (vw_workspaces v !! re_workspace res) in
          snap ← ensureFresh (ws_ID ws) maxAge;
          now ← hub_read hw_now;
          let found := snap ≫= λ s, sn_Groups s !! ToLower email in
          mret (mkGroupResult (ToLower email) domain (default [] (dg_Members <$> found)) (bool_decide (is_Some found))
            (authoritative ws res snap now) (snapshotAt snap))
      end
  end.

(** [internal/hub/hub.go:760-769 Hub.ListGroups]: one domain, with the age and authority of its answer. *)
Definition served_domain (v : view) name (res : resolution) (snap : option Snapshot) now : ServedDomain :=
  let ws := default no_workspace (vw_workspaces v !! re_workspace res) in
  mkServedDomain name (authoritative ws res snap now) (ws_ID ws) (ws_Backend ws) (snapshotAt snap).

(** [internal/hub/hub.go:770-786 Hub.ListGroups]: its groups. *)
Definition domain_groups name (snap : option Snapshot) (authoritative : bool) : list GroupResult :=
  match snap with
  | None => []
  | Some s =>
      omap (λ key, if bool_decide (Domain key = Some name)
                   then (λ g, mkGroupResult (dg_Email g) name (dg_Members g) true authoritative (Some (sn_TakenAt s))) <$> sn_Groups s !! key
                   else None) (sorted_keys (sn_Groups s))
  end.

(** [internal/hub/hub.go:Hub.ListGroups]; each workspace is read once, in the order of the domains. *)
Definition ListGroups domain maxAge : Hub (list GroupResult * list ServedDomain) :=
  v ← hub_view;
  let domain := ToLower (TrimSpace domain) in
  let wanted := if empty domain then vw_routing v
    else match vw_routing v !! domain with Some res => {[domain := res]} | None => ∅ end in
  snaps ← hub_fold (λ snaps (res : resolution),
    match snaps !! re_workspace res with
    | Some _ => mret snaps
    | None => snap ← ensureFresh (re_workspace res) maxAge; mret (<[re_workspace res := snap]> snaps)
    end) (∅ : gmap string (option Snapshot)) (in_order wanted);
  now ← hub_read hw_now;
  let rows := omap (λ name, (λ res, (name, res, default None (snaps !! re_workspace res))) <$> wanted !! name) (sorted_keys wanted) in
  mret (mjoin ((λ '(name, res, snap), domain_groups name snap
                  (authoritative (default no_workspace (vw_workspaces v !! re_workspace res)) res snap now)) <$> rows),
        (λ '(name, res, snap), served_domain v name res snap now) <$> rows).

(** [internal/hub/hub.go:Hub.Routing] *)
Definition Routing : Hub (gmap string string) := v ← hub_view; mret (re_workspace <$> vw_routing v).

(** [internal/hub/hub.go:Hub.Describe] *)
Definition Describe : Hub (list ServedDomain) :=
  v ← hub_view;
  now ← hub_read hw_now;
  hub_fold (λ out name,
    match vw_routing v !! name with
    | None => mret out
    | Some res => snap ← snap_or_none (re_workspace res); mret (out ++ [served_domain v name res snap now])
    end) [] (sorted_keys (vw_routing v)).

(** *** Probing *)

(** [internal/hub/hub.go:933-940 Hub.probeOne]: one attempt. *)
Definition probe_attempt (b : Backend) (attempt : nat) : result (directory_failure * health_error) (string * list string) :=
  match bk_Probe b attempt with
  | Err e => Err (e, ProbeRefused e)
  | Ok _ => match bk_Tenant b attempt with Err e => Err (e, ReadDomains e) | Ok tenant => Ok tenant end
  end.

(** [internal/hub/hub.go:932-956 Hub.probeOne]: until it works, is refused, or was tried often enough. *)
Fixpoint probe_loop (b : Backend) (attempt more : nat) : result health_error (list string) :=
  match probe_attempt b attempt with
  | Ok (_, domains) => Ok (normaliseDomains domains)
  | Err (why, detail) =>
      match more, why with
      | S more, Unavailable _ => probe_loop b (S attempt) more
      | _, _ => Err detail
      end
  end.

(** [internal/hub/hub.go:907-910 probeAttempts] *)
Definition probeAttempts : nat := 3.

(** [internal/hub/hub.go:Hub.probeOne]; [cancelled] is whether its context was. *)
Definition probeOne (cancelled : bool) (ws : Workspace) : Hub WorkspaceHealth :=
  now ← hub_read hw_now;
  b ← backendFor (ws_ID ws);
  let asked := match b with None => Err NoBackend | Some b => probe_loop b 1 (probeAttempts - 1) end in
  if cancelled then mret (mkWorkspaceHealth (ws_ID ws) (he_OK (ws_Health ws)) (he_Error (ws_Health ws)) (he_ProbedAt (ws_Health ws)))
  else
    let health := match asked with Ok _ => mkHealth (Some now) true None | Err e => mkHealth (Some now) false (Some e) end in
    _ ← hub_try (store_Put (with_probe ws (match asked with Ok domains => domains | Err _ => ws_Domains ws end) health));
    mret (mkWorkspaceHealth (ws_ID ws) (he_OK health) (he_Error health) (Some now)).

(** [internal/hub/hub.go:Hub.Probe] *)
Definition Probe (cancelled : bool) id : Hub (list WorkspaceHealth) :=
  targets ← (if empty id then store_List else ws ← store_Get id; mret [ws]);
  hub_fold (λ out ws, h ← probeOne cancelled ws; mret (out ++ [h])) [] targets.

(** *** Adopting, narrowing, dropping *)

(** [internal/hub/hub.go:Hub.Attach] *)
Definition Attach id (b : Backend) : Hub unit :=
  _ ← store_Get id; hub_set (λ w, set_backends (<[id := b]> (hw_backends w)) w).

(** [internal/hub/hub.go:defaultServe] *)
Definition defaultServe (ws : Workspace) : list string :=
  match Domain (ws_Admin ws) with Some domain => if str_in domain (ws_Domains ws) then [domain] else [] | None => [] end.

(** [internal/hub/hub.go:991-1008 Hub.Adopt]: which workspace this is. *)
Definition adopt_id (ws : Workspace) (tenant : result directory_failure (string * list string)) : result hub_error string :=
  id ← match tenant with
    | Err e => if empty (ws_ID ws) then Err (ReadTenant e) else Ok (ws_ID ws)
    | Ok (found, _) =>
        if empty (ws_ID ws) then Ok found
        else if EqualFold (ws_ID ws) found then Ok (ws_ID ws) else Err (ErrTenantMismatch (ws_ID ws) found)
    end;
  if empty id then Err NoWorkspaceID else Ok id.

(** [internal/hub/hub.go:1016-1024 Hub.Adopt]: the credential written down; whether it was. *)
Definition keep_credential (ws : Workspace) (b : Backend) : Hub bool :=
  match bk_Credential b with
  | Some credential =>
      if credentials && negb (ws_Declared ws) then
        call (CredSave (ws_ID ws)) ;; hub_set (λ w, set_credentials (<[ws_ID ws := credential]> (hw_credentials w)) w) ;; mret true
      else mret false
  | None => mret false
  end.

(** [internal/hub/hub.go:1050-1067 Hub.Adopt]: what the console decided outlives the credential. *)
Definition keep_decisions (ws : Workspace) : Hub Workspace :=
  if ws_Declared ws then mret ws
  else
    known ← hub_try (store_Get (ws_ID ws));
    mret (match known with
          | Ok existing =>
              mkWorkspace (ws_ID ws) (ws_Backend ws) (ws_Domains ws)
                (match ws_Serve ws with [] => ws_Serve existing | serve => serve end)
                (match ws_SyncGroups ws with [] => ws_SyncGroups existing | sync => sync end)
                (ws_Admin ws) (ws_Credential ws)
                (if empty (ws_ConnectedBy ws) then ws_ConnectedBy existing else ws_ConnectedBy ws)
                (match ws_ConnectedAt ws with None => ws_ConnectedAt existing | at_ => at_ end)
                (ws_Health ws) (ws_Declared ws)
          | Err _ => match ws_Serve ws with [] => with_serve ws (defaultServe ws) | _ => ws end
          end).

(** [internal/hub/hub.go:Hub.Adopt].  The credential's [err = ...Save(...)] is the variable the
    tenant's failure was in. *)
Definition Adopt (ws : Workspace) (b : Backend) : Hub Workspace :=
  let tenant := bk_Tenant b 0 in
  match adopt_id ws tenant with
  | Err e => hub_fail e
  | Ok id =>
      let ws := mkWorkspace id (ws_Backend ws) (ws_Domains ws) (ws_Serve ws) (ws_SyncGroups ws) (ws_Admin ws) (ws_Credential ws)
        (ws_ConnectedBy ws) (ws_ConnectedAt ws) (ws_Health ws) (ws_Declared ws) in
      hub_set (λ w, set_backends (<[id := b]> (hw_backends w)) w) ;;
      saved ← keep_credential ws b;
      now ← hub_read hw_now;
      let err := if (saved : bool) then None else match tenant with Err e => Some (ProbeRefused e) | Ok _ => None end in
      let '(domains, health) := match err with
        | Some e => (ws_Domains ws, mkHealth (Some now) false (Some e))
        | None => (normaliseDomains (match tenant with Ok (_, domains) => domains | Err _ => [] end), mkHealth (Some now) true None)
        end in
      let ws := mkWorkspace id (bk_Kind b) domains (normaliseDomains (ws_Serve ws)) (ws_SyncGroups ws) (ws_Admin ws) (ws_Credential ws)
        (ws_ConnectedBy ws) (ws_ConnectedAt ws) health (ws_Declared ws) in
      ws ← keep_decisions ws;
      let ws := mkWorkspace (ws_ID ws) (ws_Backend ws) (ws_Domains ws) (ws_Serve ws) (ws_SyncGroups ws) (ws_Admin ws) (ws_Credential ws)
        (ws_ConnectedBy ws) (match ws_ConnectedAt ws with None => Some now | at_ => at_ end) (ws_Health ws) (ws_Declared ws) in
      store_Put ws ;;
      refreshSoon (ws_ID ws) ;;
      store_Get (ws_ID ws)
  end.

(** [internal/hub/hub.go:Hub.SetServed] *)
Definition SetServed id (domains : list string) : Hub Workspace :=
  ws ← store_Get id;
  if ws_Declared ws then hub_fail (ErrDeclared id)
  else
    let serve := normaliseDomains domains in
    match List.find (λ d, negb (str_in d (ws_Domains ws))) serve with
    | Some d => hub_fail (ErrUnknownDomain id d)
    | None =>
        let ws := with_serve ws serve in
        store_Put ws ;;
        snap ← hub_try (snap_Get id);
        (match snap with
         | Ok (Some s) =>
             put ← hub_try (snap_Put (narrow s (Served ws)));
             match put with Ok _ => mret tt | Err _ => _ ← hub_try (snap_Delete id); mret tt end
         | _ => mret tt
         end : Hub unit) ;;
        refreshSoon id ;;
        store_Get id
    end.

(** [internal/hub/hub.go:Hub.SetSynced] *)
Definition SetSynced id (groups : list string) : Hub Workspace :=
  ws ← store_Get id;
  if ws_Declared ws then hub_fail (ErrDeclared id)
  else
    let sync := normaliseGroups groups in
    (match sync with
     | [] => mret tt
     | _ =>
         snap ← hub_try (snap_Get id);
         match snap with
         | Ok (Some s) =>
             match List.find (λ g, negb (str_in g (sn_Discovered s))) sync with
             | Some g => hub_fail (ErrUnknownGroup id g)
             | None => mret tt
             end
         | _ => hub_fail (GroupsNotRead id)
         end
     end : Hub unit) ;;
    store_Put (with_sync ws sync) ;;
    snap ← hub_try (snap_Get id);
    (match snap with
     | Ok (Some s) => _ ← hub_try (snap_Put (narrowGroups s sync)); mret tt
     | _ => mret tt
     end : Hub unit) ;;
    refreshSoon id ;;
    store_Get id.

(** [internal/hub/hub.go:Hub.Disconnect]; the answer of the directory to the revocation is logged. *)
Definition Disconnect id : Hub unit :=
  ws ← store_Get id;
  if ws_Declared ws then hub_fail (ErrDeclared id)
  else
    b ← backendFor id;
    (match b with Some _ => hub_set (set_revoked id) | None => mret tt end : Hub unit) ;;
    _ ← hub_try (snap_Delete id);
    (if credentials then
       _ ← hub_try (call (CredDelete id) ;; hub_set (λ w, set_credentials (delete id (hw_credentials w)) w)); mret tt
     else mret tt : Hub unit) ;;
    hub_set (λ w, set_backends (delete id (hw_backends w)) w) ;;
    store_Delete id.

(** *** What an operator is shown *)

(** [internal/hub/hub.go:Hub.reasonFor] *)
Definition reasonFor (ws : Workspace) (res : resolution) (snap : option Snapshot) now : DomainReason :=
  if re_conflict res then ReasonContested
  else match snap with
  | None => ReasonFirstSnapshotPending
  | Some s =>
      if negb (he_OK (ws_Health ws)) then ReasonProbeFailed
      else if (cg_FreshnessWindow cfg <=? Age s now)%Z then ReasonSnapshotStale else ReasonNone
  end.

(** [internal/hub/hub.go:1327-1343 Hub.WorkspaceViews]: one domain of a workspace. *)
Definition standing (v : view) (ws : Workspace) (snap : option Snapshot) now domain : DomainStanding :=
  let served := str_in domain (Served ws) in
  let owned := str_in domain (ws_Domains ws) in
  match vw_routing v !! domain with
  | Some res =>
      if served then
        let trusted := bool_decide (re_workspace res = ws_ID ws) && authoritative ws res snap now in
        mkDomainStanding domain trusted (if trusted then ReasonNone else reasonFor ws res snap now) (re_conflict res) served owned
      else mkDomainStanding domain false ReasonNone false served owned
  | None => mkDomainStanding domain false ReasonNone false served owned
  end.

(** [internal/hub/hub.go:Hub.WorkspaceViews] *)
Definition WorkspaceViews : Hub (list WorkspaceView) :=
  v ← hub_view;
  now ← hub_read hw_now;
  hub_fold (λ out ws,
    snap ← snap_or_none (ws_ID ws);
    mret (out ++ [mkWorkspaceView ws (standing v ws snap now <$> sort_strings (ws_Domains ws ++ Unowned ws)) (snapshotAt snap)
                    (default [] (sn_Discovered <$> snap))])) [] (in_order (vw_workspaces v)).

(** [internal/hub/hub.go:inDomain] *)
Definition inDomain email domain : bool :=
  match cut_last "@" email with Some (_, d) => EqualFold d domain | None => false end.

(** [internal/hub/hub.go:matchesPerson] *)
Definition matchesPerson (account : dirAccount) text : bool :=
  Contains (ToLower (da_Email account +:+ " " +:+ da_GivenName account +:+ " " +:+ da_FamilyName account)) text.

(** [internal/hub/hub.go:1430-1440 Hub.People]: whether the workspace may be trusted for everybody in it. *)
Definition trusted_whole (v : view) (ws : Workspace) (snap : option Snapshot) now : bool :=
  negb (bool_decide (Served ws = [])) &&
  forallb (λ domain, match vw_routing v !! domain with
    | Some res => bool_decide (re_workspace res = ws_ID ws) && authoritative ws res snap now
    | None => false end) (Served ws).

(** [internal/hub/hub.go:1441-1468 Hub.People]: one account. *)
Definition person_of (query : PeopleQuery) id (snap : Snapshot) (trusted : bool) email : option Person :=
  account ← sn_Accounts snap !! email;
  let text := ToLower (TrimSpace (pq_Text query)) in
  let domain := ToLower (TrimSpace (pq_Domain query)) in
  let login := default "" (pq_GitHubLogins query !! ToLower (da_Email account)) in
  if (negb (empty text) && negb (matchesPerson account text))
     || match pq_Live query with Some live => negb (eqb (da_Live account) live) | None => false end
     || (negb (empty domain) && negb (inDomain (da_Email account) domain))
     || match pq_GitHubLinked query with Some linked => negb (eqb (negb (empty login)) linked) | None => false end
  then None
  else Some (mkPerson (da_Email account) (da_GivenName account) (da_FamilyName account) id (da_Live account) trusted (GroupsOf snap email) login).

(** [internal/hub/hub.go:Hub.People]: the page, and how many matched. *)
Definition People (query : PeopleQuery) (limit : Z) : Hub (list Person * nat) :=
  let limit := if (limit <=? 0)%Z then 100%nat else Z.to_nat limit in
  v ← hub_view;
  now ← hub_read hw_now;
  out ← hub_fold (λ out ws,
    if (negb (empty (pq_Workspace query)) && negb (bool_decide (ws_ID ws = pq_Workspace query)))
       || match pq_Workspaces query with Some l => negb (str_in (ws_ID ws) l) | None => false end
    then mret out
    else
      snap ← snap_or_none (ws_ID ws);
      mret (match snap with
            | None => out
            | Some s => out ++ omap (person_of query (ws_ID ws) s (trusted_whole v ws snap now)) (sorted_keys (sn_Accounts s))
            end)) [] (in_order (vw_workspaces v));
  mret (take limit out, length out).

(** [internal/hub/hub.go:1530-1549 Hub.DirectoryGroup]: who an address is, across every snapshot. *)
Definition everybody (snaps : list Snapshot) : gmap string dirAccount := foldl (λ accounts s, sn_Accounts s ∪ accounts) ∅ snaps.
Definition member_of (accounts : gmap string dirAccount) email : GroupMember :=
  match accounts !! email with
  | Some a => mkGroupMember email (da_GivenName a) (da_FamilyName a) true (da_Live a)
  | None => mkGroupMember email "" "" false false
  end.

(** The snapshots that can be read, in the order of their workspaces. *)
Definition snap_of (w : HubWorld) id : option Snapshot := match fails (SnapGet id) with Some _ => None | None => hw_snapshots w !! id end.
Definition all_snaps (w : HubWorld) (v : view) : list Snapshot := omap (snap_of w) (sorted_keys (vw_workspaces v)).

(** [internal/hub/hub.go:Hub.DirectoryGroup] *)
Definition Hub_DirectoryGroup email : Hub DirectoryGroup :=
  result ← Hub_Group email None;
  v ← hub_view;
  let workspace := default "" (re_workspace <$> vw_routing v !! gr_Domain result) in
  if negb (gr_Found result) then mret (mkDirectoryGroup result workspace [])
  else accounts ← hub_read (λ w, everybody (all_snaps w v)); mret (mkDirectoryGroup result workspace ((λ m, member_of accounts (ToLower m)) <$> gr_Members result)).

(** *** Groups within groups *)

(** [internal/hub/resolve.go:56-72 Hub.ResolveGroups]: a snapshotted group, where it is, and whether it may be trusted. *)
Definition lookup_group (w : HubWorld) (v : view) email : option (dirGroup * string * bool) :=
  domain ← Domain email;
  res ← vw_routing v !! domain;
  let ws := default no_workspace (vw_workspaces v !! re_workspace res) in
  snap ← snap_of w (ws_ID ws);
  g ← sn_Groups snap !! email;
  Some (g, ws_ID ws, authoritative ws res (Some snap) (hw_now w)).

(** [internal/hub/resolve.go:102-108 Hub.ResolveGroups]: what an expansion has so far; the people
    in no order, the queue with the depth of each group. *)
Record expansion := mkExpansion {
  xp_people : gset string; xp_visited : gset string; xp_nested : list string; xp_truncated : bool; xp_queue : list (list string * nat) }.

(** [internal/hub/resolve.go:112-127 Hub.ResolveGroups]: one member of a group at [depth]. *)
Definition expand_member (find : string → option (list string)) (maxDepth maxNested : Z) (depth : nat) (x : expansion) (m : string) : expansion :=
  let m := ToLower m in
  match find m with
  | None => mkExpansion ({[m]} ∪ xp_people x) (xp_visited x) (xp_nested x) (xp_truncated x) (xp_queue x)
  | Some members =>
      if bool_decide (m ∈ xp_visited x) then x
      else if (maxDepth <? Z.of_nat depth + 1)%Z || (maxNested <? Z.of_nat (size (xp_visited x)))%Z
      then mkExpansion (xp_people x) (xp_visited x) (xp_nested x) true (xp_queue x)
      else mkExpansion (xp_people x) ({[m]} ∪ xp_visited x) (xp_nested x ++ [m]) (xp_truncated x) (xp_queue x ++ [(members, S depth)])
  end.

(** [internal/hub/resolve.go:109-128 Hub.ResolveGroups]; each turn takes one group off the queue. *)
Fixpoint expand (find : string → option (list string)) (maxDepth maxNested : Z) (fuel : nat) (x : expansion) : expansion :=
  match fuel with
  | O => x
  | S fuel =>
      match xp_queue x with
      | [] => x
      | (members, depth) :: queue =>
          expand find maxDepth maxNested fuel
            (foldl (expand_member find maxDepth maxNested depth)
               (mkExpansion (xp_people x) (xp_visited x) (xp_nested x) (xp_truncated x) queue) members)
      end
  end.

(** A group is put on the queue when it is first visited, and no more than [maxNested] are. *)
Definition expand_fuel (maxNested : Z) : nat := 2 + Z.to_nat maxNested.

(** [internal/hub/resolve.go:90-138 Hub.ResolveGroups]: one group asked about. *)
Definition resolve_group (w : HubWorld) (v : view) (maxDepth maxNested : Z) (asked : string) : ResolvedGroup :=
  let email := ToLower (TrimSpace asked) in
  let domain := default "" (Domain email) in
  match lookup_group w v email with
  | None => mkResolvedGroup (mkDirectoryGroup (mkGroupResult email domain [] false false None) "" []) [] false
  | Some (g, workspace, trusted) =>
      let x := expand (λ m, (λ r, dg_Members r.1.1) <$> lookup_group w v m) maxDepth maxNested (expand_fuel maxNested)
        (mkExpansion ∅ {[email]} [] false [(dg_Members g, O)]) in
      let accounts := everybody (all_snaps w v) in
      mkResolvedGroup (mkDirectoryGroup (mkGroupResult email domain [] true trusted (snapshotAt (snap_of w workspace))) workspace
        (member_of accounts <$> sort_strings (elements (xp_people x)))) (sort_strings (xp_nested x)) (xp_truncated x)
  end.

(** [internal/hub/resolve.go:Hub.ResolveGroups] *)
Definition ResolveGroups (emails : list string) (maxDepth maxNested : Z) : Hub (list ResolvedGroup) :=
  v ← hub_view; hub_read (λ w, resolve_group w v maxDepth maxNested <$> emails).

(** *** In the background *)

(** [internal/hub/background.go:leaseFor] *)
Definition leaseFor (interval : Z) : Z := (interval - Z.quot interval 4)%Z.

(** [internal/hub/background.go:Hub.refreshOne]; the lease is [None] on a store that keeps none,
    and otherwise what asking for it answered.  Whether it is handed back. *)
Definition refreshOne (lease : option (option bool)) id : Hub bool :=
  match lease with
  | Some (Some false) => mret false
  | _ =>
      r ← hub_try (Refresh id);
      mret (match r, lease with Err _, Some (Some true) => true | _, _ => false end)
  end.

(** [internal/hub/background.go:Hub.refreshAll] *)
Definition refreshAll (lease : string → option (option bool)) : Hub unit :=
  workspaces ← hub_try store_List;
  match workspaces with
  | Err _ => mret tt
  | Ok l => hub_fold (λ _ ws, _ ← refreshOne (lease (ws_ID ws)) (ws_ID ws); mret tt) tt l
  end.

(** [internal/hub/background.go:Hub.catchUp] *)
Definition catchUp (lease : string → option (option bool)) : Hub unit :=
  workspaces ← hub_try store_List;
  match workspaces with
  | Err _ => mret tt
  | Ok l =>
      hub_fold (λ _ ws,
        snap ← hub_try (snap_Get (ws_ID ws));
        now ← hub_read hw_now;
        match snap with
        | Err _ => mret tt
        | Ok s =>
            if match s with Some s => (Age s now <? cg_RefreshInterval cfg)%Z | None => false end then mret tt
            else _ ← refreshOne (lease (ws_ID ws)) (ws_ID ws); mret tt
        end) tt l
  end.
End hub.
