(* ===== verification/HubSafety.v ===== *)
(** * HubSafety: what may be acted on, and what the hub keeps

    Over the operations of [Hub], whatever the stores fail at and whatever the directories
    answer: the routing of domains; what an answer that may be acted on rests on; an
    invariant every operation preserves; narrowing, dropping and expanding groups; and the
    lease the replicas share ([internal/hub/blobsnapshots.go]), over any store that meets
    [StateSpec].  The last ones show where the code does not do what it says. *)

From S2P Require Import Prelude GoStrings Policy Port Snapshot Hub.

Implicit Types (email address domain id : string) (now : Z) (maxAge : option Z).

#[local] Arguments patchAccount : simpl never.
#[local] Arguments NewSnapshot : simpl never.

(** ** Steps that keep an invariant *)

(** A step keeps [I], and what it answers meets [Q]. *)
Definition keeping (I : HubWorld → Prop) {A} (m : Hub A) (Q : A → Prop) : Prop :=
  ∀ w, I w → I (m w).2 ∧ ∀ a, (m w).1 = Ok a → Q a.

Section keeping.
Context (I : HubWorld → Prop).

Lemma keeping_ret {A} (a : A) (Q : A → Prop) : Q a → keeping I (mret a) Q.
Proof. intros Ha w Hw. split; [done|]. by intros b [= <-]. Qed.
Lemma keeping_fail {A} e (Q : A → Prop) : keeping I (hub_fail e) Q.
Proof. intros w Hw. by split. Qed.
Lemma keeping_read {A} (f : HubWorld → A) (Q : A → Prop) : (∀ w, I w → Q (f w)) → keeping I (hub_read f) Q.
Proof. intros Hf w Hw. split; [done|]. intros b [= <-]. by apply Hf. Qed.
Lemma keeping_set (f : HubWorld → HubWorld) : (∀ w, I w → I (f w)) → keeping I (hub_set f) (λ _, True).
Proof. intros Hf w Hw. split; [by apply Hf|done]. Qed.
Lemma keeping_bind {A B} (m : Hub A) (k : A → Hub B) (Q : A → Prop) (R : B → Prop) :
  keeping I m Q → (∀ a, Q a → keeping I (k a) R) → keeping I (m ≫= k) R.
Proof.
  intros Hm Hk w Hw. destruct (Hm w Hw) as [Hi Hq]. unfold mbind, Hub_bind. destruct (m w) as [[a|e] w']; simpl in *; [by apply Hk; auto|done].
Qed.
Lemma keeping_try {A} (m : Hub A) (Q : A → Prop) : keeping I m Q → keeping I (hub_try m) (λ r, match r with Ok a => Q a | Err _ => True end).
Proof.
  intros Hm w Hw. destruct (Hm w Hw) as [Hi Hq]. unfold hub_try. destruct (m w) as [r w']; simpl in *. split; [done|]. intros b [= <-]. destruct r; [by apply Hq|done].
Qed.
Lemma keeping_mono {A} (m : Hub A) (Q R : A → Prop) : keeping I m Q → (∀ a, Q a → R a) → keeping I m R.
Proof. intros Hm HQ w Hw. destruct (Hm w Hw). split; [done|]. auto. Qed.
Lemma keeping_any {A} (m : Hub A) (Q : A → Prop) : keeping I m Q → keeping I m (λ _, True).
Proof. intros Hm. by eapply keeping_mono. Qed.
Lemma keeping_fold {S A} (f : S → A → Hub S) (P : A → Prop) (s : S) (l : list A) :
  Forall P l → (∀ s x, P x → keeping I (f s x) (λ _, True)) → keeping I (hub_fold f s l) (λ _, True).
Proof.
  intros Hl Hf. revert s. induction Hl as [|x l Hx Hl IH]; intros s; [by apply keeping_ret|]. simpl. eapply keeping_bind; [by apply Hf|]. intros s' _. apply IH.
Qed.
Lemma keeping_call fails c : keeping I (call fails c) (λ _, True).
Proof. intros w Hw. unfold call. by destruct (fails c). Qed.
End keeping.

(** ** The invariant *)

(** A list of domains as [normaliseDomains] leaves one. *)
Definition normal (l : list string) : Prop := StronglySorted String.le l ∧ NoDup l ∧ ∀ x, x ∈ l → ToLower x = x.

Lemma normaliseDomains_normal l : normal (normaliseDomains l).
Proof.
  change (normaliseDomains l) with (normaliseGroups l). destruct (normaliseGroups_sorted l) as [Hs Hn]. split_and!; [done..|].
  intros x (_&g&_&->)%elem_of_normaliseGroups. apply ToLower_idem.
Qed.
Lemma normal_nil : normal [].
Proof. split_and!; [constructor..|by intros ? ?%elem_of_nil]. Qed.
Lemma Domain_lower address d : Domain address = Some d → ToLower d = d.
Proof. unfold Domain. destruct (cut_last _ _) as [[? ?]|]; [|done]. destruct (_ || _); [done|]. intros [= <-]. apply ToLower_idem. Qed.

(** A directory that keeps its contract: a full read is whole, and an account is in each of
    its groups once. *)
Definition reader_ok (b : Backend) : Prop :=
  (∀ accounts groups, bk_Accounts b = Ok accounts → bk_Groups b = Ok groups → whole_read accounts groups) ∧
  (∀ email groups, bk_GroupsOf b email = Ok groups → NoDup (ToLower <$> groups)).

(** Every record is filed under its id, with its domains in order; every snapshot under its
    workspace, its index that of its memberships; and every reader keeps its contract. *)
Record hub_inv (w : HubWorld) : Prop := {
  hi_record : ∀ id ws, hw_workspaces w !! id = Some ws → ws_ID ws = id ∧ id ≠ "" ∧ normal (ws_Domains ws) ∧ normal (ws_Serve ws);
  hi_snapshot : ∀ id s, hw_snapshots w !! id = Some s → sn_Workspace s = id ∧ sound s;
  hi_reader : ∀ id b, hw_backends w !! id = Some b → reader_ok b }.

Section invariant.
Context (fails : hub_call → option string) (cfg : Config) (credentials : bool) (reopener : option (Workspace → Credential → result string Backend)).
Context (reopens : ∀ open ws cred b, reopener = Some open → open ws cred = Ok b → reader_ok b).

Notation keeps := (keeping hub_inv).
Definition record_ok id (ws : Workspace) : Prop := ws_ID ws = id ∧ id ≠ "" ∧ normal (ws_Domains ws) ∧ normal (ws_Serve ws).

Lemma keeps_store_Get id : keeps (store_Get fails id) (record_ok id).
Proof.
  eapply keeping_bind; [apply keeping_call|]. intros _ _. eapply keeping_bind.
  - apply (keeping_read _ _ (λ found, ∀ ws, found = Some ws → record_ok id ws)). intros w Hw ws. apply (hi_record _ Hw).
  - intros [ws|] Hws; [apply keeping_ret; by apply Hws|apply keeping_fail].
Qed.
Lemma keeps_store_List : keeps (store_List fails) (Forall (λ ws, record_ok (ws_ID ws) ws)).
Proof.
  eapply keeping_bind; [apply keeping_call|]. intros _ _. apply keeping_read. intros w Hw. apply Forall_forall. intros ws [id Hid]%elem_of_in_order.
  destruct (hi_record _ Hw _ _ Hid) as (Heq&?&?&?). by rewrite <- Heq in *.
Qed.
Lemma keeps_store_Put ws : normal (ws_Domains ws) → normal (ws_Serve ws) → keeps (store_Put fails ws) (λ _, True).
Proof.
  intros Hd Hs. unfold store_Put. destruct (empty (ws_ID ws)) eqn:He; [apply keeping_fail|]. eapply keeping_bind; [apply keeping_call|]. intros _ _.
  apply keeping_set. intros w [Hr Hsn Hb]. constructor; simpl; [|done..]. intros id ws' [[<- <-]|[_ ?]]%lookup_insert_Some; [|by apply Hr].
  apply empty_false in He. done.
Qed.
Lemma keeps_store_Delete id : keeps (store_Delete fails id) (λ _, True).
Proof.
  eapply keeping_bind; [apply keeping_call|]. intros _ _. apply keeping_set. intros w [Hr Hsn Hb]. constructor; simpl; [|done..].
  intros id' ws [_ ?]%lookup_delete_Some. by apply Hr.
Qed.
Definition snap_ok id (snap : option Snapshot) : Prop := ∀ s, snap = Some s → sn_Workspace s = id ∧ sound s.
Lemma keeps_snap_Get id : keeps (snap_Get fails id) (snap_ok id).
Proof. eapply keeping_bind; [apply keeping_call|]. intros _ _. apply keeping_read. intros w Hw s. apply (hi_snapshot _ Hw). Qed.
Lemma keeps_snap_or_none id : keeps (snap_or_none fails id) (snap_ok id).
Proof.
  eapply keeping_bind; [apply keeping_try, keeps_snap_Get|]. intros [s|e] Hs; apply keeping_ret; [exact Hs|by intros ?].
Qed.
Lemma keeps_snap_Put s : sound s → keeps (snap_Put fails s) (λ _, True).
Proof.
  intros Hs. eapply keeping_bind; [apply keeping_call|]. intros _ _. apply keeping_set. intros w [Hr Hsn Hb]. constructor; simpl; [done| |done].
  intros id s' [[<- <-]|[_ ?]]%lookup_insert_Some; [done|by apply Hsn].
Qed.
Lemma keeps_snap_Delete id : keeps (snap_Delete fails id) (λ _, True).
Proof.
  eapply keeping_bind; [apply keeping_call|]. intros _ _. apply keeping_set. intros w [Hr Hsn Hb]. constructor; simpl; [done| |done].
  intros id' s [_ ?]%lookup_delete_Some. by apply Hsn.
Qed.
Lemma keeps_set_backend id b : reader_ok b → keeps (hub_set (λ w, set_backends (<[id := b]> (hw_backends w)) w)) (λ _, True).
Proof.
  intros Hok. apply keeping_set. intros w [Hr Hsn Hb]. constructor; simpl; [done..|]. intros id' b' [[<- <-]|[_ ?]]%lookup_insert_Some; [done|by eapply Hb].
Qed.
Lemma keeps_refreshSoon id : keeps (refreshSoon id) (λ _, True).
Proof. apply keeping_set. by intros w [? ? ?]. Qed.

Definition opened_ok (b : option Backend) : Prop := ∀ x, b = Some x → reader_ok x.
Lemma keeps_backendFor id : keeps (backendFor fails credentials reopener id) opened_ok.
Proof.
  eapply keeping_bind; [apply (keeping_read _ _ opened_ok); intros w Hw x; apply (hi_reader _ Hw)|]. intros [b|] Hb; [by apply keeping_ret|].
  unfold reopen. destruct (negb _); [by apply keeping_ret|]. eapply keeping_bind.
  - apply keeping_try. eapply keeping_bind; [apply keeps_store_Get|]. intros ws _. eapply keeping_bind; [apply keeping_call|]. intros _ _.
    eapply keeping_bind; [apply (keeping_read _ _ (λ _, True)); done|]. intros [cred|] _; [|apply keeping_fail]. destruct reopener as [open|] eqn:Hopen; [|apply keeping_fail].
    destruct (open ws cred) as [reader|why] eqn:Hr; [|apply keeping_fail]. eapply keeping_bind; [apply keeps_set_backend; by eapply reopens|].
    intros _ _. apply (keeping_ret _ _ reader_ok). by eapply reopens.
  - intros [x|e] Hx; apply keeping_ret; [by intros ? [= <-]|by intros ?].
Qed.
Lemma keeps_now : keeps (hub_read hw_now) (λ _, True).
Proof. by apply keeping_read. Qed.

Lemma keeps_Refresh id : keeps (Refresh fails credentials reopener id) (λ _, True).
Proof.
  eapply keeping_bind with (Q := sound).
  - eapply keeping_bind; [apply keeps_backendFor|]. intros [b|] Hb; [|apply keeping_fail]. eapply keeping_bind; [apply keeps_store_Get|]. intros ws _.
    destruct (bk_Accounts b) as [accounts|] eqn:Ha; [|apply keeping_fail]. destruct (bk_Groups b) as [groups|] eqn:Hg; [|apply keeping_fail].
    eapply keeping_bind; [apply keeps_now|]. intros now _. apply keeping_ret.
    apply (taken_spec id now accounts groups (ws_Serve ws) (ws_SyncGroups ws)). by apply (Hb b eq_refl).
  - intros s Hs. eapply keeping_bind; [by apply keeps_snap_Put|]. intros _ _. by apply keeping_ret.
Qed.
Lemma keeps_detached id : keeps (detached fails credentials reopener id) (λ _, True).
Proof. eapply keeping_bind; [apply keeping_try, keeps_Refresh|]. intros _ _. apply keeping_set. by intros w [? ? ?]. Qed.
Lemma keeps_ensureFresh id maxAge : keeps (ensureFresh fails credentials reopener id maxAge) (λ _, True).
Proof.
  eapply keeping_bind; [apply keeps_snap_or_none|]. intros snap Hsnap. eapply keeping_bind; [apply keeps_now|]. intros now _. destruct maxAge as [maxAge|].
  - destruct (match snap with Some s => _ | None => false end); [by apply keeping_ret|]. eapply keeping_bind; [apply keeping_try, keeps_Refresh|].
    intros [?|e] _; [|by apply keeping_ret]. eapply keeping_bind; [apply keeps_snap_or_none|]. intros fresh _. by apply keeping_ret.
  - destruct snap; [by apply keeping_ret|]. eapply keeping_bind; [apply keeps_refreshSoon|]. intros _ _. by apply keeping_ret.
Qed.

Lemma narrow_sound s serve : sound s → sound (narrow s serve).
Proof.
  intros Hs. unfold narrow. destruct serve as [|d serve]; [done|]. rewrite restrict_filters. by apply NewSnapshot_sound, whole_filter, sound_whole.
Qed.
Lemma narrowGroups_sound s sync : sound s → sound (narrowGroups s sync).
Proof.
  intros Hs. unfold narrowGroups. destruct sync as [|g sync]; [done|]. rewrite restrict_filters.
  rewrite <- (filter_all (keeps_account []) (in_order (sn_Accounts s))) by done. by apply NewSnapshot_sound, whole_filter, sound_whole.
Qed.

Lemma keeps_pointLive ws res email snap wantGroups : snap_ok (ws_ID ws) snap →
  keeps (pointLive fails credentials reopener ws res email snap wantGroups) (λ _, True).
Proof.
  intros Hsnap. eapply keeping_bind; [apply keeps_backendFor|]. intros [b|] Hb; [|by apply keeping_ret].
  destruct (bk_Account b email) as [[account|]|]; simpl; [|..|by apply keeping_ret].
  1: destruct (bk_GroupsOf b email) as [groups|] eqn:Hg; simpl; [|by apply keeping_ret].
  all: eapply keeping_bind with (Q := λ _, True); [|intros _ _; eapply keeping_bind; [apply keeps_now|intros now _; by apply keeping_ret]].
  all: destruct snap as [s|]; [|by apply keeping_ret].
  all: destruct (Hsnap s eq_refl) as [_ Hs]; eapply keeping_any, keeping_try, keeps_snap_Put, patched_sound; [exact Hs|].
  - by eapply (Hb b eq_refl).
  - constructor.
Qed.
Lemma keeps_hub_view : keeps (hub_view fails) (λ v, ∀ id ws, vw_workspaces v !! id = Some ws → record_ok id ws).
Proof.
  eapply keeping_bind; [apply keeps_store_List|]. intros l Hl. apply keeping_ret. intros id ws Hin. simpl in Hin.
  apply elem_of_list_to_map_2, list_elem_of_fmap in Hin as (ws'&[= -> ->]&Hin). by apply (proj1 (Forall_forall _ _) Hl).
Qed.
Lemma keeps_point v email maxAge wantGroups : keeps (point fails cfg credentials reopener v email maxAge wantGroups) (λ _, True).
Proof.
  unfold point. destruct (Domain email) as [domain|]; [|by apply keeping_ret]. destruct (vw_routing v !! domain) as [res|]; [|by apply keeping_ret].
  cbv zeta. eapply keeping_bind; [apply keeps_snap_or_none|]. intros snap Hsnap. eapply keeping_bind; [apply keeps_now|]. intros now _.
  destruct (needs_live _ _ _ _); [|by apply keeping_ret]. eapply keeping_bind; [by apply keeps_pointLive|]. intros live _. by apply keeping_ret.
Qed.
Lemma keeps_ResolveUser email maxAge : keeps (ResolveUser fails cfg credentials reopener email maxAge) (λ _, True).
Proof.
  unfold ResolveUser. destruct (Domain email); [|apply keeping_fail]. eapply keeping_bind; [apply keeps_hub_view|]. intros v _.
  eapply keeping_bind; [apply keeps_point|]. intros p _. by apply keeping_ret.
Qed.
Lemma keeps_Accounts emails maxAge : keeps (Hub_Accounts fails cfg credentials reopener emails maxAge) (λ _, True).
Proof.
  eapply keeping_bind; [apply keeps_hub_view|]. intros v _. apply (keeping_fold _ _ (λ _, True)); [by apply Forall_forall|]. intros s email _.
  destruct (Domain email); [|apply keeping_fail]. eapply keeping_bind; [apply keeps_point|]. intros p _. by apply keeping_ret.
Qed.
Lemma keeps_Group email maxAge : keeps (Hub_Group fails cfg credentials reopener email maxAge) (λ _, True).
Proof.
  unfold Hub_Group. destruct (Domain email) as [domain|]; [|apply keeping_fail]. eapply keeping_bind; [apply keeps_hub_view|]. intros v _.
  destruct (vw_routing v !! domain); [|by apply keeping_ret]. cbv zeta. eapply keeping_bind; [apply keeps_ensureFresh|]. intros snap _.
  eapply keeping_bind; [apply keeps_now|]. intros now _. by apply keeping_ret.
Qed.
Lemma keeps_ListGroups domain maxAge : keeps (ListGroups fails cfg credentials reopener domain maxAge) (λ _, True).
Proof.
  eapply keeping_bind; [apply keeps_hub_view|]. intros v _. cbv zeta. eapply keeping_bind.
  - apply (keeping_fold _ _ (λ _, True)); [by apply Forall_forall|]. intros snaps res _. destruct (snaps !! re_workspace res); [by apply keeping_ret|].
    eapply keeping_bind; [apply keeps_ensureFresh|]. intros snap _. by apply keeping_ret.
  - intros snaps _. eapply keeping_bind; [apply keeps_now|]. intros now _. by apply keeping_ret.
Qed.
Lemma keeps_probeOne cancelled ws : normal (ws_Domains ws) → normal (ws_Serve ws) → keeps (probeOne fails credentials reopener cancelled ws) (λ _, True).
Proof.
  intros Hd Hs. eapply keeping_bind; [apply keeps_now|]. intros now _. eapply keeping_bind; [apply keeps_backendFor|]. intros b _. cbv zeta.
  destruct cancelled; [by apply keeping_ret|]. eapply keeping_bind; [|intros _ _; by apply keeping_ret]. apply keeping_try, keeps_store_Put; [|done]. cbn [with_probe ws_Domains].
  destruct b as [b|]; [|done]. assert (∀ attempt more domains, probe_loop b attempt more = Ok domains → normal domains) as Hloop.
  { intros attempt more. revert attempt. induction more as [|more IH]; intros attempt domains; simpl; destruct (probe_attempt b attempt) as [[? ds]|[why detail]].
    - intros [= <-]. apply normaliseDomains_normal.
    - done.
    - intros [= <-]. apply normaliseDomains_normal.
    - destruct why; [done|apply IH|done]. }
  destruct (probe_loop b 1 (probeAttempts - 1)) as [domains|] eqn:Hp; [by eapply Hloop|done].
Qed.
Lemma keeps_Probe cancelled id : keeps (Probe fails credentials reopener cancelled id) (λ _, True).
Proof.
  eapply keeping_bind with (Q := Forall (λ ws, record_ok (ws_ID ws) ws)).
  - destruct (empty id); [apply keeps_store_List|]. eapply keeping_bind; [apply keeps_store_Get|]. intros ws (<-&?&?&?). apply keeping_ret. apply Forall_singleton. by split_and!.
  - intros l Hl. eapply keeping_fold; [exact Hl|]. intros out ws (_&_&Hd&Hs). eapply keeping_bind; [by apply keeps_probeOne|]. intros h _. by apply keeping_ret.
Qed.
Lemma keeps_Adopt ws b : reader_ok b → normal (ws_Domains ws) → keeps (Adopt fails credentials ws b) (λ _, True).
Proof.
  intros Hb Hd. unfold Adopt. destruct (adopt_id ws (bk_Tenant b 0)) as [id|e]; [|apply keeping_fail]. cbv zeta.
  eapply keeping_bind; [by apply keeps_set_backend|]. intros _ _. eapply keeping_bind with (Q := λ _ : bool, True).
  { unfold keep_credential. destruct (bk_Credential b); [|by apply keeping_ret]. destruct (_ && _); [|by apply keeping_ret].
    eapply keeping_bind; [apply keeping_call|]. intros _ _. eapply keeping_bind; [apply keeping_set; by intros w [? ? ?]|]. intros _ _. by apply keeping_ret. }
  intros saved _. eapply keeping_bind; [apply keeps_now|]. intros now _. cbn [ws_Domains].
  set (found := if saved then None else _). destruct (match found with None => _ | Some e => _ end) as [domains health] eqn:Hfound.
  assert (normal domains) as Hdom by (destruct found; simplify_eq; [done|apply normaliseDomains_normal]).
  eapply keeping_bind with (Q := λ ws', normal (ws_Domains ws') ∧ normal (ws_Serve ws')).
  - unfold keep_decisions. cbn [ws_Declared]. destruct (ws_Declared ws); [apply keeping_ret; split; [done|apply normaliseDomains_normal]|].
    eapply keeping_bind; [apply keeping_try, keeps_store_Get|]. cbn [ws_Serve ws_Domains ws_ID].
    intros [existing|e] Hex; apply keeping_ret; destruct (normaliseDomains (ws_Serve ws)) as [|d l] eqn:Hn; simpl; (split; [done|]).
    + apply Hex.
    + rewrite <- Hn. apply normaliseDomains_normal.
    + unfold defaultServe. simpl. destruct (Domain (ws_Admin ws)) as [d|] eqn:Hdm; [|apply normal_nil]. destruct (str_in _ _); [|apply normal_nil].
      apply Domain_lower in Hdm. split_and!; [repeat constructor|apply NoDup_singleton|by intros x ->%list_elem_of_singleton].
    + rewrite <- Hn. apply normaliseDomains_normal.
  - intros ws' [Hd' Hs']. eapply keeping_bind; [by apply keeps_store_Put|]. intros _ _. eapply keeping_bind; [apply keeps_refreshSoon|]. intros _ _.
    eapply keeping_any, keeps_store_Get.
Qed.
Lemma keeps_SetServed id domains : keeps (SetServed fails id domains) (λ _, True).
Proof.
  eapply keeping_bind; [apply keeps_store_Get|]. intros ws (_&_&Hd&_). destruct (ws_Declared ws); [apply keeping_fail|]. cbv zeta.
  destruct (List.find _ _); [apply keeping_fail|]. eapply keeping_bind; [apply keeps_store_Put; [done|apply normaliseDomains_normal]|]. intros _ _.
  eapply keeping_bind; [apply keeping_try, keeps_snap_Get|]. intros snap Hsnap. eapply keeping_bind with (Q := λ _, True).
  - destruct snap as [[s|]|]; [|by apply keeping_ret..]. eapply keeping_bind; [apply keeping_try, keeps_snap_Put, narrow_sound; by apply Hsnap|].
    intros [?|?] _; [by apply keeping_ret|]. eapply keeping_bind; [apply keeping_try, keeps_snap_Delete|]. intros _ _. by apply keeping_ret.
  - intros _ _. eapply keeping_bind; [apply keeps_refreshSoon|]. intros _ _. eapply keeping_any, keeps_store_Get.
Qed.
Lemma keeps_SetSynced id groups : keeps (SetSynced fails id groups) (λ _, True).
Proof.
  eapply keeping_bind; [apply keeps_store_Get|]. intros ws (_&_&Hd&Hs). destruct (ws_Declared ws); [apply keeping_fail|]. cbv zeta.
  eapply keeping_bind with (Q := λ _, True).
  { destruct (normaliseGroups groups) as [|g l]; [by apply keeping_ret|]. eapply keeping_bind; [apply keeping_try, keeps_snap_Get|]. intros [[s|]|] _; [|apply keeping_fail..].
    destruct (List.find _ _); [apply keeping_fail|by apply keeping_ret]. }
  intros _ _. eapply keeping_bind; [by apply keeps_store_Put|]. intros _ _. eapply keeping_bind; [apply keeping_try, keeps_snap_Get|]. intros snap Hsnap.
  eapply keeping_bind with (Q := λ _, True).
  - destruct snap as [[s|]|]; [|by apply keeping_ret..]. eapply keeping_bind; [apply keeping_try, keeps_snap_Put, narrowGroups_sound; by apply Hsnap|].
    intros _ _. by apply keeping_ret.
  - intros _ _. eapply keeping_bind; [apply keeps_refreshSoon|]. intros _ _. eapply keeping_any, keeps_store_Get.
Qed.
Lemma keeps_Disconnect id : keeps (Disconnect fails credentials reopener id) (λ _, True).
Proof.
  eapply keeping_bind; [apply keeps_store_Get|]. intros ws _. destruct (ws_Declared ws); [apply keeping_fail|].
  eapply keeping_bind; [apply keeps_backendFor|]. intros b _. eapply keeping_bind with (Q := λ _, True).
  { destruct b; [apply keeping_set; by intros w [? ? ?]|by apply keeping_ret]. }
  intros _ _. eapply keeping_bind; [apply keeping_try, keeps_snap_Delete|]. intros _ _. eapply keeping_bind with (Q := λ _, True).
  { destruct credentials; [|by apply keeping_ret]. eapply keeping_bind; [apply keeping_try; eapply keeping_bind; [apply keeping_call|]; intros _ _; apply keeping_set; by intros w [? ? ?]|].
    intros _ _. by apply keeping_ret. }
  intros _ _. eapply keeping_bind; [|intros _ _; apply keeps_store_Delete]. apply keeping_set. intros w [Hr Hsn Hbk]. constructor; simpl; [done..|].
  intros id' b' [_ ?]%lookup_delete_Some. by eapply Hbk.
Qed.
Lemma keeps_Attach id b : reader_ok b → keeps (Attach fails id b) (λ _, True).
Proof. intros Hb. eapply keeping_bind; [apply keeps_store_Get|]. intros _ _. by apply keeps_set_backend. Qed.
Lemma keeps_refreshOne lease id : keeps (refreshOne fails credentials reopener lease id) (λ _, True).
Proof.
  unfold refreshOne. destruct lease as [[[]|]|]; try (by apply keeping_ret); (eapply keeping_bind; [apply keeping_try, keeps_Refresh|]; intros ? _; by apply keeping_ret).
Qed.
End invariant.

(** ** Requests, in any order *)

(** What a replica is asked, in any order; a probe and a refresh that began before may end
    after any of them, with what they read then. *)
Inductive hub_request : Type :=
| RqUser email maxAge | RqAccounts (emails : list string) maxAge | RqGroup email maxAge | RqGroups domain maxAge
| RqRefresh id | RqDetached id | RqPass (lease : option (option bool)) id | RqStore (snap : Snapshot)
| RqProbe (cancelled : bool) id | RqProbeOne (cancelled : bool) (ws : Workspace)
| RqAttach id (b : Backend) | RqAdopt (ws : Workspace) (b : Backend)
| RqSetServed id (domains : list string) | RqSetSynced id (groups : list string) | RqDisconnect id | RqTick now.

Definition request_ok (r : hub_request) : Prop :=
  match r with
  | RqStore snap => sound snap
  | RqProbeOne _ ws => normal (ws_Domains ws) ∧ normal (ws_Serve ws)
  | RqAttach _ b => reader_ok b
  | RqAdopt ws b => reader_ok b ∧ normal (ws_Domains ws)
  | _ => True
  end.

Section requests.
Context (cfg : Config) (credentials : bool) (reopener : option (Workspace → Credential → result string Backend)).

(** A request, and which of the calls it makes fail. *)
Definition attempt : Type := (hub_call → option string) * hub_request.

Definition perform (w : HubWorld) (x : attempt) : HubWorld :=
  let '(fails, r) := x in
  match r with
  | RqUser email maxAge => (ResolveUser fails cfg credentials reopener email maxAge w).2
  | RqAccounts emails maxAge => (Hub_Accounts fails cfg credentials reopener emails maxAge w).2
  | RqGroup email maxAge => (Hub_Group fails cfg credentials reopener email maxAge w).2
  | RqGroups domain maxAge => (ListGroups fails cfg credentials reopener domain maxAge w).2
  | RqRefresh id => (Refresh fails credentials reopener id w).2
  | RqDetached id => (detached fails credentials reopener id w).2
  | RqPass lease id => (refreshOne fails credentials reopener lease id w).2
  | RqStore snap => (snap_Put fails snap w).2
  | RqProbe cancelled id => (Probe fails credentials reopener cancelled id w).2
  | RqProbeOne cancelled ws => (probeOne fails credentials reopener cancelled ws w).2
  | RqAttach id b => (Attach fails id b w).2
  | RqAdopt ws b => (Adopt fails credentials ws b w).2
  | RqSetServed id domains => (SetServed fails id domains w).2
  | RqSetSynced id groups => (SetSynced fails id groups w).2
  | RqDisconnect id => (Disconnect fails credentials reopener id w).2
  | RqTick now => mkHubWorld (hw_workspaces w) (hw_snapshots w) (hw_credentials w) (hw_backends w) (hw_refreshing w) (hw_revoked w) now
  end.

Definition fresh_hub now : HubWorld := mkHubWorld ∅ ∅ ∅ ∅ ∅ [] now.

Lemma fresh_hub_inv now : hub_inv (fresh_hub now).
Proof. by constructor. Qed.

(** C37: Whatever a hub is asked, in any order, and whichever calls fail on the way, others at
    each request: every record stays filed under its id with its domains in order, every
    snapshot under its workspace, and the index of each is that of its memberships. *)
Theorem hub_inv_kept now (rs : list attempt) :
  (∀ open ws cred b, reopener = Some open → open ws cred = Ok b → reader_ok b) → Forall (λ x, request_ok x.2) rs →
  hub_inv (foldl perform (fresh_hub now) rs).
Proof.
  intros Hopen Hrs. generalize (fresh_hub_inv now). generalize (fresh_hub now).
  induction Hrs as [|[fails r] rs Hr Hrs IH]; intros w Hw; [done|]. cbn [foldl]. apply IH.
  destruct r; cbn [perform request_ok snd] in *.
  - by apply keeps_ResolveUser.
  - by apply keeps_Accounts.
  - by apply keeps_Group.
  - by apply keeps_ListGroups.
  - by apply keeps_Refresh.
  - by apply keeps_detached.
  - by apply keeps_refreshOne.
  - by apply keeps_snap_Put.
  - by apply keeps_Probe.
  - destruct Hr. by apply keeps_probeOne.
  - by apply keeps_Attach.
  - destruct Hr. by apply keeps_Adopt.
  - by apply keeps_SetServed.
  - by apply keeps_SetSynced.
  - by apply keeps_Disconnect.
  - destruct Hw as [? ? ?]. by constructor.
Qed.
End requests.

(** ** Whose a domain is *)

Definition claimants (l : list Workspace) domain : list string := ws_ID <$> List.filter (λ ws, str_in domain (Served ws)) l.

Lemma claim_domains_lookup id claims ds domain : NoDup ds →
  foldl (claim_domain id) claims ds !! domain = if str_in domain ds then Some (default [] (claims !! domain) ++ [id]) else claims !! domain.
Proof.
  revert claims. induction ds as [|d ds IH]; intros claims Hnd; [done|]. apply NoDup_cons in Hnd as [Hd Hnd]. cbn [foldl]. rewrite IH by done.
  unfold claim_domain, str_in. destruct (decide (domain = d)) as [->|Hne].
  - rewrite (bool_decide_false (d ∈ ds)), (bool_decide_true (d ∈ d :: ds)) by (done || by left). by rewrite lookup_insert_eq.
  - assert (bool_decide (domain ∈ d :: ds) = bool_decide (domain ∈ ds)) as -> by (apply bool_decide_ext; rewrite elem_of_cons; naive_solver).
    by rewrite lookup_insert_ne.
Qed.

Lemma claims_lookup l : (∀ ws, ws ∈ l → NoDup (Served ws)) → NoDup (ws_ID <$> l) → let s := foldl claim_workspace (∅, ∅) l in
  (∀ domain, s.1 !! domain = match claimants l domain with [] => None | ids => Some ids end) ∧
  (∀ ws, ws ∈ l → s.2 !! ws_ID ws = Some (ws_Declared ws)).
Proof.
  induction l as [|ws l IH] using rev_ind; intros Hserved Hnd; [split; [done|by intros ? ?%elem_of_nil]|].
  cbn zeta in *. rewrite foldl_snoc. rewrite fmap_app in Hnd. apply NoDup_app in Hnd as (Hl&Hd&_).
  destruct IH as [IH1 IH2]; [intros; apply Hserved; by apply elem_of_app; left|done|]. set (s := foldl claim_workspace (∅, ∅) l) in *. unfold claim_workspace. cbn [fst snd].
  assert (NoDup (Served ws)) as Hs by (apply Hserved, elem_of_app; right; by left). split.
  - intros domain. rewrite claim_domains_lookup by done. unfold claimants. rewrite IH1, List.filter_app, fmap_app. cbn [List.filter].
    destruct (str_in domain (Served ws)); cbn [fmap list_fmap]; [|by rewrite app_nil_r]. fold (claimants l domain). by destruct (claimants l domain).
  - intros ws' [Hin|Hin]%elem_of_app.
    + rewrite lookup_insert_ne; [by apply IH2|]. intros Heq. apply (Hd (ws_ID ws')); [by apply list_elem_of_fmap_2|]. rewrite <- Heq. by left.
    + apply list_elem_of_singleton in Hin as ->. by rewrite lookup_insert_eq.
Qed.

Lemma elem_of_claimants l domain id : id ∈ claimants l domain ↔ ∃ ws, ws ∈ l ∧ ws_ID ws = id ∧ domain ∈ Served ws.
Proof.
  unfold claimants. rewrite list_elem_of_fmap. split.
  - intros (ws&->&[Hin Hd]%elem_of_filter_bool). exists ws. by apply str_in_true in Hd.
  - intros (ws&Hin&<-&Hd). exists ws. split; [done|]. apply elem_of_filter_bool. split; [done|by apply str_in_true].
Qed.

(** A domain is routed where some workspace serves it, to one that does.  It is in conflict
    exactly where several do and none is the only one the deployment declared, and then goes
    to the first of them by id, to be trusted for neither. *)
Theorem routingOf_settles (l : list Workspace) domain : NoDup (ws_ID <$> l) → (∀ ws, ws ∈ l → NoDup (Served ws)) →
  match routingOf l !! domain with
  | None => ∀ ws, ws ∈ l → domain ∉ Served ws
  | Some res => ∃ ws, ws ∈ l ∧ ws_ID ws = re_workspace res ∧ domain ∈ Served ws ∧
      (re_conflict res = false ↔
         (∀ other, other ∈ l → domain ∈ Served other → other = ws) ∨
         ws_Declared ws = true ∧ ∀ other, other ∈ l → domain ∈ Served other → ws_Declared other = true → other = ws) ∧
      (re_conflict res = true → ∀ other, other ∈ l → domain ∈ Served other → String.le (ws_ID ws) (ws_ID other))
  end.
Proof.
  intros Hnd Hserved. destruct (claims_lookup l Hserved Hnd) as [Hc Hdecl]. unfold routingOf. destruct (foldl claim_workspace (∅, ∅) l) as [claims declared]. simpl in *.
  assert (∀ ws ws', ws ∈ l → ws' ∈ l → ws_ID ws = ws_ID ws' → ws = ws') as Hid by (intros; by eapply (NoDup_fmap_unique ws_ID)).
  rewrite lookup_omap, Hc. pose proof (elem_of_claimants l domain) as Hel.
  destruct (claimants l domain) as [|i0 is_] eqn:Hcl.
  { simpl. intros ws Hin Hd. apply (not_elem_of_nil (ws_ID ws)), Hel. by exists ws. }
  simpl. unfold settle. set (ids := i0 :: is_) in *.
  assert (NoDup (sort_strings ids)) as Hndi.
  { apply NoDup_sort_strings. rewrite <- Hcl. by apply NoDup_fmap_filter. }
  assert (∀ id, id ∈ sort_strings ids ↔ ∃ ws, ws ∈ l ∧ ws_ID ws = id ∧ domain ∈ Served ws) as Hel' by (intros id; by rewrite elem_of_sort_strings).
  pose proof (sort_strings_sorted ids) as Hsorted. pose proof (sort_strings_Permutation ids) as Hp.
  destruct (sort_strings ids) as [|first [|second rest]] eqn:Hsort; [by apply Permutation_nil in Hp|..].
  - destruct (proj1 (Hel' first)) as (ws&Hin&Heq&Hd); [by left|]. exists ws. simpl. split_and!; [done..| |done]. split; [|done]. intros _. left. intros other Ho Hdo.
    apply Hid; [done..|]. rewrite Heq. apply list_elem_of_singleton. apply Hel'. eauto.
  - set (all := first :: second :: rest) in *.
    assert (∀ id, id ∈ List.filter (λ id, default false (declared !! id)) all ↔ ∃ ws, ws ∈ l ∧ ws_ID ws = id ∧ domain ∈ Served ws ∧ ws_Declared ws = true) as Hdec.
    { intros id. rewrite elem_of_filter_bool, Hel'. split.
      - intros [(ws&Hin&<-&Hd) Hb]. rewrite (Hdecl ws Hin) in Hb. simpl in Hb. eauto.
      - intros (ws&Hin&<-&Hd&Hb). rewrite (Hdecl ws Hin). simpl. eauto. }
    assert (first ≠ second) as Hne by (apply NoDup_cons in Hndi as [Hf _]; intros ->; apply Hf; by left).
    destruct (proj1 (Hel' first)) as (ws1&Hin1&Heq1&Hd1); [by left|]. destruct (proj1 (Hel' second)) as (ws2&Hin2&Heq2&Hd2); [right; by left|].
    assert (∀ other, other ∈ l → domain ∈ Served other → String.le (ws_ID ws1) (ws_ID other)) as Hle.
    { intros other Ho Hdo. rewrite Heq1. apply StronglySorted_inv in Hsorted as [_ Hle]. rewrite Forall_forall in Hle.
      assert (ws_ID other ∈ all) as [->|Hin']%elem_of_cons by (apply Hel'; eauto); [done|by apply Hle]. }
    assert (¬ ∀ other, other ∈ l → domain ∈ Served other → other = ws1) as Hmany by (intros Hone; rewrite (Hone ws2 Hin2 Hd2) in Heq2; congruence).
    destruct (List.filter _ all) as [|id [|id2 more]] eqn:Hf.
    + exists ws1. simpl. split_and!; [done..| |done]. split; [done|]. intros [Hone|[Hb _]]; [done|]. destruct (not_elem_of_nil (ws_ID ws1)). apply Hdec. eauto.
    + destruct (proj1 (Hdec id)) as (ws&Hin&Heq&Hd&Hb); [by left|]. exists ws. simpl. split_and!; [done..| |done]. split; [|done]. intros _. right. split; [done|].
      intros other Ho Hdo Hbo. apply Hid; [done..|]. rewrite Heq. apply list_elem_of_singleton. apply Hdec. eauto.
    + exists ws1. simpl. split_and!; [done..| |done]. split; [done|]. intros [Hone|[Hb Hone]]; [done|].
      assert (NoDup (id :: id2 :: more)) as [Hn _]%NoDup_cons by (rewrite <- Hf; apply NoDup_ListNoDup, List.NoDup_filter, NoDup_ListNoDup, Hndi).
      assert (∀ x, x ∈ id :: id2 :: more → x = ws_ID ws1) as Hall by (intros x (ws'&Hin'&<-&Hd'&Hb')%Hdec; by rewrite (Hone ws' Hin' Hd' Hb')).
      exfalso. apply Hn. rewrite (Hall id) by (by left). rewrite <- (Hall id2) by (right; by left). by left.
Qed.

(** ** Answers that may be acted on *)

Section answers.
Context (fails : hub_call → option string) (cfg : Config) (credentials : bool) (reopener : option (Workspace → Credential → result string Backend)).

Lemma hub_run_bind {A B} (m : Hub A) (k : A → Hub B) w r w' : m w = (r, w') → (m ≫= k) w = match r with Ok a => k a w' | Err e => (Err e, w') end.
Proof. intros H. unfold mbind, Hub_bind. rewrite H. by destruct r. Qed.
Lemma snap_or_none_run id w : snap_or_none fails id w = (Ok (snap_of fails w id), w).
Proof. unfold snap_or_none, snap_Get, snap_of, call, mbind, Hub_bind, hub_try. simpl. by destruct (fails (SnapGet id)). Qed.
Lemma hub_view_run w : (hub_view fails w).2 = w.
Proof. unfold hub_view, store_List, call, mbind, Hub_bind. by destruct (fails StoreList). Qed.

(** What a live read answers, and what it changes: the reader's table and the snapshot. *)
Lemma pointLive_run ws res email snap wantGroups w :
  ((pointLive fails credentials reopener ws res email snap wantGroups) w).1 =
    Ok (match (backendFor fails credentials reopener (ws_ID ws) w).1 with
        | Ok (Some b) =>
            match bk_Account b email with
            | Ok (Some account) =>
                match bk_GroupsOf b email with
                | Ok groups => Some (mkPointResult true true account (if wantGroups then groups else [])
                                       (negb (re_conflict res) && he_OK (ws_Health ws)) (Some (hw_now w)))
                | Err _ => None
                end
            | Ok None => Some (mkPointResult true false no_account [] (negb (re_conflict res) && he_OK (ws_Health ws)) (Some (hw_now w)))
            | Err _ => None
            end
        | _ => None
        end).
Proof.
  unfold pointLive, mbind, Hub_bind at 1.
  assert (∃ b w1, backendFor fails credentials reopener (ws_ID ws) w = (Ok b, w1) ∧ hw_now w1 = hw_now w) as (b&w1&Hb&Hnow).
  { unfold backendFor, reopen, open_reader, store_Get, call, mbind, Hub_bind, hub_try, hub_read, hub_set, hub_fail, mret, Hub_ret.
    destruct (hw_backends w !! ws_ID ws); [eauto|]. destruct (negb _); [eauto|]. destruct (fails (StoreGet _)); [eauto|].
    destruct (hw_workspaces w !! ws_ID ws); [|eauto]. destruct (fails (CredLoad _)); [eauto|]. destruct (hw_credentials w !! ws_ID ws), reopener as [open|]; eauto.
    destruct (open _ _); eauto. }
  rewrite Hb. cbn [fst]. destruct b as [b|]; [|done].
  assert (∀ account groups (k : Z → pointResult), ((_ ← match snap with Some s => hub_try (snap_Put fails (patchAccount s email account groups)) | None => mret (Ok tt) end;
    now ← hub_read hw_now; mret (Some (k now)) : Hub (option pointResult)) w1).1 = Ok (Some (k (hw_now w)))) as Hrest.
  { intros account groups k. unfold mbind, Hub_bind, hub_try, snap_Put, call, hub_set, hub_read. destruct snap as [s|]; [|simpl; by rewrite Hnow].
    cbn [sn_Workspace]. destruct (fails _); simpl; by rewrite Hnow. }
  destruct (bk_Account b email) as [[account|]|]; [|..|done]; simpl.
  - destruct (bk_GroupsOf b email) as [groups|]; simpl; [|done]. apply (Hrest (Some account) groups (λ now, mkPointResult _ _ _ _ _ (Some now))).
  - destruct wantGroups; apply (Hrest None [] (λ now, mkPointResult _ _ _ _ _ (Some now))).
Qed.

(** An answer about a person that may be acted on comes from the one workspace that serves
    their domain, undisputed and with a credential that works; and either its directory was
    asked just now, or a snapshot inside the freshness window, no older than asked for,
    says it.  In particular nobody is reported gone by an authoritative answer unless their
    directory was asked just now and said so, or the address is known to be a group. *)
Theorem ResolveUser_authoritative email maxAge w (u : UserResult) :
  (ResolveUser fails cfg credentials reopener email maxAge w).1 = Ok u → us_Authoritative u = true →
  let lower := ToLower (TrimSpace email) in
  ∃ domain v res ws, Domain email = Some domain ∧ (hub_view fails w).1 = Ok v ∧ vw_routing v !! domain = Some res ∧ re_conflict res = false ∧
    us_Workspace u = re_workspace res ∧ vw_workspaces v !! re_workspace res = Some ws ∧ he_OK (ws_Health ws) = true ∧
    ((∃ b account, (backendFor fails credentials reopener (ws_ID ws) w).1 = Ok (Some b) ∧ us_SnapshotAt u = Some (hw_now w) ∧ bk_Account b lower = Ok account ∧
        match account with
        | Some a => us_Found u = true ∧ us_Suspended u = negb (da_Live a) ∧ bk_GroupsOf b lower = Ok (us_Groups u)
        | None => us_Found u = false ∧ us_Suspended u = false ∧ us_Groups u = []
        end) ∨
     (∃ s, snap_of fails w (ws_ID ws) = Some s ∧ us_SnapshotAt u = Some (sn_TakenAt s) ∧ (Age s (hw_now w) < cg_FreshnessWindow cfg)%Z ∧
        (∀ limit, maxAge = Some limit → Age s (hw_now w) <= limit)%Z ∧
        match sn_Accounts s !! lower with
        | Some a => us_Found u = true ∧ us_Suspended u = negb (da_Live a) ∧ us_Groups u = GroupsOf s lower
        | None => us_Found u = false ∧ us_Suspended u = false ∧ us_Groups u = [] ∧ isGroup s lower = true
        end)).
Proof.
  intros Hu Hauth lower. unfold ResolveUser in Hu. destruct (Domain email) as [domain|] eqn:Hd; [|done].
  destruct (hub_view fails w) as [[v|e] w0] eqn:Hv; [|by rewrite (hub_run_bind _ _ _ _ _ Hv) in Hu]. pose proof (hub_view_run w) as Hw0. rewrite Hv in Hw0. simpl in Hw0. subst w0.
  rewrite (hub_run_bind _ _ _ _ _ Hv) in Hu. exists domain, v. unfold point in Hu. rewrite Hd in Hu. fold lower in Hu.
  destruct (vw_routing v !! domain) as [res|] eqn:Hres; [|injection Hu as <-; done]. cbv zeta in Hu.
  set (ws := default no_workspace (vw_workspaces v !! re_workspace res)) in Hu.
  assert (∀ p, us_Authoritative u = pt_authoritative p → pt_authoritative p = negb (re_conflict res) && he_OK (ws_Health ws) → re_conflict res = false ∧ vw_workspaces v !! re_workspace res = Some ws ∧ he_OK (ws_Health ws) = true) as Hws.
  { intros p Hp Hpa. rewrite Hauth, Hpa in Hp. symmetry in Hp. apply andb_true_iff in Hp as [Hc Hok]. apply negb_true_iff in Hc. split_and!; [done| |done].
    subst ws. destruct (vw_workspaces v !! re_workspace res); [done|by simpl in Hok]. }
  unfold mbind at 1, Hub_bind at 1 in Hu. unfold mbind at 1, Hub_bind at 1 in Hu. rewrite snap_or_none_run in Hu. unfold mbind at 1, Hub_bind at 1, hub_read at 1 in Hu.
  set (snap := snap_of fails w (ws_ID ws)) in *. destruct (needs_live snap lower maxAge (hw_now w)) eqn:Hlive.
  - unfold mbind at 1, Hub_bind at 1 in Hu. pose proof (pointLive_run ws res lower snap true w) as Hpl. destruct (pointLive _ _ _ _ _ _ _ _ w) as [r w1]. simpl in Hpl. subst r.
    assert (∀ x, us_Authoritative u = pt_authoritative (point_stored snap lower true false) → x) as Hstale.
    { intros x Hx. rewrite Hauth in Hx. unfold point_stored in Hx. by destruct snap. }
    destruct (backendFor _ _ _ _ w) as [[[b|]|e] wb] eqn:Hb; cbn [fst] in Hu; [|simpl in Hu; injection Hu as <-; by apply Hstale..].
    destruct (bk_Account b lower) as [[a|]|e] eqn:Hacc; [| |simpl in Hu; injection Hu as <-; by apply Hstale].
    + destruct (bk_GroupsOf b lower) as [groups|e] eqn:Hg; simpl in Hu; [|injection Hu as <-; by apply Hstale].
      injection Hu as <-. destruct (Hws (mkPointResult true true a groups (negb (re_conflict res) && he_OK (ws_Health ws)) None)) as (Hc&Hin&Hok); [done..|].
      exists res, ws. split_and!; try done. left. exists b, (Some a). rewrite Hb. done.
    + simpl in Hu. injection Hu as <-. destruct (Hws (mkPointResult true false no_account [] (negb (re_conflict res) && he_OK (ws_Health ws)) None)) as (Hc&Hin&Hok); [done..|].
      exists res, ws. split_and!; try done. left. exists b, None. rewrite Hb. done.
  - simpl in Hu. injection Hu as <-. simpl in Hauth. destruct snap as [s|] eqn:Hs; [|done]. simpl in Hauth. unfold authoritative in Hauth.
    destruct (re_conflict res || negb (he_OK (ws_Health ws))) eqn:Hbad; [done|]. apply orb_false_iff in Hbad as [Hc Hok]. apply negb_false_iff in Hok.
    exists res, ws. split_and!; try done. { subst ws. destruct (vw_workspaces v !! re_workspace res); [done|by simpl in Hok]. }
    right. exists s. simpl in Hlive. destruct (match maxAge with Some maxAge => _ | None => false end) eqn:Hage; [done|].
    split; [done|]. split; [done|]. split; [lia|]. split; [intros limit ->; lia|].
    case_bool_decide as Hin; simpl.
    + destruct Hin as [a Ha]. rewrite Ha. simpl. by split_and!.
    + destruct (sn_Accounts s !! lower) eqn:Ha; [destruct Hin; by eexists|]. simpl. split_and!; [done..|]. by destruct (isGroup s lower).
Qed.

(** An address whose domain is routed is in a domain served. *)
Lemma routed_in_domain email maxAge w (u : UserResult) domain v res : (ResolveUser fails cfg credentials reopener email maxAge w).1 = Ok u →
  Domain email = Some domain → (hub_view fails w).1 = Ok v → vw_routing v !! domain = Some res → us_InDomain u = true.
Proof.
  intros Hu Hd Hv Hres. unfold ResolveUser in Hu. rewrite Hd in Hu. destruct (hub_view fails w) as [r w0] eqn:Hview. simpl in Hv. subst r.
  rewrite (hub_run_bind _ _ _ _ _ Hview) in Hu. unfold point in Hu. rewrite Hd, Hres in Hu. cbv zeta in Hu.
  set (ws := default no_workspace _) in Hu. unfold mbind at 1, Hub_bind at 1 in Hu. unfold mbind at 1, Hub_bind at 1 in Hu.
  rewrite snap_or_none_run in Hu. unfold mbind at 1, Hub_bind at 1, hub_read at 1 in Hu. set (snap := snap_of fails w0 (ws_ID ws)) in *.
  assert (∀ a, pt_inDomain (point_stored snap (ToLower (TrimSpace email)) true a) = true) as Hst by (intros; unfold point_stored; by destruct snap).
  destruct (needs_live _ _ _ _); [|injection Hu as <-; apply Hst]. unfold mbind at 1, Hub_bind at 1 in Hu.
  pose proof (pointLive_run ws res (ToLower (TrimSpace email)) snap true w0) as Hpl. destruct (pointLive _ _ _ _ _ _ _ _ w0) as [r w1]. simpl in Hpl. subst r.
  destruct (backendFor _ _ _ _ w0) as [[[b|]|e] wb]; cbn [fst] in Hu; [|injection Hu as <-; apply Hst..].
  destruct (bk_Account b _) as [[a|]|e]; [destruct (bk_GroupsOf b _) as [groups|e]|..]; injection Hu as <-; (apply Hst || done).
Qed.

(** The reason shown for a domain is missing exactly where its answers may be acted on. *)
Theorem reasonFor_authoritative ws res (snap : option Snapshot) now :
  authoritative cfg ws res snap now = bool_decide (reasonFor cfg ws res snap now = ReasonNone).
Proof.
  unfold authoritative, reasonFor. destruct snap as [s|]; destruct (re_conflict res), (he_OK (ws_Health ws)); simpl; try done.
  destruct (Z.ltb_spec (Age s now) (cg_FreshnessWindow cfg)), (Z.leb_spec (cg_FreshnessWindow cfg) (Age s now)); done || lia.
Qed.
End answers.

(** ** Groups within groups *)

Section expansion.
Context (find : string → option (list string)) (maxDepth maxNested : Z) (root : string) (members : list string).

(** The addresses a list of members reaches, through the groups among them. *)
Inductive reaches : string → Prop :=
| reach_member m : m ∈ members → reaches (ToLower m)
| reach_nested g ms m : reaches g → find g = Some ms → m ∈ ms → reaches (ToLower m).

(** A member is accounted for: a person listed, or a group visited, unless the expansion was cut. *)
Definition settled (x : expansion) (m : string) : Prop :=
  match find (ToLower m) with None => ToLower m ∈ xp_people x | Some _ => ToLower m ∈ xp_visited x ∨ xp_truncated x = true end.

Definition grows (x y : expansion) : Prop :=
  xp_people x ⊆ xp_people y ∧ xp_visited x ⊆ xp_visited y ∧ (xp_truncated x = true → xp_truncated y = true) ∧
  ∃ more, xp_queue y = xp_queue x ++ more ∧ length more + size (xp_visited x) = size (xp_visited y).
Lemma grows_refl x : grows x x.
Proof. split_and!; [done..|]. exists []. by rewrite app_nil_r. Qed.
Lemma grows_trans x y z : grows x y → grows y z → grows x z.
Proof.
  intros (?&?&?&m1&Hq1&Hs1) (?&?&?&m2&Hq2&Hs2). split_and!; [set_solver..|auto|]. exists (m1 ++ m2). rewrite Hq2, Hq1, length_app, <- app_assoc. split; [done|lia].
Qed.
Lemma settled_grows x y m : grows x y → settled x m → settled y m.
Proof. intros (?&?&?&_). unfold settled. destruct (find _); set_solver. Qed.

(** What is listed is reached; what was visited is on the queue, or in hand, or accounted for. *)
Record expanding (hand : list string) (x : expansion) : Prop := {
  ex_people : ∀ p, p ∈ xp_people x → reaches p ∧ find p = None;
  ex_visited : ∀ g, g ∈ xp_visited x → (g = root ∨ reaches g) ∧
    ∃ ms, find g = Some ms ∧ (ms = hand ∨ (∃ depth, (ms, depth) ∈ xp_queue x) ∨ Forall (settled x) ms);
  ex_queue : ∀ ms depth, (ms, depth) ∈ xp_queue x → ms = members ∨ ∃ g, reaches g ∧ find g = Some ms;
  ex_nested : xp_visited x = list_to_set (root :: xp_nested x) ∧ NoDup (root :: xp_nested x);
  ex_size : size (xp_visited x) ≤ S (Z.to_nat maxNested) }.

Lemma expand_member_step hand depth x m : expanding hand x → reaches (ToLower m) →
  let y := expand_member find maxDepth maxNested depth x m in expanding hand y ∧ grows x y ∧ settled y m.
Proof.
  intros Hx Hm. cbn zeta. unfold expand_member. destruct (find (ToLower m)) as [ms|] eqn:Hf.
  2: { assert (grows x (mkExpansion ({[ToLower m]} ∪ xp_people x) (xp_visited x) (xp_nested x) (xp_truncated x) (xp_queue x))) as Hg.
       { split_and!; [set_solver|done|done|]. exists []. by rewrite app_nil_r. }
       split; [|split; [exact Hg|]]. 2: { unfold settled. rewrite Hf. simpl. set_solver. }
       destruct Hx as [Hp Hv Hq Hn Hs]. constructor; simpl; [|..|done|done|done].
       - intros p [->%elem_of_singleton|Hin]%elem_of_union; [done|by apply Hp].
       - intros g Hg'. destruct (Hv g Hg') as (?&ms&?&[?|[?|Hset]]); (split; [done|]); exists ms; (split; [done|]); [by left|by right; left|right; right].
         eapply Forall_impl; [exact Hset|]. intros. by eapply settled_grows. }
  case_bool_decide as Hin. { split; [done|]. split; [apply grows_refl|]. unfold settled. rewrite Hf. by left. }
  destruct (_ || _) eqn:Hcut.
  - assert (grows x (mkExpansion (xp_people x) (xp_visited x) (xp_nested x) true (xp_queue x))) as Hg.
    { split_and!; [done..|]. exists []. by rewrite app_nil_r. }
    split; [|split; [exact Hg|]]. 2: { unfold settled. rewrite Hf. by right. }
    destruct Hx as [Hp Hv Hq Hn Hs]. constructor; simpl; [done| |done..]. intros g Hg'.
    destruct (Hv g Hg') as (?&ms'&?&[?|[?|Hset]]); (split; [done|]); exists ms'; (split; [done|]); [by left|by right; left|right; right].
    eapply Forall_impl; [exact Hset|]. intros. by eapply settled_grows.
  - apply orb_false_iff in Hcut as [_ Hroom]. apply Z.ltb_ge in Hroom.
    set (y := mkExpansion _ _ _ _ _). assert (grows x y) as Hg.
    { split_and!; simpl; [done|set_solver|done|]. exists [(ms, S depth)]. split; [done|]. rewrite size_union by set_solver. rewrite size_singleton. cbn [length]. lia. }
    split; [|split; [exact Hg|]]. 2: { unfold settled. rewrite Hf. left. simpl. set_solver. }
    destruct Hx as [Hp Hv Hq Hn Hs]. constructor; simpl; [done|..].
    + intros g [->%elem_of_singleton|Hg']%elem_of_union.
      { split; [by right|]. exists ms. split; [done|]. right. left. exists (S depth). apply elem_of_app. right. by left. }
      destruct (Hv g Hg') as (?&ms'&?&[?|[[d ?]|Hset]]); (split; [done|]); exists ms'; (split; [done|]); [by left|right; left|right; right].
      * exists d. apply elem_of_app. by left.
      * eapply Forall_impl; [exact Hset|]. intros. by eapply settled_grows.
    + intros ms' d [Hq'|Hq']%elem_of_app; [by eapply Hq|]. apply list_elem_of_singleton in Hq' as [= -> ->]. right. eauto.
    + destruct Hn as [Hn Hnd]. rewrite Hn in Hin. apply not_elem_of_list_to_set in Hin. split; [rewrite Hn; cbn [xp_nested]; change (root :: xp_nested x ++ [ToLower m]) with ((root :: xp_nested x) ++ [ToLower m]); rewrite list_to_set_app_L; set_solver|].
      change (NoDup ((root :: xp_nested x) ++ [ToLower m])). apply NoDup_app. split; [done|]. split; [set_solver|apply NoDup_singleton].
    + rewrite size_union by set_solver. rewrite size_singleton. lia.
Qed.

Lemma expand_members_step hand depth x l : expanding hand x → (∀ m, m ∈ l → reaches (ToLower m)) →
  let y := foldl (expand_member find maxDepth maxNested depth) x l in expanding hand y ∧ grows x y ∧ Forall (settled y) l.
Proof.
  cbn zeta. revert x. induction l as [|m l IH]; intros x Hx Hl; [split; [done|]; split; [apply grows_refl|done]|]. cbn [foldl].
  destruct (expand_member_step hand depth x m Hx) as (Hy&Hg&Hm); [apply Hl; by left|]. destruct (IH _ Hy) as (Hz&Hg2&Hall); [intros; apply Hl; by right|].
  split; [done|]. split; [by eapply grows_trans|]. constructor; [by eapply settled_grows|done].
Qed.

(** Enough fuel empties the queue. *)
Lemma expand_ends fuel x hand : expanding hand x → (∀ ms, ms = hand → Forall (settled x) ms) →
  length (xp_queue x) + (S (Z.to_nat maxNested) - size (xp_visited x)) < fuel →
  let y := expand find maxDepth maxNested fuel x in
  xp_queue y = [] ∧ (∀ p, p ∈ xp_people y → reaches p ∧ find p = None) ∧ (xp_visited y = list_to_set (root :: xp_nested y) ∧ NoDup (root :: xp_nested y)) ∧
  (∀ g, g ∈ xp_visited y → (g = root ∨ reaches g) ∧ ∃ ms, find g = Some ms ∧ Forall (settled y) ms) ∧ xp_visited x ⊆ xp_visited y ∧
  size (xp_visited y) ≤ S (Z.to_nat maxNested).
Proof.
  cbn zeta. revert x hand. induction fuel as [|fuel IH]; intros x hand Hx Hhand Hfuel; [lia|]. cbn [expand]. destruct (xp_queue x) as [|[ms depth] queue] eqn:Hq.
  - destruct Hx as [Hp Hv _ [Hn Hnd] Hs]. split_and!; try done. intros g Hg. destruct (Hv g Hg) as (?&ms&?&[Heq|[[d Hd]|?]]); (split; [done|]); exists ms; (split; [done|]); [by apply Hhand| |done].
    rewrite Hq in Hd. by apply elem_of_nil in Hd.
  - set (x1 := mkExpansion (xp_people x) (xp_visited x) (xp_nested x) (xp_truncated x) queue).
    assert (expanding ms x1) as Hx1.
    { destruct Hx as [Hp Hv Hqu Hn Hs]. constructor; simpl; try done.
      - intros g Hg. destruct (Hv g Hg) as (?&ms'&?&[Heq|[[d Hd]|Hset]]); (split; [done|]); exists ms'; (split; [done|]).
        + right. right. by apply Hhand.
        + rewrite Hq in Hd. apply elem_of_cons in Hd as [[= -> ->]|Hd]; [by left|right; left; eauto].
        + right. right. exact Hset.
      - intros ms' d Hd. apply (Hqu ms' d). rewrite Hq. by right. }
    assert (∀ m, m ∈ ms → reaches (ToLower m)) as Hms.
    { intros m Hm. destruct (ex_queue _ _ Hx ms depth) as [Heq|(g&Hg&Hf)]; [rewrite Hq; by left| |by eapply reach_nested].
      rewrite Heq in Hm. by constructor. }
    destruct (expand_members_step ms depth x1 ms Hx1 Hms) as (Hy&(_&Hsub&_&more&Hqy&Hsz)&Hall).
    set (y := foldl _ x1 ms) in *. simpl in Hqy, Hsz, Hsub.
    assert (size (xp_visited y) ≤ S (Z.to_nat maxNested)) by apply (ex_size _ _ Hy).
    destruct (IH y ms Hy) as (?&?&[??]&?&?&?); [intros ms' Heq; by rewrite Heq|rewrite Hqy, length_app; simpl in Hfuel; lia|]. split_and!; try done. set_solver.
Qed.

(** Once the queue is empty, more turns change nothing. *)
Lemma expand_done n n' x : xp_queue (expand find maxDepth maxNested n x) = [] → n ≤ n' →
  expand find maxDepth maxNested n' x = expand find maxDepth maxNested n x.
Proof.
  revert n' x. induction n as [|n IH]; intros n' x; cbn [expand].
  - intros Hq _. destruct n'; [done|]. cbn [expand]. by rewrite Hq.
  - destruct n' as [|n']; [lia|]. cbn [expand]. destruct (xp_queue x) as [|[ms depth] queue]; [done|]. intros Hq Hle. apply IH; [done|lia].
Qed.

Lemma expansion_whole : find root = Some members → let x := expand find maxDepth maxNested (expand_fuel maxNested) (mkExpansion ∅ {[root]} [] false [(members, O)]) in
  xp_queue x = [] ∧ length (xp_nested x) ≤ Z.to_nat maxNested ∧ NoDup (root :: xp_nested x) ∧
  (∀ m, (m ∈ xp_people x → find m = None ∧ reaches m) ∧ (m ∈ xp_nested x → is_Some (find m) ∧ reaches m)) ∧
  (xp_truncated x = false → ∀ m, reaches m → match find m with None => m ∈ xp_people x | Some _ => m = root ∨ m ∈ xp_nested x end).
Proof.
  intros Hroot x. destruct (expand_ends (expand_fuel maxNested) (mkExpansion ∅ {[root]} [] false [(members, O)]) []) as (Hq&Hp&Hn&Hv&Hsub&Hs).
  - constructor; cbn [xp_people xp_visited xp_nested xp_queue]; [set_solver| | |split; [set_solver|apply NoDup_singleton]|rewrite size_singleton; lia].
    + intros g ->%elem_of_singleton. split; [by left|]. exists members. split; [done|]. right. left. exists O. by left.
    + intros ms d [= -> ->]%list_elem_of_singleton. by left.
  - by intros ms ->.
  - cbn [xp_visited xp_queue length]. rewrite size_singleton. unfold expand_fuel. lia.
  - fold x in Hq, Hp, Hn, Hv, Hsub, Hs. simpl in Hsub. destruct Hn as [Hn Hnd]. split_and!; [done| |done| |].
    + rewrite Hn, size_list_to_set in Hs by done. simpl in Hs. lia.
    + intros m. split; [intros [??]%Hp; done|]. intros Hm. destruct (Hv m) as ([->|Hr]&ms&Hms&_); [rewrite Hn; set_solver|by apply NoDup_cons in Hnd as [??]|]. split; [by eexists|done].
    + intros Htr. assert (∀ g ms m, g ∈ xp_visited x → find g = Some ms → m ∈ ms → settled x m) as Hall.
      { intros g ms m Hg Hms Hm. destruct (Hv g Hg) as (_&ms'&Hms'&Hall). simplify_eq. rewrite Forall_forall in Hall. by apply Hall. }
      assert (∀ m, settled x m → match find (ToLower m) with None => ToLower m ∈ xp_people x | Some _ => ToLower m ∈ xp_visited x end) as Hset
        by (intros m; unfold settled; destruct (find (ToLower m)); [intros [?|?]; [done|congruence]|done]).
      assert (∀ m, reaches m → match find m with None => m ∈ xp_people x | Some _ => m ∈ xp_visited x end) as Hreach.
      { induction 1 as [m Hm|g ms m Hg IH Hms Hm]; apply Hset; [apply (Hall root members); [set_solver|done..]|]. apply (Hall g ms); [by rewrite Hms in IH|done..]. }
      intros m Hm. specialize (Hreach m Hm). destruct (find m); [|done]. rewrite Hn in Hreach. set_solver.
Qed.
End expansion.

Section served.
Context (fails : hub_call → option string) (cfg : Config) (credentials : bool) (reopener : option (Workspace → Credential → result string Backend)).

(** The members a snapshotted group lists, as an expansion asks for them. *)
Definition lists (w : HubWorld) (v : view) email : option (list string) := (λ r, dg_Members r.1.1) <$> lookup_group fails cfg w v email.

(** C39: Resolving a group ends, cycles and all: after two turns more than the bound on the
    groups followed the queue is empty, no turn after that changes anything, and the answer is
    what was gathered by then.  Everybody listed is reached through the groups within it and is no
    group; no more groups are followed than allowed; and where it says it is whole, nobody
    reached is missing and no group within is. *)
Theorem ResolveGroups_whole w v maxDepth maxNested asked (g : dirGroup) workspace trusted :
  let email := ToLower (TrimSpace asked) in
  lookup_group fails cfg w v email = Some (g, workspace, trusted) →
  let r := resolve_group fails cfg w v maxDepth maxNested asked in
  let people := gm_Email <$> dy_Members (rg_Group r) in
  let reached := reaches (lists w v) (dg_Members g) in
  let turns n := expand (lists w v) maxDepth maxNested n (mkExpansion ∅ {[email]} [] false [(dg_Members g, O)]) in
  let gathered := turns (2 + Z.to_nat maxNested) in
  xp_queue gathered = [] ∧ (∀ n, 2 + Z.to_nat maxNested ≤ n → turns n = gathered) ∧
  people = sort_strings (elements (xp_people gathered)) ∧ rg_Nested r = sort_strings (xp_nested gathered) ∧ rg_Truncated r = xp_truncated gathered ∧
  length (rg_Nested r) ≤ Z.to_nat maxNested ∧ StronglySorted String.le people ∧ NoDup people ∧
  (∀ m, m ∈ people → reached m ∧ lists w v m = None) ∧
  (∀ m, m ∈ rg_Nested r → reached m ∧ is_Some (lists w v m)) ∧
  (rg_Truncated r = false → ∀ m, reached m → m ∈ people ∨ m ∈ rg_Nested r ∨ m = email).
Proof.
  intros email Hg r people reached turns gathered.
  destruct (expansion_whole (lists w v) maxDepth maxNested email (dg_Members g)) as (Hq&Hlen&_&Hin&Hwhole); [unfold lists; by rewrite Hg|].
  set (x := expand _ _ _ _ _) in Hq, Hlen, Hin, Hwhole. change gathered with x.
  assert (rg_Nested r = sort_strings (xp_nested x) ∧ rg_Truncated r = xp_truncated x ∧ people = sort_strings (elements (xp_people x))) as (->&->&->).
  { unfold people, r, resolve_group. fold email. rewrite Hg. split_and!; [done..|]. simpl. rewrite <- list_fmap_compose.
    rewrite (fmap_agree _ id); [by rewrite list_fmap_id|]. intros m _. unfold compose, member_of. by destruct (everybody _ !! m). }
  split_and!; try done.
  - intros n Hn. by apply expand_done.
  - by rewrite sort_strings_Permutation.
  - apply sort_strings_sorted.
  - apply NoDup_sort_strings, NoDup_elements.
  - intros m. rewrite elem_of_sort_strings, elem_of_elements. intros Hm. by destruct (proj1 (Hin m) Hm).
  - intros m. rewrite elem_of_sort_strings. intros Hm. by destruct (proj2 (Hin m) Hm).
  - intros Htr m Hm. rewrite !elem_of_sort_strings, elem_of_elements. specialize (Hwhole Htr m Hm). destruct (lists w v m); [destruct Hwhole; auto|auto].
Qed.
End served.

(** ** Narrowing, dropping, listing *)

Lemma narrow_spec s serve : sound s → serve ≠ [] → let s' := narrow s serve in
  sn_TakenAt s' = sn_TakenAt s ∧ sn_Workspace s' = sn_Workspace s ∧
  (∀ k, sn_Accounts s' !! k = if in_served serve k then sn_Accounts s !! k else None) ∧
  (∀ e, in_served serve (ToLower e) = true → GroupsOf s' e = GroupsOf s e).
Proof.
  intros Hs Hne. cbn zeta. assert (narrow s serve = NewSnapshot (sn_Workspace s) (sn_TakenAt s) (List.filter (keeps_account serve) (in_order (sn_Accounts s)))
    (List.filter (keeps serve []) (in_order (sn_Groups s))) (sn_Discovered s)) as -> by (unfold narrow; rewrite restrict_filters; by destruct serve).
  destruct (NewSnapshot_sound (sn_Workspace s) (sn_TakenAt s) _ _ (sn_Discovered s) (whole_filter _ _ (keeps_account serve) (keeps serve []) (sound_whole s Hs))) as (Hs'&Ha&Hg).
  destruct (NewSnapshot_fields (sn_Workspace s) (sn_TakenAt s) (List.filter (keeps_account serve) (in_order (sn_Accounts s))) (List.filter (keeps serve []) (in_order (sn_Groups s)))
    (sn_Discovered s)) as (Hw&Ht&_).
  split_and!; [done..| |].
  - intros k. apply option_eq. intros a. rewrite Ha, elem_of_filter_bool, elem_of_in_order, keeps_account_served by done. split.
    + intros [[[k' Hk'] Hin] <-]. destruct (sd_account _ Hs _ _ Hk') as [Heq _]. rewrite Hin. by rewrite Heq.
    + destruct (in_served serve k) eqn:Hk; [|done]. intros Hin. destruct (sd_account _ Hs _ _ Hin) as [-> _]. eauto.
  - intros e He. unfold GroupsOf. rewrite (sd_index _ Hs'), (sd_index _ Hs). set (s' := NewSnapshot _ _ _ _ _) in *.
    assert (members_of (sn_Groups s') (ToLower e) = members_of (sn_Groups s) (ToLower e)) as ->; [|done].
    destruct (members_of_sorted (sn_Groups s') (ToLower e)), (members_of_sorted (sn_Groups s) (ToLower e)). apply sorted_same; [done..|]. intros k. rewrite !elem_of_members_of.
    setoid_rewrite Hg. setoid_rewrite elem_of_filter_bool. setoid_rewrite elem_of_in_order. split.
    + intros (g&[[[k' Hk'] _] <-]&Hm). destruct (sd_group _ Hs _ _ Hk') as [-> _]. eauto.
    + intros (g&Hk&Hm). destruct (sd_group _ Hs _ _ Hk) as [Heq _]. exists g. split_and!; [by exists k| |done|done]. rewrite keeps_served, andb_true_r by done.
      apply orb_true_iff. right. apply existsb_exists. exists (ToLower e). split; [by apply list_elem_of_In|done].
Qed.

Section stores.
Context (fails : hub_call → option string).

Lemma store_Get_run id w : store_Get fails id w =
  (match fails (StoreGet id) with
   | Some why => Err (StoreFailed (StoreGet id) why)
   | None => match hw_workspaces w !! id with Some ws => Ok ws | None => Err (ErrHubNotFound id) end
   end, w).
Proof. unfold store_Get, call, mbind, Hub_bind, hub_read. destruct (fails _); [done|]. by destruct (hw_workspaces w !! id). Qed.
Lemma store_Put_run ws w : ws_ID ws ≠ "" → store_Put fails ws w =
  (match fails (StorePut (ws_ID ws)) with Some why => Err (StoreFailed (StorePut (ws_ID ws)) why) | None => Ok tt end,
   match fails (StorePut (ws_ID ws)) with Some _ => w | None => set_workspaces (<[ws_ID ws := ws]> (hw_workspaces w)) w end).
Proof. intros Hne. unfold store_Put. rewrite (proj2 (empty_false _) Hne). unfold call, mbind, Hub_bind, hub_set. by destruct (fails _). Qed.

(** What [SetServed] leaves of a snapshot. *)
Definition narrowed id (serve : list string) (w : HubWorld) : HubWorld :=
  match fails (SnapGet id), hw_snapshots w !! id with
  | None, Some s =>
      match fails (SnapPut (sn_Workspace (narrow s serve))) with
      | None => set_snapshots (<[sn_Workspace (narrow s serve) := narrow s serve]> (hw_snapshots w)) w
      | Some _ => match fails (SnapDelete id) with None => set_snapshots (delete id (hw_snapshots w)) w | Some _ => w end
      end
  | _, _ => w
  end.
Lemma SetServed_run id domains w (ws : Workspace) w' : hub_inv w → SetServed fails id domains w = (Ok ws, w') →
  ∃ ws0, hw_workspaces w !! id = Some ws0 ∧ ws_Declared ws0 = false ∧ ws = with_serve ws0 (normaliseDomains domains) ∧
    (∀ d, d ∈ normaliseDomains domains → d ∈ ws_Domains ws0) ∧
    hw_workspaces w' = <[id := ws]> (hw_workspaces w) ∧
    hw_snapshots w' = hw_snapshots (narrowed id (Served ws) w) ∧ id ∈ hw_refreshing w'.
Proof.
  intros Hinv. unfold SetServed. rewrite (hub_run_bind _ _ _ _ _ (store_Get_run id w)). destruct (fails (StoreGet id)) eqn:Hfg; [done|].
  destruct (hw_workspaces w !! id) as [ws0|] eqn:Hws; [|done]. destruct (hi_record _ Hinv _ _ Hws) as (Hid&Hne&_&_).
  destruct (ws_Declared ws0) eqn:Hdecl; [done|]. cbv zeta. destruct (List.find _ _) eqn:Hfind; [done|].
  assert (ws_ID (with_serve ws0 (normaliseDomains domains)) = id) as Hid' by done. set (ws1 := with_serve ws0 (normaliseDomains domains)) in *.
  rewrite (hub_run_bind _ _ _ _ _ (store_Put_run ws1 w ltac:(congruence))), Hid'. destruct (fails (StorePut id)); [done|]. set (w1 := set_workspaces _ w).
  intros Hrun. assert (∃ w2, hw_snapshots w2 = hw_snapshots (narrowed id (Served ws1) w) ∧ hw_workspaces w2 = hw_workspaces w1 ∧
    (refreshSoon id ;; store_Get fails id) w2 = (Ok ws, w')) as (w2&Hsn&Hwk&Hrest).
  { revert Hrun. unfold narrowed, snap_Get, snap_Put, snap_Delete, call, hub_try, hub_set, hub_read, mbind, Hub_bind, mret, Hub_ret, refreshSoon.
    change (hw_snapshots w1) with (hw_snapshots w).
    destruct (fails (SnapGet id)); [|destruct (hw_snapshots w !! id) as [s|]; [destruct (fails (SnapPut _)); [destruct (fails (SnapDelete id))|]|]];
      intros Hrun; eexists; split_and!; [| |exact Hrun| | |exact Hrun| | |exact Hrun| | |exact Hrun| | |exact Hrun]; done. }
  unfold refreshSoon, hub_set in Hrest. unfold mbind at 1, Hub_bind at 1 in Hrest. rewrite store_Get_run, Hfg in Hrest. simpl in Hrest. rewrite Hwk in Hrest. simpl in Hrest.
  rewrite lookup_insert_eq in Hrest. injection Hrest as <- <-. exists ws0. split_and!; try done.
  - intros d Hd. pose proof (List.find_none _ _ Hfind d (proj1 (list_elem_of_In _ _) Hd)) as Hno. by apply negb_false_iff, str_in_true in Hno.
  - simpl. set_solver.
Qed.
End stores.

Lemma Served_narrowed ws domains : normaliseDomains domains ≠ [] → (∀ d, d ∈ normaliseDomains domains → d ∈ ws_Domains ws) →
  let served := Served (with_serve ws (normaliseDomains domains)) in served ≠ [] ∧ ∀ d, d ∈ served ↔ d ∈ normaliseDomains domains.
Proof.
  intros Hne Hsub. cbn zeta. assert (∀ d, d ∈ Served (with_serve ws (normaliseDomains domains)) ↔ d ∈ normaliseDomains domains) as Hin.
  { intros d. unfold Served. cbn [ws_Serve with_serve ws_Domains]. destruct (normaliseDomains domains) as [|d0 l]; [done|]. rewrite elem_of_filter_bool, str_in_true. naive_solver. }
  split; [|exact Hin]. destruct (normaliseDomains domains) as [|d0 l] eqn:Hn; [done|]. intros Heq. apply (not_elem_of_nil d0). rewrite <- Heq. apply Hin. by left.
Qed.

(** Narrowing a workspace takes effect at once and costs nobody kept anything: the record
    serves what was asked, all of it the tenant's own; from the snapshot everybody outside
    is gone, and of everybody inside it says what it said, as of the moment it was taken.
    Only a store that can neither take the smaller snapshot nor drop the old one keeps it. *)
Theorem SetServed_narrows fails id domains w (ws : Workspace) w' : hub_inv w → SetServed fails id domains w = (Ok ws, w') →
  normaliseDomains domains ≠ [] → fails (SnapGet id) = None → (fails (SnapPut id) = None ∨ fails (SnapDelete id) = None) →
  hw_workspaces w' !! id = Some ws ∧ ws_Declared ws = false ∧ ws_Serve ws = normaliseDomains domains ∧
  (∀ d, d ∈ Served ws ↔ d ∈ normaliseDomains domains) ∧ (∀ d, d ∈ Served ws → d ∈ ws_Domains ws) ∧
  match hw_snapshots w' !! id with
  | None => hw_snapshots w !! id = None ∨ is_Some (fails (SnapPut id))
  | Some s => ∃ before, hw_snapshots w !! id = Some before ∧ sn_TakenAt s = sn_TakenAt before ∧
      ∀ e, ToLower e = e → if in_served (Served ws) e then sn_Accounts s !! e = sn_Accounts before !! e ∧ GroupsOf s e = GroupsOf before e
                           else sn_Accounts s !! e = None
  end.
Proof.
  intros Hinv Hrun Hne Hget Hput. destruct (SetServed_run fails id domains w ws w' Hinv Hrun) as (ws0&Hws0&Hdecl&->&Hsub&Hwk&Hsn&_).
  destruct (Served_narrowed ws0 domains Hne Hsub) as [Hserved Hin]. set (ws := with_serve ws0 (normaliseDomains domains)) in *.
  split_and!; [rewrite Hwk; apply lookup_insert_eq|done|done|done|intros d Hd; by apply Hsub, Hin|]. rewrite Hsn. unfold narrowed. rewrite Hget.
  destruct (hw_snapshots w !! id) as [before|] eqn:Hbefore; [|rewrite Hbefore; by left]. destruct (hi_snapshot _ Hinv _ _ Hbefore) as [Hw Hs].
  destruct (narrow_spec before (Served ws) Hs Hserved) as (Ht&Hwn&Ha&Hg). rewrite Hwn, Hw. destruct (fails (SnapPut id)) as [why|].
  - destruct Hput as [?| ->]; [done|]. simpl. rewrite lookup_delete_eq. right. by eexists.
  - simpl. rewrite lookup_insert_eq. exists before. split_and!; [done..|]. intros e He. rewrite Ha. destruct (in_served (Served ws) e) eqn:Hie; [|done].
    split; [done|]. apply Hg. by rewrite He.
Qed.

(** Dropping a workspace forgets it: the record and the reader are gone, the snapshot and
    the credential unless their stores failed, the directory was asked to revoke what this
    replica could still open, and no other workspace is touched.  What the deployment
    declared is not dropped. *)
Theorem Disconnect_forgets fails credentials reopener id w w' : Disconnect fails credentials reopener id w = (Ok tt, w') →
  (∃ ws, hw_workspaces w !! id = Some ws ∧ ws_Declared ws = false) ∧
  hw_workspaces w' = delete id (hw_workspaces w) ∧ hw_backends w' !! id = None ∧
  (fails (SnapDelete id) = None → hw_snapshots w' = delete id (hw_snapshots w)) ∧
  (credentials = true → fails (CredDelete id) = None → hw_credentials w' = delete id (hw_credentials w)) ∧
  (∀ b, (backendFor fails credentials reopener id w).1 = Ok (Some b) → id ∈ hw_revoked w') ∧
  (∀ other, other ≠ id → hw_backends w' !! other = hw_backends w !! other).
Proof.
  unfold Disconnect. rewrite (hub_run_bind _ _ _ _ _ (store_Get_run fails id w)). destruct (fails (StoreGet id)) eqn:Hfg; [done|].
  destruct (hw_workspaces w !! id) as [ws|] eqn:Hws; [|done]. destruct (ws_Declared ws) eqn:Hdecl; [done|].
  assert (∃ b w1, backendFor fails credentials reopener id w = (Ok b, w1) ∧ hw_workspaces w1 = hw_workspaces w ∧ hw_snapshots w1 = hw_snapshots w ∧
    hw_credentials w1 = hw_credentials w ∧ ∀ other, other ≠ id → hw_backends w1 !! other = hw_backends w !! other) as (b&w1&Hb&Hw1&Hs1&Hc1&Hb1).
  { unfold backendFor, reopen, open_reader, store_Get, call, mbind, Hub_bind, hub_try, hub_read, hub_set, hub_fail, mret, Hub_ret.
    destruct (hw_backends w !! id); [eauto 10|]. destruct (negb _); [eauto 10|]. rewrite Hfg, Hws. destruct (fails (CredLoad _)); [eauto 10|].
    destruct (hw_credentials w !! id), reopener as [open|]; eauto 10. destruct (open _ _); [|eauto 10]. do 2 eexists. split_and!; [done..|].
    intros other Ho. simpl. by rewrite lookup_insert_ne. }
  rewrite (hub_run_bind _ _ _ _ _ Hb), Hb. cbn [fst].
  unfold snap_Delete, store_Delete, call, hub_try, hub_set, mbind, Hub_bind, mret, Hub_ret.
  destruct b as [b|], (fails (SnapDelete id)), credentials, (fails (CredDelete id)), (fails (StoreDelete id)); intros [= <-]; simpl;
    rewrite ?Hw1, ?Hs1, ?Hc1, ?lookup_delete_eq; (split_and!; [eauto|done|done|done|done|try done; set_solver|]);
    intros other Ho; rewrite lookup_delete_ne by done; by apply Hb1.
Qed.

(** A loop that only reads gathers what each turn adds. *)
Lemma hub_fold_reads {A B} (f : list B → A → Hub (list B)) (g : A → list B) w (l : list A) out :
  (∀ out x, x ∈ l → f out x w = (Ok (out ++ g x), w)) → hub_fold f out l w = (Ok (out ++ mjoin (g <$> l)), w).
Proof.
  revert out. induction l as [|x l IH]; intros out Hf; [cbn; by rewrite app_nil_r|]. cbn [hub_fold]. rewrite (hub_run_bind _ _ _ _ _ (Hf out x ltac:(by left))).
  rewrite IH by (intros; apply Hf; by right). cbn. by rewrite app_assoc.
Qed.

(** Listing people shows accounts of the workspaces asked about and of no other, as their
    snapshots have them and as the search asks, and trusts one only where every domain its
    workspace serves may be acted on; the count is of everybody who matched, whatever the page. *)
Theorem People_lists fails cfg query limit w (page : list Person) total : (People fails cfg query limit w).1 = Ok (page, total) →
  ∃ all, page = take (if (limit <=? 0)%Z then 100 else Z.to_nat limit) all ∧ total = length all ∧
  ∀ p, p ∈ all → ∃ v ws s a, (hub_view fails w).1 = Ok v ∧ vw_workspaces v !! pn_Workspace p = Some ws ∧ snap_of fails w (ws_ID ws) = Some s ∧
    a ∈ in_order (sn_Accounts s) ∧ pn_Email p = da_Email a ∧ pn_Live p = da_Live a ∧
    (pq_Workspace query ≠ "" → pn_Workspace p = pq_Workspace query) ∧
    (∀ l, pq_Workspaces query = Some l → pn_Workspace p ∈ l) ∧
    (∀ live, pq_Live query = Some live → pn_Live p = live) ∧
    (∀ linked, pq_GitHubLinked query = Some linked → bool_decide (pn_GitHubLogin p ≠ "") = linked) ∧
    (pn_Authoritative p = true → Served ws ≠ [] ∧ ∀ d, d ∈ Served ws → ∃ res, vw_routing v !! d = Some res ∧ re_workspace res = pn_Workspace p ∧
       authoritative cfg ws res (Some s) (hw_now w) = true).
Proof.
  unfold People. destruct (hub_view fails w) as [[v|e] w0] eqn:Hv; rewrite (hub_run_bind _ _ _ _ _ Hv); [|done]. pose proof (hub_view_run fails w) as Hw0. rewrite Hv in Hw0. simpl in Hw0. subst w0.
  unfold mbind at 1, Hub_bind at 1, hub_read at 1.
  set (shown := λ ws, if (negb (empty (pq_Workspace query)) && negb (bool_decide (ws_ID ws = pq_Workspace query)))
       || match pq_Workspaces query with Some l => negb (str_in (ws_ID ws) l) | None => false end then []
    else match snap_of fails w (ws_ID ws) with None => [] | Some s => omap (person_of query (ws_ID ws) s (trusted_whole cfg v ws (Some s) (hw_now w))) (sorted_keys (sn_Accounts s)) end).
  match goal with |- context [hub_fold ?f [] ?l] => assert (hub_fold f [] l w = (Ok (mjoin (shown <$> l)), w)) as Hfold end.
  { apply (hub_fold_reads _ shown w _ []). intros out ws _. unfold shown. destruct (_ || _); [by rewrite app_nil_r|].
    rewrite (hub_run_bind _ _ _ _ _ (snap_or_none_run fails (ws_ID ws) w)). by destruct (snap_of fails w (ws_ID ws)); [|rewrite app_nil_r]. }
  rewrite (hub_run_bind _ _ _ _ _ Hfold).
  intros [= <- <-]. simpl. eexists. split; [reflexivity|]. split; [reflexivity|]. intros p (people&Hp&Hin)%list_elem_of_join.
  apply list_elem_of_fmap in Hin as (ws&->&[id Hid]%elem_of_in_order).
  assert (ws_ID ws = id) as <-.
  { pose proof Hv as Hview. unfold hub_view, store_List, call, mbind, Hub_bind, hub_read in Hview. destruct (fails StoreList); [done|]. injection Hview as <-. simpl in Hid.
    apply elem_of_list_to_map_2, list_elem_of_fmap in Hid as (ws'&[= -> ->]&_). done. }
  unfold shown in Hp. destruct (_ || _) eqn:Hwanted in Hp; [by apply elem_of_nil in Hp|]. destruct (snap_of fails w (ws_ID ws)) as [s|] eqn:Hs; [|by apply elem_of_nil in Hp].
  apply list_elem_of_omap in Hp as (email&_&Hp). unfold person_of in Hp. destruct (sn_Accounts s !! email) as [a|] eqn:Ha; [|done]. simpl in Hp.
  destruct (_ || _) eqn:Hq in Hp; [done|]. injection Hp as <-. simpl. apply orb_false_iff in Hwanted as [Hw1 Hw2]. apply orb_false_iff in Hq as [[[_ Hlive]%orb_false_iff _]%orb_false_iff Hlink].
  exists v, ws, s, a. split_and!; try done.
  - apply elem_of_in_order. by exists email.
  - intros Hne%empty_false. rewrite Hne in Hw1. by apply negb_false_iff, bool_decide_eq_true in Hw1.
  - intros l Hl. rewrite Hl in Hw2. by apply negb_false_iff, str_in_true in Hw2.
  - intros live Hl. rewrite Hl in Hlive. by apply negb_false_iff, eqb_prop in Hlive.
  - intros linked Hl. rewrite Hl in Hlink. apply negb_false_iff, eqb_prop in Hlink as <-.
    by destruct (default _ _).
  - unfold trusted_whole. intros [Hne Hall]%andb_true_iff. apply negb_true_iff, bool_decide_eq_false in Hne. split; [done|]. intros d Hd.
    rewrite forallb_forall in Hall. specialize (Hall d (proj1 (list_elem_of_In _ _) Hd)). destruct (vw_routing v !! d) as [res|]; [|done].
    apply andb_true_iff in Hall as [Hr Hau]. apply bool_decide_eq_true in Hr. eauto.
Qed.

(** ** Examples: a tenant of two domains *)

Definition account_ada : dirAccount := mkAccount "ada@acme.test" true "Ada" "Lovelace".
Definition account_bob : dirAccount := mkAccount "bob@corp.test" true "Bob" "".
Definition group_sre : dirGroup := mkDirGroup "sre@acme.test" ["ada@acme.test"; "bob@corp.test"].
Definition group_all : dirGroup := mkDirGroup "all@acme.test" ["sre@acme.test"; "eve@acme.test"; "all@acme.test"].
Definition tenant_reader : Backend := mkBackend "google" (λ _, Ok ("C0", ["acme.test"; "corp.test"])) (λ _, Ok tt)
  (Ok [account_ada; account_bob]) (Ok [group_sre; group_all])
  (λ email, Ok (if bool_decide (email = "ada@acme.test") then Some account_ada else None)) (λ _, Ok ["sre@acme.test"]) (Ok tt)
  (Some (mkCredential "oauth" "admin@acme.test" "refresh-token")).
Definition tenant : Workspace := mkWorkspace "C0" "google" ["acme.test"; "corp.test"] [] [] "admin@acme.test" CredentialOAuth "ada" (Some 0%Z) (mkHealth (Some 0%Z) true None) false.
Definition all_well (c : hub_call) : option string := None.
Definition sample_config : Config := withDefaults (mkConfig 0 0 0).
Definition tenant_snapshot : Snapshot := taken "C0" 0 [account_ada; account_bob] [group_sre; group_all] [] [].
Definition tenant_world : HubWorld := mkHubWorld {["C0" := tenant]} {["C0" := tenant_snapshot]} ∅ {["C0" := tenant_reader]} ∅ [] 10.
Definition tenant_accounts (w : HubWorld) : list string := default [] ((λ s, sorted_keys (sn_Accounts s)) <$> hw_snapshots w !! "C0").
Definition tenant_serve (w : HubWorld) : option (list string) := ws_Serve <$> hw_workspaces w !! "C0".

(** A probe writes back the record it read before it asked: an operator's narrowing made in
    between is undone, and a workspace dropped in between is there again. *)
Theorem probe_undoes_the_console :
  let narrowed := (SetServed all_well "C0" ["acme.test"] tenant_world).2 in
  let dropped := (Disconnect all_well false None "C0" tenant_world).2 in
  tenant_serve narrowed = Some ["acme.test"] ∧
  tenant_serve (probeOne all_well false None false tenant narrowed).2 = Some [] ∧
  hw_workspaces dropped !! "C0" = None ∧
  is_Some (hw_workspaces (probeOne all_well false None false tenant dropped).2 !! "C0").
Proof. vm_compute. by eauto. Qed.

(** A read under way when a workspace is narrowed stores what it read under the wider list:
    the people just excluded are kept again. *)
Theorem refresh_undoes_narrowing :
  match refresh_read all_well false None "C0" tenant_world with
  | (Ok read, w) =>
      let narrowed := (SetServed all_well "C0" ["acme.test"] w).2 in
      tenant_accounts narrowed = ["ada@acme.test"] ∧ tenant_serve narrowed = Some ["acme.test"] ∧
      tenant_accounts (snap_Put all_well read narrowed).2 = ["ada@acme.test"; "bob@corp.test"]
  | _ => False
  end.
Proof. vm_compute. by split_and!. Qed.

(** A person read live brings the groups they are in into the snapshot, also those the
    workspace does not keep; and one of which nothing was read is then a group with that one
    member, by an answer that may be acted on. *)
Theorem partial_group_vouched_for :
  let synced := (SetSynced all_well "C0" ["all@acme.test"] tenant_world).2 in
  let asked := (ResolveUser all_well sample_config false None "ada@acme.test" (Some 5%Z) synced).2 in
  (gr_Found <$> (Hub_Group all_well sample_config false None "sre@acme.test" None synced).1) = Ok false ∧
  (Hub_Group all_well sample_config false None "sre@acme.test" None asked).1 =
    Ok (mkGroupResult "sre@acme.test" "acme.test" ["ada@acme.test"] true true (Some 0%Z)).
Proof. vm_compute. by split. Qed.

(** A credential that is saved hides that the tenant could not be read: the workspace is
    recorded as healthy, and as owning no domain. *)
Definition unreachable : Backend := mkBackend "google" (λ _, Err (Unavailable "503")) (λ _, Err (Unavailable "503")) (Err (Unavailable "503")) (Err (Unavailable "503"))
  (λ _, Err (Unavailable "503")) (λ _, Err (Unavailable "503")) (Ok tt) (Some (mkCredential "oauth" "admin@acme.test" "refresh-token")).
Definition reconnecting : Workspace := mkWorkspace "C0" "" [] [] [] "admin@acme.test" CredentialOAuth "" None (mkHealth None false None) false.
Theorem adopted_healthy_unread :
  match (Adopt all_well true reconnecting unreachable tenant_world).1 with
  | Ok ws => ws_Health ws = mkHealth (Some 10%Z) true None ∧ ws_Domains ws = []
  | Err _ => False
  end ∧
  (λ v, vw_routing v !! "acme.test") <$> (hub_view all_well (Adopt all_well true reconnecting unreachable tenant_world).2).1 = Ok None.
Proof. vm_compute. by split_and!. Qed.

(** A workspace the deployment declares, adopted again while its directory cannot be asked,
    owns no domain: its addresses are not held, they are nobody's. *)
Definition declared_again : Workspace := mkWorkspace "C0" "" [] [] [] "admin@acme.test" CredentialServiceAccountKey "" None (mkHealth None false None) true.
Theorem restart_forgets_domains :
  (us_InDomain <$> (ResolveUser all_well sample_config false None "ada@acme.test" None tenant_world).1) = Ok true ∧
  (us_InDomain <$> (ResolveUser all_well sample_config false None "ada@acme.test" None (Adopt all_well false declared_again unreachable tenant_world).2).1) = Ok false.
Proof. vm_compute. by split. Qed.

(** A served domain that a declared workspace pins is shown as not to be trusted, and without
    a reason. *)
Definition pinning : Workspace := mkWorkspace "C1" "google" ["acme.test"] [] [] "admin@acme.test" CredentialServiceAccountKey "" (Some 0%Z) (mkHealth (Some 0%Z) true None) true.
Theorem pinned_without_a_reason :
  let v := mkView {["C0" := tenant; "C1" := pinning]} (routingOf [tenant; pinning]) in
  standing sample_config v tenant (Some tenant_snapshot) 10 "acme.test" = mkDomainStanding "acme.test" false ReasonNone false true true.
Proof. vm_compute. done. Qed.

Lemma tenant_whole : whole_read [account_ada; account_bob] [group_sre; group_all].
Proof.
  constructor.
  - apply (bool_decide_unpack _). vm_compute. exact I.
  - intros a [->|[->|[]%elem_of_nil]%elem_of_cons]%elem_of_cons; reflexivity.
  - apply (bool_decide_unpack _). vm_compute. exact I.
  - intros g [->|[->|[]%elem_of_nil]%elem_of_cons]%elem_of_cons; reflexivity.
  - intros g m [->|[->|[]%elem_of_nil]%elem_of_cons]%elem_of_cons Hm; revert m Hm; apply (proj1 (Forall_forall _ _)), (bool_decide_unpack _); vm_compute; exact I.
  - intros g [->|[->|[]%elem_of_nil]%elem_of_cons]%elem_of_cons; apply (bool_decide_unpack _); vm_compute; exact I.
Qed.
Lemma tenant_reader_ok : reader_ok tenant_reader.
Proof.
  split; [intros accounts groups [= <-] [= <-]; apply tenant_whole|]. intros email groups [= <-]. apply (bool_decide_unpack _). vm_compute. exact I.
Qed.
Lemma tenant_sound : sound tenant_snapshot.
Proof. apply (taken_spec "C0" 0 [account_ada; account_bob] [group_sre; group_all] [] [] tenant_whole). Qed.
Lemma tenant_domains : normal ["acme.test"; "corp.test"].
Proof. apply (normaliseDomains_normal ["acme.test"; "corp.test"]). Qed.
Lemma tenant_inv : hub_inv tenant_world.
Proof.
  constructor; simpl.
  - intros id ws [<- <-]%lookup_singleton_Some. split_and!; [done|done|exact tenant_domains|exact normal_nil].
  - intros id s [<- <-]%lookup_singleton_Some. split; [reflexivity|exact tenant_sound].
  - intros id b [<- <-]%lookup_singleton_Some. exact tenant_reader_ok.
Qed.

Lemma patchAccount_answers_witness : GroupsOf (patchAccount tenant_snapshot "Ada@acme.test" None []) "bob@corp.test" = ["sre@acme.test"].
Proof.
  destruct (patchAccount_answers tenant_snapshot "Ada@acme.test" None []) as (_&_&H); [exact tenant_sound|constructor|].
  specialize (H "bob@corp.test"). cbv zeta in H. rewrite decide_False in H by discriminate. destruct H as [_ ->]. vm_compute. reflexivity.
Defined.
Lemma Snapshot_wire_roundtrip_witness : DecodeSnapshot (EncodeSnapshot tenant_snapshot) = tenant_snapshot.
Proof.
  assert (sn_Discovered tenant_snapshot = ["all@acme.test"; "sre@acme.test"]) as Hd by (vm_compute; reflexivity).
  apply (Snapshot_wire_roundtrip tenant_snapshot tenant_sound); rewrite Hd; [discriminate|vm_compute; reflexivity].
Defined.
Lemma narrow_is_a_smaller_read_witness :
  narrow tenant_snapshot ["acme.test"] = taken "C0" 0 [account_ada; account_bob] [group_sre; group_all] ["acme.test"] [].
Proof. apply (narrow_is_a_smaller_read "C0" 0 [account_ada; account_bob] [group_sre; group_all] [] [] tenant_whole); [discriminate|by left]. Defined.
Lemma restricted_read_is_whole_witness :
  GroupsOf (taken "C0" 0 [account_ada; account_bob] [group_sre; group_all] ["corp.test"] []) "bob@corp.test" = GroupsOf tenant_snapshot "bob@corp.test".
Proof.
  apply (restricted_read_is_whole "C0" 0 [account_ada; account_bob] [group_sre; group_all] ["corp.test"] tenant_whole); vm_compute; reflexivity.
Defined.

(** The record of a narrower service is written and the narrowed snapshot is not. *)
Definition no_snapshot (c : hub_call) : option string := match c with SnapPut _ => Some "down" | _ => None end.
Definition sample_attempts : list attempt :=
  [(all_well, RqAdopt tenant tenant_reader); (all_well, RqDetached "C0"); (no_snapshot, RqSetServed "C0" ["acme.test"]);
   (all_well, RqUser "ada@acme.test" (Some 0%Z)); (all_well, RqProbe false ""); (all_well, RqDisconnect "C0")].
Lemma hub_inv_kept_witness : hub_inv (foldl (perform sample_config true None) (fresh_hub 0) sample_attempts).
Proof.
  apply (hub_inv_kept sample_config true None); [discriminate|]. repeat (constructor; [first [exact I|split; [exact tenant_reader_ok|exact tenant_domains]]|]). constructor.
Defined.

Lemma routingOf_settles_witness : ∃ res, routingOf [tenant; pinning] !! "acme.test" = Some res ∧ re_conflict res = false.
Proof.
  pose proof (routingOf_settles [tenant; pinning] "acme.test") as H.
  assert (routingOf [tenant; pinning] !! "acme.test" = Some (mkResolution "C1" false)) as Hr by (vm_compute; reflexivity).
  rewrite Hr in H. destruct H as (ws&_&_&_&Hc&_).
  - apply (bool_decide_unpack _). vm_compute. exact I.
  - intros ws [->|[->|[]%elem_of_nil]%elem_of_cons]%elem_of_cons; apply (bool_decide_unpack _); vm_compute; exact I.
  - eexists. split; [exact Hr|reflexivity].
Defined.
Lemma ResolveUser_authoritative_witness : ∃ s, snap_of all_well tenant_world "C0" = Some s ∧ (Age s 10 < cg_FreshnessWindow sample_config)%Z.
Proof.
  destruct (ResolveUser_authoritative all_well sample_config false None "bob@corp.test" None tenant_world
    (mkUserResult "bob@corp.test" "C0" true true false ["sre@acme.test"] "Bob" "" true (Some 0%Z)))
    as (domain&v&res&ws&Hd&Hv&Hr&_&Hws&Hin&_&[(b&a&_&Ht&_)|(s&Hs&_&Hage&_)]); [vm_compute; reflexivity|reflexivity|discriminate Ht|].
  assert (ws_ID ws = "C0") as Hid.
  { simpl in Hws. rewrite <- Hws in Hin. injection Hv as <-. vm_compute in Hin. injection Hin as <-. reflexivity. }
  rewrite Hid in Hs. eauto.
Defined.
Lemma ResolveGroups_whole_witness :
  let r := resolve_group all_well sample_config tenant_world (mkView {["C0" := tenant]} (routingOf [tenant])) 5 10 "all@acme.test" in
  gm_Email <$> dy_Members (rg_Group r) = ["ada@acme.test"; "bob@corp.test"; "eve@acme.test"] ∧
  xp_queue (expand (lists all_well sample_config tenant_world (mkView {["C0" := tenant]} (routingOf [tenant]))) 5 10 12
    (mkExpansion ∅ {["all@acme.test"]} [] false [(dg_Members group_all, O)])) = [].
Proof.
  split; [vm_compute; reflexivity|].
  apply (ResolveGroups_whole all_well sample_config tenant_world (mkView {["C0" := tenant]} (routingOf [tenant])) 5 10 "all@acme.test" group_all "C0" true).
  vm_compute. reflexivity.
Defined.
Lemma SetServed_narrows_witness : tenant_accounts (SetServed all_well "C0" ["acme.test"] tenant_world).2 = ["ada@acme.test"] ∧
  tenant_serve (SetServed all_well "C0" ["acme.test"] tenant_world).2 = Some ["acme.test"].
Proof.
  split; [vm_compute; reflexivity|]. assert (normaliseDomains ["acme.test"] = ["acme.test"]) as Hn by (vm_compute; reflexivity).
  destruct (SetServed_narrows all_well "C0" ["acme.test"] tenant_world (with_serve tenant ["acme.test"]) (SetServed all_well "C0" ["acme.test"] tenant_world).2 tenant_inv)
    as (Hws&_); [vm_compute; reflexivity|rewrite Hn; discriminate|reflexivity|left; reflexivity|]. unfold tenant_serve. rewrite Hws. reflexivity.
Defined.
Lemma Disconnect_forgets_witness : hw_workspaces (Disconnect all_well true None "C0" tenant_world).2 !! "C0" = None.
Proof.
  destruct (Disconnect_forgets all_well true None "C0" tenant_world (Disconnect all_well true None "C0" tenant_world).2) as (_&->&_); [vm_compute; reflexivity|].
  apply lookup_delete_eq.
Defined.
Lemma People_lists_witness : ∃ all : list Person, length all = 2 ∧ (People all_well sample_config (mkPeopleQuery "" "" None None "" ∅ None) 1 tenant_world).1 = Ok (take 1 all, 2).
Proof.
  assert ((People all_well sample_config (mkPeopleQuery "" "" None None "" ∅ None) 1 tenant_world).1 =
    Ok ([mkPerson "ada@acme.test" "Ada" "Lovelace" "C0" true true ["sre@acme.test"] ""], 2)) as Hp by (vm_compute; reflexivity).
  destruct (People_lists all_well sample_config _ _ _ _ _ Hp) as (all&Hpage&Htotal&_). exists all. split; [by rewrite Htotal|]. rewrite Hp.
  assert ([mkPerson "ada@acme.test" "Ada" "Lovelace" "C0" true true ["sre@acme.test"] ""] = take 1 all) as <- by exact Hpage. reflexivity.
Defined.
