(* ===== verification/HubClients.v ===== *)
(** * HubClients: the issuer at the hub, and replicas at one directory

    [internal/hublocal] asks the hub for the issuer; [internal/hub/blobsnapshots.go] holds the
    lease that makes one replica read a directory for all of them, over any store that keeps
    the State port's promises.

    The theorems: what a resolution by the issuer rests on, through the hub, down to what the
    directory said; and that the lease keeps a second replica off a directory for most of
    an interval and never keeps anybody from reading it on schedule. *)

From S2P Require Import Prelude GoStrings Policy Port Memory Issuer Snapshot Hub HubSafety.

Implicit Types (email id name : string) (now : Z) (maxAge : option Z).

(** ** The issuer's directory *)

Section directory.
Context (fails : hub_call → option string) (cfg : Config) (credentials : bool) (reopener : option (Workspace → Credential → result string Backend)).

(** [internal/hublocal/hublocal.go:New]: an age of zero leaves freshness to the hub. *)
Definition directory_age (maxAge : Z) : option Z := if (0 <? maxAge)%Z then Some maxAge else None.

(** [internal/hublocal/hublocal.go:Directory.ResolveUser]; [describe] is the text of the hub's error. *)
Definition Directory_ResolveUser (describe : hub_error → string) maxAge email w : result string Standing :=
  match (ResolveUser fails cfg credentials reopener email maxAge w).1 with
  | Err e => Err (describe e)
  | Ok got => Ok (mkStanding (us_InDomain got && us_Found got) (us_Suspended got) (us_Groups got) (us_Authoritative got) (us_GivenName got) (us_FamilyName got))
  end.

(** A workspace that may be spoken for about an address. *)
Definition speaks_for w email (ws : Workspace) : Prop :=
  ∃ domain v res, Domain email = Some domain ∧ (hub_view fails w).1 = Ok v ∧ vw_routing v !! domain = Some res ∧ re_conflict res = false ∧
    vw_workspaces v !! re_workspace res = Some ws ∧ he_OK (ws_Health ws) = true.

(** The directory was asked just now, and this is what it said of the account. *)
Definition said_now w email (ws : Workspace) (account : option dirAccount) : Prop :=
  ∃ b, (backendFor fails credentials reopener (ws_ID ws) w).1 = Ok (Some b) ∧ bk_Account b (address email) = Ok account.

(** What the workspace's directory answers of an account's groups, asked now. *)
Definition lists_now w email (ws : Workspace) (groups : list string) : Prop :=
  ∃ b, (backendFor fails credentials reopener (ws_ID ws) w).1 = Ok (Some b) ∧ bk_GroupsOf b (address email) = Ok groups.

(** A snapshot still inside the freshness window, and no older than was asked for. *)
Definition said_lately w (ws : Workspace) maxAge (s : Snapshot) : Prop :=
  snap_of fails w (ws_ID ws) = Some s ∧ (Age s (hw_now w) < cg_FreshnessWindow cfg)%Z ∧ ∀ limit, maxAge = Some limit → (Age s (hw_now w) <= limit)%Z.

(** C36: Through the hub, the issuer resolves nobody — without holding on to what it knew — unless
    the one workspace that serves their domain, undisputed and with a credential that works,
    says of a live account, asked now or read inside the freshness window, that it is in
    exactly those groups: those its directory answers for the account when asked now, or
    those of the fresh snapshot.  And it calls nobody gone unless that workspace says so: an account asked
    about now and not there or not live, one a fresh snapshot has as suspended, or an
    address the snapshot knows for a group's. *)
Theorem issuer_rests_on_the_directory describe window seen maxAge email w :
  match (Resolve window seen email (Directory_ResolveUser describe maxAge email w) (hw_now w)).1 with
  | Ok r => rn_Held r = true ∨ ∃ ws a, speaks_for w email ws ∧ da_Live a = true ∧
      (said_now w email ws (Some a) ∧ lists_now w email ws (rn_Groups r) ∨ ∃ s, said_lately w ws maxAge s ∧ sn_Accounts s !! address email = Some a ∧ rn_Groups r = GroupsOf s (address email))
  | Err NotLive => ∃ ws, speaks_for w email ws ∧
      ((∃ account, said_now w email ws account ∧ ∀ a, account = Some a → da_Live a = false) ∨
       ∃ s, said_lately w ws maxAge s ∧
         match sn_Accounts s !! address email with Some a => da_Live a = false | None => isGroup s (address email) = true end)
  | Err _ => True
  end.
Proof.
  unfold Resolve, Directory_ResolveUser.
  assert (∀ (e : refusal), e ≠ NotLive → match (match seen !! address email with
    | Some known => if (window <? hw_now w - lk_at known)%Z then Err e else Ok (Issuer.mkResolution (lk_groups known) true "" "") | None => Err e end : result refusal Resolution) with
    | Ok r => rn_Held r = true | Err NotLive => False | Err _ => True end) as Hheld.
  { intros e He. destruct (seen !! address email); [destruct (_ <? _)%Z|]; by destruct e. }
  destruct (ResolveUser fails cfg credentials reopener email maxAge w) as [[u|e] w'] eqn:Hu; cbn [fst].
  2: { specialize (Hheld (DirectoryFailed (describe e)) ltac:(done)). destruct (match seen !! address email with Some _ => _ | None => _ end) as [r|[]]; [by left|done..]. }
  simpl. destruct (us_Authoritative u) eqn:Hauth.
  2: { specialize (Hheld NoRecentAnswer ltac:(done)). destruct (match seen !! address email with Some _ => _ | None => _ end) as [r|[]]; [by left|done..]. }
  destruct (ResolveUser_authoritative fails cfg credentials reopener email maxAge w u) as (domain&v&res&ws&Hd&Hv&Hr&Hc&_&Hin&Hok&Hword); [by rewrite Hu|done|].
  assert (speaks_for w email ws) as Hsp by (exists domain, v, res; done).
  assert (us_InDomain u = true) as Hdom by (eapply routed_in_domain; [by rewrite Hu|done..]).
  rewrite Hdom. destruct Hword as [(b&account&Hb&_&Hacc&Hsaid)|(s&Hs&_&Hage&Hlim&Hsaid)].
  - destruct account as [a|]; destruct Hsaid as (Hf&Hsus&Hg); rewrite Hf, Hsus; simpl.
    + destruct (da_Live a) eqn:Hlive; simpl; [right; exists ws, a; split_and!; [done|done|left; by split; exists b]|].
      exists ws. split; [done|]. left. exists (Some a). split; [by exists b|]. by intros ? [= <-].
    + exists ws. split; [done|]. left. exists None. split; [by exists b|]. done.
  - assert (said_lately w ws maxAge s) as Hlately by done. change (ToLower (TrimSpace email)) with (address email) in Hsaid.
    destruct (sn_Accounts s !! address email) as [a|] eqn:Ha.
    + destruct Hsaid as (Hf&Hsus&Hg). rewrite Hf, Hsus. simpl. destruct (da_Live a) eqn:Hlive; simpl.
      * right. exists ws, a. split_and!; [done|done|right; eauto].
      * exists ws. split; [done|]. right. exists s. split; [done|]. by rewrite Ha.
    + destruct Hsaid as (Hf&_&_&Hgr). rewrite Hf. simpl. exists ws. split; [done|]. right. exists s. split; [done|]. by rewrite Ha.
Qed.
End directory.

(** ** The lease on a refresh *)

(** [internal/hub/blobsnapshots.go:24-27 SnapshotLeasePrefix], and the name a refresh takes. *)
Definition SnapshotLeasePrefix : string := "lease.".
Definition refresh_key id : string := SnapshotLeasePrefix +:+ ("refresh:" +:+ id).

Section lease.
Context {S : Type} `{StateSpec S}.

(** [internal/hub/blobsnapshots.go:BlobSnapshots.Lock]; [token] is what it draws at random.  The
    lease is its revision, [None] where another holds it. *)
Definition Lock (s : S) name (token : string) (ttl : Z) : result port_error (option string) * S :=
  let '(r, s) := st_Create s (SnapshotLeasePrefix +:+ name) token ttl in
  (match r with Ok rev => Ok (Some rev) | Err ErrExists => Ok None | Err e => Err e end, s).

(** [internal/hub/blobsnapshots.go:99-103 BlobSnapshots.Lock]: handing it back. *)
Definition Unlock (s : S) name (rev : string) : S := (st_DeleteIfRevision s (SnapshotLeasePrefix +:+ name) rev).2.

(** [internal/hub/background.go:169-184 Hub.refreshOne]: what asking for the lease answers the pass. *)
Definition lease_answer (r : result port_error (option string)) : option (option bool) :=
  match r with Err _ => Some None | Ok rev => Some (Some (bool_decide (is_Some rev))) end.

(** Passes over one workspace, by whatever replicas: each waits, asks for the lease and, where
    it gets it, reads and leaves it to expire.  Which of them read. *)
Fixpoint passes (interval : Z) id (s : S) (ticks : list (Z * string)) : list bool * S :=
  match ticks with
  | [] => ([], s)
  | (gap, token) :: rest =>
      let '(r, s) := Lock (st_wait s gap) ("refresh:" +:+ id) token (leaseFor interval) in
      let '(read, s) := passes interval id s rest in
      (bool_decide (lease_answer r = Some (Some true)) :: read, s)
  end.

(** Whose turn it is, by the time since the last read. *)
Fixpoint turns (ttl : Z) (since : option Z) (gaps : list Z) : list bool :=
  match gaps with
  | [] => []
  | gap :: rest =>
      match since with
      | None => true :: turns ttl (Some 0%Z) rest
      | Some t => if (ttl <=? t + gap)%Z then true :: turns ttl (Some 0%Z) rest else false :: turns ttl (Some (t + gap)%Z) rest
      end
  end.

Definition held_since (ttl : Z) id (s : S) (since : option Z) : Prop :=
  match since with
  | None => sp_view s (refresh_key id) = None
  | Some t => (0 <= t)%Z ∧ match sp_view s (refresh_key id) with Some r => lv_expires r = Some (sp_now s - t + ttl)%Z | None => (ttl <= t)%Z end
  end.

Lemma passes_turns interval id n s since ticks : (0 < leaseFor interval)%Z → sp_ok (length ticks + n) s → held_since (leaseFor interval) id s since →
  Forall (λ t, (0 <= t.1)%Z ∧ CheckWrite (refresh_key id) t.2 (leaseFor interval) = None) ticks →
  (passes interval id s ticks).1 = turns (leaseFor interval) since (ticks.*1).
Proof.
  intros Httl. revert s since. induction ticks as [|[gap token] rest IH]; intros s since Hok Hheld Hticks; [done|].
  apply Forall_cons in Hticks as [[Hgap Hwrite] Hrest]. simpl in Hgap, Hwrite. cbn [passes fmap list_fmap fst turns length] in *.
  destruct (sp_wait (Datatypes.S (length rest + n)) s gap Hok Hgap) as (Hok1&Hnow1&_&Hview1). set (s1 := st_wait s gap) in *.
  unfold Lock. fold (refresh_key id). destruct (sp_Create _ s1 (refresh_key id) token (leaseFor interval) Hok1 Hwrite) as [[Hsome Hc]|(Hnone&rev&s2&Hc&Hok2&Hnow2&_&_&Hview2&_)]; rewrite Hc.
  - simpl. assert (∃ t, since = Some t ∧ (leaseFor interval <=? t + gap)%Z = false ∧ held_since (leaseFor interval) id s1 (Some (t + gap)%Z)) as (t&->&->&Hheld1).
    { rewrite Hview1 in Hsome. destruct since as [t|]; simpl in Hheld; [|rewrite Hheld in Hsome; by destruct Hsome]. destruct Hheld as [Ht Hv].
      destruct (sp_view s (refresh_key id)) as [r|] eqn:Hr; [|by destruct Hsome]. rewrite Hv in Hsome. unfold alive in Hsome.
      destruct (Z.ltb_spec (sp_now s1) (sp_now s - t + leaseFor interval)); [|by destruct Hsome]. exists t. split; [done|]. split; [lia|].
      split; [lia|]. rewrite Hview1, Hr, Hv. unfold alive. rewrite (proj2 (Z.ltb_lt _ _)) by done. rewrite Hv. f_equal. lia. }
    rewrite <- (IH s1 (Some (t + gap)%Z)); [by destruct (passes _ _ _ _)|by apply sp_weaken|done|done].
  - simpl. assert (held_since (leaseFor interval) id s2 (Some 0%Z)) as Hheld2.
    { split; [done|]. rewrite Hview2. simpl. rewrite (proj2 (Z.eqb_neq _ _)) by lia. f_equal. lia. }
    rewrite (surjective_pairing (passes _ _ _ _)). cbn [fst]. rewrite (IH s2 (Some 0%Z)) by done. destruct since as [t|]; [|done].
    rewrite (proj2 (Z.leb_le _ _)); [done|]. destruct Hheld as [Ht Hv]. rewrite Hview1 in Hnone. destruct (sp_view s (refresh_key id)) as [r|]; [|lia].
    rewrite Hv in Hnone. unfold alive in Hnone. destruct (Z.ltb_spec (sp_now s1) (sp_now s - t + leaseFor interval)); [done|lia].
Qed.

Definition total (gaps : list Z) : Z := foldr Z.add 0%Z gaps.

Lemma turns_app ttl since gaps gaps' : ∃ since', (∀ t, since' = Some t → Forall (λ g, 0 <= g)%Z gaps → (∀ t0, since = Some t0 → 0 <= t0)%Z → (0 <= t)%Z) ∧
  turns ttl since (gaps ++ gaps') = turns ttl since gaps ++ turns ttl since' gaps'.
Proof.
  revert since. induction gaps as [|gap gaps IH]; intros since; [exists since; split; [by intros t -> _ Hs; apply Hs|done]|].
  cbn [app turns]. destruct since as [t|]; [destruct (_ <=? _)%Z|].
  - destruct (IH (Some 0%Z)) as (s'&Hp&->). exists s'. split; [|done]. intros t' Ht' [??]%Forall_cons _. apply Hp; [done|done|]. intros ? [= <-]. lia.
  - destruct (IH (Some (t + gap)%Z)) as (s'&Hp&->). exists s'. split; [|done]. intros t' Ht' [??]%Forall_cons Hs0. apply Hp; [done|done|]. intros ? [= <-].
    specialize (Hs0 t eq_refl). lia.
  - destruct (IH (Some 0%Z)) as (s'&Hp&->). exists s'. split; [|done]. intros t' Ht' [??]%Forall_cons _. apply Hp; [done|done|]. intros ? [= <-]. lia.
Qed.
Lemma length_turns ttl since gaps : length (turns ttl since gaps) = length gaps.
Proof. revert since. induction gaps as [|gap gaps IH]; intros since; [done|]. simpl. destruct since; [destruct (_ <=? _)%Z|]; simpl; by rewrite IH. Qed.

(** As long as nobody's turn comes, the time since the last read is short of the lease. *)
Lemma turns_idle ttl t gaps : true ∉ turns ttl (Some t) gaps → gaps = [] ∨ (t + total gaps < ttl)%Z.
Proof.
  revert t. induction gaps as [|gap gaps IH]; intros t Hno; [by left|]. right. simpl in *. destruct (Z.leb_spec ttl (t + gap)); [destruct Hno; by left|].
  destruct (IH (t + gap)%Z) as [->|?]; [intros Hin; apply Hno; by right|simpl; lia|lia].
Qed.
Lemma turns_short ttl t gaps : Forall (λ g, 0 <= g)%Z gaps → (t + total gaps < ttl)%Z → true ∉ turns ttl (Some t) gaps.
Proof.
  revert t. induction gaps as [|gap gaps IH]; intros t Hg Hs; [set_solver|]. apply Forall_cons in Hg as [Hgap Hg]. simpl in *.
  assert (0 <= total gaps)%Z as Hpos by (clear -Hg; induction Hg; simpl; lia).
  destruct (Z.leb_spec ttl (t + gap)); [lia|]. rewrite not_elem_of_cons. split; [done|]. apply IH; [done|lia].
Qed.

Context (interval : Z) (id : string).
Hypothesis Hinterval : (0 < interval)%Z.

Lemma leaseFor_within : (0 < leaseFor interval <= interval)%Z.
Proof. unfold leaseFor. rewrite Z.quot_div_nonneg by lia. pose proof (Z.div_le_upper_bound interval 4 interval). pose proof (Z.div_pos interval 4). pose proof (Z.div_lt interval 4). lia. Qed.
Definition ticks_ok (ticks : list (Z * string)) : Prop := Forall (λ t, (0 <= t.1)%Z ∧ CheckWrite (refresh_key id) t.2 (leaseFor interval) = None) ticks.

(** C40: However the passes of the replicas fall, the directory is read: the lease a pass leaves
    behind is three quarters of the interval, and of any run of passes that spans that much
    after its first, one reads.  So a pass that comes an interval after another, or up to a
    quarter of one early, is never held off by a lease that other one took. *)
Theorem refresh_never_starves n (s : S) before first during :
  sp_ok (length (before ++ first :: during) + n) s → sp_view s (refresh_key id) = None → ticks_ok (before ++ first :: during) →
  (interval - Z.quot interval 4 <= total (during.*1))%Z →
  true ∈ drop (length before) (passes interval id s (before ++ first :: during)).1.
Proof.
  intros Hok Hview Hticks Hspan. destruct leaseFor_within as [Hlease _]. fold (leaseFor interval) in Hspan. rewrite (passes_turns interval id n s None) by done. rewrite fmap_app.
  destruct (turns_app (leaseFor interval) None (before.*1) ((first :: during).*1)) as (since&Hpos&->).
  rewrite drop_app_length' by (by rewrite length_turns, length_fmap). cbn [fmap list_fmap turns].
  destruct since as [t|]; [|by left]. destruct (Z.leb_spec (leaseFor interval) (t + first.1)); [by left|]. right.
  apply Forall_app in Hticks as [Hbefore [[Hfirst _] Hduring]%Forall_cons].
  destruct (decide (true ∈ turns (leaseFor interval) (Some (t + first.1)%Z) (during.*1))) as [|Hno]; [done|]. exfalso.
  assert (0 <= t)%Z. { apply Hpos; [done| |done]. apply Forall_fmap. eapply Forall_impl; [exact Hbefore|]. by intros ? [? _]. }
  destruct (turns_idle _ _ _ Hno) as [Hnil|?]; [|lia]. rewrite Hnil in Hspan. simpl in Hspan. lia.
Qed.

(** And it holds the others off: after a pass that read, none reads within the lease. *)
Theorem refresh_read_once n (s : S) before first during :
  sp_ok (length (before ++ first :: during) + n) s → sp_view s (refresh_key id) = None → ticks_ok (before ++ first :: during) →
  (total (during.*1) < leaseFor interval)%Z →
  (passes interval id s (before ++ first :: during)).1 !! length before = Some true →
  true ∉ drop (Datatypes.S (length before)) (passes interval id s (before ++ first :: during)).1.
Proof.
  intros Hok Hview Hticks Hspan Hread. destruct leaseFor_within as [Hlease _]. rewrite (passes_turns interval id n s None) in Hread |- * by done. rewrite fmap_app in Hread |- *.
  destruct (turns_app (leaseFor interval) None (before.*1) ((first :: during).*1)) as (since&_&Heq). rewrite Heq in Hread |- *.
  assert (length before = length (turns (leaseFor interval) None (before.*1))) as Hlen by (by rewrite length_turns, length_fmap).
  rewrite Hlen in Hread |- *. rewrite lookup_app_r, Nat.sub_diag in Hread by lia. rewrite drop_app_ge by lia.
  replace (Datatypes.S (length (turns (leaseFor interval) None (before.*1))) - length (turns (leaseFor interval) None (before.*1))) with 1 by lia.
  apply Forall_app in Hticks as [_ [_ Hduring]%Forall_cons].
  assert (Forall (λ g, 0 <= g)%Z (during.*1)) as Hg by (apply Forall_fmap; eapply Forall_impl; [exact Hduring|]; by intros ? [? _]).
  cbn [fmap list_fmap turns] in Hread |- *. destruct since as [t|]; [destruct (_ <=? _)%Z; [|done]|]; cbn [drop]; by apply turns_short.
Qed.
End lease.

(** ** Examples *)

Definition sample_ticks : list (Z * string) := [(5, "a1"); (30, "b2"); (70, "a3"); (30, "b4")]%Z.
Lemma refresh_never_starves_witness : true ∈ drop 1 (passes 100 "C0" (New 0) sample_ticks).1.
Proof.
  apply (refresh_never_starves 100 "C0" ltac:(reflexivity) 0 (New 0) [(5, "a1")]%Z (30, "b2")%Z [(70, "a3"); (30, "b4")]%Z).
  - apply New_ok. vm_compute. reflexivity.
  - reflexivity.
  - repeat constructor; vm_compute; congruence.
  - vm_compute. congruence.
Defined.
Lemma refresh_read_once_witness : true ∉ drop 1 (passes 100 "C0" (New 0) [(5, "a1"); (30, "b2"); (20, "a3")]%Z).1.
Proof.
  apply (refresh_read_once 100 "C0" ltac:(reflexivity) 0 (New 0) [] (5, "a1")%Z [(30, "b2"); (20, "a3")]%Z).
  - apply New_ok. vm_compute. reflexivity.
  - reflexivity.
  - repeat constructor; vm_compute; congruence.
  - vm_compute. congruence.
  - vm_compute. reflexivity.
Defined.
