(* ===== verification/Access.v ===== *)
(** * Access: who is at the console, and what they may do

    [internal/access/access.go]: a caller somebody else authenticated is turned into an
    identity by asking the directory about them and running the policy; while the
    directory cannot vouch for anybody, an identity keeps what it last held, for a
    window.  The state is what was last granted to each address; the policy, the
    directory's answers, the window and the clock are arguments, an answer [Err] being
    the directory's own failure.

    The theorems: a role is held because a group is, granted by today's evaluation or by
    an authoritative one no older than the window; an account that is authoritatively
    not live gets none; what each question about a workspace answers.  The last ones
    show what an account refused as not live keeps, and for how long. *)

From S2P Require Import Prelude GoStrings Names Vocabulary Claims Policy Validate Evaluate PolicySet Hub.

Implicit Types (email group client workspace name : string) (now window : Z).

(** ** Roles and identities *)

(** [internal/access/access.go:type Role] *)
Inductive Role : Type := RoleNone | Viewer | Operator.
#[export] Instance Role_eq_dec : EqDecision Role.
Proof. solve_decision. Defined.

(** [internal/access/access.go:Role.rank] *)
Definition rank (r : Role) : nat := match r with Operator => 2 | Viewer => 1 | RoleNone => 0 end.

(** [internal/access/access.go:Role.Implies] *)
Definition Role_Implies (r other : Role) : bool := rank other <=? rank r.

(** [internal/access/access.go:type Source] *)
Inductive Source : Type := SourceForwarded | SourceDirectory | SourceOIDC | SourceRecovery | SourceWorkload.
#[export] Instance Source_eq_dec : EqDecision Source.
Proof. solve_decision. Defined.

(** [internal/access/access.go:type Principal] *)
Record Principal := mkPrincipal {
  pr_Email : string; pr_Subject : string; pr_Source : Source; pr_Issuer : string;
  pr_Claims : gmap string (list string); pr_ServiceAccount : option ServiceAccountRef }.

(** [internal/access/access.go:type Identity] *)
Record Identity := mkIdentity {
  id_Email : string; id_Subject : string; id_GivenName : string; id_FamilyName : string; id_Source : Source; id_Role : Role;
  id_Groups : list string; id_Held : list Held; id_Claims : list (string * value); id_Lifetime : Z; id_Scopes : gmap string Role }.

(** [internal/access/access.go:Identity.Can] *)
Definition Can (i : Identity) (role : Role) : bool := Role_Implies (id_Role i) role.

(** A role held over a workspace, none being held where none is named. *)
Definition scoped (i : Identity) workspace : Role := default RoleNone (id_Scopes i !! workspace).

(** [internal/access/access.go:Identity.CanFor] *)
Definition CanFor (i : Identity) (role : Role) workspace : bool :=
  if Role_Implies (id_Role i) role then true else Role_Implies (scoped i workspace) role.

(** [internal/access/access.go:Identity.CanAnywhere] *)
Definition CanAnywhere (i : Identity) (role : Role) : bool :=
  if Role_Implies (id_Role i) role then true
  else existsb (λ kr : string * Role, Role_Implies kr.2 role) (map_to_list (id_Scopes i)).

(** [internal/access/access.go:Identity.Workspaces]; [None] is all of them. *)
Definition Workspaces (i : Identity) (role : Role) : option (list string) :=
  if Role_Implies (id_Role i) role then None
  else Some (List.filter (λ workspace, Role_Implies (scoped i workspace) role) (sorted_keys (id_Scopes i))).

(** [internal/access/access.go:Identity.Who] *)
Definition Who (i : Identity) : string := if negb (empty (id_Email i)) then id_Email i else id_Subject i.

(** [internal/access/access.go:Identity.Name] *)
Definition Identity_Name (i : Identity) : string :=
  let name := TrimSpace (id_GivenName i +:+ " " +:+ id_FamilyName i) in
  if empty name then Who i else name.

(** ** The authorizer *)

(** [internal/access/access.go:type Proof] *)
Record Proof := mkAccessProof { pf_Email : string; pf_GitHub : option GitHubClaims; pf_ServiceAccount : option ServiceAccountRef }.

(** [internal/access/access.go:Proof.IsPerson] *)
Definition IsPerson (p : Proof) : bool := negb (bool_decide (is_Some (pf_GitHub p))) && negb (bool_decide (is_Some (pf_ServiceAccount p))).

(** [internal/access/access.go:type ClientAdmission] *)
Record ClientAdmission := mkAdmission { ad_ID : string; ad_Kind : string; ad_Requires : list string; ad_Admitted : bool; ad_Lifetime : Z }.

(** [internal/access/access.go:type Explanation] *)
Record Explanation := mkExplanation {
  ex_Email : string; ex_Workspace : string; ex_GivenName : string; ex_FamilyName : string; ex_InDomain : bool; ex_Found : bool;
  ex_Suspended : bool; ex_Authoritative : bool; ex_DirectoryGroups : list string; ex_Result : Result; ex_Role : Role;
  ex_Clients : list ClientAdmission }.

(** Why a caller is not an identity: the account is not live, or the directory failed. *)
Inductive access_error : Type := ErrSuspended email | DirectoryErred email (why : string).

(** [internal/access/access.go:type heldGrant] *)
Record heldGrant := mkHeldGrant { hg_result : Result; hg_at : Z }.

(** [internal/access/access.go:roleOf] *)
Definition roleOf (r : Result) : Role :=
  if Has r GroupOperators then Operator else if Has r GroupViewers then Viewer else RoleNone.

(** One group of [internal/access/access.go:scopesOf]. *)
Definition scope_step (out : gmap string Role) name : gmap string Role :=
  match SplitScopedGroup name with
  | Some (workspace, role) =>
      if empty workspace then out
      else
        let held := if bool_decide (role = RoleOperator) then Operator else Viewer in
        if Role_Implies held (default RoleNone (out !! workspace)) then <[workspace := held]> out else out
  | None => out
  end.

(** [internal/access/access.go:scopesOf] *)
Definition scopesOf (r : Result) : gmap string Role := foldl scope_step ∅ (res_Groups r).

Section authorizer.
Context (p : Policy) (dir : option (string → result string UserResult)) (window : Z).

(** [internal/access/access.go:Authorizer.admissions] *)
Definition admissions (r : Result) : list ClientAdmission :=
  (λ kc : string * Client,
    let admitted := Client_Admits kc.2 r in
    mkAdmission kc.1 (c_Kind kc.2) (c_Requires kc.2) admitted (if admitted then Cap kc.2 (res_Lifetime r) else 0)) <$> Set_Clients p.

(** [internal/access/access.go:Authorizer.evaluate] *)
Definition access_evaluate (held : gmap string heldGrant) (inp : Input) now : Result * gmap string heldGrant :=
  let result := Evaluate p inp in
  if empty (in_Email inp) then (result, held)
  else if in_Authoritative inp then (result, <[in_Email inp := mkHeldGrant result now]> held)
  else if (window <=? 0)%Z then (result, held)
  else match held !! in_Email inp with
  | None => (result, held)
  | Some previous =>
      if (window <? now - hg_at previous)%Z then (result, held)
      else if Role_Implies (roleOf (hg_result previous)) (roleOf result) then (hg_result previous, held) else (result, held)
  end.

(** No answer: [hub.UserResult{}]. *)
Definition no_answer : UserResult := mkUserResult "" "" false false false [] "" "" false None.

(** What the directory is asked for a proof, and the refusal of one that is not live. *)
Definition asked (proof : Proof) (refuseSuspended : bool) : result access_error (option UserResult) :=
  let email := ToLower (TrimSpace (pf_Email proof)) in
  match (if bool_decide (is_Some (Domain email)) && IsPerson proof then dir else None) with
  | None => Ok None
  | Some resolve =>
      match resolve email with
      | Err why => Err (DirectoryErred email why)
      | Ok resolved =>
          if refuseSuspended && us_Authoritative resolved && us_InDomain resolved && (negb (us_Found resolved) || us_Suspended resolved)
          then Err (ErrSuspended email) else Ok (Some resolved)
      end
  end.

(** [internal/access/access.go:Authorizer.explain] *)
Definition explain (held : gmap string heldGrant) (proof : Proof) (refuseSuspended : bool) now :
    result access_error Explanation * gmap string heldGrant :=
  let email := ToLower (TrimSpace (pf_Email proof)) in
  match asked proof refuseSuspended with
  | Err e => (Err e, held)
  | Ok resolved =>
      let u := default (no_answer) resolved in
      let inp := mkInput email (us_Groups u) (us_Authoritative u) (pf_GitHub proof) (pf_ServiceAccount proof) None in
      let '(result, held) := access_evaluate held inp now in
      (Ok (mkExplanation email (us_Workspace u) (us_GivenName u) (us_FamilyName u) (us_InDomain u) (us_Found u) (us_Suspended u)
             (us_Authoritative u) (us_Groups u) result (roleOf result) (admissions result)), held)
  end.

(** [internal/access/access.go:Authorizer.Explain] *)
Definition Explain (held : gmap string heldGrant) (proof : Proof) now : result access_error Explanation * gmap string heldGrant :=
  explain held proof false now.

(** The proof of a caller: the workload where the token names one, the address otherwise. *)
Definition proof_of_principal (c : Principal) : Proof :=
  match pr_ServiceAccount c with
  | Some account => mkAccessProof "" None (Some account)
  | None => mkAccessProof (pr_Email c) None None
  end.

(** [internal/access/access.go:Authorizer.Authorize] *)
Definition Authorize (held : gmap string heldGrant) (c : Principal) now : result access_error Identity * gmap string heldGrant :=
  if bool_decide (pr_Source c = SourceRecovery)
  then (Ok (mkIdentity (pr_Email c) (pr_Subject c) "" "" SourceRecovery Operator []
          [mkHeld "recovery" ["the recovery sign-in"] "" ""] [] 0 ∅), held)
  else match explain held (proof_of_principal c) true now with
  | (Err e, held) => (Err e, held)
  | (Ok x, held) =>
      let r := ex_Result x in
      (Ok (mkIdentity (pr_Email c) (pr_Subject c) (ex_GivenName x) (ex_FamilyName x) (pr_Source c) (ex_Role x)
             (res_Groups r) (res_Held r) (res_Claims r) (res_Lifetime r) (scopesOf r)), held)
  end.

(** [internal/access/access.go:type Holder] *)
Record Holder := mkHolder {
  ho_Email : string; ho_GivenName : string; ho_FamilyName : string; ho_Live : bool; ho_Authoritative : bool;
  ho_Via : list string; ho_Lifetime : Z }.

(** One person of [internal/access/access.go:Authorizer.HoldersOf]; [wanted] is the client asked about. *)
Definition holder_of group (wanted : option Client) (person : Person) : option Holder :=
  let r := Evaluate p (mkInput (pn_Email person) (pn_DirectoryGroups person) (pn_Authoritative person) None None None) in
  let holder := mkHolder (pn_Email person) (pn_GivenName person) (pn_FamilyName person) (pn_Live person) (pn_Authoritative person) in
  if negb (empty group) then
    if negb (Has r group) then None
    else Some (holder (foldl (λ via h, if bool_decide (h_Group h = group) then h_Via h else via) [] (res_Held r)) 0%Z)
  else match wanted with
  | Some wanted => if negb (Client_Admits wanted r) then None
                   else Some (holder (List.filter (Has r) (c_Requires wanted)) (Cap wanted (res_Lifetime r)))
  | None => None
  end.

(** [internal/access/access.go:Authorizer.HoldersOf] *)
Definition HoldersOf (people : list Person) group client : list Holder :=
  match (if empty client then Some None else Some <$> Set_Client p client) with
  | None => []
  | Some wanted => omap (holder_of group wanted) people
  end.
End authorizer.

(** ** Roles *)

Lemma Role_Implies_refl r : Role_Implies r r = true.
Proof. by destruct r. Qed.
Lemma Role_Implies_trans r1 r2 r3 : Role_Implies r1 r2 = true → Role_Implies r2 r3 = true → Role_Implies r1 r3 = true.
Proof. by destruct r1, r2, r3. Qed.
Lemma operator_implies role : Role_Implies Operator role = true.
Proof. by destruct role. Qed.
Lemma none_implies role : role ≠ RoleNone → Role_Implies RoleNone role = false.
Proof. by destruct role. Qed.

(** The roles held over one workspace: the operators' group before the viewers', and nothing
    that names no workspace. *)
Definition scope_role (groups : list string) workspace : option Role :=
  if existsb (λ g, bool_decide (SplitScopedGroup g = Some (workspace, RoleOperator))) groups then Some Operator
  else if existsb (λ g, bool_decide (SplitScopedGroup g = Some (workspace, RoleViewer))) groups then Some Viewer
  else None.

Lemma SplitScopedGroup_role name workspace role :
  SplitScopedGroup name = Some (workspace, role) → role = RoleOperator ∨ role = RoleViewer.
Proof.
  unfold SplitScopedGroup. destruct (SplitGroup name) as [[[scope thing] r]|]; [|done].
  destruct (negb _); [done|]. case_bool_decide as Ho; case_bool_decide as Hv; simpl; try done;
  case_bool_decide; intros [= <- <-]; auto.
Qed.

Lemma scopesOf_lookup (r : Result) workspace : workspace ≠ "" → scopesOf r !! workspace = scope_role (res_Groups r) workspace.
Proof.
  intros Hw. unfold scopesOf. induction (res_Groups r) as [|g groups IH] using rev_ind; [done|].
  rewrite foldl_snoc. unfold scope_role in *. rewrite !existsb_app. simpl. rewrite !orb_false_r.
  set (before := foldl scope_step ∅ groups) in *. unfold scope_step. destruct (SplitScopedGroup g) as [[ws role]|] eqn:Hg.
  2: { rewrite IH. by rewrite !bool_decide_false, !orb_false_r. }
  destruct (empty ws) eqn:He.
  { apply empty_true in He as ->. rewrite IH. rewrite !bool_decide_false, !orb_false_r by congruence. done. }
  destruct (decide (ws = workspace)) as [->|Hne].
  2: { assert (∀ role', bool_decide (Some (ws, role) = Some (workspace, role')) = false) as Hno.
       { intros role'. apply bool_decide_false. congruence. }
       rewrite !Hno, !orb_false_r. destruct (Role_Implies _ _); [by rewrite lookup_insert_ne|done]. }
  rewrite IH. destruct (SplitScopedGroup_role _ _ _ Hg) as [-> | ->].
  - rewrite (bool_decide_true (Some (workspace, RoleOperator) = _)) by done. rewrite orb_true_r. rewrite (bool_decide_true (RoleOperator = _)) by done.
    by rewrite operator_implies, lookup_insert_eq.
  - rewrite (bool_decide_false (Some (workspace, RoleViewer) = Some (workspace, RoleOperator))) by (intros [= ?]; done).
    rewrite (bool_decide_true (Some (workspace, RoleViewer) = Some (workspace, RoleViewer))) by done.
    rewrite orb_false_r, orb_true_r, (bool_decide_false (RoleViewer = RoleOperator)) by done.
    destruct (existsb _ groups) eqn:Ho; simpl in *; [done|].
    match goal with |- context [default RoleNone (if ?b then _ else _)] => destruct b end; simpl; by rewrite lookup_insert_eq.
Qed.
Lemma scopesOf_everywhere (r : Result) : scopesOf r !! "" = None.
Proof.
  unfold scopesOf. induction (res_Groups r) as [|g groups IH] using rev_ind; [done|]. rewrite foldl_snoc.
  set (before := foldl scope_step ∅ groups) in *. unfold scope_step. destruct (SplitScopedGroup g) as [[ws role]|]; [|done]. destruct (empty ws) eqn:He; [done|].
  apply empty_false in He. destruct (Role_Implies _ _); [by rewrite lookup_insert_ne|done].
Qed.

(** Every question about what an identity may act on is the same question: anywhere is some
    workspace, and the list is the workspaces, or all of them. *)
Theorem workspace_questions_agree (i : Identity) (role : Role) : role ≠ RoleNone →
  (CanAnywhere i role = true ↔ ∃ workspace, CanFor i role workspace = true) ∧
  match Workspaces i role with
  | None => ∀ workspace, CanFor i role workspace = true
  | Some l => StronglySorted String.le l ∧ NoDup l ∧ ∀ workspace, workspace ∈ l ↔ CanFor i role workspace = true
  end.
Proof.
  intros Hr. unfold CanAnywhere, Workspaces, CanFor. destruct (Role_Implies (id_Role i) role) eqn:Hi.
  { split; [|done]. split; [|done]. intros _. by exists "". }
  assert (∀ ws, Role_Implies (scoped i ws) role = true → is_Some (id_Scopes i !! ws)) as Hin.
  { intros ws. unfold scoped. destruct (id_Scopes i !! ws); [done|]. simpl. by rewrite none_implies. }
  split; [|split_and!].
  - rewrite existsb_exists. split.
    + intros ([ws r]&Hm&Him). exists ws. unfold scoped. apply list_elem_of_In, elem_of_map_to_list in Hm. simpl in Him. by rewrite Hm.
    + intros (ws&Him). destruct (Hin ws Him) as [r Hw]. exists (ws, r). split; [by apply list_elem_of_In, elem_of_map_to_list|].
      unfold scoped in Him. by rewrite Hw in Him.
  - apply StronglySorted_filter, sorted_keys_sorted.
  - apply NoDup_ListNoDup, List.NoDup_filter, NoDup_ListNoDup, NoDup_sorted_keys.
  - intros ws. rewrite elem_of_filter_bool, elem_of_sorted_keys. split; [by intros [_ ?]|]. intros Him. split; [by apply Hin|done].
Qed.

(** ** What was last granted *)

(** A proof explained at some moment: by which policy, with whose answers, for whom, refusing or
    not, and when. *)
Record look := mkLook {
  lk_policy : Policy; lk_dir : option (string → result string UserResult); lk_proof : Proof; lk_refuse : bool; lk_now : Z }.
Definition held_after window (ls : list look) : gmap string heldGrant :=
  foldl (λ held l, (explain (lk_policy l) (lk_dir l) window held (lk_proof l) (lk_refuse l) (lk_now l)).2) ∅ ls.

(** The evaluation a look makes, where the directory's answer about the address is [u]. *)
Definition looked_at (p : Policy) (proof : Proof) (u : UserResult) : Input :=
  mkInput (ToLower (TrimSpace (pf_Email proof))) (us_Groups u) (us_Authoritative u) (pf_GitHub proof) (pf_ServiceAccount proof) None.
(** A look at which the directory vouched for what it said. *)
Definition vouched_look email (r : Result) (l : look) : Prop :=
  ∃ resolve u, lk_dir l = Some resolve ∧ IsPerson (lk_proof l) = true ∧ ToLower (TrimSpace (pf_Email (lk_proof l))) = email ∧
    resolve email = Ok u ∧ us_Authoritative u = true ∧ r = Evaluate (lk_policy l) (looked_at (lk_policy l) (lk_proof l) u).

Lemma access_evaluate_held p window held inp now e g : (access_evaluate p window held inp now).2 !! e = Some g →
  held !! e = Some g ∨ e = in_Email inp ∧ in_Authoritative inp = true ∧ g = mkHeldGrant (Evaluate p inp) now.
Proof.
  unfold access_evaluate. destruct (empty _); [by left|]. destruct (in_Authoritative inp).
  - simpl. intros [[<- <-]|[_ ?]]%lookup_insert_Some; auto.
  - destruct (window <=? 0)%Z; [by left|]. destruct (held !! in_Email inp); [|by left]. destruct (_ <? _)%Z; [by left|].
    destruct (Role_Implies _ _); by left.
Qed.

(** What an evaluation answers: the policy's answer now, or one still held. *)
Lemma access_evaluate_result p window held inp now :
  (access_evaluate p window held inp now).1 = Evaluate p inp ∨
  ∃ g, held !! in_Email inp = Some g ∧ in_Authoritative inp = false ∧ (0 < window)%Z ∧ (now - hg_at g <= window)%Z ∧
    (access_evaluate p window held inp now).1 = hg_result g ∧ Role_Implies (roleOf (hg_result g)) (roleOf (Evaluate p inp)) = true.
Proof.
  unfold access_evaluate. destruct (empty _); [by left|]. destruct (in_Authoritative inp); [by left|].
  destruct (Z.leb_spec window 0); [by left|]. destruct (held !! in_Email inp) as [g|]; [|by left].
  destruct (Z.ltb_spec window (now - hg_at g)); [by left|]. destruct (Role_Implies _ _) eqn:Hr; [|by left].
  right. exists g. by split_and!.
Qed.

Lemma asked_Some dir proof refuse u : asked dir proof refuse = Ok (Some u) →
  ∃ resolve, dir = Some resolve ∧ IsPerson proof = true ∧ resolve (ToLower (TrimSpace (pf_Email proof))) = Ok u ∧
    (refuse = true → us_Authoritative u = true → us_InDomain u = true → us_Found u = true ∧ us_Suspended u = false).
Proof.
  unfold asked. destruct (bool_decide _), (IsPerson proof); simpl; try done. destruct dir as [resolve|]; [|done].
  destruct (resolve _) as [v|] eqn:Hv; [|done]. destruct refuse, (us_Authoritative v) eqn:Ha, (us_InDomain v) eqn:Hd; simpl;
    destruct (us_Found v) eqn:Hf, (us_Suspended v) eqn:Hs; simpl; intros [= <-]; exists resolve; split_and!; try done; congruence.
Qed.

(** A look that settles an address: the directory vouched for its answer, and the account was
    not refused for it. *)
Definition settled_look email (l : look) : Prop :=
  ToLower (TrimSpace (pf_Email (lk_proof l))) = email ∧
  ∃ u, asked (lk_dir l) (lk_proof l) (lk_refuse l) = Ok (Some u) ∧ us_Authoritative u = true.

Lemma access_evaluate_inserts p window held inp now : in_Email inp ≠ "" → in_Authoritative inp = true →
  (access_evaluate p window held inp now).2 !! in_Email inp = Some (mkHeldGrant (Evaluate p inp) now).
Proof. intros Hne Ha. unfold access_evaluate. rewrite (proj2 (empty_false _) Hne), Ha. apply lookup_insert_eq. Qed.

Lemma held_after_vouched window ls e g : held_after window ls !! e = Some g →
  ∃ before l since, ls = before ++ l :: since ∧ hg_at g = lk_now l ∧ vouched_look e (hg_result g) l ∧ Forall (λ l', ¬ settled_look e l') since.
Proof.
  unfold held_after. revert g. induction ls as [|l ls IH] using rev_ind; intros g; [simpl; by rewrite lookup_empty|].
  rewrite foldl_snoc. set (held := foldl _ ∅ ls) in *.
  assert (held !! e = Some g → ¬ settled_look e l → ∃ before l' since, ls ++ [l] = before ++ l' :: since ∧ hg_at g = lk_now l' ∧
    vouched_look e (hg_result g) l' ∧ Forall (λ l', ¬ settled_look e l') since) as Hold.
  { intros (before&l'&since&->&?&?&?)%IH Hl. exists before, l', (since ++ [l]). rewrite <- app_assoc. split_and!; [done..|].
    apply Forall_app. by split; [|repeat constructor]. }
  unfold explain. destruct (asked _ _ _) as [u|err] eqn:Hu; [|intros Hg; apply Hold; [exact Hg|]; intros (_&u&Hu'&_); congruence].
  set (inp := mkInput _ _ _ _ _ _). pose proof (access_evaluate_held (lk_policy l) window held inp (lk_now l) e g) as Hg.
  pose proof (access_evaluate_inserts (lk_policy l) window held inp (lk_now l)) as Hins.
  destruct (access_evaluate _ _ held inp _) as [r held']. cbn [fst snd] in Hg, Hins |- *. intros Hh.
  destruct (Hg Hh) as [Hsame|(->&Ha&->)]; [destruct (decide (e = in_Email inp ∧ us_Authoritative (default no_answer u) = true ∧ e ≠ "")) as [(->&Ha&Hne)|Hno]|].
  2: { apply Hold; [done|]. intros (Hemail&u'&Hu'&Ha'). rewrite Hu in Hu'. injection Hu' as ->. apply Hno. split_and!; [by symmetry|done|].
       intros ->. unfold asked in Hu. rewrite Hemail in Hu. by destruct (IsPerson _). }
  1: assert (g = mkHeldGrant (Evaluate (lk_policy l) inp) (lk_now l)) as -> by (specialize (Hins Hne Ha); congruence).
  all: destruct u as [u|]; [|done]; destruct (asked_Some _ _ _ _ Hu) as (resolve&?&?&?&_);
    exists ls, l, []; split; [done|]; split; [done|]; split; [|constructor]; exists resolve, u; by split_and!.
Qed.

(** The answer of the directory an explanation goes by, an address nobody was asked about being
    nobody's. *)
Definition answered_by (dir : option (string → result string UserResult)) (proof : Proof) : UserResult :=
  match asked dir proof false with Ok (Some u) => u | _ => no_answer end.

(** C35: A recovery sign-in is an operator, of no group and over no workspace.  Any other
    identity holds exactly what some evaluation of the policy gives it — the role its groups
    name, and the roles over single workspaces; the directory does not vouch that the account
    is not live; and that evaluation is today's, on what the directory says now, or, while the
    directory cannot vouch for it, the one of the last time it vouched for the address and the
    account was not refused, within the hold window and of a role no lower.  A refusal in
    between, of an account it vouched is suspended, does not take that one back
    ([refused_account_returns]). *)
Theorem Authorize_grants p dir window ls (c : Principal) now (i : Identity) :
  (Authorize p dir window (held_after window ls) c now).1 = Ok i →
  if bool_decide (pr_Source c = SourceRecovery) then id_Role i = Operator ∧ id_Groups i = [] ∧ id_Scopes i = ∅
  else
    let proof := proof_of_principal c in
    let email := ToLower (TrimSpace (pf_Email proof)) in
    let u := answered_by dir proof in
    (us_Authoritative u = true → us_InDomain u = true → us_Found u = true ∧ us_Suspended u = false) ∧
    ∃ r, id_Role i = roleOf r ∧ id_Groups i = res_Groups r ∧
      (∀ workspace, workspace ≠ "" → id_Scopes i !! workspace = scope_role (res_Groups r) workspace) ∧
      (r = Evaluate p (looked_at p proof u) ∨
       us_Authoritative u = false ∧
       ∃ before l since, ls = before ++ l :: since ∧ (now - lk_now l <= window)%Z ∧ vouched_look email r l ∧
         Forall (λ l', ¬ settled_look email l') since ∧
         Role_Implies (roleOf r) (roleOf (Evaluate p (looked_at p proof u))) = true).
Proof.
  unfold Authorize. destruct (bool_decide (pr_Source c = SourceRecovery)); [by intros [= <-]|]. intros Hi.
  set (proof := proof_of_principal c) in *. set (u0 := answered_by dir proof). unfold explain in Hi.
  destruct (asked dir proof true) as [u|err] eqn:Hu; [|done].
  assert (u0 = default (no_answer) u) as Hans.
  { unfold u0, answered_by. revert Hu. unfold asked. destruct (bool_decide _ && _); [destruct dir as [resolve|]|]; [|by intros [= <-]..].
    destruct (resolve _) as [v|]; [|done]. simpl. destruct (us_Authoritative v && us_InDomain v && _); [done|]. by intros [= <-]. }
  set (inp := mkInput _ _ _ _ _ _) in Hi. assert (inp = looked_at p proof u0) as Hinp by (unfold looked_at; by rewrite Hans).
  pose proof (access_evaluate_result p window (held_after window ls) inp now) as Hr.
  destruct (access_evaluate p window (held_after window ls) inp now) as [r held']. simpl in *. injection Hi as <-. simpl.
  split.
  { rewrite Hans. destruct u as [u|]; [|done]. destruct (asked_Some _ _ _ _ Hu) as (?&_&_&_&Hlive). by apply Hlive. }
  exists r. split; [done|]. split; [done|]. split; [intros ws Hws; by apply scopesOf_lookup|]. rewrite <- Hinp.
  destruct Hr as [->|(g&Hg&Ha&_&Hw&->&Him)]; [by left|]. right. split; [by rewrite Hans|].
  destruct (held_after_vouched _ _ _ _ Hg) as (before&l&since&Hl&Hat&Hv&Hsince). exists before, l, since.
  split_and!; [done|by rewrite <- Hat|exact Hv|exact Hsince|done].
Qed.

(** A person the directory vouches is not live is refused, and nobody else is. *)
Theorem Authorize_refuses p resolve window held (c : Principal) now :
  (Authorize p (Some resolve) window held c now).1 = Err (ErrSuspended (ToLower (TrimSpace (pf_Email (proof_of_principal c))))) ↔
  pr_Source c ≠ SourceRecovery ∧ pr_ServiceAccount c = None ∧ is_Some (Domain (ToLower (TrimSpace (pr_Email c)))) ∧
  ∃ u, resolve (ToLower (TrimSpace (pr_Email c))) = Ok u ∧ us_Authoritative u = true ∧ us_InDomain u = true ∧
    (us_Found u = false ∨ us_Suspended u = true).
Proof.
  unfold Authorize. case_bool_decide as Hrec; [split; [done|naive_solver]|]. unfold explain, proof_of_principal.
  destruct (pr_ServiceAccount c) as [account|] eqn:Hsa.
  { unfold asked. rewrite andb_false_r. split; [|naive_solver]. by destruct (access_evaluate _ _ _ _ _). }
  unfold asked. cbn [pf_Email]. rewrite andb_true_r. case_bool_decide as Hd.
  2: { split; [by destruct (access_evaluate _ _ _ _ _)|naive_solver]. }
  destruct (resolve _) as [u|why] eqn:Hu; [|split; [done|naive_solver]]. simpl.
  destruct (us_Authoritative u) eqn:Ha, (us_InDomain u) eqn:Hin, (us_Found u) eqn:Hf, (us_Suspended u) eqn:Hs; simpl;
    (split; [try (by destruct (access_evaluate _ _ _ _ _)); intros _; split_and!; try done; exists u; split_and!; auto
            |intros (_&_&_&u'&Hu'&?&?&[?|?]); simplify_eq; try done; congruence]).
Qed.

(** ** Who holds a group *)

Definition person_input (person : Person) : Input :=
  mkInput (pn_Email person) (pn_DirectoryGroups person) (pn_Authoritative person) None None None.

(** Listing the holders of a group, or the people who reach a client, misses nobody the policy
    gives it and adds nobody: live or not, with what the client's cap leaves of their
    lifetime. *)
Theorem HoldersOf_exact p people group client :
  (group ≠ "" → client = "" → ∀ email, email ∈ ho_Email <$> HoldersOf p people group client ↔
     ∃ person, person ∈ people ∧ pn_Email person = email ∧ holds p (person_input person) group) ∧
  (∀ c, group = "" → client ≠ "" → Set_Client p client = Some c → ∀ h, h ∈ HoldersOf p people group client ↔
     ∃ person, person ∈ people ∧ let r := Evaluate p (person_input person) in Client_Admits c r = true ∧
       h = mkHolder (pn_Email person) (pn_GivenName person) (pn_FamilyName person) (pn_Live person) (pn_Authoritative person)
             (List.filter (Has r) (c_Requires c)) (Cap c (res_Lifetime r))) ∧
  (client ≠ "" → Set_Client p client = None → HoldersOf p people group client = []).
Proof.
  unfold HoldersOf. split_and!.
  - intros Hg -> email. simpl. rewrite list_elem_of_fmap. setoid_rewrite list_elem_of_omap. unfold holder_of.
    rewrite (proj2 (empty_false group)) by done. simpl. fold person_input. split.
    + intros (h&->&person&Hin&Hh). exists person. destruct (Has _ group) eqn:Hhas; [|done]. simpl in Hh. injection Hh as <-.
      split_and!; [done..|]. by apply elem_of_Evaluate, str_in_true.
    + intros (person&Hin&<-&Hh). apply elem_of_Evaluate, str_in_true in Hh. eexists. split; [|exists person; split; [done|]].
      2: { unfold Has, person_input in *. rewrite Hh. simpl. reflexivity. }
      done.
  - intros c -> Hc Hcl h. rewrite (proj2 (empty_false client)) by done. rewrite Hcl. simpl. rewrite list_elem_of_omap.
    unfold holder_of. simpl. fold person_input. split.
    + intros (person&Hin&Hh). exists person. split; [done|]. unfold person_input. destruct (Client_Admits c _); [|done]. simpl in *. by injection Hh as <-.
    + intros (person&Hin&Ha&->). exists person. split; [done|]. unfold person_input in *. by rewrite Ha.
  - intros Hc Hcl. rewrite (proj2 (empty_false client)) by done. by rewrite Hcl.
Qed.

(** ** Runs *)

Definition console_policy : Policy :=
  mkPolicy 1 None {[GroupOperators := mkGroup ["ops@example.com"] []; "C0example:access-roster:viewer" := mkGroup ["acme@example.com"] []]}
    ∅ ∅ ∅ no_documents ∅ ∅ ∅ ∅.
Definition ada_at_console : Principal := mkPrincipal "Ada@example.com" "sub" SourceDirectory "" ∅ None.
Definition ada_live : UserResult := mkUserResult "ada@example.com" "C0example" true true false ["ops@example.com"; "acme@example.com"] "Ada" "Lovelace" true (Some 0%Z).
Definition ada_suspended : UserResult := mkUserResult "ada@example.com" "C0example" true true true [] "Ada" "Lovelace" true (Some 0%Z).
Definition ada_unsure : UserResult := mkUserResult "ada@example.com" "C0example" true true true [] "Ada" "Lovelace" false (Some 0%Z).
Definition saying (u : UserResult) : option (string → result string UserResult) := Some (λ _, Ok u).
Definition looks (u : UserResult) now : look := mkLook console_policy (saying u) (proof_of_principal ada_at_console) true now.

(** A refusal does not take back what was held: an account the directory vouched is suspended,
    and refused for it, is an operator again as soon as the directory stops vouching,
    until the window since its last grant has passed. *)
Theorem refused_account_returns :
  let held := held_after 100 [looks ada_live 0; looks ada_suspended 10] in
  let role_at u (now : Z) := match (Authorize console_policy (saying u) 100 held ada_at_console now).1 with Ok i => Some (id_Role i) | Err _ => None end in
  role_at ada_suspended 11%Z = None ∧ role_at ada_unsure 12%Z = Some Operator ∧ role_at ada_unsure 101%Z = Some RoleNone.
Proof. vm_compute. by split_and!. Qed.

Definition ladder_policy : Policy :=
  mkPolicy 1 (Some sample_vocabulary) {["devel:k8s:viewer" := mkGroup ["staff@example.com"] []; "devel:k8s:operator" := mkGroup ["sre@example.com"] []]}
    ∅ ∅ ∅ no_documents ∅ ∅ ∅ ∅.

(** Who holds a group is shown with the last of the reasons only: somebody a directory group
    puts in it, who holds it through a higher role as well, is shown with none. *)
Theorem HoldersOf_last_reason :
  let staff_and_sre := mkPerson "ada@example.com" "Ada" "Lovelace" "C0example" true true ["staff@example.com"; "sre@example.com"] "" in
  let staff := mkPerson "bob@example.com" "Bob" "" "C0example" true true ["staff@example.com"] "" in
  (λ h, (ho_Email h, ho_Via h)) <$> HoldersOf ladder_policy [staff_and_sre; staff] "devel:k8s:viewer" "" =
    [("ada@example.com", []); ("bob@example.com", ["staff@example.com"])].
Proof. vm_compute. reflexivity. Qed.

Lemma workspace_questions_agree_witness :
  let i := mkIdentity "ada@example.com" "" "" "" SourceDirectory RoleNone [] [] [] 0 {["C0example" := Viewer; "C1other" := Operator]} in
  Workspaces i Operator = Some ["C1other"] ∧ ∃ workspace, CanFor i Operator workspace = true.
Proof.
  intros i. destruct (workspace_questions_agree i Operator) as [Hany _]; [discriminate|]. split; [vm_compute; reflexivity|].
  apply Hany. vm_compute. reflexivity.
Defined.

Definition ada_looks : list look := [looks ada_live 0; looks ada_suspended 10].
Definition ada_identity : Identity := match (Authorize console_policy (saying ada_unsure) 100 (held_after 100 ada_looks) ada_at_console 12).1 with
  | Ok i => i | Err _ => mkIdentity "" "" "" "" SourceOIDC RoleNone [] [] [] 0 ∅ end.

Lemma Authorize_grants_witness : ∃ before l since, ada_looks = before ++ l :: since ∧ (12 - lk_now l <= 100)%Z.
Proof.
  destruct (Authorize_grants console_policy (saying ada_unsure) 100 ada_looks ada_at_console 12 ada_identity)
    as (_&r&Hrole&_&_&[Hr|(_&before&l&since&Hl&Hw&_)]); [vm_compute; reflexivity|..].
  - exfalso. rewrite Hr in Hrole. vm_compute in Hrole. discriminate.
  - exists before, l, since. split; [exact Hl|exact Hw].
Defined.

Lemma HoldersOf_exact_witness :
  "bob@example.com" ∈ ho_Email <$> HoldersOf sample_policy [mkPerson "bob@example.com" "Bob" "" "C0example" false true ["sre@example.com"] ""] "rung:sre" "".
Proof.
  apply (HoldersOf_exact sample_policy [mkPerson "bob@example.com" "Bob" "" "C0example" false true ["sre@example.com"] ""] "rung:sre" ""); [discriminate|reflexivity|].
  eexists. split; [by left|]. split; [reflexivity|]. apply elem_of_Evaluate, (bool_decide_unpack _). vm_compute. exact I.
Defined.
