(* ===== verification/Cookies.v ===== *)
(** * Cookies: what the hub signs into a browser

    [internal/access/state.go] and [internal/access/session.go]: the state an OAuth flow
    carries to its callback, and the console's session cookie, both signed with the
    hub's session key and kept nowhere else.  The signature is HMAC-SHA256 over the
    body, in unpadded Base64; a comparison in constant time is equality.  The nonce is
    an argument, a time is nanoseconds, and the JSON of a session's body is the
    section's parameter.

    The theorems: a state says what it was issued with until it expires; a state or a
    session that is accepted carries this key's signature over all it says; and though
    both are signed with one key, neither is ever taken for the other. *)

From Stdlib Require Import DecimalString DecimalZ.
From S2P Require Import Prelude GoStrings Sha256 Base64 Names Access.

Implicit Types (key body signature state nonce s : string) (now ttl : Z).

(** ** Go's standard library *)

Section library.
#[local] Open Scope Z_scope.

(** [hmac.New(sha256.New, key)], written to once: RFC 2104 at SHA-256's block of 64 bytes. *)
Definition hmac_key key : list Z :=
  let k := if (64 <? String.length key)%nat then Sum256 key else bytes_of key in
  k ++ replicate (64 - length k) 0.
Definition hmac_sha256 key (message : string) : list Z :=
  let masked (pad : Z) := string_of_bytes (Z.lxor pad <$> hmac_key key) in
  Sum256 (masked 92 +:+ string_of_bytes (Sum256 (masked 54 +:+ message))).

(** [time.Time.Unix], of a time after the epoch. *)
Definition Unix now : Z := now / 1000000000.

(** [strconv.FormatInt(z, 10)] *)
Definition FormatInt (z : Z) : string := NilZero.string_of_int (Z.to_int z).

(** [strconv.ParseInt(s, 10, 64)]: [None] is its error. *)
Definition int64 (z : Z) : Prop := - 9223372036854775808 <= z < 9223372036854775808.
#[export] Instance int64_dec z : Decision (int64 z).
Proof. unfold int64. apply _. Defined.
Definition ParseInt s : option Z :=
  let digits (s : string) := Z.of_uint <$> NilZero.uint_of_string s in
  let z := match s with
    | String "+" rest => digits rest
    | String "-" rest => Z.opp <$> digits rest
    | _ => digits s
    end in
  z ← z; if decide (int64 z) then Some z else None.
End library.

Example hmac_vector : hex (hmac_sha256 "Jefe" "what do ya want for nothing?") =
  "5bdcc146bf60754e6a042426089575c75a003f089d2739839dec58b964ec3843".
Proof. by vm_compute. Qed.
Example ParseInt_signs : ParseInt <$> ["-42"; "+42"; "042"; ""; "-"; "9223372036854775808"; "-9223372036854775808"] =
  [Some (-42)%Z; Some 42%Z; Some 42%Z; None; None; None; Some (-9223372036854775808)%Z].
Proof. by vm_compute. Qed.

(** ** Signatures *)

(** [internal/access/state.go:StateCodec.sign] *)
Definition sign key body : string := EncodeToString (string_of_bytes (hmac_sha256 key body)).

(** ** The state of a flow *)

(** [internal/access/state.go:type Binding] *)
Record Binding := mkBinding { bi_Bind : string; bi_Actor : string; bi_Owner : string }.

(** [internal/access/state.go:type StateCodec] *)
Record StateCodec := mkCodec { sc_key : string; sc_ttl : Z }.

(** [internal/access/state.go:NewStateCodec] *)
Definition NewStateCodec key ttl : StateCodec := mkCodec key (if (ttl <=? 0)%Z then 10 * 60 * 1000000000 else ttl).

(** Why a state is refused: each is [ErrBadState], with the part that is wrong. *)
Inductive state_error : Type := Malformed | BadSignature | BadOwner | BadExpiry | Expired | BadBinding | BadActor.

(** [internal/access/state.go:134-141 StateCodec.IssueAs] *)
Definition state_body (c : StateCodec) (b : Binding) nonce now : string :=
  Join [EncodeToString nonce; EncodeToString (bi_Bind b); EncodeToString (bi_Actor b); EncodeToString (bi_Owner b);
        FormatInt (Unix (now + sc_ttl c))] ":".

(** [internal/access/state.go:StateCodec.IssueAs] *)
Definition IssueAs (c : StateCodec) (b : Binding) nonce now : string :=
  let body := state_body c b nonce now in body +:+ "." +:+ sign (sc_key c) body.

(** [internal/access/state.go:StateCodec.Issue] *)
Definition Codec_Issue (c : StateCodec) (bind : string) nonce now : string := IssueAs c (mkBinding bind "" "") nonce now.

(** [internal/access/state.go:164-177 StateCodec.VerifyBinding]: the five parts, and the owner. *)
Definition state_parts body : result state_error (string * string * string * string) :=
  match split_on ":" body with
  | [_; bind; actor; expires] => Ok (bind, actor, "", expires)
  | [_; bind; actor; owner; expires] =>
      match DecodeString owner with Some owner => Ok (bind, actor, owner, expires) | None => Err BadOwner end
  | _ => Err Malformed
  end.

(** [internal/access/state.go:StateCodec.VerifyBinding] *)
Definition VerifyBinding (c : StateCodec) state now : result state_error Binding :=
  match cut_on "." state with
  | None => Err Malformed
  | Some (body, signature) =>
      if negb (bool_decide (signature = sign (sc_key c) body)) then Err BadSignature
      else
        '(bind, actor, owner, expires) ← state_parts body;
        match ParseInt expires with
        | None => Err BadExpiry
        | Some expires =>
            if (expires <=? Unix now)%Z then Err Expired
            else match DecodeString bind, DecodeString actor with
            | None, _ => Err BadBinding
            | _, None => Err BadActor
            | Some bind, Some actor => Ok (mkBinding bind actor owner)
            end
        end
  end.

(** [internal/access/state.go:StateCodec.Verify] *)
Definition Codec_Verify (c : StateCodec) state now : result state_error string := bi_Bind <$> VerifyBinding c state now.

(** ** The console's session *)

(** [internal/access/session.go:type payload] *)
Record payload := mkPayload {
  py_Email : string; py_Subject : string; py_Source : Source; py_Issuer : string; py_Claims : gmap string (list string); py_Expires : Z }.

(** [internal/access/session.go:type Sessions] *)
Record ConsoleSessions := mkConsoleSessions { cs_key : string; cs_lifetime : Z }.

(** [internal/access/session.go:45-49 SessionKeyBytes] *)
Definition SessionKeyBytes : nat := 32.

(** [internal/access/session.go:NewSessions]: [None] is a key of the wrong length. *)
Definition NewSessions key (lifetime : Z) : option ConsoleSessions :=
  if negb (String.length key =? SessionKeyBytes) then None
  else Some (mkConsoleSessions key (if (lifetime <=? 0)%Z then 12 * 3600 * 1000000000 else lifetime)).

(** [internal/access/session.go:Sessions.sign]: the same signature. *)
Definition session_sign (c : ConsoleSessions) encoded : string := sign (cs_key c) encoded.

(** [ErrNoSession], with what is wrong. *)
Inductive session_error : Type := NoCookie | NoSignature | WrongSignature | BadEncoding | BadContent | SessionExpired.

Section sessions.
Context (marshal : payload → string) (unmarshal : string → option payload).

Definition payload_of (c : ConsoleSessions) (p : Principal) now : payload :=
  mkPayload (pr_Email p) (pr_Subject p) (pr_Source p) (pr_Issuer p) (pr_Claims p) (Unix (now + cs_lifetime c)).

(** [internal/access/session.go:Sessions.Issue]: the cookie's value. *)
Definition Console_Issue (c : ConsoleSessions) (p : Principal) now : string :=
  let encoded := EncodeToString (marshal (payload_of c p now)) in encoded +:+ "." +:+ session_sign c encoded.

(** [internal/access/session.go:Sessions.Read]; [None] is a request without the cookie. *)
Definition Console_Read (c : ConsoleSessions) (cookie : option string) now : result session_error Principal :=
  match cookie with
  | None => Err NoCookie
  | Some v =>
      match cut_on "." v with
      | None => Err NoSignature
      | Some (encoded, signature) =>
          if negb (bool_decide (signature = session_sign c encoded)) then Err WrongSignature
          else match DecodeString encoded with
          | None => Err BadEncoding
          | Some body =>
              match unmarshal body with
              | None => Err BadContent
              | Some p =>
                  if (py_Expires p <=? Unix now)%Z then Err SessionExpired
                  else Ok (mkPrincipal (py_Email p) (py_Subject p) (py_Source p) (py_Issuer p) (py_Claims p) None)
              end
          end
      end
  end.
End sessions.

(** ** Lemmas *)

Lemma string_of_uint_plain d c : (∀ n, n < 10 → byte_eqb c (ascii_of_nat (48 + n)) = false) → contains_byte c (NilEmpty.string_of_uint d) = false.
Proof.
  intros Hc. induction d as [|d IH|d IH|d IH|d IH|d IH|d IH|d IH|d IH|d IH|d IH]; [done|..]; cbn [NilEmpty.string_of_uint];
    rewrite contains_byte_cons, IH, orb_false_r;
    [apply (Hc 0)|apply (Hc 1)|apply (Hc 2)|apply (Hc 3)|apply (Hc 4)|apply (Hc 5)|apply (Hc 6)|apply (Hc 7)|apply (Hc 8)|apply (Hc 9)]; lia.
Qed.
Lemma FormatInt_plain z c : c = "."%char ∨ c = ":"%char → contains_byte c (FormatInt z) = false.
Proof.
  intros Hc. assert (∀ d, contains_byte c (NilZero.string_of_uint d) = false) as Hu.
  { intros d. unfold NilZero.string_of_uint. assert (contains_byte c (NilEmpty.string_of_uint d) = false).
    { apply string_of_uint_plain. intros n Hn. destruct Hc as [-> | ->]; do 10 (destruct n as [|n]; [done|]); lia. }
    destruct d; try done. by destruct Hc as [-> | ->]. }
  unfold FormatInt. destruct (Z.to_int z) as [d|d]; cbn [NilZero.string_of_int]; [apply Hu|]. rewrite contains_byte_cons, Hu. by destruct Hc as [-> | ->].
Qed.

Lemma uint_sign d r : NilZero.string_of_uint d ≠ String "+" r ∧ NilZero.string_of_uint d ≠ String "-" r.
Proof. by destruct d. Qed.

Lemma ParseInt_FormatInt z : int64 z → ParseInt (FormatInt z) = Some z.
Proof.
  intros Hz. unfold FormatInt, ParseInt. pose proof (DecimalZ.of_to z) as Hback.
  assert (∀ d, d ≠ Decimal.Nil → NilZero.uint_of_string (NilZero.string_of_uint d) = Some d) as Hu by apply NilZero.usu.
  assert (∃ d, (Z.to_int z = Decimal.Pos d ∨ Z.to_int z = Decimal.Neg d) ∧ d ≠ Decimal.Nil) as (d&Hd&Hne).
  { destruct z as [|p|p]; simpl; [by exists (Decimal.D0 Decimal.Nil); auto|..]; eexists; (split; [eauto|]);
      apply DecimalPos.Unsigned.to_uint_nonnil. }
  destruct Hd as [Hd|Hd]; rewrite Hd in *; simpl.
  - destruct (uint_sign d "") as [Hp Hm]. assert ((match NilZero.string_of_uint d with
      | String "+" rest => Z.of_uint <$> NilZero.uint_of_string rest
      | String "-" rest => Z.opp <$> (Z.of_uint <$> NilZero.uint_of_string rest)
      | _ => Z.of_uint <$> NilZero.uint_of_string (NilZero.string_of_uint d) end) = Some z) as ->; [|simpl; by rewrite decide_True].
    rewrite Hu by done. simpl in *. rewrite Hback. by destruct d.
  - rewrite Hu by done. simpl in *. rewrite Hback. by rewrite decide_True.
Qed.

Lemma colon_never_decodes s : contains_byte ":" s = true → DecodeString s = None.
Proof.
  intros Hs. unfold DecodeString.
  assert (mapM char_sextet (List.filter (λ c, negb (line_break c)) (String.list_ascii_of_string s)) = None) as ->; [|done].
  induction s as [|a s IH]; [done|]. rewrite contains_byte_cons in Hs. cbn [String.list_ascii_of_string List.filter].
  apply orb_true_iff in Hs as [Ha|Hs].
  - apply byte_eqb_true in Ha as <-. done.
  - specialize (IH Hs). destruct (negb (line_break a)); [|done]. cbn [mapM]. destruct (char_sextet a); simpl; [|done]. by rewrite IH.
Qed.

Lemma split_on_joined c s t : contains_byte c s = false → split_on c (s +:+ String c "" +:+ t) = s :: split_on c t.
Proof. exact (split_on_app c s t). Qed.

Lemma state_body_spec (c : StateCodec) (b : Binding) nonce now : contains_byte "." (state_body c b nonce now) = false ∧
  split_on ":" (state_body c b nonce now) =
    [EncodeToString nonce; EncodeToString (bi_Bind b); EncodeToString (bi_Actor b); EncodeToString (bi_Owner b); FormatInt (Unix (now + sc_ttl c))].
Proof.
  unfold state_body. cbn [Join].
  pose proof (EncodeToString_plain nonce) as [Hn1 Hn2]. pose proof (EncodeToString_plain (bi_Bind b)) as [Hb1 Hb2].
  pose proof (EncodeToString_plain (bi_Actor b)) as [Ha1 Ha2]. pose proof (EncodeToString_plain (bi_Owner b)) as [Ho1 Ho2].
  pose proof (FormatInt_plain (Unix (now + sc_ttl c)) "." ltac:(auto)) as He1. pose proof (FormatInt_plain (Unix (now + sc_ttl c)) ":" ltac:(auto)) as He2.
  split.
  - rewrite !contains_byte_app, Hn1, Hb1, Ha1, Ho1, He1. done.
  - do 4 rewrite split_on_joined by done. by rewrite split_on_free.
Qed.

(** ** The properties *)

(** A state comes back as the binding it was issued with, under the key that issued it, until
    it expires, to the second; and not from then on. *)
Theorem IssueAs_roundtrip (c : StateCodec) (b : Binding) nonce now later : int64 (Unix (now + sc_ttl c)) →
  VerifyBinding c (IssueAs c b nonce now) later = if (Unix (now + sc_ttl c) <=? Unix later)%Z then Err Expired else Ok b.
Proof.
  intros Hz. destruct (state_body_spec c b nonce now) as [Hdot Hsplit]. unfold VerifyBinding, IssueAs.
  change ("." +:+ sign (sc_key c) (state_body c b nonce now)) with (String "." (sign (sc_key c) (state_body c b nonce now))).
  rewrite cut_on_app by done. rewrite bool_decide_true by done. unfold state_parts. rewrite Hsplit. simpl. rewrite Base64_roundtrip. simpl.
  rewrite ParseInt_FormatInt by done. destruct (_ <=? _)%Z; [done|]. rewrite !Base64_roundtrip. by destruct b.
Qed.

(** A state that is accepted carries this key's signature over every part of what it says —
    whose, by whom, for which owner, and until when, which is still to come. *)
Theorem accepted_state_signed (c : StateCodec) state now (b : Binding) : VerifyBinding c state now = Ok b →
  ∃ body bind actor expires t, state = body +:+ "." +:+ sign (sc_key c) body ∧
    state_parts body = Ok (bind, actor, bi_Owner b, expires) ∧
    DecodeString bind = Some (bi_Bind b) ∧ DecodeString actor = Some (bi_Actor b) ∧
    ParseInt expires = Some t ∧ (Unix now < t)%Z.
Proof.
  unfold VerifyBinding. destruct (cut_on "." state) as [[body signature]|] eqn:Hcut; [|done]. apply cut_on_spec in Hcut as [-> _].
  case_bool_decide as Hs; simpl; [|done]. subst signature. destruct (state_parts body) as [[[[bind actor] owner] expires]|e] eqn:Hp; simpl; [|done].
  destruct (ParseInt expires) as [t|] eqn:Ht; [|done]. destruct (Z.leb_spec t (Unix now)); [done|].
  destruct (DecodeString bind) as [b1|] eqn:Hb; [|done]. destruct (DecodeString actor) as [a1|] eqn:Ha; [|done].
  intros [= <-]. exists body, bind, actor, expires, t. by split_and!.
Qed.

Section session_properties.
Context (marshal : payload → string) (unmarshal : string → option payload).

(** A session comes back as the principal it was issued for, until it expires; the workload a
    principal may be is not in it. *)
Theorem session_roundtrip (c : ConsoleSessions) (p : Principal) now later :
  unmarshal (marshal (payload_of c p now)) = Some (payload_of c p now) →
  Console_Read unmarshal c (Some (Console_Issue marshal c p now)) later =
    if (Unix (now + cs_lifetime c) <=? Unix later)%Z then Err SessionExpired
    else Ok (mkPrincipal (pr_Email p) (pr_Subject p) (pr_Source p) (pr_Issuer p) (pr_Claims p) None).
Proof.
  intros Hj. unfold Console_Read, Console_Issue. set (encoded := EncodeToString _).
  change ("." +:+ session_sign c encoded) with (String "." (session_sign c encoded)).
  rewrite cut_on_app by apply EncodeToString_plain. rewrite bool_decide_true by done. simpl. unfold encoded. by rewrite Base64_roundtrip, Hj.
Qed.

(** A session that is accepted is one this key signed, whole, and has not expired. *)
Theorem accepted_session_signed (c : ConsoleSessions) v now (p : Principal) : Console_Read unmarshal c (Some v) now = Ok p →
  ∃ encoded body y, v = encoded +:+ "." +:+ sign (cs_key c) encoded ∧ DecodeString encoded = Some body ∧ unmarshal body = Some y ∧
    p = mkPrincipal (py_Email y) (py_Subject y) (py_Source y) (py_Issuer y) (py_Claims y) None ∧ (Unix now < py_Expires y)%Z.
Proof.
  unfold Console_Read. destruct (cut_on "." v) as [[encoded signature]|] eqn:Hcut; [|done]. apply cut_on_spec in Hcut as [-> _].
  case_bool_decide as Hs; simpl; [|done]. subst signature. destruct (DecodeString encoded) as [body|] eqn:Hb; [|done].
  destruct (unmarshal body) as [y|] eqn:Hy; [|done]. destruct (Z.leb_spec (py_Expires y) (Unix now)); [done|]. intros [= <-].
  exists encoded, body, y. by split_and!.
Qed.

(** A state and a session are signed with one key, and nothing is accepted as both: what a flow
    hands a browser never signs it in, whoever the console's session is read for. *)
Theorem state_is_no_session (c : StateCodec) (s : ConsoleSessions) v now later (b : Binding) :
  VerifyBinding c v now = Ok b → ∀ p, Console_Read unmarshal s (Some v) later ≠ Ok p.
Proof.
  unfold VerifyBinding, Console_Read. destruct (cut_on "." v) as [[body signature]|]; [|done].
  destruct (negb (bool_decide (signature = sign (sc_key c) body))); [done|]. intros Hv p.
  assert (contains_byte ":" body = true) as Hcolon.
  { destruct (contains_byte ":" body) eqn:Hc; [done|]. unfold state_parts in Hv. by rewrite split_on_free in Hv. }
  destruct (negb _); [done|]. by rewrite colon_never_decodes.
Qed.
End session_properties.

(** ** Runs *)

Definition sample_codec : StateCodec := NewStateCodec "0123456789abcdef0123456789abcdef" 0.
Definition sample_binding : Binding := mkBinding "google:C0example" "ada@example.com" "C0example".
Definition sample_state : string := IssueAs sample_codec sample_binding "nonce-of-16-byte" 1000000000.

Lemma IssueAs_roundtrip_witness : VerifyBinding sample_codec sample_state 600000000000 = Ok sample_binding ∧
  VerifyBinding sample_codec sample_state 601000000000 = Err Expired.
Proof.
  split; unfold sample_state; rewrite (IssueAs_roundtrip sample_codec sample_binding) by (vm_compute; split; congruence); vm_compute; reflexivity.
Defined.

Lemma accepted_state_signed_witness : ∃ body, sample_state = body +:+ "." +:+ sign (sc_key sample_codec) body.
Proof.
  destruct (accepted_state_signed sample_codec sample_state 600000000000 sample_binding) as (body&_&_&_&_&H&_); [vm_compute; reflexivity|].
  exists body. exact H.
Defined.

(** A body that carries no more than the address, for the runs. *)
Definition plain_marshal (y : payload) : string := py_Email y.
Definition plain_unmarshal (s : string) : option payload := Some (mkPayload s "" SourceDirectory "" ∅ 1000).
Definition sample_sessions : ConsoleSessions := mkConsoleSessions "0123456789abcdef0123456789abcdef" 999000000000.
Definition ada_principal : Principal := mkPrincipal "ada@example.com" "" SourceDirectory "" ∅ None.

Lemma session_roundtrip_witness :
  Console_Read plain_unmarshal sample_sessions (Some (Console_Issue plain_marshal sample_sessions ada_principal 1000000000)) 5 = Ok ada_principal.
Proof. rewrite (session_roundtrip plain_marshal plain_unmarshal sample_sessions ada_principal); vm_compute; reflexivity. Defined.

Lemma accepted_session_signed_witness : ∃ encoded,
  Console_Issue plain_marshal sample_sessions ada_principal 1000000000 = encoded +:+ "." +:+ sign (cs_key sample_sessions) encoded.
Proof.
  destruct (accepted_session_signed plain_unmarshal sample_sessions (Console_Issue plain_marshal sample_sessions ada_principal 1000000000) 5 ada_principal)
    as (encoded&_&_&H&_); [vm_compute; reflexivity|]. exists encoded. exact H.
Defined.

Lemma state_is_no_session_witness : Console_Read plain_unmarshal sample_sessions (Some sample_state) 5 ≠ Ok ada_principal.
Proof. apply (state_is_no_session plain_unmarshal sample_codec sample_sessions sample_state 600000000000 5 sample_binding). vm_compute. reflexivity. Defined.
