(* ===== verification/SignIn.v ===== *)
(** * SignIn: the pages a person signs in and out through

    [internal/issuer/signin.go]: each handler decides on one answer, over the storage
    ([Storage]), the browser sign-ins ([SSO]), the sessions they opened ([Sessions]) and
    the signed state of the flow ([Cookies]).  A handler is a step of the process: what
    it reads of the request is its arguments, and what it sends back is a [reply] — the
    page or redirect, the cookies it sets, and the sessions whose clients are told.  The
    words and the HTML of a page are left out; what a page is about is in its
    constructor. *)

From S2P Require Import Prelude GoStrings NetUrl Names Policy Validate Evaluate PolicySet Port IssuerState Sessions KeyRing SSO Issuer ClientDoc Storage Cookies.

Implicit Types (id subject identity how clientID kind request state code nonce : string) (now : Z).

(** ** What the pages are given *)

(** [internal/issuer/signin.go:type SignIn]: a directory a person can prove who they are with. *)
Record Provider := mkProvider { pv_Kind : string; pv_URL : string → result string string; pv_Identify : string → result string string }.

(** [internal/issuer/signin.go:type SignInDeps]: the fields a decision reads.  Browser sign-ins by
    their lifetime, where there are any; recovery by what it verifies. *)
Record SignInDeps := mkDeps {
  de_Recovery : option (string → result storage_error string); de_AfterSignOut : string; de_Providers : list Provider;
  de_State : StateCodec; de_SSO : option Z; de_ConsoleMount : string }.

(** [internal/issuer/signin.go:190-193 SignInRoutes]: the providers by kind. *)
Definition providers_of (d : SignInDeps) : gmap string Provider :=
  foldl (λ m provider, <[pv_Kind provider := provider]> m) ∅ (de_Providers d).

(** What a handler answers. *)
Inductive answer : Type :=
| Completed (request : string)                      (* back to the library, the request complete *)
| ToProvider (url : string) | ToStart (kind request : string)
| ToClient (uri code why state : string)            (* an OAuth error, at the client's own address *)
| Chooser (kinds : list string) (recovery : bool) (pending : Pending)
| NotFromHere | NobodyCan | SignInRequired (pending : Pending)
| NotForThis (pending : Pending) | Unaudited
| HttpError (status : Z)
| Landing (url : string).

(** The sign-in's cookie and the flow's, each set to a value, cleared by the empty one, or left;
    and the sessions announced as ended. *)
Record reply := mkReply { re_answer : answer; re_sso : option string; re_login : option string; re_announced : list Session }.
Definition plain (a : answer) : reply := mkReply a None None [].

(** [internal/issuer/provider.go:314-317 signedOutPath] *)
Definition signedOutPath : string := "/signed-out".

(** [internal/issuer/signin.go:providerName] *)
Definition providerName kind : string :=
  if bool_decide (kind = "google") then "Google" else if bool_decide (kind = "entra") then "Microsoft" else kind.

(** [internal/issuer/signin.go:signIn.refuse] *)
Definition refuse_client (p : Pending) (code why : string) : answer :=
  if empty (pe_RedirectURI p) then SignInRequired p
  else match url_Parse (pe_RedirectURI p) with
  | None => SignInRequired p
  | Some _ => ToClient (pe_RedirectURI p) code why (pe_State p)
  end.

(** [url.PathEscape] *)
Definition hex_upper (n : nat) : ascii := ascii_of_nat (if n <? 10 then 48 + n else 55 + n).
Fixpoint PathEscape (s : string) : string :=
  match s with
  | EmptyString => EmptyString
  | String c rest =>
      if is_letter c || is_digit c || contains_byte c "-_.~$&+:=@" then String c (PathEscape rest)
      else String "%" (String (hex_upper (code c / 16)) (String (hex_upper (code c mod 16)) (PathEscape rest)))
  end.

Definition no_pending : Pending := mkPending false false 0 "" "" "" "" None.

Section handlers.
Context {V S : Type} `{IState V S} `{Value V} `{Document V Session} `{Document V token_record} `{Document V authRequest} `{Document V SSOSession}.
Context (i : Issuer) (directory : string → result string Standing) (documents : string → origin) (durable : event → option string).
Context (d : SignInDeps).

(** [internal/issuer/signin.go:signIn.pendingOf] *)
Definition pendingOf request : W S Pending :=
  if empty request then mret no_pending
  else r ← try_ (Storage_Pending i request); mret (match r with Ok p => p | Err _ => no_pending end).

(** *** Signing out *)

(** A session without a refresh token, which the index does not know: who, where, by which
    sign-in. *)
Definition bare_session clientID identity id : Session := mkSession "" identity clientID "" [] "" id None 0 0 None.

(** [internal/issuer/signin.go:691-747 signOut]: what the sign-in opened, and who is told. *)
Definition end_opened (record : SSOSession) id (sparingLive : bool) : W S (list Session) :=
  let opened := mkQuery (so_Identity record) "" id false in
  held ← try_ (stored (Sessions_List opened));
  let held := match held with Ok l => l | Err _ => [] end in
  involved ← try_ (stored (Involved id));
  let others := match involved with
    | Ok l => (λ clientID, bare_session clientID (so_Identity record) id) <$> List.filter (λ c, negb (str_in c (se_ClientID <$> held))) l
    | Err _ => []
    end in
  if sparingLive then mret others
  else
    ended ← try_ (stored (Revoke opened));
    (match ended with Ok n => record_event (SessionsEnded (so_Identity record) n) | Err _ => mret tt end) ;;
    mret (held ++ others).

(** [internal/issuer/signin.go:signOut]: the cookie, and who is told. *)
Definition sign_out id (sparingLive : bool) : W S (option string * list Session) :=
  match de_SSO d with
  | None => mret (None, [])
  | Some _ =>
      announced ← (if empty id then mret []
        else
          found ← try_ (stored (SSO_Get id));
          announced ← match found with Ok (Some record) => end_opened record id sparingLive | _ => mret [] end;
          _ ← try_ (stored (End_ id));
          mret announced);
      mret (Some "", announced)
  end.

(** [internal/issuer/signin.go:SignOut] *)
Definition SignOut id : W S (option string * list Session) := sign_out id false.

(** [internal/issuer/signin.go:signIn.logout] *)
Definition logout id : W S reply :=
  '(cookie, announced) ← SignOut id;
  let where_ := TrimSpace (de_AfterSignOut d) in
  mret (mkReply (Landing (if empty where_ then signedOutPath else where_)) cookie None announced).

(** *** Refusals *)

(** [internal/issuer/signin.go:signIn.refuseUnentitled] *)
Definition refuseUnentitled (e : storage_error) request : W S (option answer) :=
  if negb (is_not_entitled e) then mret None else p ← pendingOf request; mret (Some (NotForThis p)).

(** [internal/issuer/signin.go:signIn.refuseUnaudited] *)
Definition refuseUnaudited (e : storage_error) : option answer := match e with ErrUnaudited _ => Some Unaudited | _ => None end.

(** Either, in that order. *)
Definition refused (e : storage_error) request : W S (option answer) :=
  a ← refuseUnentitled e request; mret (match a with Some a => Some a | None => refuseUnaudited e end).

(** *** A sign-in begins and is taken back *)

(** [internal/issuer/signin.go:signIn.established]; [id] is what [Begin] draws. *)
Definition established identity how id : W S (Authenticated * option string) :=
  now ← now_;
  match de_SSO d with
  | None => mret (mkAuthenticated identity (Some now) "" how, None)
  | Some lifetime =>
      session ← try_ (stored (Begin lifetime identity how id));
      mret (match session with
            | Ok session => (mkAuthenticated identity (Some (so_AuthTime session)) (so_ID session) how, Some (so_ID session))
            | Err _ => (mkAuthenticated identity (Some now) "" how, None)
            end)
  end.

(** [internal/issuer/signin.go:signIn.unestablish]: the cookie, where there is one to take back. *)
Definition unestablish (who : Authenticated) : W S (option string) :=
  match de_SSO d with
  | None => mret None
  | Some _ => if empty (au_SSO who) then mret None else _ ← try_ (stored (End_ (au_SSO who))); mret (Some "")
  end.

(** *** Completing a request *)

(** [internal/issuer/signin.go:signIn.silent]; [id] is what the browser presents. *)
Definition silent request (p : Pending) id : W S (option answer * option string * list Session) :=
  match de_SSO d with
  | None => mret (None, None, [])
  | Some _ =>
      if pe_ForcesLogin p then mret (None, None, [])
      else
        found ← try_ (stored (SSO_Get id));
        match found with
        | Ok (Some session) =>
            now ← now_;
            let absolute := Issuer_AbsoluteFor i (pe_Resource p) in
            if ((0 <? absolute) && negb (now <? so_AuthTime session + absolute))%Z
            then '(cookie, announced) ← sign_out id true; mret (None, cookie, announced)
            else if negb (Fresh session now (pe_MaxAge p)) then mret (None, None, [])
            else
              live ← (if Contains (so_Identity session) "@"
                      then r ← try_ (resolve i directory (so_Identity session)); mret (match r with Ok _ => true | Err _ => false end)
                      else mret true);
              if negb live then _ ← try_ (stored (End_ (so_ID session))); mret (None, Some "", [])
              else
                r ← try_ (Complete i directory documents durable request
                            (mkAuthenticated (so_Identity session) (Some (so_AuthTime session)) (so_ID session) (so_How session)));
                match r with
                | Ok _ => mret (Some (Completed request), None, [])
                | Err e => a ← refused e request; mret (a, None, [])
                end
        | _ => mret (None, None, [])
        end
  end.

(** [internal/issuer/signin.go:signIn.chooser] *)
Definition chooser request id : W S reply :=
  if empty request then mret (plain NotFromHere)
  else
    asked ← try_ (Storage_Pending i request);
    match asked with
    | Err _ => mret (plain (HttpError 400))
    | Ok p =>
        '(done, cookie, announced) ← silent request p id;
        let say a := mkReply a cookie None announced in
        let kinds := sorted_keys (providers_of d) in
        let recovery := bool_decide (is_Some (de_Recovery d)) in
        mret (match done with
              | Some a => say a
              | None =>
                  if pe_ForbidsUI p
                  then say (refuse_client p "login_required" "there is no active sign-in here to continue from")
                  else match kinds, recovery with
                  | [kind], false => say (ToStart kind request)
                  | [], false => say NobodyCan
                  | _, _ => say (Chooser kinds recovery p)
                  end
              end)
    end.

(** [internal/issuer/signin.go:signIn.start]; [nonce] is what the state draws. *)
Definition start kind request nonce : W S reply :=
  match providers_of d !! kind with
  | None => mret (plain (HttpError 404))
  | Some provider =>
      if empty request then mret (plain (HttpError 400))
      else
        now ← now_;
        let state := Codec_Issue (de_State d) request nonce now in
        mret (match pv_URL provider state with
              | Err _ => plain (HttpError 424)
              | Ok where_ => mkReply (ToProvider where_) None (Some state) []
              end)
  end.

(** [internal/issuer/signin.go:567-579 signIn.callback]: the request a state from this browser names. *)
Definition callback_request (cookie : option string) state now : option string :=
  match cookie with
  | None => None
  | Some cookie =>
      if empty cookie || negb (bool_decide (cookie = state)) then None
      else match Codec_Verify (de_State d) state now with
      | Ok request => if empty request then None else Some request
      | Err _ => None
      end
  end.

(** [internal/issuer/signin.go:signIn.callback]; [id] is what a sign-in draws. *)
Definition callback kind (cookie : option string) state code id : W S reply :=
  match providers_of d !! kind with
  | None => mret (plain (HttpError 404))
  | Some provider =>
      now ← now_;
      match callback_request cookie state now with
      | None => mret (plain (HttpError 400))
      | Some request =>
          let say a := mkReply a None (Some "") [] in
          match pv_Identify provider code with
          | Err _ => mret (say (HttpError 502))
          | Ok email =>
              standing ← try_ (resolve i directory email);
              match standing with
              | Err (ErrDirectory (DirectoryFailed _)) => mret (say (HttpError 503))
              | Err (ErrDirectory _) => mret (say (HttpError 403))
              | Err _ => mret (say (HttpError 503))
              | Ok _ =>
                  '(who, sso) ← established email (pv_Kind provider) id;
                  r ← try_ (Complete i directory documents durable request who);
                  match r with
                  | Ok _ => mret (mkReply (Completed request) sso (Some "") [])
                  | Err e => a ← refuseUnentitled e request; mret (mkReply (default (HttpError 400) a) sso (Some "") [])
                  end
              end
          end
      end
  end.

(** [internal/issuer/signin.go:signIn.recover]; [id] is what a sign-in draws. *)
Definition recover state (proof : string) id : W S reply :=
  match de_Recovery d with
  | None => mret (plain (HttpError 404))
  | Some verify =>
      now ← now_;
      match Codec_Verify (de_State d) state now with
      | Err _ => mret (plain (HttpError 400))
      | Ok request =>
          if empty request then mret (plain (HttpError 400))
          else match verify proof with
          | Err _ => mret (plain (HttpError 403))
          | Ok subject =>
              '(who, sso) ← established subject RecoveryHow id;
              r ← try_ (Complete i directory documents durable request who);
              match r with
              | Ok _ => mret (mkReply (Completed request) sso None [])
              | Err e =>
                  cookie ← match e with ErrUnaudited _ => unestablish who | _ => mret None end;
                  a ← refused e request;
                  mret (mkReply (default (HttpError 400) a) (match cookie with Some c => Some c | None => sso end) None [])
              end
          end
      end
  end.

(** [internal/issuer/signin.go:signIn.account]: whose page an old bookmark is sent to. *)
Definition account id : W S reply :=
  found ← try_ (stored (SSO_Get id));
  mret (plain (Landing (match found with
    | Ok (Some session) => if empty (so_Identity session) then de_ConsoleMount d +:+ "/"
                           else de_ConsoleMount d +:+ "/#/people/" +:+ PathEscape (so_Identity session)
    | _ => de_ConsoleMount d +:+ "/" end))).
End handlers.
