(* ===== verification/SignInSafety.v ===== *)
(** * SignInSafety: what signing in and out keep to

    Over any store that meets [IStateSpec]: a request is completed without asking only
    from a live sign-in of somebody still admitted, inside the absolute limit and the age
    the client asks for; a provider's callback completes only the request its own signed
    state names; once signed out, a browser completes nothing, and the sessions it opened
    are over; a recovery refused for want of its record leaves no sign-in.  The last ones
    show where a page is given to a client that asked for none, and what a sign-out that
    half failed leaves. *)

From S2P Require Import Prelude GoStrings NetUrl Names Policy Validate Evaluate PolicySet Sha256 Port IssuerState Sessions SessionsSpec SSO Issuer ClientDoc SessionsSafety.
From S2P Require Import Storage StorageSafety Cookies SignIn.

Implicit Types (id subject identity how clientID kind request state code nonce : string) (now : Z).

#[local] Arguments requestKey : simpl never.
#[local] Arguments sessionKey : simpl never.
#[local] Arguments ssoKey : simpl never.
#[local] Arguments ssoClientsKey : simpl never.

(** Asked twice at one moment, the directory's answer settles it the same way. *)
Lemma Resolve_again window seen email ans now :
  (Resolve window (Resolve window seen email ans now).2 email ans now).1 = (Resolve window seen email ans now).1.
Proof.
  unfold Resolve. destruct ans as [standing|e]; [|done]. destruct (sd_Authoritative standing); [|done].
  by destruct (negb (sd_Found standing) || sd_Suspended standing).
Qed.

Section steps.
Context {V S : Type} `{IStateSpec V S} `{Value V} `{Document V Session} `{Document V token_record} `{Document V authRequest} `{Document V SSOSession}.
Context (i : Issuer) (directory : string → result string Standing) (documents : string → origin) (durable : event → option string).
Context (d : SignInDeps).
Implicit Types (w : World S) (s : S).

(** ** Steps on the sign-ins *)

(** A step that only touches what belongs to the sign-ins. *)
Definition of_sso key : Prop := ∃ rest, key = "issuer:sso" +:+ rest.
Definition sso_step s s' : Prop :=
  is_now s' = is_now s ∧ ∀ k, ¬ of_sso k → iv_value s' k = iv_value s k ∧ iv_set s' k = iv_set s k.

Lemma sso_step_same s s' : same s s' → sso_step s s'.
Proof. intros (?&?&?). by split. Qed.
Lemma sso_step_trans s1 s2 s3 : sso_step s1 s2 → sso_step s2 s3 → sso_step s1 s3.
Proof. intros [Hn1 H1'] [Hn2 H2']. split; [congruence|]. intros k Hk. destruct (H1' k Hk), (H2' k Hk). split; congruence. Qed.

Lemma of_ssoKey id : of_sso (ssoKey id).
Proof. by exists (":" +:+ id). Qed.
Lemma of_ssoClientsKey id : of_sso (ssoClientsKey id).
Proof. by exists ("-clients:" +:+ id). Qed.
Lemma of_sso_indexes (x : SSOSession) key : key ∈ sso_indexes x → of_sso key.
Proof. unfold sso_indexes. rewrite !elem_of_cons, elem_of_nil. intros [->|[->|[]]]; [by exists ""|by exists ("-of:" +:+ ToLower (so_Identity x))]. Qed.
Lemma requestKey_not_sso id : ¬ of_sso (requestKey id).
Proof. intros [rest Hr]. unfold requestKey in Hr. discriminate Hr. Qed.

(** The sessions are none of the sign-ins' business. *)
Lemma agrees_sso c s s' b : sso_step s s' → agrees c s b → agrees c s' b.
Proof.
  intros [Hn Hk] [Hnow Hrec Htok Hsp Hsh Hc].
  assert (∀ k, (∃ x, k = sessionKey x ∨ k = sessionTokenKey x ∨ k = sessionRotatedKey x) → iv_value s' k = iv_value s k) as Hv.
  { intros k (x&Hx). apply Hk. intros [rest ->]. destruct Hx as [Hx|[Hx|Hx]]; discriminate Hx. }
  split; [by rewrite Hn|intros x; rewrite Hv by (exists x; auto); auto..| |done].
  intros id x until Hx Hl. specialize (Hsh id x until Hx Hl). rewrite Forall_forall in Hsh |- *. intros key Hkey.
  apply (shows_kept s); [|by apply Hsh]. apply Hk. intros [rest ->]. unfold indexes in Hkey. rewrite !elem_of_cons, elem_of_nil in Hkey.
  by destruct Hkey as [Hr|[Hr|[Hr|[]]]].
Qed.

Lemma pending_sso w w' request : sso_step (w_store w) (w_store w') → pending_request w' request = pending_request w request.
Proof. intros [_ Hk]. unfold pending_request. by rewrite (proj1 (Hk _ (requestKey_not_sso request))). Qed.

(** *** Reading, beginning and ending a sign-in *)

Lemma bind_run {A B} (m : M S A) (k : A → M S B) s :
  (m ≫= k) s = match m s with (Ok a, s') => k a s' | (Err e, s') => (Err e, s') end.
Proof. done. Qed.

Lemma SSO_Get_reads id s : same s (SSO_Get id s).2 ∧ ∀ s', is_now s' = is_now s → iv_value s' (ssoKey id) = iv_value s (ssoKey id) →
  (SSO_Get id s').1 = (SSO_Get id s).1.
Proof.
  unfold SSO_Get. destruct (empty id); [done|]. unfold getJSON, moment, mbind, M_bind.
  destruct (is_Get_spec s (ssoKey id)) as (s1&->&Hn1&Hv1&Hs1).
  assert (same s s1) as Hsame by done. split.
  - destruct (iv_value s (ssoKey id)) as [[v e]|]; simpl; [|done]. by destruct (decode v).
  - intros s' Hn Hv. destruct (is_Get_spec s' (ssoKey id)) as (s2&->&Hn2&_). rewrite Hv.
    destruct (iv_value s (ssoKey id)) as [[v e]|]; simpl; [|done]. destruct (decode v); simpl; [|done]. by rewrite Hn2, Hn, Hn1.
Qed.

Lemma SSO_Get_none id s : iv_value s (ssoKey id) = None → (SSO_Get id s).1 = Ok None.
Proof.
  intros Hv. unfold SSO_Get. destruct (empty id); [done|]. unfold getJSON, mbind, M_bind.
  destruct (is_Get_spec s (ssoKey id)) as (s1&->&_). by rewrite Hv.
Qed.

(** Ended, whatever it was, and whether or not its record could be read. *)
Lemma End_gone id s : sso_step s (End_ id s).2 ∧ ∀ x, (SSO_Get id (End_ id s).2).1 ≠ Ok (Some x).
Proof.
  pose proof (SSO_Get_reads id s) as [Hsame Hread]. unfold End_. rewrite bind_run.
  destruct (SSO_Get id s) as [[o|e] s1] eqn:Hg; simpl in *.
  2: { split; [by apply sso_step_same|]. intros x. by rewrite (Hread s1) by apply Hsame. }
  match goal with |- context [snd (?m s1)] => assert (runs m s1 (λ _ s', sso_step s1 s' ∧ iv_value s' (ssoKey id) = None)) as Hrun end.
  { apply runs_bind. assert (runs (match o with Some x => each (λ key, is_Remove key id) (sso_indexes x) | None => mret tt end) s1
      (λ _ s2, sso_step s1 s2)) as Hrem.
    { destruct o as [x|]; [|by apply runs_ret]. apply runs_removes. intros s2 Hn2 Hv2 Hout _. split; [done|]. intros k Hk.
      split; [done|]. apply Hout. intros Hin. by apply Hk, (of_sso_indexes x). }
    eapply runs_mono; [|exact Hrem]. intros [] s2 Hs12. apply runs_bind, runs_Delete. intros s3 Hn3 Hv3 Hs3. apply runs_Delete.
    intros s4 Hn4 Hv4 Hs4. split; [|rewrite Hv4; unfold upd; by rewrite decide_True]. eapply sso_step_trans; [exact Hs12|].
    split; [congruence|]. intros k Hk.
    assert (k ≠ ssoKey id ∧ k ≠ ssoClientsKey id) as [Hk1 Hk2] by (split; intros ->; apply Hk; [apply of_ssoKey|apply of_ssoClientsKey]).
    rewrite Hv4, Hs4, Hs3 by done. unfold upd. rewrite decide_False by done. rewrite Hv3. unfold upd. by rewrite decide_False. }
  destruct Hrun as (a&s'&->&Hs1&Hv). simpl. split.
  - eapply sso_step_trans; [by apply sso_step_same|exact Hs1].
  - intros x. by rewrite SSO_Get_none.
Qed.

Lemma wp_End id w Φ : (∀ r w', sso_step (w_store w) (w_store w') → w_trail w' = w_trail w →
    (∀ x, (SSO_Get id (w_store w')).1 ≠ Ok (Some x)) → Φ (Ok r) w') → wp (try_ (stored (End_ id))) w Φ.
Proof.
  intros HΦ. apply wp_try, wp_stored_any. intros r s' Hr. pose proof (End_gone id (w_store w)) as [Hs Hg]. rewrite Hr in Hs, Hg. simpl in *.
  by apply HΦ.
Qed.

Lemma wp_SSO_Get id w Φ : (∀ s', same (w_store w) s' →
    Φ (Ok (match (SSO_Get id (w_store w)).1 with Ok o => Ok o | Err e => Err (StoreFailed e) end)) (with_store w s')) →
  wp (try_ (stored (SSO_Get id))) w Φ.
Proof.
  intros HΦ. apply wp_try, wp_stored_any. intros r s' Hr. pose proof (SSO_Get_reads id (w_store w)) as [Hs _]. rewrite Hr in Hs, HΦ. simpl in *.
  by apply HΦ.
Qed.
(** ** Signing out *)

Lemma wp_ret {A} (a : A) w Φ : Φ (Ok a) w → wp (mret a : W S A) w Φ.
Proof. done. Qed.
Lemma wp_record e w Φ : Φ (Ok tt) (with_trail w (w_trail w ++ [e])) → wp (record_event e : W S unit) w Φ.
Proof. done. Qed.

Lemma wp_end_opened (record : SSOSession) id sparing w Φ : (∀ l w', Φ (Ok l) w') → wp (end_opened record id sparing) w Φ.
Proof.
  intros HΦ. apply wp_bind, wp_try, wp_stored_any. intros r1 s1 _. apply wp_bind, wp_try, wp_stored_any. intros r2 s2 _.
  destruct sparing; [by apply HΦ|]. apply wp_bind, wp_try, wp_stored_any. intros r3 s3 _. apply wp_bind.
  destruct r3; [apply wp_record|apply wp_ret]; by apply wp_ret.
Qed.

(** Signed out, the browser is signed in no more, however much of the rest failed. *)
Lemma wp_sign_out id sparing w Φ : (∀ cookie l w', (de_SSO d ≠ None → ∀ x, (SSO_Get id (w_store w')).1 ≠ Ok (Some x)) → Φ (Ok (cookie, l)) w') →
  wp (sign_out d id sparing) w Φ.
Proof.
  intros HΦ. unfold sign_out. destruct (de_SSO d) as [lifetime|]; [|apply wp_ret, HΦ; done]. apply wp_bind.
  destruct (empty id) eqn:He.
  - apply wp_ret, wp_ret, HΦ. intros _ x. apply empty_true in He as ->. done.
  - apply wp_bind, wp_SSO_Get. intros s1 Hs1. apply wp_bind.
    assert (∀ l w2, wp (_ ← try_ (stored (End_ id)); mret l) w2 (λ r w3, match r with Ok a => wp (mret (Some "", a)) w3 Φ | Err e => Φ (Err e) w3 end)) as Hend.
    { intros l w2. apply wp_bind, wp_End. intros r w3 _ _ Hgone. apply wp_ret, wp_ret, HΦ. by intros _. }
    destruct ((SSO_Get id (w_store w)).1) as [[record|]|e]; [apply wp_end_opened; intros l w'; apply Hend|apply wp_ret, Hend..].
Qed.

(** Once a browser is signed out, by a person or at the limit, nothing more is completed for what
    it presents: every request goes on to ask, or is refused. *)
Theorem signed_out_completes_nothing id sparing request p w : de_SSO d ≠ None →
  let after := (sign_out d id sparing w).2 in
  (silent i directory documents durable d request p id after).1 = Ok (None, None, []).
Proof.
  intros Hsso after. assert (∀ x, (SSO_Get id (w_store after)).1 ≠ Ok (Some x)) as Hgone.
  { assert (wp (sign_out d id sparing) w (λ _ w', ∀ x, (SSO_Get id (w_store w')).1 ≠ Ok (Some x))) as Hw; [|exact Hw].
    apply wp_sign_out. intros cookie l w' Hg. by apply Hg. }
  clearbody after. unfold silent. destruct (de_SSO d); [|done]. destruct (pe_ForcesLogin p); [done|].
  assert (wp (found ← try_ (stored (SSO_Get id)); match found with Ok (Some _) => refuse NotValidated | _ => mret (None, None, []) end) after
    (λ r _, r = Ok (None : option answer, None : option string, [] : list Session))) as Hw.
  { apply wp_bind, wp_SSO_Get. intros s' _. specialize (Hgone). destruct ((SSO_Get id (w_store after)).1) as [[x|]|e]; [by destruct (Hgone x)|done..]. }
  unfold wp, mbind, W_bind, try_, stored in Hw |- *. specialize (Hgone).
  destruct (SSO_Get id (w_store after)) as [[[x|]|e] s']; [by destruct (Hgone x)|done..].
Qed.

(** What was opened, by the book: an explicit sign-out ends the live sessions of this person opened
    by this sign-in and no other, tells their clients and those signed in without a
    session, and is on the trail; at the limit nothing that is still live is touched. *)
Lemma wp_opened (record : SSOSession) id sparing w b Φ : (0 < cf_RefreshLifetime (is_cfg i))%Z → TrimSpace (so_Identity record) = so_Identity record →
  agrees (issuer_sessions i) (w_store w) b →
  (∀ l w', let found := book_found (mkQuery (so_Identity record) "" id false) b in
     (∀ x, x ∈ found → if sparing : bool then True else x ∈ l) →
     agrees (issuer_sessions i) (w_store w') (if sparing then b else book_end_all (list_to_set (se_ID <$> found)) b) →
     w_trail w' = w_trail w ++ (if sparing then [] else [SessionsEnded (so_Identity record) (length found)]) →
     Φ (Ok l) w') → wp (end_opened record id sparing) w Φ.
Proof.
  clear directory documents durable d. intros Hlife Htidy Ha HΦ. set (q := mkQuery (so_Identity record) "" id false) in *.
  apply wp_bind, wp_try, wp_stored. apply runs_bind, (run_collect (issuer_sessions i) _ b); [done|by right|]. intros l1 s1 Ha1 Hl1 _. apply runs_ret. simpl.
  apply wp_bind, wp_try, wp_stored, runs_Members. intros l2 s2 Hs2 _. apply (agrees_same _ _ _ _ Hs2) in Ha1 as Ha2. simpl in Ha2.
  destruct sparing.
  - apply wp_ret, HΦ; [done|exact Ha2|by rewrite app_nil_r].
  - apply wp_bind, wp_try, wp_stored. apply runs_bind, (run_collect (issuer_sessions i) _ b); [done|by right|]. intros l3 s3 Ha3 Hl3 Hdup. fold q in Hl1, Hl3.
    assert (Forall (λ x, book_session b (se_ID x) = Some x) l3) as Hall.
    { apply Forall_forall. intros x Hx. rewrite Hl3, book_found_picked in Hx. apply (elem_of_picked (issuer_sessions i)) in Hx; [|by eapply ag_consistent]. tauto. }
    apply (run_revoke_all (issuer_sessions i) Hlife _ b); [done..|]. intros s4 Ha4. apply wp_bind, wp_record, wp_ret, HΦ; fold q.
    + intros x Hx. apply elem_of_app. left. by rewrite merge_sort_Permutation, Hl1.
    + simpl. assert (list_to_set (se_ID <$> book_found q b) = (list_to_set (se_ID <$> l3) : gset string)) as -> by (by rewrite <- Hl3). exact Ha4.
    + simpl. by rewrite Hl3, Nat.add_0_r.
Qed.
Lemma session_after_ends b (ids : gset string) sid :
  book_session (book_end_all ids b) sid = if decide (sid ∈ ids) then None else book_session b sid.
Proof.
  unfold book_session. simpl. rewrite map_lookup_filter. destruct (bk_records b !! sid) as [[x u]|]; simpl; [|by destruct (decide _)].
  destruct (decide (sid ∈ ids)); [by rewrite option_guard_False by (intros Hn; by apply Hn)|by rewrite option_guard_True].
Qed.

Lemma byID_book c s b sid : agrees c s b → (byID sid s).1 = Ok (book_session b sid).
Proof. intros Ha. by destruct (run_byID c s b sid (λ a _, a = book_session b sid) Ha) as (a&s'&->&->). Qed.

(** Signing out ends the live sessions this browser's sign-in opened for this person, tells each
    of their clients, and says on the trail how many there were; every other session is
    as it was.  A sign-in that met the absolute limit ends by itself, and the sessions
    that are still live go on. *)
Theorem SignOut_ends_sessions id sparing w b (record : SSOSession) : (0 < cf_RefreshLifetime (is_cfg i))%Z → de_SSO d ≠ None →
  agrees (issuer_sessions i) (w_store w) b →
  (SSO_Get id (w_store w)).1 = Ok (Some record) → TrimSpace (so_Identity record) = so_Identity record → so_Identity record ≠ "" →
  let mine (x : Session) := se_Identity x = ToLower (so_Identity record) ∧ se_SSO x = id in
  let out := sign_out d id sparing w in
  ∃ announced n, out.1 = Ok (Some "", announced) ∧
    w_trail out.2 = w_trail w ++ (if sparing then [] else [SessionsEnded (so_Identity record) n]) ∧
    ∀ sid x, (byID sid (w_store w)).1 = Ok (Some x) →
      if sparing then (byID sid (w_store out.2)).1 = Ok (Some x)
      else if decide (mine x) then (byID sid (w_store out.2)).1 = Ok None ∧ x ∈ announced
      else (byID sid (w_store out.2)).1 = Ok (Some x).
Proof.
  clear directory documents durable. intros Hlife Hsso Ha Hrec Htidy Hne mine out. set (q := mkQuery (so_Identity record) "" id false).
  assert (id ≠ "") as Hid by (intros ->; discriminate Hrec).
  assert (consistent (issuer_sessions i) b) as Hc by (by eapply ag_consistent).
  assert (wp (sign_out d id sparing) w (λ r w', ∃ announced, r = Ok (Some "", announced) ∧
    (∀ x, x ∈ book_found q b → if sparing then True else x ∈ announced) ∧
    agrees (issuer_sessions i) (w_store w') (if sparing then b else book_end_all (list_to_set (se_ID <$> book_found q b)) b) ∧
    w_trail w' = w_trail w ++ (if sparing then [] else [SessionsEnded (so_Identity record) (length (book_found q b))]))) as Hw.
  { unfold sign_out. destruct (de_SSO d) as [lifetime|]; [|done]. rewrite (proj2 (empty_false id)) by done.
    apply wp_bind, wp_bind, wp_SSO_Get. intros s1 Hs1. rewrite Hrec. apply wp_bind, (wp_opened _ _ _ _ b); [done|done|by eapply agrees_same|].
    intros l w2 found Hl Ha2 Ht2. apply wp_bind, wp_End. intros r w3 Hs3 Ht3 _. apply wp_ret, wp_ret. exists l. split_and!; [done|done| |by rewrite Ht3, Ht2].
    by eapply agrees_sso. }
  destruct Hw as (announced&Hr&Hl&Ha'&Ht). fold out in Hr, Ha', Ht. exists announced, (length (book_found q b)). split; [done|]. split; [done|].
  intros sid x Hx. rewrite (byID_book _ _ _ _ Ha) in Hx. injection Hx as Hx. rewrite (byID_book _ _ _ _ Ha').
  destruct sparing; [by rewrite Hx|]. rewrite session_after_ends.
  pose proof (session_id _ _ _ _ Hc Hx) as Hsid.
  assert (x ∈ book_found q b ↔ mine x) as Hmine.
  { rewrite (elem_of_found _ _ _ _ Hc), Hsid. unfold mine, selects, q. cbn [q_Identity q_ClientID q_SSO q_Contains]. rewrite Htidy.
    assert (empty (ToLower (so_Identity record)) = false) as -> by (by destruct (so_Identity record)). rewrite (proj2 (empty_false id)) by done. simpl.
    case_bool_decide; simpl; [|naive_solver]. case_bool_decide; simpl; naive_solver. }
  destruct (decide (mine x)) as [Hm|Hm].
  - rewrite decide_True; [split; [done|by apply Hl, Hmine]|]. apply elem_of_list_to_set, list_elem_of_fmap. exists x. split; [done|by apply Hmine].
  - rewrite decide_False; [by rewrite Hx|]. intros (y&Hy&Hyf)%elem_of_list_to_set%list_elem_of_fmap. apply Hm, Hmine.
    pose proof Hyf as [_ Hyb]%(elem_of_found _ _ _ _ Hc). rewrite <- Hy, Hx in Hyb. by injection Hyb as ->.
Qed.
(** ** Signing in *)

Lemma wp_now w Φ : Φ (Ok (is_now (w_store w))) w → wp (now_ : W S Z) w Φ.
Proof. done. Qed.

Lemma wp_resolve subject w Φ : (∀ w1, w_store w1 = w_store w → w_trail w1 = w_trail w → w_cached w1 = w_cached w →
    judged i directory w1 subject = judged i directory w subject → Φ (Ok (resolve i directory subject w).1) w1) →
  wp (try_ (resolve i directory subject)) w Φ.
Proof.
  intros HΦ. apply wp_try. unfold wp. apply HΦ; [by unfold resolve; destruct (Resolve _ _ _ _ _)..|].
  unfold judged, resolveSubject. destruct (ParseServiceAccountSubject subject); [done|]. unfold mbind, W_bind, resolve.
  pose proof (Resolve_again (cf_HoldWindow (is_cfg i)) (w_seen w) subject (directory (address subject)) (is_now (w_store w))) as Hagain.
  destruct (Resolve _ (w_seen w) _ _ _) as [r seen]. simpl in *. destruct (Resolve _ seen _ _ _) as [r' seen']. simpl in *. by subst r'; destruct r.
Qed.

Lemma wp_established identity how id w Φ : (∀ lifetime, de_SSO d = Some lifetime → (0 < lifetime)%Z) →
  (∀ who cookie w', au_Subject who = identity → au_How who = how → au_AuthTime who = Some (is_now (w_store w)) →
     (de_SSO d ≠ None → au_SSO who = id ∧ cookie = Some id) → (de_SSO d = None → cookie = None) →
     sso_step (w_store w) (w_store w') → w_cached w' = w_cached w → w_seen w' = w_seen w → w_trail w' = w_trail w → Φ (Ok (who, cookie)) w') →
  wp (established d identity how id) w Φ.
Proof.
  intros Hlife HΦ. apply wp_bind, wp_now. unfold established. destruct (de_SSO d) as [lifetime|]; [|by apply wp_ret, HΦ].
  specialize (Hlife lifetime eq_refl). apply wp_bind, wp_try, wp_stored. apply runs_bind, runs_moment, runs_bind, runs_Set. intros s1 Hn1 Hv1 Hs1.
  apply runs_bind, runs_adds; [done|]. intros s2 Hn2 Hv2 Hout _. apply runs_ret, wp_ret, HΦ; try done. simpl. split; [congruence|]. intros k Hk.
  rewrite Hv2, Hv1. unfold upd. rewrite decide_False by (intros ->; apply Hk, of_ssoKey). split; [done|]. rewrite Hout, Hs1; [done|].
  intros Hin. by apply Hk, (of_sso_indexes _ _ Hin).
Qed.

Lemma wp_pendingOf request w Φ : (∀ p s', same (w_store w) s' → Φ (Ok p) (with_store w s')) → wp (pendingOf i request) w Φ.
Proof.
  intros HΦ. unfold pendingOf. destruct (empty request); [apply wp_ret; by destruct w; apply (HΦ _ _ (same_refl _))|].
  apply wp_bind, wp_try, wp_bind, wp_request. intros s' Hs. destruct (default _ _); [apply wp_ret|]; by apply wp_ret, HΦ.
Qed.

(** What a refusal says is never that the request is complete. *)
Lemma wp_refuseUnentitled e request w Φ : (∀ a s', same (w_store w) s' → (∀ q, a ≠ Some (Completed q)) → a ≠ Some Unaudited → Φ (Ok a) (with_store w s')) →
  wp (refuseUnentitled i e request) w Φ.
Proof.
  intros HΦ. unfold refuseUnentitled. destruct (is_not_entitled e); simpl; [|apply wp_ret; by destruct w; apply (HΦ _ _ (same_refl _))].
  apply wp_bind, wp_pendingOf. intros p s' Hs. by apply wp_ret, HΦ.
Qed.
Lemma wp_refused e request w Φ : (∀ a s', same (w_store w) s' → (∀ q, a ≠ Some (Completed q)) → (a = Some Unaudited → ∃ e', e = ErrUnaudited e') →
    Φ (Ok a) (with_store w s')) → wp (refused i e request) w Φ.
Proof.
  intros HΦ. apply wp_bind, wp_refuseUnentitled. intros a s' Hs Ha Hu. apply wp_ret, HΦ; [done|..].
  - intros q. destruct a as [a|]; [apply Ha|]. by destruct e.
  - destruct a as [a|]; [done|]. destruct e; simpl; try done. eauto.
Qed.

(** The gates a completed request has passed, and what it says from then on.  The first way
    through is a client that is not declared and whose document does not resolve now. *)
Definition completed_by (who : Authenticated) request w w' : Prop :=
  ∃ req, pending_request w request = Some (Ok req) ∧
    (client_of i documents w (oq_ClientID (ar_Req req)) = None ∨
     admitted i directory documents w (oq_ClientID (ar_Req req)) (ar_Resource req) (au_Subject who)) ∧
    pending_request w' request = Some (Ok (signed_in req who (is_now (w_store w)))) ∧
    (au_How who = RecoveryHow → durable (SignedIn who (oq_ClientID (ar_Req req)) Succeeded true) = None).

(** Completing a request after steps that left the request, the clock, the documents and the
    directory's answer about the person as they were. *)
Lemma wp_Complete_from request who w w1 Φ : sso_step (w_store w) (w_store w1) → w_cached w1 = w_cached w →
  judged i directory w1 (au_Subject who) = judged i directory w (au_Subject who) →
  (∀ r w', (r = Ok tt → completed_by who request w w') → Φ (Ok r) w') →
  wp (try_ (Complete i directory documents durable request who)) w1 Φ.
Proof.
  intros Hs Hc Hj HΦ. apply wp_try. eapply wp_mono; [|apply wp_Complete]. intros r w' Hr. apply HΦ. intros ->.
  destruct Hr as (req&Hp&Ho&Hp'&_&Haud). exists req. rewrite <- (pending_sso w w1) by done. split; [done|]. unfold admitted in *.
  rewrite (client_of_agree i documents w w1), Hj in Ho by (done || apply Hs). rewrite (proj1 Hs) in Hp'. by split_and!.
Qed.
Definition from_session (x : SSOSession) : Authenticated := mkAuthenticated (so_Identity x) (Some (so_AuthTime x)) (so_ID x) (so_How x).



(** A provider's callback completes only the request the state this browser was given names, under
    this issuer's key, and only for the address the provider answered with: one the
    directory admits, whom the application and the resource admit as well. *)
Theorem callback_completes kind cookie state code id w (r : reply) : (∀ lifetime, de_SSO d = Some lifetime → (0 < lifetime)%Z) →
  (callback i directory documents durable d kind cookie state code id w).1 = Ok r → ∀ request, re_answer r = Completed request →
  ∃ provider email standing bd who, providers_of d !! kind = Some provider ∧ cookie = Some state ∧
    VerifyBinding (de_State d) state (is_now (w_store w)) = Ok bd ∧ bi_Bind bd = request ∧ request ≠ "" ∧
    pv_Identify provider code = Ok email ∧ (resolve i directory email w).1 = Ok standing ∧
    au_Subject who = email ∧ au_How who = pv_Kind provider ∧ au_AuthTime who = Some (is_now (w_store w)) ∧
    completed_by who request w (callback i directory documents durable d kind cookie state code id w).2.
Proof.
  intros Hlife. assert (wp (callback i directory documents durable d kind cookie state code id) w (λ out w', ∀ r, out = Ok r →
    ∀ request, re_answer r = Completed request →
    ∃ provider email standing bd who, providers_of d !! kind = Some provider ∧ cookie = Some state ∧
      VerifyBinding (de_State d) state (is_now (w_store w)) = Ok bd ∧ bi_Bind bd = request ∧ request ≠ "" ∧
      pv_Identify provider code = Ok email ∧ (resolve i directory email w).1 = Ok standing ∧
      au_Subject who = email ∧ au_How who = pv_Kind provider ∧ au_AuthTime who = Some (is_now (w_store w)) ∧
      completed_by who request w w')) as Hw; [|by intros Hr; apply (Hw r)].
  clear r. unfold callback. destruct (providers_of d !! kind) as [provider|]; [|by apply wp_ret; intros r [= <-]].
  apply wp_bind, wp_now. destruct (callback_request d cookie state (is_now (w_store w))) as [request|] eqn:Hreq; [|by apply wp_ret; intros r [= <-]].
  assert (cookie = Some state ∧ ∃ bd, VerifyBinding (de_State d) state (is_now (w_store w)) = Ok bd ∧ bi_Bind bd = request ∧ request ≠ "") as (->&bd&Hbd&Hbind&Hne).
  { unfold callback_request in Hreq. destruct cookie as [c|]; [|done]. destruct (empty c); [done|]. case_bool_decide as Heq; simpl in Hreq; [|done]. subst c.
    unfold Codec_Verify in Hreq. destruct (VerifyBinding _ _ _) as [bd|e]; simpl in Hreq; [|done]. destruct (empty (bi_Bind bd)) eqn:He; [done|].
    injection Hreq as <-. apply empty_false in He. eauto. }
  destruct (pv_Identify provider code) as [email|why] eqn:Hemail; [|by apply wp_ret; intros r [= <-]].
  apply wp_bind, wp_resolve. intros w1 Hst1 _ Hc1 Hj1. destruct ((resolve i directory email w).1) as [standing|e] eqn:Hres.
  2: { repeat case_match; by apply wp_ret; intros r [= <-]. }
  apply wp_bind, wp_established; [done|]. intros who sso w2 Hsub Hhow Hat _ _ Hs2 Hc2 Hseen2 _.
  rewrite Hst1 in Hat, Hs2. apply wp_bind, (wp_Complete_from _ _ w); [done|congruence| |].
  { rewrite Hsub. rewrite (judged_agree i directory w1 w2) by (rewrite ?Hst1; (apply Hs2 || done)). done. }
  intros out w3 Hdone. destruct out as [[]|e].
  - apply wp_ret. intros r [= <-] q [= <-]. exists provider, email, standing, bd, who. split_and!; try done. by apply Hdone.
  - apply wp_bind, wp_refuseUnentitled. intros a s' _ Ha _. apply wp_ret. intros r [= <-] q Hq. simpl in Hq. exfalso. apply (Ha q).
    destruct a as [a|]; simpl in Hq; [by rewrite Hq|done].
Qed.

(** C34: A recovery is completed only on a proof that verifies, for the request this issuer's own state
    names, with its record written durably; one refused because the record could not be
    written leaves the browser signed in nowhere. *)
Theorem recover_never_unrecorded state (proof : string) id w (r : reply) : (∀ lifetime, de_SSO d = Some lifetime → (0 < lifetime)%Z) →
  (recover i directory documents durable d state proof id w).1 = Ok r →
  let after := (recover i directory documents durable d state proof id w).2 in
  (∀ request, re_answer r = Completed request → ∃ verify subject bd who req, de_Recovery d = Some verify ∧ verify proof = Ok subject ∧
     VerifyBinding (de_State d) state (is_now (w_store w)) = Ok bd ∧ bi_Bind bd = request ∧
     au_Subject who = subject ∧ completed_by who request w after ∧ pending_request w request = Some (Ok req) ∧
     durable (SignedIn who (oq_ClientID (ar_Req req)) Succeeded true) = None) ∧
  (re_answer r = Unaudited → de_SSO d ≠ None → re_sso r = Some "" ∧ ∀ x, (SSO_Get id (w_store after)).1 ≠ Ok (Some x)).
Proof.
  intros Hlife. assert (wp (recover i directory documents durable d state proof id) w (λ out w', ∀ r, out = Ok r →
    (∀ request, re_answer r = Completed request → ∃ verify subject bd who req, de_Recovery d = Some verify ∧ verify proof = Ok subject ∧
       VerifyBinding (de_State d) state (is_now (w_store w)) = Ok bd ∧ bi_Bind bd = request ∧
       au_Subject who = subject ∧ completed_by who request w w' ∧ pending_request w request = Some (Ok req) ∧
       durable (SignedIn who (oq_ClientID (ar_Req req)) Succeeded true) = None) ∧
    (re_answer r = Unaudited → de_SSO d ≠ None → re_sso r = Some "" ∧ ∀ x, (SSO_Get id (w_store w')).1 ≠ Ok (Some x)))) as Hw;
    [|by intros Hr; apply (Hw r)].
  clear r. unfold recover. destruct (de_Recovery d) as [verify|]; [|by apply wp_ret; intros r [= <-]].
  apply wp_bind, wp_now. unfold Codec_Verify. destruct (VerifyBinding _ _ _) as [bd|e] eqn:Hbd; simpl; [|by apply wp_ret; intros r [= <-]].
  destruct (empty (bi_Bind bd)); [by apply wp_ret; intros r [= <-]|]. destruct (verify proof) as [subject|e] eqn:Hv; [|by apply wp_ret; intros r [= <-]].
  apply wp_bind, wp_established; [done|]. intros who sso w2 Hsub Hhow Hat Hsso Hnone Hs2 Hc2 Hseen2 _.
  apply wp_bind, (wp_Complete_from _ _ w); [done|done|apply judged_agree; [apply Hs2|done]|].
  intros out w3 Hdone. destruct out as [[]|e].
  - apply wp_ret. intros r [= <-]. split; [|done]. intros q [= <-]. specialize (Hdone eq_refl). pose proof Hdone as (req&Hp&_&_&Haud).
    exists verify, subject, bd, who, req. split_and!; try done. by apply Haud.
  - apply wp_bind.
    assert (∀ cookie w4, (∀ e', e = ErrUnaudited e' → de_SSO d ≠ None → match cookie with Some c => Some c | None => sso end = Some "" ∧
        ∀ x, (SSO_Get id (w_store w4)).1 ≠ Ok (Some x)) →
      wp (a ← refused i e (bi_Bind bd); mret (mkReply (default (HttpError 400) a) (match cookie with Some c => Some c | None => sso end) None [])) w4
        (λ out w', ∀ r, out = Ok r →
          (∀ request, re_answer r = Completed request → ∃ verify' subject' bd' who' req, Some verify = Some verify' ∧ verify' proof = Ok subject' ∧
             (Ok bd : result state_error Binding) = Ok bd' ∧ bi_Bind bd' = request ∧
             au_Subject who' = subject' ∧ completed_by who' request w w' ∧ pending_request w request = Some (Ok req) ∧
             durable (SignedIn who' (oq_ClientID (ar_Req req)) Succeeded true) = None) ∧
          (re_answer r = Unaudited → de_SSO d ≠ None → re_sso r = Some "" ∧ ∀ x, (SSO_Get id (w_store w')).1 ≠ Ok (Some x)))) as Hrefused.
    { intros cookie w4 Hc. apply wp_bind, wp_refused. intros a s' Hs Ha Hu. apply wp_ret. intros r [= <-]. simpl. split.
      - intros q Hq. exfalso. apply (Ha q). destruct a as [a|]; simpl in Hq; [by rewrite Hq|done].
      - intros Hq Hne. destruct a as [a|]; simpl in Hq; [|done]. subst a. destruct (Hu eq_refl) as (e'&He).
        destruct (Hc e' He Hne) as [Hcookie Hgone]. split; [done|]. intros x. pose proof (SSO_Get_reads id (w_store w4)) as [_ Hr].
        rewrite Hr; [apply Hgone|apply Hs..]. }
    destruct e; try (apply wp_ret; by refine (Hrefused None w3 _)).
    unfold unestablish. destruct (de_SSO d) as [lifetime|]; [|apply wp_ret; by refine (Hrefused None w3 _)].
    destruct (Hsso ltac:(done)) as [Hid Hcookie]. rewrite Hid. destruct (empty id) eqn:He.
    + apply wp_ret. refine (Hrefused None w3 _). intros _ _ _. apply empty_true in He. split; [by rewrite Hcookie, He|]. intros x. by rewrite He.
    + apply wp_bind, wp_End. intros out w4 _ _ Hgone. apply wp_ret. refine (Hrefused (Some "") w4 _). intros _ _ _. by split.
Qed.
End steps.

(** ** Runs *)

Definition ada_by_google : Provider :=
  mkProvider "google" (λ state, Ok ("https://accounts.example/?state=" +:+ state)) (λ code, if bool_decide (code = "good") then Ok "ada@example.com" else Err "refused").
Definition desk : SignInDeps :=
  mkDeps (Some (λ proof, if bool_decide (proof = "good") then Ok "ada@example.com" else Err ErrRecoveryRefused)) "" [ada_by_google] sample_codec (Some hour) "/console".

(** Ada, signed in at her browser, with an application asking. *)
Definition asked_at_desk (req : oidc_request) : World kept_store :=
  (established desk "Ada@example.com" "google" "b1" (CreateAuthRequest req "" "" "r1" blank_world).2).2.
Definition desk_world : World kept_store := asked_at_desk (asked_for "k8s:prod").
Definition ada_sign_in : SSOSession := mkSSO "b1" "ada@example.com" "google" 5 (5 + hour).
Definition everybody_lives (email : string) : result string Standing := Ok (mkStanding true false [] true "" "").

(** An application that asks for no page is given one: [prompt=none], from a browser signed in as
    somebody it does not admit, is answered with this service's own page and not at the
    application's address, where nobody signed in is answered. *)
Theorem no_prompt_gets_a_page :
  let req := mkOidcRequest "k8s:prod" ["openid"] "http://localhost:8000" "xyz" ["none"] None in
  let answer_to id := match (chooser sample_issuer everybody_lives origin_down audit_up desk "r1" id (asked_at_desk req)).1 with
    | Ok r => Some (re_answer r) | Err _ => None end in
  answer_to "" = Some (ToClient "http://localhost:8000" "login_required" "there is no active sign-in here to continue from" "xyz") ∧
  match answer_to "b1" with Some (NotForThis p) => pe_ForbidsUI p = true | _ => False end.
Proof. vm_compute. by split. Qed.

(** A session opened from that sign-in, and another of hers whose record cannot be read. *)
Definition opened_at_desk : World kept_store :=
  (CreateAccessAndRefreshTokens sample_issuer ada_directory (ForCode (signed_in (ada_asked "k8s:prod") (from_session ada_sign_in) 5) "") "" "a1" "f1" "s1" desk_world).2.
Definition spoiled : World kept_store :=
  let s := (is_Set (sessionKey "s0") (KText "?") hour (w_store opened_at_desk)).2 in
  with_store opened_at_desk (is_Add (sessionOfKey "ada@example.com") "s0" hour s).2.

(** The sessions first and the sign-in second, so that the person can try again: where ending the
    sessions fails, the sign-in is ended all the same, and what it opened goes on. *)
Theorem half_failed_sign_out :
  let after := (SignOut desk "b1" spoiled).2 in
  (SSO_Get "b1" (w_store after)).1 = Ok None ∧
  match (ByRefreshToken "f1" (w_store after)).1 with Ok (Some x) => se_SSO x = "b1" | _ => False end.
Proof. vm_compute. by split. Qed.

Lemma signed_out_completes_nothing_witness :
  (silent sample_issuer ada_directory origin_down audit_up desk "r1" no_pending "b1" (sign_out desk "b1" true desk_world).2).1 =
    Ok (None, None, []).
Proof. apply (signed_out_completes_nothing sample_issuer ada_directory origin_down audit_up desk "b1" true). discriminate. Defined.


Definition desk_state : string := Codec_Issue sample_codec "r1" "nonce-of-16-byte" 5.

Lemma callback_completes_witness : ∃ req, pending_request (callback sample_issuer ada_directory origin_down audit_up desk "google" (Some desk_state)
  desk_state "good" "b2" desk_world).2 "r1" = Some (Ok req) ∧ ar_IsDone req = true.
Proof.
  destruct (callback_completes sample_issuer ada_directory origin_down audit_up desk "google" (Some desk_state) desk_state "good" "b2" desk_world
    (mkReply (Completed "r1") (Some "b2") (Some "") [])) with (request := "r1")
    as (_&_&_&_&who&_&_&_&_&_&_&_&_&_&_&(req&_&_&Hp&_)); [intros lifetime [= <-]; reflexivity|vm_compute; reflexivity|reflexivity|].
  eexists. split; [exact Hp|reflexivity].
Defined.

Lemma recover_never_unrecorded_witness :
  ¬ ∃ x, (SSO_Get "b2" (w_store (recover sample_issuer ada_directory origin_down audit_down desk desk_state "good" "b2" desk_world).2)).1 = Ok (Some x).
Proof.
  intros [x Hx]. destruct (recover_never_unrecorded sample_issuer ada_directory origin_down audit_down desk desk_state "good" "b2" desk_world
    (mkReply Unaudited (Some "") None [])) as [_ Hu]; [intros lifetime [= <-]; reflexivity|vm_compute; reflexivity|].
  revert x Hx. apply Hu; [reflexivity|discriminate].
Defined.

(** The sessions opened from that sign-in alone, on a store whose index is in order. *)
Definition ada_opened : Opened := mkOpened "ada@example.com" "k8s:prod" "" "code" "f1" ["openid"] "b1" (Some 5%Z).
Definition ci_opened : Opened := mkOpened "ci" "k8s:prod" "" "exchange" "f2" [] "" None.
Definition index_store : kept_store :=
  (index_history (issuer_sessions sample_issuer) [SessionsSafety.Asked (RqRecord ada_opened "s1"); SessionsSafety.Asked (RqRecord ci_opened "s2")] (NewMemoryState 5)).2.
Definition indexed_desk : World kept_store := (established desk "Ada@example.com" "google" "b1" (mkWorld index_store ∅ ∅ ∅ None [])).2.

Lemma desk_agrees : ∃ b, agrees (issuer_sessions sample_issuer) (w_store indexed_desk) b.
Proof.
  assert (reached (issuer_sessions sample_issuer) index_store) as Hr.
  { exists (NewMemoryState 5), [SessionsSafety.Asked (RqRecord ada_opened "s1"); SessionsSafety.Asked (RqRecord ci_opened "s2")].
    split; [by intros key|]. split; [by repeat constructor|done]. }
  apply reached_agrees in Hr as [b Hb]; [|done]. exists b.
  assert (wp (established desk "Ada@example.com" "google" "b1") (mkWorld index_store ∅ ∅ ∅ None []) (λ _ w', agrees (issuer_sessions sample_issuer) (w_store w') b))
    as Hw; [|exact Hw].
  apply wp_established; [by intros lifetime [= <-]|]. intros who cookie w' _ _ _ _ _ Hs _ _ _. by eapply agrees_sso.
Qed.

Lemma SignOut_ends_sessions_witness :
  (byID "s1" (w_store (sign_out desk "b1" false indexed_desk).2)).1 = Ok None ∧
  ∃ x, (byID "s2" (w_store (sign_out desk "b1" false indexed_desk).2)).1 = Ok (Some x).
Proof.
  destruct desk_agrees as [b Hb].
  destruct (SignOut_ends_sessions sample_issuer desk "b1" false indexed_desk b ada_sign_in) as (announced&n&_&_&Hall);
    [reflexivity|discriminate|exact Hb|vm_compute; reflexivity|reflexivity|discriminate|]. split.
  - specialize (Hall "s1" (mkSession "s1" "ada@example.com" "k8s:prod" "code" ["openid"] "" "b1" (Some 5%Z) 5 43200000000005 None) ltac:(vm_compute; reflexivity)).
    cbv iota in Hall. rewrite decide_True in Hall by (split; reflexivity). apply Hall.
  - specialize (Hall "s2" (mkSession "s2" "ci" "k8s:prod" "exchange" [] "" "" None 5 43200000000005 None) ltac:(vm_compute; reflexivity)).
    cbv iota in Hall. rewrite decide_False in Hall by (intros [Hi _]; vm_compute in Hi; discriminate Hi). eexists. exact Hall.
Defined.
